(* ===== verification/_CoqProject ===== *)
-Q . S2P
Prelude.v
Keys.v
Redis.v
RedisFacts.v
Scripts.v
Types.v
Keyspace.v
Topic.v
Json.v
Message.v
MessageCodec.v
Publish.v
Consume.v
Accounts.v
Accounting.v
Retry.v
Delivery.v
Copy.v
Manage.v
Schedule.v
Lifecycle.v
Batch.v
QueueState.v
PurgeJobs.v
Purge.v
Configuration.v
Lock.v
Exchange.v
Bindings.v
Routing.v
Produce.v
Admin.v
Subscribe.v
Reaper.v
Handler.v
Runner.v
EventBus.v
Events.v
Browse.v
Namespace.v
Runtime.v
Typing.v
