(* ===== verification/Prelude.v ===== *)
(** * A verification of go-redis-smq

    go-redis-smq is a message queue: producers publish messages to named
    queues, consumers fetch, process and acknowledge them, and Redis holds all
    the state.  Most changes of shared state are Lua scripts that Redis runs
    atomically; the Go code prepares the scripts' KEYS and ARGV, calls them and
    interprets their replies.  This development models both sides and proves
    what makes them correct together, and shows where they are not.

    ** The program and its model

    The base:
    - Prelude.v: notation, automation, machine integers (Go's [int] and [int64]
      with wrap-around, Redis' [string2ll], Go's [ParseInt] and decimal
      printing) and lemmas on lists shared by the other files.
    - Keys.v: pkg/redis/validate_key.go and the key builders of
      internal/redis/keys.  All builders are jointly injective on colon-free
      parts, so two structures never share a key.
    - Redis.v, RedisFacts.v: the Redis the code relies on: a keyspace of typed
      values with expiry times, the commands with their WRONGTYPE, integer and
      overflow errors, and the script monad [M], which stops at the first error
      and keeps the writes made before it.
    - Scripts.v: loading and calling the scripts
      (internal/redis/scripts/manager.go); a call runs the registered text.
    - Types.v: the enumerations, schemas, parameters and configuration of
      pkg/queue, pkg/message, pkg/exchange, pkg/config and the hash schemas.
    - Keyspace.v: which key holds which type ([wt]), the frame of a script
      ([touches]), and the counters of a queue.
    - Json.v: encoding/json as far as it is used, with a reader and a printer.

    Messages and their life:
    - Message.v, MessageCodec.v: the message builder
      (pkg/message/message_types.go), the lifecycle state (pkg/message/state.go),
      the envelope with expiry, retries and scheduling
      (internal/message/envelope.go), copies (clone.go), and the codecs
      (internal/message/codec.go, pkg/message/params.go).
    - Publish.v: core/publish-message.lua with the argument builder and the
      dispatch of internal/producer.
    - Consume.v: core/checkout-message.lua, acknowledge-message.lua,
      unacknowledge-message.lua, check-queue-rate-limit.lua and
      commands/zpoplpush.lua with dequeue_message.go, batch_acker.go,
      message_unacknowledger.go and unacknowledge.go of internal/consumer.
    - Accounts.v: the abstract specification of a queue: a map from message
      identifiers to statuses.  [accounts_of q s a] says that keyspace [s]
      implements it.  Accounting.v: publication, checkout, acknowledgement and
      unacknowledgement implement operations on the accounts.
    - Retry.v: core/requeue-immediate.lua and requeue-delayed.lua with the
      workers immediate_requeuer.go and delayed_requeuer.go; the class
      [RetryTurn] is what one turn of either script promises to the batch.
    - Delivery.v: what pops take from FIFO, LIFO and priority queues, and what
      the rate limit admits.
    - Copy.v, Manage.v, Schedule.v: the copies that scripts publish; reading,
      deleting and requeuing stored messages (internal/message/store.go); the
      worker that publishes scheduled messages (scheduled_publisher.go).
    - Lifecycle.v: a queue as a transition system in which all of these
      interleave, its invariant, and the refinement theorems of the consumer's
      scripts.
    - Batch.v: the buffers of batch_acker.go and batch_unacker.go, with the
      timers' flushes interleaved access by access.
    - Browse.v: the messages of a queue by pages (internal/queue/browse.go).

    Queues, exchanges and consumers:
    - QueueState.v: core/set-queue-state.lua, internal/queue/state.go and
      state_manager.go: pausing, stopping, resuming and locking a queue while
      clients decide on readings that may be outdated.  Lock.v: the distributed
      lock of internal/util/lock and its scripts, with calls whose replies are
      lost.
    - PurgeJobs.v, Purge.v: the records of purge jobs with the scripts jobs/*.lua,
      and the manager and the worker that empty a queue (internal/queue/purge_*.go).
    - Admin.v: creating, reading and deleting queues, consumer groups and rate
      limits, and the registration of consumers; Namespace.v: namespaces and
      their deletion (internal/namespace).
    - Topic.v, Exchange.v, Bindings.v, Routing.v: topic patterns; exchanges of
      the three types and their optimistic transactions; the indexes of
      bindings; routing (internal/exchange).
    - Produce.v: producing to queues, groups and exchanges, with the resolver of
      consumer groups (internal/producer).
    - Subscribe.v, Reaper.v, Handler.v, Runner.v: the registration of consumers;
      heartbeats, the recovery of dead consumers and orphaned locks; message
      handlers; the runner that keeps them, its runs and reconciliations taken
      from one section under its lock to the next, and consumers
      (internal/consumer).

    Processes:
    - Configuration.v: the shared configuration and the copies of it, which
      callers write to (internal/config, core/save-config.lua).
    - EventBus.v, Events.v: event buses, the multiplexer, and the events of
      queues, consumers and producers with their subscribers.
    - Runtime.v: starting and stopping the library in a process (redissmq.go)
      and producers, with the goroutines that wait for contexts.
    - Typing.v, the last file: all scripts, and the requests the Go functions
      make without scripts, together keep the keyspace well typed.

    Definitions keep the names of the source where the language allows it.  A
    script is a function of KEYS and ARGV, read by position ([arg]) as in Lua,
    so that a mistake in the order of the arguments the Go code sends would
    show.  A Go operation is a function of the keyspace and of the clocks and
    generated identifiers it reads; where other clients can act between two of
    its requests, what they do is an argument ([between], [others]).

    ** What the theorems show

    - Bookkeeping (Accounts, Accounting, Retry, Manage, Schedule, Lifecycle): in
      every keyspace reached while consumers settle only what they checked out,
      and no repeating message fires that was deleted since it was read, the
      counters of a queue are the numbers of its messages in each status; each
      script refines its abstract operation on every branch, replies and errors
      included; a message is handed out once; a retry comes when its delay has
      passed and not before; a repeat limit of [n] gives [n] deliveries.
    - Types (Typing, Keys): every key keeps the type of its structure under all
      scripts and requests, which discharges the hypothesis [wt] of the other
      theorems.
    - Publication and routing (Publish, Produce, Routing): the reply and the
      effect for every state of the queue, that a stored message reads back as
      it was sent but for what the codec loses ([reread]), that exchanges route to the bound queues and to no others,
      and that the resolver implements a map to groups.
    - Delivery (Delivery, Browse): the order of delivery for the three queue
      types, the number of deliveries in a rate-limit window, and that browsing
      by pages gives every message once.
    - Administration (Admin, Namespace, QueueState, Lock, Purge, PurgeJobs):
      what creating and deleting does and leaves alone, the history of states
      as a path of the state graph under concurrency, mutual exclusion of
      leases, consistency of purge jobs while no worker saves over a job that
      is not its own any more, and that a job whose context is not cancelled
      ends.
    - Consumers (Subscribe, Reaper, Handler, Runner): the three records of a
      subscription agree, the messages a dead consumer of an open queue had
      checked out are recovered exactly, a consumed message is settled by what
      its handler returned and by its timeout in every interleaving, and a
      consumer has one running handler for each queue and group while nothing
      is started during a run or a reconciliation.
    - Processes (Configuration, EventBus, Events, Runtime): copies of the
      configuration that were not written to since they were read or saved
      agree, and reloading converges, events reach their subscribers as they
      were published, and cancelling the context shuts everything down.
    - Messages (Message, MessageCodec, Batch, Topic): builder invariants,
      bounds of schedules, round trips of the encodings, what batching keeps,
      and the topic matcher against the AMQP relation.

    Some theorems state where the code does not do what it means to.  Among
    them: a pop from a queue that refuses checkouts strands the message; a
    timer flush loses a concurrent addition; a purge in several batches leaves
    every second batch behind; reconciliation starts one more handler every
    five seconds for a consumer with a group of its own, and a second one for a
    queue that is resumed meanwhile; a cancelled purge leaves its queue locked;
    a failed release leaves the lock acquired; unbinding races with binding; a
    goroutine that outlives a shutdown stops the next run or panics.

    ** Bounds and assumptions

    Recursion is structural but for three loops with fuel: the JSON reader's is
    the length of the text ([parse_print] shows it enough for what is printed),
    the purge loop's one more than the size of the category
    ([purge_messages_terminates]) and the browsing loop's one more than the
    number of messages ([browse_pages]).  The loops of scripts run over the
    argument list, and the acquisition loop of the lock over its backoff.  The
    counters are exact while a queue has had fewer than 2^62 messages, which
    keeps every [HINCRBY] within 64 bits; a step of Lifecycle.v fires at most 99
    scheduled messages, as many as the worker reads in a tick.  Versions of the
    configuration stay below 2^63, and the numbers in events are exact up to
    2^53, where Go reads them as floating point.  Scores of sorted sets are
    integers: only priorities and Unix milliseconds are stored.  Identifiers,
    routing keys, queue and group names are assumed free of colons where a
    theorem needs keys to differ; the validator and the generator of
    identifiers guarantee it, except for routing keys.  The CRON parser, the
    generator of identifiers, the clocks, the capacity Go's [append] chooses
    and the order in which Go iterates over maps are parameters.  One tick of a
    worker reads the clock once.  Optimistic transactions retry as
    internal/redis/tx.go says; blocking commands are modelled by what they
    return.

    ** Not modelled

    The connection to Redis (internal/redis/client.go beyond whether a client is
    set), logging, test utilities, the examples, the random part of the lock's backoff, and the
    managers of internal/queue and internal/exchange that only forward to the
    stores modelled here.  The read-only script get-queue-state.lua is not
    called.  Goroutines are modelled where they share state: workers and tickers
    appear as steps that may happen at any time. *)

From stdpp Require Export gmap strings list fin_maps.
From Stdlib Require Export Ascii.
From Stdlib Require Import DecimalString DecimalZ DecimalPos.

Declare Scope smq_scope.
Delimit Scope smq_scope with smq.

(** ** Proof automation shared by the components *)

Create HintDb smq.

(** Case analysis on the scrutinee of a [match] or [if], keeping equations. *)
Ltac case_all :=
  repeat (case_match || case_decide); simplify_eq/=; try done.

(** Closes goals by the development's hint base after case analysis. *)
Ltac smq_auto := simplify_eq/=; eauto with smq; try lia; try congruence.

(** ** Machine integers: Go's [int] and [int64] on a 64-bit platform *)

Definition int64_min : Z := -9223372036854775808.
Definition int64_max : Z := 9223372036854775807.

Definition in_int64 (z : Z) : Prop := (int64_min ≤ z ≤ int64_max)%Z.

#[global] Instance in_int64_dec z : Decision (in_int64 z).
Proof. unfold in_int64. apply _. Defined.

(** Two's complement wrap-around of a result to 64 bits. *)
Definition wrap64 (z : Z) : Z :=
  ((z + 9223372036854775808) mod 18446744073709551616 - 9223372036854775808)%Z.

Lemma wrap64_id z : in_int64 z → wrap64 z = z.
Proof.
  unfold in_int64, int64_min, int64_max, wrap64. intros H.
  rewrite Z.mod_small; lia.
Qed.

Lemma wrap64_in z : in_int64 (wrap64 z).
Proof.
  unfold in_int64, int64_min, int64_max, wrap64.
  pose proof (Z.mod_pos_bound (z + 9223372036854775808) 18446744073709551616).
  lia.
Qed.

#[export] Hint Resolve wrap64_in : smq.

(** ** Decimal conversions: [strconv.Itoa], [strconv.ParseInt] *)

(** [strconv.Itoa] / [strconv.FormatInt(_, 10)] / [fmt.Sprintf("%d", _)]. *)
Definition itoa (z : Z) : string := NilZero.string_of_int (Z.to_int z).

Inductive parse_err := ErrSyntax | ErrRange.

(** The magnitude: a non-empty run of decimal digits. *)
Definition parse_uint (s : string) : option Z :=
  match NilZero.uint_of_string s with
  | Some d => Some (Z.of_uint d)
  | None => None
  end.

Definition parse_signed (neg : bool) (s : string) : Z * option parse_err :=
  match parse_uint s with
  | None => (0%Z, Some ErrSyntax)
  | Some n =>
      if neg
      then if decide (n ≤ 9223372036854775808)%Z then ((- n)%Z, None)
           else (int64_min, Some ErrRange)
      else if decide (n ≤ int64_max)%Z then (n, None)
           else (int64_max, Some ErrRange)
  end.

(** [strconv.ParseInt(s, 10, 64)] (and [strconv.Atoi], whose result type is
    also 64 bits wide): the value Go returns together with the error.  A
    syntax error comes with 0 and a range error with the nearest bound, which
    is what a caller that drops the error sees. *)
Definition ParseInt (s : string) : Z * option parse_err :=
  match s with
  | EmptyString => (0%Z, Some ErrSyntax)
  | String c r =>
      if decide (c = "+"%char) then parse_signed false r
      else if decide (c = "-"%char) then parse_signed true r
      else parse_signed false s
  end.

Lemma parse_uint_of_uint d :
  d ≠ Decimal.Nil → parse_uint (NilZero.string_of_uint d) = Some (Z.of_uint d).
Proof. intros Hd. unfold parse_uint. by rewrite NilZero.usu. Qed.

Lemma string_of_uint_head d :
  ∃ c r, NilZero.string_of_uint d = String c r ∧ c ≠ "+"%char ∧ c ≠ "-"%char.
Proof. destruct d; eexists _, _; repeat split; discriminate. Qed.

Lemma of_uint_pos p : Z.of_uint (Pos.to_uint p) = Z.pos p.
Proof.
  pose proof (of_to (Z.pos p)) as H. simpl in H. done.
Qed.

Lemma parse_signed_false_itoa z :
  (0 ≤ z ≤ int64_max)%Z → parse_signed false (itoa z) = (z, None).
Proof.
  intros [H0 H1]. unfold parse_signed, itoa. destruct z as [|p|p]; [done| |lia].
  simpl. rewrite parse_uint_of_uint by apply Unsigned.to_uint_nonnil.
  rewrite of_uint_pos. by rewrite decide_True.
Qed.

(** A decimal rendering parses back, for every value of the machine type. *)
Lemma ParseInt_itoa z : in_int64 z → ParseInt (itoa z) = (z, None).
Proof.
  intros [Hmin Hmax]. destruct (decide (0 ≤ z)%Z) as [Hz|Hz].
  - pose proof (parse_signed_false_itoa z (conj Hz Hmax)) as Hp.
    assert (∃ c r, itoa z = String c r ∧ c ≠ "+"%char ∧ c ≠ "-"%char) as Hh.
    { destruct z as [|p|p]; [by exists "0"%char, ""| |lia].
      apply string_of_uint_head. }
    destruct Hh as (c & r & Hs & Hc1 & Hc2). rewrite Hs in Hp |- *. simpl.
    by rewrite !decide_False by done.
  - destruct z as [|p|p]; [lia|lia|]. unfold itoa, ParseInt. simpl.
    unfold parse_signed.
    rewrite parse_uint_of_uint by apply Unsigned.to_uint_nonnil.
    rewrite of_uint_pos. unfold int64_min in Hmin. by rewrite decide_True by lia.
Qed.

Lemma itoa_nonempty z : itoa z ≠ "".
Proof.
  unfold itoa. destruct z as [|p|p]; [done| |done].
  destruct (string_of_uint_head (Pos.to_uint p)) as (c & r & Hs & _).
  simpl. by rewrite Hs.
Qed.

#[global] Instance itoa_inj : Inj (=) (=) itoa.
Proof.
  intros x y H. rewrite <-(of_to x), <-(of_to y). f_equal.
  unfold itoa in H. apply (f_equal NilZero.int_of_string) in H.
  rewrite !NilZero.isi in H; [congruence|..];
    destruct x, y; simpl; try done; intros [=];
    by eapply Unsigned.to_uint_nonnil.
Qed.

#[export] Hint Resolve itoa_nonempty ParseInt_itoa : smq.

(** Redis' [string2ll], used by [HINCRBY] and [DECR]: only the canonical
    decimal form of a 64-bit integer is accepted. *)
Definition string2ll (s : string) : option Z :=
  match ParseInt s with
  | (z, None) => if decide (itoa z = s) then Some z else None
  | _ => None
  end.

Lemma string2ll_itoa z : in_int64 z → string2ll (itoa z) = Some z.
Proof. intros H. unfold string2ll. rewrite ParseInt_itoa by done. by rewrite decide_True. Qed.

#[export] Hint Resolve string2ll_itoa : smq.

(** [util.BoolToInt] and the [boolToStr] of the message codec render a flag as
    "1" or "0". *)
Definition bool_digit (b : bool) : string := if b then "1" else "0".

Lemma bool_digit_inv b : bool_decide (bool_digit b = "1") = b.
Proof. by destruct b. Qed.

(** ** Lists *)

(** Removal of the first occurrence, as [LREM key 1 v] does. *)
Fixpoint remove_first (v : string) (l : list string) : list string :=
  match l with
  | [] => []
  | x :: l' => if decide (x = v) then l' else x :: remove_first v l'
  end.

Lemma remove_first_notin v l : v ∉ l → remove_first v l = l.
Proof.
  induction l as [|x l IH]; [done|]. intros [Hx Hl]%not_elem_of_cons. simpl.
  rewrite decide_False by done. by rewrite IH.
Qed.

Lemma remove_first_Permutation v l : v ∈ l → l ≡ₚ v :: remove_first v l.
Proof.
  induction l as [|x l IH]; [by intros ?%elem_of_nil|]. simpl.
  intros [<-|Hin]%elem_of_cons; [by rewrite decide_True|].
  destruct (decide (x = v)) as [->|Hne]; [done|].
  etrans; [apply perm_skip, (IH Hin)|apply perm_swap].
Qed.

Lemma length_remove_first v l : v ∈ l → S (length (remove_first v l)) = length l.
Proof. intros H. symmetry. by apply (Permutation_length (remove_first_Permutation v l H)). Qed.

Lemma elem_of_remove_first x v l : x ∈ remove_first v l → x ∈ l.
Proof.
  induction l as [|y l IH]; [done|]. simpl. case_decide; set_solver.
Qed.

Lemma NoDup_remove_first v l : NoDup l → NoDup (remove_first v l).
Proof.
  induction 1 as [|x l Hx Hl IH]; simpl; [constructor|].
  case_decide; [done|]. constructor; [|done].
  intros Hin. by apply Hx, (elem_of_remove_first _ v).
Qed.

Lemma not_elem_of_remove_first v l : NoDup l → v ∉ remove_first v l.
Proof.
  induction 1 as [|x l Hx Hl IH]; simpl; [by apply not_elem_of_nil|].
  case_decide; [by subst|]. by apply not_elem_of_cons.
Qed.

Lemma elem_of_remove_first_ne x v l : x ≠ v → x ∈ l → x ∈ remove_first v l.
Proof.
  intros Hne. induction l as [|y l IH]; [done|]. simpl.
  intros [->|Hin]%elem_of_cons; case_decide; set_solver.
Qed.

#[export] Hint Resolve NoDup_remove_first elem_of_remove_first : smq.
