(* ===== verification/Keys.v ===== *)
(** * Redis keys

    The key validator of pkg/redis/validate_key.go and the key builders of
    internal/redis/keys: every Redis key of the system is the fixed prefix
    followed by colon-separated parts.  The main result is that the builders
    are jointly injective on colon-free parts, so that no two structures of the
    system ever share a key; validated names are colon-free. *)

From S2P Require Import Prelude.

(** ** Key validation (pkg/redis/validate_key.go) *)

Definition byte_between (lo hi c : ascii) : bool :=
  bool_decide (nat_of_ascii lo ≤ nat_of_ascii c ∧ nat_of_ascii c ≤ nat_of_ascii hi).

Definition isLetter (c : ascii) : bool := byte_between "a" "z" c.

Definition isDigit (c : ascii) : bool := byte_between "0" "9" c.

Definition isValidKeyChar (c : ascii) : bool :=
  isLetter c || isDigit c || bool_decide (c = "-"%char) ||
  bool_decide (c = "_"%char) || bool_decide (c = "."%char).

Definition lower_ascii (c : ascii) : ascii :=
  if byte_between "A" "Z" c then ascii_of_nat (nat_of_ascii c + 32) else c.

(** [strings.ToLower] on the bytes of a UTF-8 string.  Exactly two runes
    outside ASCII have an ASCII lower case: U+0130 (bytes C4 B0) becomes 'i'
    and U+212A (bytes E2 84 AA) becomes 'k'.  Every other rune outside ASCII
    lowers to a rune outside ASCII; its bytes are left as they are here, which
    the validator cannot tell apart because it rejects every byte above 7F. *)
Fixpoint ToLower (s : string) : string :=
  match s with
  | EmptyString => EmptyString
  | String c1 r1 =>
      match r1 with
      | String c2 r2 =>
          if decide (nat_of_ascii c1 = 196 ∧ nat_of_ascii c2 = 176)
          then String "i" (ToLower r2)
          else match r2 with
               | String c3 r3 =>
                   if decide (nat_of_ascii c1 = 226 ∧ nat_of_ascii c2 = 132 ∧
                              nat_of_ascii c3 = 170)
                   then String "k" (ToLower r3)
                   else String (lower_ascii c1) (ToLower r1)
               | EmptyString => String (lower_ascii c1) (ToLower r1)
               end
      | EmptyString => String (lower_ascii c1) EmptyString
      end
  end.

(** The loop over [key[1:]]. *)
Fixpoint all_key_chars (s : string) : bool :=
  match s with
  | EmptyString => true
  | String c r => isValidKeyChar c && all_key_chars r
  end.

(** [None] is [ErrInvalidKey]. *)
Definition ValidateKey (key : string) : option string :=
  match key with
  | EmptyString => None
  | _ =>
      match ToLower key with
      | EmptyString => None
      | String c r as key' =>
          if negb (isLetter c) then None
          else if all_key_chars r then Some key' else None
      end
  end.

(** ** Key builders (internal/redis/keys/redis_keys.go) *)

Definition version : string := "10".
Definition sep : string := ":".
Definition prefix : string := "redis-smq" +:+ sep +:+ version.

(** The loop of [strings.Builder] writes: a separator before every part. *)
Fixpoint key_suffix (parts : list string) : string :=
  match parts with
  | [] => ""
  | p :: ps => sep +:+ p +:+ key_suffix ps
  end.

Definition Key (parts : list string) : string := prefix +:+ key_suffix parts.

(** *** Namespaces (internal/redis/keys/namespace.go) *)

Definition NamespaceQueues (ns : string) : string := Key ["ns"; ns; "q"].
Definition NamespaceExchanges (ns : string) : string := Key ["ns"; ns; "exs"].

(** *** Queues (internal/redis/keys/queue.go) *)

Record Queue := { Namespace : string; Name : string }.

Section queue_keys.
Variable q : Queue.
Let queue_key (rest : list string) : string :=
  Key (["ns"; Namespace q; "q"; Name q] ++ rest).

Definition Properties : string := queue_key ["prop"].
Definition Published : string := queue_key ["pub"].
Definition Pending : string := queue_key ["pend"].
Definition Priority : string := queue_key ["prio"].
Definition DeadLetter : string := queue_key ["dl"].
Definition Acknowledged : string := queue_key ["ack"].
Definition Scheduled : string := queue_key ["sched"].
Definition Delayed : string := queue_key ["dly"].
Definition Requeued : string := queue_key ["req"].
Definition Consumers : string := queue_key ["cons"].
Definition ConsumerGroups : string := queue_key ["cgp"].
Definition StateHistory : string := queue_key ["sh"].
Definition ExchangeBindings : string := queue_key ["bind"].
Definition ProcessingQueues : string := queue_key ["proc-q"].
Definition WorkersLock : string := queue_key ["wlock"].
Definition RateLimit : string := queue_key ["rate"].
Definition PendingWithGroup (groupID : string) : string :=
  queue_key ["cgp"; groupID; "pend"].
Definition PriorityWithGroup (groupID : string) : string :=
  queue_key ["cgp"; groupID; "prio"].
Definition ConsumerProcessing (consumerID : string) : string :=
  queue_key ["cons"; consumerID; "proc"].
Definition ConsumerGroupMembers (groupID : string) : string :=
  queue_key ["cgp"; groupID; "cons"].
End queue_keys.

(** *** Exchanges (internal/redis/keys/exchange.go) *)

Record Exchange := { ExNamespace : string; ExName : string }.

Section exchange_keys.
Variable e : Exchange.
Let exchange_key (rest : list string) : string :=
  Key (["ns"; ExNamespace e; "exs"; ExName e] ++ rest).

Definition ExchangeKey : string := exchange_key [].
Definition ExchangeProperties : string := exchange_key ["prop"].
Definition RoutingKeys : string := exchange_key ["rk"].
Definition RoutingKeyQueues (routingKey : string) : string :=
  exchange_key ["rk"; routingKey; "q"].
Definition BindingPatterns : string := exchange_key ["pat"].
Definition PatternQueues (pattern : string) : string := exchange_key ["pat"; pattern; "q"].
Definition FanoutQueues : string := exchange_key ["q"].
End exchange_keys.

(** *** The system (internal/redis/keys/system.go and message.go) *)

Definition Config : string := Key ["main"; "cfg"].
Definition AllQueues : string := Key ["main"; "q"].
Definition AllExchanges : string := Key ["main"; "exs"].
Definition AllNamespaces : string := Key ["main"; "ns"].
Definition PurgeJobs : string := Key ["main"; "pg-jobs"].
Definition PendingPurgeJobs : string := Key ["main"; "pg-jobs"; "pend"].
Definition ActivePurgeJobs : string := Key ["main"; "pg-jobs"; "proc"].
Definition JobWorker (jobID : string) : string := Key ["main"; "jobs"; jobID; "wrk"].
Definition WorkerHeartbeat (workerID : string) : string := Key ["main"; "wrk"; workerID; "hb"].
Definition ConsumerQueues (consumerID : string) : string := Key ["main"; "cons"; consumerID; "q"].
Definition ConsumerHeartbeat (consumerID : string) : string := Key ["main"; "cons"; consumerID; "hb"].
Definition Message (messageID : string) : string := Key ["main"; "msg"; messageID].
Definition MessageAcknowledgementHistory (messageID : string) : string :=
  Key ["main"; "msg"; messageID; "uh"].

(** ** Colon-free parts *)

Fixpoint no_colon (s : string) : bool :=
  match s with
  | EmptyString => true
  | String c r => negb (bool_decide (c = ":"%char)) && no_colon r
  end.

#[export] Hint Extern 0 (no_colon _ = true) => (assumption || reflexivity) : smq.

Lemma isLetter_no_colon c : isLetter c = true → c ≠ ":"%char.
Proof. by intros H ->. Qed.

Lemma isValidKeyChar_no_colon c : isValidKeyChar c = true → c ≠ ":"%char.
Proof. by intros H ->. Qed.

Lemma all_key_chars_no_colon s : all_key_chars s = true → no_colon s = true.
Proof.
  induction s as [|c s IH]; [done|]. simpl. intros [Hc Hs]%andb_prop.
  rewrite IH by done. by rewrite bool_decide_eq_false_2 by by apply isValidKeyChar_no_colon.
Qed.

Lemma letter_key_char c : isLetter c = true → isValidKeyChar c = true.
Proof. intros H. unfold isValidKeyChar. by rewrite H. Qed.

(** *** Validated keys are fixed points of the validator *)

Lemma lower_key_char c : isValidKeyChar c = true → lower_ascii c = c.
Proof. destruct c as [[] [] [] [] [] [] [] []]; by vm_compute. Qed.

Lemma key_char_ascii c : isValidKeyChar c = true → nat_of_ascii c < 128.
Proof. destruct c as [[] [] [] [] [] [] [] []]; vm_compute; intros; try done; lia. Qed.

Lemma ToLower_key_chars s : all_key_chars s = true → ToLower s = s.
Proof.
  induction s as [|c s IH]; [done|]. simpl. intros [Hc Hs]%andb_prop.
  rewrite IH by done. rewrite lower_key_char by done.
  pose proof (key_char_ascii c Hc).
  destruct s as [|c2 s2]; [done|]. rewrite decide_False by lia.
  destruct s2 as [|c3 s3]; [done|]. by rewrite decide_False by lia.
Qed.

Lemma ValidateKey_inv key k :
  ValidateKey key = Some k →
  ∃ c r, k = String c r ∧ isLetter c = true ∧ all_key_chars r = true.
Proof.
  unfold ValidateKey. destruct key as [|c0 s0]; [done|].
  destruct (ToLower (String c0 s0)) as [|c r]; [done|].
  destruct (isLetter c) eqn:Hl; simpl; [|done].
  destruct (all_key_chars r) eqn:Hr; [|done]. intros [= <-]. by exists c, r.
Qed.

Lemma ValidateKey_complete c r :
  isLetter c = true → all_key_chars r = true → ValidateKey (String c r) = Some (String c r).
Proof.
  intros Hl Hr. unfold ValidateKey. rewrite ToLower_key_chars.
  - by rewrite Hl, Hr.
  - simpl. by rewrite letter_key_char, Hr.
Qed.

Lemma ValidateKey_no_colon key k : ValidateKey key = Some k → no_colon k = true.
Proof.
  intros (c & r & -> & Hl & Hr)%ValidateKey_inv. simpl.
  rewrite all_key_chars_no_colon by done.
  by rewrite bool_decide_eq_false_2 by by apply isLetter_no_colon.
Qed.

#[export] Hint Resolve ValidateKey_no_colon : smq.

(** *** Splitting a key at its separators *)

Definition sep_or_end (s : string) : Prop := s = "" ∨ ∃ r, s = String ":" r.

Lemma key_suffix_sep ps : sep_or_end (key_suffix ps).
Proof. destruct ps as [|p ps]; [by left|]. right. by eexists. Qed.

Lemma no_colon_split p q r1 r2 :
  no_colon p = true → no_colon q = true → sep_or_end r1 → sep_or_end r2 →
  p +:+ r1 = q +:+ r2 → p = q ∧ r1 = r2.
Proof.
  revert q. induction p as [|c p IH]; intros [|d q]; simpl; try done.
  - intros _ [Hd _]%andb_prop [->|[r ->]] _ [=]; subst. by rewrite bool_decide_eq_true_2 in Hd.
  - intros [Hc _]%andb_prop _ _ [->|[r ->]] [=]; subst. by rewrite bool_decide_eq_true_2 in Hc.
  - intros [_ Hp]%andb_prop [_ Hq]%andb_prop H1 H2 [= -> E].
    destruct (IH q Hp Hq H1 H2 E) as [-> ->]. done.
Qed.

Lemma key_suffix_inj ps qs :
  Forall (λ p, no_colon p = true) ps → Forall (λ p, no_colon p = true) qs →
  key_suffix ps = key_suffix qs → ps = qs.
Proof.
  intros Hps. revert qs. induction Hps as [|p ps Hp Hps IH]; intros [|q qs] Hqs; try done.
  apply Forall_cons in Hqs as [Hq Hqs]. simpl. intros [= E].
  destruct (no_colon_split p q _ _ Hp Hq (key_suffix_sep ps) (key_suffix_sep qs) E) as [-> E'].
  f_equal. by apply IH.
Qed.

Lemma Key_inj ps qs :
  Forall (λ p, no_colon p = true) ps → Forall (λ p, no_colon p = true) qs →
  Key ps = Key qs → ps = qs.
Proof. intros Hps Hqs [= E]. by apply key_suffix_inj. Qed.

(** *** Every key of the system

    One constructor per builder, with the builder's arguments. *)

Inductive redis_key :=
| KNamespaceQueues (ns : string) | KNamespaceExchanges (ns : string)
| KProperties (q : Queue) | KPublished (q : Queue) | KPending (q : Queue)
| KPriority (q : Queue) | KDeadLetter (q : Queue) | KAcknowledged (q : Queue)
| KScheduled (q : Queue) | KDelayed (q : Queue) | KRequeued (q : Queue)
| KConsumers (q : Queue) | KConsumerGroups (q : Queue) | KStateHistory (q : Queue)
| KExchangeBindings (q : Queue) | KProcessingQueues (q : Queue)
| KWorkersLock (q : Queue) | KRateLimit (q : Queue)
| KPendingWithGroup (q : Queue) (g : string) | KPriorityWithGroup (q : Queue) (g : string)
| KConsumerProcessing (q : Queue) (c : string) | KConsumerGroupMembers (q : Queue) (g : string)
| KExchange (e : Exchange) | KExchangeProperties (e : Exchange) | KRoutingKeys (e : Exchange)
| KRoutingKeyQueues (e : Exchange) (rk : string) | KBindingPatterns (e : Exchange)
| KPatternQueues (e : Exchange) (p : string) | KFanoutQueues (e : Exchange)
| KConfig | KAllQueues | KAllExchanges | KAllNamespaces
| KPurgeJobs | KPendingPurgeJobs | KActivePurgeJobs
| KJobWorker (j : string) | KWorkerHeartbeat (w : string)
| KConsumerQueues (c : string) | KConsumerHeartbeat (c : string)
| KMessage (m : string) | KMessageHistory (m : string).

Definition render_key (k : redis_key) : string :=
  match k with
  | KNamespaceQueues ns => NamespaceQueues ns
  | KNamespaceExchanges ns => NamespaceExchanges ns
  | KProperties q => Properties q | KPublished q => Published q
  | KPending q => Pending q | KPriority q => Priority q
  | KDeadLetter q => DeadLetter q | KAcknowledged q => Acknowledged q
  | KScheduled q => Scheduled q | KDelayed q => Delayed q
  | KRequeued q => Requeued q | KConsumers q => Consumers q
  | KConsumerGroups q => ConsumerGroups q | KStateHistory q => StateHistory q
  | KExchangeBindings q => ExchangeBindings q
  | KProcessingQueues q => ProcessingQueues q
  | KWorkersLock q => WorkersLock q | KRateLimit q => RateLimit q
  | KPendingWithGroup q g => PendingWithGroup q g
  | KPriorityWithGroup q g => PriorityWithGroup q g
  | KConsumerProcessing q c => ConsumerProcessing q c
  | KConsumerGroupMembers q g => ConsumerGroupMembers q g
  | KExchange e => ExchangeKey e | KExchangeProperties e => ExchangeProperties e
  | KRoutingKeys e => RoutingKeys e | KRoutingKeyQueues e rk => RoutingKeyQueues e rk
  | KBindingPatterns e => BindingPatterns e | KPatternQueues e p => PatternQueues e p
  | KFanoutQueues e => FanoutQueues e
  | KConfig => Config | KAllQueues => AllQueues | KAllExchanges => AllExchanges
  | KAllNamespaces => AllNamespaces | KPurgeJobs => PurgeJobs
  | KPendingPurgeJobs => PendingPurgeJobs | KActivePurgeJobs => ActivePurgeJobs
  | KJobWorker j => JobWorker j | KWorkerHeartbeat w => WorkerHeartbeat w
  | KConsumerQueues c => ConsumerQueues c | KConsumerHeartbeat c => ConsumerHeartbeat c
  | KMessage m => Message m | KMessageHistory m => MessageAcknowledgementHistory m
  end.

(** The variable parts of a key. *)
Definition key_parts (k : redis_key) : list string :=
  match k with
  | KNamespaceQueues ns | KNamespaceExchanges ns => [ns]
  | KProperties q | KPublished q | KPending q | KPriority q | KDeadLetter q
  | KAcknowledged q | KScheduled q | KDelayed q | KRequeued q | KConsumers q
  | KConsumerGroups q | KStateHistory q | KExchangeBindings q | KProcessingQueues q
  | KWorkersLock q | KRateLimit q => [Namespace q; Name q]
  | KPendingWithGroup q x | KPriorityWithGroup q x | KConsumerProcessing q x
  | KConsumerGroupMembers q x => [Namespace q; Name q; x]
  | KExchange e | KExchangeProperties e | KRoutingKeys e | KBindingPatterns e
  | KFanoutQueues e => [ExNamespace e; ExName e]
  | KRoutingKeyQueues e x | KPatternQueues e x => [ExNamespace e; ExName e; x]
  | KConfig | KAllQueues | KAllExchanges | KAllNamespaces | KPurgeJobs
  | KPendingPurgeJobs | KActivePurgeJobs => []
  | KJobWorker x | KWorkerHeartbeat x | KConsumerQueues x | KConsumerHeartbeat x
  | KMessage x | KMessageHistory x => [x]
  end.

Definition wf_key (k : redis_key) : Prop := Forall (λ p, no_colon p = true) (key_parts k).

#[global] Instance wf_key_dec k : Decision (wf_key k).
Proof. unfold wf_key. apply _. Defined.

(** The parts of a rendered key, literals included. *)
Definition full_parts (k : redis_key) : list string :=
  let q_ (q : Queue) rest := ["ns"; Namespace q; "q"; Name q] ++ rest in
  let e_ (e : Exchange) rest := ["ns"; ExNamespace e; "exs"; ExName e] ++ rest in
  match k with
  | KNamespaceQueues ns => ["ns"; ns; "q"] | KNamespaceExchanges ns => ["ns"; ns; "exs"]
  | KProperties q => q_ q ["prop"] | KPublished q => q_ q ["pub"]
  | KPending q => q_ q ["pend"] | KPriority q => q_ q ["prio"]
  | KDeadLetter q => q_ q ["dl"] | KAcknowledged q => q_ q ["ack"]
  | KScheduled q => q_ q ["sched"] | KDelayed q => q_ q ["dly"]
  | KRequeued q => q_ q ["req"] | KConsumers q => q_ q ["cons"]
  | KConsumerGroups q => q_ q ["cgp"] | KStateHistory q => q_ q ["sh"]
  | KExchangeBindings q => q_ q ["bind"] | KProcessingQueues q => q_ q ["proc-q"]
  | KWorkersLock q => q_ q ["wlock"] | KRateLimit q => q_ q ["rate"]
  | KPendingWithGroup q g => q_ q ["cgp"; g; "pend"]
  | KPriorityWithGroup q g => q_ q ["cgp"; g; "prio"]
  | KConsumerProcessing q c => q_ q ["cons"; c; "proc"]
  | KConsumerGroupMembers q g => q_ q ["cgp"; g; "cons"]
  | KExchange e => e_ e [] | KExchangeProperties e => e_ e ["prop"]
  | KRoutingKeys e => e_ e ["rk"] | KRoutingKeyQueues e rk => e_ e ["rk"; rk; "q"]
  | KBindingPatterns e => e_ e ["pat"] | KPatternQueues e p => e_ e ["pat"; p; "q"]
  | KFanoutQueues e => e_ e ["q"]
  | KConfig => ["main"; "cfg"] | KAllQueues => ["main"; "q"]
  | KAllExchanges => ["main"; "exs"] | KAllNamespaces => ["main"; "ns"]
  | KPurgeJobs => ["main"; "pg-jobs"] | KPendingPurgeJobs => ["main"; "pg-jobs"; "pend"]
  | KActivePurgeJobs => ["main"; "pg-jobs"; "proc"]
  | KJobWorker j => ["main"; "jobs"; j; "wrk"] | KWorkerHeartbeat w => ["main"; "wrk"; w; "hb"]
  | KConsumerQueues c => ["main"; "cons"; c; "q"]
  | KConsumerHeartbeat c => ["main"; "cons"; c; "hb"]
  | KMessage m => ["main"; "msg"; m] | KMessageHistory m => ["main"; "msg"; m; "uh"]
  end.

Lemma render_full_parts k : render_key k = Key (full_parts k).
Proof. by destruct k. Qed.

Lemma wf_full_parts k : wf_key k → Forall (λ p, no_colon p = true) (full_parts k).
Proof.
  unfold wf_key. intros H. destruct k; simpl in *; rewrite ?Forall_cons in H; destruct_and?;
    repeat first [apply Forall_cons; split; [auto with smq|] | by apply Forall_nil].
Qed.

Lemma full_parts_inj k1 k2 : full_parts k1 = full_parts k2 → k1 = k2.
Proof.
  destruct k1; destruct k2; intros H; try discriminate H; try done;
    repeat match goal with x : Queue |- _ => destruct x | x : Exchange |- _ => destruct x end;
    injection H; intros; subst; try done.
Qed.

Lemma render_key_inj k1 k2 :
  wf_key k1 → wf_key k2 → render_key k1 = render_key k2 → k1 = k2.
Proof.
  rewrite !render_full_parts. intros H1 H2 E.
  apply full_parts_inj, Key_inj; by auto using wf_full_parts.
Qed.

(** Two keys of different shape, or of the same shape with different parts,
    are different strings. *)
Lemma render_key_ne k1 k2 : wf_key k1 → wf_key k2 → k1 ≠ k2 → render_key k1 ≠ render_key k2.
Proof. intros H1 H2 Hne E. by apply Hne, render_key_inj. Qed.

(** ** Properties of the keys *)

(** C37: two structures of the system share a Redis key only when they are the
    same structure of the same object: the 42 key builders are jointly
    injective on colon-free names and identifiers. *)
Theorem keys_never_collide k1 k2 :
  wf_key k1 → wf_key k2 → (render_key k1 = render_key k2 ↔ k1 = k2).
Proof. intros H1 H2. split; [by apply render_key_inj|by intros ->]. Qed.

Definition sample_queue : Queue := {| Namespace := "ns1"; Name := "orders" |}.

Lemma keys_never_collide_witness :
  render_key (KPending sample_queue) = render_key (KRequeued sample_queue) ↔
  KPending sample_queue = KRequeued sample_queue.
Proof. apply keys_never_collide; apply (bool_decide_unpack _); vm_compute; exact I. Defined.

(** A name accepted by the validator is a fixed point of it, starts with a
    lower-case letter, and has no colon, so it can be a part of a key. *)
Theorem ValidateKey_sound key k :
  ValidateKey key = Some k →
  ValidateKey k = Some k ∧ no_colon k = true ∧
  ∃ c r, k = String c r ∧ isLetter c = true ∧ all_key_chars r = true.
Proof.
  intros H. pose proof (ValidateKey_inv _ _ H) as (c & r & -> & Hl & Hr).
  split; [by apply ValidateKey_complete|]. split; [by eapply ValidateKey_no_colon|].
  by exists c, r.
Qed.

Lemma ValidateKey_sound_witness :
  ValidateKey "My-Queue.v2" = Some "my-queue.v2" ∧ ValidateKey "my-queue.v2" = Some "my-queue.v2".
Proof.
  assert (ValidateKey "My-Queue.v2" = Some "my-queue.v2") as H by (vm_compute; reflexivity).
  split; [exact H|]. exact (proj1 (ValidateKey_sound _ _ H)).
Defined.
