(* ===== verification/Redis.v ===== *)
(** * The Redis data model

    The part of Redis the Lua scripts and the Go code use: a keyspace of typed
    values, the commands, and the error a command raises on a value of the
    wrong type.  A script runs in the monad [M]: it reads and writes the
    keyspace and stops at the first command error, keeping the writes made
    before it (Redis does not roll a script back).

    Scores of sorted sets are integers: the code only stores priorities and
    Unix milliseconds, which a double holds exactly.  An absent element of
    KEYS or ARGV reads as the empty string ([nth]): the scripts test absence
    only together with emptiness, and the Go callers supply every element. *)

From S2P Require Import Prelude.

(** ** Values and the keyspace *)

Inductive value :=
| VStr (s : string)
| VList (l : list string)
| VHash (h : gmap string string)
| VSet (x : gset string)
| VZSet (z : list (Z * string)).

(** [expires] holds the Unix time in milliseconds at which a key is removed. *)
Record store := Store { db : gmap string value; expires : gmap string Z }.

Definition empty_store : store := {| db := ∅; expires := ∅ |}.

(** ** The script monad *)

Inductive rerr := WRONGTYPE | NOTINT | NOTFLOAT | OVERFLOW.

#[global] Instance rerr_eq_dec : EqDecision rerr.
Proof. solve_decision. Defined.

Inductive outcome (A : Type) := Ret (a : A) | Err (e : rerr).
Arguments Ret {_} _.
Arguments Err {_} _.

#[global] Instance outcome_eq_dec {A} `{EqDecision A} : EqDecision (outcome A).
Proof. solve_decision. Defined.

Definition M (A : Type) : Type := store → outcome A * store.

#[global] Instance M_ret : MRet M := λ A a s, (Ret a, s).
#[global] Instance M_bind : MBind M := λ A B f m s,
  match m s with
  | (Ret a, s') => f a s'
  | (Err e, s') => (Err e, s')
  end.

Definition throw {A} (e : rerr) : M A := λ s, (Err e, s).

(** [for ... do ... end] over a list, with an accumulator. *)
Fixpoint foldM {A B} (f : B → A → M B) (b : B) (l : list A) : M B :=
  match l with
  | [] => mret b
  | a :: l' => b' ← f b a; foldM f b' l'
  end.

Definition when (b : bool) (m : M unit) : M unit := if b then m else mret tt.

Lemma bind_Ret {A B} (m : M A) (f : A → M B) s a s' :
  m s = (Ret a, s') → (m ≫= f) s = f a s'.
Proof. intros H. unfold mbind, M_bind. by rewrite H. Qed.

Lemma bind_Err {A B} (m : M A) (f : A → M B) s e s' :
  m s = (Err e, s') → (m ≫= f) s = (Err e, s').
Proof. intros H. unfold mbind, M_bind. by rewrite H. Qed.

Lemma ret_run {A} (a : A) s : (mret a : M A) s = (Ret a, s).
Proof. done. Qed.

(** A loop over positions is a loop over the elements at them. *)
Lemma foldM_seq {A B} (f : B → nat → M B) (g : B → A → M B) k l b s :
  (∀ b i x s, l !! i = Some x → f b (k + i)%nat s = g b x s) →
  foldM f b (seq k (length l)) s = foldM g b l s.
Proof.
  revert k b s. induction l as [|x l IH]; intros k b s Hfg; [done|]. simpl.
  pose proof (Hfg b 0%nat x s eq_refl) as H0. rewrite Nat.add_0_r in H0.
  destruct (g b x s) as [[b'|e] s'] eqn:E.
  - rewrite (bind_Ret _ _ _ _ _ E), (bind_Ret _ _ _ _ _ H0).
    apply IH. intros b0 i y s0 Hy. rewrite <-(Hfg b0 (S i) y) by done. f_equal. lia.
  - by rewrite (bind_Err _ _ _ _ _ E), (bind_Err _ _ _ _ _ H0).
Qed.

(** ** Typed views of a key *)

Definition as_list (v : option value) : option (list string) :=
  match v with None => Some [] | Some (VList l) => Some l | _ => None end.
Definition as_hash (v : option value) : option (gmap string string) :=
  match v with None => Some ∅ | Some (VHash h) => Some h | _ => None end.
Definition as_set (v : option value) : option (gset string) :=
  match v with None => Some ∅ | Some (VSet x) => Some x | _ => None end.
Definition as_zset (v : option value) : option (list (Z * string)) :=
  match v with None => Some [] | Some (VZSet z) => Some z | _ => None end.
Definition as_str (v : option value) : option (option string) :=
  match v with None => Some None | Some (VStr s) => Some (Some s) | _ => None end.

Definition lst (s : store) (k : string) : list string := default [] (as_list (db s !! k)).
Definition hsh (s : store) (k : string) : gmap string string := default ∅ (as_hash (db s !! k)).
Definition sts (s : store) (k : string) : gset string := default ∅ (as_set (db s !! k)).
Definition zst (s : store) (k : string) : list (Z * string) := default [] (as_zset (db s !! k)).

(** The key is absent or holds a value of the type. *)
Definition is_list (s : store) (k : string) : Prop := is_Some (as_list (db s !! k)).
Definition is_hash (s : store) (k : string) : Prop := is_Some (as_hash (db s !! k)).
Definition is_set (s : store) (k : string) : Prop := is_Some (as_set (db s !! k)).
Definition is_zset (s : store) (k : string) : Prop := is_Some (as_zset (db s !! k)).

(** ** Writing a key

    An aggregate that becomes empty is removed together with its expiry. *)

Definition put (k : string) (v : value) (s : store) : store :=
  {| db := <[k := v]> (db s); expires := expires s |}.
Definition remove_key (k : string) (s : store) : store :=
  {| db := delete k (db s); expires := delete k (expires s) |}.

(** What a key holds after a write: [None] removes it. *)
Definition upd (k : string) (ov : option value) (s : store) : store :=
  match ov with Some v => put k v s | None => remove_key k s end.

Definition list_val (l : list string) : option value :=
  match l with [] => None | _ => Some (VList l) end.
Definition hash_val (h : gmap string string) : option value :=
  if decide (h = ∅) then None else Some (VHash h).
Definition set_val (x : gset string) : option value :=
  if decide (x = ∅) then None else Some (VSet x).
Definition zset_val (z : list (Z * string)) : option value :=
  match z with [] => None | _ => Some (VZSet z) end.

Definition put_list (k : string) (l : list string) : store → store := upd k (list_val l).
Definition put_hash (k : string) (h : gmap string string) : store → store := upd k (hash_val h).
Definition put_set (k : string) (x : gset string) : store → store := upd k (set_val x).
Definition put_zset (k : string) (z : list (Z * string)) : store → store := upd k (zset_val z).

(** ** Commands *)

Definition with_view {T A} (view : option value → option T) (k : string) (f : T → M A) : M A :=
  λ s, match view (db s !! k) with
       | Some x => f x s
       | None => (Err WRONGTYPE, s)
       end.

Definition modify (f : store → store) : M unit := λ s, (Ret tt, f s).

(** *** Keys *)

Definition cmd_exists (k : string) : M bool :=
  λ s, (Ret (bool_decide (is_Some (db s !! k))), s).
Definition cmd_del (ks : list string) : M unit :=
  modify (λ s, foldl (λ s k, remove_key k s) s ks).
Definition cmd_pexpire (now : Z) (k : string) (ms : string) : M bool :=
  match string2ll ms with
  | None => throw NOTINT
  | Some n => λ s,
      if decide (is_Some (db s !! k))
      then (Ret true, {| db := db s; expires := <[k := (now + n)%Z]> (expires s) |})
      else (Ret false, s)
  end.

(** *** Strings *)

Definition cmd_get (k : string) : M (option string) := with_view as_str k mret.
Definition cmd_set (k v : string) : M unit :=
  modify (λ s, {| db := <[k := VStr v]> (db s); expires := delete k (expires s) |}).
(** [SET key v PX ms NX]: true when the key was set. *)
Definition cmd_set_px_nx (now : Z) (k v : string) (ms : Z) : M bool := λ s,
  match db s !! k with
  | Some _ => (Ret false, s)
  | None => (Ret true, {| db := <[k := VStr v]> (db s); expires := <[k := (now + ms)%Z]> (expires s) |})
  end.
Definition cmd_decr (k : string) : M Z :=
  with_view as_str k (λ o, 
    match string2ll (default "0" o) with
    | None => throw NOTINT
    | Some n => if decide (in_int64 (n - 1)) then
                  _ ← modify (put k (VStr (itoa (n - 1)))); mret (n - 1)%Z
                else throw OVERFLOW
    end).

(** *** Hashes *)

Definition cmd_hget (k f : string) : M (option string) :=
  with_view as_hash k (λ h, mret (h !! f)).
Definition cmd_hmget (k : string) (fs : list string) : M (list (option string)) :=
  with_view as_hash k (λ h, mret ((λ f, h !! f) <$> fs)).
Definition cmd_hgetall (k : string) : M (gmap string string) := with_view as_hash k mret.
Definition hset_all (kvs : list (string * string)) (h : gmap string string) : gmap string string :=
  foldl (λ h kv, <[kv.1 := kv.2]> h) h kvs.
Definition cmd_hset (k : string) (kvs : list (string * string)) : M unit :=
  with_view as_hash k (λ h, modify (put_hash k (hset_all kvs h))).
Definition cmd_hdel (k f : string) : M unit :=
  with_view as_hash k (λ h, modify (put_hash k (delete f h))).
Definition hincr (h : gmap string string) (f : string) (n : Z) : outcome Z :=
  match string2ll (default "0" (h !! f)) with
  | None => Err NOTINT
  | Some z => if decide (in_int64 (z + n)) then Ret (z + n)%Z else Err OVERFLOW
  end.
Definition cmd_hincrby (k f : string) (n : Z) : M Z :=
  with_view as_hash k (λ h,
    match hincr h f n with
    | Err e => throw e
    | Ret z => _ ← modify (put_hash k (<[f := itoa z]> h)); mret z
    end).
Definition cmd_hexists (k f : string) : M bool :=
  with_view as_hash k (λ h, mret (bool_decide (is_Some (h !! f)))).
Definition cmd_hkeys (k : string) : M (list string) :=
  with_view as_hash k (λ h, mret (map_to_list h).*1).

(** *** Lists *)

Definition cmd_rpush (k : string) (vs : list string) : M unit :=
  with_view as_list k (λ l, modify (put_list k (l ++ vs))).
Definition cmd_lpush (k : string) (v : string) : M unit :=
  with_view as_list k (λ l, modify (put_list k (v :: l))).
(** [LREM key 1 v]: the number of elements removed. *)
Definition cmd_lrem1 (k v : string) : M Z :=
  with_view as_list k (λ l,
    if decide (v ∈ l) then _ ← modify (put_list k (remove_first v l)); mret 1%Z else mret 0%Z).
(** [LREM key 0 v] removes every occurrence. *)
Definition cmd_lrem0 (k v : string) : M Z :=
  with_view as_list k (λ l,
    let l' := filter (λ x, x ≠ v) l in
    if decide (l' = l) then mret 0%Z
    else _ ← modify (put_list k l'); mret (Z.of_nat (length l - length l'))).
Definition cmd_llen (k : string) : M Z :=
  with_view as_list k (λ l, mret (Z.of_nat (length l))).
Definition cmd_lrange_all (k : string) : M (list string) := with_view as_list k mret.
Definition cmd_lindex0 (k : string) : M (option string) :=
  with_view as_list k (λ l, mret (head l)).

(** [LTRIM key start stop] with Redis' treatment of negative and out-of-range
    indices. *)
Definition ltrim (start stop : Z) (l : list string) : list string :=
  let len := Z.of_nat (length l) in
  let start' := if decide (start < 0)%Z then Z.max 0 (len + start) else start in
  let stop' := if decide (stop < 0)%Z then (len + stop)%Z else stop in
  if decide ((stop' < start')%Z ∨ (len ≤ start')%Z) then []
  else take (Z.to_nat (Z.min stop' (len - 1) - start' + 1)) (drop (Z.to_nat start') l).
Definition cmd_ltrim (k : string) (start stop : Z) : M unit :=
  with_view as_list k (λ l, modify (put_list k (ltrim start stop l))).

(** [RPOPLPUSH src dst]. *)
Definition cmd_rpoplpush (src dst : string) : M (option string) :=
  with_view as_list src (λ l,
    match last l with
    | None => mret None
    | Some v =>
        with_view as_list dst (λ _,
          _ ← modify (put_list src (removelast l)); _ ← cmd_lpush dst v; mret (Some v))
    end).

(** *** Sets *)

Definition cmd_sadd (k v : string) : M unit :=
  with_view as_set k (λ x, modify (put_set k ({[v]} ∪ x))).
Definition cmd_srem (k v : string) : M unit :=
  with_view as_set k (λ x, modify (put_set k (x ∖ {[v]}))).
Definition cmd_sismember (k v : string) : M bool :=
  with_view as_set k (λ x, mret (bool_decide (v ∈ x))).
Definition cmd_scard (k : string) : M Z :=
  with_view as_set k (λ x, mret (Z.of_nat (size x))).
Definition cmd_smembers (k : string) : M (list string) :=
  with_view as_set k (λ x, mret (elements x)).

(** *** Sorted sets: ordered by score, then bytewise by member *)

Definition zle (a b : Z * string) : bool :=
  bool_decide (a.1 < b.1)%Z || (bool_decide (a.1 = b.1) && String.leb a.2 b.2).
Fixpoint zinsert (e : Z * string) (z : list (Z * string)) : list (Z * string) :=
  match z with
  | [] => [e]
  | x :: z' => if zle e x then e :: z else x :: zinsert e z'
  end.
Definition zremove (m : string) (z : list (Z * string)) : list (Z * string) :=
  filter (λ e, e.2 ≠ m) z.

Definition cmd_zadd (k : string) (score : string) (m : string) : M unit :=
  with_view as_zset k (λ z,
    match ParseInt score with
    | (n, None) => modify (put_zset k (zinsert (n, m) (zremove m z)))
    | _ => throw NOTFLOAT
    end).
Definition cmd_zrem (k m : string) : M Z :=
  with_view as_zset k (λ z,
    if decide (m ∈ z.*2) then _ ← modify (put_zset k (zremove m z)); mret 1%Z else mret 0%Z).
Definition cmd_zcard (k : string) : M Z :=
  with_view as_zset k (λ z, mret (Z.of_nat (length z))).
(** [ZRANGE key 0 0]. *)
Definition cmd_zrange00 (k : string) : M (option string) :=
  with_view as_zset k (λ z, mret (snd <$> head z)).
(** [ZRANGEBYSCORE key 0 max LIMIT 0 count]. *)
Definition cmd_zrangebyscore (k : string) (max : Z) (count : nat) : M (list string) :=
  with_view as_zset k (λ z,
    mret (take count (filter (λ e : Z * string, (0 ≤ e.1 ≤ max)%Z) z).*2)).

(** *** Expiry: what a key past its time does *)

Definition alive (now : Z) (s : store) (k : string) : bool :=
  match expires s !! k with
  | Some t => bool_decide (now < t)%Z
  | None => true
  end.
Definition expire_keys (now : Z) (s : store) : store :=
  {| db := filter (λ kv, alive now s kv.1 = true) (db s);
     expires := filter (λ kv, (now < kv.2)%Z) (expires s) |}.

(** *** Script arguments: KEYS[i] and ARGV[i], counted from 1 *)

Definition arg (l : list string) (i : nat) : string := nth (i - 1) l "".

(** A position behind a prefix of [n] arguments. *)
Lemma arg_behind n l1 l2 i : length l1 = n → arg (l1 ++ l2) (n + S i) = nth i l2 "".
Proof. intros <-. unfold arg. rewrite app_nth2 by lia. f_equal. lia. Qed.
