(* ===== verification/RedisFacts.v ===== *)
(** * Laws of the Redis model

    What each command does to the typed views of a keyspace: the equations by
    which the script proofs run a script symbolically, and the lemmas that
    push a view through a sequence of writes. *)

From S2P Require Import Prelude Redis.

(** ** Views after a write *)

Lemma lookup_upd_eq k ov s : db (upd k ov s) !! k = ov.
Proof. destruct ov; simpl; [apply lookup_insert_eq|apply lookup_delete_eq]. Qed.

Lemma lookup_upd_ne k k' ov s : k ≠ k' → db (upd k ov s) !! k' = db s !! k'.
Proof.
  intros Hne. destruct ov; simpl; [by apply lookup_insert_ne|by apply lookup_delete_ne].
Qed.

Section upd_ne.
Context (k k' : string) (ov : option value) (s : store) (Hne : k ≠ k').

Lemma lst_upd_ne : lst (upd k ov s) k' = lst s k'.
Proof using Hne. unfold lst. by rewrite lookup_upd_ne. Qed.
Lemma hsh_upd_ne : hsh (upd k ov s) k' = hsh s k'.
Proof using Hne. unfold hsh. by rewrite lookup_upd_ne. Qed.
Lemma sts_upd_ne : sts (upd k ov s) k' = sts s k'.
Proof using Hne. unfold sts. by rewrite lookup_upd_ne. Qed.
Lemma zst_upd_ne : zst (upd k ov s) k' = zst s k'.
Proof using Hne. unfold zst. by rewrite lookup_upd_ne. Qed.
Lemma is_list_upd_ne : is_list (upd k ov s) k' ↔ is_list s k'.
Proof using Hne. unfold is_list. by rewrite lookup_upd_ne. Qed.
Lemma is_hash_upd_ne : is_hash (upd k ov s) k' ↔ is_hash s k'.
Proof using Hne. unfold is_hash. by rewrite lookup_upd_ne. Qed.
Lemma is_set_upd_ne : is_set (upd k ov s) k' ↔ is_set s k'.
Proof using Hne. unfold is_set. by rewrite lookup_upd_ne. Qed.
Lemma is_zset_upd_ne : is_zset (upd k ov s) k' ↔ is_zset s k'.
Proof using Hne. unfold is_zset. by rewrite lookup_upd_ne. Qed.
End upd_ne.

Lemma as_list_val l : as_list (list_val l) = Some l.
Proof. by destruct l. Qed.
Lemma as_hash_val h : as_hash (hash_val h) = Some h.
Proof. unfold hash_val. case_decide; by subst. Qed.
Lemma as_set_val x : as_set (set_val x) = Some x.
Proof. unfold set_val. case_decide; by subst. Qed.
Lemma as_zset_val z : as_zset (zset_val z) = Some z.
Proof. by destruct z. Qed.

Section upd_eq.
Context (k : string) (s : store).

Lemma lst_upd l : lst (upd k (list_val l) s) k = l.
Proof. unfold lst. by rewrite lookup_upd_eq, as_list_val. Qed.
Lemma hsh_upd h : hsh (upd k (hash_val h) s) k = h.
Proof. unfold hsh. by rewrite lookup_upd_eq, as_hash_val. Qed.
Lemma sts_upd x : sts (upd k (set_val x) s) k = x.
Proof. unfold sts. by rewrite lookup_upd_eq, as_set_val. Qed.
Lemma zst_upd z : zst (upd k (zset_val z) s) k = z.
Proof. unfold zst. by rewrite lookup_upd_eq, as_zset_val. Qed.
Lemma is_list_upd l : is_list (upd k (list_val l) s) k.
Proof. unfold is_list. by rewrite lookup_upd_eq, as_list_val. Qed.
Lemma is_hash_upd h : is_hash (upd k (hash_val h) s) k.
Proof. unfold is_hash. by rewrite lookup_upd_eq, as_hash_val. Qed.
Lemma is_set_upd x : is_set (upd k (set_val x) s) k.
Proof. unfold is_set. by rewrite lookup_upd_eq, as_set_val. Qed.
Lemma is_zset_upd z : is_zset (upd k (zset_val z) s) k.
Proof. unfold is_zset. by rewrite lookup_upd_eq, as_zset_val. Qed.
End upd_eq.

#[export] Hint Resolve is_list_upd is_hash_upd is_set_upd is_zset_upd : smq.

(** ** Running commands *)

Lemma with_list_run {A} k (f : list string → M A) s :
  is_list s k → with_view as_list k f s = f (lst s k) s.
Proof. intros [l Hl]. unfold with_view, lst. by rewrite Hl. Qed.
Lemma with_hash_run {A} k (f : gmap string string → M A) s :
  is_hash s k → with_view as_hash k f s = f (hsh s k) s.
Proof. intros [l Hl]. unfold with_view, hsh. by rewrite Hl. Qed.
Lemma with_set_run {A} k (f : gset string → M A) s :
  is_set s k → with_view as_set k f s = f (sts s k) s.
Proof. intros [l Hl]. unfold with_view, sts. by rewrite Hl. Qed.
Lemma with_zset_run {A} k (f : list (Z * string) → M A) s :
  is_zset s k → with_view as_zset k f s = f (zst s k) s.
Proof. intros [l Hl]. unfold with_view, zst. by rewrite Hl. Qed.

Lemma hget_run k f s : is_hash s k → cmd_hget k f s = (Ret (hsh s k !! f), s).
Proof. intros H. unfold cmd_hget. by rewrite with_hash_run. Qed.
Lemma hmget_run k fs s : is_hash s k → cmd_hmget k fs s = (Ret ((λ f, hsh s k !! f) <$> fs), s).
Proof. intros H. unfold cmd_hmget. by rewrite with_hash_run. Qed.
Lemma hgetall_run k s : is_hash s k → cmd_hgetall k s = (Ret (hsh s k), s).
Proof. intros H. unfold cmd_hgetall. by rewrite with_hash_run. Qed.
Lemma hset_run k kvs s :
  is_hash s k → cmd_hset k kvs s = (Ret tt, upd k (hash_val (hset_all kvs (hsh s k))) s).
Proof. intros H. unfold cmd_hset. by rewrite with_hash_run. Qed.
Lemma hdel_run k f s :
  is_hash s k → cmd_hdel k f s = (Ret tt, upd k (hash_val (delete f (hsh s k))) s).
Proof. intros H. unfold cmd_hdel. by rewrite with_hash_run. Qed.
Lemma hincrby_run k f n z s :
  is_hash s k → hincr (hsh s k) f n = Ret z →
  cmd_hincrby k f n s = (Ret z, upd k (hash_val (<[f := itoa z]> (hsh s k))) s).
Proof. intros H Hi. unfold cmd_hincrby. rewrite with_hash_run by done. by rewrite Hi. Qed.
Lemma rpush_run k vs s :
  is_list s k → cmd_rpush k vs s = (Ret tt, upd k (list_val (lst s k ++ vs)) s).
Proof. intros H. unfold cmd_rpush. by rewrite with_list_run. Qed.
Lemma lpush_run k v s :
  is_list s k → cmd_lpush k v s = (Ret tt, upd k (list_val (v :: lst s k)) s).
Proof. intros H. unfold cmd_lpush. by rewrite with_list_run. Qed.
Lemma lrem1_run k v s :
  is_list s k →
  cmd_lrem1 k v s =
    if decide (v ∈ lst s k) then (Ret 1%Z, upd k (list_val (remove_first v (lst s k))) s)
    else (Ret 0%Z, s).
Proof. intros H. unfold cmd_lrem1. rewrite with_list_run by done. by case_decide. Qed.
Lemma llen_run k s : is_list s k → cmd_llen k s = (Ret (Z.of_nat (length (lst s k))), s).
Proof. intros H. unfold cmd_llen. by rewrite with_list_run. Qed.
Lemma ltrim_run k a b s :
  is_list s k → cmd_ltrim k a b s = (Ret tt, upd k (list_val (ltrim a b (lst s k))) s).
Proof. intros H. unfold cmd_ltrim. by rewrite with_list_run. Qed.
Lemma lindex0_run k s : is_list s k → cmd_lindex0 k s = (Ret (head (lst s k)), s).
Proof. intros H. unfold cmd_lindex0. by rewrite with_list_run. Qed.
Lemma sismember_run k v s :
  is_set s k → cmd_sismember k v s = (Ret (bool_decide (v ∈ sts s k)), s).
Proof. intros H. unfold cmd_sismember. by rewrite with_set_run. Qed.
Lemma sadd_run k v s :
  is_set s k → cmd_sadd k v s = (Ret tt, upd k (set_val ({[v]} ∪ sts s k)) s).
Proof. intros H. unfold cmd_sadd. by rewrite with_set_run. Qed.
Lemma srem_run k v s :
  is_set s k → cmd_srem k v s = (Ret tt, upd k (set_val (sts s k ∖ {[v]})) s).
Proof. intros H. unfold cmd_srem. by rewrite with_set_run. Qed.
Lemma scard_run k s : is_set s k → cmd_scard k s = (Ret (Z.of_nat (size (sts s k))), s).
Proof. intros H. unfold cmd_scard. by rewrite with_set_run. Qed.
Lemma zadd_run k sc n m s :
  is_zset s k → ParseInt sc = (n, None) →
  cmd_zadd k sc m s = (Ret tt, upd k (zset_val (zinsert (n, m) (zremove m (zst s k)))) s).
Proof. intros H Hn. unfold cmd_zadd. rewrite with_zset_run by done. by rewrite Hn. Qed.
Lemma zrem_run k m s :
  is_zset s k →
  cmd_zrem k m s =
    if decide (m ∈ (zst s k).*2) then (Ret 1%Z, upd k (zset_val (zremove m (zst s k))) s)
    else (Ret 0%Z, s).
Proof. intros H. unfold cmd_zrem. rewrite with_zset_run by done. by case_decide. Qed.

(** ** Sorted sets *)

Lemma elem_of_zinsert x e z : x ∈ zinsert e z ↔ x = e ∨ x ∈ z.
Proof.
  induction z as [|y z IH]; simpl; [set_solver|].
  destruct (zle e y); rewrite ?elem_of_cons, ?IH; set_solver.
Qed.

Lemma zremove_members m z : m ∉ (zremove m z).*2.
Proof.
  unfold zremove. intros (e & -> & [He _]%list_elem_of_filter)%list_elem_of_fmap. done.
Qed.

Lemma elem_of_zremove x m z : x ∈ (zremove m z).*2 ↔ x ∈ z.*2 ∧ x ≠ m.
Proof.
  unfold zremove. rewrite !list_elem_of_fmap. setoid_rewrite list_elem_of_filter. naive_solver.
Qed.

Lemma elem_of_zadd x sc m z :
  x ∈ (zinsert (sc, m) (zremove m z)).*2 ↔ x = m ∨ x ∈ z.*2.
Proof.
  rewrite list_elem_of_fmap. setoid_rewrite elem_of_zinsert. split.
  - intros (e & -> & [->|He]); [by left|]. right.
    apply elem_of_zremove with m. apply list_elem_of_fmap. eauto.
  - intros [->|Hx]; [eexists (sc, m); eauto|]. destruct (decide (x = m)) as [->|Hne].
    + eexists (sc, m); eauto.
    + assert (x ∈ (zremove m z).*2) as Hz by by apply elem_of_zremove.
      apply list_elem_of_fmap in Hz as (e & -> & He). eauto.
Qed.
