(* ===== verification/Scripts.v ===== *)
(** * Loading and calling scripts

    internal/redis/scripts/manager.go: the scripts are put together from files,
    loaded into Redis at start and called by their hash; Redis may have
    forgotten them, and then the text is sent.  The file system the files are
    embedded in, the hash and the interpreter of Lua are parameters. *)

From S2P Require Import Prelude Redis.

(** ids.go *)
Inductive script_id :=
| PublishScheduled | PublishMessage | RequeueMessage | RequeueImmediate | RequeueDelayed | CreateQueue
| SubscribeConsumer | UnsubscribeConsumer | UnacknowledgeMessage | AcknowledgeMessage | DeleteMessage
| CheckoutMessage | DeleteConsumerGroup | CheckRateLimit | SetRateLimit | DeleteQueue | ClearRateLimit
| SetQueueState | GetQueueState | SaveConfig | ZPOPLPUSH | ExtendLock | ReleaseLock | CreateJob | StartJob
| CompleteJob | FailJob | CancelJob | RecoverStuckJob.
#[export] Instance script_id_eq_dec : EqDecision script_id.
Proof. solve_decision. Defined.

Definition scriptDefs (id : script_id) : list string :=
  let procedure := "scripts/core/shared-procedures/publish-message.lua" in
  match id with
  | PublishScheduled => [procedure; "scripts/core/publish-scheduled.lua"]
  | PublishMessage => [procedure; "scripts/core/publish-message.lua"]
  | RequeueMessage => [procedure; "scripts/core/requeue-message.lua"]
  | RequeueImmediate => ["scripts/core/requeue-immediate.lua"]
  | RequeueDelayed => ["scripts/core/requeue-delayed.lua"]
  | CreateQueue => ["scripts/core/create-queue.lua"]
  | SubscribeConsumer => ["scripts/core/subscribe-consumer.lua"]
  | UnsubscribeConsumer => ["scripts/core/unsubscribe-consumer.lua"]
  | UnacknowledgeMessage => ["scripts/core/unacknowledge-message.lua"]
  | AcknowledgeMessage => ["scripts/core/acknowledge-message.lua"]
  | DeleteMessage => ["scripts/core/delete-message.lua"]
  | CheckoutMessage => ["scripts/core/checkout-message.lua"]
  | DeleteConsumerGroup => ["scripts/core/delete-consumer-group.lua"]
  | CheckRateLimit => ["scripts/core/check-queue-rate-limit.lua"]
  | SetRateLimit => ["scripts/core/set-queue-rate-limit.lua"]
  | DeleteQueue => ["scripts/core/delete-queue.lua"]
  | ClearRateLimit => ["scripts/core/clear-queue-rate-limit.lua"]
  | SetQueueState => ["scripts/core/set-queue-state.lua"]
  | GetQueueState => ["scripts/core/get-queue-state.lua"]
  | SaveConfig => ["scripts/core/save-config.lua"]
  | ZPOPLPUSH => ["scripts/commands/zpoplpush.lua"]
  | ExtendLock => ["scripts/redis_lock/extend-lock.lua"]
  | ReleaseLock => ["scripts/redis_lock/release-lock.lua"]
  | CreateJob => ["scripts/jobs/create-job.lua"]
  | StartJob => ["scripts/jobs/start-job.lua"]
  | CompleteJob => ["scripts/jobs/complete-job.lua"]
  | FailJob => ["scripts/jobs/fail-job.lua"]
  | CancelJob => ["scripts/jobs/cancel-job.lua"]
  | RecoverStuckJob => ["scripts/jobs/recover-stuck-job.lua"]
  end.

Record ScriptManager := Scripts { contents : script_id → option string; shas : script_id → option string }.
Definition NewScriptManager : ScriptManager := Scripts (λ _, None) (λ _, None).

Definition set_entry {A} (id : script_id) (x : A) (m : script_id → option A) : script_id → option A :=
  λ id', if decide (id' = id) then Some x else m id'.

Inductive script_error := ReadScript (id : script_id) | RegisterScript (id : script_id) | ExecuteScript (id : script_id) (e : rerr) | NotRegistered (id : script_id).

Section Scripts.
(** The embedded files, the hash of a text, and what running a text does. *)
Context (FS : string → option string) (sha : string → string) {A : Type} (lua : string → list string → list string → M A).

Fixpoint concatFiles (files : list string) : option string :=
  match files with
  | [] => Some ""
  | [f] => FS f
  | f :: files => data ← FS f; rest ← concatFiles files; Some (data +:+ String "010" rest)
  end.

(** [loads]: the SCRIPT LOAD commands that Redis accepts.  The cache of the
    server is the list of the texts it has. *)
Fixpoint register_scripts (loads : script_id → bool) (ids : list script_id) (sm : ScriptManager) (cache : list string)
    : option script_error * ScriptManager * list string :=
  match ids with
  | [] => (None, sm, cache)
  | id :: ids =>
      match concatFiles (scriptDefs id) with
      | None => (Some (ReadScript id), sm, cache)
      | Some source =>
          let sm := Scripts (set_entry id source (contents sm)) (shas sm) in
          if loads id then register_scripts loads ids (Scripts (contents sm) (set_entry id (sha source) (shas sm))) (source :: cache)
          else (Some (RegisterScript id), sm, cache)
      end
  end.
(** [order]: Go iterates over the scripts in any order. *)
Definition RegisterAll (loads : script_id → bool) (order : list script_id) : ScriptManager → list string → option script_error * ScriptManager * list string :=
  register_scripts loads order.

(** EVALSHA: the text with the hash, if Redis has it. *)
Definition cached (h : string) (cache : list string) : option string :=
  head (filter (λ source, sha source = h) cache).

Definition finish (id : script_id) (r : outcome A * store) : (script_error + A) * store :=
  match r with (Ret a, s) => (inr a, s) | (Err e, s) => (inl (ExecuteScript id e), s) end.

(** EVAL keeps the text.  An error of the script itself is no NOSCRIPT. *)
Definition EvalScript (sm : ScriptManager) (id : script_id) (keys args : list string) (cache : list string) (s : store)
    : (script_error + A) * store * list string :=
  match (h ← shas sm id; cached h cache) with
  | Some source => (finish id (lua source keys args s), cache)
  | None =>
      match contents sm id with
      | None => (inl (NotRegistered id), s, cache)
      | Some source => (finish id (lua source keys args s), source :: cache)
      end
  end.

(** ** Properties *)

Lemma register_other loads ids : ∀ sm cache e sm' cache' id,
  register_scripts loads ids sm cache = (e, sm', cache') → id ∉ ids → contents sm' id = contents sm id ∧ shas sm' id = shas sm id.
Proof.
  induction ids as [|i ids IH]; intros sm cache e sm' cache' id; cbn [register_scripts]; [by intros [= <- <- <-]|].
  intros H [Hne Hn]%not_elem_of_cons. revert H. destruct (concatFiles (scriptDefs i)) as [source|]; [|by intros [= <- <- <-]].
  cbv zeta. destruct (loads i).
  - intros H. destruct (IH _ _ _ _ _ id H Hn) as [-> ->]. cbn. unfold set_entry. by rewrite !decide_False.
  - intros [= <- <- <-]. cbn. unfold set_entry. by rewrite decide_False.
Qed.

(** A registration that succeeds knows every script by its text and hash. *)
Lemma register_all loads ids : ∀ sm cache sm' cache' id,
  register_scripts loads ids sm cache = (None, sm', cache') → id ∈ ids → NoDup ids →
  ∃ source, concatFiles (scriptDefs id) = Some source ∧ contents sm' id = Some source ∧ shas sm' id = Some (sha source).
Proof.
  induction ids as [|i ids IH]; intros sm cache sm' cache' id; cbn [register_scripts]; [by intros _ ?%not_elem_of_nil|].
  destruct (concatFiles (scriptDefs i)) as [source|] eqn:Es; [|done]. cbv zeta. destruct (loads i); [|done].
  intros H [->|Hin]%elem_of_cons [Hn Hnd]%NoDup_cons; [|by eapply IH].
  exists source. split; [done|]. destruct (register_other _ _ _ _ _ _ _ i H Hn) as [-> ->]. cbn. unfold set_entry. by rewrite !decide_True.
Qed.
End Scripts.

(** Once every script is registered, in whatever order, a call runs the
    script that was registered under its name, once, with the given keys and
    arguments, and gives its result or its error, whatever has happened to the
    scripts Redis keeps; hashes of different texts being different. *)
Theorem eval_runs_script {A} FS sha (lua : string → list string → list string → M A) loads order sm cache id keys args cache' s :
  (∀ a b : string, sha a = sha b → a = b) → (∀ i, i ∈ order) → NoDup order →
  RegisterAll FS sha loads order NewScriptManager [] = (None, sm, cache) →
  ∃ source, concatFiles FS (scriptDefs id) = Some source ∧
    (EvalScript sha lua sm id keys args cache' s).1 = finish id (lua source keys args s).
Proof.
  intros Hsha Hall Hnd Hreg. destruct (register_all _ _ _ _ _ _ _ _ id Hreg (Hall id) Hnd) as (source & Hs & Hc & Hh).
  exists source. split; [done|]. unfold EvalScript. rewrite Hh, Hc. cbn [mbind option_bind]. unfold cached.
  destruct (filter (λ src, sha src = sha source) cache') as [|src l] eqn:E; [done|]. cbn [head].
  assert (src ∈ filter (λ src, sha src = sha source) cache') as [E' _]%list_elem_of_filter by (rewrite E; left).
  by apply Hsha in E' as ->.
Qed.

(** Such a registration, with files that hold their own names, after which
    Redis forgets everything: the script is sent as text and runs. *)
Definition all_scripts : list script_id :=
  [PublishScheduled; PublishMessage; RequeueMessage; RequeueImmediate; RequeueDelayed; CreateQueue; SubscribeConsumer;
   UnsubscribeConsumer; UnacknowledgeMessage; AcknowledgeMessage; DeleteMessage; CheckoutMessage; DeleteConsumerGroup;
   CheckRateLimit; SetRateLimit; DeleteQueue; ClearRateLimit; SetQueueState; GetQueueState; SaveConfig; ZPOPLPUSH; ExtendLock;
   ReleaseLock; CreateJob; StartJob; CompleteJob; FailJob; CancelJob; RecoverStuckJob].

Lemma eval_runs_script_witness :
  ∃ sm cache, RegisterAll Some id (λ _, true) all_scripts NewScriptManager [] = (None, sm, cache) ∧
    (EvalScript id (λ source _ _, mret source) sm ZPOPLPUSH [] [] [] empty_store).1 = (inr "scripts/commands/zpoplpush.lua", empty_store).
Proof.
  destruct (RegisterAll Some id (λ _, true) all_scripts NewScriptManager []) as [[e sm] cache] eqn:E.
  assert (e = None) as -> by (apply (f_equal (λ r, r.1.1)) in E; vm_compute in E; exact (eq_sym E)).
  exists sm, cache. split; [reflexivity|].
  destruct (eval_runs_script Some id (λ source _ _, mret source) (λ _, true) all_scripts sm cache ZPOPLPUSH [] [] [] empty_store)
    as (source & Hs & ->).
  - intros a b H. exact H.
  - intros []; apply (bool_decide_unpack _); vm_compute; exact I.
  - apply (bool_decide_unpack _). vm_compute. exact I.
  - exact E.
  - vm_compute in Hs. injection Hs as <-. reflexivity.
Defined.
