(* ===== verification/Types.v ===== *)
(** * Public data types

    The enumerations and parameter types of pkg/queue, pkg/exchange,
    pkg/message and pkg/consumer, the configuration record, and the two Redis
    hash schemas.  A Go enumeration is a named [int]: a value read back from
    Redis may be any integer, so each is modelled as [Z] with the constants of
    the source. *)

From S2P Require Import Prelude Keys.

(** ** Queue type (pkg/queue/type.go) *)

Definition TypeLIFO : Z := 0.
Definition TypeFIFO : Z := 1.
Definition TypePriority : Z := 2.

Definition queue_type_String (t : Z) : string :=
  if decide (t = TypeFIFO) then "fifo"
  else if decide (t = TypeLIFO) then "lifo"
  else if decide (t = TypePriority) then "priority"
  else "unknown".

Definition queue_type_IsValid (t : Z) : bool :=
  bool_decide (TypeLIFO ≤ t)%Z && bool_decide (t ≤ TypePriority)%Z.

(** ** Delivery model (pkg/queue/delivery_model.go) *)

Definition DeliveryPointToPoint : Z := 0.
Definition DeliveryPubSub : Z := 1.

Definition delivery_IsValid (dm : Z) : bool :=
  bool_decide (DeliveryPointToPoint ≤ dm)%Z && bool_decide (dm ≤ DeliveryPubSub)%Z.

(** ** Queue state (pkg/queue/state.go) *)

Definition StateActive : Z := 0.
Definition StatePaused : Z := 1.
Definition StateStopped : Z := 2.
Definition StateLocked : Z := 3.

Definition state_String (s : Z) : string :=
  if decide (s = StateActive) then "active"
  else if decide (s = StatePaused) then "paused"
  else if decide (s = StateStopped) then "stopped"
  else if decide (s = StateLocked) then "locked"
  else "unknown".

Definition IsOperational (s : Z) : bool :=
  bool_decide (s = StateActive) || bool_decide (s = StatePaused).

Definition state_IsValid (s : Z) : bool :=
  bool_decide (StateActive ≤ s)%Z && bool_decide (s ≤ StateLocked)%Z.

(** A missing key of the Go map reads as the empty slice. *)
Definition allowedTransitions (s : Z) : list Z :=
  if decide (s = StateActive) then [StatePaused; StateLocked; StateStopped]
  else if decide (s = StatePaused) then [StateActive; StateStopped; StateLocked]
  else if decide (s = StateStopped) then [StateActive]
  else if decide (s = StateLocked) then [StateActive; StateStopped]
  else [].

Definition CanTransitionTo (s target : Z) : bool :=
  existsb (λ allowed, bool_decide (allowed = target)) (allowedTransitions s).

(** ** Message status (pkg/message/status.go) *)

Definition StatusNew : Z := 0.
Definition StatusPending : Z := 1.
Definition StatusProcessing : Z := 2.
Definition StatusScheduled : Z := 3.
Definition StatusAcknowledged : Z := 4.
Definition StatusUnackRequeuing : Z := 5.
Definition StatusUnackDelaying : Z := 6.
Definition StatusDeadLettered : Z := 7.

Definition status_String (s : Z) : string :=
  if decide (s = StatusNew) then "new"
  else if decide (s = StatusPending) then "pending"
  else if decide (s = StatusProcessing) then "processing"
  else if decide (s = StatusScheduled) then "scheduled"
  else if decide (s = StatusAcknowledged) then "acknowledged"
  else if decide (s = StatusUnackRequeuing) then "unack_requeuing"
  else if decide (s = StatusUnackDelaying) then "unack_delaying"
  else if decide (s = StatusDeadLettered) then "dead_lettered"
  else "unknown".

Definition IsTerminal (s : Z) : bool :=
  bool_decide (s = StatusAcknowledged) || bool_decide (s = StatusDeadLettered).
Definition IsRequeuable (s : Z) : bool :=
  bool_decide (s = StatusAcknowledged) || bool_decide (s = StatusDeadLettered).
Definition status_IsValid (s : Z) : bool :=
  bool_decide (StatusNew ≤ s)%Z && bool_decide (s ≤ StatusDeadLettered)%Z.

(** ** Message priority (pkg/message/priority.go) *)

Definition PriorityHighest : Z := 0.
Definition PriorityNormal : Z := 4.
Definition PriorityLowest : Z := 7.
Definition priority_IsValid (p : Z) : bool :=
  bool_decide (PriorityHighest ≤ p)%Z && bool_decide (p ≤ PriorityLowest)%Z.

(** ** Queue parameters (pkg/queue/params.go) *)

Inductive params_error := ErrNameRequired | ErrInvalidName | ErrInvalidNamespace.

Record QParams := { q_name : string; q_ns : string }.

#[global] Instance QParams_eq_dec : EqDecision QParams.
Proof. solve_decision. Defined.

Definition q_String (p : QParams) : string := q_name p +:+ "@" +:+ q_ns p.

(** [cfg_ns] is the namespace of the current configuration. *)
Definition NewQueueParamsWithNS (cfg_ns name namespace : string) : params_error + QParams :=
  if decide (name = "") then inl ErrNameRequired
  else
    let namespace := if decide (namespace = "") then cfg_ns else namespace in
    match ValidateKey name with
    | None => inl ErrInvalidName
    | Some validName =>
        match ValidateKey namespace with
        | None => inl ErrInvalidNamespace
        | Some validNS => inr {| q_name := validName; q_ns := validNS |}
        end
    end.

Definition NewQueueParams (cfg_ns name : string) : params_error + QParams :=
  NewQueueParamsWithNS cfg_ns name "".

(** The key set of a queue. *)
Definition queue_keys_of (p : QParams) : Queue := {| Namespace := q_ns p; Name := q_name p |}.

(** ** Exchange parameters (pkg/exchange/type.go, policy.go, params.go) *)

Definition TypeDirect : Z := 0.
Definition TypeFanout : Z := 1.
Definition TypeTopic : Z := 2.
Definition exchange_type_IsValid (t : Z) : bool :=
  bool_decide (TypeDirect ≤ t)%Z && bool_decide (t ≤ TypeTopic)%Z.

Definition PolicyStandard : Z := 0.
Definition PolicyPriority : Z := 1.
Definition policy_IsValid (p : Z) : bool :=
  bool_decide (PolicyStandard ≤ p)%Z && bool_decide (p ≤ PolicyPriority)%Z.

Record EParams := { e_name : string; e_ns : string; e_typ : Z }.

#[global] Instance EParams_eq_dec : EqDecision EParams.
Proof. solve_decision. Defined.

Definition NewExchangeParamsWithNS (cfg_ns name namespace : string) (typ : Z)
    : params_error + EParams :=
  if decide (name = "") then inl ErrNameRequired
  else
    let namespace := if decide (namespace = "") then cfg_ns else namespace in
    match ValidateKey name with
    | None => inl ErrInvalidName
    | Some validName =>
        match ValidateKey namespace with
        | None => inl ErrInvalidNamespace
        | Some validNS => inr {| e_name := validName; e_ns := validNS; e_typ := typ |}
        end
    end.

Definition exchange_keys_of (p : EParams) : Exchange :=
  {| ExNamespace := e_ns p; ExName := e_name p |}.

(** ** Unacknowledgement causes (pkg/consumer/unacknowledge_cause.go) *)

Definition CauseTimeout : Z := 0.
Definition CauseUnacknowledged : Z := 2.
Definition CauseOfflineConsumer : Z := 3.
Definition CauseShuttingDown : Z := 4.
Definition CauseTTLExpired : Z := 5.
Definition CauseQueueStopped : Z := 6.
Definition CauseQueueInvalidState : Z := 7.
Definition CauseQueueLocked : Z := 8.
Definition CauseUnexpectedError : Z := 12.

(** Dead-letter causes (pkg/consumer/deadletter_cause.go). *)
Definition DeadLetterTTLExpired : Z := 0.
Definition DeadLetterRetryThresholdExceeded : Z := 1.
Definition DeadLetterPeriodicMessage : Z := 2.

(** ** Configuration (pkg/config/types.go, defaults.go) *)

Record AuditMessagesConfig := { am_Enabled : bool; am_QueueSize : Z; am_Expire : Z }.
Record AuditHistoryConfig := { ah_Enabled : bool; ah_MaxSize : Z }.
Record MessageAudit := {
  AcknowledgedMessages : AuditMessagesConfig;
  DeadLetteredMessages : AuditMessagesConfig;
  UnacknowledgementHistory : AuditHistoryConfig
}.
Record LoggerOptionsConfig := { IncludeTimestamp : bool; Colorize : bool; LogLevel : Z }.
Record LoggerConfig := { lg_Enabled : bool; lg_Options : LoggerOptionsConfig }.
Record ConfigRec := {
  cfg_Version : Z;
  cfg_Namespace : string;
  cfg_Logger : LoggerConfig;
  cfg_MessageAudit : MessageAudit
}.

Definition DefaultConfig : ConfigRec := {|
  cfg_Version := 0;
  cfg_Namespace := "default";
  cfg_Logger := {| lg_Enabled := false;
                   lg_Options := {| IncludeTimestamp := true; Colorize := true; LogLevel := 1 |} |};
  cfg_MessageAudit := {|
    AcknowledgedMessages := {| am_Enabled := false; am_QueueSize := 0; am_Expire := 0 |};
    DeadLetteredMessages := {| am_Enabled := false; am_QueueSize := 0; am_Expire := 0 |};
    UnacknowledgementHistory := {| ah_Enabled := false; ah_MaxSize := 100 |} |}
|}.

(** ** Hash schemas *)

(** Message hash fields (internal/message/schema/schema.go). *)
Inductive mfield :=
| F_ID | F_Status | F_Message | F_ScheduledAt | F_PublishedAt | F_ProcessingStartedAt
| F_DeadLetteredAt | F_AcknowledgedAt | F_UnacknowledgedAt | F_LastUnacknowledgedAt
| F_LastScheduledAt | F_LastProcessedAt | F_RequeuedAt | F_RequeueCount | F_LastRequeuedAt
| F_LastRetriedAttemptAt | F_ScheduledCronFired | F_Attempts | F_ScheduledRepeatCount
| F_Expired | F_EffectiveScheduledDelay | F_ScheduledTimes | F_ScheduledMessageParentID
| F_RequeuedMessageParentID.

#[global] Instance mfield_eq_dec : EqDecision mfield.
Proof. solve_decision. Defined.

Definition mfield_Int (f : mfield) : Z :=
  match f with
  | F_ID => 0 | F_Status => 1 | F_Message => 2 | F_ScheduledAt => 3 | F_PublishedAt => 4
  | F_ProcessingStartedAt => 5 | F_DeadLetteredAt => 6 | F_AcknowledgedAt => 7
  | F_UnacknowledgedAt => 8 | F_LastUnacknowledgedAt => 9 | F_LastScheduledAt => 10
  | F_LastProcessedAt => 11 | F_RequeuedAt => 12 | F_RequeueCount => 13
  | F_LastRequeuedAt => 14 | F_LastRetriedAttemptAt => 15 | F_ScheduledCronFired => 16
  | F_Attempts => 17 | F_ScheduledRepeatCount => 18 | F_Expired => 19
  | F_EffectiveScheduledDelay => 20 | F_ScheduledTimes => 21
  | F_ScheduledMessageParentID => 22 | F_RequeuedMessageParentID => 23
  end.

Definition mkey (f : mfield) : string := itoa (mfield_Int f).

(** Queue hash fields (internal/queue/schema/schema.go). *)
Inductive qfield :=
| Q_Type | Q_RateLimit | Q_MessagesCount | Q_DeliveryModel | Q_ScheduledMessagesCount
| Q_PendingMessagesCount | Q_ProcessingMessagesCount | Q_AcknowledgedMessagesCount
| Q_DeadLetteredMessagesCount | Q_DelayedMessagesCount | Q_RequeuedMessagesCount
| Q_OperationalState | Q_LastStateChangeAt | Q_LockID.

#[global] Instance qfield_eq_dec : EqDecision qfield.
Proof. solve_decision. Defined.

Definition qfield_Int (f : qfield) : Z :=
  match f with
  | Q_Type => 0 | Q_RateLimit => 1 | Q_MessagesCount => 2 | Q_DeliveryModel => 3
  | Q_ScheduledMessagesCount => 4 | Q_PendingMessagesCount => 5
  | Q_ProcessingMessagesCount => 6 | Q_AcknowledgedMessagesCount => 7
  | Q_DeadLetteredMessagesCount => 8 | Q_DelayedMessagesCount => 9
  | Q_RequeuedMessagesCount => 10 | Q_OperationalState => 11
  | Q_LastStateChangeAt => 12 | Q_LockID => 13
  end.

Definition qkey (f : qfield) : string := itoa (qfield_Int f).

#[global] Instance mkey_inj : Inj (=) (=) mkey.
Proof. intros x y H%(inj itoa). by destruct x, y. Qed.

#[global] Instance qkey_inj : Inj (=) (=) qkey.
Proof. intros x y H%(inj itoa). by destruct x, y. Qed.

(** ** Facts *)

Lemma wf_queue_keys p :
  no_colon (q_ns p) = true → no_colon (q_name p) = true →
  no_colon (Namespace (queue_keys_of p)) = true ∧ no_colon (Name (queue_keys_of p)) = true.
Proof. done. Qed.

Lemma NewQueueParamsWithNS_inv cfg_ns name ns p :
  NewQueueParamsWithNS cfg_ns name ns = inr p →
  ValidateKey name = Some (q_name p) ∧
  ValidateKey (if decide (ns = "") then cfg_ns else ns) = Some (q_ns p).
Proof.
  unfold NewQueueParamsWithNS. intros H.
  destruct (decide (name = "")); [done|]. 
  destruct (ValidateKey name) as [vn|]; [|done].
  destruct (ValidateKey (if decide (ns = "") then cfg_ns else ns)) as [vs|]; [|done].
  by injection H as <-.
Qed.

Lemma CanTransitionTo_iff s t :
  CanTransitionTo s t = true ↔ t ∈ allowedTransitions s.
Proof.
  unfold CanTransitionTo. rewrite existsb_exists. setoid_rewrite bool_decide_eq_true.
  setoid_rewrite <-list_elem_of_In. naive_solver.
Qed.

(** ** Properties *)

(** Parameters returned by the constructor are fully usable: the name and
    namespace are validated lower-case keys without colons, and building the
    parameters again from them gives the same parameters. *)
Theorem NewQueueParamsWithNS_stable cfg_ns name ns p :
  NewQueueParamsWithNS cfg_ns name ns = inr p →
  no_colon (q_name p) = true ∧ no_colon (q_ns p) = true ∧
  NewQueueParamsWithNS cfg_ns (q_name p) (q_ns p) = inr p.
Proof.
  intros [Hn Hs]%NewQueueParamsWithNS_inv.
  split; [by eapply ValidateKey_no_colon|]. split; [by eapply ValidateKey_no_colon|].
  apply ValidateKey_inv in Hn as (c & r & En & Hc & Hr).
  apply ValidateKey_inv in Hs as (c' & r' & Es & Hc' & Hr').
  destruct p as [n m]. simpl in *. subst. unfold NewQueueParamsWithNS.
  rewrite !decide_False by done. rewrite !ValidateKey_complete by done. done.
Qed.

Lemma NewQueueParamsWithNS_stable_witness :
  no_colon "orders" = true ∧ no_colon "prod" = true ∧
  NewQueueParamsWithNS "default" "orders" "prod" = inr {| q_name := "orders"; q_ns := "prod" |}.
Proof.
  apply (NewQueueParamsWithNS_stable "default" "Orders" "PROD"
           {| q_name := "orders"; q_ns := "prod" |}).
  vm_compute. reflexivity.
Defined.
