(* ===== verification/Keyspace.v ===== *)
(** * The typed keyspace

    Every key of the system holds values of one Redis type.  [wt] says that a
    keyspace respects the types; scripts run without type errors on such a
    keyspace, and every write of the right type keeps it.  [touches] bounds the
    keys a script may change, by composition over its commands: the frame rule
    by which a script of one queue leaves the others alone. *)

From S2P Require Import Prelude Keys Redis RedisFacts Types.

(** ** Key types *)

Inductive ktype := TStr | TList | THash | TSet | TZSet.

Definition key_type (k : redis_key) : ktype :=
  match k with
  | KProperties _ | KExchangeProperties _ | KMessage _ | KProcessingQueues _
  | KConsumers _ | KPurgeJobs | KConfig => THash
  | KPublished _ | KPending _ | KDeadLetter _ | KAcknowledged _ | KRequeued _
  | KStateHistory _ | KPendingWithGroup _ _ | KConsumerProcessing _ _
  | KMessageHistory _ | KPendingPurgeJobs | KActivePurgeJobs => TList
  | KPriority _ | KPriorityWithGroup _ _ | KScheduled _ | KDelayed _ => TZSet
  | KNamespaceQueues _ | KNamespaceExchanges _ | KConsumerGroups _ | KExchangeBindings _
  | KConsumerGroupMembers _ _ | KRoutingKeys _ | KRoutingKeyQueues _ _ | KBindingPatterns _
  | KPatternQueues _ _ | KFanoutQueues _ | KAllQueues | KAllExchanges | KAllNamespaces
  | KConsumerQueues _ => TSet
  | KWorkersLock _ | KRateLimit _ | KExchange _ | KJobWorker _
  | KWorkerHeartbeat _ | KConsumerHeartbeat _ => TStr
  end.

Definition has_type (t : ktype) (v : option value) : Prop :=
  match t with
  | TStr => is_Some (as_str v)
  | TList => is_Some (as_list v)
  | THash => is_Some (as_hash v)
  | TSet => is_Some (as_set v)
  | TZSet => is_Some (as_zset v)
  end.

Definition wt (s : store) : Prop := ∀ k, wf_key k → has_type (key_type k) (db s !! render_key k).

Lemma has_type_None t : has_type t None.
Proof. destruct t; by eexists. Qed.

Lemma wt_empty : wt empty_store.
Proof. intros k _. simpl. rewrite lookup_empty. apply has_type_None. Qed.

Lemma wt_upd s k ov :
  wt s → wf_key k → has_type (key_type k) ov → wt (upd (render_key k) ov s).
Proof.
  intros Hs Hk Ht k' Hk'. destruct (decide (render_key k = render_key k')) as [E|Hne].
  - rewrite <-E, lookup_upd_eq. apply render_key_inj in E; [|done..]. by subst.
  - rewrite lookup_upd_ne by done. by apply Hs.
Qed.

Section wt_views.
Context (s : store) (Hs : wt s).

Lemma wt_hash k : wf_key k → key_type k = THash → is_hash s (render_key k).
Proof using Hs. intros Hk Ht. specialize (Hs k Hk). by rewrite Ht in Hs. Qed.
Lemma wt_list k : wf_key k → key_type k = TList → is_list s (render_key k).
Proof using Hs. intros Hk Ht. specialize (Hs k Hk). by rewrite Ht in Hs. Qed.
Lemma wt_set k : wf_key k → key_type k = TSet → is_set s (render_key k).
Proof using Hs. intros Hk Ht. specialize (Hs k Hk). by rewrite Ht in Hs. Qed.
Lemma wt_zset k : wf_key k → key_type k = TZSet → is_zset s (render_key k).
Proof using Hs. intros Hk Ht. specialize (Hs k Hk). by rewrite Ht in Hs. Qed.
End wt_views.

Section wt_writes.
Context (s : store) (k : redis_key) (Hs : wt s) (Hk : wf_key k).

Lemma wt_upd_hash h : key_type k = THash → wt (upd (render_key k) (hash_val h) s).
Proof using Hs Hk. intros Ht. apply wt_upd; [done..|]. rewrite Ht. simpl. by rewrite as_hash_val. Qed.
Lemma wt_upd_list l : key_type k = TList → wt (upd (render_key k) (list_val l) s).
Proof using Hs Hk. intros Ht. apply wt_upd; [done..|]. rewrite Ht. simpl. by rewrite as_list_val. Qed.
Lemma wt_upd_set x : key_type k = TSet → wt (upd (render_key k) (set_val x) s).
Proof using Hs Hk. intros Ht. apply wt_upd; [done..|]. rewrite Ht. simpl. by rewrite as_set_val. Qed.
Lemma wt_upd_zset z : key_type k = TZSet → wt (upd (render_key k) (zset_val z) s).
Proof using Hs Hk. intros Ht. apply wt_upd; [done..|]. rewrite Ht. simpl. by rewrite as_zset_val. Qed.
End wt_writes.

(** ** What a script may change *)

Definition touches {A} (ks : list string) (m : M A) : Prop :=
  ∀ s k, k ∉ ks → db (m s).2 !! k = db s !! k.

Lemma touches_ret {A} ks (a : A) : touches ks (mret a : M A).
Proof. by intros s k Hk. Qed.

Lemma touches_throw {A} ks e : touches ks (throw e : M A).
Proof. by intros s k Hk. Qed.

Lemma touches_bind {A B} ks (m : M A) (f : A → M B) :
  touches ks m → (∀ a, touches ks (f a)) → touches ks (m ≫= f).
Proof.
  intros Hm Hf s k Hk. unfold mbind, M_bind. specialize (Hm s k Hk).
  destruct (m s) as [[a|e] s']; simpl in *; [|done]. by rewrite Hf.
Qed.

Lemma touches_when ks b m : touches ks m → touches ks (when b m).
Proof. intros H. destruct b; [done|apply touches_ret]. Qed.

Lemma touches_foldM {A B} ks (f : B → A → M B) l b :
  (∀ b a, a ∈ l → touches ks (f b a)) → touches ks (foldM f b l).
Proof.
  revert b. induction l as [|a l IH]; intros b Hf; simpl; [apply touches_ret|].
  apply touches_bind; [apply Hf; set_solver|]. intros b'. apply IH. set_solver.
Qed.

Lemma touches_view {T A} ks (v : option value → option T) k (f : T → M A) :
  (∀ x, touches ks (f x)) → touches ks (with_view v k f).
Proof. intros Hf s k' Hk. unfold with_view. case_match; [by apply Hf|done]. Qed.

Lemma touches_upd ks k (f : store → option value) :
  k ∈ ks → touches ks (modify (λ s, upd k (f s) s)).
Proof. intros Hin s k' Hk. simpl. apply lookup_upd_ne. by intros ->. Qed.

Lemma touches_mono {A} ks ks' (m : M A) : ks ⊆ ks' → touches ks m → touches ks' m.
Proof. intros Hsub Hm s k Hk. apply Hm. set_solver. Qed.

Lemma touches_get {T A} ks (v : option value → option T) k (g : T → A) :
  touches ks (with_view v k (λ x, mret (g x))).
Proof. apply touches_view. intros x. apply touches_ret. Qed.

Section touches_commands.
Context (ks : list string) (k : string).

Lemma touches_hget f : touches ks (cmd_hget k f). Proof. apply touches_get. Qed.
Lemma touches_hmget fs : touches ks (cmd_hmget k fs). Proof. apply touches_get. Qed.
Lemma touches_hgetall : touches ks (cmd_hgetall k).
Proof. apply touches_view. intros x. apply touches_ret. Qed.
Lemma touches_hexists f : touches ks (cmd_hexists k f). Proof. apply touches_get. Qed.
Lemma touches_hkeys : touches ks (cmd_hkeys k). Proof. apply touches_get. Qed.
Lemma touches_llen : touches ks (cmd_llen k). Proof. apply touches_get. Qed.
Lemma touches_lrange_all : touches ks (cmd_lrange_all k).
Proof. apply touches_view. intros x. apply touches_ret. Qed.
Lemma touches_lindex0 : touches ks (cmd_lindex0 k). Proof. apply touches_get. Qed.
Lemma touches_sismember v : touches ks (cmd_sismember k v). Proof. apply touches_get. Qed.
Lemma touches_scard : touches ks (cmd_scard k). Proof. apply touches_get. Qed.
Lemma touches_smembers : touches ks (cmd_smembers k). Proof. apply touches_get. Qed.
Lemma touches_zcard : touches ks (cmd_zcard k). Proof. apply touches_get. Qed.
Lemma touches_zrange00 : touches ks (cmd_zrange00 k). Proof. apply touches_get. Qed.
Lemma touches_get_str : touches ks (cmd_get k).
Proof. apply touches_view. intros x. apply touches_ret. Qed.
Lemma touches_exists : touches ks (cmd_exists k). Proof. by intros s k' Hk. Qed.
Lemma touches_pexpire now ms : touches ks (cmd_pexpire now k ms).
Proof. intros s k' Hk. unfold cmd_pexpire. case_match; [|done]. by case_decide. Qed.

Hypothesis Hk : k ∈ ks.

Lemma touches_put (f : store → option value) : touches ks (modify (λ s, upd k (f s) s)).
Proof using Hk. by apply touches_upd. Qed.

Lemma touches_hset kvs : touches ks (cmd_hset k kvs).
Proof using Hk. apply touches_view. intros h. by apply (touches_put (λ _, hash_val _)). Qed.
Lemma touches_hdel f : touches ks (cmd_hdel k f).
Proof using Hk. apply touches_view. intros h. by apply (touches_put (λ _, hash_val _)). Qed.
Lemma touches_hincrby f n : touches ks (cmd_hincrby k f n).
Proof using Hk.
  apply touches_view. intros h. case_match; [|apply touches_throw].
  apply touches_bind; [by apply (touches_put (λ _, hash_val _))|]. intros; apply touches_ret.
Qed.
Lemma touches_rpush vs : touches ks (cmd_rpush k vs).
Proof using Hk. apply touches_view. intros l. by apply (touches_put (λ _, list_val _)). Qed.
Lemma touches_lpush v : touches ks (cmd_lpush k v).
Proof using Hk. apply touches_view. intros l. by apply (touches_put (λ _, list_val _)). Qed.
Lemma touches_lrem1 v : touches ks (cmd_lrem1 k v).
Proof using Hk.
  apply touches_view. intros l. case_decide; [|apply touches_ret].
  apply touches_bind; [by apply (touches_put (λ _, list_val _))|]. intros; apply touches_ret.
Qed.
Lemma touches_lrem0 v : touches ks (cmd_lrem0 k v).
Proof using Hk.
  apply touches_view. intros l. cbv zeta. case_decide; [apply touches_ret|].
  apply touches_bind; [by apply (touches_put (λ _, list_val _))|]. intros; apply touches_ret.
Qed.
Lemma touches_ltrim a b : touches ks (cmd_ltrim k a b).
Proof using Hk. apply touches_view. intros l. by apply (touches_put (λ _, list_val _)). Qed.
Lemma touches_sadd v : touches ks (cmd_sadd k v).
Proof using Hk. apply touches_view. intros l. by apply (touches_put (λ _, set_val _)). Qed.
Lemma touches_srem v : touches ks (cmd_srem k v).
Proof using Hk. apply touches_view. intros l. by apply (touches_put (λ _, set_val _)). Qed.
Lemma touches_zadd sc m : touches ks (cmd_zadd k sc m).
Proof using Hk.
  apply touches_view. intros z. destruct (ParseInt sc) as [n [|]]; [apply touches_throw|].
  by apply (touches_put (λ _, zset_val _)).
Qed.
Lemma touches_zrem m : touches ks (cmd_zrem k m).
Proof using Hk.
  apply touches_view. intros z. case_decide; [|apply touches_ret].
  apply touches_bind; [by apply (touches_put (λ _, zset_val _))|]. intros; apply touches_ret.
Qed.
End touches_commands.

Lemma touches_del ks ks' : ks ⊆ ks' → touches ks' (cmd_del ks).
Proof.
  intros Hsub s k Hk. unfold cmd_del. simpl. revert s. induction ks as [|k0 ks IH]; intros s; [done|].
  simpl. rewrite IH by set_solver. apply lookup_delete_ne. set_solver.
Qed.

(** Walks a script command by command; what is left is that each written key
    is among the allowed ones. *)
Ltac touches_step :=
  match goal with
  | |- touches _ (mret _) => apply touches_ret
  | |- touches _ (throw _) => apply touches_throw
  | |- touches _ (_ ≫= _) => apply touches_bind; [|intros ?]
  | |- touches _ (when _ _) => apply touches_when
  | |- touches _ (cmd_hget _ _) => apply touches_hget
  | |- touches _ (cmd_hmget _ _) => apply touches_hmget
  | |- touches _ (cmd_hgetall _) => apply touches_hgetall
  | |- touches _ (cmd_hexists _ _) => apply touches_hexists
  | |- touches _ (cmd_hkeys _) => apply touches_hkeys
  | |- touches _ (cmd_llen _) => apply touches_llen
  | |- touches _ (cmd_lrange_all _) => apply touches_lrange_all
  | |- touches _ (cmd_lindex0 _) => apply touches_lindex0
  | |- touches _ (cmd_sismember _ _) => apply touches_sismember
  | |- touches _ (cmd_scard _) => apply touches_scard
  | |- touches _ (cmd_smembers _) => apply touches_smembers
  | |- touches _ (cmd_zcard _) => apply touches_zcard
  | |- touches _ (cmd_zrange00 _) => apply touches_zrange00
  | |- touches _ (cmd_get _) => apply touches_get_str
  | |- touches _ (cmd_exists _) => apply touches_exists
  | |- touches _ (cmd_pexpire _ _ _) => apply touches_pexpire
  | |- touches _ (cmd_hset _ _) => apply touches_hset
  | |- touches _ (cmd_hdel _ _) => apply touches_hdel
  | |- touches _ (cmd_hincrby _ _ _) => apply touches_hincrby
  | |- touches _ (cmd_rpush _ _) => apply touches_rpush
  | |- touches _ (cmd_lpush _ _) => apply touches_lpush
  | |- touches _ (cmd_lrem1 _ _) => apply touches_lrem1
  | |- touches _ (cmd_lrem0 _ _) => apply touches_lrem0
  | |- touches _ (cmd_ltrim _ _ _) => apply touches_ltrim
  | |- touches _ (cmd_sadd _ _) => apply touches_sadd
  | |- touches _ (cmd_srem _ _) => apply touches_srem
  | |- touches _ (cmd_zadd _ _ _) => apply touches_zadd
  | |- touches _ (cmd_zrem _ _) => apply touches_zrem
  | |- touches _ (cmd_del _) => apply touches_del
  | |- touches _ (if ?b then _ else _) => destruct b
  | |- touches _ (match ?x with _ => _ end) => destruct x
  end.
Ltac touches_auto := repeat (cbv beta zeta; touches_step).

(** ** Deciding that two keys differ *)

Definition wf_queue (q : Queue) : Prop := no_colon (Namespace q) = true ∧ no_colon (Name q) = true.

#[global] Instance wf_queue_dec q : Decision (wf_queue q).
Proof. unfold wf_queue. apply _. Defined.

Lemma wf_queue_ns q : wf_queue q → no_colon (Namespace q) = true.
Proof. by intros []. Qed.
Lemma wf_queue_name q : wf_queue q → no_colon (Name q) = true.
Proof. by intros []. Qed.

#[export] Hint Resolve wf_queue_ns wf_queue_name : smq.

Ltac reify_key k :=
  lazymatch k with
  | NamespaceQueues ?ns => constr:(KNamespaceQueues ns)
  | NamespaceExchanges ?ns => constr:(KNamespaceExchanges ns)
  | Properties ?q => constr:(KProperties q)
  | Published ?q => constr:(KPublished q)
  | Pending ?q => constr:(KPending q)
  | Priority ?q => constr:(KPriority q)
  | DeadLetter ?q => constr:(KDeadLetter q)
  | Acknowledged ?q => constr:(KAcknowledged q)
  | Scheduled ?q => constr:(KScheduled q)
  | Delayed ?q => constr:(KDelayed q)
  | Requeued ?q => constr:(KRequeued q)
  | Consumers ?q => constr:(KConsumers q)
  | ConsumerGroups ?q => constr:(KConsumerGroups q)
  | StateHistory ?q => constr:(KStateHistory q)
  | ExchangeBindings ?q => constr:(KExchangeBindings q)
  | ProcessingQueues ?q => constr:(KProcessingQueues q)
  | WorkersLock ?q => constr:(KWorkersLock q)
  | RateLimit ?q => constr:(KRateLimit q)
  | PendingWithGroup ?q ?g => constr:(KPendingWithGroup q g)
  | PriorityWithGroup ?q ?g => constr:(KPriorityWithGroup q g)
  | ConsumerProcessing ?q ?g => constr:(KConsumerProcessing q g)
  | ConsumerGroupMembers ?q ?g => constr:(KConsumerGroupMembers q g)
  | ExchangeProperties ?q => constr:(KExchangeProperties q)
  | RoutingKeys ?q => constr:(KRoutingKeys q)
  | RoutingKeyQueues ?q ?g => constr:(KRoutingKeyQueues q g)
  | BindingPatterns ?q => constr:(KBindingPatterns q)
  | PatternQueues ?q ?g => constr:(KPatternQueues q g)
  | FanoutQueues ?q => constr:(KFanoutQueues q)
  | Config => constr:(KConfig)
  | AllQueues => constr:(KAllQueues)
  | AllExchanges => constr:(KAllExchanges)
  | AllNamespaces => constr:(KAllNamespaces)
  | PurgeJobs => constr:(KPurgeJobs)
  | PendingPurgeJobs => constr:(KPendingPurgeJobs)
  | ActivePurgeJobs => constr:(KActivePurgeJobs)
  | JobWorker ?q => constr:(KJobWorker q)
  | WorkerHeartbeat ?q => constr:(KWorkerHeartbeat q)
  | ConsumerQueues ?q => constr:(KConsumerQueues q)
  | ConsumerHeartbeat ?q => constr:(KConsumerHeartbeat q)
  | Message ?q => constr:(KMessage q)
  | MessageAcknowledgementHistory ?q => constr:(KMessageHistory q)
  | ExchangeKey ?q => constr:(KExchange q)
  end.

(** The parts of a key are colon-free. *)
Ltac wf_parts :=
  unfold wf_key; cbn [key_parts];
  repeat (apply Forall_cons; split; [by eauto with smq|]); by apply Forall_nil.

(** [k1 ≠ k2] for two keys written with the builders. *)
Ltac key_ne :=
  lazymatch goal with
  | |- ?k1 ≠ ?k2 =>
      let r1 := reify_key k1 in let r2 := reify_key k2 in
      apply (render_key_ne r1 r2); [wf_parts|wf_parts|by (discriminate || congruence)]
  end.

(** ** Counters of a queue *)

(** A counter of a queue: an absent field counts as 0, as for [HINCRBY]. *)
Definition counter_text (h : gmap string string) (f : qfield) : string :=
  default "0" (h !! qkey f).
Definition counter (s : store) (q : Queue) (f : qfield) : Z :=
  default 0%Z (string2ll (counter_text (hsh s (Properties q)) f)).

(** The counter is an integer that can still be moved by [n]. *)
Definition counter_ok (s : store) (q : Queue) (f : qfield) (n : Z) : Prop :=
  string2ll (counter_text (hsh s (Properties q)) f) = Some (counter s q f) ∧
  in_int64 (counter s q f + n)%Z.

Definition add_counter (q : Queue) (f : qfield) (n : Z) (s : store) : store :=
  upd (Properties q)
    (hash_val (<[qkey f := itoa (counter s q f + n)%Z]> (hsh s (Properties q)))) s.

Lemma hincrby_counter q f n s :
  is_hash s (Properties q) → counter_ok s q f n →
  cmd_hincrby (Properties q) (qkey f) n s = (Ret (counter s q f + n)%Z, add_counter q f n s).
Proof.
  intros Hh [Hz Hr]. apply hincrby_run; [done|]. unfold hincr.
  unfold counter_text in Hz. rewrite Hz. by rewrite decide_True.
Qed.

Lemma add_counter_ne q f f' n s :
  f ≠ f' → counter (add_counter q f n s) q f' = counter s q f'.
Proof.
  intros Hne. unfold counter, counter_text, add_counter. rewrite hsh_upd.
  rewrite lookup_insert_ne by (by intros ?%(inj qkey)). done.
Qed.

Lemma add_counter_eq q f n s :
  in_int64 (counter s q f + n)%Z → counter (add_counter q f n s) q f = (counter s q f + n)%Z.
Proof.
  intros Hr. unfold counter at 1. unfold counter_text, add_counter.
  rewrite hsh_upd, lookup_insert_eq. simpl. by rewrite string2ll_itoa.
Qed.

(** Counters depend on the properties alone. *)
Lemma counter_hsh s s' q f :
  hsh s' (Properties q) = hsh s (Properties q) → counter s' q f = counter s q f.
Proof. intros H. unfold counter. by rewrite H. Qed.

Lemma counter_ok_hsh s s' q f n :
  hsh s' (Properties q) = hsh s (Properties q) → counter_ok s q f n → counter_ok s' q f n.
Proof. intros H. unfold counter_ok, counter. by rewrite H. Qed.

Lemma counter_ok_ne q f f' n n' s :
  f ≠ f' → counter_ok s q f' n' → counter_ok (add_counter q f n s) q f' n'.
Proof.
  intros Hne [Hc Hr]. unfold counter_ok. rewrite add_counter_ne by done. split; [|done].
  unfold counter_text, add_counter. rewrite hsh_upd.
  by rewrite lookup_insert_ne by (by intros ?%(inj qkey)).
Qed.

Lemma wt_add_counter q f n s : wt s → wf_queue q → wt (add_counter q f n s).
Proof. intros Hs Hq. apply (wt_upd_hash _ (KProperties q)); [done|wf_parts|done]. Qed.

Lemma hsh_add_counter_ne q f n s k :
  Properties q ≠ k → hsh (add_counter q f n s) k = hsh s k.
Proof. intros H. by apply hsh_upd_ne. Qed.
Lemma lst_add_counter q f n s k : Properties q ≠ k → lst (add_counter q f n s) k = lst s k.
Proof. intros H. by apply lst_upd_ne. Qed.
Lemma sts_add_counter q f n s k : Properties q ≠ k → sts (add_counter q f n s) k = sts s k.
Proof. intros H. by apply sts_upd_ne. Qed.
Lemma zst_add_counter q f n s k : Properties q ≠ k → zst (add_counter q f n s) k = zst s k.
Proof. intros H. by apply zst_upd_ne. Qed.

(** Pushes a view of one key through the writes of others. *)
Ltac view_step :=
  first
    [ rewrite lst_add_counter by key_ne | rewrite hsh_add_counter_ne by key_ne
    | rewrite sts_add_counter by key_ne | rewrite zst_add_counter by key_ne
    | rewrite lst_upd | rewrite hsh_upd | rewrite sts_upd | rewrite zst_upd
    | rewrite lst_upd_ne by key_ne | rewrite hsh_upd_ne by key_ne
    | rewrite sts_upd_ne by key_ne | rewrite zst_upd_ne by key_ne ].
Ltac views := repeat view_step.

(** [is_hash s k] and the like from [wt s]; [wt] of a sequence of writes. *)
Ltac wt_view :=
  lazymatch goal with
  | |- is_hash ?s ?k =>
      let r := reify_key k in refine (wt_hash s _ r _ _); [wt_solve|wf_parts|done]
  | |- is_list ?s ?k =>
      let r := reify_key k in refine (wt_list s _ r _ _); [wt_solve|wf_parts|done]
  | |- is_set ?s ?k =>
      let r := reify_key k in refine (wt_set s _ r _ _); [wt_solve|wf_parts|done]
  | |- is_zset ?s ?k =>
      let r := reify_key k in refine (wt_zset s _ r _ _); [wt_solve|wf_parts|done]
  end
with wt_solve :=
  lazymatch goal with
  | H : wt ?s |- wt ?s => exact H
  | |- wt (add_counter _ _ _ _) => apply wt_add_counter; [wt_solve|by auto]
  | |- wt (upd ?k (hash_val _) _) =>
      let r := reify_key k in apply (wt_upd_hash _ r); [wt_solve|wf_parts|done]
  | |- wt (upd ?k (list_val _) _) =>
      let r := reify_key k in apply (wt_upd_list _ r); [wt_solve|wf_parts|done]
  | |- wt (upd ?k (set_val _) _) =>
      let r := reify_key k in apply (wt_upd_set _ r); [wt_solve|wf_parts|done]
  | |- wt (upd ?k (zset_val _) _) =>
      let r := reify_key k in apply (wt_upd_zset _ r); [wt_solve|wf_parts|done]
  end.

(** Runs the first command of a script. *)
Ltac run_cmd lem := erewrite bind_Ret; [|apply lem; try wt_view].
