(* ===== verification/Topic.v ===== *)
(** * Topic patterns

    The pattern validator and the pattern matcher of internal/exchange/topic.go.
    The matcher is compared with the AMQP reading of patterns, given as an
    inductive relation, and the hand-coded token check with the regular
    expression of the source. *)

From S2P Require Import Prelude Keys.

(** [strings.Split(s, ".")]: always at least one token. *)
Fixpoint Split (s : string) : list string :=
  match s with
  | EmptyString => [EmptyString]
  | String c r =>
      if decide (c = "."%char) then EmptyString :: Split r
      else match Split r with
           | t :: ts => String c t :: ts
           | [] => [String c EmptyString]
           end
  end.

(** ** The regular expression [^[A-Za-z][A-Za-z0-9]*(?:[-_][A-Za-z0-9]+)*$] *)

Definition alpha (c : ascii) : bool := byte_between "A" "Z" c || byte_between "a" "z" c.
Definition alnum (c : ascii) : bool := alpha c || isDigit c.
Definition joiner (c : ascii) : bool :=
  bool_decide (c = "-"%char) || bool_decide (c = "_"%char).

(** Scanner: [true] when the last byte read was a letter or a digit. *)
Fixpoint scan_token (ok : bool) (s : string) : bool :=
  match s with
  | EmptyString => ok
  | String c r =>
      if alnum c then scan_token true r
      else if joiner c then ok && scan_token false r
      else false
  end.

Definition literalTokenRE (token : string) : bool :=
  match token with
  | EmptyString => false
  | String c r => alpha c && scan_token true r
  end.

Definition token_ok (token : string) : bool :=
  negb (bool_decide (token = "")) &&
  (bool_decide (token = "*") || bool_decide (token = "#") || literalTokenRE token).

Definition validateTopicPattern (pattern : string) : bool :=
  negb (bool_decide (pattern = "")) && forallb token_ok (Split pattern).

(** ** Matching

    Every recursive call is on [p[1:]]; the loop over [i] tries every suffix
    of the routing key and stops at the first success. *)
Fixpoint matchTopicTokens (r p : list string) {struct p} : bool :=
  match p with
  | [] => match r with [] => true | _ => false end
  | p0 :: p' =>
      match r with
      | [] => forallb (λ token, bool_decide (token = "#")) p
      | r0 :: r' =>
          if decide (p0 = "#")
          then existsb (λ i, matchTopicTokens (drop i r) p') (seq 0 (S (length r)))
          else if decide (p0 = "*") then matchTopicTokens r' p'
          else if decide (r0 = p0) then matchTopicTokens r' p'
          else false
      end
  end.

Definition matchTopicPattern (routingKey pattern : string) : bool :=
  matchTopicTokens (Split routingKey) (Split pattern).

(** ** The AMQP reading: [*] is one token, [#] any number of tokens *)

Inductive topic_match : list string → list string → Prop :=
| tm_nil : topic_match [] []
| tm_word t r p : t ≠ "*" → t ≠ "#" → topic_match r p → topic_match (t :: r) (t :: p)
| tm_star t r p : topic_match r p → topic_match (t :: r) ("*" :: p)
| tm_hash ts r p : topic_match r p → topic_match (ts ++ r) ("#" :: p).

#[local] Hint Constructors topic_match : smq.

Lemma topic_match_nil_hashes p :
  forallb (λ token, bool_decide (token = "#")) p = true ↔ topic_match [] p.
Proof.
  split.
  - induction p as [|t p IH]; simpl; [auto with smq|].
    intros [->%bool_decide_eq_true Hp]%andb_prop. apply (tm_hash []). by apply IH.
  - remember [] as r eqn:Hr. induction 1 as [|t r p _ _ _ _|t r p _ _|ts r p _ IH]; try done.
    apply app_eq_nil in Hr as [-> ->]. simpl. by apply IH.
Qed.

Lemma matchTopicTokens_sound r p : matchTopicTokens r p = true → topic_match r p.
Proof.
  revert r. induction p as [|p0 p IH]; intros r; [by destruct r; auto with smq|].
  destruct r as [|r0 r]; [by apply topic_match_nil_hashes|]. cbn [matchTopicTokens].
  destruct (decide (p0 = "#")) as [->|Hh].
  - intros (i & _ & Hi)%existsb_exists. rewrite <-(take_drop i (r0 :: r)).
    by apply tm_hash, IH.
  - destruct (decide (p0 = "*")) as [->|Hs]; [intros H; by apply tm_star, IH|].
    destruct (decide (r0 = p0)) as [->|]; [|done]. intros H. by apply tm_word, IH.
Qed.

Lemma matchTopicTokens_complete r p : topic_match r p → matchTopicTokens r p = true.
Proof.
  induction 1 as [|t r p Hs Hh _ IH|t r p _ IH|ts r p Hm IH]; [done| |done|].
  - simpl. rewrite !decide_False by done. by rewrite decide_True.
  - destruct (ts ++ r) as [|t0 rest] eqn:E.
    + apply app_eq_nil in E as [-> ->]. by apply topic_match_nil_hashes, (tm_hash []).
    + cbn [matchTopicTokens]. rewrite decide_True by done. apply existsb_exists.
      exists (length ts). rewrite <-E. split.
      * apply in_seq. rewrite length_app. lia.
      * by rewrite drop_app_length.
Qed.

(** ** The language of the regular expression *)

Inductive all_in (f : ascii → bool) : string → Prop :=
| ai_nil : all_in f ""
| ai_cons c s : f c = true → all_in f s → all_in f (String c s).

(** [(?:[-_][A-Za-z0-9]+)*] *)
Inductive groups : string → Prop :=
| g_nil : groups ""
| g_cons j c w s :
    joiner j = true → alnum c = true → all_in alnum w → groups s →
    groups (String j (String c (w +:+ s))).

Definition token_language (token : string) : Prop :=
  ∃ c w s, token = String c (w +:+ s) ∧ alpha c = true ∧ all_in alnum w ∧ groups s.

#[local] Hint Constructors all_in groups : smq.

Lemma alnum_not_joiner c : alnum c = true → joiner c = false.
Proof. destruct c as [[] [] [] [] [] [] [] []]; by vm_compute. Qed.

Lemma scan_alnum w s : all_in alnum w → scan_token true (w +:+ s) = scan_token true s.
Proof. induction 1 as [|c w Hc _ IH]; [done|]. simpl. by rewrite Hc. Qed.

Lemma scan_groups s : groups s → scan_token true s = true.
Proof.
  induction 1 as [|j c w s Hj Hc Hw _ IH]; [done|]. simpl.
  rewrite Hj, Hc. destruct (alnum j) eqn:Ha; [by rewrite alnum_not_joiner in Hj|].
  simpl. by rewrite scan_alnum.
Qed.

Lemma scan_token_split b s :
  scan_token b s = true →
  match b with
  | true => ∃ w s', s = w +:+ s' ∧ all_in alnum w ∧ groups s'
  | false => ∃ c w s', s = String c (w +:+ s') ∧ alnum c = true ∧ all_in alnum w ∧ groups s'
  end.
Proof.
  revert b. induction s as [|c s IH]; intros b; simpl.
  - intros ->. exists "", "". auto with smq.
  - destruct (alnum c) eqn:Hc.
    + intros (w & s' & -> & Hw & Hs)%IH. destruct b.
      * exists (String c w), s'. auto with smq.
      * exists c, w, s'. auto.
    + destruct (joiner c) eqn:Hj; [|done]. intros [-> H]%andb_prop.
      apply IH in H as (d & w & s' & -> & Hd & Hw & Hs).
      exists "", (String c (String d (w +:+ s'))). auto with smq.
Qed.

Lemma literalTokenRE_iff token : literalTokenRE token = true ↔ token_language token.
Proof.
  split.
  - destruct token as [|c s]; [done|]. simpl. intros [Hc Hs]%andb_prop.
    apply scan_token_split in Hs as (w & s' & -> & Hw & Hg). by exists c, w, s'.
  - intros (c & w & s & -> & Hc & Hw & Hs). simpl. rewrite Hc, scan_alnum by done.
    by apply scan_groups.
Qed.

(** ** Properties *)

(** C38: the backtracking matcher decides exactly the AMQP matching relation:
    [*] stands for one token, [#] for any number, other tokens for
    themselves. *)
Theorem matchTopicTokens_iff r p : matchTopicTokens r p = true ↔ topic_match r p.
Proof. split; [apply matchTopicTokens_sound|apply matchTopicTokens_complete]. Qed.

(** A pattern is accepted exactly when it is non-empty and each of its
    dot-separated tokens is [*], [#] or a word of the regular expression. *)
Theorem validateTopicPattern_iff pattern :
  validateTopicPattern pattern = true ↔
  pattern ≠ "" ∧
  Forall (λ t, t ≠ "" ∧ (t = "*" ∨ t = "#" ∨ token_language t)) (Split pattern).
Proof.
  unfold validateTopicPattern, token_ok.
  rewrite andb_true_iff, negb_true_iff, bool_decide_eq_false, <-(Is_true_true (forallb _ _)),
    forallb_True, !Forall_forall.
  setoid_rewrite Is_true_true. setoid_rewrite andb_true_iff.
  setoid_rewrite orb_true_iff. setoid_rewrite orb_true_iff.
  setoid_rewrite literalTokenRE_iff. setoid_rewrite negb_true_iff.
  setoid_rewrite bool_decide_eq_false. setoid_rewrite bool_decide_eq_true. naive_solver.
Qed.
