(* ===== verification/Json.v ===== *)
(** * JSON text

    The part of Go's encoding/json the code relies on: compact JSON as
    [json.Marshal] writes it and as [json.Unmarshal] reads it back, with
    integer numbers.  Strings are byte strings; bytes above 7F are written as
    they are (valid UTF-8 other than U+2028 and U+2029, which encoding/json
    escapes).  The reader accepts the compact form, which is what every
    producer of these values writes.  The main lemma is that reading what was
    written gives the value back. *)

From S2P Require Import Prelude.

#[local] Arguments String.append !_ _ / : simpl nomatch.

Inductive json :=
| JNull
| JBool (b : bool)
| JNum (z : Z)
| JStr (s : string)
| JArr (l : list json)
| JObj (l : list (string * json)).

(** ** Writing *)

Definition hex_digit (n : nat) : ascii :=
  if decide (n < 10) then ascii_of_nat (48 + n) else ascii_of_nat (87 + n).

(** Bytes that [json.Marshal] escapes: the quote, the backslash, control
    characters, and [<], [>], [&] (HTML escaping is on by default). *)
Definition escape (c : ascii) : string :=
  let n := nat_of_ascii c in
  if decide (n = 34) then String "\" (String c "")
  else if decide (n = 92) then "\\"
  else if decide (n = 8) then "\b"
  else if decide (n = 12) then "\f"
  else if decide (n = 10) then "\n"
  else if decide (n = 13) then "\r"
  else if decide (n = 9) then "\t"
  else if decide (n < 32 ∨ n = 60 ∨ n = 62 ∨ n = 38)
  then "\u00" +:+ String (hex_digit (n / 16)) (String (hex_digit (n mod 16)) "")
  else String c "".

Definition quote_char : ascii := ascii_of_nat 34.

Fixpoint escape_all (s : string) : string :=
  match s with
  | EmptyString => EmptyString
  | String c r => escape c +:+ escape_all r
  end.

Definition quote (s : string) : string :=
  String quote_char (escape_all s +:+ String quote_char "").

Fixpoint print (j : json) : string :=
  match j with
  | JNull => "null"
  | JBool true => "true"
  | JBool false => "false"
  | JNum z => itoa z
  | JStr s => quote s
  | JArr l =>
      match l with
      | [] => "[]"
      | x :: l' =>
          "[" +:+ print x +:+
          (fix tail l := match l with [] => "]" | x :: l' => "," +:+ print x +:+ tail l' end) l'
      end
  | JObj l =>
      match l with
      | [] => "{}"
      | (k, x) :: l' =>
          "{" +:+ quote k +:+ ":" +:+ print x +:+
          (fix tail l := match l with
                         | [] => "}"
                         | (k, x) :: l' => "," +:+ quote k +:+ ":" +:+ print x +:+ tail l'
                         end) l'
      end
  end.

Fixpoint print_tail (l : list json) : string :=
  match l with [] => "]" | x :: l' => "," +:+ print x +:+ print_tail l' end.
Fixpoint print_fields (l : list (string * json)) : string :=
  match l with
  | [] => "}"
  | (k, x) :: l' => "," +:+ quote k +:+ ":" +:+ print x +:+ print_fields l'
  end.

(** ** Reading *)

Definition hex_value (c : ascii) : option nat :=
  let n := nat_of_ascii c in
  if decide (48 ≤ n ∧ n ≤ 57) then Some (n - 48)
  else if decide (97 ≤ n ∧ n ≤ 102) then Some (n - 87)
  else if decide (65 ≤ n ∧ n ≤ 70) then Some (n - 55)
  else None.

Definition unescape1 (c : ascii) : option ascii :=
  let n := nat_of_ascii c in
  if decide (n = 34 ∨ n = 92 ∨ n = 47) then Some c
  else if decide (n = 98) then Some (ascii_of_nat 8)
  else if decide (n = 102) then Some (ascii_of_nat 12)
  else if decide (n = 110) then Some (ascii_of_nat 10)
  else if decide (n = 114) then Some (ascii_of_nat 13)
  else if decide (n = 116) then Some (ascii_of_nat 9)
  else None.

(** Reads up to the closing quote.  A [\uXXXX] escape is read when it denotes
    an ASCII character, the only ones the writer escapes. *)
Fixpoint read_string (s : string) : option (string * string) :=
  match s with
  | EmptyString => None
  | String c r =>
      if decide (c = quote_char) then Some ("", r)
      else if decide (c = "\"%char) then
        match r with
        | String "u" (String "0" (String "0" (String a (String b r')))) =>
            match hex_value a, hex_value b with
            | Some x, Some y =>
                if decide (x < 8) then
                  match read_string r' with
                  | Some (t, rest) => Some (String (ascii_of_nat (16 * x + y)) t, rest)
                  | None => None
                  end
                else None
            | _, _ => None
            end
        | String e r' =>
            match unescape1 e, read_string r' with
            | Some d, Some (t, rest) => Some (String d t, rest)
            | _, _ => None
            end
        | EmptyString => None
        end
      else match read_string r with
           | Some (t, rest) => Some (String c t, rest)
           | None => None
           end
  end.

Definition is_digit (c : ascii) : bool :=
  bool_decide (48 ≤ nat_of_ascii c ∧ nat_of_ascii c ≤ 57).

(** The maximal run of digits. *)
Fixpoint span_digits (s : string) : string * string :=
  match s with
  | String c r =>
      if is_digit c then let '(d, rest) := span_digits r in (String c d, rest) else ("", s)
  | EmptyString => ("", "")
  end.

Definition read_number (s : string) : option (Z * string) :=
  match s with
  | String "-" r =>
      let '(d, rest) := span_digits r in
      match parse_uint d with Some n => Some ((- n)%Z, rest) | None => None end
  | _ =>
      let '(d, rest) := span_digits s in
      match parse_uint d with Some n => Some (n, rest) | None => None end
  end.

(** [s] without the literal [p] in front. *)
Fixpoint strip (p s : string) : option string :=
  match p, s with
  | EmptyString, _ => Some s
  | String a p', String b s' => if decide (a = b) then strip p' s' else None
  | String _ _, EmptyString => None
  end.

Fixpoint read_value (n : nat) (s : string) {struct n} : option (json * string) :=
  match n with
  | 0 => None
  | S n =>
      match s with
      | EmptyString => None
      | String c r =>
          if decide (c = quote_char) then
            match read_string r with Some (t, rest) => Some (JStr t, rest) | None => None end
          else if decide (c = "n"%char) then
            match strip "ull" r with Some rest => Some (JNull, rest) | None => None end
          else if decide (c = "t"%char) then
            match strip "rue" r with Some rest => Some (JBool true, rest) | None => None end
          else if decide (c = "f"%char) then
            match strip "alse" r with Some rest => Some (JBool false, rest) | None => None end
          else if decide (c = "["%char) then
            match strip "]" r with
            | Some rest => Some (JArr [], rest)
            | None =>
                match read_value n r with
                | Some (x, r1) =>
                    match read_tail n r1 with
                    | Some (l, rest) => Some (JArr (x :: l), rest)
                    | None => None
                    end
                | None => None
                end
            end
          else if decide (c = "{"%char) then
            match strip "}" r with
            | Some rest => Some (JObj [], rest)
            | None =>
                match read_field n r with
                | Some (kx, r1) =>
                    match read_fields n r1 with
                    | Some (l, rest) => Some (JObj (kx :: l), rest)
                    | None => None
                    end
                | None => None
                end
            end
          else match read_number s with Some (z, rest) => Some (JNum z, rest) | None => None end
      end
  end
with read_tail (n : nat) (s : string) {struct n} : option (list json * string) :=
  match n with
  | 0 => None
  | S n =>
      match s with
      | String "]" rest => Some ([], rest)
      | String "," r =>
          match read_value n r with
          | Some (x, r1) =>
              match read_tail n r1 with
              | Some (l, rest) => Some (x :: l, rest)
              | None => None
              end
          | None => None
          end
      | _ => None
      end
  end
with read_field (n : nat) (s : string) {struct n} : option ((string * json) * string) :=
  match n with
  | 0 => None
  | S n =>
      match s with
      | String c r =>
          if decide (c = quote_char) then
            match read_string r with
            | Some (k, String ":" r1) =>
                match read_value n r1 with
                | Some (x, rest) => Some ((k, x), rest)
                | None => None
                end
            | _ => None
            end
          else None
      | EmptyString => None
      end
  end
with read_fields (n : nat) (s : string) {struct n} : option (list (string * json) * string) :=
  match n with
  | 0 => None
  | S n =>
      match s with
      | String "}" rest => Some ([], rest)
      | String "," r =>
          match read_field n r with
          | Some (kx, r1) =>
              match read_fields n r1 with
              | Some (l, rest) => Some (kx :: l, rest)
              | None => None
              end
          | None => None
          end
      | _ => None
      end
  end.

(** The fuel is the length of the text, which bounds the depth of the calls
    ([weight_print] below). *)
Definition parse_json (s : string) : option json :=
  match read_value (S (String.length s)) s with
  | Some (j, EmptyString) => Some j
  | _ => None
  end.

(** ** Round trip *)

(** What may follow a value: the end of the text or a structural byte. *)
Definition delim (s : string) : Prop :=
  match s with EmptyString => True | String c _ => is_digit c = false end.

Lemma str_app_assoc (a b c : string) : (a +:+ b) +:+ c = a +:+ (b +:+ c).
Proof. induction a as [|x a IH]; [done|]. cbn. by rewrite IH. Qed.

Lemma str_app_nil (a : string) : a +:+ "" = a.
Proof. induction a as [|x a IH]; [done|]. cbn. by rewrite IH. Qed.

Lemma str_length_app (a b : string) :
  String.length (a +:+ b) = String.length a + String.length b.
Proof. induction a as [|x a IH]; [done|]. cbn. by rewrite <-IH. Qed.

Lemma read_string_escape c t :
  read_string (escape c +:+ t) =
  match read_string t with Some (u, rest) => Some (String c u, rest) | None => None end.
Proof. destruct c as [[] [] [] [] [] [] [] []]; reflexivity. Qed.

Lemma read_string_escape_all s rest :
  read_string (escape_all s +:+ String quote_char rest) = Some (s, rest).
Proof.
  induction s as [|c s IH]; [done|]. cbn [escape_all].
  rewrite str_app_assoc, read_string_escape, IH. done.
Qed.

Lemma quote_app s t :
  quote s +:+ t = String quote_char (escape_all s +:+ String quote_char t).
Proof. unfold quote. simpl. by rewrite str_app_assoc. Qed.

Lemma span_digits_uint d rest :
  delim rest → span_digits (DecimalString.NilEmpty.string_of_uint d +:+ rest) =
               (DecimalString.NilEmpty.string_of_uint d, rest).
Proof.
  intros Hr. induction d; simpl; try (by rewrite IHd).
  destruct rest as [|c r]; [done|]. simpl in *. by rewrite Hr.
Qed.

Lemma nilzero_pos p :
  DecimalString.NilZero.string_of_uint (Pos.to_uint p) =
  DecimalString.NilEmpty.string_of_uint (Pos.to_uint p).
Proof.
  pose proof (DecimalPos.Unsigned.to_uint_nonnil p) as Hn. by destruct (Pos.to_uint p).
Qed.

Lemma read_number_itoa z rest : delim rest → read_number (itoa z +:+ rest) = Some (z, rest).
Proof.
  intros Hr. destruct z as [|p|p].
  - destruct rest as [|c r]; [done|]. simpl in Hr. cbn. by rewrite Hr.
  - unfold itoa. cbn [Z.to_int DecimalString.NilZero.string_of_int].
    pose proof (parse_uint_of_uint (Pos.to_uint p) (DecimalPos.Unsigned.to_uint_nonnil p)) as Hp.
    rewrite nilzero_pos, of_uint_pos in Hp. rewrite nilzero_pos.
    pose proof (span_digits_uint (Pos.to_uint p) rest Hr) as Hs.
    pose proof (DecimalPos.Unsigned.to_uint_nonnil p) as Hn.
    unfold read_number. 
    destruct (Pos.to_uint p) eqn:E; [done|..]; cbn in Hs, Hp |- *;
      rewrite Hs; cbn; by rewrite Hp.
  - unfold itoa. cbn [Z.to_int DecimalString.NilZero.string_of_int].
    pose proof (parse_uint_of_uint (Pos.to_uint p) (DecimalPos.Unsigned.to_uint_nonnil p)) as Hp.
    rewrite nilzero_pos, of_uint_pos in Hp. rewrite nilzero_pos. simpl.
    rewrite span_digits_uint by done. by rewrite Hp.
Qed.

Section json_induction.
Variable P : json → Prop.
Hypothesis Hnull : P JNull.
Hypothesis Hbool : ∀ b, P (JBool b).
Hypothesis Hnum : ∀ z, P (JNum z).
Hypothesis Hstr : ∀ s, P (JStr s).
Hypothesis Harr : ∀ l, Forall P l → P (JArr l).
Hypothesis Hobj : ∀ l, Forall (λ kx : string * json, P kx.2) l → P (JObj l).

Fixpoint json_rect' (j : json) : P j :=
  match j with
  | JNull => Hnull | JBool b => Hbool b | JNum z => Hnum z | JStr s => Hstr s
  | JArr l =>
      Harr l ((fix go l : Forall P l :=
                 match l with
                 | [] => @List.Forall_nil _ _
                 | x :: l' => @List.Forall_cons _ P x l' (json_rect' x) (go l')
                 end) l)
  | JObj l =>
      Hobj l ((fix go l : Forall (λ kx : string * json, P kx.2) l :=
                 match l with
                 | [] => @List.Forall_nil _ _
                 | kx :: l' => @List.Forall_cons _ _ kx l' (json_rect' kx.2) (go l')
                 end) l)
  end.
End json_induction.

(** Depth of the calls that read a value. *)
Fixpoint weight (j : json) : nat :=
  match j with
  | JArr l => (fix go l := match l with [] => 1 | x :: l' => S (weight x `max` go l') end) l
  | JObj l => (fix go l := match l with [] => 1 | kx :: l' => S (S (weight kx.2) `max` go l') end) l
  | _ => 1
  end.
Fixpoint weight_tail (l : list json) : nat :=
  match l with [] => 1 | x :: l' => S (weight x `max` weight_tail l') end.
Fixpoint weight_fields (l : list (string * json)) : nat :=
  match l with [] => 1 | kx :: l' => S (S (weight kx.2) `max` weight_fields l') end.

Lemma print_arr x l : print (JArr (x :: l)) = "[" +:+ print x +:+ print_tail l.
Proof. done. Qed.
Lemma print_obj k x l :
  print (JObj ((k, x) :: l)) = "{" +:+ quote k +:+ ":" +:+ print x +:+ print_fields l.
Proof. done. Qed.

Lemma weight_print j : weight j ≤ String.length (print j).
Proof.
  induction j as [|[]|z|s|l IH|l IH] using json_rect'; try (simpl; lia).
  - simpl. pose proof (itoa_nonempty z). destruct (itoa z); simpl; [done|lia].
  - destruct l as [|x l]; [simpl; lia|]. rewrite print_arr.
    apply Forall_cons in IH as [Hx Hl]. change (weight_tail (x :: l) ≤
      String.length ("[" +:+ print x +:+ print_tail l)).
    assert (weight_tail l ≤ String.length (print_tail l)) as Ht.
    { clear Hx. induction Hl as [|y l Hy Hl IH]; simpl; [lia|].
      rewrite str_length_app. simpl in *. lia. }
    simpl. rewrite str_length_app. lia.
  - destruct l as [|[k x] l]; [simpl; lia|]. rewrite print_obj.
    apply Forall_cons in IH as [Hx Hl]. change (weight_fields ((k, x) :: l) ≤
      String.length ("{" +:+ quote k +:+ ":" +:+ print x +:+ print_fields l)).
    assert (weight_fields l ≤ String.length (print_fields l)) as Ht.
    { clear Hx. induction Hl as [|[k' y] l Hy Hl IH]; simpl; [lia|].
      rewrite !str_length_app. simpl in *. rewrite !str_length_app. lia. }
    simpl in *. rewrite !str_length_app. simpl. rewrite !str_length_app. lia.
Qed.

Lemma first_byte j : ∃ c r, print j = String c r ∧ "]"%char ≠ c ∧ "}"%char ≠ c.
Proof.
  destruct j as [|[]|z|s|l|l]; try (by eexists _, _).
  - pose proof (itoa_nonempty z). simpl. destruct z as [|p|p]; try by eexists _, _.
    unfold itoa. simpl. rewrite nilzero_pos.
    pose proof (DecimalPos.Unsigned.to_uint_nonnil p) as Hn.
    destruct (Pos.to_uint p); [done|..]; by eexists _, _.
  - destruct l as [|x l]; by eexists _, _.
  - destruct l as [|[k x] l]; by eexists _, _.
Qed.

Lemma read_num z n rest :
  delim rest → read_value (S n) (itoa z +:+ rest) = Some (JNum z, rest).
Proof.
  intros Hr. pose proof (read_number_itoa z rest Hr) as Hz.
  assert (∃ c r, itoa z +:+ rest = String c r ∧ (is_digit c = true ∨ c = "-"%char))
    as (c & r & E & Hc).
  { destruct z as [|p|p]; [by eexists _, _; split; [done|left]| |by eexists _, _; split; [done|right]].
    unfold itoa. simpl. rewrite nilzero_pos.
    pose proof (DecimalPos.Unsigned.to_uint_nonnil p) as Hn.
    destruct (Pos.to_uint p); [done|..]; by eexists _, _; split; [done|left]. }
  rewrite E in Hz |- *. cbn [read_value].
  repeat (rewrite decide_False; [|by intros ->; destruct Hc]). by rewrite Hz.
Qed.

Definition reads (j : json) : Prop :=
  ∀ n rest, weight j ≤ n → delim rest → read_value n (print j +:+ rest) = Some (j, rest).

Lemma delim_tail l rest : delim (print_tail l +:+ rest).
Proof. by destruct l. Qed.
Lemma delim_fields l rest : delim (print_fields l +:+ rest).
Proof. by destruct l as [|[]]. Qed.

#[local] Hint Resolve delim_tail delim_fields : smq.

Lemma read_tail_ok l n rest :
  Forall reads l → weight_tail l ≤ n → read_tail n (print_tail l +:+ rest) = Some (l, rest).
Proof.
  intros Hl. revert n. induction Hl as [|x l Hx Hl IH]; intros n Hn;
    (destruct n as [|n]; [simpl in Hn; lia|]); [done|]. simpl in Hn |- *.
  rewrite str_app_assoc, Hx by (auto with smq; lia). by rewrite IH by lia.
Qed.

Lemma read_field_ok k x n rest :
  reads x → S (weight x) ≤ n → delim rest →
  read_field n (String quote_char (escape_all k +:+
    String quote_char (String ":" (print x +:+ rest)))) = Some ((k, x), rest).
Proof.
  intros Hx Hn Hr. destruct n as [|n]; [lia|]. cbn [read_field].
  rewrite decide_True by done. rewrite read_string_escape_all. simpl. by rewrite Hx by (done || lia).
Qed.

Lemma read_fields_ok l n rest :
  Forall (λ kx : string * json, reads kx.2) l → weight_fields l ≤ n →
  read_fields n (print_fields l +:+ rest) = Some (l, rest).
Proof.
  intros Hl. revert n. induction Hl as [|[k x] l Hx Hl IH]; intros n Hn;
    (destruct n as [|n]; [simpl in Hn; lia|]); [done|]. simpl in Hn, Hx.
  cbn [print_fields]. repeat (rewrite !str_app_assoc || simpl).
  rewrite (read_field_ok k x n) by (auto with smq; lia). by rewrite IH by lia.
Qed.

Lemma print_reads j : reads j.
Proof.
  induction j as [|b|z|s|l IH|l IH] using json_rect'; intros n rest Hn Hr;
    (destruct n as [|n]; [exfalso; revert Hn; try destruct l; simpl; lia|]).
  - done.
  - by destruct b.
  - by apply read_num.
  - cbn [print]. rewrite quote_app. cbn [read_value]. rewrite decide_True by done.
    by rewrite read_string_escape_all.
  - destruct l as [|x l]; [done|]. apply Forall_cons in IH as [Hx Hl].
    rewrite print_arr. change (weight_tail (x :: l) ≤ S n) in Hn. simpl in Hn.
    destruct (first_byte x) as (c & r & E & Hc & _).
    repeat (rewrite !str_app_assoc || simpl). rewrite E at 1. simpl. rewrite decide_False by done.
    rewrite Hx by (auto with smq; lia). by rewrite read_tail_ok by (done || lia).
  - destruct l as [|[k x] l]; [done|]. apply Forall_cons in IH as [Hx Hl].
    rewrite print_obj. change (weight_fields ((k, x) :: l) ≤ S n) in Hn. simpl in Hn, Hx.
    repeat (rewrite !str_app_assoc || simpl).
    rewrite (read_field_ok k x n) by (auto with smq; lia).
    by rewrite read_fields_ok by (done || lia).
Qed.

(** Reading back what was written. *)
Lemma parse_print j : parse_json (print j) = Some j.
Proof.
  unfold parse_json. rewrite <-(str_app_nil (print j)) at 2.
  rewrite print_reads; [done| |done]. pose proof (weight_print j). lia.
Qed.

(** ** Objects *)

(** The value of a field: the last one of that name, as encoding/json keeps. *)
Fixpoint jfield (k : string) (l : list (string * json)) : option json :=
  match l with
  | [] => None
  | (k', x) :: l' =>
      match jfield k l' with
      | Some y => Some y
      | None => if decide (k = k') then Some x else None
      end
  end.

(** [omitempty] on a field. *)
Definition omit {A} (k : string) (f : A → json) (o : option A) : list (string * json) :=
  match o with Some a => [(k, f a)] | None => [] end.
Definition nonempty (s : string) : option string := if decide (s = "") then None else Some s.

(** ** Generic values

    A value read as [interface{}]: its numbers are floating point numbers and its
    objects are maps.  [rewire] is the value as it is written back. *)

#[local] Open Scope Z_scope.

(** The nearest float64, ties to even; integers of 64 bits are written back in
    full. *)
Definition to_float64 (z : Z) : Z :=
  let a := Z.abs z in
  if decide (a <= 2 ^ 53) then z
  else
    let e := Z.log2 a - 52 in
    let m := Z.shiftr a e in
    let rest := a - Z.shiftl m e in
    let half := Z.shiftl 1 (e - 1) in
    let m := if decide (half < rest ∨ (rest = half ∧ Z.odd m = true)) then m + 1 else m in
    Z.sgn z * Z.shiftl m e.

(** Go writes the keys of a map in order. *)
Fixpoint insert_field (k : string) (v : json) (l : list (string * json)) : list (string * json) :=
  match l with
  | [] => [(k, v)]
  | (k', v') :: r => if String.ltb k k' then (k, v) :: l else (k', v') :: insert_field k v r
  end.
Definition put_field (l : list (string * json)) (kv : string * json) : list (string * json) :=
  insert_field kv.1 kv.2 (filter (λ kv', kv'.1 ≠ kv.1) l).
Definition sort_fields (l : list (string * json)) : list (string * json) := foldl put_field [] l.

(** A value read as [interface{}] and written back. *)
Fixpoint rewire (j : json) : json :=
  match j with
  | JNum z => JNum (to_float64 z)
  | JArr l => JArr (map rewire l)
  | JObj l =>
      JObj (sort_fields ((fix go (l : list (string * json)) :=
        match l with [] => [] | (k, v) :: l => (k, rewire v) :: go l end) l))
  | j => j
  end.

Lemma jfield_insert_field k k' v l :
  k ∉ l.*1 → jfield k' (insert_field k v l) = if decide (k' = k) then Some v else jfield k' l.
Proof.
  induction l as [|[k1 v1] l IH]; intros Hn; cbn [insert_field jfield].
  - by case_decide.
  - cbn in Hn. apply not_elem_of_cons in Hn as [Hne Hn]. destruct (String.ltb k k1).
    + cbn [jfield]. destruct (decide (k' = k)) as [->|]; [|by destruct (jfield k' l), (decide (k' = k1))].
      rewrite (decide_False (P := k = k1)) by done.
      assert (jfield k l = None) as ->; [|done]. clear -Hn. induction l as [|[k2 v2] l IH]; [done|].
      cbn in *. apply not_elem_of_cons in Hn as [? ?]. rewrite IH by done. by rewrite decide_False.
    + cbn [jfield]. rewrite IH by done. destruct (decide (k' = k)); [done|]. done.
Qed.

Lemma jfield_filter k k' l : jfield k' (filter (λ kv : string * json, kv.1 ≠ k) l) = if decide (k' = k) then None else jfield k' l.
Proof.
  induction l as [|[k1 v1] l IH]; [by case_decide|]. rewrite filter_cons. cbn [fst jfield].
  destruct (decide (k1 ≠ k)) as [Hne|He]; cbn [jfield]; rewrite IH.
  - destruct (decide (k' = k)) as [->|]; [by rewrite decide_False|done].
  - destruct (decide (k' = k)) as [|Hne']; [done|]. destruct (jfield k' l); [done|]. rewrite decide_False; [done|].
    intros ->. by apply He.
Qed.

Lemma jfield_sort k l : jfield k (sort_fields l) = jfield k l.
Proof.
  unfold sort_fields. assert (∀ acc, jfield k (foldl put_field acc l) = match jfield k l with Some v => Some v | None => jfield k acc end) as H;
    [|rewrite H; cbn; by destruct (jfield k l)].
  induction l as [|[k1 v1] l IH]; intros acc; [done|]. cbn [foldl jfield]. rewrite IH. destruct (jfield k l); [done|].
  unfold put_field. cbn [fst snd]. rewrite jfield_insert_field, jfield_filter.
  - by destruct (decide (k = k1)).
  - intros (kv & -> & [? _]%list_elem_of_filter)%list_elem_of_fmap. done.
Qed.

Definition rewire_fields : list (string * json) → list (string * json) :=
  fix go l := match l with [] => [] | (k, v) :: l => (k, rewire v) :: go l end.
Lemma rewire_obj l : rewire (JObj l) = JObj (sort_fields (rewire_fields l)).
Proof. reflexivity. Qed.
Lemma jfield_rewire k l : jfield k (sort_fields (rewire_fields l)) = rewire <$> jfield k l.
Proof.
  rewrite jfield_sort. induction l as [|[k1 v1] l IH]; [done|]. cbn [rewire_fields jfield]. rewrite IH.
  destruct (jfield k l); [done|]. by destruct (decide (k = k1)).
Qed.

Definition exact_int (z : Z) : Prop := Z.abs z ≤ 2 ^ 53.
Lemma to_float64_exact z : exact_int z → to_float64 z = z.
Proof. intros H. unfold to_float64. by rewrite decide_True. Qed.
