(* ===== verification/Message.v ===== *)
(** * Messages

    pkg/message (state.go, message_types.go, params.go, consume_options.go,
    transferable.go) and internal/message (envelope.go, clone.go) with
    internal/util/cron: the message a producer configures, the lifecycle state
    kept with it, the envelope that joins the two, and the computation of the
    next delivery time of a scheduled message.

    Objects the code mutates in place are passed and returned.  A [time.Time]
    is a number of nanoseconds since the Unix epoch, a [time.Duration] a signed
    64-bit number of nanoseconds; the clock is the argument [now].  A fresh
    UUID is the argument [uuid].  The CRON library (gronx) is a parameter: its
    validity test and its next tick.  Fields and spaces of a CRON expression
    are those of ASCII text. *)

From S2P Require Import Prelude Keys Types Json.
From coqutil Require Import Datatypes.RecordSetters.
Import TriangleBracketNotations.
#[local] Open Scope record_set.
#[local] Open Scope Z_scope.

(** ** Time *)

Definition millisecond : Z := 1000000.

(** [Time.UnixMilli], [time.UnixMilli] and [Duration.Milliseconds]. *)
Definition UnixMilli (t : Z) : Z := t / millisecond.
Definition OfUnixMilli (ms : Z) : Z := ms * millisecond.
Definition Milliseconds (d : Z) : Z := Z.quot d millisecond.

(** [time.Duration(ms) * time.Millisecond] wraps at 64 bits. *)
Definition DurationOfMs (ms : Z) : Z := wrap64 (ms * millisecond).

(** [time.Since(t)]: the difference saturates at the bounds of a duration. *)
Definition Since (now t : Z) : Z := Z.max int64_min (Z.min int64_max (now - t)).

(** Addition of two [int64] or [int] values. *)
Definition add64 (a b : Z) : Z := wrap64 (a + b).

(** ** Message state (pkg/message/state.go) *)

Record State := {
  st_id : string;
  st_scheduledAt : option Z;
  st_publishedAt : option Z;
  st_requeuedAt : option Z;
  st_processingStartedAt : option Z;
  st_acknowledgedAt : option Z;
  st_unacknowledgedAt : option Z;
  st_deadLetteredAt : option Z;
  st_lastRequeuedAt : option Z;
  st_lastUnacknowledgedAt : option Z;
  st_lastScheduledAt : option Z;
  st_lastRetriedAttemptAt : option Z;
  st_lastProcessedAt : option Z;
  st_scheduledCronFired : bool;
  st_attempts : Z;
  st_scheduledRepeatCount : Z;
  st_requeueCount : Z;
  st_expired : bool;
  st_effectiveScheduledDelay : Z;
  st_scheduledTimes : Z;
  st_scheduledMessageParentID : string;
  st_requeuedMessageParentID : string
}.

#[global] Instance State_eq_dec : EqDecision State.
Proof. solve_decision. Defined.

(** A zero struct but for the identifier. *)
Definition NewMessageState (uuid : string) : State := {|
  st_id := uuid;
  st_scheduledAt := None;
  st_publishedAt := None;
  st_requeuedAt := None;
  st_processingStartedAt := None;
  st_acknowledgedAt := None;
  st_unacknowledgedAt := None;
  st_deadLetteredAt := None;
  st_lastRequeuedAt := None;
  st_lastUnacknowledgedAt := None;
  st_lastScheduledAt := None;
  st_lastRetriedAttemptAt := None;
  st_lastProcessedAt := None;
  st_scheduledCronFired := false;
  st_attempts := 0;
  st_scheduledRepeatCount := 0;
  st_requeueCount := 0;
  st_expired := false;
  st_effectiveScheduledDelay := 0;
  st_scheduledTimes := 0;
  st_scheduledMessageParentID := "";
  st_requeuedMessageParentID := ""
|}.

Definition SetID (id : string) (ms : State) : State := ms <| st_id := id |>.
Definition SetAttempts (n : Z) (ms : State) : State := ms <| st_attempts := n |>.
Definition IncrAttempts (ms : State) : State := ms <| st_attempts := add64 (st_attempts ms) 1 |>.
Definition HasDelay (ms : State) : bool := bool_decide (0 < st_effectiveScheduledDelay ms).
Definition SetEffectiveScheduledDelay (delay : Z) (ms : State) : State :=
  ms <| st_effectiveScheduledDelay := delay |>.
Definition ClearEffectiveScheduledDelay (ms : State) : State :=
  ms <| st_effectiveScheduledDelay := 0 |>.
Definition SetScheduledCronFired (fired : bool) (ms : State) : State :=
  ms <| st_scheduledCronFired := fired |>.
Definition SetScheduledRepeatCount (n : Z) (ms : State) : State :=
  ms <| st_scheduledRepeatCount := n |>.
Definition IncrScheduledRepeatCount (ms : State) : State :=
  ms <| st_scheduledRepeatCount := add64 (st_scheduledRepeatCount ms) 1 |>.
Definition ResetScheduledRepeatCount (ms : State) : State :=
  ms <| st_scheduledRepeatCount := 0 |>.
Definition SetExpired (expired : bool) (ms : State) : State := ms <| st_expired := expired |>.
Definition state_IsExpired (now ttl createdAt : Z) : bool :=
  if decide (ttl <= 0) then false else bool_decide (ttl <= Since now createdAt).
Definition SetScheduledTimes (n : Z) (ms : State) : State := ms <| st_scheduledTimes := n |>.
Definition IncrScheduledTimes (ms : State) : State :=
  ms <| st_scheduledTimes := add64 (st_scheduledTimes ms) 1 |>.
Definition SetRequeueCount (n : Z) (ms : State) : State := ms <| st_requeueCount := n |>.
Definition SetScheduledMessageParentID (id : string) (ms : State) : State :=
  ms <| st_scheduledMessageParentID := id |>.
Definition SetRequeuedMessageParentID (id : string) (ms : State) : State :=
  ms <| st_requeuedMessageParentID := id |>.

(** Timestamps are read and set in Unix milliseconds; [None] is a nil pointer. *)
Definition ScheduledAt (ms : State) : option Z := UnixMilli <$> st_scheduledAt ms.
Definition PublishedAt (ms : State) : option Z := UnixMilli <$> st_publishedAt ms.
Definition RequeuedAt (ms : State) : option Z := UnixMilli <$> st_requeuedAt ms.
Definition ProcessingStartedAt (ms : State) : option Z := UnixMilli <$> st_processingStartedAt ms.
Definition AcknowledgedAt (ms : State) : option Z := UnixMilli <$> st_acknowledgedAt ms.
Definition UnacknowledgedAt (ms : State) : option Z := UnixMilli <$> st_unacknowledgedAt ms.
Definition DeadLetteredAt (ms : State) : option Z := UnixMilli <$> st_deadLetteredAt ms.
Definition LastRequeuedAt (ms : State) : option Z := UnixMilli <$> st_lastRequeuedAt ms.
Definition LastUnacknowledgedAt (ms : State) : option Z := UnixMilli <$> st_lastUnacknowledgedAt ms.
Definition LastScheduledAt (ms : State) : option Z := UnixMilli <$> st_lastScheduledAt ms.
Definition LastRetriedAttemptAt (ms : State) : option Z := UnixMilli <$> st_lastRetriedAttemptAt ms.
Definition LastProcessedAt (ms : State) : option Z := UnixMilli <$> st_lastProcessedAt ms.

Definition SetScheduledAt (ts : Z) (ms : State) : State :=
  ms <| st_scheduledAt := Some (OfUnixMilli ts) |>.
Definition SetPublishedAt (ts : Z) (ms : State) : State :=
  ms <| st_publishedAt := Some (OfUnixMilli ts) |>.
Definition SetRequeuedAt (ts : Z) (ms : State) : State :=
  ms <| st_requeuedAt := Some (OfUnixMilli ts) |>.
Definition SetProcessingStartedAt (ts : Z) (ms : State) : State :=
  ms <| st_processingStartedAt := Some (OfUnixMilli ts) |>.
Definition SetAcknowledgedAt (ts : Z) (ms : State) : State :=
  ms <| st_acknowledgedAt := Some (OfUnixMilli ts) |>.
Definition SetUnacknowledgedAt (ts : Z) (ms : State) : State :=
  ms <| st_unacknowledgedAt := Some (OfUnixMilli ts) |>.
Definition SetDeadLetteredAt (ts : Z) (ms : State) : State :=
  ms <| st_deadLetteredAt := Some (OfUnixMilli ts) |>.
Definition SetLastRequeuedAt (ts : Z) (ms : State) : State :=
  ms <| st_lastRequeuedAt := Some (OfUnixMilli ts) |>.
Definition SetLastUnacknowledgedAt (ts : Z) (ms : State) : State :=
  ms <| st_lastUnacknowledgedAt := Some (OfUnixMilli ts) |>.
Definition SetLastScheduledAt (ts : Z) (ms : State) : State :=
  ms <| st_lastScheduledAt := Some (OfUnixMilli ts) |>.
Definition SetLastRetriedAttemptAt (ts : Z) (ms : State) : State :=
  ms <| st_lastRetriedAttemptAt := Some (OfUnixMilli ts) |>.
Definition SetLastProcessedAt (ts : Z) (ms : State) : State :=
  ms <| st_lastProcessedAt := Some (OfUnixMilli ts) |>.
Definition MarkPublished (now : Z) (ms : State) : State := ms <| st_publishedAt := Some now |>.

(** *** Transferable state (pkg/message/state_transferable.go) *)

Record StateTransferable := {
  t_UUID : string;
  t_ScheduledAt : option Z;
  t_PublishedAt : option Z;
  t_RequeuedAt : option Z;
  t_ProcessingStartedAt : option Z;
  t_AcknowledgedAt : option Z;
  t_UnacknowledgedAt : option Z;
  t_DeadLetteredAt : option Z;
  t_LastRequeuedAt : option Z;
  t_LastUnacknowledgedAt : option Z;
  t_LastScheduledAt : option Z;
  t_LastRetriedAttemptAt : option Z;
  t_LastProcessedAt : option Z;
  t_ScheduledCronFired : bool;
  t_Attempts : Z;
  t_ScheduledRepeatCount : Z;
  t_RequeueCount : Z;
  t_Expired : bool;
  t_EffectiveScheduledDelay : Z;
  t_ScheduledTimes : Z;
  t_ScheduledMessageParentID : string;
  t_RequeuedMessageParentID : string
}.

Definition state_ToTransferable (ms : State) : StateTransferable := {|
  t_UUID := st_id ms;
  t_ScheduledAt := ScheduledAt ms;
  t_PublishedAt := PublishedAt ms;
  t_RequeuedAt := RequeuedAt ms;
  t_ProcessingStartedAt := ProcessingStartedAt ms;
  t_AcknowledgedAt := AcknowledgedAt ms;
  t_UnacknowledgedAt := UnacknowledgedAt ms;
  t_DeadLetteredAt := DeadLetteredAt ms;
  t_LastRequeuedAt := LastRequeuedAt ms;
  t_LastUnacknowledgedAt := LastUnacknowledgedAt ms;
  t_LastScheduledAt := LastScheduledAt ms;
  t_LastRetriedAttemptAt := LastRetriedAttemptAt ms;
  t_LastProcessedAt := LastProcessedAt ms;
  t_ScheduledCronFired := st_scheduledCronFired ms;
  t_Attempts := st_attempts ms;
  t_ScheduledRepeatCount := st_scheduledRepeatCount ms;
  t_RequeueCount := st_requeueCount ms;
  t_Expired := st_expired ms;
  t_EffectiveScheduledDelay := st_effectiveScheduledDelay ms;
  t_ScheduledTimes := st_scheduledTimes ms;
  t_ScheduledMessageParentID := st_scheduledMessageParentID ms;
  t_RequeuedMessageParentID := st_requeuedMessageParentID ms
|}.
(** ** Consume options (pkg/message/consume_options.go) *)

Record ConsumeOptions := { co_TTL : Z; co_RetryThreshold : Z; co_RetryDelay : Z; co_ConsumeTimeout : Z }.

Definition DefaultConsumeOptions : ConsumeOptions :=
  {| co_TTL := 0; co_RetryThreshold := 3; co_RetryDelay := 60000; co_ConsumeTimeout := 0 |}.

(** The package variable [defaultOptions] is passed and returned. *)
Definition SetDefaultConsumeOptions (opts defaults : ConsumeOptions) : ConsumeOptions := {|
  co_TTL := if decide (0 <= co_TTL opts) then co_TTL opts else co_TTL defaults;
  co_RetryThreshold := if decide (0 <= co_RetryThreshold opts)
                       then co_RetryThreshold opts else co_RetryThreshold defaults;
  co_RetryDelay := if decide (0 <= co_RetryDelay opts)
                   then co_RetryDelay opts else co_RetryDelay defaults;
  co_ConsumeTimeout := if decide (0 <= co_ConsumeTimeout opts)
                       then co_ConsumeTimeout opts else co_ConsumeTimeout defaults
|}.

(** ** Producible messages (pkg/message/message_types.go) *)

Record ProducibleMessage := {
  m_createdAt : Z;
  m_ttl : Z;
  m_retryThreshold : Z;
  m_retryDelay : Z;
  m_consumeTimeout : Z;
  m_body : json;
  m_priority : option Z;
  m_scheduledCron : string;
  m_scheduledDelay : option Z;
  m_scheduledRepeatPeriod : option Z;
  m_scheduledRepeat : Z;
  m_exchange : option EParams;
  m_exchangeRoutingKey : string;
  m_queue : option QParams
}.

Definition New (defaults : ConsumeOptions) (now : Z) : ProducibleMessage := {|
  m_createdAt := now;
  m_ttl := DurationOfMs (co_TTL defaults);
  m_retryThreshold := co_RetryThreshold defaults;
  m_retryDelay := DurationOfMs (co_RetryDelay defaults);
  m_consumeTimeout := DurationOfMs (co_ConsumeTimeout defaults);
  m_body := JNull;
  m_priority := None;
  m_scheduledCron := "";
  m_scheduledDelay := None;
  m_scheduledRepeatPeriod := None;
  m_scheduledRepeat := 0;
  m_exchange := None;
  m_exchangeRoutingKey := "";
  m_queue := None
|}.

(** [if x < 0 { x = 0 }]. *)
Definition clamp (z : Z) : Z := if decide (z < 0) then 0 else z.

Definition SetTTL (ttl : Z) (m : ProducibleMessage) : ProducibleMessage :=
  m <| m_ttl := clamp ttl |>.
Definition SetRetryThreshold (threshold : Z) (m : ProducibleMessage) : ProducibleMessage :=
  m <| m_retryThreshold := clamp threshold |>.
Definition SetRetryDelay (delay : Z) (m : ProducibleMessage) : ProducibleMessage :=
  m <| m_retryDelay := clamp delay |>.
Definition SetConsumeTimeout (timeout : Z) (m : ProducibleMessage) : ProducibleMessage :=
  m <| m_consumeTimeout := clamp timeout |>.
Definition SetBody (body : json) (m : ProducibleMessage) : ProducibleMessage :=
  m <| m_body := body |>.
Definition SetPriority (p : Z) (m : ProducibleMessage) : ProducibleMessage :=
  m <| m_priority := Some p |>.
Definition HasPriority (m : ProducibleMessage) : bool := bool_decide (is_Some (m_priority m)).
Definition DisablePriority (m : ProducibleMessage) : ProducibleMessage :=
  m <| m_priority := None |>.

(** White space of [strings.TrimSpace] and [strings.Fields]. *)
Definition is_space (c : ascii) : bool :=
  let n := nat_of_ascii c in bool_decide ((9 <= n /\ n <= 13) \/ n = 32)%nat.
Fixpoint trim_left (s : string) : string :=
  match s with
  | EmptyString => EmptyString
  | String c r => if is_space c then trim_left r else s
  end.
Fixpoint trim_right (s : string) : string :=
  match s with
  | EmptyString => EmptyString
  | String c r =>
      match trim_right r with
      | EmptyString => if is_space c then EmptyString else String c EmptyString
      | r' => String c r'
      end
  end.
Definition TrimSpace (s : string) : string := trim_right (trim_left s).

Definition SetScheduledCron (cronExpr : string) (m : ProducibleMessage) : ProducibleMessage :=
  m <| m_scheduledCron := TrimSpace cronExpr |>.
Definition SetScheduledDelay (delay : Z) (m : ProducibleMessage) : ProducibleMessage :=
  m <| m_scheduledDelay := Some (clamp delay) |>.
Definition SetScheduledRepeatPeriod (period : Z) (m : ProducibleMessage) : ProducibleMessage :=
  m <| m_scheduledRepeatPeriod := Some (clamp period) |>.
Definition SetScheduledRepeat (repeat : Z) (m : ProducibleMessage) : ProducibleMessage :=
  m <| m_scheduledRepeat := clamp repeat |>.
Definition ResetScheduledParams (m : ProducibleMessage) : ProducibleMessage :=
  m <| m_scheduledCron := "" |> <| m_scheduledDelay := None |>
    <| m_scheduledRepeatPeriod := None |> <| m_scheduledRepeat := 0 |>.

Definition SetDirectExchange (params : option EParams) (m : ProducibleMessage) : ProducibleMessage :=
  m <| m_exchange := params |> <| m_queue := None |> <| m_exchangeRoutingKey := "" |>.
Definition SetFanoutExchange (params : option EParams) (m : ProducibleMessage) : ProducibleMessage :=
  m <| m_exchange := params |> <| m_queue := None |> <| m_exchangeRoutingKey := "" |>.
Definition SetTopicExchange (params : option EParams) (m : ProducibleMessage) : ProducibleMessage :=
  m <| m_exchange := params |> <| m_queue := None |> <| m_exchangeRoutingKey := "" |>.
Definition SetExchangeRoutingKey (key : string) (m : ProducibleMessage) : ProducibleMessage :=
  m <| m_exchangeRoutingKey := key |>.
Definition SetQueue (params : option QParams) (m : ProducibleMessage) : ProducibleMessage :=
  m <| m_queue := params |> <| m_exchange := None |> <| m_exchangeRoutingKey := "" |>.

(** *** Serializable parameters (pkg/message/params.go) *)

Record Params := {
  p_CreatedAt : Z;
  p_TTL : Z;
  p_RetryThreshold : Z;
  p_RetryDelay : Z;
  p_ConsumeTimeout : Z;
  p_Body : json;
  p_Priority : option Z;
  p_ScheduledCron : string;
  p_ScheduledDelay : option Z;
  p_ScheduledRepeatPeriod : option Z;
  p_ScheduledRepeat : Z;
  p_Exchange : option EParams;
  p_Queue : option QParams;
  p_DestinationQueue : option QParams;
  p_ConsumerGroupID : string
}.

Definition ToParams (m : ProducibleMessage) (destinationQueue : option QParams)
    (consumerGroupID : string) : Params := {|
  p_CreatedAt := UnixMilli (m_createdAt m);
  p_TTL := Milliseconds (m_ttl m);
  p_RetryThreshold := m_retryThreshold m;
  p_RetryDelay := Milliseconds (m_retryDelay m);
  p_ConsumeTimeout := Milliseconds (m_consumeTimeout m);
  p_Body := m_body m;
  p_Priority := m_priority m;
  p_ScheduledCron := m_scheduledCron m;
  p_ScheduledDelay := Milliseconds <$> m_scheduledDelay m;
  p_ScheduledRepeatPeriod := Milliseconds <$> m_scheduledRepeatPeriod m;
  p_ScheduledRepeat := m_scheduledRepeat m;
  p_Exchange := m_exchange m;
  p_Queue := m_queue m;
  p_DestinationQueue := destinationQueue;
  p_ConsumerGroupID := consumerGroupID
|}.

(** ** Envelopes (internal/message/envelope.go) *)

Record Envelope := {
  producibleMessage : ProducibleMessage;
  messageState : State;
  status : Z;
  destinationQueue : option QParams;
  consumerGroupID : string
}.

Definition NewEnvelope (uuid : string) (message : ProducibleMessage) : Envelope := {|
  producibleMessage := message;
  messageState :=
    match m_scheduledDelay message with
    | Some d => SetEffectiveScheduledDelay (Milliseconds d) (NewMessageState uuid)
    | None => NewMessageState uuid
    end;
  status := StatusNew;
  destinationQueue := None;
  consumerGroupID := ""
|}.

Definition SetMessageState (st : State) (e : Envelope) : Envelope := e <| messageState := st |>.
Definition ID (e : Envelope) : string := st_id (messageState e).
Definition SetStatus (s : Z) (e : Envelope) : Envelope := e <| status := s |>.
Definition SetDestinationQueue (q : option QParams) (e : Envelope) : Envelope :=
  e <| destinationQueue := q |>.
Definition SetConsumerGroupID (id : string) (e : Envelope) : Envelope :=
  e <| consumerGroupID := id |>.

Definition IsExpired (now : Z) (e : Envelope) : bool :=
  let ttl := m_ttl (producibleMessage e) in
  if decide (ttl <= 0) then false
  else bool_decide (ttl <= Since now (m_createdAt (producibleMessage e))).

Definition GetSetExpired (now : Z) (e : Envelope) : bool * Envelope :=
  let ttl := m_ttl (producibleMessage e) in
  if decide (ttl <= 0) then (false, e)
  else if decide (ttl <= Since now (m_createdAt (producibleMessage e)))
       then (true, SetMessageState (SetExpired true (messageState e)) e)
       else (false, e).

Definition HasRetryThresholdExceeded (e : Envelope) : bool :=
  bool_decide (m_retryThreshold (producibleMessage e) <= st_attempts (messageState e)).
Definition HasNextDelay (e : Envelope) : bool := HasDelay (messageState e).
Definition IsPeriodic (e : Envelope) : bool :=
  bool_decide (m_scheduledCron (producibleMessage e) ≠ "") ||
  bool_decide (0 < m_scheduledRepeat (producibleMessage e)).
Definition IsSchedulable (e : Envelope) : bool := HasNextDelay e || IsPeriodic e.

Definition env_ToParams (e : Envelope) : Params :=
  ToParams (producibleMessage e) (destinationQueue e) (consumerGroupID e).

(** *** Transferable messages (pkg/message/transferable.go)

    The struct lists the fields of [Params] one by one between the identifier
    and the state; here they stay grouped. *)

Record Transferable := {
  tr_ID : string;
  tr_Params : Params;
  tr_MessageState : StateTransferable;
  tr_Status : Z
}.

Definition ToTransferable (e : Envelope) : Transferable := {|
  tr_ID := st_id (messageState e);
  tr_Params := env_ToParams e;
  tr_MessageState := state_ToTransferable (messageState e);
  tr_Status := status e
|}.

(** ** Scheduling (internal/message/envelope.go, internal/util/cron/cron.go) *)

(** [len(strings.Fields(s))]; [in_field] tells whether the last byte read
    belonged to a field. *)
Fixpoint fields_from (in_field : bool) (s : string) : nat :=
  match s with
  | EmptyString => 0%nat
  | String c r =>
      if is_space c then fields_from false r
      else if in_field then fields_from true r
      else S (fields_from true r)
  end.
Definition Fields_len (s : string) : nat := fields_from false s.

Section Scheduling.
Context (gronx_IsValid : string → bool).
Context (gronx_NextTickAfter : string → Z → option Z).

(** [true] is a nil error. *)
Definition ValidateCron (expr : string) : bool :=
  if decide (Fields_len expr ≠ 5%nat ∧ Fields_len expr ≠ 6%nat) then false
  else gronx_IsValid expr.

Definition ParseCron (expr : string) : option string :=
  if ValidateCron expr then Some expr else None.

(** [None] is the zero time. *)
Definition NextTick (expr : string) (after : Z) : option Z :=
  if decide (expr = "") then None else gronx_NextTickAfter expr after.

(** The CRON timestamp: 0 when there is none. *)
Definition cron_timestamp (cronExpr : string) (now : Z) : Z :=
  if decide (cronExpr = "") then 0
  else match ParseCron cronExpr with
       | Some schedule =>
           match NextTick schedule now with Some t => UnixMilli t | None => 0 end
       | None => 0
       end.

(** The repeat timestamp: 0 when there is none. *)
Definition repeat_timestamp (msg : ProducibleMessage) (st : State) (now_ms : Z) : Z :=
  let cronExpr := m_scheduledCron msg in
  let currentRepeatCount := st_scheduledRepeatCount st in
  if decide (currentRepeatCount < m_scheduledRepeat msg) then
    if bool_decide (cronExpr = "") || st_scheduledCronFired st then
      match m_scheduledRepeatPeriod msg with
      | None => 0
      | Some period =>
          if decide (cronExpr ≠ "") then add64 now_ms (Milliseconds period)
          else if decide (0 < currentRepeatCount) then add64 now_ms (Milliseconds period)
          else now_ms
      end
    else 0
  else 0.

(** The result and the updated envelope.  The clock is read twice: [now] for
    the base time, [now'] for the CRON schedule. *)
Definition NextScheduledTimestamp (now now' : Z) (e : Envelope) : Z * Envelope :=
  if negb (IsSchedulable e) then (0, e)
  else
    let st := messageState e in
    let now_ms := UnixMilli now in
    let delay := st_effectiveScheduledDelay st in
    if decide (0 < delay) then
      (add64 now_ms delay, SetMessageState (ClearEffectiveScheduledDelay st) e)
    else
      let msg := producibleMessage e in
      let cronExpr := m_scheduledCron msg in
      if decide (cronExpr = "" ∧ m_scheduledRepeat msg = 0) then (0, e)
      else
        let cronTimestamp := cron_timestamp cronExpr now' in
        let repeatTimestamp := repeat_timestamp msg st now_ms in
        let cron_fires :=
          (cronTimestamp,
           SetMessageState (SetScheduledCronFired true (ResetScheduledRepeatCount st)) e) in
        let repeat_fires :=
          (repeatTimestamp, SetMessageState (IncrScheduledRepeatCount st) e) in
        if decide (0 < cronTimestamp ∧ 0 < repeatTimestamp) then
          if decide (repeatTimestamp < cronTimestamp) then repeat_fires else cron_fires
        else if decide (0 < cronTimestamp) then cron_fires
        else if decide (0 < repeatTimestamp) then repeat_fires
        else (0, e).

End Scheduling.

(** ** Copies (internal/message/clone.go) *)

Definition copy_message (defaults : ConsumeOptions) (now : Z) (src : ProducibleMessage)
    : ProducibleMessage :=
  let m := SetBody (m_body src) (SetConsumeTimeout (m_consumeTimeout src)
             (SetRetryDelay (m_retryDelay src) (SetRetryThreshold (m_retryThreshold src)
               (SetTTL (m_ttl src) (New defaults now))))) in
  let m := match m_priority src with Some p => SetPriority p m | None => m end in
  let m := if decide (m_scheduledCron src ≠ "") then SetScheduledCron (m_scheduledCron src) m else m in
  let m := match m_scheduledDelay src with Some d => SetScheduledDelay d m | None => m end in
  let m := match m_scheduledRepeatPeriod src with
           | Some p => SetScheduledRepeatPeriod p m | None => m end in
  let m := SetScheduledRepeat (m_scheduledRepeat src) m in
  let m := match m_exchange src with
           | Some ex =>
               if decide (e_typ ex = TypeDirect) then SetDirectExchange (Some ex) m
               else if decide (e_typ ex = TypeFanout) then SetFanoutExchange (Some ex) m
               else if decide (e_typ ex = TypeTopic) then SetTopicExchange (Some ex) m
               else m
           | None => m
           end in
  let m := if decide (m_exchangeRoutingKey src ≠ "")
           then SetExchangeRoutingKey (m_exchangeRoutingKey src) m else m in
  match m_queue src with Some q => SetQueue (Some q) m | None => m end.

(** [now'] is the clock at the publish timestamp of a fresh state. *)
Definition cloneMessage (defaults : ConsumeOptions) (uuid : string) (now now' : Z)
    (source : Envelope) (preserveState : bool) : Envelope :=
  let newMsg := copy_message defaults now (producibleMessage source) in
  let envelope := SetDestinationQueue (destinationQueue source) (NewEnvelope uuid newMsg) in
  let envelope := if decide (consumerGroupID source ≠ "")
                  then SetConsumerGroupID (consumerGroupID source) envelope else envelope in
  if preserveState then
    let t := state_ToTransferable (messageState source) in
    let st := SetScheduledCronFired (t_ScheduledCronFired t)
                (SetExpired (t_Expired t) (SetRequeueCount (t_RequeueCount t)
                  (SetScheduledTimes (t_ScheduledTimes t)
                    (SetScheduledRepeatCount (t_ScheduledRepeatCount t)
                      (SetAttempts (t_Attempts t) (messageState envelope)))))) in
    let st := if decide (0 < t_EffectiveScheduledDelay t)
              then SetEffectiveScheduledDelay (t_EffectiveScheduledDelay t) st else st in
    let st := if decide (t_ScheduledMessageParentID t ≠ "")
              then SetScheduledMessageParentID (t_ScheduledMessageParentID t) st else st in
    let st := if decide (t_RequeuedMessageParentID t ≠ "")
              then SetRequeuedMessageParentID (t_RequeuedMessageParentID t) st else st in
    SetStatus (status source) (SetMessageState st envelope)
  else
    let st := SetPublishedAt (UnixMilli now')
                (SetRequeuedMessageParentID (ID source) (messageState envelope)) in
    SetMessageState st (SetStatus StatusNew envelope).

Definition CloneMessage defaults uuid now now' (source : Envelope) : Envelope :=
  cloneMessage defaults uuid now now' source false.
Definition CloneMessageWithState defaults uuid now now' (source : Envelope) : Envelope :=
  cloneMessage defaults uuid now now' source true.

(** ** Facts *)

Lemma clamp_nonneg z : 0 <= clamp z.
Proof. unfold clamp. case_decide; lia. Qed.
Lemma clamp_id z : 0 <= z → clamp z = z.
Proof. intros H. unfold clamp. case_decide; lia. Qed.

#[export] Hint Resolve clamp_nonneg : smq.

Lemma trim_left_spec s : trim_left s = "" ∨ ∃ c r, trim_left s = String c r ∧ is_space c = false.
Proof.
  induction s as [|c s IH]; simpl; [by left|].
  destruct (is_space c) eqn:Hc; [done|]. right. by exists c, s.
Qed.

Lemma trim_right_cons c r :
  is_space c = false → ∃ r', trim_right (String c r) = String c r'.
Proof. intros H. simpl. destruct (trim_right r); [rewrite H|]; by eexists. Qed.

Lemma trim_right_idem s : trim_right (trim_right s) = trim_right s.
Proof.
  induction s as [|c s IH]; [done|]. simpl.
  destruct (trim_right s) as [|d r] eqn:E.
  - destruct (is_space c) eqn:Hc; [done|]. simpl. by rewrite Hc.
  - change (trim_right (String c (String d r)))
      with (match trim_right (String d r) with
            | EmptyString => if is_space c then EmptyString else String c EmptyString
            | r' => String c r'
            end). by rewrite IH.
Qed.

Lemma TrimSpace_idem s : TrimSpace (TrimSpace s) = TrimSpace s.
Proof.
  unfold TrimSpace. destruct (trim_left_spec s) as [->|(c & r & -> & Hc)]; [done|].
  pose proof (trim_right_idem (String c r)) as Hi.
  destruct (trim_right_cons c r Hc) as [r' Hr]. rewrite Hr in *.
  change (trim_left (String c r')) with (if is_space c then trim_left r' else String c r').
  by rewrite Hc.
Qed.

(** *** Messages under construction *)

(** Consume options whose millisecond values fit a duration. *)
Definition sane_options (o : ConsumeOptions) : Prop :=
  let fits z := 0 <= z ∧ z * millisecond <= int64_max in
  fits (co_TTL o) ∧ 0 <= co_RetryThreshold o ∧ fits (co_RetryDelay o) ∧ fits (co_ConsumeTimeout o).

#[global] Instance sane_options_dec o : Decision (sane_options o).
Proof. unfold sane_options. apply _. Defined.

(** One call of the builder. *)
Inductive build_step : ProducibleMessage → ProducibleMessage → Prop :=
| bs_ttl m d : build_step m (SetTTL d m)
| bs_threshold m n : build_step m (SetRetryThreshold n m)
| bs_retry_delay m d : build_step m (SetRetryDelay d m)
| bs_timeout m d : build_step m (SetConsumeTimeout d m)
| bs_body m b : build_step m (SetBody b m)
| bs_priority m p : build_step m (SetPriority p m)
| bs_no_priority m : build_step m (DisablePriority m)
| bs_cron m s : build_step m (SetScheduledCron s m)
| bs_delay m d : build_step m (SetScheduledDelay d m)
| bs_period m d : build_step m (SetScheduledRepeatPeriod d m)
| bs_repeat m n : build_step m (SetScheduledRepeat n m)
| bs_reset m : build_step m (ResetScheduledParams m)
| bs_direct m e : build_step m (SetDirectExchange e m)
| bs_fanout m e : build_step m (SetFanoutExchange e m)
| bs_topic m e : build_step m (SetTopicExchange e m)
| bs_key m k : build_step m (SetExchangeRoutingKey k m)
| bs_queue m q : build_step m (SetQueue q m).

Record wf_message (m : ProducibleMessage) : Prop := {
  wf_ttl : 0 <= m_ttl m;
  wf_threshold : 0 <= m_retryThreshold m;
  wf_retry_delay : 0 <= m_retryDelay m;
  wf_timeout : 0 <= m_consumeTimeout m;
  wf_delay : ∀ d, m_scheduledDelay m = Some d → 0 <= d;
  wf_period : ∀ d, m_scheduledRepeatPeriod m = Some d → 0 <= d;
  wf_repeat : 0 <= m_scheduledRepeat m;
  wf_cron : TrimSpace (m_scheduledCron m) = m_scheduledCron m;
  wf_one_target : m_queue m = None ∨ m_exchange m = None
}.

Lemma DurationOfMs_nonneg z : 0 <= z ∧ z * millisecond <= int64_max → 0 <= DurationOfMs z.
Proof.
  unfold millisecond. intros [H1 H2]. unfold DurationOfMs, millisecond. rewrite wrap64_id; [lia|].
  unfold in_int64, int64_min. lia.
Qed.

Lemma New_wf defaults now : sane_options defaults → wf_message (New defaults now).
Proof.
  intros (H1 & H2 & H3 & H4). split; simpl; auto using DurationOfMs_nonneg; first [done | lia].
Qed.

Lemma build_step_wf m m' : build_step m m' → wf_message m → wf_message m'.
Proof.
  intros Hs [? ? ? ? ? ? ? ? ?]. destruct Hs, m; split; simpl in *; unfold constant; auto with smq;
    try (intros ? [= <-]; auto with smq); try (by apply TrimSpace_idem);
    first [done | lia].
Qed.

(** *** Schedules *)

Definition with_repeat_count (n : Z) (e : Envelope) : Envelope :=
  SetMessageState (SetScheduledRepeatCount n (messageState e)) e.

Lemma repeat_step gv gn now now' e count period :
  m_scheduledCron (producibleMessage e) = "" →
  m_scheduledRepeatPeriod (producibleMessage e) = Some period →
  st_effectiveScheduledDelay (messageState e) = 0 →
  st_scheduledRepeatCount (messageState e) = count →
  0 <= count → 0 < m_scheduledRepeat (producibleMessage e) <= int64_max →
  0 < UnixMilli now → 0 <= Milliseconds period →
  UnixMilli now + Milliseconds period <= int64_max →
  NextScheduledTimestamp gv gn now now' e =
    if decide (count < m_scheduledRepeat (producibleMessage e)) then
      (if decide (0 < count) then UnixMilli now + Milliseconds period else UnixMilli now,
       with_repeat_count (count + 1) e)
    else (0, e).
Proof.
  intros Hc Hp Hd <- Hn Hr Hnow Hper Hmax. unfold NextScheduledTimestamp.
  assert (IsSchedulable e = true) as ->.
  { unfold IsSchedulable, IsPeriodic. rewrite (bool_decide_eq_true_2 (0 < _)) by lia.
    by rewrite !orb_true_r. }
  cbn [negb]. rewrite Hd, decide_False by lia.
  rewrite decide_False by lia.
  unfold cron_timestamp. rewrite Hc, (decide_True _ _ (eq_refl "")).
  rewrite (decide_False (P := _ ∧ _)) by lia. rewrite (decide_False (P := 0 < 0)) by lia.
  unfold repeat_timestamp. rewrite Hc, Hp, bool_decide_eq_true_2 by done. cbn [orb].
  rewrite (decide_False (P := "" ≠ "")) by (by intros []).
  destruct (decide (st_scheduledRepeatCount (messageState e) < _)) as [Hlt|Hge].
  - assert (0 < add64 (UnixMilli now) (Milliseconds period)) as Ha.
    { unfold add64. rewrite wrap64_id; [lia|]. unfold in_int64, int64_min. lia. }
    unfold with_repeat_count, IncrScheduledRepeatCount, SetScheduledRepeatCount, add64 in *.
    rewrite wrap64_id in Ha |- * by (unfold in_int64, int64_min; lia).
    rewrite (wrap64_id (_ + 1)) by (unfold in_int64, int64_min; lia).
    destruct (decide (0 < st_scheduledRepeatCount _)); by rewrite decide_True.
  - by rewrite decide_False by lia.
Qed.

(** *** Properties *)

(** Whatever sequence of builder calls made it, a message has no negative
    duration or count, a trimmed CRON expression, and at most one of a queue
    and an exchange as its target, provided the default consume options are in
    the range of a duration. *)
Theorem builder_invariant defaults now m :
  sane_options defaults → rtc build_step (New defaults now) m → wf_message m.
Proof.
  intros Hd Hm. pose proof (New_wf defaults now Hd) as Hw.
  induction Hm as [|m1 m2 m3 Hs _ IH]; [done|]. by apply IH, (build_step_wf m1).
Qed.

Definition sample_params : QParams := {| q_name := "orders"; q_ns := "ns1" |}.
Definition sample_message : ProducibleMessage :=
  SetTTL (-5) (SetScheduledCron "  0 * * * *  " (SetQueue (Some sample_params)
    (New DefaultConsumeOptions 1700000000000000000))).

Lemma builder_invariant_witness : wf_message sample_message.
Proof.
  apply (builder_invariant DefaultConsumeOptions 1700000000000000000).
  - apply (bool_decide_unpack _). vm_compute. exact I.
  - eapply rtc_r; [|apply bs_ttl]. eapply rtc_r; [|apply bs_cron].
    eapply rtc_r; [apply rtc_refl|apply bs_queue].
Defined.

(** Computing the next delivery time keeps the repeat count between 0 and
    the repeat limit, with or without a CRON expression, uses a pending delay
    once (it is cleared by the computation that returns it), and changes
    nothing of the message but the scheduling state. *)
Theorem NextScheduledTimestamp_bounds gv gn now now' e t e' :
  0 <= st_scheduledRepeatCount (messageState e) <= m_scheduledRepeat (producibleMessage e) →
  m_scheduledRepeat (producibleMessage e) <= int64_max →
  NextScheduledTimestamp gv gn now now' e = (t, e') →
  0 <= st_scheduledRepeatCount (messageState e') <= m_scheduledRepeat (producibleMessage e') ∧
  st_effectiveScheduledDelay (messageState e') <= 0 ∧
  (0 < st_effectiveScheduledDelay (messageState e) →
     t = add64 (UnixMilli now) (st_effectiveScheduledDelay (messageState e))) ∧
  producibleMessage e' = producibleMessage e ∧ ID e' = ID e ∧ status e' = status e.
Proof.
  unfold NextScheduledTimestamp. intros Hc Hm.
  destruct (IsSchedulable e) eqn:Hs; simpl.
  2: { intros [= <- <-]. unfold IsSchedulable, HasNextDelay, HasDelay in Hs.
       apply orb_false_elim in Hs as [Hd%bool_decide_eq_false _]. repeat split; lia || done. }
  destruct (decide (0 < st_effectiveScheduledDelay (messageState e))) as [Hd|Hd].
  { intros [= <- <-]. destruct e as [m [] ? ? ?]; simpl in *. unfold constant. repeat split; lia || done. }
  case_decide as Hz. { intros [= <- <-]. repeat split; lia || done. }
  assert (∀ r, repeat_timestamp (producibleMessage e) (messageState e) (UnixMilli now) = r → 0 < r →
    st_scheduledRepeatCount (messageState e) < m_scheduledRepeat (producibleMessage e)) as Hr.
  { intros r <-. unfold repeat_timestamp. case_decide; lia. }
  specialize (Hr _ eq_refl).
  destruct e as [m [] s d g]; simpl in *.
  repeat case_decide; intros [= <- <-]; unfold ID; simpl; unfold constant, add64;
    rewrite ?wrap64_id by (unfold in_int64, int64_min; lia); repeat split; lia || done.
Qed.

Definition sample_delayed : Envelope :=
  NewEnvelope "m1" (SetScheduledRepeat 3 (SetScheduledDelay (DurationOfMs 250)
    (New DefaultConsumeOptions 5000000000))).

Lemma NextScheduledTimestamp_bounds_witness :
  NextScheduledTimestamp (λ _, true) (λ _ _, None) 6000000000 6000000000 sample_delayed =
    (6250, SetMessageState (ClearEffectiveScheduledDelay (messageState sample_delayed)) sample_delayed)
  ∧ (0 < 250 → 6250 = add64 6000 250).
Proof.
  assert (NextScheduledTimestamp (λ _, true) (λ _ _, None) 6000000000 6000000000 sample_delayed =
    (6250, SetMessageState (ClearEffectiveScheduledDelay (messageState sample_delayed)) sample_delayed))
    as H by (vm_compute; reflexivity).
  split; [exact H|].
  assert (0 <= st_scheduledRepeatCount (messageState sample_delayed)
            <= m_scheduledRepeat (producibleMessage sample_delayed)) as H1
    by (split; vm_compute; discriminate).
  assert (m_scheduledRepeat (producibleMessage sample_delayed) <= int64_max) as H2
    by (vm_compute; discriminate).
  exact (proj1 (proj2 (proj2 (NextScheduledTimestamp_bounds _ _ _ _ _ _ _ H1 H2 H)))).
Defined.

(** The exchange has one of the three types, and a message sent to a queue
    carries no routing key. *)
Definition routable (m : ProducibleMessage) : Prop :=
  (∀ ex, m_exchange m = Some ex → exchange_type_IsValid (e_typ ex) = true) ∧
  (m_queue m ≠ None → m_exchangeRoutingKey m = "").

Lemma exchange_type_cases t :
  exchange_type_IsValid t = true → t = TypeDirect ∨ t = TypeFanout ∨ t = TypeTopic.
Proof.
  unfold exchange_type_IsValid, TypeDirect, TypeFanout, TypeTopic.
  intros [?%bool_decide_eq_true ?%bool_decide_eq_true]%andb_prop. lia.
Qed.

Lemma copy_message_ok defaults now m :
  wf_message m → routable m →
  copy_message defaults now m = m <| m_createdAt := now |>.
Proof.
  intros [H1 H2 H3 H4 H5 H6 H7 H8 H9] [Hk Hq].
  unfold copy_message. destruct m as [ca ttl th rd ct body prio cron delay period rep ex rk q].
  simpl in *. unfold SetScheduledCron, SetTTL, SetRetryThreshold, SetRetryDelay,
    SetConsumeTimeout, SetScheduledDelay, SetScheduledRepeatPeriod, SetScheduledRepeat.
  rewrite !clamp_id, H8 by done.
  assert (∀ a, ex = Some a → e_typ a = TypeDirect ∨ e_typ a = TypeFanout ∨ e_typ a = TypeTopic)
    as Ht by (intros a Ha; by apply exchange_type_cases, Hk).
  clear Hk H1 H2 H3 H4 H7 H8.
  destruct q as [q|].
  - destruct H9 as [[=]| ->]. rewrite Hq by done.
    destruct delay as [d|], period as [p|]; rewrite ?clamp_id by auto;
    destruct prio, (decide (cron ≠ "")) as [Hcr|Hcr%dec_stable]; try subst cron; done.
  - clear Hq H9. destruct delay as [d|], period as [p|]; rewrite ?clamp_id by auto;
    destruct prio, (decide (cron ≠ "")) as [Hcr|Hcr%dec_stable],
      (decide (rk ≠ "")) as [Hrk|Hrk%dec_stable]; try subst cron; try subst rk;
    (destruct ex as [a|]; [specialize (Ht a eq_refl)|done]);
    repeat case_decide; done || naive_solver.
Qed.

(** Requeuing works on a faithful copy: for a message made by the builder,
    the copy has the same configuration (scheduling parameters included) under
    a new identifier and creation time, a fresh lifecycle state whose requeue
    parent is the source, the same destination and consumer group, and status
    New. *)
Theorem CloneMessage_correct defaults uuid now now' e :
  wf_message (producibleMessage e) → routable (producibleMessage e) →
  let c := CloneMessage defaults uuid now now' e in
  producibleMessage c = (producibleMessage e) <| m_createdAt := now |> ∧
  ID c = uuid ∧ st_requeuedMessageParentID (messageState c) = ID e ∧
  PublishedAt (messageState c) = Some (UnixMilli now') ∧
  st_attempts (messageState c) = 0 ∧ st_expired (messageState c) = false ∧
  st_effectiveScheduledDelay (messageState c) =
    default 0 (Milliseconds <$> m_scheduledDelay (producibleMessage e)) ∧
  destinationQueue c = destinationQueue e ∧ consumerGroupID c = consumerGroupID e ∧
  status c = StatusNew.
Proof.
  intros Hw Hr. unfold CloneMessage, cloneMessage. rewrite copy_message_ok by done.
  destruct e as [m st s dq g]; simpl. split.
  - by destruct (decide (g ≠ "")).
  - assert (UnixMilli (OfUnixMilli (UnixMilli now')) = UnixMilli now') as Ht
      by (unfold UnixMilli, OfUnixMilli; by rewrite Z.div_mul).
    unfold NewEnvelope, PublishedAt. destruct m as [? ? ? ? ? ? ? ? [d|] ? ? ? ? ?]; simpl;
      destruct (decide (g ≠ "")) as [Hg|Hg%dec_stable]; try subst g; simpl; unfold constant;
      by rewrite Ht.
Qed.

Definition sample_envelope : Envelope :=
  SetDestinationQueue (Some sample_params) (NewEnvelope "m1" sample_message).

Lemma CloneMessage_correct_witness :
  ID (CloneMessage DefaultConsumeOptions "m2" 9 10 sample_envelope) = "m2".
Proof.
  refine (proj1 (proj2 (CloneMessage_correct DefaultConsumeOptions "m2" 9 10 sample_envelope _ _))).
  - split; vm_compute; try discriminate; auto.
  - split; vm_compute; [discriminate|auto].
Defined.
