(* ===== verification/MessageCodec.v ===== *)
(** * The message codec

    internal/message/codec.go: message parameters as JSON text, lifecycle state
    and envelope as the fields of a Redis hash.  The JSON layout of the
    parameters is that of the struct tags of pkg/message/params.go and of the
    marshallers of queue and exchange parameters.  The body is read as a generic
    value: its numbers become floating point numbers and its objects maps. *)

From S2P Require Import Prelude Keys Types Json Message.
From coqutil Require Import Datatypes.RecordSetters.
Import TriangleBracketNotations.
#[local] Open Scope record_set.
#[local] Open Scope Z_scope.

(** ** Reading struct fields: what [json.Unmarshal] stores

    An absent or null field leaves the zero value (a nil pointer for an
    optional one); a value of another type, or a number outside the field's
    integer type, is an error. *)

Definition as_int (j : json) : option Z :=
  match j with JNum z => if decide (in_int64 z) then Some z else None | _ => None end.
Definition as_text (j : json) : option string := match j with JStr s => Some s | _ => None end.

Definition get_opt {A} (f : json → option A) (k : string) (l : list (string * json))
    : option (option A) :=
  match jfield k l with
  | None | Some JNull => Some None
  | Some j => match f j with Some a => Some (Some a) | None => None end
  end.
Definition get_or {A} (z : A) (f : json → option A) (k : string) (l : list (string * json))
    : option A :=
  default z <$> get_opt f k l.

(** ** Queue and exchange parameters (pkg/queue/params.go, pkg/exchange/params.go) *)

Definition q_MarshalJSON (p : QParams) : json :=
  JObj [("name", JStr (q_name p)); ("ns", JStr (q_ns p))].
Definition q_UnmarshalJSON (j : json) : option QParams :=
  match j with
  | JObj l =>
      n ← get_or "" as_text "name" l;
      s ← get_or "" as_text "ns" l;
      Some {| q_name := n; q_ns := s |}
  | _ => None
  end.

Definition e_MarshalJSON (p : EParams) : json :=
  JObj [("name", JStr (e_name p)); ("ns", JStr (e_ns p)); ("type", JNum (e_typ p))].
Definition e_UnmarshalJSON (j : json) : option EParams :=
  match j with
  | JObj l =>
      n ← get_or "" as_text "name" l;
      s ← get_or "" as_text "ns" l;
      t ← get_or 0 as_int "type" l;
      Some {| e_name := n; e_ns := s; e_typ := t |}
  | _ => None
  end.

(** ** Message parameters *)

Definition params_json (p : Params) : json := JObj (
  [("createdAt", JNum (p_CreatedAt p));
   ("ttl", JNum (p_TTL p));
   ("retryThreshold", JNum (p_RetryThreshold p));
   ("retryDelay", JNum (p_RetryDelay p));
   ("consumeTimeout", JNum (p_ConsumeTimeout p));
   ("body", p_Body p)] ++
  omit "priority" JNum (p_Priority p) ++
  omit "scheduledCron" JStr (nonempty (p_ScheduledCron p)) ++
  omit "scheduledDelay" JNum (p_ScheduledDelay p) ++
  omit "scheduledRepeatPeriod" JNum (p_ScheduledRepeatPeriod p) ++
  [("scheduledRepeat", JNum (p_ScheduledRepeat p))] ++
  omit "exchange" e_MarshalJSON (p_Exchange p) ++
  omit "queue" q_MarshalJSON (p_Queue p) ++
  [("destinationQueue", match p_DestinationQueue p with Some q => q_MarshalJSON q | None => JNull end)] ++
  omit "consumerGroupId" JStr (nonempty (p_ConsumerGroupID p))).

Definition EncodeParams (p : Params) : string := print (params_json p).

Definition params_of_json (j : json) : option Params :=
  match j with
  | JNull => Some {| p_CreatedAt := 0; p_TTL := 0; p_RetryThreshold := 0; p_RetryDelay := 0;
                     p_ConsumeTimeout := 0; p_Body := JNull; p_Priority := None;
                     p_ScheduledCron := ""; p_ScheduledDelay := None;
                     p_ScheduledRepeatPeriod := None; p_ScheduledRepeat := 0;
                     p_Exchange := None; p_Queue := None; p_DestinationQueue := None;
                     p_ConsumerGroupID := "" |}
  | JObj l =>
      createdAt ← get_or 0 as_int "createdAt" l;
      ttl ← get_or 0 as_int "ttl" l;
      threshold ← get_or 0 as_int "retryThreshold" l;
      delay ← get_or 0 as_int "retryDelay" l;
      timeout ← get_or 0 as_int "consumeTimeout" l;
      body ← get_or JNull (Some ∘ rewire) "body" l;
      priority ← get_opt as_int "priority" l;
      cron ← get_or "" as_text "scheduledCron" l;
      sdelay ← get_opt as_int "scheduledDelay" l;
      period ← get_opt as_int "scheduledRepeatPeriod" l;
      repeat_ ← get_or 0 as_int "scheduledRepeat" l;
      exchange ← get_opt e_UnmarshalJSON "exchange" l;
      queue ← get_opt q_UnmarshalJSON "queue" l;
      dest ← get_opt q_UnmarshalJSON "destinationQueue" l;
      group ← get_or "" as_text "consumerGroupId" l;
      Some {| p_CreatedAt := createdAt; p_TTL := ttl; p_RetryThreshold := threshold;
              p_RetryDelay := delay; p_ConsumeTimeout := timeout; p_Body := body;
              p_Priority := priority; p_ScheduledCron := cron; p_ScheduledDelay := sdelay;
              p_ScheduledRepeatPeriod := period; p_ScheduledRepeat := repeat_;
              p_Exchange := exchange; p_Queue := queue; p_DestinationQueue := dest;
              p_ConsumerGroupID := group |}
  | _ => None
  end.

Definition DecodeParams (data : string) : option Params := parse_json data ≫= params_of_json.

(** ** Lifecycle state *)

Definition boolToStr (b : bool) : string := if b then "1" else "0".

(** A map assignment [hash[f.Key()] = v]. *)
Definition set_field (f : mfield) (v : string) (h : gmap string string) : gmap string string :=
  <[mkey f := v]> h.

Definition setOptionalTS (f : mfield) (ts : option Z) (h : gmap string string)
    : gmap string string :=
  match ts with
  | Some t => if decide (0 < t) then set_field f (itoa t) h else h
  | None => h
  end.

Definition setNonEmpty (f : mfield) (v : string) (h : gmap string string) : gmap string string :=
  if decide (v ≠ "") then set_field f v h else h.

Definition EncodeState (st : State) : gmap string string :=
  let t := state_ToTransferable st in
  let h := set_field F_EffectiveScheduledDelay (itoa (t_EffectiveScheduledDelay t))
             (set_field F_RequeueCount (itoa (t_RequeueCount t))
             (set_field F_ScheduledTimes (itoa (t_ScheduledTimes t))
             (set_field F_ScheduledRepeatCount (itoa (t_ScheduledRepeatCount t))
             (set_field F_ScheduledCronFired (boolToStr (t_ScheduledCronFired t))
             (set_field F_Expired (boolToStr (t_Expired t))
             (set_field F_Attempts (itoa (t_Attempts t))
             (set_field F_ID (t_UUID t) ∅))))))) in
  let h := setOptionalTS F_ScheduledAt (t_ScheduledAt t) h in
  let h := setOptionalTS F_PublishedAt (t_PublishedAt t) h in
  let h := setOptionalTS F_RequeuedAt (t_RequeuedAt t) h in
  let h := setOptionalTS F_ProcessingStartedAt (t_ProcessingStartedAt t) h in
  let h := setOptionalTS F_AcknowledgedAt (t_AcknowledgedAt t) h in
  let h := setOptionalTS F_UnacknowledgedAt (t_UnacknowledgedAt t) h in
  let h := setOptionalTS F_DeadLetteredAt (t_DeadLetteredAt t) h in
  let h := setOptionalTS F_LastRequeuedAt (t_LastRequeuedAt t) h in
  let h := setOptionalTS F_LastUnacknowledgedAt (t_LastUnacknowledgedAt t) h in
  let h := setOptionalTS F_LastScheduledAt (t_LastScheduledAt t) h in
  let h := setOptionalTS F_LastRetriedAttemptAt (t_LastRetriedAttemptAt t) h in
  let h := setOptionalTS F_LastProcessedAt (t_LastProcessedAt t) h in
  let h := setNonEmpty F_ScheduledMessageParentID (t_ScheduledMessageParentID t) h in
  setNonEmpty F_RequeuedMessageParentID (t_RequeuedMessageParentID t) h.

(** [if v, ok := hash[f.Key()]; ok { set(v) }]. *)
Definition if_field (h : gmap string string) (f : mfield) (set : string → State → State)
    (st : State) : State :=
  match h !! mkey f with Some v => set v st | None => st end.

Definition parseOptionalTS (h : gmap string string) (f : mfield) (setter : Z → State → State)
    (st : State) : State :=
  match h !! mkey f with
  | Some v =>
      match ParseInt v with
      | (ts, None) => if decide (0 < ts) then setter ts st else st
      | _ => st
      end
  | None => st
  end.

(** [None] is the error for an empty hash. *)
Definition DecodeState (uuid : string) (h : gmap string string) : option State :=
  if decide (h = ∅) then None
  else
    let st := NewMessageState uuid in
    let st := if_field h F_ID SetID st in
    let st := if_field h F_Attempts (λ v, SetAttempts (ParseInt v).1) st in
    let st := if_field h F_Expired (λ v, SetExpired (bool_decide (v = "1"))) st in
    let st := if_field h F_ScheduledCronFired (λ v, SetScheduledCronFired (bool_decide (v = "1"))) st in
    let st := if_field h F_ScheduledRepeatCount (λ v, SetScheduledRepeatCount (ParseInt v).1) st in
    let st := if_field h F_ScheduledTimes (λ v, SetScheduledTimes (ParseInt v).1) st in
    let st := if_field h F_RequeueCount (λ v, SetRequeueCount (ParseInt v).1) st in
    let st := if_field h F_EffectiveScheduledDelay
                (λ v, SetEffectiveScheduledDelay (ParseInt v).1) st in
    let st := parseOptionalTS h F_ScheduledAt SetScheduledAt st in
    let st := parseOptionalTS h F_PublishedAt SetPublishedAt st in
    let st := parseOptionalTS h F_RequeuedAt SetRequeuedAt st in
    let st := parseOptionalTS h F_ProcessingStartedAt SetProcessingStartedAt st in
    let st := parseOptionalTS h F_AcknowledgedAt SetAcknowledgedAt st in
    let st := parseOptionalTS h F_UnacknowledgedAt SetUnacknowledgedAt st in
    let st := parseOptionalTS h F_DeadLetteredAt SetDeadLetteredAt st in
    let st := parseOptionalTS h F_LastRequeuedAt SetLastRequeuedAt st in
    let st := parseOptionalTS h F_LastUnacknowledgedAt SetLastUnacknowledgedAt st in
    let st := parseOptionalTS h F_LastScheduledAt SetLastScheduledAt st in
    let st := parseOptionalTS h F_LastRetriedAttemptAt SetLastRetriedAttemptAt st in
    let st := parseOptionalTS h F_LastProcessedAt SetLastProcessedAt st in
    let st := if_field h F_ScheduledMessageParentID SetScheduledMessageParentID st in
    Some (if_field h F_RequeuedMessageParentID SetRequeuedMessageParentID st).

(** ** Envelopes *)

(** The state fields never include [Message] or [Status], so that the loop
    copying them over is a union. *)
Definition EncodeEnvelope (e : Envelope) : gmap string string :=
  EncodeState (messageState e) ∪
  set_field F_Status (itoa (status e)) (set_field F_Message (EncodeParams (env_ToParams e)) ∅).

Definition rebuildMessage (defaults : ConsumeOptions) (now : Z) (p : Params) : ProducibleMessage :=
  let m := SetBody (p_Body p) (New defaults now) in
  let m := match p_Priority p with Some x => SetPriority x m | None => m end in
  let m := if decide (0 < p_TTL p) then SetTTL (DurationOfMs (p_TTL p)) m else m in
  let m := SetRetryThreshold (p_RetryThreshold p) m in
  let m := SetRetryDelay (DurationOfMs (p_RetryDelay p)) m in
  let m := SetConsumeTimeout (DurationOfMs (p_ConsumeTimeout p)) m in
  let m := if decide (p_ScheduledCron p ≠ "") then SetScheduledCron (p_ScheduledCron p) m else m in
  let m := match p_ScheduledDelay p with
           | Some d => SetScheduledDelay (DurationOfMs d) m | None => m end in
  let m := match p_ScheduledRepeatPeriod p with
           | Some d => SetScheduledRepeatPeriod (DurationOfMs d) m | None => m end in
  let m := SetScheduledRepeat (p_ScheduledRepeat p) m in
  let m := match p_Exchange p with
           | Some ex =>
               if decide (e_typ ex = TypeDirect) then SetDirectExchange (Some ex) m
               else if decide (e_typ ex = TypeFanout) then SetFanoutExchange (Some ex) m
               else if decide (e_typ ex = TypeTopic) then SetTopicExchange (Some ex) m
               else m
           | None => m
           end in
  match p_Queue p with Some q => SetQueue (Some q) m | None => m end.

(** [uuid] and [uuid'] are the identifiers of the two states created on the
    way, neither of which the result keeps when the hash has an ID field. *)
Definition DecodeEnvelope (defaults : ConsumeOptions) (uuid uuid' : string) (now : Z)
    (h : gmap string string) : option Envelope :=
  if decide (h = ∅) then None
  else
    params ← DecodeParams (default "" (h !! mkey F_Message));
    let status := (ParseInt (default "" (h !! mkey F_Status))).1 in
    st ← DecodeState uuid (delete (mkey F_Message) (delete (mkey F_Status) h));
    let message := rebuildMessage defaults now params in
    let st := match p_ScheduledDelay params with
              | Some d => SetEffectiveScheduledDelay d st | None => st end in
    let e := SetDestinationQueue (p_DestinationQueue params)
               (SetStatus status (SetMessageState st (NewEnvelope uuid' message))) in
    Some (if decide (p_ConsumerGroupID params ≠ "")
          then SetConsumerGroupID (p_ConsumerGroupID params) e else e).

(** ** Facts: parameters *)

Lemma jfield_app k l1 l2 :
  jfield k (l1 ++ l2) = match jfield k l2 with Some y => Some y | None => jfield k l1 end.
Proof.
  induction l1 as [|[k' x] l1 IH]; simpl; [by destruct (jfield k l2)|].
  rewrite IH. by destruct (jfield k l2).
Qed.

Lemma jfield_omit {A} k k' (f : A → json) o :
  jfield k (omit k' f o) = if decide (k = k') then f <$> o else None.
Proof. destruct o; simpl; by case_decide. Qed.

Lemma as_int_num z : in_int64 z → as_int (JNum z) = Some z.
Proof. intros H. simpl. by rewrite decide_True. Qed.

Lemma get_opt_eq {A} (f : json → option A) (g : A → json) k l o :
  jfield k l = g <$> o → (∀ a, o = Some a → f (g a) = Some a ∧ g a ≠ JNull) →
  get_opt f k l = Some o.
Proof.
  intros Hj Hf. unfold get_opt. rewrite Hj. destruct o as [a|]; [simpl|done].
  destruct (Hf a eq_refl) as [-> Hn]. by destruct (g a).
Qed.

Lemma get_or_eq {A} z (f : json → option A) j a k l :
  jfield k l = Some j → f j = Some a → j ≠ JNull → get_or z f k l = Some a.
Proof. intros Hj Hf Hn. unfold get_or, get_opt. rewrite Hj, Hf. by destruct j. Qed.

Lemma get_or_nonempty k l s :
  jfield k l = JStr <$> nonempty s → get_or "" as_text k l = Some s.
Proof.
  intros Hj. unfold get_or, get_opt. rewrite Hj. unfold nonempty.
  case_decide as Hs; by subst.
Qed.

Lemma get_body k l b : jfield k l = Some b → get_or JNull (Some ∘ rewire) k l = Some (rewire b).
Proof. intros Hj. unfold get_or, get_opt. rewrite Hj. by destruct b. Qed.

(** The parameters with the body as it is read. *)
Definition wired (p : Params) : Params := p <| p_Body := rewire (p_Body p) |>.

Lemma q_json_roundtrip p : q_UnmarshalJSON (q_MarshalJSON p) = Some p.
Proof. by destruct p. Qed.

Lemma e_json_roundtrip p : in_int64 (e_typ p) → e_UnmarshalJSON (e_MarshalJSON p) = Some p.
Proof.
  intros H. destruct p as [n s t]. unfold e_UnmarshalJSON, e_MarshalJSON, get_or, get_opt.
  simpl in *. by rewrite decide_True.
Qed.

(** Integers of the parameters are of the machine type. *)
Record params_in_range (p : Params) : Prop := {
  ir_created : in_int64 (p_CreatedAt p);
  ir_ttl : in_int64 (p_TTL p);
  ir_threshold : in_int64 (p_RetryThreshold p);
  ir_delay : in_int64 (p_RetryDelay p);
  ir_timeout : in_int64 (p_ConsumeTimeout p);
  ir_repeat : in_int64 (p_ScheduledRepeat p);
  ir_priority : ∀ z, p_Priority p = Some z → in_int64 z;
  ir_sdelay : ∀ z, p_ScheduledDelay p = Some z → in_int64 z;
  ir_period : ∀ z, p_ScheduledRepeatPeriod p = Some z → in_int64 z;
  ir_exchange : ∀ x, p_Exchange p = Some x → in_int64 (e_typ x)
}.

(** Looks a field up in an object written field by field. *)
Ltac jfields :=
  repeat (progress (rewrite ?jfield_app, ?jfield_omit; cbn [jfield];
    repeat first [rewrite decide_False by discriminate | rewrite decide_True by reflexivity]));
  repeat match goal with
         | |- context [match ?o with Some y => Some y | None => None end] =>
             replace (match o with Some y => Some y | None => None end) with o by by destruct o
         end;
  done.

Lemma params_json_roundtrip p : params_in_range p → params_of_json (params_json p) = Some (wired p).
Proof.
  intros [? ? ? ? ? ? Hp Hs Hr He].
  destruct p as [ca ttl th rd ct body prio cron sd pd rep ex q dq g]. simpl in *.
  unfold params_of_json, params_json.
  cbn [p_CreatedAt p_TTL p_RetryThreshold p_RetryDelay p_ConsumeTimeout p_Body p_Priority
       p_ScheduledCron p_ScheduledDelay p_ScheduledRepeatPeriod p_ScheduledRepeat p_Exchange
       p_Queue p_DestinationQueue p_ConsumerGroupID].
  rewrite (get_or_eq 0 as_int (JNum ca) ca "createdAt") by (jfields || by apply as_int_num). simpl.
  rewrite (get_or_eq 0 as_int (JNum ttl) ttl "ttl") by (jfields || by apply as_int_num). simpl.
  rewrite (get_or_eq 0 as_int (JNum th) th "retryThreshold") by (jfields || by apply as_int_num). simpl.
  rewrite (get_or_eq 0 as_int (JNum rd) rd "retryDelay") by (jfields || by apply as_int_num). simpl.
  rewrite (get_or_eq 0 as_int (JNum ct) ct "consumeTimeout") by (jfields || by apply as_int_num). simpl.
  rewrite (get_body _ _ body) by jfields. simpl.
  rewrite (get_opt_eq as_int JNum "priority" _ prio) by (jfields || (intros ? ?; split; [eauto using as_int_num|done])). simpl.
  rewrite (get_or_nonempty "scheduledCron" _ cron) by jfields. simpl.
  rewrite (get_opt_eq as_int JNum "scheduledDelay" _ sd) by (jfields || (intros ? ?; split; [eauto using as_int_num|done])). simpl.
  rewrite (get_opt_eq as_int JNum "scheduledRepeatPeriod" _ pd) by (jfields || (intros ? ?; split; [eauto using as_int_num|done])). simpl.
  rewrite (get_or_eq 0 as_int (JNum rep) rep "scheduledRepeat") by (jfields || by apply as_int_num). simpl.
  rewrite (get_opt_eq e_UnmarshalJSON e_MarshalJSON "exchange" _ ex)
    by (jfields || (intros ? ?; split; [eauto using e_json_roundtrip|done])). simpl.
  rewrite (get_opt_eq q_UnmarshalJSON q_MarshalJSON "queue" _ q)
    by (jfields || (intros ? ?; split; [eauto using q_json_roundtrip|done])). simpl.
  assert (∀ l, jfield "destinationQueue" l = Some (match dq with Some q => q_MarshalJSON q | None => JNull end) →
    get_opt q_UnmarshalJSON "destinationQueue" l = Some dq) as Hdq.
  { intros l Hl. unfold get_opt. rewrite Hl. by destruct dq as [[]|]. }
  rewrite Hdq by jfields. simpl.
  by rewrite (get_or_nonempty "consumerGroupId" _ g) by jfields.
Qed.

Lemma DecodeParams_ok p : params_in_range p → DecodeParams (EncodeParams p) = Some (wired p).
Proof.
  intros H. unfold DecodeParams, EncodeParams. rewrite parse_print. simpl.
  by apply params_json_roundtrip.
Qed.

(** ** Facts: lifecycle state *)

Lemma set_field_lookup f g v h :
  set_field g v h !! mkey f = if decide (f = g) then Some v else h !! mkey f.
Proof.
  unfold set_field. case_decide as H; [subst; apply lookup_insert_eq|].
  apply lookup_insert_ne. by intros ?%(inj mkey).
Qed.

(** The text stored for a timestamp. *)
Definition stamp (ts : option Z) : option string :=
  match ts with Some t => if decide (0 < t) then Some (itoa t) else None | None => None end.

Lemma set_field_ne f g v h : f ≠ g → set_field g v h !! mkey f = h !! mkey f.
Proof. intros H. rewrite set_field_lookup. by rewrite decide_False. Qed.
Lemma set_field_eq f v h : set_field f v h !! mkey f = Some v.
Proof. rewrite set_field_lookup. by rewrite decide_True. Qed.

Lemma setOptionalTS_ne f g ts h : f ≠ g → setOptionalTS g ts h !! mkey f = h !! mkey f.
Proof. intros H. unfold setOptionalTS. repeat case_match; by rewrite ?set_field_ne. Qed.
Lemma setOptionalTS_eq f ts h :
  h !! mkey f = None → setOptionalTS f ts h !! mkey f = stamp ts.
Proof. intros H. unfold setOptionalTS, stamp. repeat case_match; by rewrite ?set_field_eq. Qed.

Lemma setNonEmpty_ne f g v h : f ≠ g → setNonEmpty g v h !! mkey f = h !! mkey f.
Proof. intros H. unfold setNonEmpty. repeat case_match; by rewrite ?set_field_ne. Qed.
Lemma setNonEmpty_eq f v h :
  h !! mkey f = None → setNonEmpty f v h !! mkey f = nonempty v.
Proof.
  intros H. unfold setNonEmpty, nonempty.
  destruct (decide (v ≠ "")) as [Hv|Hv%dec_stable]; subst; [|done].
  rewrite decide_False by done. by rewrite set_field_eq.
Qed.

(** The content of each field of an encoded state. *)
Definition state_field (f : mfield) (st : State) : option string :=
  match f with
  | F_ID => Some (st_id st)
  | F_Status | F_Message => None
  | F_ScheduledAt => stamp (ScheduledAt st)
  | F_PublishedAt => stamp (PublishedAt st)
  | F_ProcessingStartedAt => stamp (ProcessingStartedAt st)
  | F_DeadLetteredAt => stamp (DeadLetteredAt st)
  | F_AcknowledgedAt => stamp (AcknowledgedAt st)
  | F_UnacknowledgedAt => stamp (UnacknowledgedAt st)
  | F_LastUnacknowledgedAt => stamp (LastUnacknowledgedAt st)
  | F_LastScheduledAt => stamp (LastScheduledAt st)
  | F_LastProcessedAt => stamp (LastProcessedAt st)
  | F_RequeuedAt => stamp (RequeuedAt st)
  | F_RequeueCount => Some (itoa (st_requeueCount st))
  | F_LastRequeuedAt => stamp (LastRequeuedAt st)
  | F_LastRetriedAttemptAt => stamp (LastRetriedAttemptAt st)
  | F_ScheduledCronFired => Some (boolToStr (st_scheduledCronFired st))
  | F_Attempts => Some (itoa (st_attempts st))
  | F_ScheduledRepeatCount => Some (itoa (st_scheduledRepeatCount st))
  | F_Expired => Some (boolToStr (st_expired st))
  | F_EffectiveScheduledDelay => Some (itoa (st_effectiveScheduledDelay st))
  | F_ScheduledTimes => Some (itoa (st_scheduledTimes st))
  | F_ScheduledMessageParentID => nonempty (st_scheduledMessageParentID st)
  | F_RequeuedMessageParentID => nonempty (st_requeuedMessageParentID st)
  end.

Lemma EncodeState_lookup f st : EncodeState st !! mkey f = state_field f st.
Proof.
  unfold EncodeState. cbv zeta.
  destruct f;
    repeat first
      [ rewrite setNonEmpty_ne by discriminate
      | rewrite setOptionalTS_ne by discriminate
      | rewrite set_field_ne by discriminate ];
    first [ apply set_field_eq | apply lookup_empty
          | rewrite setOptionalTS_eq; [done|] | rewrite setNonEmpty_eq; [done|] ];
    repeat first
      [ rewrite setNonEmpty_ne by discriminate
      | rewrite setOptionalTS_ne by discriminate
      | rewrite set_field_ne by discriminate ];
    apply lookup_empty.
Qed.

(** A timestamp as the setters store it: whole milliseconds after the epoch. *)
Definition canonical_ts (o : option Z) : Prop :=
  match o with
  | Some t => t = OfUnixMilli (UnixMilli t) ∧ 0 < UnixMilli t <= int64_max
  | None => True
  end.

Record canonical_state (st : State) : Prop := {
  cs_scheduled : canonical_ts (st_scheduledAt st);
  cs_published : canonical_ts (st_publishedAt st);
  cs_requeued : canonical_ts (st_requeuedAt st);
  cs_started : canonical_ts (st_processingStartedAt st);
  cs_acked : canonical_ts (st_acknowledgedAt st);
  cs_unacked : canonical_ts (st_unacknowledgedAt st);
  cs_dead : canonical_ts (st_deadLetteredAt st);
  cs_last_requeued : canonical_ts (st_lastRequeuedAt st);
  cs_last_unacked : canonical_ts (st_lastUnacknowledgedAt st);
  cs_last_scheduled : canonical_ts (st_lastScheduledAt st);
  cs_last_retried : canonical_ts (st_lastRetriedAttemptAt st);
  cs_last_processed : canonical_ts (st_lastProcessedAt st);
  cs_attempts : in_int64 (st_attempts st);
  cs_repeats : in_int64 (st_scheduledRepeatCount st);
  cs_requeues : in_int64 (st_requeueCount st);
  cs_delay : in_int64 (st_effectiveScheduledDelay st);
  cs_times : in_int64 (st_scheduledTimes st)
}.

(** The field holds the value, or the empty string for an absent one: the codec
    leaves absent fields out, the publishing scripts store them as "". *)
Definition reads (h : gmap string string) (f : mfield) (v : option string) : Prop :=
  h !! mkey f = v ∨ h !! mkey f = Some (default "" v).

Lemma parse_ts h f setter (put : option Z → State → State) st o :
  reads h f (stamp (UnixMilli <$> o)) → canonical_ts o →
  (∀ z s, setter z s = put (Some (OfUnixMilli z)) s) → put None st = st →
  parseOptionalTS h f setter st = put o st.
Proof.
  intros Hf Hc Hset Hnone. unfold parseOptionalTS. destruct o as [t|].
  2: { by destruct Hf as [-> | ->]. }
  destruct Hc as [Ht Hr]. simpl in Hf. rewrite decide_True in Hf by lia.
  assert (h !! mkey f = Some (itoa (UnixMilli t))) as -> by by destruct Hf.
  rewrite ParseInt_itoa by (unfold in_int64, int64_min; lia). rewrite decide_True by lia.
  by rewrite Hset, <-Ht.
Qed.

Lemma if_some h f set st v : reads h f (Some v) → if_field h f set st = set v st.
Proof. intros H. unfold if_field. by destruct H as [-> | ->]. Qed.

Lemma if_nonempty h f set st v :
  reads h f (nonempty v) → set "" st = st → if_field h f set st = set v st.
Proof.
  intros H Hz. unfold if_field. unfold nonempty in H.
  case_decide; subst; by destruct H as [-> | ->].
Qed.

Lemma boolToStr_inv b : bool_decide (boolToStr b = "1") = b.
Proof. by destruct b. Qed.

Lemma DecodeState_of uuid h st :
  (∀ f, f ≠ F_Status → f ≠ F_Message → reads h f (state_field f st)) →
  canonical_state st → DecodeState uuid h = Some st.
Proof.
  intros Hh [? ? ? ? ? ? ? ? ? ? ? ? ? ? ? ? ?]. unfold DecodeState.
  rewrite decide_False.
  2: { intros ->. specialize (Hh F_ID). unfold reads in Hh. rewrite lookup_empty in Hh.
       naive_solver. }
  cbv zeta. rewrite (if_some h F_ID _ _ _ (Hh F_ID ltac:(done) ltac:(done))), (if_some h F_Attempts _ _ _ (Hh F_Attempts ltac:(done) ltac:(done))),
    (if_some h F_Expired _ _ _ (Hh F_Expired ltac:(done) ltac:(done))), (if_some h F_ScheduledCronFired _ _ _ (Hh F_ScheduledCronFired ltac:(done) ltac:(done))),
    (if_some h F_ScheduledRepeatCount _ _ _ (Hh F_ScheduledRepeatCount ltac:(done) ltac:(done))), (if_some h F_ScheduledTimes _ _ _ (Hh F_ScheduledTimes ltac:(done) ltac:(done))),
    (if_some h F_RequeueCount _ _ _ (Hh F_RequeueCount ltac:(done) ltac:(done))), (if_some h F_EffectiveScheduledDelay _ _ _ (Hh F_EffectiveScheduledDelay ltac:(done) ltac:(done))).
  rewrite !boolToStr_inv, !ParseInt_itoa by done. cbn [fst].
  rewrite (parse_ts h F_ScheduledAt _ (λ o s, s <| st_scheduledAt := o |>) _ _ (Hh F_ScheduledAt ltac:(done) ltac:(done))) by done.
  rewrite (parse_ts h F_PublishedAt _ (λ o s, s <| st_publishedAt := o |>) _ _ (Hh F_PublishedAt ltac:(done) ltac:(done))) by done.
  rewrite (parse_ts h F_RequeuedAt _ (λ o s, s <| st_requeuedAt := o |>) _ _ (Hh F_RequeuedAt ltac:(done) ltac:(done))) by done.
  rewrite (parse_ts h F_ProcessingStartedAt _ (λ o s, s <| st_processingStartedAt := o |>) _ _ (Hh F_ProcessingStartedAt ltac:(done) ltac:(done))) by done.
  rewrite (parse_ts h F_AcknowledgedAt _ (λ o s, s <| st_acknowledgedAt := o |>) _ _ (Hh F_AcknowledgedAt ltac:(done) ltac:(done))) by done.
  rewrite (parse_ts h F_UnacknowledgedAt _ (λ o s, s <| st_unacknowledgedAt := o |>) _ _ (Hh F_UnacknowledgedAt ltac:(done) ltac:(done))) by done.
  rewrite (parse_ts h F_DeadLetteredAt _ (λ o s, s <| st_deadLetteredAt := o |>) _ _ (Hh F_DeadLetteredAt ltac:(done) ltac:(done))) by done.
  rewrite (parse_ts h F_LastRequeuedAt _ (λ o s, s <| st_lastRequeuedAt := o |>) _ _ (Hh F_LastRequeuedAt ltac:(done) ltac:(done))) by done.
  rewrite (parse_ts h F_LastUnacknowledgedAt _ (λ o s, s <| st_lastUnacknowledgedAt := o |>) _ _ (Hh F_LastUnacknowledgedAt ltac:(done) ltac:(done))) by done.
  rewrite (parse_ts h F_LastScheduledAt _ (λ o s, s <| st_lastScheduledAt := o |>) _ _ (Hh F_LastScheduledAt ltac:(done) ltac:(done))) by done.
  rewrite (parse_ts h F_LastRetriedAttemptAt _ (λ o s, s <| st_lastRetriedAttemptAt := o |>) _ _ (Hh F_LastRetriedAttemptAt ltac:(done) ltac:(done))) by done.
  rewrite (parse_ts h F_LastProcessedAt _ (λ o s, s <| st_lastProcessedAt := o |>) _ _ (Hh F_LastProcessedAt ltac:(done) ltac:(done))) by done.
  rewrite (if_nonempty h F_ScheduledMessageParentID _ _ _ (Hh F_ScheduledMessageParentID ltac:(done) ltac:(done))) by done.
  rewrite (if_nonempty h F_RequeuedMessageParentID _ _ _ (Hh F_RequeuedMessageParentID ltac:(done) ltac:(done))) by done.
  by destruct st.
Qed.

(** ** Facts: envelopes *)

(** Durations that survive the conversion to milliseconds and back. *)
Definition whole_ms (d : Z) : Prop := DurationOfMs (Milliseconds d) = d.

#[global] Instance whole_ms_dec d : Decision (whole_ms d).
Proof. unfold whole_ms. apply _. Defined.

Record whole_message (m : ProducibleMessage) : Prop := {
  wm_ttl : whole_ms (m_ttl m);
  wm_retry_delay : whole_ms (m_retryDelay m);
  wm_timeout : whole_ms (m_consumeTimeout m);
  wm_delay : ∀ d, m_scheduledDelay m = Some d → whole_ms d;
  wm_period : ∀ d, m_scheduledRepeatPeriod m = Some d → whole_ms d
}.

Lemma rebuild_created defaults now p : m_createdAt (rebuildMessage defaults now p) = now.
Proof.
  unfold rebuildMessage. destruct p as [ca ttl th rd ct body prio cron sd pd rep ex q dq g].
  simpl. destruct q as [q|], ex as [x|]; repeat case_decide; destruct prio, sd, pd; done.
Qed.

Lemma rebuild_ok defaults now m dq g :
  wf_message m → routable m → whole_message m → co_TTL defaults = 0 ∨ m_ttl m ≠ 0 →
  rebuildMessage defaults now (ToParams m dq g) =
  m <| m_createdAt := now |> <| m_exchangeRoutingKey := "" |>.
Proof.
  intros [H1 H2 H3 H4 H5 H6 H7 H8 H9] [Hk _] [W1 W2 W3 W4 W5] Hd.
  destruct m as [ca ttl th rd ct body prio cron sd pd rep ex rk q].
  unfold rebuildMessage, ToParams. simpl in *. unfold whole_ms in *.
  assert (∀ m : ProducibleMessage, m_ttl m = DurationOfMs (co_TTL defaults) →
    (if decide (0 < Milliseconds ttl) then SetTTL (DurationOfMs (Milliseconds ttl)) m else m) =
    m <| m_ttl := ttl |>) as Httl.
  { intros m0 Hm0. unfold SetTTL. rewrite W1, clamp_id by done.
    case_decide as Hp; [done|].
    assert (Milliseconds ttl = 0) as Hz
      by (unfold Milliseconds, millisecond in *; pose proof (Z.quot_pos ttl 1000000); lia).
    assert (ttl = 0) as -> by (rewrite <-W1, Hz; done).
    destruct Hd as [Hd|[]]; [|done]. rewrite Hd in Hm0. destruct m0; simpl in *. by subst. }
  rewrite Httl by by destruct prio. clear Httl.
  unfold SetScheduledCron, SetRetryThreshold, SetRetryDelay, SetConsumeTimeout, SetScheduledRepeat.
  rewrite W2, W3, !clamp_id, H8 by done.
  assert (∀ a, ex = Some a → e_typ a = TypeDirect ∨ e_typ a = TypeFanout ∨ e_typ a = TypeTopic)
    as Ht by (intros a Ha; by apply exchange_type_cases, Hk).
  clear Hk H1 H2 H3 H4 H7 H8 Hd W1 W2 W3. unfold SetScheduledDelay, SetScheduledRepeatPeriod.
  destruct sd as [d|], pd as [p|]; simpl; rewrite ?W4, ?W5, ?clamp_id by eauto;
    destruct prio, (decide (cron ≠ "")) as [Hcr|Hcr%dec_stable]; try subst cron;
    (destruct q as [q|]; [destruct H9 as [[=]| ->]; done|]);
    (destruct ex as [a|]; [specialize (Ht a eq_refl)|done]);
    repeat case_decide; done || naive_solver.
Qed.

Lemma Envelope_hash_lookup f e :
  delete (mkey F_Message) (delete (mkey F_Status) (EncodeEnvelope e)) !! mkey f =
  state_field f (messageState e).
Proof.
  unfold EncodeEnvelope. rewrite <-EncodeState_lookup.
  destruct (decide (f = F_Message)) as [->|Hm];
    [by rewrite lookup_delete_eq, EncodeState_lookup|].
  rewrite lookup_delete_ne by (by intros ?%(inj mkey)).
  destruct (decide (f = F_Status)) as [->|Hs];
    [by rewrite lookup_delete_eq, EncodeState_lookup|].
  rewrite lookup_delete_ne by (by intros ?%(inj mkey)).
  destruct (EncodeState (messageState e) !! mkey f) eqn:E; [by eapply lookup_union_Some_l|].
  rewrite lookup_union_r by done. by rewrite !set_field_ne, lookup_empty.
Qed.

Lemma Envelope_hash_params f e :
  f = F_Message ∨ f = F_Status →
  EncodeEnvelope e !! mkey f =
  Some (if decide (f = F_Message) then EncodeParams (env_ToParams e) else itoa (status e)).
Proof.
  intros Hf. unfold EncodeEnvelope.
  rewrite lookup_union_r by (rewrite EncodeState_lookup; by destruct Hf; subst).
  destruct Hf as [-> | ->]; simpl; rewrite ?set_field_eq; [|done].
  rewrite set_field_ne by done. apply set_field_eq.
Qed.

(** The state a decoded envelope has: a configured delay is pending again. *)
Definition rearm (delay : option Z) (st : State) : State :=
  match delay with Some d => SetEffectiveScheduledDelay (Milliseconds d) st | None => st end.

(** Configurations that survive being stored. *)
Record storable (defaults : ConsumeOptions) (e : Envelope) : Prop := {
  sb_wf : wf_message (producibleMessage e);
  sb_routable : routable (producibleMessage e);
  sb_whole : whole_message (producibleMessage e);
  sb_state : canonical_state (messageState e);
  sb_params : params_in_range (env_ToParams e);
  sb_status : in_int64 (status e);
  sb_ttl : co_TTL defaults = 0 ∨ m_ttl (producibleMessage e) ≠ 0
}.

(** The envelope a reader at time [now] makes of a stored [e]: the creation time is
    the time of reading, the routing key of the exchange, which is not stored, is
    lost, the body is a generic value, and a configured delay is pending again. *)
Definition reread (now : Z) (e : Envelope) : Envelope := {|
  producibleMessage :=
    (producibleMessage e) <| m_createdAt := now |> <| m_exchangeRoutingKey := "" |>
      <| m_body := rewire (m_body (producibleMessage e)) |>;
  messageState := rearm (m_scheduledDelay (producibleMessage e)) (messageState e);
  status := status e;
  destinationQueue := destinationQueue e;
  consumerGroupID := consumerGroupID e
|}.

Lemma rebuild_wired defaults now m dq g :
  wf_message m → routable m → whole_message m → co_TTL defaults = 0 ∨ m_ttl m ≠ 0 →
  rebuildMessage defaults now (wired (ToParams m dq g)) =
  m <| m_createdAt := now |> <| m_exchangeRoutingKey := "" |> <| m_body := rewire (m_body m) |>.
Proof.
  intros Hw Hr Hm Hd.
  pose proof (rebuild_ok defaults now (m <| m_body := rewire (m_body m) |>) dq g) as H.
  destruct m. apply H; [by destruct Hw|done|by destruct Hm|done].
Qed.

(** A hash with any text that decodes to the parameters. *)
Lemma DecodeEnvelope_as defaults uuid uuid' now h e text :
  storable defaults e →
  h !! mkey F_Message = Some text → DecodeParams text = Some (wired (env_ToParams e)) →
  h !! mkey F_Status = Some (itoa (status e)) →
  (∀ f, f ≠ F_Status → f ≠ F_Message → reads h f (state_field f (messageState e))) →
  DecodeEnvelope defaults uuid uuid' now h = Some (reread now e).
Proof.
  intros [Hw Hr Hm Hc Hp Hs Hd] HM HT HS Hf. unfold DecodeEnvelope. rewrite decide_False.
  2: { intros ->. by rewrite lookup_empty in HM. }
  rewrite HM, HS. cbn [default from_option id]. rewrite HT. cbn [mbind option_bind].
  rewrite (DecodeState_of uuid _ (messageState e)); [|intros f Hf1 Hf2|done].
  - cbn [mbind option_bind]. rewrite ParseInt_itoa by done. unfold env_ToParams.
    rewrite rebuild_wired by done. destruct e as [m st s dq g]; simpl. unfold reread, rearm.
    destruct m as [? ? ? ? ? ? ? ? [d|] ? ? ? ? ?]; simpl;
      destruct (decide (g ≠ "")) as [Hg|Hg%dec_stable]; by try subst g.
  - unfold reads. rewrite !lookup_delete_ne by (by intros ?%(inj mkey)). by apply Hf.
Qed.

Lemma DecodeEnvelope_of defaults uuid uuid' now h e :
  storable defaults e →
  h !! mkey F_Message = Some (EncodeParams (env_ToParams e)) →
  h !! mkey F_Status = Some (itoa (status e)) →
  (∀ f, f ≠ F_Status → f ≠ F_Message → reads h f (state_field f (messageState e))) →
  DecodeEnvelope defaults uuid uuid' now h = Some (reread now e).
Proof.
  intros He HM. apply (DecodeEnvelope_as _ _ _ _ _ _ _ He HM). apply DecodeParams_ok, He.
Qed.

(** *** The schedule of a stored message *)

Lemma if_field_keep {X} (π : State → X) h f k st :
  (∀ v st, π (k v st) = π st) → π (if_field h f k st) = π st.
Proof. intros H. unfold if_field. by case_match. Qed.
Lemma parseTS_keep {X} (π : State → X) h f k st :
  (∀ v st, π (k v st) = π st) → π (parseOptionalTS h f k st) = π st.
Proof. intros H. unfold parseOptionalTS. repeat case_match; auto. Qed.

Definition int_field (h : gmap string string) (f : mfield) : Z :=
  match h !! mkey f with Some v => (ParseInt v).1 | None => 0 end.

Lemma DecodeState_schedule uuid h st :
  DecodeState uuid h = Some st →
  st_scheduledRepeatCount st = int_field h F_ScheduledRepeatCount ∧
  st_effectiveScheduledDelay st = int_field h F_EffectiveScheduledDelay ∧
  st_id st = default uuid (h !! mkey F_ID).
Proof.
  unfold DecodeState, int_field. case_decide; [done|]. cbv zeta. intros [= <-]. split_and!;
    repeat first [rewrite parseTS_keep by (by intros ? []) | rewrite if_field_keep by (by intros ? [])];
    unfold if_field at 1; case_match;
    repeat first [done | rewrite parseTS_keep by (by intros ? []) | rewrite if_field_keep by (by intros ? [])];
    done.
Qed.

Lemma rebuild_time defaults now now' p :
  rebuildMessage defaults now' p = (rebuildMessage defaults now p) <| m_createdAt := now' |>.
Proof.
  unfold rebuildMessage. destruct p as [ca ttl th rd ct body prio cron sd pd rep ex q dq g]. simpl.
  destruct q as [q|], ex as [x|]; repeat case_decide; destruct prio, sd, pd; done.
Qed.

Lemma rebuild_delay defaults now p :
  m_scheduledDelay (rebuildMessage defaults now p) = None → p_ScheduledDelay p = None.
Proof.
  unfold rebuildMessage. destruct p as [ca ttl th rd ct body prio cron [d|] pd rep ex q dq g]; [|done]. simpl.
  destruct q as [q|], ex as [x|]; repeat case_decide; destruct prio, pd; done.
Qed.

(** A message without a delay whose schedule fields [h'] changes: it is read back
    with the new schedule. *)
Lemma DecodeEnvelope_schedule defaults uuid uuid' now now' h h' m :
  DecodeEnvelope defaults uuid uuid' now h = Some m → m_scheduledDelay (producibleMessage m) = None →
  h' !! mkey F_Message = h !! mkey F_Message → h' !! mkey F_ID = h !! mkey F_ID →
  is_Some (h' !! mkey F_ScheduledRepeatCount) →
  ∃ m', DecodeEnvelope defaults uuid uuid' now' h' = Some m' ∧ ID m' = ID m ∧
    producibleMessage m' = (producibleMessage m) <| m_createdAt := now' |> ∧
    consumerGroupID m' = consumerGroupID m ∧ destinationQueue m' = destinationQueue m ∧
    st_scheduledRepeatCount (messageState m') = int_field h' F_ScheduledRepeatCount ∧
    st_effectiveScheduledDelay (messageState m') = int_field h' F_EffectiveScheduledDelay.
Proof.
  unfold DecodeEnvelope. intros Hm Hd HM HI [v Hv]. case_decide; [done|].
  rewrite decide_False by (intros ->; by rewrite lookup_empty in Hv). rewrite HM.
  destruct (DecodeParams _) as [p|]; [cbn [mbind option_bind] in *|done].
  set (h0 := delete _ (delete _ h)) in *. set (h1 := delete _ (delete _ h')).
  destruct (DecodeState uuid h0) as [st|] eqn:Est; [cbn [mbind option_bind] in *|done].
  assert (∀ f, f ≠ F_Status → f ≠ F_Message → h1 !! mkey f = h' !! mkey f ∧ h0 !! mkey f = h !! mkey f) as Hl.
  { intros f H1 H2. unfold h0, h1. by rewrite !lookup_delete_ne by (by intros ?%(inj mkey)). }
  assert (∃ st', DecodeState uuid h1 = Some st') as [st' Est'].
  { unfold DecodeState. rewrite decide_False; [by eexists|]. intros E.
    destruct (Hl F_ScheduledRepeatCount ltac:(done) ltac:(done)) as [E' _].
    rewrite E, lookup_empty, Hv in E'. done. }
  rewrite Est'. cbn [mbind option_bind].
  apply DecodeState_schedule in Est as (_ & _ & Ei). apply DecodeState_schedule in Est' as (E1 & E2 & E3).
  unfold int_field in *. rewrite (proj1 (Hl F_ScheduledRepeatCount ltac:(done) ltac:(done))) in E1.
  rewrite (proj1 (Hl F_EffectiveScheduledDelay ltac:(done) ltac:(done))) in E2.
  rewrite (proj1 (Hl F_ID ltac:(done) ltac:(done))) in E3.
  rewrite (proj2 (Hl F_ID ltac:(done) ltac:(done))) in Ei. rewrite HI, <-Ei in E3.
  assert (p_ScheduledDelay p = None) as Hp.
  { injection Hm as <-. apply (rebuild_delay defaults now). by case_decide. }
  rewrite Hp in *. injection Hm as <-. eexists. split; [reflexivity|].
  rewrite (rebuild_time defaults now now' p).
  case_decide; cbn; unfold ID; cbn; split_and!; done.
Qed.

(** *** Properties *)

(** A lifecycle state written to a Redis hash and read back is the same
    state, for every state whose timestamps are whole positive milliseconds and
    whose counters fit the machine type, whatever identifier the reader
    generated on the way. *)
Theorem state_codec_roundtrip uuid st :
  canonical_state st → DecodeState uuid (EncodeState st) = Some st.
Proof. intros H. apply DecodeState_of; [|done]. intros f _ _. left. apply EncodeState_lookup. Qed.

Definition sample_state : State :=
  SetPublishedAt 1700000000000 (SetAttempts 2 (SetRequeuedMessageParentID "m0" (NewMessageState "m1"))).

Lemma state_codec_roundtrip_witness :
  DecodeState "other" (EncodeState sample_state) = Some sample_state.
Proof.
  apply state_codec_roundtrip.
  split; vm_compute; try exact I; repeat split; discriminate.
Defined.

(** Message parameters written as JSON text and read back are the same
    parameters, for all values of the machine integer types, with the body as a
    generic value. *)
Theorem params_codec_roundtrip p :
  params_in_range p → DecodeParams (EncodeParams p) = Some (wired p).
Proof.
  exact (DecodeParams_ok p).
Qed.

Definition sample_Params : Params := ToParams sample_message (Some sample_params) "g1".

Lemma params_codec_roundtrip_witness :
  DecodeParams (EncodeParams sample_Params) = Some (wired sample_Params).
Proof.
  apply params_codec_roundtrip.
  split; try (intros ? H; vm_compute in H; discriminate H); vm_compute; split; discriminate.
Defined.

(** What an envelope read back from its hash keeps and loses.  The
    configuration, status, destination, group and lifecycle state survive; the
    creation time is replaced by the time of reading, the routing key is
    dropped, the body is a generic value, and a configured delay is pending again whether or not it was
    used. *)
Theorem envelope_codec_roundtrip defaults uuid uuid' now e :
  storable defaults e →
  DecodeEnvelope defaults uuid uuid' now (EncodeEnvelope e) = Some (reread now e).
Proof.
  intros He. apply DecodeEnvelope_of; [done|..].
  - by rewrite Envelope_hash_params by auto.
  - by rewrite Envelope_hash_params by auto.
  - intros f Hs Hm. left. pose proof (Envelope_hash_lookup f e) as H.
    by rewrite !lookup_delete_ne in H by (by intros ?%(inj mkey)).
Qed.

Lemma sample_storable : storable DefaultConsumeOptions sample_envelope.
Proof.
  split.
  - split; vm_compute; try discriminate; auto.
  - split; vm_compute; [discriminate|auto].
  - split; try (intros ? H; vm_compute in H; discriminate H); vm_compute; reflexivity.
  - split; vm_compute; try exact I; split; discriminate.
  - split; try (intros ? H; vm_compute in H; discriminate H); vm_compute; split; discriminate.
  - vm_compute. split; discriminate.
  - left. reflexivity.
Qed.

Lemma envelope_codec_roundtrip_witness :
  DecodeEnvelope DefaultConsumeOptions "x" "y" 5 (EncodeEnvelope sample_envelope) =
  Some (reread 5 sample_envelope).
Proof. exact (envelope_codec_roundtrip _ "x" "y" 5 _ sample_storable). Defined.

(** The age of a message read from Redis counts from the reading, not from
    its creation: within a TTL of the reading it never counts as expired,
    however old the stored creation time is. *)
Theorem decoded_message_not_expired defaults uuid uuid' now later h e :
  DecodeEnvelope defaults uuid uuid' now h = Some e →
  0 <= later - now < m_ttl (producibleMessage e) →
  m_createdAt (producibleMessage e) = now ∧ IsExpired later e = false.
Proof.
  unfold DecodeEnvelope. intros He Hl. case_decide; [done|].
  destruct (DecodeParams _) as [p|]; [simpl in He|done].
  destruct (DecodeState _ _) as [st|]; [simpl in He|done].
  assert (m_createdAt (producibleMessage e) = now) as Hc.
  { injection He as <-. case_decide; apply rebuild_created. }
  split; [done|]. unfold IsExpired. rewrite Hc. cbv zeta. rewrite decide_False by lia.
  apply bool_decide_eq_false_2. unfold Since, int64_min, int64_max. lia.
Qed.

Definition old_envelope : Envelope :=
  SetDestinationQueue (Some sample_params)
    (NewEnvelope "m1" (SetTTL (DurationOfMs 1000) (SetQueue (Some sample_params)
      (New DefaultConsumeOptions 1000000000)))).

Lemma decoded_message_not_expired_witness :
  IsExpired 90000000000 old_envelope = true ∧
  ∃ e, DecodeEnvelope DefaultConsumeOptions "x" "y" 90000000000 (EncodeEnvelope old_envelope) = Some e
       ∧ IsExpired 90500000000 e = false.
Proof.
  split; [vm_compute; reflexivity|]. eexists. split; [vm_compute; reflexivity|].
  apply (decoded_message_not_expired DefaultConsumeOptions "x" "y" 90000000000 90500000000
           (EncodeEnvelope old_envelope)).
  - vm_compute. reflexivity.
  - vm_compute. split; [discriminate|reflexivity].
Defined.

Lemma DecodeEnvelope_inv defaults uuid uuid' now h e :
  DecodeEnvelope defaults uuid uuid' now h = Some e →
  ∃ p, DecodeParams (default "" (h !! mkey F_Message)) = Some p ∧
       ∀ d, p_ScheduledDelay p = Some d → st_effectiveScheduledDelay (messageState e) = d.
Proof.
  unfold DecodeEnvelope. intros He. case_decide; [done|].
  destruct (DecodeParams _) as [p|]; [simpl in He|done].
  destruct (DecodeState _ _) as [st|]; [simpl in He|done].
  exists p. split; [done|]. intros d Hd. rewrite Hd in He. injection He as <-.
  by case_decide.
Qed.

(** A message stored with a scheduled delay is due one delay after the
    clock each time it is read back and rescheduled, and its repeat count does
    not move: the delay is not used up, so neither a repeat limit nor a CRON
    expression is ever consulted. *)
Theorem decoded_delay_never_used_up gv gn defaults uuid uuid' now t1 t2 h e p d :
  DecodeEnvelope defaults uuid uuid' now h = Some e →
  DecodeParams (default "" (h !! mkey F_Message)) = Some p →
  p_ScheduledDelay p = Some d → 0 < d →
  ∃ e', NextScheduledTimestamp gv gn t1 t2 e = (add64 (UnixMilli t1) d, e') ∧
        st_scheduledRepeatCount (messageState e') = st_scheduledRepeatCount (messageState e) ∧
        st_scheduledCronFired (messageState e') = st_scheduledCronFired (messageState e).
Proof.
  intros He Hp Hd Hpos. apply DecodeEnvelope_inv in He as (p' & Hp' & Heff).
  assert (p' = p) as -> by congruence. specialize (Heff d Hd).
  unfold NextScheduledTimestamp, IsSchedulable, HasNextDelay, HasDelay. rewrite Heff.
  rewrite bool_decide_eq_true_2 by done. simpl. rewrite decide_True by done.
  eexists. split; [done|]. by destruct e as [? [] ? ? ?].
Qed.

(** A message to be delayed by one second and delivered once more, whose delay
    was used and whose one repetition was counted before it was stored. *)
Definition spent_envelope : Envelope :=
  let e := NewEnvelope "m1" (SetScheduledRepeat 1 (SetScheduledRepeatPeriod (DurationOfMs 10)
             (SetScheduledDelay (DurationOfMs 1000) (SetQueue (Some sample_params)
               (New DefaultConsumeOptions 1000000000))))) in
  SetMessageState (SetScheduledRepeatCount 1 (ClearEffectiveScheduledDelay (messageState e))) e.

Definition respent_envelope : Envelope :=
  default spent_envelope (DecodeEnvelope DefaultConsumeOptions "x" "y" 5000000000
                            (EncodeEnvelope spent_envelope)).

Lemma decoded_delay_never_used_up_witness :
  (NextScheduledTimestamp (λ _, true) (λ _ _, None) 5000000000 5000000000 spent_envelope).1 = 0 ∧
  ∃ e', NextScheduledTimestamp (λ _, true) (λ _ _, None) 5000000000 5000000000 respent_envelope =
          (add64 (UnixMilli 5000000000) 1000, e').
Proof.
  split; [vm_compute; reflexivity|].
  destruct (decoded_delay_never_used_up (λ _, true) (λ _ _, None)
    DefaultConsumeOptions "x" "y" 5000000000 5000000000 5000000000
    (EncodeEnvelope spent_envelope) respent_envelope (env_ToParams spent_envelope) 1000)
    as (e' & H & _).
  - vm_compute. reflexivity.
  - vm_compute. reflexivity.
  - vm_compute. reflexivity.
  - reflexivity.
  - exists e'. exact H.
Defined.
