(* ===== verification/Publish.v ===== *)
(** * Publishing a message

    The Lua procedure publish_message
    (scripts/core/shared-procedures/publish-message.lua, run by
    core/publish-message.lua and prepended to requeue-message.lua and
    publish-scheduled.lua) and the Go code that calls it: the argument builder
    of internal/producer/publish_args.go and [dispatch] of
    internal/producer/producer.go.

    The script reads its arguments by position.  The first group of results
    fixes what the Go-built argument list means to the script: which reply it
    gives on every branch and what it writes when it accepts the message. *)

From S2P Require Import Prelude Keys Redis RedisFacts Keyspace Types Json Message MessageCodec.
#[local] Open Scope Z_scope.

(** ** The Lua procedure *)

(** A reply of [HMGET]: [None] is Lua's [false]. *)
Definition reply_at (l : list (option string)) (i : nat) : option string :=
  default None (l !! (i - 1)%nat).

Definition publish_state_check (state operationLockId : string) (currentLockId : option string)
    (args : list string) : option string :=
  let active := arg args 10 in
  let paused := arg args 11 in
  let stopped := arg args 12 in
  let locked := arg args 13 in
  if decide (state = stopped) then Some "QUEUE_STOPPED"
  else if decide (state = locked) then
    if decide (operationLockId = "" ∨ currentLockId = None ∨ currentLockId = Some "" ∨
               Some operationLockId ≠ currentLockId)
    then Some "QUEUE_LOCKED" else None
  else if decide (state = paused) then None
  else if decide (state = active) then None
  else Some "QUEUE_INVALID_STATE".

Definition publish_message (keys args : list string) : M string :=
  let keyQueueProperties := arg keys 1 in
  let keyPriorityQueue := arg keys 2 in
  let keyQueuePending := arg keys 3 in
  let keyQueueScheduled := arg keys 4 in
  let keyQueuePublished := arg keys 5 in
  let keyQueueConsumerGroups := arg keys 6 in
  let keyMessage := arg keys 7 in
  let messagePriority := arg args 14 in
  let messageId := arg args 42 in
  let messageStatus := arg args 43 in
  let consumerGroupId := arg args 66 in
  queueProps ← cmd_hmget keyQueueProperties [arg args 1; arg args 8; arg args 9];
  match reply_at queueProps 1 with
  | None => mret "QUEUE_NOT_FOUND"
  | Some queueType =>
      let operationalState := default (arg args 10) (reply_at queueProps 2) in
      match publish_state_check operationalState (arg args 67) (reply_at queueProps 3) args with
      | Some reply => mret reply
      | None =>
          known ← (if decide (consumerGroupId ≠ "")
                   then cmd_sismember keyQueueConsumerGroups consumerGroupId else mret true);
          if negb known then mret "CONSUMER_GROUP_NOT_FOUND"
          else if decide (queueType = arg args 5 ∧ messagePriority = "") then
            mret "MESSAGE_PRIORITY_REQUIRED"
          else if decide (queueType ≠ arg args 5 ∧ messagePriority ≠ "") then
            mret "PRIORITY_QUEUING_NOT_ENABLED"
          else
            accepted ←
              (if decide (messageStatus = arg args 17) then
                 pushed ←
                   (if decide (queueType = arg args 5) then
                      _ ← cmd_zadd keyPriorityQueue messagePriority messageId; mret true
                    else if decide (queueType = arg args 6) then
                      _ ← cmd_rpush keyQueuePending [messageId]; mret true
                    else if decide (queueType = arg args 7) then
                      _ ← cmd_lpush keyQueuePending messageId; mret true
                    else mret false);
                 if (pushed : bool) then
                   _ ← cmd_hincrby keyQueueProperties (arg args 3) 1; mret true
                 else mret false
               else
                 _ ← cmd_zadd keyQueueScheduled (arg args 15) messageId;
                 _ ← cmd_hincrby keyQueueProperties (arg args 4) 1;
                 mret true);
            if negb accepted then mret "UNKNOWN_QUEUE_TYPE"
            else
              _ ← cmd_rpush keyQueuePublished [messageId];
              _ ← cmd_hset keyMessage
                    ((λ i, (arg args (18 + i), arg args (42 + i))) <$> seq 0 24);
              _ ← cmd_hincrby keyQueueProperties (arg args 2) 1;
              mret "OK"
      end
  end.

(** ** The argument builder (internal/producer/publish_args.go) *)

(** [util.OrEmptyInt64]; [util.BoolToInt] as the argument it becomes. *)
Definition OrEmptyInt64 (v : option Z) : string := match v with Some z => itoa z | None => "" end.
Definition BoolToInt (b : bool) : Z := if b then 1 else 0.

Definition buildQueuePropertyArgs : list string :=
  [qkey Q_Type; qkey Q_MessagesCount; qkey Q_PendingMessagesCount; qkey Q_ScheduledMessagesCount;
   itoa TypePriority; itoa TypeLIFO; itoa TypeFIFO;
   qkey Q_OperationalState; qkey Q_LockID;
   itoa StateActive; itoa StatePaused; itoa StateStopped; itoa StateLocked].

Definition messagePropertyFields : list mfield :=
  [F_ID; F_Status; F_Message; F_ScheduledAt; F_PublishedAt; F_ProcessingStartedAt;
   F_DeadLetteredAt; F_AcknowledgedAt; F_UnacknowledgedAt; F_LastUnacknowledgedAt;
   F_LastScheduledAt; F_RequeuedAt; F_RequeueCount; F_LastRequeuedAt; F_LastRetriedAttemptAt;
   F_ScheduledCronFired; F_Attempts; F_ScheduledRepeatCount; F_Expired;
   F_EffectiveScheduledDelay; F_ScheduledTimes; F_ScheduledMessageParentID;
   F_RequeuedMessageParentID; F_LastProcessedAt].

Definition buildMessagePropertyKeys : list string := mkey <$> messagePropertyFields.

Definition priority_arg (e : Envelope) : string :=
  match m_priority (producibleMessage e) with Some p => itoa p | None => "" end.

(** The value stored under each field of a published message. *)
Definition message_value (e : Envelope) (f : mfield) : string :=
  let t := state_ToTransferable (messageState e) in
  match f with
  | F_ID => ID e
  | F_Status => itoa (status e)
  | F_Message => EncodeParams (env_ToParams e)
  | F_ScheduledAt => OrEmptyInt64 (t_ScheduledAt t)
  | F_PublishedAt => OrEmptyInt64 (t_PublishedAt t)
  | F_ProcessingStartedAt => OrEmptyInt64 (t_ProcessingStartedAt t)
  | F_DeadLetteredAt => OrEmptyInt64 (t_DeadLetteredAt t)
  | F_AcknowledgedAt => OrEmptyInt64 (t_AcknowledgedAt t)
  | F_UnacknowledgedAt => OrEmptyInt64 (t_UnacknowledgedAt t)
  | F_LastUnacknowledgedAt => OrEmptyInt64 (t_LastUnacknowledgedAt t)
  | F_LastScheduledAt => OrEmptyInt64 (t_LastScheduledAt t)
  | F_RequeuedAt => OrEmptyInt64 (t_RequeuedAt t)
  | F_RequeueCount => itoa (t_RequeueCount t)
  | F_LastRequeuedAt => OrEmptyInt64 (t_LastRequeuedAt t)
  | F_LastRetriedAttemptAt => OrEmptyInt64 (t_LastRetriedAttemptAt t)
  | F_ScheduledCronFired => itoa (BoolToInt (t_ScheduledCronFired t))
  | F_Attempts => itoa (t_Attempts t)
  | F_ScheduledRepeatCount => itoa (t_ScheduledRepeatCount t)
  | F_Expired => itoa (BoolToInt (t_Expired t))
  | F_EffectiveScheduledDelay => itoa (t_EffectiveScheduledDelay t)
  | F_ScheduledTimes => itoa (t_ScheduledTimes t)
  | F_ScheduledMessageParentID => t_ScheduledMessageParentID t
  | F_RequeuedMessageParentID => t_RequeuedMessageParentID t
  | F_LastProcessedAt => OrEmptyInt64 (t_LastProcessedAt t)
  end.

Definition BuildPublishArgs (e : Envelope) : list string :=
  buildQueuePropertyArgs ++
  [priority_arg e; OrEmptyInt64 (ScheduledAt (messageState e)); itoa StatusScheduled;
   itoa StatusPending] ++
  buildMessagePropertyKeys ++
  (message_value e <$> messagePropertyFields) ++
  [consumerGroupID e; ""].

(** ** Dispatch (internal/producer/producer.go) *)

Definition publish_keys (q : Queue) (e : Envelope) : list string :=
  let g := consumerGroupID e in
  [Properties q;
   if decide (g ≠ "") then PriorityWithGroup q g else Priority q;
   if decide (g ≠ "") then PendingWithGroup q g else Pending q;
   Scheduled q; Published q; ConsumerGroups q; Message (ID e)].

(** The envelope as it is sent: destination, status and timestamps set.  The
    clock is read three times; the boolean tells whether it is scheduled. *)
Definition dispatch_prepare gv gn (now now' now'' : Z) (e : Envelope) (q : QParams)
    : bool * Envelope :=
  let e := SetDestinationQueue (Some q) e in
  let '(next, e) := NextScheduledTimestamp gv gn now now' e in
  if decide (0 < next) then
    (true, SetMessageState
             (IncrScheduledTimes (SetLastScheduledAt (UnixMilli now'')
               (SetScheduledAt next (messageState e)))) (SetStatus StatusScheduled e))
  else (false, SetMessageState (SetPublishedAt (UnixMilli now'') (messageState e))
                 (SetStatus StatusPending e)).

Inductive publish_error :=
| ErrNotFound | ErrConsumerGroupNotFound | ErrPriorityRequired | ErrMessageAlreadyExists
| ErrPriorityNotEnabled | ErrUnknownQueueType | ErrNotOperational | ErrLocked
| ErrInvalidQueueState | ErrUnexpectedReply (reply : string) | ErrScript (err : rerr).

Definition publish_result (messageID reply : string) : publish_error + string :=
  if decide (reply = "OK") then inr messageID
  else if decide (reply = "QUEUE_NOT_FOUND") then inl ErrNotFound
  else if decide (reply = "CONSUMER_GROUP_NOT_FOUND") then inl ErrConsumerGroupNotFound
  else if decide (reply = "MESSAGE_PRIORITY_REQUIRED") then inl ErrPriorityRequired
  else if decide (reply = "MESSAGE_ALREADY_EXISTS") then inl ErrMessageAlreadyExists
  else if decide (reply = "PRIORITY_QUEUING_NOT_ENABLED") then inl ErrPriorityNotEnabled
  else if decide (reply = "UNKNOWN_QUEUE_TYPE") then inl ErrUnknownQueueType
  else if decide (reply = "QUEUE_STOPPED") then inl ErrNotOperational
  else if decide (reply = "QUEUE_LOCKED") then inl ErrLocked
  else if decide (reply = "QUEUE_INVALID_STATE") then inl ErrInvalidQueueState
  else inl (ErrUnexpectedReply reply).

(** The result, the events' condition (a published, unscheduled message) and
    the keyspace after. *)
Definition dispatch gv gn (now now' now'' : Z) (e : Envelope) (q : QParams) (s : store)
    : (publish_error + string) * bool * store :=
  let '(isScheduled, e) := dispatch_prepare gv gn now now' now'' e q in
  match publish_message (publish_keys (queue_keys_of q) e) (BuildPublishArgs e) s with
  | (Err err, s') => (inl (ErrScript err), false, s')
  | (Ret reply, s') =>
      (publish_result (ID e) reply, bool_decide (reply = "OK") && negb isScheduled, s')
  end.

(** ** Meaning of the arguments *)

(** The reply as a function of the queue's properties and groups. *)
Definition publish_reply (props : gmap string string) (groups : gset string) (e : Envelope)
    : string :=
  match props !! qkey Q_Type with
  | None => "QUEUE_NOT_FOUND"
  | Some ty =>
      let st := default (itoa StateActive) (props !! qkey Q_OperationalState) in
      if decide (st = itoa StateStopped) then "QUEUE_STOPPED"
      else if decide (st = itoa StateLocked) then "QUEUE_LOCKED"
      else if decide (st ≠ itoa StatePaused ∧ st ≠ itoa StateActive) then "QUEUE_INVALID_STATE"
      else if decide (consumerGroupID e ≠ "" ∧ consumerGroupID e ∉ groups)
      then "CONSUMER_GROUP_NOT_FOUND"
      else if decide (ty = itoa TypePriority ∧ priority_arg e = "")
      then "MESSAGE_PRIORITY_REQUIRED"
      else if decide (ty ≠ itoa TypePriority ∧ priority_arg e ≠ "")
      then "PRIORITY_QUEUING_NOT_ENABLED"
      else if decide (status e = StatusPending ∧ ty ≠ itoa TypePriority ∧
                      ty ≠ itoa TypeLIFO ∧ ty ≠ itoa TypeFIFO)
      then "UNKNOWN_QUEUE_TYPE"
      else "OK"
  end.

(** Where an accepted message goes. *)
Definition pending_key (q : Queue) (g : string) : string :=
  if decide (g ≠ "") then PendingWithGroup q g else Pending q.
Definition priority_key (q : Queue) (g : string) : string :=
  if decide (g ≠ "") then PriorityWithGroup q g else Priority q.

Definition enqueue (q : Queue) (ty : string) (e : Envelope) (s : store) : store :=
  let g := consumerGroupID e in
  if decide (status e = StatusPending) then
    if decide (ty = itoa TypePriority) then
      upd (priority_key q g)
        (zset_val (zinsert ((ParseInt (priority_arg e)).1, ID e)
                           (zremove (ID e) (zst s (priority_key q g))))) s
    else if decide (ty = itoa TypeLIFO) then
      upd (pending_key q g) (list_val (lst s (pending_key q g) ++ [ID e])) s
    else upd (pending_key q g) (list_val (ID e :: lst s (pending_key q g))) s
  else
    upd (Scheduled q)
      (zset_val (zinsert ((ParseInt (OrEmptyInt64 (ScheduledAt (messageState e)))).1, ID e)
                         (zremove (ID e) (zst s (Scheduled q))))) s.

Definition message_hash (e : Envelope) (h : gmap string string) : gmap string string :=
  hset_all ((λ f, (mkey f, message_value e f)) <$> messagePropertyFields) h.

Definition status_counter (st : Z) : qfield :=
  if decide (st = StatusPending) then Q_PendingMessagesCount else Q_ScheduledMessagesCount.

Definition publish_effect (q : Queue) (ty : string) (e : Envelope) (s : store) : store :=
  let s := add_counter q (status_counter (status e)) 1 (enqueue q ty e s) in
  let s := upd (Published q) (list_val (lst s (Published q) ++ [ID e])) s in
  let s := upd (Message (ID e)) (hash_val (message_hash e (hsh s (Message (ID e))))) s in
  add_counter q Q_MessagesCount 1 s.

(** The same with other values [v] of the fields: the scripts that publish a
    copy of a message build its fields themselves. *)
Definition publish_args (v : mfield → string) (e : Envelope) : list string :=
  buildQueuePropertyArgs ++
  [priority_arg e; OrEmptyInt64 (ScheduledAt (messageState e)); itoa StatusScheduled;
   itoa StatusPending] ++
  buildMessagePropertyKeys ++ (v <$> messagePropertyFields) ++ [consumerGroupID e; ""].

Definition publish_effect_as (v : mfield → string) (q : Queue) (ty : string) (e : Envelope)
    (s : store) : store :=
  let s := add_counter q (status_counter (status e)) 1 (enqueue q ty e s) in
  let s := upd (Published q) (list_val (lst s (Published q) ++ [ID e])) s in
  let s := upd (Message (ID e))
             (hash_val (hset_all ((λ f, (mkey f, v f)) <$> messagePropertyFields)
                          (hsh s (Message (ID e))))) s in
  add_counter q Q_MessagesCount 1 s.

(** The envelope can be published: its identifier and group are key parts, and
    a scheduled one has its time. *)
Record publishable (e : Envelope) : Prop := {
  pb_id : no_colon (ID e) = true;
  pb_group : no_colon (consumerGroupID e) = true;
  pb_priority : ∀ p, m_priority (producibleMessage e) = Some p → in_int64 p;
  pb_time : status e ≠ StatusPending →
            ∃ t, ScheduledAt (messageState e) = Some t ∧ in_int64 t
}.

#[export] Hint Resolve pb_id pb_group : smq.

(** The script's positions hold what its local names say. *)
Lemma publish_layout e :
  let args := BuildPublishArgs e in
  (arg args 1, arg args 2, arg args 3, arg args 4) =
    (qkey Q_Type, qkey Q_MessagesCount, qkey Q_PendingMessagesCount, qkey Q_ScheduledMessagesCount) ∧
  (arg args 5, arg args 6, arg args 7) = (itoa TypePriority, itoa TypeLIFO, itoa TypeFIFO) ∧
  (arg args 8, arg args 9) = (qkey Q_OperationalState, qkey Q_LockID) ∧
  (arg args 10, arg args 11, arg args 12, arg args 13) =
    (itoa StateActive, itoa StatePaused, itoa StateStopped, itoa StateLocked) ∧
  (arg args 14, arg args 15, arg args 17) =
    (priority_arg e, OrEmptyInt64 (ScheduledAt (messageState e)), itoa StatusPending) ∧
  (arg args 42, arg args 43, arg args 66, arg args 67) =
    (ID e, itoa (status e), consumerGroupID e, "") ∧
  (λ i, (arg args (18 + i), arg args (42 + i))) <$> seq 0 24 =
    (λ f, (mkey f, message_value e f)) <$> messagePropertyFields ∧
  length args = 67%nat.
Proof. repeat split; reflexivity. Qed.

Lemma priority_arg_parse e :
  publishable e → priority_arg e ≠ "" →
  ∃ p, ParseInt (priority_arg e) = (p, None).
Proof.
  intros Hp Hne. unfold priority_arg in *. destruct (m_priority _) as [p|] eqn:E; [|done].
  exists p. apply ParseInt_itoa. by eapply pb_priority.
Qed.

Lemma priority_key_wf q g :
  wf_queue q → no_colon g = true →
  ∃ k, wf_key k ∧ key_type k = TZSet ∧ priority_key q g = render_key k ∧
       (k = KPriority q ∨ k = KPriorityWithGroup q g).
Proof.
  intros Hq Hg. unfold priority_key. case_decide.
  - exists (KPriorityWithGroup q g). repeat split; auto. wf_parts.
  - exists (KPriority q). repeat split; auto. wf_parts.
Qed.

Lemma pending_key_wf q g :
  wf_queue q → no_colon g = true →
  ∃ k, wf_key k ∧ key_type k = TList ∧ pending_key q g = render_key k ∧
       (k = KPending q ∨ k = KPendingWithGroup q g).
Proof.
  intros Hq Hg. unfold pending_key. case_decide.
  - exists (KPendingWithGroup q g). repeat split; auto. wf_parts.
  - exists (KPending q). repeat split; auto. wf_parts.
Qed.

(** The one key [enqueue] writes. *)
Definition enqueue_key (q : Queue) (ty : string) (e : Envelope) : redis_key :=
  let g := consumerGroupID e in
  if decide (status e = StatusPending) then
    if decide (ty = itoa TypePriority) then
      if decide (g ≠ "") then KPriorityWithGroup q g else KPriority q
    else if decide (g ≠ "") then KPendingWithGroup q g else KPending q
  else KScheduled q.

Lemma enqueue_upd q ty e s :
  wf_queue q → publishable e →
  ∃ ov, enqueue q ty e s = upd (render_key (enqueue_key q ty e)) ov s ∧
        has_type (key_type (enqueue_key q ty e)) ov ∧ wf_key (enqueue_key q ty e).
Proof.
  intros Hq [Hid Hg _ _]. unfold enqueue, enqueue_key, priority_key, pending_key.
  repeat case_decide; eexists; (split; [done|]); (split; [|wf_parts]); simpl;
    rewrite ?as_zset_val, ?as_list_val; by eexists.
Qed.

Lemma enqueue_key_ne q ty e :
  enqueue_key q ty e ≠ KProperties q ∧ enqueue_key q ty e ≠ KPublished q ∧
  ∀ id, enqueue_key q ty e ≠ KMessage id.
Proof. unfold enqueue_key. repeat case_decide; repeat split; discriminate. Qed.

Section enqueue_facts.
Context (q : Queue) (ty : string) (e : Envelope) (s : store).
Context (Hs : wt s) (Hq : wf_queue q) (He : publishable e).

Lemma enqueue_wt : wt (enqueue q ty e s).
Proof using Hs Hq He.
  destruct (enqueue_upd q ty e s Hq He) as (ov & -> & Ht & Hw). by apply wt_upd.
Qed.

Lemma enqueue_other k :
  wf_key k → k ≠ enqueue_key q ty e → db (enqueue q ty e s) !! render_key k = db s !! render_key k.
Proof using Hq He.
  intros Hk Hne. destruct (enqueue_upd q ty e s Hq He) as (ov & -> & Ht & Hw).
  apply lookup_upd_ne. apply render_key_ne; by auto.
Qed.

Lemma enqueue_props : hsh (enqueue q ty e s) (Properties q) = hsh s (Properties q).
Proof using Hq He.
  unfold hsh. assert (db (enqueue q ty e s) !! Properties q = db s !! Properties q) as ->; [|done].
  apply (enqueue_other (KProperties q)); [wf_parts|]. intros E. symmetry in E. by apply enqueue_key_ne in E.
Qed.
Lemma enqueue_published : lst (enqueue q ty e s) (Published q) = lst s (Published q).
Proof using Hq He.
  unfold lst. assert (db (enqueue q ty e s) !! Published q = db s !! Published q) as ->; [|done].
  apply (enqueue_other (KPublished q)); [wf_parts|]. intros E. symmetry in E. by apply enqueue_key_ne in E.
Qed.
Lemma enqueue_message id :
  no_colon id = true → hsh (enqueue q ty e s) (Message id) = hsh s (Message id).
Proof using Hq He.
  intros Hid. unfold hsh. assert (db (enqueue q ty e s) !! Message id = db s !! Message id) as ->; [|done].
  apply (enqueue_other (KMessage id)); [wf_parts|]. intros E. symmetry in E. by apply enqueue_key_ne in E.
Qed.
Lemma enqueue_requeued : lst (enqueue q ty e s) (Requeued q) = lst s (Requeued q).
Proof using Hq He.
  unfold lst. assert (db (enqueue q ty e s) !! Requeued q = db s !! Requeued q) as ->; [|done].
  apply (enqueue_other (KRequeued q)); [wf_parts|]. unfold enqueue_key. by repeat case_decide.
Qed.
Lemma enqueue_delayed : zst (enqueue q ty e s) (Delayed q) = zst s (Delayed q).
Proof using Hq He.
  unfold zst. assert (db (enqueue q ty e s) !! Delayed q = db s !! Delayed q) as ->; [|done].
  apply (enqueue_other (KDelayed q)); [wf_parts|]. unfold enqueue_key. by repeat case_decide.
Qed.
(** A member of the scheduled set was there before, or is the new message. *)
Lemma enqueue_scheduled i :
  i ∈ (zst (enqueue q ty e s) (Scheduled q)).*2 →
  (i = ID e ∧ status e ≠ StatusPending) ∨ i ∈ (zst s (Scheduled q)).*2.
Proof using Hq He.
  intros Hi. destruct (decide (status e = StatusPending)) as [E|E].
  - right. unfold zst in *. assert (db (enqueue q ty e s) !! Scheduled q = db s !! Scheduled q) as <-; [|done].
    apply (enqueue_other (KScheduled q)); [wf_parts|]. unfold enqueue_key.
    rewrite decide_True by done. by repeat case_decide.
  - unfold enqueue in Hi. rewrite decide_False in Hi by done. rewrite zst_upd, elem_of_zadd in Hi. tauto.
Qed.
End enqueue_facts.

(** The counters a publication moves are integers that can be incremented. *)
Definition publish_counters (s : store) (q : Queue) (e : Envelope) : Prop :=
  counter_ok s q (status_counter (status e)) 1 ∧ counter_ok s q Q_MessagesCount 1.

Lemma status_counter_ne st : status_counter st ≠ Q_MessagesCount.
Proof. unfold status_counter. by case_decide. Qed.

(** The part of the script after the checks. *)
Lemma publish_tail_run v q ty e s :
  wt s → wf_queue q → publishable e → publish_counters s q e →
  (_ ← cmd_hincrby (Properties q) (qkey (status_counter (status e))) 1;
   _ ← cmd_rpush (Published q) [ID e];
   _ ← cmd_hset (Message (ID e)) ((λ f, (mkey f, v f)) <$> messagePropertyFields);
   _ ← cmd_hincrby (Properties q) (qkey Q_MessagesCount) 1;
   mret "OK") (enqueue q ty e s) = (Ret "OK", publish_effect_as v q ty e s).
Proof.
  intros Hs Hq He [Hc1 Hc2].
  pose proof (enqueue_wt q ty e s Hs Hq He) as Hw.
  pose proof (enqueue_props q ty e s Hq He) as Hp.
  erewrite bind_Ret; [|apply hincrby_counter; [wt_view|by eapply counter_ok_hsh]].
  unfold publish_effect_as. cbv zeta. unfold add_counter at 2 3.
  erewrite bind_Ret; [|apply rpush_run; wt_view].
  erewrite bind_Ret; [|apply hset_run; wt_view].
  erewrite bind_Ret; [done|]. apply hincrby_counter; [wt_view|].
  apply (counter_ok_hsh (add_counter q (status_counter (status e)) 1 (enqueue q ty e s))).
  - unfold add_counter at 1. by views.
  - apply counter_ok_ne; [apply status_counter_ne|]. by eapply counter_ok_hsh.
Qed.

Lemma bind_assoc {A B C} (m : M A) (f : A → M B) (g : B → M C) s :
  ((m ≫= f) ≫= g) s = (m ≫= λ a, f a ≫= g) s.
Proof. unfold mbind, M_bind. by destruct (m s) as [[]]. Qed.

(** Replaces each argument position by what the Go code put there. *)
Ltac eval_args :=
  repeat match goal with
  | |- context [arg ?l ?i] =>
      let v := eval cbv [arg nth Nat.sub Nat.add publish_args buildQueuePropertyArgs
                         buildMessagePropertyKeys app publish_keys fmap list_fmap
                         messagePropertyFields] in (arg l i) in
      change (arg l i) with v
  end.

(** The writing part of the script, after its checks. *)
Definition publish_body (v : mfield → string) (q : Queue) (ty : string) (e : Envelope) : M string :=
  accepted ←
    (if decide (itoa (status e) = itoa StatusPending) then
       pushed ←
         (if decide (ty = itoa TypePriority) then
            _ ← cmd_zadd (priority_key q (consumerGroupID e)) (priority_arg e) (ID e); mret true
          else if decide (ty = itoa TypeLIFO) then
            _ ← cmd_rpush (pending_key q (consumerGroupID e)) [ID e]; mret true
          else if decide (ty = itoa TypeFIFO) then
            _ ← cmd_lpush (pending_key q (consumerGroupID e)) (ID e); mret true
          else mret false);
       if (pushed : bool) then
         _ ← cmd_hincrby (Properties q) (qkey Q_PendingMessagesCount) 1; mret true
       else mret false
     else
       _ ← cmd_zadd (Scheduled q) (OrEmptyInt64 (ScheduledAt (messageState e))) (ID e);
       _ ← cmd_hincrby (Properties q) (qkey Q_ScheduledMessagesCount) 1;
       mret true);
  if negb accepted then mret "UNKNOWN_QUEUE_TYPE"
  else
    _ ← cmd_rpush (Published q) [ID e];
    _ ← cmd_hset (Message (ID e)) ((λ f, (mkey f, v f)) <$> messagePropertyFields);
    _ ← cmd_hincrby (Properties q) (qkey Q_MessagesCount) 1;
    mret "OK".

(** Steps over a [mret true] that a test follows. *)
Ltac bind_true :=
  cbv beta; erewrite bind_Ret; [|apply ret_run]; cbv iota beta; rewrite bind_assoc.

Lemma publish_body_run v q ty e s :
  wt s → wf_queue q → publishable e → publish_counters s q e →
  (ty = itoa TypePriority → priority_arg e ≠ "") →
  publish_body v q ty e s =
    if decide (status e = StatusPending ∧ ty ≠ itoa TypePriority ∧
               ty ≠ itoa TypeLIFO ∧ ty ≠ itoa TypeFIFO)
    then (Ret "UNKNOWN_QUEUE_TYPE", s) else (Ret "OK", publish_effect_as v q ty e s).
Proof.
  intros Hs Hq He Hc Hprio. pose proof (publish_tail_run v q ty e s Hs Hq He Hc) as Ht.
  unfold publish_body. unfold status_counter in Ht.
  destruct (priority_key_wf q (consumerGroupID e) Hq (pb_group e He)) as (kp & Wp & Tp & Ep & _).
  destruct (pending_key_wf q (consumerGroupID e) Hq (pb_group e He)) as (kl & Wl & Tl & El & _).
  destruct (decide (itoa (status e) = itoa StatusPending)) as [Hst%(inj itoa)|Hst].
  - unfold enqueue in Ht. rewrite !(decide_True (P := status e = StatusPending)) in Ht by done.
    destruct (decide (ty = itoa TypePriority)) as [Hty|Hty].
    + rewrite decide_False by naive_solver.
      destruct (priority_arg_parse e He (Hprio Hty)) as [p Hp]. rewrite Hp in Ht. cbn [fst] in Ht.
      cbv iota; rewrite !bind_assoc.
      erewrite bind_Ret; [|apply zadd_run; [rewrite Ep; by apply wt_zset|done]].
      bind_true. exact Ht.
    + destruct (decide (ty = itoa TypeLIFO)) as [Hl|Hl].
      * rewrite decide_False by naive_solver. cbv iota; rewrite !bind_assoc.
        erewrite bind_Ret; [|apply rpush_run; rewrite El; by apply wt_list].
        bind_true. exact Ht.
      * destruct (decide (ty = itoa TypeFIFO)) as [Hf|Hf].
        -- rewrite decide_False by naive_solver. cbv iota; rewrite !bind_assoc.
           erewrite bind_Ret; [|apply lpush_run; rewrite El; by apply wt_list].
           bind_true. exact Ht.
        -- by rewrite decide_True by naive_solver.
  - assert (status e ≠ StatusPending) as Hne by congruence.
    rewrite (decide_False (P := _ ∧ _)) by naive_solver.
    unfold enqueue in Ht. rewrite !(decide_False (P := status e = StatusPending)) in Ht by done.
    destruct (pb_time e He Hne) as (t & Et & Hr). rewrite Et in Ht |- *. simpl in Ht |- *.
    rewrite ParseInt_itoa in Ht by done. cbv iota; rewrite !bind_assoc.
    erewrite bind_Ret; [|apply zadd_run; [wt_view|by apply ParseInt_itoa]].
    cbv beta. rewrite bind_assoc. exact Ht.
Qed.

(** What the script does with such arguments, on every branch. *)
Lemma publish_run_as v q e s :
  v F_ID = ID e → v F_Status = itoa (status e) →
  wt s → wf_queue q → publishable e → publish_counters s q e →
  publish_message (publish_keys q e) (publish_args v e) s =
    (let reply := publish_reply (hsh s (Properties q)) (sts s (ConsumerGroups q)) e in
     (Ret reply,
      if decide (reply = "OK")
      then publish_effect_as v q (default "" (hsh s (Properties q) !! qkey Q_Type)) e s else s)).
Proof.
  intros Hvi Hvs Hs Hq He Hc.
  unfold publish_message, publish_state_check.
  change ((λ i, (arg (publish_args v e) (18 + i), arg (publish_args v e) (42 + i))) <$> seq 0 24)
    with ((λ f, (mkey f, v f)) <$> messagePropertyFields).
  eval_args. cbv zeta. rewrite Hvi, Hvs. set (fields := _ <$> messagePropertyFields).
  erewrite bind_Ret; [|apply hmget_run; wt_view].
  unfold reply_at, publish_reply. simpl. subst fields.
  destruct (hsh s (Properties q) !! qkey Q_Type) as [ty|]; [simpl|by rewrite decide_False].
  fold (priority_key q (consumerGroupID e)) (pending_key q (consumerGroupID e)).
  set (st := default _ _).
  destruct (decide (st = itoa StateStopped)); [by rewrite decide_False|].
  destruct (decide (st = itoa StateLocked)); [by rewrite decide_False|].
  assert (∀ X Y : option string, (if decide (st = itoa StatePaused) then X
    else if decide (st = itoa StateActive) then X else Y) =
    if decide (st ≠ itoa StatePaused ∧ st ≠ itoa StateActive) then Y else X) as ->.
  { intros X Y. repeat case_decide; naive_solver. }
  destruct (decide (st ≠ itoa StatePaused ∧ _)); [by rewrite decide_False|].
  assert ((if decide (consumerGroupID e ≠ "") then
             cmd_sismember (ConsumerGroups q) (consumerGroupID e) else mret true) s =
          (Ret (bool_decide (¬ (consumerGroupID e ≠ "" ∧ consumerGroupID e ∉ sts s (ConsumerGroups q)))), s))
    as Hg.
  { case_decide as Hne.
    - rewrite sismember_run by wt_view. do 2 f_equal. apply bool_decide_ext.
      destruct (decide (consumerGroupID e ∈ sts s (ConsumerGroups q))); naive_solver.
    - rewrite bool_decide_eq_true_2; [done|]. naive_solver. }
  erewrite bind_Ret; [|exact Hg].
  destruct (decide (consumerGroupID e ≠ "" ∧ _)) as [Hn|Hn].
  { rewrite bool_decide_eq_false_2 by naive_solver. done. }
  rewrite bool_decide_eq_true_2 by done. cbn [negb].
  destruct (decide (ty = itoa TypePriority ∧ _)) as [Hp1|Hp1]; [by rewrite decide_False|].
  destruct (decide (ty ≠ itoa TypePriority ∧ _)) as [Hp2|Hp2]; [by rewrite decide_False|].
  etrans; [apply (publish_body_run v q ty e s); done || naive_solver|].
  by destruct (decide (status e = StatusPending ∧ _)).
Qed.

(** With the arguments built by the producer. *)
Lemma publish_run q e s :
  wt s → wf_queue q → publishable e → publish_counters s q e →
  publish_message (publish_keys q e) (BuildPublishArgs e) s =
    (let reply := publish_reply (hsh s (Properties q)) (sts s (ConsumerGroups q)) e in
     (Ret reply,
      if decide (reply = "OK")
      then publish_effect q (default "" (hsh s (Properties q) !! qkey Q_Type)) e s else s)).
Proof. exact (publish_run_as (message_value e) q e s eq_refl eq_refl). Qed.

(** *** The stored hash *)

Lemma hset_all_lookup_fields (v : mfield → string) fs h f :
  NoDup fs →
  hset_all ((λ f, (mkey f, v f)) <$> fs) h !! mkey f =
  if decide (f ∈ fs) then Some (v f) else h !! mkey f.
Proof.
  unfold hset_all. revert h. induction fs as [|g fs IH]; intros h Hnd.
  - by rewrite decide_False by apply not_elem_of_nil.
  - apply NoDup_cons in Hnd as [Hg Hnd]. simpl. rewrite IH by done.
    destruct (decide (f ∈ fs)) as [Hin|Hin].
    + by rewrite decide_True by set_solver.
    + destruct (decide (f = g)) as [->|Hne].
      * by rewrite lookup_insert_eq, decide_True by set_solver.
      * rewrite lookup_insert_ne by (by intros ?%(inj mkey)).
        by rewrite decide_False by set_solver.
Qed.

Lemma messagePropertyFields_NoDup : NoDup messagePropertyFields.
Proof. apply (bool_decide_unpack _). vm_compute. exact I. Qed.

Lemma messagePropertyFields_all f : f ∈ messagePropertyFields.
Proof. apply (bool_decide_unpack _). destruct f; vm_compute; exact I. Qed.

Lemma message_hash_lookup e h f : message_hash e h !! mkey f = Some (message_value e f).
Proof.
  unfold message_hash. rewrite hset_all_lookup_fields by apply messagePropertyFields_NoDup.
  by rewrite decide_True by apply messagePropertyFields_all.
Qed.

Lemma OrEmpty_stamp o :
  canonical_ts o → OrEmptyInt64 (UnixMilli <$> o) = default "" (stamp (UnixMilli <$> o)).
Proof. destruct o as [t|]; [|done]. intros [_ H]. simpl. by rewrite decide_True by lia. Qed.

Lemma message_value_state e f :
  canonical_state (messageState e) → f ≠ F_Status → f ≠ F_Message →
  message_value e f = default "" (state_field f (messageState e)).
Proof.
  intros [] Hs Hm. destruct f; try done; try (by apply OrEmpty_stamp); simpl; unfold nonempty.
  - by destruct (st_scheduledCronFired _).
  - by destruct (st_expired _).
  - by case_decide.
  - by case_decide.
Qed.

(** Every refusal has an error of its own. *)
Lemma refusal_error props groups e id :
  publish_reply props groups e ≠ "OK" →
  ∃ err, publish_result id (publish_reply props groups e) = inl err ∧
    err ≠ ErrMessageAlreadyExists ∧
    (∀ x, err ≠ ErrUnexpectedReply x) ∧ (∀ x, err ≠ ErrScript x).
Proof.
  unfold publish_reply. intros H. destruct (props !! qkey Q_Type); [|by eexists].
  repeat (case_decide; [by eexists|]). done.
Qed.

(** *** Properties *)

(** C2: publication on every branch.  With the arguments the Go code builds,
    the script returns the reply the queue's properties call for (missing
    queue, stopped, locked, unknown state, unknown group, priority missing or
    not allowed, unknown type, or OK); on OK it has enqueued the message,
    listed it as published, stored its 24 fields and moved the two counters,
    and on any other reply the keyspace is untouched. *)
Theorem publish_message_correct q e s :
  wt s → wf_queue q → publishable e → publish_counters s q e →
  let reply := publish_reply (hsh s (Properties q)) (sts s (ConsumerGroups q)) e in
  publish_message (publish_keys q e) (BuildPublishArgs e) s =
    (Ret reply,
     if decide (reply = "OK")
     then publish_effect q (default "" (hsh s (Properties q) !! qkey Q_Type)) e s else s).
Proof. exact (publish_run q e s). Qed.

(** A FIFO queue with no messages yet, and a message for it. *)
Definition fifo_store : store :=
  put_hash (Properties sample_queue)
    (<[qkey Q_Type := itoa TypeFIFO]> (<[qkey Q_OperationalState := itoa StateActive]> ∅)) empty_store.

Lemma fifo_store_wt : wt fifo_store.
Proof.
  apply (wt_upd_hash _ (KProperties sample_queue)); [apply wt_empty| |done].
  apply (bool_decide_unpack _). vm_compute. exact I.
Qed.

Definition pending_envelope (id : string) : Envelope :=
  SetStatus StatusPending (SetDestinationQueue (Some sample_params)
    (NewEnvelope id (SetQueue (Some sample_params) (New DefaultConsumeOptions 1000000)))).

Lemma pending_publishable : publishable (pending_envelope "m1").
Proof.
  split; try reflexivity.
  - intros p H. vm_compute in H. discriminate H.
  - intros H. exfalso. apply H. reflexivity.
Qed.

Lemma fifo_counters : publish_counters fifo_store sample_queue (pending_envelope "m1").
Proof. repeat split; vm_compute; discriminate. Qed.

Lemma sample_queue_wf : wf_queue sample_queue.
Proof. split; reflexivity. Qed.

Lemma publish_message_correct_witness :
  publish_message (publish_keys sample_queue (pending_envelope "m1"))
    (BuildPublishArgs (pending_envelope "m1")) fifo_store =
  (Ret "OK", publish_effect sample_queue (itoa TypeFIFO) (pending_envelope "m1") fifo_store).
Proof.
  exact (publish_message_correct sample_queue (pending_envelope "m1") fifo_store
           fifo_store_wt sample_queue_wf pending_publishable fifo_counters).
Defined.

(** A publication that is refused changes nothing: when [dispatch] reports
    any of its errors the keyspace is the one before, and when it succeeds it
    returns the message's identifier. *)
Theorem dispatch_atomic gv gn now now' now'' e q s r ev s' :
  let e' := (dispatch_prepare gv gn now now' now'' e q).2 in
  wt s → wf_queue (queue_keys_of q) → publishable e' →
  publish_counters s (queue_keys_of q) e' →
  dispatch gv gn now now' now'' e q s = (r, ev, s') →
  match r with
  | inr id => id = ID e' ∧ hsh s' (Message id) !! mkey F_Status = Some (itoa (status e'))
  | inl err => s' = s ∧ err ≠ ErrMessageAlreadyExists ∧
               (∀ x, err ≠ ErrUnexpectedReply x) ∧ (∀ x, err ≠ ErrScript x)
  end.
Proof.
  unfold dispatch. destruct (dispatch_prepare gv gn now now' now'' e q) as [b e']. simpl.
  intros Hs Hq He Hc. rewrite publish_run by done. cbv zeta.
  set (reply := publish_reply _ _ _). intros [= <- <- <-].
  destruct (decide (reply = "OK")) as [Hr|Hr].
  2: { destruct (refusal_error _ _ _ (ID e') Hr) as (err & Herr & H1).
       fold reply in Herr. by rewrite Herr. }
  rewrite Hr. split; [done|]. unfold publish_effect, add_counter.
  rewrite hsh_upd_ne by key_ne. rewrite hsh_upd. apply message_hash_lookup.
Qed.

Lemma dispatch_atomic_witness :
  let e := NewEnvelope "m1" (SetQueue (Some sample_params) (New DefaultConsumeOptions 1000000)) in
  let r := dispatch (λ _, true) (λ _ _, None) 5 5 5 e sample_params empty_store in
  r.1.1 = inl ErrNotFound ∧ r.2 = empty_store.
Proof.
  intros e r. split; [reflexivity|].
  refine (proj1 (dispatch_atomic (λ _, true) (λ _ _, None) 5 5 5 e sample_params empty_store
            (inl ErrNotFound) false empty_store wt_empty _ _ _ eq_refl)).
  - split; reflexivity.
  - split; try reflexivity; [intros p H; vm_compute in H; discriminate H|].
    intros H. exfalso. apply H. reflexivity.
  - repeat split; vm_compute; discriminate.
Defined.


Lemma pending_storable : storable DefaultConsumeOptions (pending_envelope "m1").
Proof.
  split.
  - split; vm_compute; try discriminate; auto.
  - split; vm_compute; [discriminate|auto].
  - split; try (intros ? H; vm_compute in H; discriminate H); vm_compute; reflexivity.
  - split; vm_compute; try exact I; split; discriminate.
  - split; try (intros ? H; vm_compute in H; discriminate H); vm_compute; split; discriminate.
  - vm_compute. split; discriminate.
  - left. reflexivity.
Qed.

