(* ===== verification/Consume.v ===== *)
(** * Consuming messages

    The scripts core/checkout-message.lua, core/acknowledge-message.lua,
    core/unacknowledge-message.lua and commands/zpoplpush.lua, and the Go code
    that calls them: internal/consumer/dequeue_message.go, batch_acker.go,
    message_unacknowledger.go and unacknowledge.go.

    [now] is the clock of the machine that runs the code in nanoseconds;
    [rnow] is the Redis clock in milliseconds, which [PEXPIRE] adds to.  The
    blocking variant of the pop waits until there is an element and then
    behaves like the other. *)

From S2P Require Import Prelude Keys Redis RedisFacts Types Keyspace Json Message MessageCodec Publish.
#[local] Open Scope Z_scope.

(** ** Shared script fragments *)

(** The state test of the three scripts, [None] when the operation may go on. *)
Definition state_check (currentState active paused stopped locked : string) : option string :=
  if decide (currentState = stopped) then Some "QUEUE_STOPPED"
  else if decide (currentState = locked) then Some "QUEUE_LOCKED"
  else if decide (currentState = paused ∨ currentState = active) then None
  else Some "QUEUE_INVALID_STATE".

(** [LTRIM key start stop] with [start] as it arrives in ARGV. *)
Definition cmd_ltrim_text (k start : string) (stop : Z) : M unit :=
  match string2ll start with Some a => cmd_ltrim k a stop | None => throw NOTINT end.

(** Appends to an audit list and applies its expiry and size limits. *)
Definition store_audit (rnow : Z) (key : string) (ids : list string) (expire size : string) : M unit :=
  _ ← cmd_rpush key ids;
  _ ← when (bool_decide (expire ≠ "0")) (_ ← cmd_pexpire rnow key expire; mret tt);
  when (bool_decide (size ≠ "0")) (cmd_ltrim_text key size (-1)).

(** ** commands/zpoplpush.lua *)

Definition zpoplpush (keys : list string) : M (option string) :=
  let keySortedSet := arg keys 1 in
  let keyList := arg keys 2 in
  ex ← cmd_exists keySortedSet;
  if (ex : bool) then
    result ← cmd_zrange00 keySortedSet;
    match result with
    | Some messageId =>
        _ ← cmd_zrem keySortedSet messageId;
        _ ← cmd_lpush keyList messageId;
        mret (Some messageId)
    | None => throw WRONGTYPE
    end
  else mret None.

(** ** core/checkout-message.lua *)

Definition checkout_message (keys args : list string) : M (string + gmap string string) :=
  let keyMessage := arg keys 1 in
  let keyQueueProperties := arg keys 2 in
  let startedAt := arg args 3 in
  st ← cmd_hget keyQueueProperties (arg args 10);
  match state_check (default (arg args 11) st) (arg args 11) (arg args 12) (arg args 13)
          (arg args 14) with
  | Some reply => mret (inl reply)
  | None =>
      messageProps ← cmd_hmget keyMessage [arg args 4; arg args 1];
      match reply_at messageProps 1 with
      | None => mret (inl "MESSAGE_NOT_FOUND")
      | Some status =>
          if decide (status ≠ arg args 6) then mret (inl "MESSAGE_NOT_PENDING")
          else
            _ ← (if decide (reply_at messageProps 2 = Some "") then
                   cmd_hset keyMessage [(arg args 4, arg args 5); (arg args 1, startedAt);
                                        (arg args 2, startedAt)]
                 else
                   cmd_hset keyMessage [(arg args 4, arg args 5); (arg args 2, startedAt)]);
            _ ← cmd_hincrby keyMessage (arg args 7) 1;
            _ ← cmd_hincrby keyQueueProperties (arg args 8) 1;
            _ ← cmd_hincrby keyQueueProperties (arg args 9) (-1);
            h ← cmd_hgetall keyMessage;
            mret (inr h)
      end
  end.

(** ** core/acknowledge-message.lua *)

(** One turn of the loop: the message at position [i] of the batch. *)
Definition ack_turn (keys args : list string) (acc : list Z * Z * list string) (i : nat)
    : M (list Z * Z * list string) :=
  let '(results, ackCount, acknowledgedIds) := acc in
  let messageId := arg args (14 + i) in
  let keyMessage := arg keys (3 + i) in
  removed ← cmd_lrem1 (arg keys 1) messageId;
  if decide (0 < removed) then
    _ ← cmd_hset keyMessage [(arg args 10, arg args 11); (arg args 12, arg args 4)];
    mret (results ++ [1], ackCount + 1, acknowledgedIds ++ [messageId])
  else mret (results ++ [0], ackCount, acknowledgedIds).

Definition acknowledge_message (rnow : Z) (keys args : list string) : M (string + list Z) :=
  let keyQueueAcknowledged := arg keys 2 in
  let keyQueueProperties := arg keys 3 in
  ex ← cmd_exists keyQueueProperties;
  if negb ex then mret (inl "QUEUE_NOT_FOUND")
  else
    st ← cmd_hget keyQueueProperties (arg args 5);
    match state_check (default (arg args 6) st) (arg args 6) (arg args 7) (arg args 8)
            (arg args 9) with
    | Some reply => mret (inl reply)
    | None =>
        acc ← foldM (ack_turn keys args) ([], 0, []) (seq 1 (length args - 14));
        let '(results, ackCount, acknowledgedIds) := acc in
        _ ← when (bool_decide (0 < ackCount))
              (_ ← cmd_hincrby keyQueueProperties (arg args 13) ackCount;
               _ ← cmd_hincrby keyQueueProperties (arg args 14) (- ackCount);
               when (bool_decide (arg args 1 = "1"))
                 (store_audit rnow keyQueueAcknowledged acknowledgedIds (arg args 2) (arg args 3)));
        mret (inr results)
    end.

(** ** core/unacknowledge-message.lua *)

Record unack_acc := { u_processed : Z; u_deadLettered : Z; u_requeued : Z }.

(** Where the message goes: its new status, the list or lists it is put on, and
    the counters. *)
Definition unack_route (rnow : Z) (keys args : list string) (messageId retryAction : string)
    (acc : unack_acc) : M (string * unack_acc) :=
  if decide (retryAction = arg args 2 ∨ retryAction = arg args 1) then
    _ ← cmd_rpush (arg keys 1) [messageId];
    mret (arg args 10, {| u_processed := u_processed acc; u_deadLettered := u_deadLettered acc;
                          u_requeued := u_requeued acc + 1 |})
  else
    _ ← when (bool_decide (arg args 3 = "1"))
          (store_audit rnow (arg keys 2) [messageId] (arg args 4) (arg args 5));
    mret (arg args 11, {| u_processed := u_processed acc;
                          u_deadLettered := u_deadLettered acc + 1;
                          u_requeued := u_requeued acc |}).

(** The history record: newest first, bounded and with its expiry. *)
Definition unack_history (rnow : Z) (args : list string) (keyMessage keyHistory record : string)
    : M unit :=
  when (bool_decide (record ≠ ""))
    (let maxHistorySize := (ParseInt (arg args 21)).1 in
     _ ← cmd_lpush keyHistory record;
     _ ← when (bool_decide (0 < maxHistorySize)) (cmd_ltrim keyHistory 0 (maxHistorySize - 1));
     _ ← when (bool_decide (arg args 4 ≠ "0")) (_ ← cmd_pexpire rnow keyHistory (arg args 4); mret tt);
     _ ← cmd_hincrby keyMessage "unacknowledgedCount" 1;
     mret tt).

(** One turn of the loop: the [i]-th message of the batch, counted from 0. *)
Definition unack_turn (rnow : Z) (keys args : list string) (acc : unack_acc) (i : nat)
    : M unack_acc :=
  let base := (22 + 7 * i)%nat in
  let kbase := (4 + 3 * i)%nat in
  let messageId := arg args base in
  let keyMessage := arg keys (kbase + 1) in
  if decide (messageId = "") then mret acc
  else
    removed ← cmd_lrem1 (arg keys kbase) messageId;
    if decide (removed = 1) then
      routed ← unack_route rnow keys args messageId (arg args (base + 1)) acc;
      let '(status, acc) := routed in
      _ ← unack_history rnow args keyMessage (arg keys (kbase + 2)) (arg args (base + 6));
      _ ← cmd_hset keyMessage
            [(arg args 6, status); (arg args 13, arg args (base + 4));
             (arg args 14, arg args (base + 5)); (arg args 12, arg args (base + 2));
             (arg args 15, arg args (base + 3))];
      mret {| u_processed := u_processed acc + 1; u_deadLettered := u_deadLettered acc;
              u_requeued := u_requeued acc |}
    else mret acc.

Definition unacknowledge_message (rnow : Z) (keys args : list string) : M (string + Z) :=
  let keyQueueProperties := arg keys 3 in
  ex ← cmd_exists keyQueueProperties;
  if negb ex then mret (inl "QUEUE_NOT_FOUND")
  else
    st ← cmd_hget keyQueueProperties (arg args 16);
    match state_check (default (arg args 17) st) (arg args 17) (arg args 18) (arg args 19)
            (arg args 20) with
    | Some reply => mret (inl reply)
    | None =>
        let dynamicKeys := Z.of_nat (length keys) - 3 in
        let dynamicArgs := Z.of_nat (length args) - 21 in
        if decide (dynamicKeys = 0 ∧ dynamicArgs = 0) then mret (inr 0)
        else if decide (Z.rem dynamicKeys 3 ≠ 0 ∨ Z.rem dynamicArgs 7 ≠ 0 ∨
                        dynamicKeys / 3 ≠ dynamicArgs / 7)
        then mret (inl "INVALID_ARGS_ERROR")
        else
          acc ← foldM (unack_turn rnow keys args)
                  {| u_processed := 0; u_deadLettered := 0; u_requeued := 0 |}
                  (seq 0 (Z.to_nat (dynamicArgs / 7)));
          _ ← when (bool_decide (0 < u_processed acc))
                (_ ← cmd_hincrby keyQueueProperties (arg args 7) (- u_processed acc); mret tt);
          _ ← when (bool_decide (0 < u_deadLettered acc))
                (_ ← cmd_hincrby keyQueueProperties (arg args 8) (u_deadLettered acc); mret tt);
          _ ← when (bool_decide (0 < u_requeued acc))
                (_ ← cmd_hincrby keyQueueProperties (arg args 9) (u_requeued acc); mret tt);
          mret (inr (u_processed acc))
    end.

(** ** core/check-queue-rate-limit.lua *)

Definition check_queue_rate_limit (rnow : Z) (keys args : list string) : M Z :=
  let key := arg keys 1 in
  match string2ll (arg args 2) with
  | None => throw NOTINT
  | Some expireMs =>
      isNew ← cmd_set_px_nx rnow key (arg args 1) expireMs;
      if (isNew : bool) then
        _ ← cmd_decr key; mret 0
      else
        currentValue ← cmd_decr key;
        if decide (currentValue < 0) then mret 1 else mret 0
  end.

(** ** Rate limit parameters (pkg/queue/ratelimit.go) *)

Record RateLimitParams := { rl_limit : Z; rl_interval : Z }.

Definition second : Z := 1000000000.
Definition rl_Validate (p : RateLimitParams) : bool :=
  bool_decide (0 < rl_limit p) && bool_decide (second <= rl_interval p).

(** ** Unacknowledgement decisions (internal/consumer/unacknowledge.go) *)

Definition ActionDeadLetter : Z := 0.
Definition ActionRequeue : Z := 1.
Definition ActionDelay : Z := 2.

Definition resolveUnackAction (now : Z) (msg : Envelope) (cause : Z) : Z * Z :=
  if decide (cause = CauseTTLExpired) then (ActionDeadLetter, DeadLetterTTLExpired)
  else if IsExpired now msg then (ActionDeadLetter, DeadLetterTTLExpired)
  else if IsPeriodic msg then (ActionDeadLetter, DeadLetterPeriodicMessage)
  else if HasRetryThresholdExceeded msg then (ActionDeadLetter, DeadLetterRetryThresholdExceeded)
  else if decide (0 < m_retryDelay (producibleMessage msg)) then (ActionDelay, 0)
  else (ActionRequeue, 0).

(** ** Arguments of the scripts *)

(** The three audit arguments of acknowledgement and dead-lettering: whether to
    store, the expiry (configured in seconds) and the negated size. *)
Definition storeMessages (c : AuditMessagesConfig) : string :=
  if am_Enabled c then "1" else "0".
Definition expireStoredMessages (c : AuditMessagesConfig) : string :=
  if am_Enabled c then
    if decide (0 < am_Expire c) then itoa (wrap64 (am_Expire c * 1000)) else "0"
  else "0".
Definition storedMessagesSize (c : AuditMessagesConfig) : string :=
  if am_Enabled c then
    if decide (0 < am_QueueSize c) then itoa (- am_QueueSize c) else "0"
  else "0".
Definition audit_args (c : AuditMessagesConfig) : list string :=
  [storeMessages c; expireStoredMessages c; storedMessagesSize c].

(** internal/consumer/batch_acker.go *)
Definition ack_keys (q : Queue) (consumerID : string) (ids : list string) : list string :=
  [ConsumerProcessing q consumerID; Acknowledged q; Properties q] ++ (Message <$> ids).
Definition ack_args (cfg : ConfigRec) (now : Z) (ids : list string) : list string :=
  audit_args (AcknowledgedMessages (cfg_MessageAudit cfg)) ++
  [itoa (UnixMilli now); qkey Q_OperationalState;
   itoa StateActive; itoa StatePaused; itoa StateStopped; itoa StateLocked;
   mkey F_Status; itoa StatusAcknowledged; mkey F_AcknowledgedAt;
   qkey Q_AcknowledgedMessagesCount; qkey Q_ProcessingMessagesCount] ++ ids.

(** internal/consumer/message_unacknowledger.go *)
Record UnackEntry := { ue_Message : Envelope; ue_Cause : Z }.

Definition history_record (msgID : string) (cause action attempts now_ms : Z) : string :=
  print (JObj [("action", JNum action); ("attempts", JNum attempts); ("cause", JNum cause);
               ("messageId", JStr msgID); ("timestamp", JNum now_ms)]).

Definition unack_static (cfg : ConfigRec) : list string :=
  let audit := cfg_MessageAudit cfg in
  let history := UnacknowledgementHistory audit in
  [itoa ActionDelay; itoa ActionRequeue] ++ audit_args (DeadLetteredMessages audit) ++
  [mkey F_Status; qkey Q_ProcessingMessagesCount; qkey Q_DeadLetteredMessagesCount;
   qkey Q_RequeuedMessagesCount; itoa StatusUnackRequeuing; itoa StatusDeadLettered;
   mkey F_DeadLetteredAt; mkey F_UnacknowledgedAt; mkey F_LastUnacknowledgedAt; mkey F_Expired;
   qkey Q_OperationalState; itoa StateActive; itoa StatePaused; itoa StateStopped;
   itoa StateLocked; itoa (if ah_Enabled history then ah_MaxSize history else 0)].

(** The seven arguments of one message; [now] is read once for the batch and
    again ([now']) by the expiry tests. *)
Definition unack_entry_args (cfg : ConfigRec) (now now' : Z) (entry : UnackEntry) : list string :=
  let msg := ue_Message entry in
  let cause := ue_Cause entry in
  let action := (resolveUnackAction now' msg cause).1 in
  [ID msg;
   if decide (action = ActionDeadLetter) then "" else itoa action;
   if decide (action = ActionDeadLetter) then itoa (UnixMilli now) else "";
   if IsExpired now' msg || bool_decide (cause = CauseTTLExpired) then "1" else "0";
   itoa (UnixMilli now);
   itoa (UnixMilli now);
   if ah_Enabled (UnacknowledgementHistory (cfg_MessageAudit cfg))
   then history_record (ID msg) cause action (st_attempts (messageState msg)) (UnixMilli now)
   else ""].

Definition unack_entry_keys (q : Queue) (consumerID : string) (entry : UnackEntry) : list string :=
  let id := ID (ue_Message entry) in
  [ConsumerProcessing q consumerID; Message id; MessageAcknowledgementHistory id].

Definition unack_keys (q : Queue) (consumerID : string) (entries : list UnackEntry) : list string :=
  [Requeued q; DeadLetter q; Properties q] ++ (entries ≫= unack_entry_keys q consumerID).
Definition unack_args (cfg : ConfigRec) (now now' : Z) (entries : list UnackEntry) : list string :=
  unack_static cfg ++ (entries ≫= unack_entry_args cfg now now').

Definition buildBatchLuaArgs (cfg : ConfigRec) (now now' : Z) (q : Queue) (consumerID : string)
    (entries : list UnackEntry) : list string * list string :=
  (unack_keys q consumerID entries, unack_args cfg now now' entries).

(** internal/consumer/dequeue_message.go *)
Definition checkout_args (now : Z) : list string :=
  [mkey F_ProcessingStartedAt; mkey F_LastProcessedAt; itoa (UnixMilli now); mkey F_Status;
   itoa StatusProcessing; itoa StatusPending; mkey F_Attempts; qkey Q_ProcessingMessagesCount;
   qkey Q_PendingMessagesCount; qkey Q_OperationalState; itoa StateActive; itoa StatePaused;
   itoa StateStopped; itoa StateLocked].
Definition checkout_keys (q : Queue) (messageID : string) : list string :=
  [Message messageID; Properties q].

(** ** The consumer's operations *)

Inductive dequeue_error :=
| ErrQueueStopped | ErrQueueLocked | ErrQueueInvalidState
| ErrDequeueReply (reply : string) | ErrDequeueScript (err : rerr) | ErrDecode.

Record DequeueMessage := {
  d_queue : QParams;
  d_groupID : string;
  d_consumerID : string;
  d_queueType : Z;
  d_rateLimit : option RateLimitParams
}.

Definition d_key (d : DequeueMessage) : Queue := queue_keys_of (d_queue d).

Section Consumer.
(** The configuration, the default consume options, the clocks and the
    identifiers generated while reading messages.  One operation reads the
    clock a few times; here the readings agree. *)
Context (cfg : ConfigRec) (defaults : ConsumeOptions) (uuid uuid' : string) (now rnow : Z).

(** [LoadHash] followed by [DecodeEnvelope]; a failure skips the message. *)
Definition load_message (s : store) (id : string) : option Envelope :=
  match cmd_hgetall (Message id) s with
  | (Ret h, _) => if decide (h = ∅) then None else DecodeEnvelope defaults uuid uuid' now h
  | (Err _, _) => None
  end.

(** The script's reply is dropped: only a Redis error is reported. *)
Definition UnacknowledgeBatch (q : Queue) (consumerID : string) (entries : list UnackEntry)
    (s : store) : option rerr * store :=
  match entries with
  | [] => (None, s)
  | _ =>
      let '(keys, args) := buildBatchLuaArgs cfg now now q consumerID entries in
      match unacknowledge_message rnow keys args s with
      | (Ret _, s') => (None, s')
      | (Err e, s') => (Some e, s')
      end
  end.

Definition UnacknowledgeProcessingQueue (q : Queue) (consumerID : string) (cause : Z) (s : store)
    : option rerr * store :=
  match cmd_lrange_all (ConsumerProcessing q consumerID) s with
  | (Err _, _) | (Ret [], _) => (None, s)
  | (Ret ids, _) =>
      let messages := omap (load_message s) ids in
      UnacknowledgeBatch q consumerID
        ((λ m, {| ue_Message := m; ue_Cause := cause |}) <$> messages) s
  end.

Definition causeFromAckError (reply : string) : Z :=
  if decide (reply = "QUEUE_STOPPED") then CauseQueueStopped
  else if decide (reply = "QUEUE_LOCKED") then CauseQueueLocked
  else if decide (reply = "QUEUE_INVALID_STATE") then CauseQueueInvalidState
  else CauseUnexpectedError.

Definition unacknowledgeFailed (q : Queue) (consumerID : string) (ids : list string) (cause : Z)
    (s : store) : store :=
  let entries := (λ m, {| ue_Message := m; ue_Cause := cause |}) <$> omap (load_message s) ids in
  match entries with
  | [] => s
  | _ => (UnacknowledgeBatch q consumerID entries s).2
  end.

(** The result of each message, or [None] when the batch was refused. *)
Definition acknowledge (q : Queue) (consumerID : string) (ids : list string) (s : store)
    : option (list Z) * store :=
  match acknowledge_message rnow (ack_keys q consumerID ids) (ack_args cfg now ids) s with
  | (Err _, s') => (None, unacknowledgeFailed q consumerID ids CauseUnexpectedError s')
  | (Ret (inl reply), s') =>
      (None, unacknowledgeFailed q consumerID ids (causeFromAckError reply) s')
  | (Ret (inr results), s') => (Some results, s')
  end.

(** *** Dequeuing *)

Definition checkRateLimit (d : DequeueMessage) (s : store) : (rerr + bool) * store :=
  match d_rateLimit d with
  | None => (inr true, s)
  | Some rl =>
      match check_queue_rate_limit rnow [RateLimit (d_key d)]
              [itoa (rl_limit rl); itoa (Milliseconds (rl_interval rl))] s with
      | (Ret n, s') => (inr (bool_decide (n = 0)), s')
      | (Err e, s') => (inl e, s')
      end
  end.

Definition popPriority (src dst : string) (s : store) : string * store :=
  match zpoplpush [src; dst] s with
  | (Ret (Some v), s') => (v, s')
  | (Ret None, s') | (Err _, s') => ("", s')
  end.
Definition popFIFO (src dst : string) (s : store) : string * store :=
  match cmd_rpoplpush src dst s with
  | (Ret (Some v), s') => (v, s')
  | (Ret None, s') | (Err _, s') => ("", s')
  end.

Definition pop (d : DequeueMessage) (s : store) : string * store :=
  let q := d_key d in
  let dst := ConsumerProcessing q (d_consumerID d) in
  if decide (d_groupID d ≠ "") then
    if decide (d_queueType d = TypePriority)
    then popPriority (PriorityWithGroup q (d_groupID d)) dst s
    else popFIFO (PendingWithGroup q (d_groupID d)) dst s
  else if decide (d_queueType d = TypePriority)
       then popPriority (Priority q) dst s
       else popFIFO (Pending q) dst s.

Definition checkout (d : DequeueMessage) (messageID : string) (s : store)
    : (dequeue_error + option Envelope) * store :=
  match checkout_message (checkout_keys (d_key d) messageID) (checkout_args now) s with
  | (Err e, s') => (inl (ErrDequeueScript e), s')
  | (Ret (inl reply), s') =>
      if decide (reply = "QUEUE_STOPPED") then (inl ErrQueueStopped, s')
      else if decide (reply = "QUEUE_LOCKED") then (inl ErrQueueLocked, s')
      else if decide (reply = "QUEUE_INVALID_STATE") then (inl ErrQueueInvalidState, s')
      else if decide (reply = "MESSAGE_NOT_FOUND") then (inr None, s')
      else if decide (reply = "MESSAGE_NOT_PENDING") then (inr None, s')
      else (inl (ErrDequeueReply reply), s')
  | (Ret (inr h), s') =>
      match DecodeEnvelope defaults uuid uuid' now h with
      | Some e => (inr (Some e), s')
      | None => (inl ErrDecode, s')
      end
  end.

Definition causeFromCheckoutError (err : dequeue_error) : option Z :=
  match err with
  | ErrQueueStopped => Some CauseQueueStopped
  | ErrQueueLocked => Some CauseQueueLocked
  | ErrQueueInvalidState => Some CauseQueueInvalidState
  | _ => None
  end.

(** The minimal envelope: default options, the queue and the identifier. *)
Definition popped_envelope (d : DequeueMessage) (messageID : string) : Envelope :=
  let msg := SetConsumeTimeout 0 (SetQueue (Some (d_queue d)) (SetBody (JStr "") (New defaults now))) in
  let e := NewEnvelope uuid msg in
  let e := SetMessageState (SetID messageID (messageState e)) e in
  let e := SetDestinationQueue (Some (d_queue d)) e in
  if decide (d_groupID d ≠ "") then SetConsumerGroupID (d_groupID d) e else e.

Definition unacknowledgePoppedMessage (d : DequeueMessage) (messageID : string)
    (err : dequeue_error) (s : store) : store :=
  match causeFromCheckoutError err with
  | None => s
  | Some cause =>
      (UnacknowledgeBatch (d_key d) (d_consumerID d)
         [{| ue_Message := popped_envelope d messageID; ue_Cause := cause |}] s).2
  end.

(** After the initialisation, which has set the type and the rate limit. *)
Definition Dequeue (d : DequeueMessage) (s : store) : (dequeue_error + option Envelope) * store :=
  match checkRateLimit d s with
  | (inl e, s) => (inl (ErrDequeueScript e), s)
  | (inr false, s) => (inr None, s)
  | (inr true, s) =>
      let '(messageID, s) := pop d s in
      if decide (messageID = "") then (inr None, s)
      else
        match checkout d messageID s with
        | (inl err, s) => (inl err, unacknowledgePoppedMessage d messageID err s)
        | (inr r, s) => (inr r, s)
        end
  end.

End Consumer.
