(* ===== verification/Accounts.v ===== *)
(** * The accounts of a queue

    The abstract specification of a queue's bookkeeping: a map from the
    identifiers of its messages to their statuses.  [accounts_of q s a] says
    that a keyspace implements it: the published list holds exactly these
    messages once each, every message hash has its status, and each counter of
    the queue's properties is the number of messages in the status it counts.
    The scripts are proved to implement the abstract operations in
    Accounting.v. *)

From S2P Require Import Prelude Keys Redis RedisFacts Types Keyspace.
#[local] Open Scope Z_scope.

Abbreviation accounts := (gmap string Z).

(** The counter of a status. *)
Definition status_field (st : Z) : option qfield :=
  if decide (st = StatusPending) then Some Q_PendingMessagesCount
  else if decide (st = StatusProcessing) then Some Q_ProcessingMessagesCount
  else if decide (st = StatusScheduled) then Some Q_ScheduledMessagesCount
  else if decide (st = StatusAcknowledged) then Some Q_AcknowledgedMessagesCount
  else if decide (st = StatusUnackRequeuing) then Some Q_RequeuedMessagesCount
  else if decide (st = StatusUnackDelaying) then Some Q_DelayedMessagesCount
  else if decide (st = StatusDeadLettered) then Some Q_DeadLetteredMessagesCount
  else None.

Definition has_status (st : Z) (a : accounts) : accounts := filter (λ kv, kv.2 = st) a.
Definition count (a : accounts) (st : Z) : Z := Z.of_nat (size (has_status st a)).

(** The messages that wait for another attempt or for their time: each list
    holds messages of its status only, each at most once. *)
Record waiting_of (q : Queue) (s : store) (a : accounts) : Prop := {
  wo_NoDup : NoDup (lst s (Requeued q));
  wo_requeued : ∀ id, id ∈ lst s (Requeued q) → a !! id = Some StatusUnackRequeuing;
  wo_delayed : ∀ id, id ∈ (zst s (Delayed q)).*2 → a !! id = Some StatusUnackDelaying;
  wo_scheduled : ∀ id, id ∈ (zst s (Scheduled q)).*2 → a !! id = Some StatusScheduled
}.

(** The messages themselves: listed once each, with their statuses. *)
Record messages_of (q : Queue) (s : store) (a : accounts) : Prop := {
  mo_wt : wt s;
  mo_list : lst s (Published q) ≡ₚ (map_to_list a).*1;
  mo_status : ∀ id st, a !! id = Some st →
    no_colon id = true ∧ id ≠ "" ∧ hsh s (Message id) !! mkey F_Status = Some (itoa st);
  mo_waiting : waiting_of q s a
}.

(** What each counter of a queue should hold. *)
Definition account (a : accounts) (f : qfield) : Z :=
  match f with
  | Q_MessagesCount => Z.of_nat (size a)
  | Q_ScheduledMessagesCount => count a StatusScheduled
  | Q_PendingMessagesCount => count a StatusPending
  | Q_ProcessingMessagesCount => count a StatusProcessing
  | Q_AcknowledgedMessagesCount => count a StatusAcknowledged
  | Q_DeadLetteredMessagesCount => count a StatusDeadLettered
  | Q_DelayedMessagesCount => count a StatusUnackDelaying
  | Q_RequeuedMessagesCount => count a StatusUnackRequeuing
  | _ => 0
  end.

Definition is_counter (f : qfield) : bool :=
  match f with
  | Q_Type | Q_RateLimit | Q_DeliveryModel | Q_OperationalState | Q_LastStateChangeAt
  | Q_LockID => false
  | _ => true
  end.

(** The counters hold the values [c]. *)
Definition tally (h : gmap string string) (c : qfield → Z) : Prop :=
  ∀ f, is_counter f = true → counter_text h f = itoa (c f).

(** The counters agree with the messages. *)
Definition counters_of (h : gmap string string) (a : accounts) : Prop := tally h (account a).

Definition accounts_of (q : Queue) (s : store) (a : accounts) : Prop :=
  messages_of q s a ∧ counters_of (hsh s (Properties q)) a.

(** A queue small enough for its counters. *)
Definition small (a : accounts) : Prop := Z.of_nat (size a) < 4611686018427387904.

(** ** Counting *)

Lemma count_nonneg a st : 0 <= count a st.
Proof. unfold count. lia. Qed.

Lemma count_le a st : count a st <= Z.of_nat (size a).
Proof. unfold count, has_status. pose proof (map_size_filter (λ kv, kv.2 = st) a). lia. Qed.

(** The indicator of [st' = st]. *)
Definition one (st st' : Z) : Z := if decide (st' = st) then 1 else 0.

Lemma count_insert a id st st' :
  a !! id = None → count (<[id := st]> a) st' = count a st' + one st st'.
Proof.
  intros Hid. unfold count, has_status, one. rewrite map_filter_insert. simpl.
  destruct (decide (st' = st)) as [->|Hne].
  - rewrite decide_True by done. rewrite map_size_insert_None; [lia|].
    apply map_lookup_filter_None. by left.
  - rewrite decide_False by done. rewrite delete_id by done. lia.
Qed.

Lemma count_delete a id st st' :
  a !! id = Some st → count (delete id a) st' = count a st' - one st st'.
Proof.
  intros Hid. rewrite <-(insert_delete_id a id st Hid) at 2.
  rewrite count_insert by apply lookup_delete_eq. lia.
Qed.

Lemma count_move a id st st2 st' :
  a !! id = Some st → count (<[id := st2]> a) st' = count a st' + one st2 st' - one st st'.
Proof.
  intros Hid. rewrite <-insert_delete_eq. rewrite count_insert by apply lookup_delete_eq.
  rewrite (count_delete a id st) by done. lia.
Qed.

Lemma keys_move (a : accounts) id st st2 :
  a !! id = Some st → (map_to_list (<[id := st2]> a)).*1 ≡ₚ (map_to_list a).*1.
Proof.
  intros Hid. rewrite <-insert_delete_eq.
  rewrite map_to_list_insert by apply lookup_delete_eq. simpl.
  rewrite <-(insert_delete_id a id st Hid) at 2.
  by rewrite map_to_list_insert by apply lookup_delete_eq.
Qed.

(** Several messages moved to one status. *)
Definition move_all (st : Z) (ids : list string) (a : accounts) : accounts :=
  foldr (λ id a, <[id := st]> a) a ids.

Lemma move_all_lookup st ids a id :
  move_all st ids a !! id = if decide (id ∈ ids) then Some st else a !! id.
Proof.
  induction ids as [|i ids IH]; simpl; [done|].
  destruct (decide (id = i)) as [->|Hne].
  - by rewrite lookup_insert_eq, decide_True by set_solver.
  - rewrite lookup_insert_ne, IH by done.
    destruct (decide (id ∈ ids)); [by rewrite decide_True by set_solver|].
    by rewrite decide_False by set_solver.
Qed.

Lemma move_all_insert st st2 ids a id :
  id ∉ ids → move_all st ids (<[id := st2]> a) = <[id := st2]> (move_all st ids a).
Proof.
  intros Hid. apply map_eq. intros i. rewrite move_all_lookup.
  destruct (decide (i = id)) as [->|Hne].
  - by rewrite decide_False, !lookup_insert_eq.
  - by rewrite !lookup_insert_ne, move_all_lookup.
Qed.

Lemma move_all_count st0 st ids a st' :
  NoDup ids → (∀ id, id ∈ ids → a !! id = Some st0) →
  count (move_all st ids a) st' =
  count a st' + Z.of_nat (length ids) * (one st st' - one st0 st').
Proof.
  induction ids as [|i ids IH]; intros Hnd Hall; [cbn; lia|].
  apply NoDup_cons in Hnd as [Hi Hnd]. simpl move_all.
  rewrite (count_move _ i st0); [rewrite IH by set_solver; cbn [length]; lia|].
  rewrite move_all_lookup, decide_False by done. apply Hall. set_solver.
Qed.

Lemma move_all_size st0 st ids a :
  (∀ id, id ∈ ids → a !! id = Some st0) → size (move_all st ids a) = size a.
Proof.
  induction ids as [|i ids IH]; intros Hall; [done|]. simpl.
  rewrite map_size_insert_Some; [by apply IH; set_solver|].
  rewrite move_all_lookup. case_decide; [by eexists|]. exists st0. apply Hall. set_solver.
Qed.

(** ** Keyspaces that implement the accounts *)

Lemma waiting_frame q s s' a :
  waiting_of q s a → lst s' (Requeued q) = lst s (Requeued q) →
  zst s' (Delayed q) = zst s (Delayed q) → zst s' (Scheduled q) = zst s (Scheduled q) →
  waiting_of q s' a.
Proof. intros [H1 H2 H3 H4] Hr Hd Hs. split; by rewrite ?Hr, ?Hd, ?Hs. Qed.

(** A status that no waiting list holds. *)
Definition settled (st : Z) : Prop :=
  st ≠ StatusUnackRequeuing ∧ st ≠ StatusUnackDelaying ∧ st ≠ StatusScheduled.

Lemma settled_pending : settled StatusPending.
Proof. by repeat split. Qed.
Lemma settled_processing : settled StatusProcessing.
Proof. by repeat split. Qed.
#[export] Hint Resolve settled_pending settled_processing : smq.

(** A message that waits in no list changes its status. *)
Lemma waiting_move q s a id st st2 :
  waiting_of q s a → a !! id = Some st → settled st → waiting_of q s (<[id := st2]> a).
Proof.
  intros [H1 H2 H3 H4] Hid (Hr & Hd & Hs). split; [done|..]; intros i Hi; rewrite lookup_insert_ne; auto;
    intros <-; [apply H2 in Hi|apply H3 in Hi|apply H4 in Hi]; congruence.
Qed.

Lemma waiting_insert q s a id st :
  waiting_of q s a → a !! id = None → waiting_of q s (<[id := st]> a).
Proof.
  intros [H1 H2 H3 H4] Hid. split; [done|..]; intros i Hi; rewrite lookup_insert_ne; auto;
    intros <-; [apply H2 in Hi|apply H3 in Hi|apply H4 in Hi]; congruence.
Qed.

Lemma messages_frame q s s' a :
  messages_of q s a → wt s' → lst s' (Published q) = lst s (Published q) →
  (∀ id st, a !! id = Some st →
     hsh s' (Message id) !! mkey F_Status = hsh s (Message id) !! mkey F_Status) →
  lst s' (Requeued q) = lst s (Requeued q) → zst s' (Delayed q) = zst s (Delayed q) →
  zst s' (Scheduled q) = zst s (Scheduled q) →
  messages_of q s' a.
Proof.
  intros [Hw Hl Hs Hwt] Hw' Hl' Hs' Hr Hd Hz. split; [done|by rewrite Hl'| |by eapply waiting_frame].
  intros id st Hid. specialize (Hs id st Hid) as (? & ? & ?). by rewrite (Hs' id st Hid).
Qed.

Lemma messages_move q s s' a id st st2 :
  messages_of q s a → a !! id = Some st → wt s' →
  lst s' (Published q) = lst s (Published q) →
  hsh s' (Message id) !! mkey F_Status = Some (itoa st2) →
  (∀ id', id' ≠ id → no_colon id' = true →
     hsh s' (Message id') !! mkey F_Status = hsh s (Message id') !! mkey F_Status) →
  waiting_of q s' (<[id := st2]> a) →
  messages_of q s' (<[id := st2]> a).
Proof.
  intros [Hw Hl Hs _] Hid Hw' Hl' Hst Hs' Hwt. split; [done| | |done].
  - rewrite Hl', Hl. symmetry. by eapply keys_move.
  - intros id' st' H. destruct (decide (id' = id)) as [->|Hne].
    + rewrite lookup_insert_eq in H. injection H as <-.
      destruct (Hs id st Hid) as (? & ? & _). done.
    + rewrite lookup_insert_ne in H by done. destruct (Hs id' st' H) as (? & ? & ?).
      by rewrite Hs'.
Qed.

Lemma messages_nodup q s a : messages_of q s a → NoDup (lst s (Published q)).
Proof. intros [_ Hl _ _]. rewrite Hl. apply NoDup_fst_map_to_list. Qed.

Lemma messages_elem q s a id : messages_of q s a → id ∈ lst s (Published q) ↔ is_Some (a !! id).
Proof.
  intros [_ Hl _ _]. rewrite Hl, list_elem_of_fmap. split.
  - intros ([i st] & -> & H%elem_of_map_to_list). by exists st.
  - intros [st H]. exists (id, st). split; [done|]. by apply elem_of_map_to_list.
Qed.

(** A message is removed. *)
Lemma waiting_delete q s s' a id :
  waiting_of q s a → NoDup (lst s' (Requeued q)) →
  (∀ x, x ∈ lst s' (Requeued q) → x ∈ lst s (Requeued q) ∧ x ≠ id) →
  (∀ x, x ∈ (zst s' (Delayed q)).*2 → x ∈ (zst s (Delayed q)).*2 ∧ x ≠ id) →
  (∀ x, x ∈ (zst s' (Scheduled q)).*2 → x ∈ (zst s (Scheduled q)).*2 ∧ x ≠ id) →
  waiting_of q s' (delete id a).
Proof.
  intros [_ HR HD HS] Hnd Hr Hd Hs. split; [done|..];
    [intros x [Hx Hne]%Hr|intros x [Hx Hne]%Hd|intros x [Hx Hne]%Hs];
    rewrite lookup_delete_ne by done; auto.
Qed.

Lemma messages_delete q s s' a id st :
  messages_of q s a → a !! id = Some st → wt s' →
  lst s' (Published q) = remove_first id (lst s (Published q)) →
  (∀ id', id' ≠ id → no_colon id' = true →
     hsh s' (Message id') !! mkey F_Status = hsh s (Message id') !! mkey F_Status) →
  waiting_of q s' (delete id a) → messages_of q s' (delete id a).
Proof.
  intros Hm Hid Hw' Hl' Hs' Hwt. pose proof (proj2 (messages_elem q s a id Hm) (mk_is_Some _ _ Hid)) as Hin.
  destruct Hm as [Hw Hl Hs _]. split; [done| | |done].
  - rewrite Hl'. apply (Permutation_cons_inv (a := id)).
    rewrite <-(remove_first_Permutation id _ Hin), Hl.
    rewrite <-(insert_delete_id a id st Hid) at 1.
    by rewrite map_to_list_insert by apply lookup_delete_eq.
  - intros id' st' H. apply lookup_delete_Some in H as [Hne H].
    destruct (Hs id' st' H) as (? & ? & ?). by rewrite Hs'.
Qed.

(** ** Counters *)

(** The change of counter [g] when [n] is added to [f]; and when [n] is added
    to the counter of a status. *)
Definition delta (f : qfield) (n : Z) (g : qfield) : Z := if decide (g = f) then n else 0.
Definition sdelta (st n : Z) (g : qfield) : Z :=
  match status_field st with Some f => delta f n g | None => 0 end.

Lemma delta_eq f n : delta f n f = n.
Proof. unfold delta. by rewrite decide_True. Qed.
Lemma delta_ne f n g : g ≠ f → delta f n g = 0.
Proof. intros H. unfold delta. by rewrite decide_False. Qed.

Lemma account_range a f : 0 <= account a f <= Z.of_nat (size a).
Proof. destruct f; simpl; pose proof (count_le a); pose proof (count_nonneg a); split; auto; lia. Qed.

Lemma status_field_inj st st' f :
  status_field st = Some f → status_field st' = Some f → st = st'.
Proof. unfold status_field. intros H H'. repeat case_decide; congruence. Qed.

Lemma sdelta_one st st' f n : status_field st' = Some f → n * one st st' = sdelta st n f.
Proof.
  intros Hf. unfold one, sdelta. destruct (decide (st' = st)) as [->|Hne].
  - rewrite Hf. unfold delta. rewrite decide_True by done. lia.
  - destruct (status_field st) as [g|] eqn:Hg; [|lia]. unfold delta.
    rewrite decide_False; [lia|]. intros ->. by apply Hne, (status_field_inj st' st g).
Qed.

Lemma sdelta_total st n : sdelta st n Q_MessagesCount = 0.
Proof. unfold sdelta, status_field. by repeat case_decide. Qed.

Lemma one_sdelta st n :
  n * one st StatusScheduled = sdelta st n Q_ScheduledMessagesCount ∧
  n * one st StatusPending = sdelta st n Q_PendingMessagesCount ∧
  n * one st StatusProcessing = sdelta st n Q_ProcessingMessagesCount ∧
  n * one st StatusAcknowledged = sdelta st n Q_AcknowledgedMessagesCount ∧
  n * one st StatusDeadLettered = sdelta st n Q_DeadLetteredMessagesCount ∧
  n * one st StatusUnackDelaying = sdelta st n Q_DelayedMessagesCount ∧
  n * one st StatusUnackRequeuing = sdelta st n Q_RequeuedMessagesCount.
Proof. by repeat split; apply sdelta_one. Qed.

(** Accounts after [n] messages moved from one status to another. *)
Lemma account_shift a a' st0 st1 n :
  size a' = size a →
  (∀ st, count a' st = count a st + n * (one st1 st - one st0 st)) →
  ∀ f, is_counter f = true → account a' f = account a f + sdelta st1 n f + sdelta st0 (- n) f.
Proof.
  intros Hsize Hcount f Hf.
  pose proof (one_sdelta st1 n) as H1. pose proof (one_sdelta st0 (- n)) as H0.
  destruct_and!. destruct f; try done; simpl; rewrite ?Hcount, ?Hsize, ?sdelta_total; lia.
Qed.

Lemma account_insert a id st f :
  a !! id = None → is_counter f = true →
  account (<[id := st]> a) f = account a f + delta Q_MessagesCount 1 f + sdelta st 1 f.
Proof.
  intros Hid Hf. pose proof (one_sdelta st 1) as H1. destruct_and!.
  destruct f; try done; simpl; rewrite ?count_insert, ?map_size_insert_None by done;
    rewrite ?sdelta_total; unfold delta at 1; simpl; lia.
Qed.

Lemma account_move a id st0 st1 f :
  a !! id = Some st0 → is_counter f = true →
  account (<[id := st1]> a) f = account a f + sdelta st1 1 f + sdelta st0 (-1) f.
Proof.
  intros Hid. apply account_shift; [by apply map_size_insert_Some; eexists|].
  intros st. rewrite (count_move a id st0) by done. lia.
Qed.

Lemma account_move_all a ids st0 st1 f :
  NoDup ids → (∀ id, id ∈ ids → a !! id = Some st0) → is_counter f = true →
  account (move_all st1 ids a) f =
  account a f + sdelta st1 (Z.of_nat (length ids)) f + sdelta st0 (- Z.of_nat (length ids)) f.
Proof.
  intros Hnd Hall. apply account_shift; [by eapply move_all_size|].
  intros st. by apply move_all_count.
Qed.

Lemma account_delete a id st f :
  a !! id = Some st → is_counter f = true →
  account (delete id a) f = account a f - delta Q_MessagesCount 1 f - sdelta st 1 f.
Proof.
  intros Hid Hf. rewrite <-(insert_delete_id a id st Hid) at 2.
  rewrite account_insert by (done || apply lookup_delete_eq). lia.
Qed.

Lemma tally_counter q s c f :
  tally (hsh s (Properties q)) c → is_counter f = true → in_int64 (c f) → counter s q f = c f.
Proof. intros H Hf Hr. unfold counter. rewrite (H f Hf). by rewrite string2ll_itoa. Qed.

Lemma tally_ok q s c f n :
  tally (hsh s (Properties q)) c → is_counter f = true → in_int64 (c f) → in_int64 (c f + n) →
  counter_ok s q f n.
Proof.
  intros H Hf Hr Hn. unfold counter_ok. rewrite (tally_counter q s c f H Hf Hr).
  split; [by rewrite (H f Hf), string2ll_itoa|done].
Qed.

Lemma tally_add q s c f n :
  tally (hsh s (Properties q)) c → is_counter f = true → in_int64 (c f) →
  tally (hsh (add_counter q f n s) (Properties q)) (λ g, c g + delta f n g).
Proof.
  intros H Hf Hr g Hg. unfold delta, counter_text, add_counter. rewrite hsh_upd.
  destruct (decide (g = f)) as [->|Hne].
  - rewrite lookup_insert_eq. simpl. by rewrite (tally_counter q s c f H Hf Hr).
  - rewrite lookup_insert_ne by (by intros ?%(inj qkey)). rewrite Z.add_0_r. by apply H.
Qed.

Lemma tally_ext h c c' : tally h c → (∀ f, is_counter f = true → c f = c' f) → tally h c'.
Proof. intros H E f Hf. rewrite <-E by done. by apply H. Qed.

Lemma small_in_int64 a z :
  small a → - Z.of_nat (size a) <= z <= 2 * Z.of_nat (size a) + 1 → in_int64 z.
Proof. unfold small, in_int64, int64_min, int64_max. lia. Qed.

Lemma size_pos (a : accounts) id st : a !! id = Some st → 1 <= Z.of_nat (size a).
Proof.
  intros H. assert (size a ≠ 0%nat); [|lia]. intros E%map_size_empty_inv. by subst.
Qed.

(** The accounts depend on the properties only through the counters. *)
Lemma accounts_props q s s' a :
  messages_of q s' a → hsh s' (Properties q) = hsh s (Properties q) →
  counters_of (hsh s (Properties q)) a → accounts_of q s' a.
Proof. intros Hm Hp Hc. split; [done|]. by rewrite Hp. Qed.
