(* ===== verification/Accounting.v ===== *)
(** * The scripts keep the accounts

    Each script that changes messages of a queue implements an operation on the
    queue's accounts: publication adds a message, checkout, acknowledgement and
    unacknowledgement move messages between statuses, and the counters of the
    queue follow.  The last part puts the operations together as steps of a
    queue and shows that the accounts hold in every reachable keyspace. *)

From S2P Require Import Prelude Keys Redis RedisFacts Types Keyspace Json Message MessageCodec.
From S2P Require Import Publish Consume Accounts.
#[local] Open Scope Z_scope.

(** ** Publication *)

Lemma status_counter_field st :
  st = StatusPending ∨ st = StatusScheduled → status_field st = Some (status_counter st).
Proof. by intros [-> | ->]. Qed.

Lemma status_counter_is st : is_counter (status_counter st) = true.
Proof. unfold status_counter. by case_decide. Qed.

(** A counter of a small queue can be moved by as much as its size. *)
Lemma counter_can_move q s a f n :
  counters_of (hsh s (Properties q)) a → small a → is_counter f = true →
  - Z.of_nat (size a) <= n <= Z.of_nat (size a) + 1 → counter_ok s q f n.
Proof.
  intros Hc Ha Hf Hn. pose proof (account_range a f).
  apply (tally_ok q s (account a)); [done|done|..]; apply (small_in_int64 a); done || lia.
Qed.

Lemma publish_counters_ok q s a e :
  counters_of (hsh s (Properties q)) a → small a → publish_counters s q e.
Proof.
  intros Hc Ha. split; eapply counter_can_move; try done; try lia. apply status_counter_is.
Qed.

Section publish.
Context (v : mfield → string) (q : Queue) (ty : string) (e : Envelope) (s : store) (a : accounts).
Context (Hv : v F_Status = itoa (status e)).
Context (Ha : accounts_of q s a) (Hsm : small a) (Hq : wf_queue q) (He : publishable e).
Context (Hnew : a !! ID e = None) (Hid : ID e ≠ "").
Context (Hst : status e = StatusPending ∨ status e = StatusScheduled).

(** The keyspace before the last counter. *)
Let s3 : store :=
  let s := add_counter q (status_counter (status e)) 1 (enqueue q ty e s) in
  let s := upd (Published q) (list_val (lst s (Published q) ++ [ID e])) s in
  upd (Message (ID e))
    (hash_val (hset_all ((λ f, (mkey f, v f)) <$> messagePropertyFields) (hsh s (Message (ID e))))) s.

(** A scheduled message joins the scheduled set, which is its waiting list. *)
Lemma publish_waiting :
  waiting_of q s a → waiting_of q (enqueue q ty e s) (<[ID e := status e]> a).
Proof using All.
  intros Hwo. pose proof (waiting_insert q s a (ID e) (status e) Hwo Hnew) as [N R D S].
  split; rewrite ?enqueue_requeued, ?enqueue_delayed by done; [done..|]. intros i Hi.
  destruct (enqueue_scheduled q ty e s Hq He i Hi) as [[-> Hs]|Hi']; [|by apply S].
  rewrite lookup_insert_eq. f_equal. by destruct Hst.
Qed.

Lemma publish_props :
  hsh s3 (Properties q) =
  hsh (add_counter q (status_counter (status e)) 1 (enqueue q ty e s)) (Properties q).
Proof using Hq He. unfold s3. by views. Qed.

Lemma publish_messages : messages_of q (publish_effect_as v q ty e s) (<[ID e := status e]> a).
Proof using All.
  destruct Ha as [[Hw Hl Hm Hwo] Hc].
  pose proof (enqueue_wt q ty e s Hw Hq He) as Hw'.
  change (publish_effect_as v q ty e s) with (add_counter q Q_MessagesCount 1 s3). unfold s3.
  split; [wt_solve| | |].
  3: { apply (waiting_frame q (enqueue q ty e s)); [by apply publish_waiting|by views..]. }
  - views. rewrite enqueue_published by done.
    rewrite Hl, map_to_list_insert by done. simpl. by rewrite Permutation_app_comm.
  - intros id st Hl'. destruct (decide (id = ID e)) as [->|Hne].
    + rewrite lookup_insert_eq in Hl'. injection Hl' as <-. views.
      split; [by apply pb_id|]. split; [done|]. rewrite <-Hv.
      rewrite hset_all_lookup_fields by apply messagePropertyFields_NoDup.
      by rewrite decide_True by apply messagePropertyFields_all.
    + rewrite lookup_insert_ne in Hl' by done. destruct (Hm id st Hl') as (Hn & Hne' & Hs).
      split; [done|]. split; [done|]. views. by rewrite enqueue_message.
Qed.

Lemma publish_counts :
  counters_of (hsh (publish_effect_as v q ty e s) (Properties q)) (<[ID e := status e]> a).
Proof using All.
  destruct Ha as [_ Hc]. change (publish_effect_as v q ty e s) with (add_counter q Q_MessagesCount 1 s3).
  rewrite <-(enqueue_props q ty e s Hq He) in Hc.
  pose proof (account_range a (status_counter (status e))) as Hr.
  pose proof (account_range a Q_MessagesCount) as Hr'.
  eapply tally_ext; [apply tally_add|].
  - rewrite publish_props. apply tally_add; [done|apply status_counter_is|].
    apply (small_in_int64 a); [done|lia].
  - done.
  - unfold delta. rewrite decide_False by (symmetry; apply status_counter_ne).
    apply (small_in_int64 a); [done|lia].
  - intros f Hf. rewrite account_insert by done. unfold sdelta.
    rewrite status_counter_field by done. lia.
Qed.

Lemma publish_accounts_as : accounts_of q (publish_effect_as v q ty e s) (<[ID e := status e]> a).
Proof using All. split; [apply publish_messages|apply publish_counts]. Qed.
End publish.

Lemma publish_accounts q ty e s a :
  accounts_of q s a → small a → wf_queue q → publishable e → a !! ID e = None → ID e ≠ "" →
  status e = StatusPending ∨ status e = StatusScheduled →
  accounts_of q (publish_effect q ty e s) (<[ID e := status e]> a).
Proof. exact (publish_accounts_as (message_value e) q ty e s a eq_refl). Qed.

(** ** Checkout *)

(** The operational state the scripts see. *)
Definition op_state (s : store) (q : Queue) : string :=
  default (itoa StateActive) (hsh s (Properties q) !! qkey Q_OperationalState).

(** The reply for a state that forbids the operation. *)
Definition refused (s : store) (q : Queue) : option string :=
  state_check (op_state s q) (itoa StateActive) (itoa StatePaused) (itoa StateStopped)
    (itoa StateLocked).

(** Replaces argument positions by what the consumer put there. *)
Ltac eval_consumer_args :=
  repeat match goal with
  | |- context [arg ?l ?i] =>
      let v := eval cbv [arg nth Nat.sub Nat.add Nat.mul app checkout_args checkout_keys ack_keys
                         ack_args unack_keys unack_args unack_static audit_args] in (arg l i) in
      progress change (arg l i) with v
  end.

(** The attempts of the message are an integer that can be incremented. *)
Definition attempts (h : gmap string string) : Z :=
  default 0 (string2ll (default "0" (h !! mkey F_Attempts))).
Definition attempts_ok (h : gmap string string) : Prop :=
  string2ll (default "0" (h !! mkey F_Attempts)) = Some (attempts h) ∧ in_int64 (attempts h + 1).

(** The fields a checkout at time [now] sets. *)
Definition checkout_fields (now : Z) (h : gmap string string) : list (string * string) :=
  let ts := itoa (UnixMilli now) in
  if decide (h !! mkey F_ProcessingStartedAt = Some "") then
    [(mkey F_Status, itoa StatusProcessing); (mkey F_ProcessingStartedAt, ts);
     (mkey F_LastProcessedAt, ts)]
  else [(mkey F_Status, itoa StatusProcessing); (mkey F_LastProcessedAt, ts)].

Definition checked_out (now : Z) (h : gmap string string) : gmap string string :=
  <[mkey F_Attempts := itoa (attempts h + 1)]> (hset_all (checkout_fields now h) h).

Definition checkout_effect (q : Queue) (id : string) (now : Z) (s : store) : store :=
  let h := hsh s (Message id) in
  let s := upd (Message id) (hash_val (hset_all (checkout_fields now h) h)) s in
  let s := upd (Message id) (hash_val (checked_out now h)) s in
  add_counter q Q_PendingMessagesCount (-1) (add_counter q Q_ProcessingMessagesCount 1 s).

Lemma checkout_fields_status now h :
  hset_all (checkout_fields now h) h !! mkey F_Status = Some (itoa StatusProcessing).
Proof.
  unfold checkout_fields, hset_all.
  case_decide; simpl; repeat (rewrite lookup_insert_ne by done); apply lookup_insert_eq.
Qed.

Lemma checkout_fields_attempts now h :
  hset_all (checkout_fields now h) h !! mkey F_Attempts = h !! mkey F_Attempts.
Proof.
  unfold checkout_fields, hset_all. case_decide; simpl; by repeat (rewrite lookup_insert_ne by done).
Qed.

Section checkout.
Context (q : Queue) (id : string) (now : Z) (s : store) (a : accounts) (st : Z).
Context (Ha : accounts_of q s a) (Hsm : small a) (Hq : wf_queue q).
Context (Hid : a !! id = Some st).


Lemma checkout_wt : wt s.
Proof using Ha. exact (mo_wt q s a (proj1 Ha)). Qed.

Lemma checkout_id : no_colon id = true.
Proof using Ha Hid. by apply (mo_status q s a (proj1 Ha) id st). Qed.

(** The whole script on a message of the queue. *)
Lemma checkout_run :
  attempts_ok (hsh s (Message id)) →
  checkout_message (checkout_keys q id) (checkout_args now) s =
  match refused s q with
  | Some reply => (Ret (inl reply), s)
  | None =>
      if decide (st = StatusPending)
      then (Ret (inr (checked_out now (hsh s (Message id)))), checkout_effect q id now s)
      else (Ret (inl "MESSAGE_NOT_PENDING"), s)
  end.
Proof using All.
  intros [Hat Hr]. pose proof checkout_wt as Hw. pose proof checkout_id as Hn. pose proof Ha as [[_ Hl Hm] Hc].
  destruct (Hm id st Hid) as (_ & _ & Hst).
  unfold checkout_message. eval_consumer_args. cbv zeta.
  erewrite bind_Ret; [|apply hget_run; wt_view]. fold (op_state s q) (refused s q).
  destruct (refused s q) as [reply|]; [done|].
  erewrite bind_Ret; [|apply hmget_run; wt_view].
  unfold reply_at. cbn [fmap list_fmap lookup list_lookup Nat.sub default from_option Datatypes.id].
  rewrite Hst. cbv iota beta.
  destruct (decide (st = StatusPending)) as [->|Hne].
  2: { rewrite decide_True; [done|]. intros E. by apply (inj itoa) in E. }
  rewrite decide_False by (by intros []).
  assert ((if decide (hsh s (Message id) !! mkey F_ProcessingStartedAt = Some "") then
      cmd_hset (Message id) [(mkey F_Status, itoa StatusProcessing);
        (mkey F_ProcessingStartedAt, itoa (UnixMilli now));
        (mkey F_LastProcessedAt, itoa (UnixMilli now))]
      else cmd_hset (Message id) [(mkey F_Status, itoa StatusProcessing);
                                  (mkey F_LastProcessedAt, itoa (UnixMilli now))]) =
      cmd_hset (Message id) (checkout_fields now (hsh s (Message id)))) as ->
    by (unfold checkout_fields; by case_decide).
  erewrite bind_Ret; [|apply hset_run; wt_view].
  erewrite bind_Ret; [|apply hincrby_run; [wt_view|]].
  2: { rewrite hsh_upd. unfold hincr. rewrite checkout_fields_attempts, Hat.
       by rewrite decide_True. }
  rewrite hsh_upd. fold (checked_out now (hsh s (Message id))).
  set (s2 := upd _ _ (upd _ _ _)).
  assert (hsh s2 (Properties q) = hsh s (Properties q)) as Hp by (unfold s2; by views).
  assert (wt s2) as Hw2 by (unfold s2; wt_solve).
  assert (counters_of (hsh s2 (Properties q)) a) as Hc2 by by rewrite Hp.
  pose proof (size_pos a id _ Hid) as Hsize.
  erewrite bind_Ret;
    [|apply hincrby_counter; [wt_view|eapply counter_can_move; [done|done|done|lia]]].
  erewrite bind_Ret; [|apply hincrby_counter; [wt_view|]].
  2: { apply counter_ok_ne; [done|]. eapply counter_can_move; [done|done|done|lia]. }
  erewrite bind_Ret; [|apply hgetall_run; wt_view].
  views. unfold s2. by rewrite hsh_upd.
Qed.

Lemma checkout_accounts :
  st = StatusPending →
  accounts_of q (checkout_effect q id now s) (<[id := StatusProcessing]> a).
Proof using All.
  intros E. pose proof checkout_wt as Hw. pose proof checkout_id as Hn. subst st. pose proof Ha as [Hmo Hc]. pose proof Hmo as [_ Hl Hm Hwo].
  unfold checkout_effect. cbv zeta. set (s2 := upd _ _ (upd _ _ _)).
  assert (wt s2) as Hw2 by (unfold s2; wt_solve).
  assert (hsh s2 (Properties q) = hsh s (Properties q)) as Hp by (unfold s2; by views).
  split.
  - apply (messages_move q s _ a id StatusPending); [done|done|wt_solve|unfold s2; by views|..].
    + unfold s2. views. unfold checked_out. rewrite lookup_insert_ne by done.
      apply checkout_fields_status.
    + intros id' Hne Hn'. unfold s2. by views.
    + apply (waiting_frame q s); [by eapply waiting_move; [..|apply settled_pending]|unfold s2; by views..].
  - rewrite <-Hp in Hc. pose proof (account_range a Q_ProcessingMessagesCount).
    pose proof (account_range a Q_PendingMessagesCount).
    eapply tally_ext; [apply tally_add; [apply tally_add; [done|done|]|done|]|].
    + apply (small_in_int64 a); [done|lia].
    + apply (small_in_int64 a); [done|unfold delta; rewrite decide_False by done; lia].
    + intros f Hf. by rewrite (account_move a id StatusPending).
Qed.
End checkout.

(** Moving [n] between two counters follows a move of [n] messages. *)
Lemma counters_shift q s a a' st0 st1 f0 f1 n :
  counters_of (hsh s (Properties q)) a → small a → 0 <= n <= Z.of_nat (size a) →
  status_field st0 = Some f0 → status_field st1 = Some f1 → f0 ≠ f1 →
  is_counter f0 = true → is_counter f1 = true →
  (∀ f, is_counter f = true → account a' f = account a f + sdelta st1 n f + sdelta st0 (- n) f) →
  counters_of (hsh (add_counter q f0 (- n) (add_counter q f1 n s)) (Properties q)) a'.
Proof.
  intros Hc Hsm Hn Hf0 Hf1 Hne I0 I1 Hac.
  pose proof (account_range a f0). pose proof (account_range a f1).
  eapply tally_ext; [apply tally_add; [apply tally_add; [done|done|]|done|]|].
  - apply (small_in_int64 a); [done|lia].
  - apply (small_in_int64 a); [done|]. unfold delta. rewrite decide_False by done. lia.
  - intros f Hf. rewrite Hac by done. unfold sdelta. by rewrite Hf0, Hf1.
Qed.

(** ** Acknowledgement *)

Definition ack_fields (now : Z) : list (string * string) :=
  [(mkey F_Status, itoa StatusAcknowledged); (mkey F_AcknowledgedAt, itoa (UnixMilli now))].

Lemma ack_fields_status now h :
  hset_all (ack_fields now) h !! mkey F_Status = Some (itoa StatusAcknowledged).
Proof. unfold hset_all. simpl. rewrite lookup_insert_ne by done. apply lookup_insert_eq. Qed.

(** One turn of the loop, for the message [id]. *)
Definition ack_one (q : Queue) (c : string) (now : Z) (acc : list Z * Z * list string) (id : string)
    : M (list Z * Z * list string) :=
  let '(results, ackCount, acknowledgedIds) := acc in
  removed ← cmd_lrem1 (ConsumerProcessing q c) id;
  if decide (0 < removed) then
    _ ← cmd_hset (Message id) (ack_fields now);
    mret (results ++ [1], ackCount + 1, acknowledgedIds ++ [id])
  else mret (results ++ [0], ackCount, acknowledgedIds).

Lemma nth_lookup_default (l : list string) i x : l !! i = Some x → nth i l "" = x.
Proof. intros H. by apply nth_lookup_Some. Qed.

Lemma ack_turn_eq cfg q c now ids acc i id s :
  ids !! i = Some id →
  ack_turn (ack_keys q c ids) (ack_args cfg now ids) acc (1 + i) s = ack_one q c now acc id s.
Proof.
  intros Hi. unfold ack_turn.
  replace (arg (ack_args cfg now ids) (14 + (1 + i))) with id.
  2: { symmetry. unfold ack_args. rewrite app_assoc. etrans; [by apply (arg_behind 14 _ ids i)|].
       by apply nth_lookup_default. }
  replace (arg (ack_keys q c ids) (3 + (1 + i))) with (Message id).
  2: { symmetry. unfold ack_keys. etrans; [by apply (arg_behind 3 _ (Message <$> ids) i)|].
       apply nth_lookup_default. by rewrite list_lookup_fmap, Hi. }
  done.
Qed.

(** Which messages of a batch are in the processing list, and the reply. *)
Definition in_list (l ids : list string) : list string := filter (λ id, id ∈ l) ids.
Definition ack_results (l ids : list string) : list Z :=
  (λ id, if decide (id ∈ l) then 1 else 0) <$> ids.

Lemma elem_of_removed_iff id x l : x ≠ id → x ∈ remove_first id l ↔ x ∈ l.
Proof. intros H. split; [apply elem_of_remove_first|by apply elem_of_remove_first_ne]. Qed.

Lemma in_list_removed id l ids :
  id ∉ ids → in_list (remove_first id l) ids = in_list l ids ∧
             ack_results (remove_first id l) ids = ack_results l ids.
Proof.
  intros Hid. unfold in_list, ack_results. induction ids as [|x ids IH]; [done|].
  apply not_elem_of_cons in Hid as [Hx Hids]. destruct (IH Hids) as [IH1 IH2].
  rewrite !filter_cons, !fmap_cons, IH1, IH2.
  pose proof (elem_of_removed_iff id x l (not_eq_sym Hx)) as Hiff.
  split; [by apply decide_ext|]. f_equal. by apply decide_ext.
Qed.

Section ack_loop.
Context (q : Queue) (c : string) (now : Z).
Context (Hq : wf_queue q) (Hcn : no_colon c = true).

Lemma ack_loop_run ids : ∀ s a results n acked,
  messages_of q s a → NoDup ids → Forall (λ id, no_colon id = true) ids →
  (∀ id, id ∈ ids → id ∈ lst s (ConsumerProcessing q c) → a !! id = Some StatusProcessing) →
  let moved := in_list (lst s (ConsumerProcessing q c)) ids in
  ∃ s', foldM (ack_one q c now) (results, n, acked) ids s =
          (Ret (results ++ ack_results (lst s (ConsumerProcessing q c)) ids,
                n + Z.of_nat (length moved), acked ++ moved), s') ∧
        messages_of q s' (move_all StatusAcknowledged moved a) ∧
        hsh s' (Properties q) = hsh s (Properties q).
Proof using Hq Hcn.
  induction ids as [|id ids IH]; intros s a results n acked Hmo Hnd Hcol Hproc; simpl.
  { exists s. rewrite !app_nil_r, Z.add_0_r. done. }
  apply NoDup_cons in Hnd as [Hid Hnd]. apply Forall_cons in Hcol as [Hidn Hcol].
  pose proof (mo_wt _ _ _ Hmo) as Hw.
  set (l := lst s (ConsumerProcessing q c)) in *.
  pose proof (lrem1_run (ConsumerProcessing q c) id s ltac:(wt_view)) as Hrem. fold l in Hrem.
  unfold in_list, ack_results. rewrite filter_cons. fold (in_list l ids) (ack_results l ids).
  destruct (decide (id ∈ l)) as [Hin|Hin].
  - (* the message is claimed *)
    erewrite bind_Ret.
    2: { unfold ack_one. erewrite bind_Ret; [|exact Hrem].
         rewrite decide_True by lia. erewrite bind_Ret; [|apply hset_run; wt_view]. done. }
    rewrite hsh_upd_ne by key_ne. set (s1 := upd (Message id) _ _).
    assert (lst s1 (ConsumerProcessing q c) = remove_first id l) as Hl1 by (unfold s1; by views).
    destruct (in_list_removed id l ids Hid) as [Hf1 Hf2].
    pose proof (Hproc id ltac:(set_solver) Hin) as Hst.
    assert (messages_of q s1 (<[id := StatusAcknowledged]> a)) as Hmo1.
    { apply (messages_move q s _ a id StatusProcessing); [done|done|unfold s1; wt_solve| | | |].
      - unfold s1. by views.
      - unfold s1. rewrite hsh_upd. apply ack_fields_status.
      - intros id' Hne Hn'. unfold s1. by views.
      - apply (waiting_frame q s); [|unfold s1; by views..].
        eapply waiting_move; [apply Hmo|done|apply settled_processing]. }
    destruct (IH s1 (<[id := StatusAcknowledged]> a) (results ++ [1]) (n + 1) (acked ++ [id]))
      as (s' & Hrun & Hmo' & Hp'); [done|done|done| |].
    { intros id' Hid' Hin'. rewrite Hl1 in Hin'. apply elem_of_remove_first in Hin'.
      rewrite lookup_insert_ne by set_solver. apply Hproc; [set_solver|done]. }
    exists s'. rewrite Hl1, Hf1, Hf2 in Hrun. rewrite Hl1, Hf1 in Hmo'. split; [|split].
    + rewrite Hrun. rewrite <-!app_assoc. cbn [length app]. do 3 f_equal. f_equal. lia.
    + simpl. rewrite <-move_all_insert; [done|]. unfold in_list. intros [_ H]%list_elem_of_filter. done.
    + rewrite Hp'. unfold s1. by views.
  - (* not in the list *)
    erewrite bind_Ret.
    2: { unfold ack_one. erewrite bind_Ret; [|exact Hrem]. rewrite decide_False by lia. done. }
    destruct (IH s a (results ++ [0]) n acked) as (s' & Hrun & Hmo' & Hp'); [done|done|done| |].
    { intros id' Hid' Hin'. apply Hproc; [set_solver|done]. }
    exists s'. split; [|done]. rewrite Hrun. by rewrite <-!app_assoc.
Qed.
End ack_loop.

(** *** The audit list *)

Definition audit_ok (c : AuditMessagesConfig) : Prop := am_QueueSize c <= int64_max.

Lemma expireStoredMessages_int c :
  ∃ z, string2ll (expireStoredMessages c) = Some z.
Proof.
  unfold expireStoredMessages. repeat case_match; try (by exists 0).
  eexists. apply string2ll_itoa. apply wrap64_in.
Qed.

Lemma storedMessagesSize_int c :
  audit_ok c → ∃ z, string2ll (storedMessagesSize c) = Some z.
Proof.
  unfold audit_ok, storedMessagesSize. intros Hc. repeat case_match; try (by exists 0).
  eexists. apply string2ll_itoa. unfold in_int64, int64_min, int64_max in *. lia.
Qed.

Lemma pexpire_db rnow k ms z s :
  string2ll ms = Some z → ∃ b s', cmd_pexpire rnow k ms s = (Ret b, s') ∧ db s' = db s.
Proof. intros H. unfold cmd_pexpire. rewrite H. case_decide; eauto. Qed.

Lemma when_pexpire_db rnow b k ms z s :
  string2ll ms = Some z →
  ∃ s', when b (_ ← cmd_pexpire rnow k ms; mret tt) s = (Ret tt, s') ∧ db s' = db s.
Proof.
  intros H. destruct b; [|by exists s]. simpl.
  destruct (pexpire_db rnow k ms z s H) as (b & s' & Hr & Hd).
  exists s'. by erewrite bind_Ret.
Qed.

(** Writing to one list leaves the rest of the keyspace and its types alone. *)
Definition only_list (k : redis_key) (s s' : store) : Prop :=
  is_list s' (render_key k) ∧ ∀ k', k' ≠ render_key k → db s' !! k' = db s !! k'.

Lemma only_list_wt k s s' :
  wt s → wf_key k → key_type k = TList → only_list k s s' → wt s'.
Proof.
  intros Hw Hk Ht [Hl Ho] k' Hk'. destruct (decide (render_key k' = render_key k)) as [E|Hne].
  - apply render_key_inj in E; [|done..]. subst k'. by rewrite Ht.
  - rewrite Ho by done. by apply Hw.
Qed.

Lemma store_audit_run rnow k ids c s :
  wt s → wf_key k → key_type k = TList → audit_ok c →
  ∃ s', store_audit rnow (render_key k) ids (expireStoredMessages c) (storedMessagesSize c) s =
          (Ret tt, s') ∧ only_list k s s'.
Proof.
  intros Hw Hk Ht Hc. unfold store_audit.
  erewrite bind_Ret; [|apply rpush_run; by apply wt_list].
  set (s1 := upd _ _ _). cbv beta.
  destruct (expireStoredMessages_int c) as [ze Hze].
  destruct (when_pexpire_db rnow (bool_decide (expireStoredMessages c ≠ "0")) (render_key k) _ ze s1 Hze)
    as (s2 & Hr & Hd).
  erewrite bind_Ret; [|exact Hr]. cbv beta.
  assert (only_list k s s2) as H2.
  { unfold only_list, is_list. rewrite Hd. unfold s1. split; [apply is_list_upd|].
    intros k' Hne. by apply lookup_upd_ne. }
  destruct (bool_decide (storedMessagesSize c ≠ "0")); [|by exists s2]. simpl.
  destruct (storedMessagesSize_int c Hc) as [zs Hzs]. unfold cmd_ltrim_text. rewrite Hzs.
  eexists. split; [apply ltrim_run; apply H2|]. destruct H2 as [_ H2]. split; [apply is_list_upd|].
  intros k' Hne. rewrite lookup_upd_ne by done. by apply H2.
Qed.

Lemma only_list_hsh k s s' k' :
  only_list k s s' → k' ≠ render_key k → hsh s' k' = hsh s k'.
Proof. intros [_ H] Hne. unfold hsh. by rewrite H. Qed.
Lemma only_list_lst k s s' k' :
  only_list k s s' → k' ≠ render_key k → lst s' k' = lst s k'.
Proof. intros [_ H] Hne. unfold lst. by rewrite H. Qed.

Lemma only_list_accounts k q s s' a :
  accounts_of q s a → wf_queue q → wf_key k → key_type k = TList → k ≠ KPublished q →
  k ≠ KRequeued q → only_list k s s' → accounts_of q s' a.
Proof.
  intros [Hmo Hc] Hq Hk Ht Hne Hnr Ho. pose proof (only_list_wt k s s' (mo_wt _ _ _ Hmo) Hk Ht Ho) as Hw'.
  apply (accounts_props q s); [|eapply only_list_hsh; [done|]|done].
  - apply (messages_frame q s); [done|done| | | | |].
    + eapply only_list_lst; [done|]. apply (render_key_ne (KPublished q)); [wf_parts|done|done].
    + intros id st Hid. destruct (mo_status _ _ _ Hmo id st Hid) as (Hn & _ & _).
      erewrite only_list_hsh; [done|done|].
      apply (render_key_ne (KMessage id)); [wf_parts|done|]. by intros <-.
    + eapply only_list_lst; [done|]. apply (render_key_ne (KRequeued q)); [wf_parts|done|done].
    + destruct Ho as [_ Ho]. unfold zst. rewrite Ho; [done|].
      apply (render_key_ne (KDelayed q)); [wf_parts|done|]. by intros <-.
    + destruct Ho as [_ Ho]. unfold zst. rewrite Ho; [done|].
      apply (render_key_ne (KScheduled q)); [wf_parts|done|]. by intros <-.
  - apply (render_key_ne (KProperties q)); [wf_parts|done|]. by intros <-.
Qed.

(** *** The whole script *)

Section acknowledge.
Context (q : Queue) (c : string) (cfg : ConfigRec) (now rnow : Z) (ids : list string).
Context (s : store) (a : accounts).
Context (Ha : accounts_of q s a) (Hsm : small a) (Hq : wf_queue q) (Hcn : no_colon c = true).
Context (Hnd : NoDup ids) (Hcol : Forall (λ id, no_colon id = true) ids).
Context (Hproc : ∀ id, id ∈ ids → id ∈ lst s (ConsumerProcessing q c) →
                       a !! id = Some StatusProcessing).
Context (Hcfg : audit_ok (AcknowledgedMessages (cfg_MessageAudit cfg))).

Let moved : list string := in_list (lst s (ConsumerProcessing q c)) ids.

Lemma moved_NoDup : NoDup moved.
Proof using Hnd. by apply NoDup_filter. Qed.
Lemma moved_processing id : id ∈ moved → a !! id = Some StatusProcessing.
Proof using Hproc. intros [Hin Hid]%list_elem_of_filter. by apply Hproc. Qed.

Lemma moved_size : Z.of_nat (length moved) <= Z.of_nat (size a).
Proof using Hnd Hproc.
  assert (length moved <= size a)%nat; [|lia].
  assert (list_to_set moved ⊆@{gset string} dom a) as Hsub.
  { intros id Hid%elem_of_list_to_set. apply elem_of_dom. eexists. by apply moved_processing. }
  apply subseteq_size in Hsub. rewrite size_list_to_set in Hsub by apply moved_NoDup.
  by rewrite size_dom in Hsub.
Qed.

Lemma acknowledge_run :
  ∃ s', acknowledge_message rnow (ack_keys q c ids) (ack_args cfg now ids) s =
    (Ret (if decide (is_Some (db s !! Properties q)) then
            match refused s q with
            | Some reply => inl reply
            | None => inr (ack_results (lst s (ConsumerProcessing q c)) ids)
            end
          else inl "QUEUE_NOT_FOUND"), s') ∧
    (if decide (is_Some (db s !! Properties q) ∧ refused s q = None)
     then accounts_of q s' (move_all StatusAcknowledged moved a) else s' = s).
Proof using All.
  pose proof (mo_wt _ _ _ (proj1 Ha)) as Hw.
  unfold acknowledge_message.
  replace (length (ack_args cfg now ids) - 14)%nat with (length ids)
    by (unfold ack_args; rewrite !length_app; simpl; lia).
  eval_consumer_args. cbv zeta.
  erewrite bind_Ret; [|done].
  destruct (decide (is_Some (db s !! Properties q))) as [Hex|Hex].
  2: { rewrite bool_decide_eq_false_2 by done. exists s. split; [done|].
       rewrite decide_False by naive_solver. done. }
  rewrite bool_decide_eq_true_2 by done. cbn [negb].
  erewrite bind_Ret; [|apply hget_run; wt_view]. fold (op_state s q) (refused s q).
  destruct (refused s q) as [reply|].
  { exists s. split; [done|]. by rewrite decide_False by naive_solver. }
  destruct (ack_loop_run q c now Hq Hcn ids s a [] 0 [] (proj1 Ha) Hnd Hcol Hproc)
    as (s1 & Hrun & Hmo1 & Hp1).
  fold moved in Hrun, Hmo1. rewrite Z.add_0_l in Hrun. cbn [app] in Hrun.
  erewrite bind_Ret.
  2: { erewrite foldM_seq; [exact Hrun|]. intros b i x s0 Hx. by apply ack_turn_eq. }
  cbv beta iota.
  destruct (bool_decide (0 < Z.of_nat (length moved))) eqn:Hpos.
  - (* some acknowledged *)
    apply bool_decide_eq_true in Hpos. cbn [when].
    pose proof (mo_wt _ _ _ Hmo1) as Hw1. pose proof moved_size as Hsz.
    assert (counters_of (hsh s1 (Properties q)) a) as Hc1 by (rewrite Hp1; apply Ha).
    set (n := Z.of_nat (length moved)) in *.
    set (s2 := add_counter q Q_AcknowledgedMessagesCount n s1).
    set (s3 := add_counter q Q_ProcessingMessagesCount (- n) s2).
    assert (accounts_of q s3 (move_all StatusAcknowledged moved a)) as Ha3.
    { split; [apply (messages_frame q s1);
                [done|unfold s3, s2; wt_solve|unfold s3, s2; by views| |unfold s3, s2; by views..]|].
      - intros id st Hid. destruct (mo_status _ _ _ Hmo1 id st Hid) as (Hn & _ & _).
        unfold s3, s2. by views.
      - apply (counters_shift q s1 a _ StatusProcessing StatusAcknowledged); try done; [lia|].
        intros f Hf. apply account_move_all; auto using moved_NoDup, moved_processing. }
    destruct (store_audit_run rnow (KAcknowledged q) moved _ s3 (mo_wt _ _ _ (proj1 Ha3))
                ltac:(wf_parts) eq_refl Hcfg) as (s4 & Hrun4 & Ho4).
    assert (accounts_of q s4 (move_all StatusAcknowledged moved a)) as Ha4
      by (apply (only_list_accounts (KAcknowledged q) q s3); [done|done|wf_parts|done..]).
    exists (if bool_decide (storeMessages (AcknowledgedMessages (cfg_MessageAudit cfg)) = "1")
            then s4 else s3).
    split; [|rewrite decide_True by done; by case_match].
    erewrite bind_Ret; [done|].
    erewrite bind_Ret; [|apply hincrby_counter; [wt_view|eapply counter_can_move; [done|done|done|lia]]].
    erewrite bind_Ret.
    2: { apply hincrby_counter; [wt_view|]. apply counter_ok_ne; [done|].
         eapply counter_can_move; [done|done|done|lia]. }
    fold s2 s3. destruct (bool_decide (storeMessages _ = "1")); [exact Hrun4|done].
  - exists s1. split; [done|]. rewrite decide_True by done. apply bool_decide_eq_false in Hpos.
    assert (moved = []) as Hnil by (destruct moved; [done|simpl in Hpos; lia]).
    rewrite Hnil in *. cbn [move_all foldr] in *.
    apply (accounts_props q s); [done|done|apply Ha].
Qed.
End acknowledge.

(** ** Unacknowledgement *)

(** The status the builder's decision leads to. *)
Definition unack_target (now : Z) (entry : UnackEntry) : Z :=
  if decide ((resolveUnackAction now (ue_Message entry) (ue_Cause entry)).1 = ActionDeadLetter)
  then StatusDeadLettered else StatusUnackRequeuing.

Lemma resolve_cases now msg cause :
  let action := (resolveUnackAction now msg cause).1 in
  action = ActionDeadLetter ∨ action = ActionRequeue ∨ action = ActionDelay.
Proof. unfold resolveUnackAction. repeat case_match; simpl; auto. Qed.

(** The script reads the decision back from the argument. *)
Lemma unack_decision now entry :
  let action := (resolveUnackAction now (ue_Message entry) (ue_Cause entry)).1 in
  let retryAction := if decide (action = ActionDeadLetter) then "" else itoa action in
  (retryAction = itoa ActionRequeue ∨ retryAction = itoa ActionDelay) ↔
  unack_target now entry = StatusUnackRequeuing.
Proof.
  unfold unack_target.
  destruct (resolve_cases now (ue_Message entry) (ue_Cause entry)) as [->|[->| ->]]; cbn; split; auto;
    intros H; try discriminate H; destruct H as [H|H]; discriminate H.
Qed.

Definition unack_entry_id (entry : UnackEntry) : string := ID (ue_Message entry).

(** The unacknowledgement count of the message, when there is one, is an
    integer. *)
Definition unack_count_ok (h : gmap string string) : Prop :=
  ∃ z, string2ll (default "0" (h !! "unacknowledgedCount")) = Some z ∧ in_int64 (z + 1).

Definition unack_one (rnow : Z) (cfg : ConfigRec) (now now' : Z) (q : Queue) (c : string)
    (acc : unack_acc) (entry : UnackEntry) : M unack_acc :=
  let id := unack_entry_id entry in
  let args := unack_static cfg in
  let av := unack_entry_args cfg now now' entry in
  if decide (id = "") then mret acc
  else
    removed ← cmd_lrem1 (ConsumerProcessing q c) id;
    if decide (removed = 1) then
      routed ← unack_route rnow [Requeued q; DeadLetter q] args id (arg av 2) acc;
      let '(status, acc) := routed in
      _ ← unack_history rnow args (Message id) (MessageAcknowledgementHistory id) (arg av 7);
      _ ← cmd_hset (Message id)
            [(mkey F_Status, status); (mkey F_UnacknowledgedAt, arg av 5);
             (mkey F_LastUnacknowledgedAt, arg av 6); (mkey F_DeadLetteredAt, arg av 3);
             (mkey F_Expired, arg av 4)];
      mret {| u_processed := u_processed acc + 1; u_deadLettered := u_deadLettered acc;
              u_requeued := u_requeued acc |}
    else mret acc.

(** Blocks of fixed length laid end to end. *)
Lemma nth_blocks {A} (f : A → list string) n l i j x :
  (∀ y, length (f y) = n) → l !! i = Some x → (j < n)%nat →
  nth (n * i + j) (l ≫= f) "" = nth j (f x) "".
Proof.
  intros Hlen. revert i. induction l as [|y l IH]; intros i Hi Hj; [done|].
  destruct i as [|i]; simpl in Hi.
  - injection Hi as ->. simpl. rewrite Nat.mul_0_r, app_nth1; [done|]. rewrite Hlen. lia.
  - simpl. rewrite app_nth2 by (rewrite Hlen; lia). rewrite Hlen, <-(IH i) by done. f_equal. lia.
Qed.

Lemma length_blocks {A} (f : A → list string) n (es : list A) :
  (∀ y, length (f y) = n) → length (es ≫= f) = (n * length es)%nat.
Proof.
  intros Hf. induction es as [|e es IH]; [cbn; lia|].
  rewrite bind_cons, length_app, Hf, IH. cbn [length]. lia.
Qed.

Lemma unack_turn_eq rnow cfg now now' q c entries acc i entry s :
  entries !! i = Some entry →
  unack_turn rnow (unack_keys q c entries) (unack_args cfg now now' entries) acc (0 + i) s =
  unack_one rnow cfg now now' q c acc entry s.
Proof.
  intros Hi. unfold unack_turn. rewrite Nat.add_0_l.
  assert (∀ j, (j < 7)%nat →
    arg (unack_args cfg now now' entries) (22 + 7 * i + j) =
    nth j (unack_entry_args cfg now now' entry) "") as Hargs.
  { intros j Hj. unfold unack_args.
    replace (22 + 7 * i + j)%nat with (21 + S (7 * i + j))%nat by lia.
    rewrite (arg_behind 21) by done.
    by apply (nth_blocks (unack_entry_args cfg now now') 7 entries i j entry). }
  assert (∀ j, (j < 3)%nat →
    arg (unack_keys q c entries) (4 + 3 * i + j) = nth j (unack_entry_keys q c entry) "") as Hkeys.
  { intros j Hj. unfold unack_keys.
    replace (4 + 3 * i + j)%nat with (3 + S (3 * i + j))%nat by lia.
    rewrite (arg_behind 3) by done.
    by apply (nth_blocks (unack_entry_keys q c) 3 entries i j entry). }
  pose proof (Hargs 0%nat) as A0. pose proof (Hkeys 0%nat) as K0.
  rewrite Nat.add_0_r in A0, K0. rewrite A0, K0 by lia. rewrite !Hargs, !Hkeys by lia.
  done.
Qed.

Section unack_turn.
Context (rnow : Z) (cfg : ConfigRec) (now now' : Z) (q : Queue) (c : string) (entry : UnackEntry).
Context (Hq : wf_queue q) (Hcn : no_colon c = true).
Context (Hcfg : audit_ok (DeadLetteredMessages (cfg_MessageAudit cfg))).
Context (Hidn : no_colon (unack_entry_id entry) = true).

Let id : string := unack_entry_id entry.
Let av : list string := unack_entry_args cfg now now' entry.
Let target : Z := unack_target now' entry.

Lemma only_list_refl k s : wt s → wf_key k → key_type k = TList → only_list k s s.
Proof. intros Hw Hk Ht. split; [by apply wt_list|done]. Qed.

Definition routed_acc (acc : unack_acc) : unack_acc := {|
  u_processed := u_processed acc;
  u_deadLettered := u_deadLettered acc + (if decide (target = StatusDeadLettered) then 1 else 0);
  u_requeued := u_requeued acc + (if decide (target = StatusDeadLettered) then 0 else 1)
|}.

Lemma target_cases : target = StatusDeadLettered ∨ target = StatusUnackRequeuing.
Proof. unfold target, unack_target. case_decide; auto. Qed.

Lemma unack_route_run acc s :
  wt s →
  ∃ k s1, unack_route rnow [Requeued q; DeadLetter q] (unack_static cfg) id (arg av 2) acc s =
            (Ret (itoa target, routed_acc acc), s1) ∧
          (k = KRequeued q ∨ k = KDeadLetter q) ∧ only_list k s s1 ∧
          lst s1 (Requeued q) =
            lst s (Requeued q) ++ (if decide (target = StatusUnackRequeuing) then [id] else []).
Proof using Hq Hcfg.
  intros Hw. unfold unack_route. pose proof (unack_decision now' entry) as Hdec.
  change (arg av 2) with
    (if decide ((resolveUnackAction now' (ue_Message entry) (ue_Cause entry)).1 = ActionDeadLetter)
     then "" else itoa (resolveUnackAction now' (ue_Message entry) (ue_Cause entry)).1).
  cbv zeta in Hdec. fold target in Hdec. eval_consumer_args.
  set (ra := if decide (_ = ActionDeadLetter) then _ else _) in *.
  destruct (decide (ra = itoa ActionRequeue ∨ ra = itoa ActionDelay)) as [Hr|Hr].
  - assert (target = StatusUnackRequeuing) as Ht by by apply Hdec.
    exists (KRequeued q). eexists. split; [|split; [by left|]].
    + erewrite bind_Ret; [|apply rpush_run; wt_view]. rewrite Ht. cbv beta.
      unfold routed_acc. rewrite Ht. cbn [decide]. rewrite !decide_False by done.
      destruct acc; simpl. by rewrite Z.add_0_r.
    + split; [split; [apply is_list_upd|]; intros k' Hne; by apply lookup_upd_ne|].
      by rewrite lst_upd, decide_True.
  - assert (target = StatusDeadLettered) as Ht.
    { destruct target_cases as [|E]; [done|]. by apply Hdec in E. }
    destruct (store_audit_run rnow (KDeadLetter q) [id] _ s Hw ltac:(wf_parts) eq_refl Hcfg)
      as (s1 & Hrun & Ho).
    exists (KDeadLetter q).
    exists (if bool_decide (storeMessages (DeadLetteredMessages (cfg_MessageAudit cfg)) = "1")
            then s1 else s).
    assert (only_list (KDeadLetter q) s
      (if bool_decide (storeMessages (DeadLetteredMessages (cfg_MessageAudit cfg)) = "1")
       then s1 else s)) as Ho' by (case_match; [done|by apply only_list_refl; [|wf_parts|]]).
    split; [|split; [by right|split; [done|]]].
    2: { erewrite only_list_lst;
           [|exact Ho'|apply (render_key_ne (KRequeued q)); [wf_parts|wf_parts|done]]. rewrite decide_False by by rewrite Ht.
         by rewrite app_nil_r. }
    erewrite bind_Ret.
    2: { instantiate (1 := if bool_decide (storeMessages
           (DeadLetteredMessages (cfg_MessageAudit cfg)) = "1") then s1 else s).
         instantiate (1 := tt). destruct (bool_decide _); [exact Hrun|done]. }
    rewrite Ht. unfold routed_acc. rewrite Ht, !decide_True by done.
    destruct acc; simpl. by rewrite Z.add_0_r.
Qed.

Lemma unack_history_run s :
  wt s → unack_count_ok (hsh s (Message id)) →
  ∃ s1, unack_history rnow (unack_static cfg) (Message id) (MessageAcknowledgementHistory id)
          (arg av 7) s = (Ret tt, s1) ∧ wt s1 ∧
        ∀ k, k ≠ Message id → k ≠ MessageAcknowledgementHistory id → db s1 !! k = db s !! k.
Proof using Hidn.
  intros Hw (z & Hz & Hz1). unfold unack_history. fold id in Hidn.
  destruct (bool_decide (arg av 7 ≠ "")); [|by exists s]. cbn [when]. eval_consumer_args. cbv zeta.
  erewrite bind_Ret; [|apply lpush_run; wt_view].
  set (s1 := upd _ _ s). set (mx := (ParseInt _).1).
  set (s2 := if bool_decide (0 < mx) then
               upd (MessageAcknowledgementHistory id)
                 (list_val (ltrim 0 (mx - 1) (lst s1 (MessageAcknowledgementHistory id)))) s1 else s1).
  assert (wt s1) as Hw1 by (unfold s1; wt_solve).
  assert (wt s2) as Hw2 by (unfold s2; destruct (bool_decide _); [wt_solve|done]).
  cbv beta. erewrite bind_Ret.
  2: { instantiate (1 := s2). instantiate (1 := tt). unfold s2.
       destruct (bool_decide (0 < mx)); [apply ltrim_run; wt_view|done]. }
  cbv beta. destruct (expireStoredMessages_int (DeadLetteredMessages (cfg_MessageAudit cfg))) as [ze Hze].
  destruct (when_pexpire_db rnow
    (bool_decide (expireStoredMessages (DeadLetteredMessages (cfg_MessageAudit cfg)) ≠ "0"))
    (MessageAcknowledgementHistory id) _ ze s2 Hze) as (s3 & Hr3 & Hd3).
  erewrite bind_Ret; [|exact Hr3]. cbv beta.
  assert (wt s3) as Hw3 by (unfold wt; by rewrite Hd3).
  assert (∀ k, k ≠ MessageAcknowledgementHistory id → db s3 !! k = db s !! k) as Hf3.
  { intros k Hk. rewrite Hd3. unfold s2, s1.
    destruct (bool_decide _); by rewrite ?lookup_upd_ne. }
  assert (hsh s3 (Message id) = hsh s (Message id)) as Hm3.
  { unfold hsh. rewrite Hf3; [done|]. key_ne. }
  erewrite bind_Ret.
  2: { apply hincrby_run; [wt_view|]. rewrite Hm3. unfold hincr. rewrite Hz. by rewrite decide_True. }
  eexists. split; [done|]. split; [wt_solve|].
  intros k Hk1 Hk2. rewrite lookup_upd_ne by done. by apply Hf3.
Qed.

(** A message that was in processing joins the requeue list, or no list. *)
Lemma waiting_unack q' s s' a i st :
  waiting_of q' s a → a !! i = Some StatusProcessing →
  lst s' (Requeued q') =
    lst s (Requeued q') ++ (if decide (st = StatusUnackRequeuing) then [i] else []) →
  zst s' (Delayed q') = zst s (Delayed q') → zst s' (Scheduled q') = zst s (Scheduled q') →
  waiting_of q' s' (<[i := st]> a).
Proof.
  intros Hwo Hi Hr Hd Hs.
  pose proof (waiting_move q' s a i _ st Hwo Hi settled_processing) as [N R D S].
  split; rewrite ?Hr, ?Hd, ?Hs; [|intros j [Hj|Hj]%elem_of_app; [by apply R|]|done|done].
  - apply NoDup_app. split; [done|]. split; [|case_decide; [apply NoDup_singleton|constructor]].
    intros j Hj. case_decide; [|apply not_elem_of_nil]. intros ->%list_elem_of_singleton.
    apply (wo_requeued _ _ _ Hwo) in Hj. rewrite Hi in Hj; discriminate Hj.
  - case_decide as E; [|by apply elem_of_nil in Hj]. apply list_elem_of_singleton in Hj as ->.
    rewrite lookup_insert_eq. by rewrite E.
Qed.

(** What one turn does to a message that is in the processing list. *)
Lemma unack_claimed_run acc s a :
  messages_of q s a → a !! id = Some StatusProcessing → id ≠ "" →
  unack_count_ok (hsh s (Message id)) → id ∈ lst s (ConsumerProcessing q c) →
  ∃ s1, unack_one rnow cfg now now' q c acc entry s =
          (Ret {| u_processed := u_processed acc + 1;
                  u_deadLettered := u_deadLettered (routed_acc acc);
                  u_requeued := u_requeued (routed_acc acc) |}, s1) ∧
        messages_of q s1 (<[id := target]> a) ∧
        hsh s1 (Properties q) = hsh s (Properties q) ∧
        lst s1 (ConsumerProcessing q c) = remove_first id (lst s (ConsumerProcessing q c)) ∧
        ∀ id', id' ≠ id → no_colon id' = true → hsh s1 (Message id') = hsh s (Message id').
Proof using All.
  intros Hmo Hst Hne Hcnt Hin. pose proof (mo_wt _ _ _ Hmo) as Hw. fold id in Hidn.
  unfold unack_one. fold id av. rewrite decide_False by done.
  pose proof (lrem1_run (ConsumerProcessing q c) id s ltac:(wt_view)) as Hrem.
  rewrite decide_True in Hrem by done.
  erewrite bind_Ret; [|exact Hrem]. rewrite decide_True by done.
  set (s1 := upd _ _ s). assert (wt s1) as Hw1 by (unfold s1; wt_solve).
  destruct (unack_route_run acc s1 Hw1) as (k & s2 & Hr2 & Hk & Ho2 & Hq2).
  assert (wf_key k ∧ key_type k = TList) as [Wk Tk] by (destruct Hk; subst k; split; [wf_parts|done|wf_parts|done]).
  pose proof (only_list_wt k s1 s2 Hw1 Wk Tk Ho2) as Hw2.
  erewrite bind_Ret; [|exact Hr2]. cbv iota beta.
  assert (∀ id', no_colon id' = true → hsh s2 (Message id') = hsh s (Message id')) as Hm2.
  { intros id' Hn'. erewrite only_list_hsh; [|exact Ho2|].
    - unfold s1. by views.
    - apply (render_key_ne (KMessage id')); [wf_parts|done|]. destruct Hk; by subst k. }
  destruct (unack_history_run s2 Hw2) as (s3 & Hr3 & Hw3 & Hf3); [by rewrite Hm2|].
  erewrite bind_Ret; [|exact Hr3].
  erewrite bind_Ret; [|apply hset_run; wt_view].
  eexists. split; [done|].
  assert (∀ k', wf_key k' → k' ≠ k → k' ≠ KConsumerProcessing q c →
    k' ≠ KMessage id → k' ≠ KMessageHistory id → db s3 !! render_key k' = db s !! render_key k') as Hfr.
  { intros k' Hwk H1 H2 H3 H4. rewrite Hf3.
    - destruct Ho2 as [_ Ho2]. rewrite Ho2 by by apply render_key_ne. unfold s1.
      apply lookup_upd_ne. apply (render_key_ne (KConsumerProcessing q c)); [wf_parts|done|done].
    - apply (render_key_ne k' (KMessage id)); [done|wf_parts|done].
    - apply (render_key_ne k' (KMessageHistory id)); [done|wf_parts|done]. }
  assert (hsh s3 (Properties q) = hsh s (Properties q)) as Hp3.
  { pose proof (Hfr (KProperties q)) as H. cbn [render_key] in H. unfold hsh. rewrite H; try done;
      [wf_parts|destruct Hk; by subst k]. }
  assert (lst s3 (Published q) = lst s (Published q)) as Hl3.
  { pose proof (Hfr (KPublished q)) as H. cbn [render_key] in H. unfold lst. rewrite H; try done;
      [wf_parts|destruct Hk; by subst k]. }
  assert (lst s3 (ConsumerProcessing q c) = remove_first id (lst s (ConsumerProcessing q c))) as Hc3.
  { unfold lst at 1. rewrite Hf3; [|key_ne|key_ne].
    change (lst s2 (ConsumerProcessing q c) = remove_first id (lst s (ConsumerProcessing q c))).
    erewrite only_list_lst; [|exact Ho2|].
    - unfold s1. by views.
    - apply (render_key_ne (KConsumerProcessing q c)); [wf_parts|done|]. destruct Hk; by subst k. }
  assert (lst s3 (Requeued q) = lst s (Requeued q) ++
            (if decide (target = StatusUnackRequeuing) then [id] else [])) as Hrq3.
  { unfold lst at 1. rewrite Hf3; [|key_ne|key_ne]. fold (lst s2 (Requeued q)). rewrite Hq2.
    unfold s1. by views. }
  assert (zst s3 (Delayed q) = zst s (Delayed q)) as Hdl3.
  { pose proof (Hfr (KDelayed q)) as H. cbn [render_key] in H. unfold zst. rewrite H; try done;
      [wf_parts|destruct Hk; by subst k]. }
  assert (zst s3 (Scheduled q) = zst s (Scheduled q)) as Hsc3.
  { pose proof (Hfr (KScheduled q)) as H. cbn [render_key] in H. unfold zst. rewrite H; try done;
      [wf_parts|destruct Hk; by subst k]. }
  assert (∀ id', id' ≠ id → no_colon id' = true → hsh s3 (Message id') = hsh s (Message id')) as Hm3.
  { intros id' Hne' Hn'. rewrite <-Hm2 by done. unfold hsh. rewrite Hf3; [done|key_ne|key_ne]. }
  split; [|split; [by views|split; [by views|]]].
  - apply (messages_move q s _ a id StatusProcessing); [done|done|wt_solve|by views|..].
    + rewrite hsh_upd. unfold hset_all. simpl.
      repeat (rewrite lookup_insert_ne by done). apply lookup_insert_eq.
    + intros id' Hne' Hn'. views. by rewrite Hm3.
    + apply (waiting_unack q s _ a id target); [apply Hmo|done|by views..].
  - intros id' Hne' Hn'. views. by apply Hm3.
Qed.

Lemma unack_unclaimed_run acc s :
  wt s → id ∉ lst s (ConsumerProcessing q c) →
  unack_one rnow cfg now now' q c acc entry s = (Ret acc, s).
Proof using Hq Hcn.
  intros Hw Hin. unfold unack_one. fold id. case_decide; [done|].
  pose proof (lrem1_run (ConsumerProcessing q c) id s ltac:(wt_view)) as Hrem.
  rewrite decide_False in Hrem by done. erewrite bind_Ret; [|exact Hrem]. done.
Qed.
End unack_turn.

Lemma sdelta_add st m n f : sdelta st (m + n) f = sdelta st m f + sdelta st n f.
Proof. unfold sdelta, delta. destruct (status_field st); [case_decide|]; lia. Qed.
Lemma sdelta_0 st f : sdelta st 0 f = 0.
Proof. unfold sdelta, delta. destruct (status_field st); [by case_decide|done]. Qed.

Lemma sdelta_neg st n f : sdelta st (- n) f = - sdelta st n f.
Proof. unfold sdelta, delta. destruct (status_field st); [by case_decide|done]. Qed.

(** The accounts after a batch: every message that was in the processing list
    has the status its decision leads to. *)
Definition unack_all (now' : Z) (l : list string) (entries : list UnackEntry) (a : accounts)
    : accounts :=
  foldl (λ a e, if decide (unack_entry_id e ∈ l)
                then <[unack_entry_id e := unack_target now' e]> a else a) a entries.

(** Messages of the batch that are dead-lettered, and that are requeued. *)
Definition unack_count (now' : Z) (l : list string) (entries : list UnackEntry) (st : Z) : Z :=
  Z.of_nat (length (filter (λ e, unack_entry_id e ∈ l ∧ unack_target now' e = st) entries)).

Lemma unack_all_removed now' id l entries a :
  id ∉ unack_entry_id <$> entries →
  unack_all now' (remove_first id l) entries a = unack_all now' l entries a.
Proof.
  unfold unack_all. revert a. induction entries as [|e es IH]; intros a Hid; [done|]. simpl in *.
  apply not_elem_of_cons in Hid as [He Hid]. rewrite IH by done.
  f_equal. apply decide_ext. apply elem_of_removed_iff. congruence.
Qed.

Lemma unack_count_removed now' id l entries st :
  id ∉ unack_entry_id <$> entries →
  unack_count now' (remove_first id l) entries st = unack_count now' l entries st.
Proof.
  unfold unack_count. intros Hid. do 2 f_equal.
  induction entries as [|e es IH]; [done|]. simpl in Hid.
  apply not_elem_of_cons in Hid as [He Hid]. rewrite !filter_cons, IH by done.
  apply decide_ext. rewrite elem_of_removed_iff by congruence. done.
Qed.

Lemma unack_count_cons now' l e es st :
  unack_count now' l (e :: es) st =
  (if decide (unack_entry_id e ∈ l ∧ unack_target now' e = st) then 1 else 0) +
  unack_count now' l es st.
Proof. unfold unack_count. rewrite filter_cons. case_decide; simpl; lia. Qed.

Section unack_loop.
Context (rnow : Z) (cfg : ConfigRec) (now now' : Z) (q : Queue) (c : string).
Context (Hq : wf_queue q) (Hcn : no_colon c = true).
Context (Hcfg : audit_ok (DeadLetteredMessages (cfg_MessageAudit cfg))).

(** A list without the first occurrence of each identifier. *)
Definition taken_out (ids l : list string) : list string := foldl (λ l id, remove_first id l) l ids.

(** What is required of the messages of a batch. *)
Definition unackable (s : store) (a : accounts) (e : UnackEntry) : Prop :=
  no_colon (unack_entry_id e) = true ∧
  (unack_entry_id e ∈ lst s (ConsumerProcessing q c) →
     a !! unack_entry_id e = Some StatusProcessing ∧
     unack_count_ok (hsh s (Message (unack_entry_id e)))).

Lemma unack_loop_run entries : ∀ s a acc,
  messages_of q s a → NoDup (unack_entry_id <$> entries) →
  (∀ e, e ∈ entries → unackable s a e) →
  let l := lst s (ConsumerProcessing q c) in
  let d := unack_count now' l entries StatusDeadLettered in
  let r := unack_count now' l entries StatusUnackRequeuing in
  let a' := unack_all now' l entries a in
  ∃ s', foldM (unack_one rnow cfg now now' q c) acc entries s =
          (Ret {| u_processed := u_processed acc + (d + r);
                  u_deadLettered := u_deadLettered acc + d;
                  u_requeued := u_requeued acc + r |}, s') ∧
        messages_of q s' a' ∧ hsh s' (Properties q) = hsh s (Properties q) ∧
        size a' = size a ∧ lst s' (ConsumerProcessing q c) = taken_out (unack_entry_id <$> entries) l ∧
        ∀ f, is_counter f = true →
          account a' f = account a f + sdelta StatusDeadLettered d f +
                         sdelta StatusUnackRequeuing r f + sdelta StatusProcessing (- (d + r)) f.
Proof using All.
  induction entries as [|e es IH]; intros s a acc Hmo Hnd Hok.
  { exists s. split; [destruct acc; simpl; by rewrite !Z.add_0_r|].
    split; [done|]. split; [done|]. split; [done|]. split; [done|]. intros f Hf.
    change (unack_count _ _ [] _) with 0. rewrite !sdelta_0. simpl. lia. }
  rewrite fmap_cons in Hnd. apply NoDup_cons in Hnd as [Hid Hnd].
  pose proof (mo_wt _ _ _ Hmo) as Hw. pose proof (Hok e ltac:(set_solver)) as [Hn Hcl].
  cbv zeta. set (l := lst s (ConsumerProcessing q c)) in *.
  rewrite !unack_count_cons. cbn [unack_all foldl foldM]. fold (unack_all now' l es).
  destruct (decide (unack_entry_id e ∈ l)) as [Hin|Hin].
  - destruct (Hcl Hin) as [Hst Hcnt].
    destruct (mo_status _ _ _ Hmo _ _ Hst) as (_ & Hne & _).
    destruct (unack_claimed_run rnow cfg now now' q c e Hq Hcn Hcfg Hn acc s a Hmo Hst Hne Hcnt Hin)
      as (s1 & Hr1 & Hmo1 & Hp1 & Hl1 & Hm1).
    erewrite bind_Ret; [|exact Hr1]. fold l in Hl1.
    destruct (IH s1 (<[unack_entry_id e := unack_target now' e]> a)
                {| u_processed := u_processed acc + 1;
                   u_deadLettered := u_deadLettered (routed_acc now' e acc);
                   u_requeued := u_requeued (routed_acc now' e acc) |})
      as (s' & Hr & Hmo' & Hp' & Hsz & Hlst & Hac); [done|done| |].
    { intros e' He'. assert (unack_entry_id e' ≠ unack_entry_id e) as Hne'.
      { intros E. apply Hid. rewrite <-E. apply list_elem_of_fmap. by exists e'. }
      destruct (Hok e' ltac:(set_solver)) as [Hn' Hcl']. split; [done|].
      rewrite Hl1. intros Hin'%elem_of_remove_first.
      rewrite lookup_insert_ne, Hm1 by done. by apply Hcl'. }
    rewrite Hl1, unack_all_removed, !unack_count_removed in * by done.
    assert ((if decide (unack_entry_id e ∈ l ∧ unack_target now' e = StatusDeadLettered)
             then 1 else 0) =
            (if decide (unack_target now' e = StatusDeadLettered) then 1 else 0)) as Hd1
      by (apply decide_ext; tauto).
    assert ((if decide (unack_entry_id e ∈ l ∧ unack_target now' e = StatusUnackRequeuing)
             then 1 else 0) =
            (if decide (unack_target now' e = StatusDeadLettered) then 0 else 1)) as Hr1'.
    { destruct (target_cases now' e) as [E|E]; rewrite E;
        [rewrite decide_False by (intros []; done)|rewrite decide_True by done]; done. }
    exists s'. rewrite Hr. split; [|split; [done|split; [by rewrite Hp', Hp1|split; [|split]]]].
    + rewrite Hd1, Hr1'. unfold routed_acc. simpl.
      destruct (decide (unack_target now' e = StatusDeadLettered)); do 3 f_equal; lia.
    + etrans; [exact Hsz|]. by apply map_size_insert_Some; eexists.
    + exact Hlst.
    + intros f Hf. etrans; [by apply Hac|].
      rewrite (account_move a _ StatusProcessing), Hd1, Hr1' by done.
      destruct (target_cases now' e) as [E|E]; rewrite E; cbn [decide];
        rewrite ?(decide_True (P := StatusDeadLettered = StatusDeadLettered)),
          ?(decide_False (P := StatusUnackRequeuing = StatusDeadLettered)) by done;
        change (-1) with (- (1)); rewrite !sdelta_neg, !sdelta_add, ?sdelta_0; lia.
  - erewrite bind_Ret; [|by apply unack_unclaimed_run].
    destruct (IH s a acc) as (s' & Hr & Hmo' & Hp' & Hsz & Hlst & Hac); [done|done|by set_solver|].
    rewrite !(decide_False (P := unack_entry_id e ∈ l ∧ _)) by (by intros []).
    exists s'. split_and!; try done. rewrite Hlst. fold l. cbn [taken_out foldl fmap list_fmap].
    by rewrite remove_first_notin.
Qed.
End unack_loop.

(** A guarded counter update at the end of a script. *)
Lemma when_bump q f b n s c :
  wt s → wf_queue q → tally (hsh s (Properties q)) c → is_counter f = true →
  in_int64 (c f) → in_int64 (c f + n) → (b = false → n = 0) →
  ∃ s', when b (_ ← cmd_hincrby (Properties q) (qkey f) n; mret tt) s = (Ret tt, s') ∧
        wt s' ∧ tally (hsh s' (Properties q)) (λ g, c g + delta f n g) ∧
        ∀ k, k ≠ Properties q → db s' !! k = db s !! k.
Proof.
  intros Hw Hq Ht Hf Hr Hrn Hb. destruct b; simpl.
  - exists (add_counter q f n s). erewrite bind_Ret;
      [|apply hincrby_counter; [wt_view|by apply (tally_ok q s c)]].
    split; [done|]. split; [wt_solve|]. split; [by apply tally_add|].
    intros k Hk. by apply lookup_upd_ne.
  - rewrite Hb by done. exists s. split; [done|]. split; [done|]. split; [|done].
    eapply tally_ext; [done|]. intros g Hg. unfold delta. case_decide; lia.
Qed.

(** Several of them, to different counters. *)
Fixpoint bump_all (q : Queue) (l : list (qfield * Z)) : M unit :=
  match l with
  | [] => mret tt
  | (f, n) :: l =>
      _ ← when (bool_decide (n ≠ 0)) (_ ← cmd_hincrby (Properties q) (qkey f) n; mret tt);
      bump_all q l
  end.

Definition deltas (l : list (qfield * Z)) (g : qfield) : Z :=
  foldr (λ fn z, delta fn.1 fn.2 g + z) 0 l.

Lemma bump_all_run q l : ∀ s c,
  wt s → wf_queue q → tally (hsh s (Properties q)) c → NoDup l.*1 →
  (∀ f n, (f, n) ∈ l → is_counter f = true ∧ in_int64 (c f) ∧ in_int64 (c f + n)) →
  ∃ s', bump_all q l s = (Ret tt, s') ∧ wt s' ∧
        tally (hsh s' (Properties q)) (λ g, c g + deltas l g) ∧
        ∀ k, k ≠ Properties q → db s' !! k = db s !! k.
Proof.
  induction l as [|[f n] l IH]; intros s c Hw Hq Ht Hnd Hl.
  { exists s. repeat split; try done. eapply tally_ext; [done|]. intros g _. cbn [deltas foldr]. lia. }
  rewrite fmap_cons in Hnd. apply NoDup_cons in Hnd as [Hf Hnd].
  destruct (Hl f n) as (Hc & H1 & H2); [apply elem_of_cons; by left|].
  destruct (when_bump q f (bool_decide (n ≠ 0)) n s c Hw Hq Ht Hc H1 H2) as (s1 & Hr1 & Hw1 & Ht1 & Hf1).
  { intros H%bool_decide_eq_false. by apply dec_stable. }
  destruct (IH s1 _ Hw1 Hq Ht1 Hnd) as (s2 & Hr2 & Hw2 & Ht2 & Hf2).
  { intros g m Hg. destruct (Hl g m) as (Hc' & H1' & H2'); [apply elem_of_cons; by right|].
    rewrite delta_ne, Z.add_0_r; [done|]. intros ->. apply Hf. apply list_elem_of_fmap. by exists (f, m). }
  exists s2. cbn [bump_all]. erewrite bind_Ret; [|exact Hr1]. split; [done|]. split; [done|]. split.
  - eapply tally_ext; [exact Ht2|]. intros g _. cbn [deltas foldr fst snd]. fold (deltas l g). lia.
  - intros k Hk. by rewrite Hf2, Hf1.
Qed.

(** The other properties stay. *)
Lemma bump_all_fields q l : ∀ s s' g,
  wt s → wf_queue q → bump_all q l s = (Ret tt, s') → g ∉ l.*1 →
  hsh s' (Properties q) !! qkey g = hsh s (Properties q) !! qkey g.
Proof.
  induction l as [|[f n] l IH]; intros s s' g Hw Hq Hr Hg; [by injection Hr as ->|].
  rewrite fmap_cons, not_elem_of_cons in Hg. destruct Hg as [Hf Hg]. cbn [bump_all fst] in *. unfold when in Hr.
  destruct (bool_decide (n ≠ 0)); [|rewrite (bind_Ret _ _ s tt s) in Hr by done; by eapply IH].
  destruct (cmd_hincrby (Properties q) (qkey f) n s) as [[z|e] s1] eqn:E.
  - assert (wt s1 ∧ hsh s1 (Properties q) !! qkey g = hsh s (Properties q) !! qkey g) as [Hw1 <-].
    { unfold cmd_hincrby in E. rewrite with_hash_run in E by wt_view.
      destruct (hincr _ _ _); [|done]. cbn in E. injection E as <- <-. unfold put_hash. split; [wt_solve|].
      rewrite hsh_upd, lookup_insert_ne; [done|]. by intros <-%(inj qkey). }
    rewrite (bind_Ret _ _ s tt s1) in Hr by (by rewrite (bind_Ret _ _ _ _ _ E)). by eapply IH.
  - rewrite (bind_Err _ _ s e s1) in Hr by (by rewrite (bind_Err _ _ _ _ _ E)). done.
Qed.

(** Only the properties of the queue may have changed. *)
Lemma messages_props_frame q s s' a :
  messages_of q s a → wf_queue q → wt s' →
  (∀ k, k ≠ Properties q → db s' !! k = db s !! k) → messages_of q s' a.
Proof.
  intros Hmo Hq Hw' Hf. apply (messages_frame q s); [done|done| | | | |].
  3-5: unfold lst, zst; rewrite Hf; [done|key_ne].
  - unfold lst. rewrite Hf; [done|key_ne].
  - intros id st Hid. destruct (mo_status _ _ _ Hmo id st Hid) as (Hn & _ & _).
    unfold hsh. rewrite Hf; [done|key_ne].
Qed.

Lemma deltas_elem l f n : NoDup l.*1 → (f, n) ∈ l → deltas l f = n.
Proof.
  induction l as [|[g m] l IH]; intros Hnd Hin; [by apply elem_of_nil in Hin|].
  rewrite fmap_cons in Hnd. apply NoDup_cons in Hnd as [Hg Hnd]. cbn [deltas foldr fst snd].
  fold (deltas l f). apply elem_of_cons in Hin as [[= -> ->]|Hin].
  - rewrite delta_eq. assert (deltas l g = 0) as ->; [|lia]. clear IH Hnd.
    induction l as [|[h k] l IH]; [done|]. cbn [deltas foldr fst snd]. fold (deltas l g).
    rewrite fmap_cons, not_elem_of_cons in Hg. destruct Hg as [Hh Hg].
    by rewrite delta_ne, IH by done.
  - rewrite IH by done. rewrite delta_ne; [lia|]. intros ->. apply Hg.
    apply list_elem_of_fmap. by exists (g, n).
Qed.

(** The counters follow the messages at the end of a script. *)
Lemma bump_accounts q l s a a' :
  messages_of q s a' → counters_of (hsh s (Properties q)) a → small a → wf_queue q →
  size a' = size a → NoDup l.*1 → (∀ f n, (f, n) ∈ l → is_counter f = true) →
  (∀ f, is_counter f = true → account a' f = account a f + deltas l f) →
  ∃ s', bump_all q l s = (Ret tt, s') ∧ accounts_of q s' a' ∧
        ∀ k, k ≠ Properties q → db s' !! k = db s !! k.
Proof.
  intros Hm Hc Hsm Hq Hsz Hnd Hf Hac.
  destruct (bump_all_run q l s _ (mo_wt _ _ _ Hm) Hq Hc Hnd) as (s' & Hr & Hw & Ht & Hk).
  { intros f n Hin. pose proof (Hf f n Hin) as Hfc. pose proof (account_range a f).
    pose proof (account_range a' f) as Hr'. rewrite Hac, (deltas_elem l f n), Hsz in Hr' by done.
    split; [done|]. split; apply (small_in_int64 a); done || lia. }
  exists s'. split; [done|]. split; [|done]. split; [by apply (messages_props_frame q s)|].
  eapply tally_ext; [exact Ht|]. intros f Hfc. by rewrite Hac.
Qed.

(** The updates followed by the rest of a script. *)
Fixpoint bump_then {A} (q : Queue) (l : list (qfield * Z)) (m : M A) : M A :=
  match l with
  | [] => m
  | (f, n) :: l =>
      _ ← when (bool_decide (n ≠ 0)) (_ ← cmd_hincrby (Properties q) (qkey f) n; mret tt);
      bump_then q l m
  end.

Lemma bump_then_run {A} q l (m : M A) : ∀ s s',
  bump_all q l s = (Ret tt, s') → bump_then q l m s = m s'.
Proof.
  induction l as [|[f n] l IH]; intros s s' Hr; cbn [bump_all bump_then] in *; [by injection Hr as ->|].
  destruct (when (bool_decide (n ≠ 0)) (_ ← cmd_hincrby (Properties q) (qkey f) n; mret tt) s)
    as [[[]|err] s1] eqn:E.
  - rewrite (bind_Ret _ _ _ _ _ E) in Hr. rewrite (bind_Ret _ _ _ _ _ E). by apply IH.
  - by rewrite (bind_Err _ _ _ _ _ E) in Hr.
Qed.

Lemma when_pos b n q f :
  (b = true ↔ n ≠ 0) →
  when b (_ ← cmd_hincrby (Properties q) (qkey f) n; mret tt) =
  when (bool_decide (n ≠ 0)) (_ ← cmd_hincrby (Properties q) (qkey f) n; mret tt).
Proof.
  intros Hb. f_equal. destruct b; symmetry; [by apply bool_decide_eq_true_2, Hb|].
  apply bool_decide_eq_false_2. intros H. by apply Hb in H.
Qed.

Section unacknowledge.
Context (rnow : Z) (cfg : ConfigRec) (now now' : Z) (q : Queue) (c : string).
Context (entries : list UnackEntry) (s : store) (a : accounts).
Context (Ha : accounts_of q s a) (Hsm : small a) (Hq : wf_queue q) (Hcn : no_colon c = true).
Context (Hcfg : audit_ok (DeadLetteredMessages (cfg_MessageAudit cfg))).
Context (Hnd : NoDup (unack_entry_id <$> entries)).
Context (Hok : ∀ e, e ∈ entries → unackable q c s a e).

Let l : list string := lst s (ConsumerProcessing q c).
Let d : Z := unack_count now' l entries StatusDeadLettered.
Let r : Z := unack_count now' l entries StatusUnackRequeuing.

Lemma unack_lengths :
  Z.of_nat (length (unack_keys q c entries)) - 3 = 3 * Z.of_nat (length entries) ∧
  Z.of_nat (length (unack_args cfg now now' entries)) - 21 = 7 * Z.of_nat (length entries).
Proof.
  unfold unack_keys, unack_args. rewrite !length_app.
  rewrite (length_blocks (unack_entry_keys q c) 3), (length_blocks (unack_entry_args cfg now now') 7)
    by done. cbn [length unack_static audit_args app]. lia.
Qed.

Lemma unacknowledge_run :
  ∃ s', unacknowledge_message rnow (unack_keys q c entries) (unack_args cfg now now' entries) s =
    (Ret (if decide (is_Some (db s !! Properties q)) then
            match refused s q with Some reply => inl reply | None => inr (d + r) end
          else inl "QUEUE_NOT_FOUND"), s') ∧
    (if decide (is_Some (db s !! Properties q) ∧ refused s q = None)
     then accounts_of q s' (unack_all now' l entries a) ∧
          lst s' (ConsumerProcessing q c) = taken_out (unack_entry_id <$> entries) l ∧
          ∀ f, is_counter f = false → hsh s' (Properties q) !! qkey f = hsh s (Properties q) !! qkey f
     else s' = s).
Proof using All.
  pose proof (mo_wt _ _ _ (proj1 Ha)) as Hw. destruct unack_lengths as [Hk Hv].
  unfold unacknowledge_message. rewrite Hk, Hv. clear Hk Hv.
  eval_consumer_args. cbv zeta. erewrite bind_Ret; [|done].
  destruct (decide (is_Some (db s !! Properties q))) as [Hex|Hex].
  2: { rewrite bool_decide_eq_false_2 by done. exists s. split; [done|].
       rewrite decide_False by naive_solver. done. }
  rewrite bool_decide_eq_true_2 by done. cbn [negb].
  erewrite bind_Ret; [|apply hget_run; wt_view]. fold (op_state s q) (refused s q).
  destruct (refused s q) as [reply|].
  { exists s. split; [done|]. by rewrite decide_False by naive_solver. }
  destruct (decide (3 * Z.of_nat (length entries) = 0 ∧ _)) as [[Hz _]|Hz].
  { assert (entries = []) as Hnil by (destruct entries; [done|simpl in Hz; lia]).
    unfold d, r. rewrite Hnil. exists s. split; [done|]. rewrite decide_True by done. done. }
  rewrite decide_False.
  2: { rewrite !(Z.mul_comm _ (Z.of_nat _)), !Z.rem_mul, !Z.div_mul by lia. naive_solver. }
  replace (Z.to_nat (7 * Z.of_nat (length entries) / 7)) with (length entries)
    by (rewrite Z.mul_comm, Z.div_mul by lia; lia).
  destruct (unack_loop_run rnow cfg now now' q c Hq Hcn Hcfg entries s a
              {| u_processed := 0; u_deadLettered := 0; u_requeued := 0 |} (proj1 Ha) Hnd Hok)
    as (s1 & Hrun & Hmo1 & Hp1 & Hsz & Hlst & Hac).
  fold l in Hrun, Hmo1, Hsz, Hlst, Hac. fold d r in Hrun, Hac. simpl in Hrun.
  erewrite bind_Ret.
  2: { erewrite foldM_seq; [exact Hrun|]. intros b i x s0 Hx. by apply unack_turn_eq. }
  cbn [u_processed u_deadLettered u_requeued]. rewrite !Z.add_0_l.
  (* the counters *)
  assert (0 <= d ∧ 0 <= r) as [Hd Hr] by (unfold d, r, unack_count; lia).
  destruct (bump_accounts q
    [(Q_ProcessingMessagesCount, - (d + r)); (Q_DeadLetteredMessagesCount, d);
     (Q_RequeuedMessagesCount, r)] s1 a (unack_all now' l entries a)) as (s2 & Hr2 & Ha2 & Hf2);
    [done|rewrite Hp1; apply Ha|done|done|done| | | |].
  { apply (bool_decide_unpack _). reflexivity. }
  { intros f n. rewrite !elem_of_cons, elem_of_nil. naive_solver. }
  { intros f Hf. rewrite Hac by done. unfold sdelta.
    change (status_field StatusDeadLettered) with (Some Q_DeadLetteredMessagesCount).
    change (status_field StatusUnackRequeuing) with (Some Q_RequeuedMessagesCount).
    change (status_field StatusProcessing) with (Some Q_ProcessingMessagesCount).
    cbn [deltas foldr fst snd]. lia. }
  exists s2. rewrite decide_True by done. split; [|split; [done|]].
  2: { split; [rewrite <-Hlst; unfold lst at 1; by rewrite Hf2 by key_ne|]. intros f Hf. rewrite <-Hp1.
       eapply bump_all_fields; [apply Hmo1|done|exact Hr2|]. intros Hin. set_unfold. naive_solver. }
  rewrite (when_pos (bool_decide (0 < d + r))), (when_pos (bool_decide (0 < d))),
    (when_pos (bool_decide (0 < r))) by (rewrite bool_decide_eq_true; lia).
  exact (bump_then_run _ _ (mret (inr (d + r))) _ _ Hr2).
Qed.
End unacknowledge.

(** A write to the hash of a message that keeps its status. *)
Lemma hash_write_accounts q s a id h :
  accounts_of q s a → wf_queue q → no_colon id = true →
  h !! mkey F_Status = hsh s (Message id) !! mkey F_Status →
  accounts_of q (put_hash (Message id) h s) a.
Proof.
  intros [Hm Hc] Hq Hid Hh. pose proof (mo_wt _ _ _ Hm) as Hw. unfold put_hash.
  apply (accounts_props q s); [|by views|done].
  apply (messages_frame q s); [done|wt_solve|by views| |by views..].
  intros i st Hi. destruct (mo_status _ _ _ Hm i st Hi) as (Hn & _).
  destruct (decide (i = id)) as [->|Hne]; [by rewrite hsh_upd|]. by views.
Qed.
