(* ===== verification/Retry.v ===== *)
(** * Retrying messages

    What happens to a message that was not acknowledged and may be tried
    again: the scripts core/requeue-immediate.lua and core/requeue-delayed.lua
    and the two workers that run them, internal/consumer/immediate_requeuer.go
    and internal/consumer/delayed_requeuer.go.  The first takes messages from
    the requeue list to the pending messages, to the delayed set (when they
    have a retry delay) or, when their consumer group is gone, to the dead
    letters; the second takes the delayed messages that are due. *)

From S2P Require Import Prelude Keys Redis RedisFacts Types Keyspace Json Message MessageCodec.
From S2P Require Import Publish Consume Accounts Accounting.
#[local] Open Scope Z_scope.

(** ** The scripts *)

(** The names both scripts take from ARGV. *)
Record retry_names := {
  rn_status : string; rn_pending : string; rn_dead : string; rn_deadAt : string;
  rn_retriedAt : string; rn_lifo : string; rn_fifo : string; rn_timestamp : string
}.

(** The message leaves its waiting list for the pending messages of its group,
    or for the dead letters when the group does not exist.  True when it is
    pending. *)
Definition retry_enqueue (n : retry_names) (queueType : string)
    (keyQueueConsumerGroups keyQueueDeadLettered keyMessage keyQueuePending
     keyQueuePriorityPending : string)
    (messageId messagePriority consumerGroupId : string) : M bool :=
  group_exists ←
    (if decide (consumerGroupId ≠ "") then cmd_sismember keyQueueConsumerGroups consumerGroupId
     else mret true);
  if (group_exists : bool) then
    _ ← (if decide (queueType = rn_fifo n ∨ queueType = rn_lifo n)
         then cmd_rpush keyQueuePending [messageId]
         else cmd_zadd keyQueuePriorityPending messagePriority messageId);
    _ ← cmd_hset keyMessage
          [(rn_status n, rn_pending n); (rn_retriedAt n, rn_timestamp n)];
    mret true
  else
    _ ← cmd_rpush keyQueueDeadLettered [messageId];
    _ ← cmd_hset keyMessage
          [(rn_status n, rn_dead n); (rn_deadAt n, rn_timestamp n)];
    mret false.

Record retry_acc := { r_pending : Z; r_delayed : Z; r_dead : Z }.

Definition add_pending (acc : retry_acc) : retry_acc :=
  {| r_pending := r_pending acc + 1; r_delayed := r_delayed acc; r_dead := r_dead acc |}.
Definition add_delayed (acc : retry_acc) : retry_acc :=
  {| r_pending := r_pending acc; r_delayed := r_delayed acc + 1; r_dead := r_dead acc |}.
Definition add_dead (acc : retry_acc) : retry_acc :=
  {| r_pending := r_pending acc; r_delayed := r_delayed acc; r_dead := r_dead acc + 1 |}.
Definition no_retries : retry_acc := {| r_pending := 0; r_delayed := 0; r_dead := 0 |}.

(** Turns of [for argvIndex = n + 1, #ARGV, m do]. *)
Definition turns (args : list string) (n m : nat) : list nat :=
  seq 0 ((length args - n + (m - 1)) / m).

(** *** core/requeue-immediate.lua *)

Definition immediate_names (args : list string) : retry_names := {|
  rn_status := arg args 6; rn_pending := arg args 7; rn_dead := arg args 8;
  rn_deadAt := arg args 9; rn_retriedAt := arg args 11; rn_lifo := arg args 12;
  rn_fifo := arg args 13; rn_timestamp := arg args 19
|}.

Definition immediate_turn (keys args : list string) (queueType : string) (acc : retry_acc) (i : nat)
    : M retry_acc :=
  let base := (20 + 5 * i)%nat in
  let kbase := (6 + 3 * i)%nat in
  let messageId := arg args base in
  let keyMessage := arg keys kbase in
  removed ← cmd_lrem1 (arg keys 2) messageId;
  if decide (removed = 1) then
    if decide (arg args (base + 2) = "0") then
      pending ← retry_enqueue (immediate_names args) queueType (arg keys 5) (arg keys 4) keyMessage
                  (arg keys (kbase + 1)) (arg keys (kbase + 2))
                  messageId (arg args (base + 1)) (arg args (base + 4));
      mret (if (pending : bool) then add_pending acc else add_dead acc)
    else
      _ ← cmd_hset keyMessage [(arg args 6, arg args 10)];
      _ ← cmd_zadd (arg keys 3) (arg args (base + 3)) messageId;
      mret (add_delayed acc)
  else mret acc.

(** The counters, once for the batch; the reply is the number of messages
    moved. *)
Definition immediate_counters (keyQueueProperties : string) (args : list string) (acc : retry_acc)
    : M Z :=
  let total_processed := r_pending acc + r_delayed acc + r_dead acc in
  _ ← when (bool_decide (0 < total_processed))
        (_ ← cmd_hincrby keyQueueProperties (arg args 2) (- total_processed);
         _ ← when (bool_decide (0 < r_delayed acc))
               (_ ← cmd_hincrby keyQueueProperties (arg args 3) (r_delayed acc); mret tt);
         _ ← when (bool_decide (0 < r_pending acc))
               (_ ← cmd_hincrby keyQueueProperties (arg args 4) (r_pending acc); mret tt);
         when (bool_decide (0 < r_dead acc))
               (_ ← cmd_hincrby keyQueueProperties (arg args 5) (r_dead acc); mret tt));
  mret total_processed.

Definition requeue_immediate (keys args : list string) : M (string + Z) :=
  let keyQueueProperties := arg keys 1 in
  queueProps ← cmd_hmget keyQueueProperties [arg args 1; arg args 14];
  match reply_at queueProps 1 with
  | None => mret (inr 0)
  | Some queueType =>
      match state_check (default (arg args 15) (reply_at queueProps 2)) (arg args 15) (arg args 16)
              (arg args 17) (arg args 18) with
      | Some reply => mret (inl reply)
      | None =>
          acc ← foldM (immediate_turn keys args queueType) no_retries (turns args 19 5);
          total ← immediate_counters keyQueueProperties args acc;
          mret (inr total)
      end
  end.

(** *** core/requeue-delayed.lua *)

Definition delayed_names (args : list string) : retry_names := {|
  rn_status := arg args 5; rn_pending := arg args 6; rn_dead := arg args 7;
  rn_deadAt := arg args 8; rn_retriedAt := arg args 9; rn_lifo := arg args 10;
  rn_fifo := arg args 11; rn_timestamp := arg args 17
|}.

Definition delayed_turn (keys args : list string) (queueType : string) (acc : retry_acc) (i : nat)
    : M retry_acc :=
  let base := (18 + 3 * i)%nat in
  let kbase := (5 + 3 * i)%nat in
  let messageId := arg args base in
  removed ← cmd_zrem (arg keys 2) messageId;
  if decide (removed = 1) then
    pending ← retry_enqueue (delayed_names args) queueType (arg keys 4) (arg keys 3)
                (arg keys kbase) (arg keys (kbase + 1)) (arg keys (kbase + 2))
                messageId (arg args (base + 1)) (arg args (base + 2));
    mret (if (pending : bool) then add_pending acc else add_dead acc)
  else mret acc.

Definition delayed_counters (keyQueueProperties : string) (args : list string) (acc : retry_acc)
    : M Z :=
  _ ← when (bool_decide (0 < r_pending acc))
        (_ ← cmd_hincrby keyQueueProperties (arg args 3) (r_pending acc); mret tt);
  _ ← when (bool_decide (0 < r_dead acc))
        (_ ← cmd_hincrby keyQueueProperties (arg args 4) (r_dead acc); mret tt);
  let total_processed := r_pending acc + r_dead acc in
  _ ← when (bool_decide (0 < total_processed))
        (_ ← cmd_hincrby keyQueueProperties (arg args 2) (- total_processed); mret tt);
  mret total_processed.

Definition requeue_delayed (keys args : list string) : M (string + Z) :=
  let keyQueueProperties := arg keys 1 in
  queueProps ← cmd_hmget keyQueueProperties [arg args 1; arg args 12];
  match reply_at queueProps 1 with
  | None => mret (inr 0)
  | Some queueType =>
      match state_check (default (arg args 13) (reply_at queueProps 2)) (arg args 13) (arg args 14)
              (arg args 15) (arg args 16) with
      | Some reply => mret (inl reply)
      | None =>
          acc ← foldM (delayed_turn keys args queueType) no_retries (turns args 17 3);
          total ← delayed_counters keyQueueProperties args acc;
          mret (inr total)
      end
  end.

(** ** The workers *)

(** The keys of a message: its hash and the pending lists of its group. *)
Definition retry_keys (q : Queue) (msg : Envelope) : list string :=
  let g := consumerGroupID msg in
  [Message (ID msg);
   if decide (g ≠ "") then PendingWithGroup q g else Pending q;
   if decide (g ≠ "") then PriorityWithGroup q g else Priority q].

(** *** internal/consumer/immediate_requeuer.go *)

Definition immediate_keys (q : Queue) (messages : list Envelope) : list string :=
  [Properties q; Requeued q; Delayed q; DeadLetter q; ConsumerGroups q] ++
  (messages ≫= retry_keys q).

Definition immediate_entry (timestamp : Z) (msg : Envelope) : list string :=
  let retryDelay := m_retryDelay (producibleMessage msg) in
  let delayedTimestamp :=
    if decide (0 < retryDelay) then add64 timestamp (Milliseconds retryDelay) else 0 in
  [ID msg; priority_arg msg; itoa (Milliseconds retryDelay); itoa delayedTimestamp;
   consumerGroupID msg].

Definition immediate_static (timestamp : Z) : list string :=
  [qkey Q_Type; qkey Q_RequeuedMessagesCount; qkey Q_DelayedMessagesCount;
   qkey Q_PendingMessagesCount; qkey Q_DeadLetteredMessagesCount;
   mkey F_Status; itoa StatusPending; itoa StatusDeadLettered; mkey F_DeadLetteredAt;
   itoa StatusUnackDelaying; mkey F_LastRetriedAttemptAt; itoa TypeLIFO; itoa TypeFIFO;
   qkey Q_OperationalState; itoa StateActive; itoa StatePaused; itoa StateStopped;
   itoa StateLocked; itoa timestamp].

Definition immediate_args (now : Z) (messages : list Envelope) : list string :=
  immediate_static (UnixMilli now) ++ (messages ≫= immediate_entry (UnixMilli now)).

Definition requeueMessages (now : Z) (q : Queue) (messages : list Envelope) (s : store) : store :=
  (requeue_immediate (immediate_keys q messages) (immediate_args now messages) s).2.

(** *** internal/consumer/delayed_requeuer.go *)

Definition delayed_keys (q : Queue) (messages : list Envelope) : list string :=
  [Properties q; Delayed q; DeadLetter q; ConsumerGroups q] ++ (messages ≫= retry_keys q).

Definition delayed_entry (msg : Envelope) : list string :=
  [ID msg; priority_arg msg; consumerGroupID msg].

Definition delayed_static (timestamp : Z) : list string :=
  [qkey Q_Type; qkey Q_DelayedMessagesCount; qkey Q_PendingMessagesCount;
   qkey Q_DeadLetteredMessagesCount; mkey F_Status; itoa StatusPending;
   itoa StatusDeadLettered; mkey F_DeadLetteredAt; mkey F_LastRetriedAttemptAt;
   itoa TypeLIFO; itoa TypeFIFO; qkey Q_OperationalState; itoa StateActive; itoa StatePaused;
   itoa StateStopped; itoa StateLocked; itoa timestamp].

Definition delayed_args (now : Z) (messages : list Envelope) : list string :=
  delayed_static (UnixMilli now) ++ (messages ≫= delayed_entry).

Definition enqueueDelayed (now : Z) (q : Queue) (messages : list Envelope) (s : store) : store :=
  (requeue_delayed (delayed_keys q messages) (delayed_args now messages) s).2.

(** One tick of each worker.  Messages that cannot be loaded are skipped; the
    clock is read when the tick starts ([now]) and when the script is called
    ([now']). *)
Section workers.
Context (defaults : ConsumeOptions) (uuid uuid' : string).

Definition requeue (now' : Z) (q : Queue) (s : store) : store :=
  match cmd_lrange_all (Requeued q) s with
  | (Err _, _) => s
  | (Ret ids, _) =>
      match omap (load_message defaults uuid uuid' now' s) (take 100 ids) with
      | [] => s
      | messages => requeueMessages now' q messages s
      end
  end.

Definition requeueDue (now now' : Z) (q : Queue) (s : store) : store :=
  match cmd_zrangebyscore (Delayed q) (UnixMilli now) 99 s with
  | (Err _, _) => s
  | (Ret ids, _) =>
      match omap (load_message defaults uuid uuid' now' s) ids with
      | [] => s
      | messages => enqueueDelayed now' q messages s
      end
  end.
End workers.

(** ** What one message does *)

(** The message can go back to the pending messages of a queue of type [ty]:
    its group is a key part and, in a priority queue, it has a priority. *)
Record retryable (ty : string) (e : Envelope) : Prop := {
  rt_group : no_colon (consumerGroupID e) = true;
  rt_priority : ty ≠ itoa TypeFIFO → ty ≠ itoa TypeLIFO →
                ∃ p, m_priority (producibleMessage e) = Some p ∧ in_int64 p
}.

(** Its status afterwards, given the groups of the queue. *)
Definition retry_status (groups : gset string) (e : Envelope) : Z :=
  if decide (consumerGroupID e ≠ "" ∧ consumerGroupID e ∉ groups)
  then StatusDeadLettered else StatusPending.

(** The list or set it is put on. *)
Definition retry_key (q : Queue) (ty : string) (groups : gset string) (e : Envelope) : redis_key :=
  let g := consumerGroupID e in
  if decide (retry_status groups e = StatusDeadLettered) then KDeadLetter q
  else if decide (ty = itoa TypeFIFO ∨ ty = itoa TypeLIFO) then
    if decide (g ≠ "") then KPendingWithGroup q g else KPending q
  else if decide (g ≠ "") then KPriorityWithGroup q g else KPriority q.

(** The names the workers send. *)
Definition worker_names (timestamp : Z) : retry_names := {|
  rn_status := mkey F_Status; rn_pending := itoa StatusPending;
  rn_dead := itoa StatusDeadLettered; rn_deadAt := mkey F_DeadLetteredAt;
  rn_retriedAt := mkey F_LastRetriedAttemptAt; rn_lifo := itoa TypeLIFO;
  rn_fifo := itoa TypeFIFO; rn_timestamp := itoa timestamp
|}.

(** The fields of its hash that change. *)
Definition retry_fields (timestamp : Z) (groups : gset string) (e : Envelope)
    : list (string * string) :=
  [(mkey F_Status, itoa (retry_status groups e));
   (if decide (retry_status groups e = StatusDeadLettered) then mkey F_DeadLetteredAt
    else mkey F_LastRetriedAttemptAt, itoa timestamp)].

Lemma retry_status_cases groups e :
  retry_status groups e = StatusPending ∨ retry_status groups e = StatusDeadLettered.
Proof. unfold retry_status. case_decide; auto. Qed.

Lemma retry_fields_status t groups e h :
  hset_all (retry_fields t groups e) h !! mkey F_Status = Some (itoa (retry_status groups e)).
Proof.
  unfold hset_all. simpl. rewrite lookup_insert_ne; [apply lookup_insert_eq|]. by case_decide.
Qed.

Section retry_enqueue.
Context (q : Queue) (ty : string) (t : Z) (e : Envelope).
Context (Hq : wf_queue q) (He : retryable ty e).

Lemma retry_key_wf groups : wf_key (retry_key q ty groups e).
Proof using Hq He.
  destruct He as [Hg _]. unfold retry_key. repeat case_decide; wf_parts.
Qed.

(** The keys the accounts depend on are not among those it may be put on. *)
Lemma retry_key_ne groups k :
  key_type k = THash ∨ key_type k = TSet ∨ k = KPublished q ∨ k = KRequeued q ∨ k = KDelayed q ∨
  k = KScheduled q →
  retry_key q ty groups e ≠ k.
Proof using.
  intros Hk. unfold retry_key.
  destruct Hk as [Ht|[Ht|[-> |[-> |[-> | ->]]]]]; repeat case_decide; try done; intros <-; discriminate Ht.
Qed.

Lemma retry_enqueue_run s :
  wt s → no_colon (ID e) = true →
  let groups := sts s (ConsumerGroups q) in
  ∃ ov, has_type (key_type (retry_key q ty groups e)) ov ∧
    retry_enqueue (worker_names t) ty (ConsumerGroups q) (DeadLetter q) (Message (ID e))
      (arg (retry_keys q e) 2) (arg (retry_keys q e) 3) (ID e) (priority_arg e)
      (consumerGroupID e) s =
    (Ret (bool_decide (retry_status groups e = StatusPending)),
     upd (Message (ID e)) (hash_val (hset_all (retry_fields t groups e) (hsh s (Message (ID e)))))
       (upd (render_key (retry_key q ty groups e)) ov s)).
Proof using Hq He.
  intros Hw Hid groups. pose proof He as [Hg Hp]. unfold retry_enqueue.
  assert ((if decide (consumerGroupID e ≠ "") then cmd_sismember (ConsumerGroups q) (consumerGroupID e)
           else mret true) s = (Ret (bool_decide (retry_status groups e = StatusPending)), s)) as Hx.
  { unfold retry_status. destruct (decide (consumerGroupID e ≠ "")) as [Hne|Hne].
    - rewrite sismember_run by wt_view. fold groups.
      destruct (decide (consumerGroupID e ∈ groups)) as [Hin|Hin].
      + rewrite decide_False by (by intros []). by rewrite bool_decide_eq_true_2.
      + rewrite decide_True by done. by rewrite bool_decide_eq_false_2.
    - rewrite decide_False by (by intros []). by rewrite bool_decide_eq_true_2. }
  erewrite bind_Ret; [|exact Hx].
  pose proof (retry_key_wf groups) as Hkw. pose proof (retry_key_ne groups (KMessage (ID e))) as Hkm.
  assert (render_key (retry_key q ty groups e) ≠ Message (ID e)) as Hkn.
  { apply (render_key_ne _ (KMessage (ID e))); [done|wf_parts|]. apply Hkm. by left. }
  clear Hx Hkm. unfold retry_fields, retry_key in *.
  destruct (retry_status_cases groups e) as [E|E]; rewrite E in *.
  - rewrite bool_decide_eq_true_2 by done.
    rewrite (decide_False (P := StatusPending = StatusDeadLettered)) in * by done.
    cbn [worker_names rn_fifo rn_lifo].
    destruct (decide (ty = itoa TypeFIFO ∨ ty = itoa TypeLIFO)) as [Ht|Ht].
    + set (k := if decide (_ ≠ "") then KPendingWithGroup q _ else KPending q) in *.
      replace (arg (retry_keys q e) 2) with (render_key k) by (unfold k, retry_keys; cbn; by case_decide).
      assert (key_type k = TList) as Hkt by (unfold k; by case_decide).
      eexists. split; [|erewrite bind_Ret; [|apply rpush_run; by apply wt_list]].
      { rewrite Hkt. simpl. rewrite as_list_val. by eexists. }
      erewrite bind_Ret; [|apply hset_run; apply is_hash_upd_ne; [done|wt_view]].
      by rewrite hsh_upd_ne.
    + set (k := if decide (_ ≠ "") then KPriorityWithGroup q _ else KPriority q) in *.
      replace (arg (retry_keys q e) 3) with (render_key k) by (unfold k, retry_keys; cbn; by case_decide).
      assert (key_type k = TZSet) as Hkt by (unfold k; by case_decide).
      destruct Hp as (p & Hpr & Hpi); [tauto|tauto|].
      eexists. split; [|erewrite bind_Ret; [|apply zadd_run; [by apply wt_zset|]]].
      3: { unfold priority_arg. rewrite Hpr. by apply ParseInt_itoa. }
      { rewrite Hkt. simpl. rewrite as_zset_val. by eexists. }
      erewrite bind_Ret; [|apply hset_run; apply is_hash_upd_ne; [done|wt_view]].
      by rewrite hsh_upd_ne.
  - rewrite bool_decide_eq_false_2 by done.
    rewrite (decide_True (P := StatusDeadLettered = StatusDeadLettered)) in * by done.
    eexists. split; [|erewrite bind_Ret; [|apply rpush_run; wt_view]].
    { simpl. rewrite as_list_val. by eexists. }
    erewrite bind_Ret; [|apply hset_run; wt_view]. by views.
Qed.

(** The keyspace after it, for the keys the accounts depend on. *)
Lemma retry_enqueue_frame groups s hv ov k :
  wf_key k → no_colon (ID e) = true →
  key_type k = THash ∨ key_type k = TSet ∨ k = KPublished q ∨ k = KRequeued q ∨ k = KDelayed q ∨
  k = KScheduled q →
  k ≠ KMessage (ID e) →
  db (upd (Message (ID e)) hv (upd (render_key (retry_key q ty groups e)) ov s)) !! render_key k =
  db s !! render_key k.
Proof using Hq He.
  intros Hk Hid Hty Hm. rewrite !lookup_upd_ne; [done|..].
  - apply render_key_ne; [apply retry_key_wf|done|by apply retry_key_ne].
  - apply (render_key_ne (KMessage (ID e))); [wf_parts|done|done].
Qed.
End retry_enqueue.

(** ** A batch

    The two scripts have the same loop around different turns.  The interface
    says what a turn promises: a message that waits on the script's list
    leaves it with the status its target says, any other is left alone. *)

Definition bump (st : Z) (acc : retry_acc) : retry_acc :=
  if decide (st = StatusPending) then add_pending acc
  else if decide (st = StatusUnackDelaying) then add_delayed acc
  else add_dead acc.

Class RetryTurn (q : Queue) (ty : string) := {
  rw_from : Z;
  rw_source : store → list string;
  rw_target : gset string → Envelope → Z;
  rw_turn : retry_acc → Envelope → M retry_acc;
  rw_target_cases groups e :
    rw_target groups e = StatusPending ∨ rw_target groups e = StatusUnackDelaying ∨
    rw_target groups e = StatusDeadLettered;
  rw_waiting s a id : messages_of q s a → id ∈ rw_source s → a !! id = Some rw_from;
  rw_claimed s a acc e :
    messages_of q s a → retryable ty e → ID e ∈ rw_source s →
    let st := rw_target (sts s (ConsumerGroups q)) e in
    ∃ s', rw_turn acc e s = (Ret (bump st acc), s') ∧ messages_of q s' (<[ID e := st]> a) ∧
          hsh s' (Properties q) = hsh s (Properties q) ∧
          sts s' (ConsumerGroups q) = sts s (ConsumerGroups q) ∧
          ∀ x, x ∈ rw_source s' ↔ x ∈ rw_source s ∧ x ≠ ID e;
  rw_unclaimed s acc e :
    wt s → ID e ∉ rw_source s → rw_turn acc e s = (Ret acc, s)
}.

(** The messages of a batch that are moved: those on the list, once each. *)
Fixpoint retried (l : list string) (es : list Envelope) : list Envelope :=
  match es with
  | [] => []
  | e :: es =>
      if decide (ID e ∈ l) then e :: retried (filter (λ x, x ≠ ID e) l) es else retried l es
  end.

Definition retry_all (target : Envelope → Z) (es : list Envelope) (a : accounts) : accounts :=
  foldl (λ a e, <[ID e := target e]> a) a es.

Definition retry_count (target : Envelope → Z) (es : list Envelope) (st : Z) : Z :=
  Z.of_nat (length (filter (λ e, target e = st) es)).

Lemma retried_ext l l' es : (∀ x, x ∈ l ↔ x ∈ l') → retried l es = retried l' es.
Proof.
  revert l l'. induction es as [|e es IH]; intros l l' Hl; [done|]. simpl.
  destruct (decide (ID e ∈ l)) as [Hin|Hin].
  - rewrite decide_True by by apply Hl. f_equal. apply IH. intros x.
    by rewrite !list_elem_of_filter, Hl.
  - rewrite decide_False by by rewrite <-Hl. by apply IH.
Qed.

Lemma retry_count_cons target e es st :
  retry_count target (e :: es) st = one (target e) st + retry_count target es st.
Proof.
  unfold retry_count, one. rewrite filter_cons.
  destruct (decide (target e = st)) as [->|Hne].
  - rewrite decide_True by done. simpl. lia.
  - rewrite decide_False by congruence. done.
Qed.

Lemma one_eq st : one st st = 1.
Proof. unfold one. by rewrite decide_True. Qed.
Lemma one_ne st st' : st' ≠ st → one st st' = 0.
Proof. intros H. unfold one. by rewrite decide_False. Qed.

(** Evaluates the indicators of the three statuses a retry leads to. *)
Ltac ones := rewrite ?one_eq; repeat rewrite one_ne by done.

Section batch.
Context (q : Queue) (ty : string) `{!RetryTurn q ty}.

Lemma retry_loop_run es : ∀ s a acc,
  messages_of q s a → (∀ e, e ∈ es → retryable ty e) →
  let target := rw_target (sts s (ConsumerGroups q)) in
  let moved := retried (rw_source s) es in
  let p := retry_count target moved StatusPending in
  let d := retry_count target moved StatusUnackDelaying in
  let x := retry_count target moved StatusDeadLettered in
  let a' := retry_all target moved a in
  ∃ s', foldM rw_turn acc es s =
          (Ret {| r_pending := r_pending acc + p; r_delayed := r_delayed acc + d;
                  r_dead := r_dead acc + x |}, s') ∧
        messages_of q s' a' ∧ hsh s' (Properties q) = hsh s (Properties q) ∧
        size a' = size a ∧
        ∀ f, is_counter f = true →
          account a' f = account a f + sdelta StatusPending p f + sdelta StatusUnackDelaying d f +
                         sdelta StatusDeadLettered x f + sdelta rw_from (- (p + d + x)) f.
Proof.
  induction es as [|e es IH]; intros s a acc Hm Hes; cbv zeta.
  { exists s. split; [by destruct acc; cbn; rewrite !Z.add_0_r|]. do 3 (split; [done|]).
    intros f _. cbn. rewrite !sdelta_0. lia. }
  cbn [retried foldM]. destruct (decide (ID e ∈ rw_source s)) as [Hin|Hin].
  - destruct (rw_claimed s a acc e Hm (Hes e ltac:(set_solver)) Hin)
      as (s1 & Hr1 & Hm1 & Hp1 & Hg1 & Hs1).
    erewrite bind_Ret; [|exact Hr1].
    destruct (IH s1 _ (bump (rw_target (sts s (ConsumerGroups q)) e) acc) Hm1)
      as (s' & Hr & Hm' & Hp' & Hsz & Hac); [set_solver|].
    rewrite Hg1, (retried_ext (rw_source s1) (filter (λ x, x ≠ ID e) (rw_source s))) in * by
      (intros x; rewrite Hs1, list_elem_of_filter; tauto).
    cbn [retry_all foldl]. fold (retry_all (rw_target (sts s (ConsumerGroups q)))).
    set (st := rw_target (sts s (ConsumerGroups q)) e) in *.
    pose proof (rw_waiting s a (ID e) Hm Hin) as Hst.
    exists s'. rewrite Hr. split; [|split; [done|split; [by rewrite Hp'|split]]].
    + do 2 f_equal. rewrite !retry_count_cons. fold st.
      destruct (rw_target_cases (sts s (ConsumerGroups q)) e) as [E|[E|E]]; fold st in E; rewrite E;
        ones; unfold bump; cbn [decide]; repeat case_decide; try done; cbn; f_equal; lia.
    + etrans; [exact Hsz|]. apply map_size_insert_Some. by eexists.
    + intros f Hf. etrans; [by apply Hac|]. rewrite (account_move a (ID e) rw_from) by done.
      rewrite !retry_count_cons. fold st. rewrite !sdelta_neg, !sdelta_add.
      change (-1) with (- (1)). rewrite sdelta_neg.
      destruct (rw_target_cases (sts s (ConsumerGroups q)) e) as [E|[E|E]]; fold st in E; rewrite E;
        ones; rewrite ?sdelta_0; lia.
  - erewrite bind_Ret; [|by apply rw_unclaimed; [apply Hm|]].
    destruct (IH s a acc Hm) as (s' & H); [set_solver|]. by exists s'.
Qed.
End batch.

(** ** The two turns *)

(** A message leaves the waiting lists, or moves to the delayed set. *)
Lemma waiting_leave q s s' a id st :
  waiting_of q s a → NoDup (lst s' (Requeued q)) →
  (∀ x, x ∈ lst s' (Requeued q) → x ∈ lst s (Requeued q) ∧ x ≠ id) →
  (∀ x, x ∈ (zst s' (Delayed q)).*2 →
     (x ∈ (zst s (Delayed q)).*2 ∧ x ≠ id) ∨ (x = id ∧ st = StatusUnackDelaying)) →
  (∀ x, x ∈ (zst s' (Scheduled q)).*2 →
     (x ∈ (zst s (Scheduled q)).*2 ∧ x ≠ id) ∨ (x = id ∧ st = StatusScheduled)) →
  waiting_of q s' (<[id := st]> a).
Proof.
  intros [_ HR HD HS] Hnd Hr Hd Hs. split; [done|..].
  - intros x [Hx Hne]%Hr. rewrite lookup_insert_ne by done. by apply HR.
  - intros x [[Hx Hne]|[-> ->]]%Hd; [|apply lookup_insert_eq].
    rewrite lookup_insert_ne by done. by apply HD.
  - intros x [[Hx Hne]|[-> ->]]%Hs; [|apply lookup_insert_eq].
    rewrite lookup_insert_ne by done. by apply HS.
Qed.

(** A message that waits in another list is not in this one. *)
Lemma waiting_apart q s a id st :
  waiting_of q s a → a !! id = Some st →
  (st ≠ StatusUnackRequeuing → id ∉ lst s (Requeued q)) ∧
  (st ≠ StatusUnackDelaying → id ∉ (zst s (Delayed q)).*2) ∧
  (st ≠ StatusScheduled → id ∉ (zst s (Scheduled q)).*2).
Proof.
  intros [_ HR HD HS] Hid. split_and!; intros Hne Hin;
    [apply HR in Hin|apply HD in Hin|apply HS in Hin]; congruence.
Qed.

Lemma messages_id q s a id st : messages_of q s a → a !! id = Some st → no_colon id = true.
Proof. intros Hm Hid. by destruct (mo_status _ _ _ Hm id st Hid) as (? & _). Qed.

Section turn.
Context (q : Queue) (ty : string) (t : Z) (Hq : wf_queue q).

(** The part the turns share: [s0] is the keyspace before the message was
    taken off its list. *)
Lemma retry_turn_run (e : Envelope) (from : Z) (s0 s : store) (a : accounts) :
  messages_of q s0 a → a !! ID e = Some from → retryable ty e → wt s →
  (∀ k, wf_key k → key_type k = THash ∨ key_type k = TSet ∨ k = KPublished q →
     db s !! render_key k = db s0 !! render_key k) →
  NoDup (lst s (Requeued q)) →
  (∀ x, x ∈ lst s (Requeued q) → x ∈ lst s0 (Requeued q) ∧ x ≠ ID e) →
  (∀ x, x ∈ (zst s (Delayed q)).*2 → x ∈ (zst s0 (Delayed q)).*2 ∧ x ≠ ID e) →
  (∀ x, x ∈ (zst s (Scheduled q)).*2 → x ∈ (zst s0 (Scheduled q)).*2 ∧ x ≠ ID e) →
  let groups := sts s0 (ConsumerGroups q) in
  ∃ s', retry_enqueue (worker_names t) ty (ConsumerGroups q) (DeadLetter q) (Message (ID e))
          (arg (retry_keys q e) 2) (arg (retry_keys q e) 3) (ID e) (priority_arg e)
          (consumerGroupID e) s = (Ret (bool_decide (retry_status groups e = StatusPending)), s') ∧
        messages_of q s' (<[ID e := retry_status groups e]> a) ∧
        hsh s' (Properties q) = hsh s0 (Properties q) ∧
        sts s' (ConsumerGroups q) = groups ∧
        lst s' (Requeued q) = lst s (Requeued q) ∧ zst s' (Delayed q) = zst s (Delayed q).
Proof using Hq.
  intros Hm Hid He Hw Hf Hnd Hr Hd Hz groups. pose proof (messages_id q s0 a _ _ Hm Hid) as Hcol.
  assert (sts s (ConsumerGroups q) = groups) as Hg.
  { unfold groups, sts. pose proof (Hf (KConsumerGroups q)) as H. cbn [render_key] in H.
    by rewrite H by (wf_parts || auto). }
  destruct (retry_enqueue_run q ty t e Hq He s Hw Hcol) as (ov & Hov & Hrun). rewrite Hg in Hov, Hrun.
  set (hv := hash_val _) in Hrun. set (s' := upd (Message (ID e)) hv _) in Hrun.
  assert (∀ k, wf_key k → k ≠ KMessage (ID e) →
    key_type k = THash ∨ key_type k = TSet ∨ k = KPublished q ∨ k = KRequeued q ∨ k = KDelayed q ∨
    k = KScheduled q →
    db s' !! render_key k = db s !! render_key k) as Hfr.
  { intros k Hk Hne Hor. by apply retry_enqueue_frame. }
  assert (wt s') as Hw'.
  { unfold s'. apply (wt_upd_hash _ (KMessage (ID e))); [|wf_parts|done].
    apply wt_upd; [done|by apply retry_key_wf|done]. }
  pose proof (Hfr (KRequeued q) ltac:(wf_parts) ltac:(done) ltac:(tauto)) as HR.
  pose proof (Hfr (KDelayed q) ltac:(wf_parts) ltac:(done) ltac:(tauto)) as HD.
  pose proof (Hfr (KScheduled q) ltac:(wf_parts) ltac:(done) ltac:(tauto)) as HS.
  pose proof (Hfr (KPublished q) ltac:(wf_parts) ltac:(done) ltac:(tauto)) as HP.
  pose proof (Hfr (KProperties q) ltac:(wf_parts) ltac:(done) ltac:(auto)) as HQ.
  pose proof (Hfr (KConsumerGroups q) ltac:(wf_parts) ltac:(done) ltac:(auto)) as HG.
  rewrite Hf in HP, HQ by (wf_parts || auto). cbn [render_key] in HR, HD, HS, HP, HQ, HG.
  exists s'. split; [done|]. split; [|split; [by unfold hsh; rewrite HQ|split;
    [unfold sts in Hg |- *; by rewrite HG|split; [by unfold lst; rewrite HR|by unfold zst; rewrite HD]]]].
  apply (messages_move q s0 _ a (ID e) from); [done|done|done|by unfold lst; rewrite HP| | |].
  - unfold s', hv. rewrite hsh_upd. apply retry_fields_status.
  - intros id' Hne Hn'. unfold hsh. pose proof (Hfr (KMessage id')) as H. cbn [render_key] in H.
    rewrite H; [|wf_parts|congruence|by left]. pose proof (Hf (KMessage id')) as H'.
    cbn [render_key] in H'. by rewrite H' by (wf_parts || auto).
  - apply (waiting_leave q s0 s' a); [apply Hm|unfold lst, zst; rewrite ?HR, ?HD, ?HS..]; [done|done|..];
      intros x Hx; left; [by apply Hd|by apply Hz].
Qed.

Lemma bump_retry groups e acc :
  (if bool_decide (retry_status groups e = StatusPending) then add_pending acc else add_dead acc) =
  bump (retry_status groups e) acc.
Proof. by destruct (retry_status_cases groups e) as [-> | ->]. Qed.

(** *** From the requeue list *)

Definition immediate_one (acc : retry_acc) (e : Envelope) : M retry_acc :=
  removed ← cmd_lrem1 (Requeued q) (ID e);
  if decide (removed = 1) then
    if decide (itoa (Milliseconds (m_retryDelay (producibleMessage e))) = "0") then
      pending ← retry_enqueue (worker_names t) ty (ConsumerGroups q) (DeadLetter q) (Message (ID e))
                  (arg (retry_keys q e) 2) (arg (retry_keys q e) 3) (ID e) (priority_arg e)
                  (consumerGroupID e);
      mret (if (pending : bool) then add_pending acc else add_dead acc)
    else
      _ ← cmd_hset (Message (ID e)) [(mkey F_Status, itoa StatusUnackDelaying)];
      _ ← cmd_zadd (Delayed q) (arg (immediate_entry t e) 4) (ID e);
      mret (add_delayed acc)
  else mret acc.

Definition immediate_status (groups : gset string) (e : Envelope) : Z :=
  if decide (Milliseconds (m_retryDelay (producibleMessage e)) = 0)
  then retry_status groups e else StatusUnackDelaying.

Lemma itoa_zero z : itoa z = "0" ↔ z = 0.
Proof. change "0" with (itoa 0). split; [apply (inj itoa)|by intros ->]. Qed.

Lemma delayed_score e : ∃ n, ParseInt (arg (immediate_entry t e) 4) = (n, None).
Proof.
  cbn. eexists. apply ParseInt_itoa. case_decide; [apply wrap64_in|]. by vm_compute.
Qed.

Lemma immediate_claimed s a acc e :
  messages_of q s a → retryable ty e → ID e ∈ lst s (Requeued q) →
  let st := immediate_status (sts s (ConsumerGroups q)) e in
  ∃ s', immediate_one acc e s = (Ret (bump st acc), s') ∧ messages_of q s' (<[ID e := st]> a) ∧
        hsh s' (Properties q) = hsh s (Properties q) ∧
        sts s' (ConsumerGroups q) = sts s (ConsumerGroups q) ∧
        ∀ x, x ∈ lst s' (Requeued q) ↔ x ∈ lst s (Requeued q) ∧ x ≠ ID e.
Proof using Hq.
  intros Hm He Hin. pose proof (mo_wt _ _ _ Hm) as Hw. pose proof (mo_waiting _ _ _ Hm) as [Hnd HR HD HS].
  pose proof (HR _ Hin) as Hid. pose proof (messages_id q s a _ _ Hm Hid) as Hcol.
  pose proof (lrem1_run (Requeued q) (ID e) s ltac:(wt_view)) as Hrem.
  rewrite decide_True in Hrem by done. unfold immediate_one.
  set (s1 := upd _ _ s) in Hrem. assert (wt s1) as Hw1 by (unfold s1; wt_solve).
  assert (lst s1 (Requeued q) = remove_first (ID e) (lst s (Requeued q))) as Hl1 by (unfold s1; by views).
  assert (∀ x, x ∈ remove_first (ID e) (lst s (Requeued q)) ↔
               x ∈ lst s (Requeued q) ∧ x ≠ ID e) as Hx.
  { intros x. split; [|intros []; by apply elem_of_remove_first_ne].
    intros H. split; [by eapply elem_of_remove_first|]. intros ->.
    by eapply not_elem_of_remove_first in Hnd. }
  erewrite bind_Ret; [|exact Hrem]. rewrite decide_True by done.
  unfold immediate_status. rewrite (decide_ext _ _ _ _ (itoa_zero _)).
  destruct (decide (Milliseconds _ = 0)) as [Hz|Hz].
  - destruct (retry_turn_run e StatusUnackRequeuing s s1 a Hm Hid He Hw1)
      as (s' & Hr & Hm' & Hp & Hg & HL & _).
    { intros k Hk Hor. unfold s1. apply lookup_upd_ne.
      apply (render_key_ne (KRequeued q)); [wf_parts|done|].
      destruct Hor as [H|[H|H]]; [by intros <-|by intros <-|by subst k]. }
    { rewrite Hl1. by apply NoDup_remove_first. }
    { intros x. rewrite Hl1. by apply Hx. }
    { intros x Hz'. unfold s1 in Hz'. rewrite zst_upd_ne in Hz' by key_ne. split; [done|].
      intros ->. apply HD in Hz'. rewrite Hid in Hz'. discriminate Hz'. }
    { intros x Hz'. unfold s1 in Hz'. rewrite zst_upd_ne in Hz' by key_ne. split; [done|].
      intros ->. apply HS in Hz'. rewrite Hid in Hz'. discriminate Hz'. }
    exists s'. erewrite bind_Ret; [|exact Hr]. cbv beta. rewrite bump_retry.
    repeat (split; [done|]). intros x. by rewrite HL, Hl1.
  - destruct (delayed_score e) as [n Hn].
    erewrite bind_Ret; [|apply hset_run; wt_view]. erewrite bind_Ret; [|apply zadd_run; [wt_view|done]].
    eexists. split; [done|]. split; [|split; [unfold s1; by views|split; [unfold s1; by views|]]].
    + apply (messages_move q s _ a (ID e) StatusUnackRequeuing); [done|done|wt_solve|unfold s1; by views|..].
      * views. unfold hset_all. simpl. by rewrite lookup_insert_eq.
      * intros id' Hne Hn'. unfold s1. by views.
      * apply (waiting_leave q s _ a); [done|..]; views; rewrite ?Hl1;
          [by apply NoDup_remove_first|intros x; by apply Hx|..].
        { intros x [->|Hxz]%elem_of_zadd; [by right|]. left. unfold s1 in Hxz.
          rewrite !zst_upd_ne in Hxz by key_ne. split; [done|].
          intros ->. apply HD in Hxz. rewrite Hid in Hxz. discriminate Hxz. }
        intros x Hxz. left. unfold s1 in Hxz. rewrite zst_upd_ne in Hxz by key_ne. split; [done|].
        intros ->. apply HS in Hxz. rewrite Hid in Hxz. discriminate Hxz.
    + intros x. views. by rewrite Hl1.
Qed.

Lemma immediate_unclaimed s acc e :
  wt s → ID e ∉ lst s (Requeued q) → immediate_one acc e s = (Ret acc, s).
Proof using Hq.
  intros Hw Hin. unfold immediate_one.
  pose proof (lrem1_run (Requeued q) (ID e) s ltac:(wt_view)) as Hrem.
  rewrite decide_False in Hrem by done. erewrite bind_Ret; [|exact Hrem]. done.
Qed.

Lemma immediate_status_cases groups e :
  immediate_status groups e = StatusPending ∨ immediate_status groups e = StatusUnackDelaying ∨
  immediate_status groups e = StatusDeadLettered.
Proof. unfold immediate_status. destruct (retry_status_cases groups e); case_decide; tauto. Qed.

Lemma requeued_status s a id :
  messages_of q s a → id ∈ lst s (Requeued q) → a !! id = Some StatusUnackRequeuing.
Proof using. intros Hm. apply (mo_waiting _ _ _ Hm). Qed.

Instance immediate_RetryTurn : RetryTurn q ty := {|
  rw_from := StatusUnackRequeuing;
  rw_source s := lst s (Requeued q);
  rw_target := immediate_status;
  rw_turn := immediate_one;
  rw_target_cases := immediate_status_cases;
  rw_waiting := requeued_status;
  rw_claimed := immediate_claimed;
  rw_unclaimed := immediate_unclaimed
|}.

(** *** From the delayed set *)

Definition delayed_one (acc : retry_acc) (e : Envelope) : M retry_acc :=
  removed ← cmd_zrem (Delayed q) (ID e);
  if decide (removed = 1) then
    pending ← retry_enqueue (worker_names t) ty (ConsumerGroups q) (DeadLetter q) (Message (ID e))
                (arg (retry_keys q e) 2) (arg (retry_keys q e) 3) (ID e) (priority_arg e)
                (consumerGroupID e);
    mret (if (pending : bool) then add_pending acc else add_dead acc)
  else mret acc.

Lemma delayed_claimed s a acc e :
  messages_of q s a → retryable ty e → ID e ∈ (zst s (Delayed q)).*2 →
  let st := retry_status (sts s (ConsumerGroups q)) e in
  ∃ s', delayed_one acc e s = (Ret (bump st acc), s') ∧ messages_of q s' (<[ID e := st]> a) ∧
        hsh s' (Properties q) = hsh s (Properties q) ∧
        sts s' (ConsumerGroups q) = sts s (ConsumerGroups q) ∧
        ∀ x, x ∈ (zst s' (Delayed q)).*2 ↔ x ∈ (zst s (Delayed q)).*2 ∧ x ≠ ID e.
Proof using Hq.
  intros Hm He Hin. pose proof (mo_wt _ _ _ Hm) as Hw. pose proof (mo_waiting _ _ _ Hm) as [Hnd HR HD HS].
  pose proof (HD _ Hin) as Hid. pose proof (messages_id q s a _ _ Hm Hid) as Hcol.
  pose proof (zrem_run (Delayed q) (ID e) s ltac:(wt_view)) as Hrem.
  rewrite decide_True in Hrem by done. unfold delayed_one.
  set (s1 := upd _ _ s) in Hrem. assert (wt s1) as Hw1 by (unfold s1; wt_solve).
  assert (zst s1 (Delayed q) = zremove (ID e) (zst s (Delayed q))) as Hz1 by (unfold s1; by views).
  assert (lst s1 (Requeued q) = lst s (Requeued q)) as Hl1 by (unfold s1; by views).
  erewrite bind_Ret; [|exact Hrem]. rewrite decide_True by done.
  destruct (retry_turn_run e StatusUnackDelaying s s1 a Hm Hid He Hw1)
    as (s' & Hr & Hm' & Hp & Hg & _ & HZ).
  { intros k Hk Hor. unfold s1. apply lookup_upd_ne.
    apply (render_key_ne (KDelayed q)); [wf_parts|done|].
    destruct Hor as [H|[H|H]]; [by intros <-|by intros <-|by subst k]. }
  { by rewrite Hl1. }
  { intros x. rewrite Hl1. intros Hx. split; [done|]. intros ->. apply HR in Hx.
    rewrite Hid in Hx. discriminate Hx. }
  { intros x. rewrite Hz1. apply elem_of_zremove. }
  { intros x Hz'. unfold s1 in Hz'. rewrite zst_upd_ne in Hz' by key_ne. split; [done|].
    intros ->. apply HS in Hz'. rewrite Hid in Hz'. discriminate Hz'. }
  exists s'. erewrite bind_Ret; [|exact Hr]. cbv beta. rewrite bump_retry.
  repeat (split; [done|]). intros x. rewrite HZ, Hz1. apply elem_of_zremove.
Qed.

Lemma delayed_unclaimed s acc e :
  wt s → ID e ∉ (zst s (Delayed q)).*2 → delayed_one acc e s = (Ret acc, s).
Proof using Hq.
  intros Hw Hin. unfold delayed_one.
  pose proof (zrem_run (Delayed q) (ID e) s ltac:(wt_view)) as Hrem.
  rewrite decide_False in Hrem by done. erewrite bind_Ret; [|exact Hrem]. done.
Qed.

Lemma retry_status_cases3 groups e :
  retry_status groups e = StatusPending ∨ retry_status groups e = StatusUnackDelaying ∨
  retry_status groups e = StatusDeadLettered.
Proof. destruct (retry_status_cases groups e); tauto. Qed.

Lemma delaying_status s a id :
  messages_of q s a → id ∈ (zst s (Delayed q)).*2 → a !! id = Some StatusUnackDelaying.
Proof using. intros Hm. apply (mo_waiting _ _ _ Hm). Qed.

Instance delayed_RetryTurn : RetryTurn q ty := {|
  rw_from := StatusUnackDelaying;
  rw_source s := (zst s (Delayed q)).*2;
  rw_target := retry_status;
  rw_turn := delayed_one;
  rw_target_cases := retry_status_cases3;
  rw_waiting := delaying_status;
  rw_claimed := delayed_claimed;
  rw_unclaimed := delayed_unclaimed
|}.
End turn.

(** ** The whole scripts *)

(** The arguments a turn reads are those of its message. *)
Lemma turns_length {A} args n m (es : list A) (f : A → list string) l :
  args = l ++ (es ≫= f) → length l = n → (∀ e, length (f e) = m) → (0 < m)%nat →
  turns args n m = seq 0 (length es).
Proof.
  intros -> <- Hf Hm. unfold turns. f_equal. rewrite length_app, (length_blocks f m) by done.
  replace (length l + m * length es - length l + (m - 1))%nat with (m - 1 + length es * m)%nat by lia.
  rewrite Nat.div_add, Nat.div_small by lia. lia.
Qed.

Lemma block_arg {A} (f : A → list string) (l : list string) (es : list A) n m i j e :
  length l = n → (∀ y, length (f y) = m) → es !! i = Some e → (j < m)%nat →
  arg (l ++ (es ≫= f)) (n + 1 + m * i + j) = nth j (f e) "".
Proof.
  intros Hn Hf Hi Hj. replace (n + 1 + m * i + j)%nat with (n + S (m * i + j))%nat by lia.
  rewrite (arg_behind n) by done. by apply nth_blocks.
Qed.

Lemma immediate_turn_eq q ty now es acc i e s :
  es !! i = Some e →
  immediate_turn (immediate_keys q es) (immediate_args now es) ty acc (0 + i) s =
  immediate_one q ty (UnixMilli now) acc e s.
Proof.
  intros Hi. unfold immediate_turn. rewrite Nat.add_0_l.
  assert (∀ j, (j < 5)%nat → arg (immediate_args now es) (20 + 5 * i + j) =
                             nth j (immediate_entry (UnixMilli now) e) "") as HA.
  { intros j Hj. by apply (block_arg _ (immediate_static (UnixMilli now)) es 19 5). }
  assert (∀ j, (j < 3)%nat → arg (immediate_keys q es) (6 + 3 * i + j) =
                             nth j (retry_keys q e) "") as HK.
  { intros j Hj. by apply (block_arg _ [_; _; _; _; _] es 5 3). }
  pose proof (HA 0%nat) as A0. pose proof (HK 0%nat) as K0. rewrite Nat.add_0_r in A0, K0.
  rewrite A0, K0, !HA, !HK by lia. done.
Qed.

Lemma delayed_turn_eq q ty now es acc i e s :
  es !! i = Some e →
  delayed_turn (delayed_keys q es) (delayed_args now es) ty acc (0 + i) s =
  delayed_one q ty (UnixMilli now) acc e s.
Proof.
  intros Hi. unfold delayed_turn. rewrite Nat.add_0_l.
  assert (∀ j, (j < 3)%nat → arg (delayed_args now es) (18 + 3 * i + j) =
                             nth j (delayed_entry e) "") as HA.
  { intros j Hj. by apply (block_arg _ (delayed_static (UnixMilli now)) es 17 3). }
  assert (∀ j, (j < 3)%nat → arg (delayed_keys q es) (5 + 3 * i + j) =
                             nth j (retry_keys q e) "") as HK.
  { intros j Hj. by apply (block_arg _ [_; _; _; _] es 4 3). }
  pose proof (HA 0%nat) as A0. pose proof (HK 0%nat) as K0. rewrite Nat.add_0_r in A0, K0.
  rewrite A0, K0, !HA, !HK by lia. done.
Qed.

(** Every message moved has one of the three statuses. *)
Lemma retry_total q ty `{!RetryTurn q ty} groups es :
  let n := retry_count (rw_target groups) es in
  n StatusPending + n StatusUnackDelaying + n StatusDeadLettered = Z.of_nat (length es).
Proof.
  cbv zeta. induction es as [|e es IH]; [done|]. rewrite !retry_count_cons. cbn [length].
  destruct (rw_target_cases groups e) as [E|[E|E]]; rewrite E; ones; lia.
Qed.

Lemma retry_count_nonneg target es st : 0 <= retry_count target es st.
Proof. unfold retry_count. lia. Qed.

Ltac eval_retry_args :=
  repeat match goal with
  | |- context [arg ?l ?i] =>
      let v := eval cbv [arg nth Nat.sub Nat.add app immediate_keys immediate_args immediate_static
                         delayed_keys delayed_args delayed_static] in (arg l i) in
      progress change (arg l i) with v
  end.

(** The counters of the statuses a retry moves between. *)
Ltac sdelta_fields :=
  unfold sdelta;
  change (status_field StatusPending) with (Some Q_PendingMessagesCount);
  change (status_field StatusDeadLettered) with (Some Q_DeadLetteredMessagesCount);
  change (status_field StatusUnackRequeuing) with (Some Q_RequeuedMessagesCount);
  change (status_field StatusUnackDelaying) with (Some Q_DelayedMessagesCount); cbn match.

Section scripts.
Context (q : Queue) (ty : string) (now : Z) (es : list Envelope) (s : store) (a : accounts).
Context (Ha : accounts_of q s a) (Hsm : small a) (Hq : wf_queue q).
Context (Hty : hsh s (Properties q) !! qkey Q_Type = Some ty).
Context (Hes : ∀ e, e ∈ es → retryable ty e).

(** What the accounts are after the messages [moved] changed their status. *)
Definition retried_to (target : gset string → Envelope → Z) (moved : list Envelope) (s' : store) : Prop :=
  match refused s q with
  | Some _ => s' = s
  | None => accounts_of q s' (retry_all (target (sts s (ConsumerGroups q))) moved a)
  end.

Lemma immediate_counters_run acc s1 s2 :
  0 <= r_pending acc → 0 <= r_delayed acc → 0 <= r_dead acc →
  let total := r_pending acc + r_delayed acc + r_dead acc in
  bump_all q [(Q_RequeuedMessagesCount, - total); (Q_DelayedMessagesCount, r_delayed acc);
              (Q_PendingMessagesCount, r_pending acc); (Q_DeadLetteredMessagesCount, r_dead acc)] s1 =
    (Ret tt, s2) →
  immediate_counters (Properties q) (immediate_args now es) acc s1 = (Ret total, s2).
Proof using.
  intros Hp Hd Hx total Hb. unfold immediate_counters. fold total. eval_retry_args.
  apply (bump_then_run _ _ (mret total)) in Hb. rewrite <-(ret_run total s2).
  etrans; [|exact Hb]. clear Hb. cbn [bump_then].
  destruct (decide (total = 0)) as [Hz|Hz].
  - rewrite bool_decide_eq_false_2 by lia.
    assert (r_pending acc = 0 ∧ r_delayed acc = 0 ∧ r_dead acc = 0) as (-> & -> & ->) by lia.
    rewrite Hz. done.
  - rewrite bool_decide_eq_true_2 by lia.
    rewrite (when_pos (bool_decide (0 < r_delayed acc))), (when_pos (bool_decide (0 < r_pending acc))),
      (when_pos (bool_decide (0 < r_dead acc))) by (rewrite bool_decide_eq_true; lia).
    rewrite (bool_decide_eq_true_2 (- total ≠ 0)) by lia. cbn [when].
    rewrite !bind_assoc. unfold mbind, M_bind. destruct (cmd_hincrby _ _ (- total) s1) as [[z|err] s3];
      [|done]. cbv beta. cbn.
    destruct (when _ _ s3) as [[[]|err] s4]; [|done]. destruct (when _ _ s4) as [[[]|err] s5]; done.
Qed.

Lemma requeue_immediate_run :
  let moved := retried (lst s (Requeued q)) es in
  ∃ s', requeue_immediate (immediate_keys q es) (immediate_args now es) s =
    (Ret (match refused s q with
          | Some reply => inl reply
          | None => inr (Z.of_nat (length moved))
          end), s') ∧ retried_to immediate_status moved s'.
Proof using All.
  intros moved. pose proof (mo_wt _ _ _ (proj1 Ha)) as Hw. unfold requeue_immediate, retried_to.
  rewrite (turns_length _ 19 5 es (immediate_entry (UnixMilli now)) (immediate_static (UnixMilli now)))
    by (done || lia). eval_retry_args. erewrite bind_Ret; [|apply hmget_run; wt_view].
  cbn [fmap list_fmap]. rewrite Hty. cbv beta.
  change (reply_at [Some ty; ?x] 1) with (Some ty). change (reply_at [?y; ?x] 2) with x.
  fold (op_state s q) (refused s q).
  destruct (refused s q) as [reply|]; [by exists s|].
  pose (immediate_RetryTurn q ty (UnixMilli now) Hq) as T.
  destruct (retry_loop_run q ty (RetryTurn0 := T) es s a no_retries (proj1 Ha) Hes)
    as (s1 & Hr1 & Hm1 & Hp1 & Hsz & Hac).
  erewrite bind_Ret.
  2: { erewrite foldM_seq; [exact Hr1|]. intros b i x s0 Hx. by apply immediate_turn_eq. }
  pose proof (retry_total q ty (RetryTurn0 := T) (sts s (ConsumerGroups q)) moved) as Htot.
  cbn [r_pending r_delayed r_dead no_retries] in *. rewrite ?Z.add_0_l in *.
  change (rw_target (RetryTurn := T)) with immediate_status in *.
  change (rw_source s) with (lst s (Requeued q)) in *. fold moved in Hm1, Hsz, Hac |- *.
  set (n := retry_count _ moved) in *. cbv zeta in Htot.
  destruct (bump_accounts q
    [(Q_RequeuedMessagesCount, - Z.of_nat (length moved)); (Q_DelayedMessagesCount, n StatusUnackDelaying);
     (Q_PendingMessagesCount, n StatusPending); (Q_DeadLetteredMessagesCount, n StatusDeadLettered)]
    s1 a _ Hm1) as (s2 & Hr2 & Ha2 & _); [rewrite Hp1; apply Ha|done|done|done| | | |].
  { apply (bool_decide_unpack _). reflexivity. }
  { intros f m. rewrite !elem_of_cons, elem_of_nil. naive_solver. }
  { intros f Hf. rewrite Hac by done. rewrite Htot. change rw_from with StatusUnackRequeuing.
    sdelta_fields. cbn [deltas foldr fst snd]. lia. }
  exists s2. split; [|done]. erewrite bind_Ret; [|apply immediate_counters_run].
  - cbn. by rewrite Htot.
  - apply retry_count_nonneg.
  - apply retry_count_nonneg.
  - apply retry_count_nonneg.
  - cbn. by rewrite Htot.
Qed.

Lemma delayed_counters_run acc s1 s2 :
  0 <= r_pending acc → 0 <= r_dead acc →
  let total := r_pending acc + r_dead acc in
  bump_all q [(Q_PendingMessagesCount, r_pending acc); (Q_DeadLetteredMessagesCount, r_dead acc);
              (Q_DelayedMessagesCount, - total)] s1 = (Ret tt, s2) →
  delayed_counters (Properties q) (delayed_args now es) acc s1 = (Ret total, s2).
Proof using.
  intros Hp Hx total Hb. unfold delayed_counters. fold total. eval_retry_args.
  apply (bump_then_run _ _ (mret total)) in Hb. rewrite <-(ret_run total s2).
  etrans; [|exact Hb]. cbn [bump_then].
  rewrite (when_pos (bool_decide (0 < r_pending acc))), (when_pos (bool_decide (0 < r_dead acc))),
    (when_pos (bool_decide (0 < total))) by (rewrite bool_decide_eq_true; lia). done.
Qed.

(** A retry never leads back to the delayed set. *)
Lemma retry_count_delayed groups l : retry_count (retry_status groups) l StatusUnackDelaying = 0.
Proof using.
  induction l as [|e l IH]; [done|]. rewrite retry_count_cons, IH.
  destruct (retry_status_cases groups e) as [-> | ->]; by ones.
Qed.

Lemma requeue_delayed_run :
  let moved := retried (zst s (Delayed q)).*2 es in
  ∃ s', requeue_delayed (delayed_keys q es) (delayed_args now es) s =
    (Ret (match refused s q with
          | Some reply => inl reply
          | None => inr (Z.of_nat (length moved))
          end), s') ∧ retried_to retry_status moved s'.
Proof using All.
  intros moved. pose proof (mo_wt _ _ _ (proj1 Ha)) as Hw. unfold requeue_delayed, retried_to.
  rewrite (turns_length _ 17 3 es delayed_entry (delayed_static (UnixMilli now)))
    by (done || lia). eval_retry_args. erewrite bind_Ret; [|apply hmget_run; wt_view].
  cbn [fmap list_fmap]. rewrite Hty. cbv beta.
  change (reply_at [Some ty; ?x] 1) with (Some ty). change (reply_at [?y; ?x] 2) with x.
  fold (op_state s q) (refused s q).
  destruct (refused s q) as [reply|]; [by exists s|].
  pose (delayed_RetryTurn q ty (UnixMilli now) Hq) as T.
  destruct (retry_loop_run q ty (RetryTurn0 := T) es s a no_retries (proj1 Ha) Hes)
    as (s1 & Hr1 & Hm1 & Hp1 & Hsz & Hac).
  erewrite bind_Ret.
  2: { erewrite foldM_seq; [exact Hr1|]. intros b i x s0 Hx. by apply delayed_turn_eq. }
  pose proof (retry_total q ty (RetryTurn0 := T) (sts s (ConsumerGroups q)) moved) as Htot.
  cbn [r_pending r_delayed r_dead no_retries] in *. rewrite ?Z.add_0_l in *.
  change (rw_target (RetryTurn := T)) with retry_status in *.
  change (rw_source s) with ((zst s (Delayed q)).*2) in *. fold moved in Hm1, Hsz, Hac |- *.
  pose proof (retry_count_delayed (sts s (ConsumerGroups q)) moved) as Hnd.
  set (n := retry_count _ moved) in *. cbv zeta in Htot. rewrite Hnd, Z.add_0_r in Htot.
  destruct (bump_accounts q
    [(Q_PendingMessagesCount, n StatusPending); (Q_DeadLetteredMessagesCount, n StatusDeadLettered);
     (Q_DelayedMessagesCount, - Z.of_nat (length moved))]
    s1 a _ Hm1) as (s2 & Hr2 & Ha2 & _); [rewrite Hp1; apply Ha|done|done|done| | | |].
  { apply (bool_decide_unpack _). reflexivity. }
  { intros f m. rewrite !elem_of_cons, elem_of_nil. naive_solver. }
  { intros f Hf. rewrite Hac, Hnd, Z.add_0_r, Htot by done. change rw_from with StatusUnackDelaying.
    rewrite (sdelta_0 StatusUnackDelaying). sdelta_fields. cbn [deltas foldr fst snd]. lia. }
  exists s2. split; [|done]. erewrite bind_Ret; [|apply delayed_counters_run].
  - cbn. by rewrite Htot.
  - apply retry_count_nonneg.
  - apply retry_count_nonneg.
  - cbn. by rewrite Htot.
Qed.
End scripts.

(** ** Which messages move *)

Lemma retried_in l es e : e ∈ retried l es → ID e ∈ l ∧ e ∈ es.
Proof.
  revert l. induction es as [|x es IH]; intros l; simpl; [by intros ?%elem_of_nil|].
  case_decide as Hx.
  - intros [->|[Hl He]%IH]%elem_of_cons; [split; [done|set_solver]|].
    apply list_elem_of_filter in Hl as [_ Hl]. set_solver.
  - intros [Hl He]%IH. set_solver.
Qed.

Lemma retried_all l es e :
  e ∈ es → ID e ∈ l → ∃ e', e' ∈ retried l es ∧ ID e' = ID e.
Proof.
  revert l. induction es as [|x es IH]; intros l He Hl; [by apply elem_of_nil in He|]. simpl.
  destruct (decide (ID x = ID e)) as [E|E].
  { exists x. rewrite decide_True by by rewrite E. split; [|done]. apply elem_of_cons. by left. }
  apply elem_of_cons in He as [->|He]; [done|]. case_decide as Hx.
  - destruct (IH (filter (λ y, y ≠ ID x) l) He) as (e' & He' & Hid).
    { apply list_elem_of_filter. by split. }
    exists e'. split; [|done]. apply elem_of_cons. by right.
  - destruct (IH l He Hl) as (e' & He' & Hid). by exists e'.
Qed.

Lemma retry_all_other target es : ∀ (a : accounts) id,
  id ∉ ID <$> es → retry_all target es a !! id = a !! id.
Proof.
  induction es as [|e es IH]; intros a id Hid; [done|].
  rewrite fmap_cons, not_elem_of_cons in Hid. destruct Hid as [Hne Hid].
  cbn [retry_all foldl]. etrans; [by apply IH|]. by rewrite lookup_insert_ne.
Qed.

Lemma retry_all_lookup target es st id : ∀ (a : accounts),
  id ∈ ID <$> es → (∀ e, e ∈ es → ID e = id → target e = st) →
  retry_all target es a !! id = Some st.
Proof.
  induction es as [|e es IH]; intros a Hid Hst; [by apply elem_of_nil in Hid|].
  cbn [retry_all foldl]. destruct (decide (id ∈ ID <$> es)) as [Hin|Hin].
  - apply IH; [done|]. intros x Hx. apply Hst. apply elem_of_cons. by right.
  - etrans; [by apply retry_all_other|]. rewrite fmap_cons in Hid.
    apply elem_of_cons in Hid as [->|Hid]; [|done]. rewrite lookup_insert_eq. f_equal.
    apply Hst; [|done]. apply elem_of_cons. by left.
Qed.

Lemma retry_all_size target es : ∀ a : accounts,
  (∀ e, e ∈ es → is_Some (a !! ID e)) → size (retry_all target es a) = size a.
Proof.
  induction es as [|e es IH]; intros a Ha; [done|]. cbn [retry_all foldl].
  etrans; [apply IH|].
  - intros x Hx. apply lookup_insert_is_Some'. right. apply Ha, elem_of_cons. by right.
  - apply map_size_insert_Some. apply Ha, elem_of_cons. by left.
Qed.

(** ** The workers *)

Lemma zset_score_unique (z : list (Z * string)) n n' x :
  NoDup z.*2 → (n, x) ∈ z → (n', x) ∈ z → n = n'.
Proof.
  intros Hnd (i & Hi)%list_elem_of_lookup_1 (j & Hj)%list_elem_of_lookup_1.
  assert (i = j) as ->; [|congruence].
  apply (NoDup_lookup z.*2 i j x Hnd); rewrite list_lookup_fmap; [by rewrite Hi|by rewrite Hj].
Qed.

Section worker_claims.
Context (defaults : ConsumeOptions) (uuid uuid' : string).

(** The messages a tick of each worker loads. *)
Definition immediate_batch (now : Z) (q : Queue) (s : store) : list Envelope :=
  omap (load_message defaults uuid uuid' now s) (take 100 (lst s (Requeued q))).
Definition due (now : Z) (q : Queue) (s : store) : list string :=
  take 99 (filter (λ e : Z * string, 0 <= e.1 <= UnixMilli now) (zst s (Delayed q))).*2.
Definition delayed_batch (now now' : Z) (q : Queue) (s : store) : list Envelope :=
  omap (load_message defaults uuid uuid' now' s) (due now q s).

Lemma requeue_eq now q s :
  wt s → wf_queue q →
  requeue defaults uuid uuid' now q s =
  match immediate_batch now q s with [] => s | es => requeueMessages now q es s end.
Proof.
  intros Hw Hq. unfold requeue, immediate_batch, cmd_lrange_all. by rewrite with_list_run by wt_view.
Qed.

Lemma requeueDue_eq now now' q s :
  wt s → wf_queue q →
  requeueDue defaults uuid uuid' now now' q s =
  match delayed_batch now now' q s with [] => s | es => enqueueDelayed now' q es s end.
Proof.
  intros Hw Hq. unfold requeueDue, delayed_batch, due, cmd_zrangebyscore.
  by rewrite with_zset_run by wt_view.
Qed.

Lemma requeueMessages_accounts now q ty es s a :
  accounts_of q s a → small a → wf_queue q → hsh s (Properties q) !! qkey Q_Type = Some ty →
  (∀ e, e ∈ es → retryable ty e) →
  retried_to q s a immediate_status (retried (lst s (Requeued q)) es) (requeueMessages now q es s).
Proof.
  intros Ha Hsm Hq Hty Hes. destruct (requeue_immediate_run q ty now es s a Ha Hsm Hq Hty Hes)
    as (s' & Hr & Hs'). unfold requeueMessages. by rewrite Hr.
Qed.

Lemma enqueueDelayed_accounts now q ty es s a :
  accounts_of q s a → small a → wf_queue q → hsh s (Properties q) !! qkey Q_Type = Some ty →
  (∀ e, e ∈ es → retryable ty e) →
  retried_to q s a retry_status (retried (zst s (Delayed q)).*2 es) (enqueueDelayed now q es s).
Proof.
  intros Ha Hsm Hq Hty Hes. destruct (requeue_delayed_run q ty now es s a Ha Hsm Hq Hty Hes)
    as (s' & Hr & Hs'). unfold enqueueDelayed. by rewrite Hr.
Qed.

Lemma retried_to_nil q s a target l : accounts_of q s a → retried_to q s a target (retried l []) s.
Proof. intros Ha. unfold retried_to. by destruct (refused s q). Qed.

(** C7: a tick of the immediate requeuer implements the abstract retry: when the
    queue accepts it, exactly the messages it loaded that still wait on the
    requeue list move, each once: to delayed when the message has a retry delay,
    otherwise to pending, or to dead-lettered when its consumer group is gone;
    and the counters of the queue follow.  A queue that is stopped, locked or in
    an unknown state is left alone. *)
Theorem immediate_requeue_refines now q ty s a :
  accounts_of q s a → small a → wf_queue q → hsh s (Properties q) !! qkey Q_Type = Some ty →
  (∀ e, e ∈ immediate_batch now q s → retryable ty e) →
  let moved := retried (lst s (Requeued q)) (immediate_batch now q s) in
  retried_to q s a immediate_status moved (requeue defaults uuid uuid' now q s).
Proof.
  intros Ha Hsm Hq Hty Hes moved. rewrite requeue_eq by (apply Ha || done). unfold moved.
  destruct (immediate_batch now q s) as [|e es] eqn:E; [by apply retried_to_nil|].
  by apply (requeueMessages_accounts now q ty).
Qed.

(** Loading a delayed message gives the message of that identifier. *)
Definition loads_itself (now : Z) (s : store) (id : string) : Prop :=
  ∀ e, load_message defaults uuid uuid' now s id = Some e → ID e = id.

Lemma batch_lookup now s (ids : list string) e :
  (∀ id, id ∈ ids → loads_itself now s id) →
  e ∈ omap (load_message defaults uuid uuid' now s) ids →
  ID e ∈ ids ∧ load_message defaults uuid uuid' now s (ID e) = Some e.
Proof.
  intros Hl (id & Hid & He)%list_elem_of_omap. pose proof (Hl id Hid e He) as E. by rewrite E.
Qed.

(** C8: a delayed message comes back when its delay has passed and not before: one
    tick of the delayed requeuer leaves every message whose time is still ahead
    delayed, and every message that is due (among the first 99), of a group that
    still exists, is pending afterwards, or dead-lettered if its group is gone. *)
Theorem delayed_retry_timing now now' q ty s a score id :
  accounts_of q s a → small a → wf_queue q → hsh s (Properties q) !! qkey Q_Type = Some ty →
  (∀ e, e ∈ delayed_batch now now' q s → retryable ty e) →
  refused s q = None → NoDup (zst s (Delayed q)).*2 →
  (∀ id, id ∈ (zst s (Delayed q)).*2 → loads_itself now' s id) →
  (score, id) ∈ zst s (Delayed q) →
  let s' := requeueDue defaults uuid uuid' now now' q s in
  (UnixMilli now < score →
     hsh s' (Message id) !! mkey F_Status = Some (itoa StatusUnackDelaying)) ∧
  (∀ e, id ∈ due now q s → load_message defaults uuid uuid' now' s id = Some e →
     hsh s' (Message id) !! mkey F_Status =
       Some (itoa (retry_status (sts s (ConsumerGroups q)) e))).
Proof.
  intros Ha Hsm Hq Hty Hes Hok Hnd Hload Hin s'.
  assert (due now q s ⊆ (zst s (Delayed q)).*2) as Hdue.
  { intros i Hi. apply elem_of_take in Hi as (n & Hi & _).
    apply list_elem_of_lookup_2, list_elem_of_fmap in Hi as (x & -> & [_ Hx]%list_elem_of_filter).
    by apply list_elem_of_fmap_2. }
  set (es := delayed_batch now now' q s) in *.
  assert (accounts_of q s' (retry_all (retry_status (sts s (ConsumerGroups q)))
            (retried (zst s (Delayed q)).*2 es) a)) as Ha'.
  { assert (retried_to q s a retry_status (retried (zst s (Delayed q)).*2 es) s') as H;
      [|unfold retried_to in H; by rewrite Hok in H].
    unfold s'. rewrite requeueDue_eq by (apply Ha || done). fold es.
    destruct es as [|e es'] eqn:E; [by apply retried_to_nil|].
    by apply (enqueueDelayed_accounts now' q ty). }
  assert (id ∈ (zst s (Delayed q)).*2) as Hid by by apply (list_elem_of_fmap_2 snd) in Hin.
  pose proof (delaying_status q s a id (proj1 Ha) Hid) as Hst.
  assert (∀ e, e ∈ retried (zst s (Delayed q)).*2 es →
    ID e ∈ due now q s ∧ load_message defaults uuid uuid' now' s (ID e) = Some e) as Hmv.
  { intros e [_ He]%retried_in. apply batch_lookup; [|done]. intros i Hi. by apply Hload, Hdue. }
  split.
  - intros Hlate. eapply (mo_status _ _ _ (proj1 Ha')). rewrite retry_all_other; [done|].
    intros (e & -> & He)%list_elem_of_fmap. apply Hmv in He as [He _].
    apply elem_of_take in He as (n & He & _).
    apply list_elem_of_lookup_2, list_elem_of_fmap in He as ([sc i] & Hi & [Hsc Hx]%list_elem_of_filter).
    cbn in Hi, Hsc. subst i. assert (sc = score) as ->; [|lia].
    by eapply zset_score_unique.
  - intros e Hd He. eapply (mo_status _ _ _ (proj1 Ha')). apply retry_all_lookup.
    + assert (e ∈ es) as Hee by (apply list_elem_of_omap; eauto).
      destruct (retried_all (zst s (Delayed q)).*2 es e Hee) as (e' & He' & E).
      { by rewrite (Hload id Hid e He). }
      apply list_elem_of_fmap. exists e'. split; [|done]. by rewrite E, (Hload id Hid e He).
    + intros x [_ Hx]%Hmv E. rewrite E, He in Hx. by injection Hx as ->.
Qed.
End worker_claims.
