(* ===== verification/Delivery.v ===== *)
(** * Delivery

    What the pops of internal/consumer/dequeue_message.go take from a queue:
    the oldest message of a FIFO queue, the newest of a LIFO queue, the most
    urgent of a priority queue; and how many pops the rate limit admits. *)

From Stdlib Require Import Sorted.
From S2P Require Import Prelude Keys Redis RedisFacts Types Keyspace Json Message MessageCodec.
From S2P Require Import Publish Consume Accounts Accounting.
#[local] Open Scope Z_scope.

(** ** One pop *)

Lemma removelast_app1 (l : list string) v : last l = Some v → l = removelast l ++ [v].
Proof.
  intros H. destruct l as [|x l _] using rev_ind; [done|].
  rewrite last_snoc in H. injection H as ->. by rewrite removelast_last.
Qed.

Lemma rpoplpush_run src dst s :
  is_list s src → is_list s dst → src ≠ dst →
  cmd_rpoplpush src dst s =
  match last (lst s src) with
  | None => (Ret None, s)
  | Some v => (Ret (Some v), upd dst (list_val (v :: lst s dst))
                               (upd src (list_val (removelast (lst s src))) s))
  end.
Proof.
  intros Hs Hd Hne. unfold cmd_rpoplpush. rewrite with_list_run by done.
  destruct (last (lst s src)) as [v|]; [|done]. rewrite with_list_run by done.
  erewrite bind_Ret; [|done]. erewrite bind_Ret.
  2: { unfold put_list. apply lpush_run. by apply is_list_upd_ne. }
  unfold put_list. by rewrite lst_upd_ne.
Qed.

Lemma zpoplpush_run src dst s :
  is_zset s src → is_list s dst → src ≠ dst →
  popPriority src dst s =
  match zst s src with
  | [] => ("", s)
  | e :: z => (e.2, upd dst (list_val (e.2 :: lst s dst))
                      (upd src (zset_val (zremove e.2 (e :: z))) s))
  end.
Proof.
  intros Hs Hd Hne. unfold popPriority, zpoplpush. cbn [arg nth Nat.sub].
  erewrite bind_Ret; [|done]. destruct (decide (is_Some (db s !! src))) as [Hx|Hx].
  2: { rewrite bool_decide_eq_false_2 by done. unfold zst.
       apply eq_None_not_Some in Hx. by rewrite Hx. }
  rewrite bool_decide_eq_true_2 by done. unfold cmd_zrange00.
  erewrite bind_Ret; [|by rewrite with_zset_run]. destruct (zst s src) as [|e z] eqn:Ez; [done|].
  simpl. erewrite bind_Ret.
  2: { rewrite zrem_run by done. rewrite decide_True; [done|]. rewrite Ez. set_solver. }
  erewrite bind_Ret; [|apply lpush_run; by apply is_list_upd_ne].
  rewrite lst_upd_ne by done. by rewrite Ez.
Qed.

Section pop.
Context (d : DequeueMessage) (Hq : wf_queue (d_key d)).
Context (Hc : no_colon (d_consumerID d) = true) (Hg : no_colon (d_groupID d) = true).
Let q := d_key d.
Let dst := ConsumerProcessing q (d_consumerID d).

(** The key a pop takes from. *)
Definition pop_key : redis_key :=
  if decide (d_queueType d = TypePriority)
  then if decide (d_groupID d ≠ "") then KPriorityWithGroup q (d_groupID d) else KPriority q
  else if decide (d_groupID d ≠ "") then KPendingWithGroup q (d_groupID d) else KPending q.

Lemma pop_key_wf : wf_key pop_key ∧ (key_type pop_key = TList ∨ key_type pop_key = TZSet).
Proof using Hq Hg.
  pose proof Hq as Hq'. fold q in Hq'.
  unfold pop_key; repeat case_decide; (split; [wf_parts|auto]).
Qed.

Lemma pop_key_ne k :
  wf_key k →
  k = KConsumerProcessing q (d_consumerID d) ∨ key_type k = THash ∨ k = KPublished q ∨
    k = KRequeued q ∨ k = KDelayed q ∨ k = KScheduled q →
  render_key pop_key ≠ render_key k.
Proof using Hq Hg.
  intros Hk Hor. apply render_key_ne; [apply pop_key_wf|done|].
  unfold pop_key. destruct Hor as [-> | [Ht | [-> | [-> | [-> | ->]]]]]; repeat case_decide; try done; by intros <-.
Qed.

Lemma dst_wf : wf_key (KConsumerProcessing q (d_consumerID d)).
Proof using Hq Hc. pose proof Hq as Hq'. fold q in Hq'. wf_parts. Qed.

Lemma pop_fifo_run s :
  wt s → d_queueType d ≠ TypePriority →
  let src := pending_key q (d_groupID d) in
  pop d s = match last (lst s src) with
            | None => ("", s)
            | Some v => (v, upd dst (list_val (v :: lst s dst))
                              (upd src (list_val (removelast (lst s src))) s))
            end.
Proof using Hq Hc Hg.
  intros Hw Ht. cbv zeta.
  assert (render_key pop_key = pending_key q (d_groupID d)) as Hsrc.
  { unfold pop_key, pending_key. rewrite decide_False by done. by case_decide. }
  assert (pop d s = popFIFO (pending_key q (d_groupID d)) dst s) as ->.
  { unfold pop, pending_key. fold q. by repeat case_decide. }
  unfold popFIFO. rewrite rpoplpush_run.
  - by destruct (last _).
  - rewrite <-Hsrc. apply wt_list; [done|apply pop_key_wf|].
    unfold pop_key. rewrite decide_False by done. by case_decide.
  - exact (wt_list s Hw _ dst_wf eq_refl).
  - rewrite <-Hsrc. apply (pop_key_ne (KConsumerProcessing q (d_consumerID d))); [apply dst_wf|auto].
Qed.

Lemma pop_priority_run s :
  wt s → d_queueType d = TypePriority →
  let src := priority_key q (d_groupID d) in
  pop d s = match zst s src with
            | [] => ("", s)
            | e :: z => (e.2, upd dst (list_val (e.2 :: lst s dst))
                                (upd src (zset_val (zremove e.2 (e :: z))) s))
            end.
Proof using Hq Hc Hg.
  intros Hw Ht. cbv zeta.
  assert (render_key pop_key = priority_key q (d_groupID d)) as Hsrc.
  { unfold pop_key, priority_key. rewrite decide_True by done. by case_decide. }
  assert (pop d s = popPriority (priority_key q (d_groupID d)) dst s) as ->.
  { unfold pop, priority_key. fold q. by repeat case_decide. }
  apply zpoplpush_run.
  - rewrite <-Hsrc. apply wt_zset; [done|apply pop_key_wf|].
    unfold pop_key. rewrite decide_True by done. by case_decide.
  - exact (wt_list s Hw _ dst_wf eq_refl).
  - rewrite <-Hsrc. apply (pop_key_ne (KConsumerProcessing q (d_consumerID d))); [apply dst_wf|auto].
Qed.

(** A pop writes its source and its destination only. *)
Lemma pop_frame s :
  wt s → wt (pop d s).2 ∧
  ∀ k, k ≠ render_key pop_key → k ≠ dst → db (pop d s).2 !! k = db s !! k.
Proof using Hq Hc Hg.
  intros Hw. pose proof dst_wf as Hdw. destruct pop_key_wf as [Hsw _].
  destruct (decide (d_queueType d = TypePriority)) as [Ht|Ht].
  - rewrite pop_priority_run by done.
    assert (render_key pop_key = priority_key q (d_groupID d)) as Hsrc.
    { unfold pop_key, priority_key. rewrite decide_True by done. by case_decide. }
    rewrite <-Hsrc. destruct (zst s (render_key pop_key)) as [|e z]; [done|]. cbn [snd]. split.
    + apply (wt_upd_list _ (KConsumerProcessing q (d_consumerID d))); [|done|done].
      apply wt_upd_zset; [done|done|]. unfold pop_key. rewrite decide_True by done. by case_decide.
    + intros k Hk1 Hk2. by rewrite !lookup_upd_ne.
  - rewrite pop_fifo_run by done.
    assert (render_key pop_key = pending_key q (d_groupID d)) as Hsrc.
    { unfold pop_key, pending_key. rewrite decide_False by done. by case_decide. }
    rewrite <-Hsrc. destruct (last (lst s (render_key pop_key))) as [v|]; [|done]. cbn [snd]. split.
    + apply (wt_upd_list _ (KConsumerProcessing q (d_consumerID d))); [|done|done].
      apply wt_upd_list; [done|done|]. unfold pop_key. rewrite decide_False by done. by case_decide.
    + intros k Hk1 Hk2. by rewrite !lookup_upd_ne.
Qed.
End pop.

(** [n] pops in a row. *)
Fixpoint pops (d : DequeueMessage) (n : nat) (s : store) : list string * store :=
  match n with
  | O => ([], s)
  | S n =>
      let '(v, s) := pop d s in
      let '(vs, s) := pops d n s in (v :: vs, s)
  end.

(** ** Publications in a row *)

(** The script accepted the messages [es], one after the other. *)
Inductive accepted (q : Queue) : list Envelope → store → store → Prop :=
| accepted_nil s : accepted q [] s s
| accepted_cons e es s s1 s2 :
    publish_message (publish_keys q e) (BuildPublishArgs e) s = (Ret "OK", s1) →
    accepted q es s1 s2 → accepted q (e :: es) s s2.

(** New pending messages for one group of consumers ("" when there is none). *)
Record fresh_batch (a : accounts) (g : string) (es : list Envelope) : Prop := {
  fb_NoDup : NoDup (ID <$> es);
  fb_each : ∀ e, e ∈ es → publishable e ∧ ID e ≠ "" ∧ status e = StatusPending ∧
                          consumerGroupID e = g ∧ a !! ID e = None;
  fb_small : Z.of_nat (size a) + Z.of_nat (length es) < 4611686018427387904
}.

Definition queue_type (s : store) (q : Queue) : string :=
  default "" (hsh s (Properties q) !! qkey Q_Type).

Lemma publish_effect_type q ty e s :
  wf_queue q → publishable e → queue_type (publish_effect q ty e s) q = queue_type s q.
Proof.
  intros Hq He. unfold queue_type, publish_effect, add_counter. rewrite hsh_upd.
  rewrite lookup_insert_ne by done. rewrite hsh_upd_ne by key_ne. rewrite hsh_upd_ne by key_ne.
  rewrite hsh_upd. rewrite lookup_insert_ne; [by rewrite enqueue_props|].
  intros H%(inj qkey). unfold status_counter in H. by case_decide.
Qed.

(** A publication leaves every other kind of key to [enqueue]. *)
Lemma publish_effect_other q ty e s k :
  wf_queue q → publishable e → wf_key k →
  k ≠ KProperties q → k ≠ KPublished q → k ≠ KMessage (ID e) →
  db (publish_effect q ty e s) !! render_key k = db (enqueue q ty e s) !! render_key k.
Proof.
  intros Hq He Hk H1 H2 H3. unfold publish_effect, add_counter. cbv zeta.
  rewrite lookup_upd_ne by (apply (render_key_ne (KProperties q)); [wf_parts|done|done]).
  rewrite lookup_upd_ne by (apply (render_key_ne (KMessage (ID e))); [wf_parts|done|done]).
  rewrite lookup_upd_ne by (apply (render_key_ne (KPublished q)); [wf_parts|done|done]).
  by rewrite lookup_upd_ne by (apply (render_key_ne (KProperties q)); [wf_parts|done|done]).
Qed.

Lemma accepted_step q g e es s s1 a :
  accounts_of q s a → wf_queue q → fresh_batch a g (e :: es) →
  publish_message (publish_keys q e) (BuildPublishArgs e) s = (Ret "OK", s1) →
  s1 = publish_effect q (queue_type s q) e s ∧
  accounts_of q s1 (<[ID e := StatusPending]> a) ∧ queue_type s1 q = queue_type s q ∧
  fresh_batch (<[ID e := StatusPending]> a) g es.
Proof.
  intros Ha Hq [Hnd Heach Hsm] Hrun.
  destruct (Heach e) as (Hp & Hid & Hst & Hge & Hnew); [set_solver|].
  assert (small a) as Hsa by (unfold small; simpl in Hsm; lia).
  rewrite publish_run in Hrun; [|apply Ha|done|done|by eapply publish_counters_ok; [apply Ha|]].
  cbv zeta in Hrun. injection Hrun as Hr <-. rewrite decide_True by done. fold (queue_type s q).
  split; [done|]. split; [|split; [by apply publish_effect_type|split]].
  - rewrite <-Hst. apply publish_accounts; auto.
  - rewrite fmap_cons in Hnd. by apply NoDup_cons in Hnd as [_ ?].
  - intros e' He'. destruct (Heach e') as (? & ? & ? & ? & ?); [set_solver|]. split_and!; try done.
    rewrite lookup_insert_ne; [done|]. rewrite fmap_cons, NoDup_cons in Hnd. destruct Hnd as [Hn _].
    intros E. apply Hn. rewrite E. by apply list_elem_of_fmap_2.
  - rewrite map_size_insert_None by done. simpl in Hsm. lia.
Qed.

(** The pending lists and the priority queue after the publications. *)
Section accepted.
Context (q : Queue) (Hq : wf_queue q) (g : string) (Hg : no_colon g = true).

Lemma enqueue_lst e s :
  status e = StatusPending → consumerGroupID e = g → queue_type s q ≠ itoa TypePriority →
  lst (enqueue q (queue_type s q) e s) (pending_key q g) =
  if decide (queue_type s q = itoa TypeLIFO) then lst s (pending_key q g) ++ [ID e]
  else ID e :: lst s (pending_key q g).
Proof.
  intros Hst <- Hty. unfold enqueue. rewrite decide_True, decide_False by done.
  case_decide; apply lst_upd.
Qed.

Lemma accepted_lst es : ∀ s s' a,
  accounts_of q s a → fresh_batch a g es → accepted q es s s' →
  queue_type s q ≠ itoa TypePriority →
  wt s' ∧ lst s' (pending_key q g) =
    if decide (queue_type s q = itoa TypeLIFO) then lst s (pending_key q g) ++ (ID <$> es)
    else rev (ID <$> es) ++ lst s (pending_key q g).
Proof using Hq Hg.
  induction es as [|e es IH]; intros s s' a Ha Hf Hacc Hty; inversion Hacc; subst.
  { split; [apply Ha|]. case_decide; [by rewrite app_nil_r|done]. }
  destruct (accepted_step q g e es s s1 a) as (Hs1 & Ha1 & Ht1 & Hf1); [assumption..|].
  destruct (IH s1 s' _ Ha1 Hf1) as [Hw Hl]; [assumption|by rewrite Ht1|]. split; [done|].
  destruct (fb_each _ _ _ Hf e) as (Hp & Hid & Hst & Hge & _); [apply elem_of_cons; by left|].
  destruct (pending_key_wf q g Hq Hg) as (k & Hk & Htk & Hkeq & Hor).
  assert (lst s1 (pending_key q g) = lst (enqueue q (queue_type s q) e s) (pending_key q g)) as E.
  { unfold lst. rewrite Hkeq, Hs1. rewrite publish_effect_other; try done; by destruct Hor; subst k. }
  rewrite Hl, Ht1, E, enqueue_lst by done. destruct (decide (queue_type s q = itoa TypeLIFO));
    rewrite fmap_cons; [by rewrite <-app_assoc|]. cbn [rev]. by rewrite <-app_assoc.
Qed.

Lemma enqueue_zst e s :
  status e = StatusPending → consumerGroupID e = g → queue_type s q = itoa TypePriority →
  zst (enqueue q (queue_type s q) e s) (priority_key q g) =
  zinsert ((ParseInt (priority_arg e)).1, ID e) (zremove (ID e) (zst s (priority_key q g))).
Proof.
  intros Hst <- Hty. unfold enqueue. rewrite !decide_True by done. apply zst_upd.
Qed.

Definition zpublish (z : list (Z * string)) (e : Envelope) : list (Z * string) :=
  zinsert ((ParseInt (priority_arg e)).1, ID e) (zremove (ID e) z).

Lemma accepted_zst es : ∀ s s' a,
  accounts_of q s a → fresh_batch a g es → accepted q es s s' →
  queue_type s q = itoa TypePriority →
  wt s' ∧ zst s' (priority_key q g) = foldl zpublish (zst s (priority_key q g)) es.
Proof using Hq Hg.
  induction es as [|e es IH]; intros s s' a Ha Hf Hacc Hty; inversion Hacc; subst.
  { split; [apply Ha|done]. }
  destruct (accepted_step q g e es s s1 a) as (Hs1 & Ha1 & Ht1 & Hf1); [assumption..|].
  destruct (IH s1 s' _ Ha1 Hf1) as [Hw Hl]; [assumption|by rewrite Ht1|]. split; [done|].
  destruct (fb_each _ _ _ Hf e) as (Hp & Hid & Hst & Hge & _); [apply elem_of_cons; by left|].
  destruct (priority_key_wf q g Hq Hg) as (k & Hk & Htk & Hkeq & Hor).
  assert (zst s1 (priority_key q g) = zst (enqueue q (queue_type s q) e s) (priority_key q g)) as E.
  { unfold zst. rewrite Hkeq, Hs1. rewrite publish_effect_other; try done; by destruct Hor; subst k. }
  rewrite Hl, E. cbn [foldl]. by rewrite enqueue_zst.
Qed.
End accepted.

Lemma zremove_notin m (z : list (Z * string)) : m ∉ z.*2 → zremove m z = z.
Proof.
  unfold zremove. induction z as [|e z IH]; [done|]. rewrite fmap_cons, not_elem_of_cons.
  intros [Hne Hz]. rewrite filter_cons_True by auto. by rewrite IH.
Qed.

(** ** Pops in a row *)

Section pops.
Context (d : DequeueMessage) (Hq : wf_queue (d_key d)).
Context (Hc : no_colon (d_consumerID d) = true) (Hg : no_colon (d_groupID d) = true).
Let dst := ConsumerProcessing (d_key d) (d_consumerID d).

Lemma pops_lst n : ∀ s,
  wt s → d_queueType d ≠ TypePriority →
  (n ≤ length (lst s (pending_key (d_key d) (d_groupID d))))%nat →
  (pops d n s).1 = take n (rev (lst s (pending_key (d_key d) (d_groupID d)))).
Proof using Hq Hc Hg.
  set (src := pending_key (d_key d) (d_groupID d)).
  induction n as [|n IH]; intros s Hw Ht Hn; [done|]. cbn [pops].
  pose proof (pop_fifo_run d Hq Hc Hg s Hw Ht) as Hp. cbv zeta in Hp. fold src dst in Hp.
  destruct (last (lst s src)) as [v|] eqn:Hl.
  2: { apply last_None in Hl. rewrite Hl in Hn. simpl in Hn. lia. }
  pose proof (proj1 (pop_frame d Hq Hc Hg s Hw)) as Hw1. rewrite Hp in Hw1 |- *. cbn [snd] in Hw1.
  set (s1 := upd dst _ _) in *.
  assert (lst s1 src = removelast (lst s src)) as Hs1.
  { unfold s1. rewrite lst_upd_ne; [apply lst_upd|]. intros E.
    destruct (pending_key_wf (d_key d) (d_groupID d) Hq Hg) as (k & Hk & _ & Hkeq & Hor).
    unfold dst, src in E. rewrite Hkeq in E.
    revert E. apply (render_key_ne (KConsumerProcessing _ _) k); [by apply dst_wf|done|].
    by destruct Hor; subst k. }
  pose proof (removelast_app1 _ _ Hl) as Hsplit.
  assert (length (lst s src) = S (length (removelast (lst s src)))) as Hlen.
  { rewrite Hsplit at 1. rewrite length_app. simpl. lia. }
  specialize (IH s1 Hw1 Ht). rewrite Hs1 in IH. destruct (pops d n s1) as [vs s2] eqn:E.
  cbn [fst] in *. rewrite IH by lia. rewrite Hsplit at 2. rewrite rev_app_distr. done.
Qed.

Lemma zremove_head e (z : list (Z * string)) :
  NoDup (e :: z).*2 → zremove e.2 (e :: z) = z.
Proof.
  intros [Hin _]%NoDup_cons. rewrite <-(zremove_notin e.2 z) at 2 by done.
  unfold zremove. by rewrite filter_cons_False by auto.
Qed.

Lemma pops_zst n : ∀ s,
  wt s → d_queueType d = TypePriority →
  NoDup (zst s (priority_key (d_key d) (d_groupID d))).*2 →
  (n ≤ length (zst s (priority_key (d_key d) (d_groupID d))))%nat →
  (pops d n s).1 = take n (zst s (priority_key (d_key d) (d_groupID d))).*2.
Proof using Hq Hc Hg.
  set (src := priority_key (d_key d) (d_groupID d)).
  induction n as [|n IH]; intros s Hw Ht Hnd Hn; [done|]. cbn [pops].
  pose proof (pop_priority_run d Hq Hc Hg s Hw Ht) as Hp. cbv zeta in Hp. fold src dst in Hp.
  destruct (zst s src) as [|e z] eqn:Hz; [simpl in Hn; lia|].
  rewrite zremove_head in Hp by done.
  pose proof (proj1 (pop_frame d Hq Hc Hg s Hw)) as Hw1. rewrite Hp in Hw1 |- *. cbn [snd] in Hw1.
  set (s1 := upd dst _ _) in *.
  assert (zst s1 src = z) as Hs1.
  { unfold s1. rewrite zst_upd_ne; [apply zst_upd|]. intros E.
    destruct (priority_key_wf (d_key d) (d_groupID d) Hq Hg) as (k & Hk & _ & Hkeq & Hor).
    unfold dst, src in E. rewrite Hkeq in E.
    revert E. apply (render_key_ne (KConsumerProcessing _ _) k); [by apply dst_wf|done|].
    by destruct Hor; subst k. }
  specialize (IH s1 Hw1 Ht). rewrite Hs1 in IH. destruct (pops d n s1) as [vs s2] eqn:E.
  cbn [fst] in *. rewrite fmap_cons in Hnd. apply NoDup_cons in Hnd as [_ Hnd].
  simpl in Hn. rewrite IH by (done || lia). done.
Qed.
End pops.

(** ** Sorted sets stay sorted *)

Abbreviation by_priority := (StronglySorted (λ x y : Z * string, x.1 <= y.1)).

Lemma zinsert_Permutation e z : zinsert e z ≡ₚ e :: z.
Proof.
  induction z as [|x z IH]; simpl; [done|]. destruct (zle e x); [done|].
  rewrite IH. apply perm_swap.
Qed.

Lemma zinsert_sorted e z : by_priority z → by_priority (zinsert e z).
Proof.
  induction 1 as [|x z Hz IH Hx]; simpl; [by repeat constructor|].
  destruct (zle e x) eqn:Hle.
  - assert (e.1 <= x.1).
    { unfold zle in Hle. apply orb_true_iff in Hle as [H%bool_decide_eq_true|H]; [lia|].
      apply andb_true_iff in H as [H%bool_decide_eq_true _]. lia. }
    constructor; [by constructor|]. constructor; [done|].
    eapply Forall_impl; [exact Hx|]. simpl. lia.
  - constructor; [done|]. rewrite zinsert_Permutation. constructor; [|done].
    unfold zle in Hle. apply orb_false_iff in Hle as [H%bool_decide_eq_false _]. lia.
Qed.

Definition urgency (e : Envelope) : Z := default 0 (m_priority (producibleMessage e)).

Lemma urgency_arg e : publishable e → (ParseInt (priority_arg e)).1 = urgency e.
Proof.
  intros He. unfold priority_arg, urgency. destruct (m_priority _) as [p|] eqn:E; [|done].
  by rewrite ParseInt_itoa by (by eapply pb_priority).
Qed.

Lemma zpublish_all es : ∀ z,
  by_priority z → NoDup (z.*2 ++ (ID <$> es)) → (∀ e, e ∈ es → publishable e) →
  by_priority (foldl zpublish z es) ∧
  foldl zpublish z es ≡ₚ z ++ ((λ e, (urgency e, ID e)) <$> es).
Proof.
  induction es as [|e es IH]; intros z Hz Hnd Hp; [by rewrite app_nil_r|]. cbn [foldl].
  assert (zpublish z e = zinsert (urgency e, ID e) z) as ->.
  { unfold zpublish. rewrite urgency_arg by (apply Hp, elem_of_cons; by left). f_equal.
    apply zremove_notin. intros Hx. rewrite fmap_cons in Hnd.
    apply NoDup_app in Hnd as (_ & Hd & _). apply (Hd (ID e) Hx), elem_of_cons. by left. }
  destruct (IH (zinsert (urgency e, ID e) z)) as [H1 H2].
  - by apply zinsert_sorted.
  - rewrite (zinsert_Permutation _ z). rewrite fmap_cons. cbn [snd].
    rewrite fmap_cons in Hnd. by rewrite <-app_comm_cons, Permutation_middle.
  - intros e' He'. apply Hp, elem_of_cons. by right.
  - split; [done|]. rewrite H2, (zinsert_Permutation _ z), fmap_cons. cbn.
    by rewrite Permutation_middle.
Qed.

(** ** The order of delivery *)

(** A queue without messages. *)
Lemma accounts_init q s :
  wt s → lst s (Published q) = [] → lst s (Requeued q) = [] → zst s (Delayed q) = [] →
  zst s (Scheduled q) = [] → tally (hsh s (Properties q)) (λ _, 0) → accounts_of q s ∅.
Proof.
  intros Hw Hl Hr Hd Hs Ht.
  split; [split; [done| | |split; rewrite ?Hr, ?Hd, ?Hs; [constructor|set_solver..]]|].
  - by rewrite Hl, map_to_list_empty.
  - intros id st H. by rewrite lookup_empty in H.
  - eapply tally_ext; [exact Ht|]. intros f _. destruct f; reflexivity.
Qed.

Definition dequeuer (ty : Z) : DequeueMessage := {|
  d_queue := sample_params; d_groupID := ""; d_consumerID := "c1"; d_queueType := ty;
  d_rateLimit := None
|}.

Definition typed_store (ty : Z) : store :=
  put_hash (Properties sample_queue) (<[qkey Q_Type := itoa ty]> ∅) empty_store.

Lemma typed_store_accounts ty : accounts_of sample_queue (typed_store ty) ∅.
Proof.
  apply accounts_init; [|reflexivity..|].
  - apply (wt_upd_hash _ (KProperties sample_queue)); [apply wt_empty| |done].
    apply (bool_decide_unpack _). vm_compute. exact I.
  - intros f Hf. unfold counter_text, typed_store, put_hash. rewrite hsh_upd.
    rewrite lookup_insert_ne; [by rewrite lookup_empty|]. by intros <-%(inj qkey).
Qed.

Lemma sample_publishable id :
  no_colon id = true → publishable (pending_envelope id).
Proof. by split. Qed.

(** The keyspace after a publication. *)
Definition after_publish (e : Envelope) (s : store) : store :=
  (publish_message (publish_keys sample_queue e) (BuildPublishArgs e) s).2.

Lemma after_publish_ok e s :
  (publish_message (publish_keys sample_queue e) (BuildPublishArgs e) s).1 = Ret "OK" →
  publish_message (publish_keys sample_queue e) (BuildPublishArgs e) s =
  (Ret "OK", after_publish e s).
Proof. unfold after_publish. by destruct (publish_message _ _ s) as [o s']; intros [= ->]. Qed.

Lemma sample_batch :
  fresh_batch ∅ "" [pending_envelope "m1"; pending_envelope "m2"; pending_envelope "m3"].
Proof.
  split; [|intros e He|vm_compute; reflexivity].
  - apply (bool_decide_unpack _). vm_compute. exact I.
  - rewrite !elem_of_cons, elem_of_nil in He. destruct He as [-> | [-> | [-> | []]]];
      (split; [by apply sample_publishable|split; [discriminate|split_and!; reflexivity]]).
Qed.

Lemma sample_accepted ty :
  ty = TypeFIFO ∨ ty = TypeLIFO →
  accepted sample_queue [pending_envelope "m1"; pending_envelope "m2"; pending_envelope "m3"]
    (typed_store ty)
    (after_publish (pending_envelope "m3") (after_publish (pending_envelope "m2")
       (after_publish (pending_envelope "m1") (typed_store ty)))).
Proof.
  intros [-> | ->];
    repeat (eapply accepted_cons; [apply after_publish_ok; vm_compute; reflexivity|]);
    apply accepted_nil.
Qed.

(** C23: a FIFO queue delivers in the order of publication: after any backlog,
    the messages the script accepted come out of successive pops in the order
    they were published. *)
Theorem fifo_order d s s' a es :
  let q := d_key d in
  let backlog := lst s (pending_key q (d_groupID d)) in
  accounts_of q s a → wf_queue q →
  no_colon (d_consumerID d) = true → no_colon (d_groupID d) = true →
  d_queueType d = TypeFIFO → queue_type s q = itoa TypeFIFO →
  fresh_batch a (d_groupID d) es → accepted q es s s' →
  (pops d (length backlog + length es) s').1 = rev backlog ++ (ID <$> es).
Proof.
  intros q backlog Ha Hq Hc Hg Hdt Hqt Hf Hacc.
  destruct (accepted_lst q Hq (d_groupID d) Hg es s s' a Ha Hf Hacc) as [Hw Hl].
  { by rewrite Hqt. }
  rewrite Hqt, decide_False in Hl by done.
  rewrite pops_lst by (done || rewrite ?Hdt; done ||
    (fold q; rewrite Hl, length_app, length_rev, length_fmap; unfold backlog; lia)).
  fold q. rewrite Hl, rev_app_distr, rev_involutive. apply take_ge.
  rewrite length_app, length_rev, length_fmap. unfold backlog. lia.
Qed.

Lemma fifo_order_witness :
  (pops (dequeuer TypeFIFO) 3
     (after_publish (pending_envelope "m3") (after_publish (pending_envelope "m2")
       (after_publish (pending_envelope "m1") (typed_store TypeFIFO))))).1 = ["m1"; "m2"; "m3"].
Proof.
  exact (fifo_order (dequeuer TypeFIFO) (typed_store TypeFIFO) _ ∅
           [pending_envelope "m1"; pending_envelope "m2"; pending_envelope "m3"]
           (typed_store_accounts _) sample_queue_wf eq_refl eq_refl eq_refl eq_refl
           sample_batch (sample_accepted TypeFIFO (or_introl eq_refl))).
Defined.

(** A LIFO queue delivers the newest message first: the messages the script
    accepted come out in the reverse of the order of publication, before
    anything that was there already. *)
Theorem lifo_order d s s' a es :
  let q := d_key d in
  accounts_of q s a → wf_queue q →
  no_colon (d_consumerID d) = true → no_colon (d_groupID d) = true →
  d_queueType d = TypeLIFO → queue_type s q = itoa TypeLIFO →
  fresh_batch a (d_groupID d) es → accepted q es s s' →
  (pops d (length es) s').1 = rev (ID <$> es).
Proof.
  intros q Ha Hq Hc Hg Hdt Hqt Hf Hacc.
  destruct (accepted_lst q Hq (d_groupID d) Hg es s s' a Ha Hf Hacc) as [Hw Hl].
  { by rewrite Hqt. }
  rewrite Hqt, decide_True in Hl by done.
  rewrite pops_lst by (done || rewrite ?Hdt; done ||
    (fold q; rewrite Hl, length_app, length_fmap; lia)).
  fold q. rewrite Hl, rev_app_distr. apply take_app_length'. by rewrite length_rev, length_fmap.
Qed.

Lemma lifo_order_witness :
  (pops (dequeuer TypeLIFO) 3
     (after_publish (pending_envelope "m3") (after_publish (pending_envelope "m2")
       (after_publish (pending_envelope "m1") (typed_store TypeLIFO))))).1 = ["m3"; "m2"; "m1"].
Proof.
  exact (lifo_order (dequeuer TypeLIFO) (typed_store TypeLIFO) _ ∅
           [pending_envelope "m1"; pending_envelope "m2"; pending_envelope "m3"]
           (typed_store_accounts _) sample_queue_wf eq_refl eq_refl eq_refl eq_refl
           sample_batch (sample_accepted TypeLIFO (or_intror eq_refl))).
Defined.

(** C24: a priority queue delivers by urgency: the accepted messages come out
    each exactly once, with priorities that never decrease (0 is the most
    urgent). *)
Theorem priority_order d s s' a es :
  let q := d_key d in
  accounts_of q s a → wf_queue q →
  no_colon (d_consumerID d) = true → no_colon (d_groupID d) = true →
  d_queueType d = TypePriority → queue_type s q = itoa TypePriority →
  zst s (priority_key q (d_groupID d)) = [] →
  fresh_batch a (d_groupID d) es → accepted q es s s' →
  ∃ z, (pops d (length es) s').1 = z.*2 ∧ by_priority z ∧
       z ≡ₚ ((λ e, (urgency e, ID e)) <$> es).
Proof.
  intros q Ha Hq Hc Hg Hdt Hqt Hz Hf Hacc.
  destruct (accepted_zst q Hq (d_groupID d) Hg es s s' a Ha Hf Hacc Hqt) as [Hw Hl].
  rewrite Hz in Hl. destruct (zpublish_all es []) as [Hs Hp].
  { constructor. } { apply Hf. } { intros e He. by apply (fb_each _ _ _ Hf). }
  rewrite <-Hl in Hs, Hp. cbn in Hp. exists (zst s' (priority_key q (d_groupID d))).
  assert (length (zst s' (priority_key q (d_groupID d))) = length es) as Hlen.
  { by rewrite Hp, length_fmap. }
  split; [|done]. rewrite pops_zst; try done.
  - fold q. rewrite <-Hlen. apply take_ge. by rewrite length_fmap.
  - fold q. rewrite Hp. rewrite <-list_fmap_compose. apply Hf.
  - fold q. lia.
Qed.

Definition urgent_envelope (id : string) (p : Z) : Envelope :=
  SetStatus StatusPending (SetDestinationQueue (Some sample_params)
    (NewEnvelope id (SetQueue (Some sample_params)
       (SetPriority p (New DefaultConsumeOptions 1000000))))).

Lemma urgent_batch : fresh_batch ∅ "" [urgent_envelope "m1" 5; urgent_envelope "m2" 1].
Proof.
  split; [|intros e He|vm_compute; reflexivity].
  - apply (bool_decide_unpack _). vm_compute. exact I.
  - rewrite !elem_of_cons, elem_of_nil in He. destruct He as [-> | [-> | []]];
      (split; [|split; [discriminate|split_and!; reflexivity]]);
      (split; [done|done| |done]); intros p [= <-]; vm_compute; split; discriminate.
Qed.

Lemma priority_order_witness :
  ∃ z, (pops (dequeuer TypePriority) 2
          (after_publish (urgent_envelope "m2" 1)
             (after_publish (urgent_envelope "m1" 5) (typed_store TypePriority)))).1 = z.*2 ∧
       by_priority z ∧ z ≡ₚ [(5, "m1"); (1, "m2")].
Proof.
  refine (priority_order (dequeuer TypePriority) (typed_store TypePriority) _ ∅
           [urgent_envelope "m1" 5; urgent_envelope "m2" 1]
           (typed_store_accounts _) sample_queue_wf eq_refl eq_refl eq_refl eq_refl eq_refl
           urgent_batch _).
  repeat (eapply accepted_cons; [apply after_publish_ok; vm_compute; reflexivity|]).
  apply accepted_nil.
Defined.

(** ** The rate limit *)

(** Checks at the times [ts], each after the keys that have expired by then
    are gone; the replies. *)
Fixpoint checks (q : Queue) (rl : RateLimitParams) (ts : list Z) (s : store)
    : list (outcome Z) * store :=
  match ts with
  | [] => ([], s)
  | t :: ts =>
      let '(r, s) := check_queue_rate_limit t [RateLimit q]
                       [itoa (rl_limit rl); itoa (Milliseconds (rl_interval rl))]
                       (expire_keys t s) in
      let '(rs, s) := checks q rl ts s in (r :: rs, s)
  end.

(** The window is open: [n] has been counted down to and the key expires at
    [until]. *)
Definition window (q : Queue) (n until : Z) (s : store) : Prop :=
  db s !! RateLimit q = Some (VStr (itoa n)) ∧ expires s !! RateLimit q = Some until.

Lemma window_alive q n until t s : window q n until s → t < until → window q n until (expire_keys t s).
Proof.
  intros [Hd He] Ht. split; simpl.
  - apply map_lookup_filter_Some. split; [done|]. simpl. unfold alive. rewrite He.
    by apply bool_decide_eq_true.
  - apply map_lookup_filter_Some. done.
Qed.

Section rate_limit.
Context (q : Queue) (rl : RateLimitParams).
Context (Hlim : in_int64 (rl_limit rl)) (Hint : in_int64 (Milliseconds (rl_interval rl))).
Let keys := [RateLimit q].
Let args := [itoa (rl_limit rl); itoa (Milliseconds (rl_interval rl))].

Lemma check_open t n until s :
  window q n until s → int64_min < n <= int64_max →
  ∃ s', check_queue_rate_limit t keys args s =
          (Ret (if decide (n - 1 < 0) then 1 else 0), s') ∧ window q (n - 1) until s'.
Proof using Hint.
  intros [Hd He] Hn. unfold check_queue_rate_limit. unfold keys, args. cbn [arg nth Nat.sub].
  rewrite string2ll_itoa by done. erewrite bind_Ret; [|unfold cmd_set_px_nx; by rewrite Hd].
  eexists. erewrite bind_Ret.
  2: { unfold cmd_decr, with_view. rewrite Hd. cbn [as_str default from_option id].
       rewrite string2ll_itoa by (unfold in_int64; lia).
       rewrite decide_True by (unfold in_int64; lia). done. }
  split; [by case_decide|]. split; simpl; [apply lookup_insert_eq|done].
Qed.

Lemma check_first t s :
  db s !! RateLimit q = None → 0 < rl_limit rl →
  ∃ s', check_queue_rate_limit t keys args s = (Ret 0, s') ∧
        window q (rl_limit rl - 1) (t + Milliseconds (rl_interval rl)) s'.
Proof using Hlim Hint.
  intros Hd Hn. unfold check_queue_rate_limit. unfold keys, args. cbn [arg nth Nat.sub].
  rewrite string2ll_itoa by done. erewrite bind_Ret; [|unfold cmd_set_px_nx; by rewrite Hd].
  eexists. erewrite bind_Ret.
  2: { unfold cmd_decr, with_view. cbn [db]. rewrite lookup_insert_eq. cbn [as_str default from_option id].
       rewrite string2ll_itoa by done.
       rewrite decide_True by (unfold in_int64, int64_min, int64_max in *; lia). done. }
  split; [done|]. split; simpl; apply lookup_insert_eq.
Qed.

Lemma checks_open ts : ∀ n until s,
  window q n until s → (∀ t, t ∈ ts → t < until) →
  int64_min + Z.of_nat (length ts) < n <= int64_max →
  (checks q rl ts s).1 =
    replicate (Z.to_nat n `min` length ts) (Ret 0) ++
    replicate (length ts - Z.to_nat n) (Ret 1).
Proof using Hint.
  induction ts as [|t ts IH]; intros n until s Hw Hts Hn; [by rewrite Nat.min_0_r|].
  cbn [checks length] in *. assert (t < until) as Ht by (apply Hts, elem_of_cons; by left).
  destruct (check_open t n until (expire_keys t s)) as (s1 & Hr & Hw1);
    [by apply window_alive|lia|]. unfold keys, args in Hr. rewrite Hr.
  assert (∀ t, t ∈ ts → t < until) as Hts' by (intros u Hu; apply Hts, elem_of_cons; by right).
  specialize (IH (n - 1) until s1 Hw1 Hts'). destruct (checks q rl ts s1) as [rs s2]. cbn [fst] in *.
  rewrite IH by lia. destruct (decide (n - 1 < 0)) as [Hneg|Hpos].
  - replace (Z.to_nat (n - 1)) with 0%nat by lia. replace (Z.to_nat n) with 0%nat by lia.
    rewrite Nat.sub_0_r. done.
  - replace (Z.to_nat n) with (S (Z.to_nat (n - 1))) by lia. done.
Qed.
End rate_limit.

(** C25: the rate limit admits exactly [limit] deliveries per window: of the
    checks made within one interval of the first, the first [limit] are
    admitted (reply 0) and the others are not (reply 1). *)
Theorem rate_limit_window q rl s t ts :
  rl_Validate rl = true → in_int64 (rl_limit rl) → in_int64 (rl_interval rl) →
  db s !! RateLimit q = None →
  (∀ t', t' ∈ ts → t' < t + Milliseconds (rl_interval rl)) →
  Z.of_nat (length ts) < 9223372036854775807 →
  let n := Z.to_nat (rl_limit rl) in
  (checks q rl (t :: ts) s).1 =
    replicate (n `min` S (length ts)) (Ret 0) ++ replicate (S (length ts) - n) (Ret 1).
Proof.
  intros Hv Hlim Hi Hd Hts Hlen n. unfold rl_Validate in Hv.
  apply andb_true_iff in Hv as [H0%bool_decide_eq_true H1%bool_decide_eq_true].
  assert (in_int64 (Milliseconds (rl_interval rl))) as Hms.
  { unfold Milliseconds, in_int64, int64_min, int64_max, second in *.
    unfold millisecond. Z.to_euclidean_division_equations. lia. }
  cbn [checks]. destruct (check_first q rl Hlim Hms t (expire_keys t s)) as (s1 & Hr & Hw); [|done|].
  { simpl. apply map_lookup_filter_None. by left. }
  rewrite Hr. pose proof (checks_open q rl Hms ts _ _ s1 Hw Hts) as Hrest.
  destruct (checks q rl ts s1) as [rs s2]. cbn [fst] in *.
  rewrite Hrest by (unfold in_int64, int64_min, int64_max in *; lia).
  assert (n = S (Z.to_nat (rl_limit rl - 1))) as -> by (unfold n; lia). done.
Qed.

Lemma rate_limit_window_witness :
  (checks sample_queue {| rl_limit := 2; rl_interval := 1000000000 |} [100; 200; 300; 1099]
     empty_store).1 = [Ret 0; Ret 0; Ret 1; Ret 1].
Proof.
  refine (rate_limit_window sample_queue {| rl_limit := 2; rl_interval := 1000000000 |}
            empty_store 100 [200; 300; 1099] eq_refl _ _ eq_refl _ eq_refl).
  - vm_compute. split; discriminate.
  - vm_compute. split; discriminate.
  - intros t'. rewrite !elem_of_cons, elem_of_nil.
    intros [-> | [-> | [-> | []]]]; reflexivity.
Defined.
