(* ===== verification/Copy.v ===== *)
(** * Copies of messages

    Two scripts create messages themselves: core/requeue-message.lua for a
    requeued message (Manage.v) and core/publish-scheduled.lua for one firing of
    a repeating message (Schedule.v).  Both take a clone of the message as JSON
    (internal/message/clone.go, pkg/message/transferable.go), set the fields of
    the new hash to the same constants and call the procedure of Publish.v. *)

From S2P Require Import Prelude Keys Redis RedisFacts Types Keyspace Json Message MessageCodec.
From S2P Require Import Publish Accounts Accounting.
From coqutil Require Import Datatypes.RecordSetters.
Import TriangleBracketNotations.
#[local] Open Scope record_set.
#[local] Open Scope Z_scope.

(** ** Transferable messages as JSON (pkg/message/transferable.go, state_transferable.go) *)

Definition state_json (t : StateTransferable) : json := JObj (
  [("uuid", JStr (t_UUID t))] ++
  omit "scheduledAt" JNum (t_ScheduledAt t) ++ omit "publishedAt" JNum (t_PublishedAt t) ++
  omit "requeuedAt" JNum (t_RequeuedAt t) ++
  omit "processingStartedAt" JNum (t_ProcessingStartedAt t) ++
  omit "acknowledgedAt" JNum (t_AcknowledgedAt t) ++
  omit "unacknowledgedAt" JNum (t_UnacknowledgedAt t) ++
  omit "deadLetteredAt" JNum (t_DeadLetteredAt t) ++
  omit "lastRequeuedAt" JNum (t_LastRequeuedAt t) ++
  omit "lastUnacknowledgedAt" JNum (t_LastUnacknowledgedAt t) ++
  omit "lastScheduledAt" JNum (t_LastScheduledAt t) ++
  omit "lastRetriedAttemptAt" JNum (t_LastRetriedAttemptAt t) ++
  omit "lastProcessedAt" JNum (t_LastProcessedAt t) ++
  [("scheduledCronFired", JBool (t_ScheduledCronFired t)); ("attempts", JNum (t_Attempts t));
   ("scheduledRepeatCount", JNum (t_ScheduledRepeatCount t));
   ("requeueCount", JNum (t_RequeueCount t)); ("expired", JBool (t_Expired t));
   ("effectiveScheduledDelay", JNum (t_EffectiveScheduledDelay t));
   ("scheduledTimes", JNum (t_ScheduledTimes t))] ++
  omit "scheduledMessageParentId" JStr (nonempty (t_ScheduledMessageParentID t)) ++
  omit "requeuedMessageParentId" JStr (nonempty (t_RequeuedMessageParentID t))).

(** The fields of the parameters stand between the identifier and the state. *)
Definition transferable_json (t : Transferable) : json :=
  match params_json (tr_Params t) with
  | JObj l => JObj ([("id", JStr (tr_ID t))] ++ l ++
                    [("messageState", state_json (tr_MessageState t)); ("status", JNum (tr_Status t))])
  | j => j
  end.

(** ** The fields of a copy *)

(** The fields of a message that a script creates as a copy, in the order of
    its arguments. *)
Definition child_values (pending id msg publishedAt scheduledParent requeuedParent : string)
    : list string :=
  [id; pending; msg; ""; publishedAt; ""; ""; ""; ""; ""; ""; ""; "0"; ""; ""; "0"; "0"; "0"; "0"; "0";
   "0"; scheduledParent; requeuedParent; ""].

(** The same as a function of the field. *)
Definition child_value (id msg publishedAt scheduledParent requeuedParent : string) (f : mfield)
    : string :=
  match f with
  | F_ID => id
  | F_Status => itoa StatusPending
  | F_Message => msg
  | F_PublishedAt => publishedAt
  | F_ScheduledMessageParentID => scheduledParent
  | F_RequeuedMessageParentID => requeuedParent
  | F_RequeueCount | F_ScheduledCronFired | F_Attempts | F_ScheduledRepeatCount | F_Expired
  | F_EffectiveScheduledDelay | F_ScheduledTimes => "0"
  | _ => ""
  end.

Lemma child_values_eq id msg publishedAt sp rp :
  child_values (itoa StatusPending) id msg publishedAt sp rp =
  child_value id msg publishedAt sp rp <$> messagePropertyFields.
Proof. reflexivity. Qed.

(** ** The clone both callers send *)

(** [clone := CloneMessage(msg); clone.ProducibleMessage().ResetScheduledParams()]. *)
Definition reset_clone (defaults : ConsumeOptions) (newID : string) (now : Z) (source : Envelope)
    : Envelope :=
  let clone := CloneMessage defaults newID now now source in
  clone <| producibleMessage := ResetScheduledParams (producibleMessage clone) |>.

(** The message that the script makes of it, with its parents. *)
Definition copied (newID : string) (now ts : Z) (scheduledParent requeuedParent : string)
    (source : Envelope) : Envelope := {|
  producibleMessage := ResetScheduledParams ((producibleMessage source) <| m_createdAt := now |>);
  messageState := SetScheduledMessageParentID scheduledParent
    (SetRequeuedMessageParentID requeuedParent (SetPublishedAt ts (NewMessageState newID)));
  status := StatusPending;
  destinationQueue := destinationQueue source;
  consumerGroupID := consumerGroupID source
|}.

Lemma reset_clone_ok defaults newID now source :
  wf_message (producibleMessage source) → routable (producibleMessage source) →
  let clone := reset_clone defaults newID now source in
  producibleMessage clone = ResetScheduledParams ((producibleMessage source) <| m_createdAt := now |>) ∧
  ID clone = newID ∧ destinationQueue clone = destinationQueue source ∧
  consumerGroupID clone = consumerGroupID source ∧ ScheduledAt (messageState clone) = None.
Proof.
  intros Hw Hr. unfold reset_clone, CloneMessage, cloneMessage. rewrite copy_message_ok by done.
  destruct source as [m st s dq g]. destruct m as [? ? ? ? ? ? ? ? [d|] ? ? ? ? ?]; cbn;
    destruct (decide (g ≠ "")) as [Hg|Hg%dec_stable]; try subst g; by split_and!.
Qed.

(** ** Reading a copy back *)

(** The other fields of a transferable message do not disturb its parameters. *)
Lemma params_of_transferable t :
  params_of_json (transferable_json t) = params_of_json (params_json (tr_Params t)).
Proof.
  unfold transferable_json. destruct (params_json (tr_Params t)) as [| | | | |l] eqn:E; try done.
  assert (∀ k, k ≠ "id" → k ≠ "messageState" → k ≠ "status" →
    jfield k ([("id", JStr (tr_ID t))] ++ l ++
      [("messageState", state_json (tr_MessageState t)); ("status", JNum (tr_Status t))]) = jfield k l) as H.
  { intros k H1 H2 H3. rewrite !jfield_app. cbn [jfield]. rewrite !decide_False by congruence.
    by destruct (jfield k l). }
  clear E. unfold params_of_json, get_or, get_opt.
  repeat match goal with
  | |- context [jfield ?k ([_] ++ _)] => rewrite (H k ltac:(discriminate) ltac:(discriminate) ltac:(discriminate))
  end.
  done.
Qed.

Lemma DecodeParams_transferable t :
  params_in_range (tr_Params t) → DecodeParams (print (transferable_json t)) = Some (wired (tr_Params t)).
Proof.
  intros H. unfold DecodeParams. rewrite parse_print. cbn [mbind option_bind].
  rewrite params_of_transferable. by apply params_json_roundtrip.
Qed.

Lemma copied_storable defaults newID now ts sp rp source :
  storable defaults source → in_int64 (UnixMilli now) → 0 < ts <= int64_max →
  storable defaults (copied newID now ts sp rp source).
Proof.
  intros [Hw Hr Hm _ Hp _ Hd] Hn Hts.
  destruct source as [m st s dq g]. destruct m as [ca ttl th rd ct body prio cron sd pd rep ex rk q].
  assert (UnixMilli (OfUnixMilli ts) = ts) as Et by (unfold UnixMilli, OfUnixMilli; by rewrite Z.div_mul).
  split; cbn in *.
  - destruct Hw; split; by cbn.
  - done.
  - destruct Hm; split; by cbn.
  - split; cbn; try done; try (split; [by rewrite Et|lia]); unfold in_int64, int64_min, int64_max; lia.
  - destruct Hp; split; cbn in *; done.
  - unfold in_int64, int64_min, int64_max, StatusPending. lia.
  - done.
Qed.

Lemma copied_params defaults newID now ts sp rp source :
  wf_message (producibleMessage source) → routable (producibleMessage source) →
  env_ToParams (reset_clone defaults newID now source) = env_ToParams (copied newID now ts sp rp source).
Proof.
  intros Hw Hr. destruct (reset_clone_ok defaults newID now source Hw Hr) as (E1 & _ & E2 & E3 & _).
  unfold env_ToParams. by rewrite E1, E2, E3.
Qed.

(** The hash the scripts store for a copy decodes to the copy. *)
Lemma copy_readable defaults uuid uuid' now' newID now ts sp rp source clone h :
  storable defaults source → in_int64 (UnixMilli now) → 0 < ts <= int64_max →
  env_ToParams clone = env_ToParams (copied newID now ts sp rp source) →
  (∀ f, h !! mkey f = Some (child_value newID (print (transferable_json (ToTransferable clone)))
                              (itoa ts) sp rp f)) →
  DecodeEnvelope defaults uuid uuid' now' h = Some (reread now' (copied newID now ts sp rp source)).
Proof.
  intros Hs Hn Hts Hp Hf. pose proof (copied_storable defaults newID now ts sp rp source Hs Hn Hts) as Hc.
  eapply DecodeEnvelope_as; [done|apply Hf| |apply Hf|].
  - cbn [child_value]. rewrite DecodeParams_transferable; cbn [ToTransferable tr_Params]; [by rewrite Hp|].
    rewrite Hp. apply Hc.
  - intros f N1 N2. unfold reads. rewrite Hf.
    assert (UnixMilli (OfUnixMilli ts) = ts) as Et by (unfold UnixMilli, OfUnixMilli; by rewrite Z.div_mul).
    assert (∀ x, x = default "" (nonempty x)) as Hne by (intros x; unfold nonempty; case_decide; by subst).
    right. f_equal. destruct f; try done; try apply Hne.
    cbn [child_value state_field]. unfold stamp. cbn. rewrite Et. by rewrite decide_True by lia.
Qed.

(** ** Publishing a copy *)

Section copy.
Context (q : Queue) (clone : Envelope) (msg publishedAt sp rp : string).
Context (Hsched : ScheduledAt (messageState clone) = None).

(** The copy as the procedure sees it: a pending message. *)
Definition copy : Envelope := SetStatus StatusPending clone.
Definition copy_value : mfield → string := child_value (ID clone) msg publishedAt sp rp.

Lemma copy_args_eq :
  buildQueuePropertyArgs ++ [priority_arg clone; ""; itoa StatusScheduled; itoa StatusPending] ++
  (mkey <$> messagePropertyFields) ++
  child_values (itoa StatusPending) (ID clone) msg publishedAt sp rp ++ [consumerGroupID clone; ""] =
  publish_args copy_value copy.
Proof using Hsched.
  unfold publish_args. change (messageState copy) with (messageState clone). by rewrite Hsched.
Qed.

Lemma copy_run s :
  wt s → wf_queue q → publishable copy → publish_counters s q copy →
  publish_message (publish_keys q copy) (publish_args copy_value copy) s =
    (let reply := publish_reply (hsh s (Properties q)) (sts s (ConsumerGroups q)) copy in
     (Ret reply,
      if decide (reply = "OK")
      then publish_effect_as copy_value q (default "" (hsh s (Properties q) !! qkey Q_Type)) copy s
      else s)).
Proof using. by apply publish_run_as. Qed.

Lemma copy_accounts ty s a :
  accounts_of q s a → small a → wf_queue q → publishable copy → a !! ID clone = None → ID clone ≠ "" →
  accounts_of q (publish_effect_as copy_value q ty copy s) (<[ID clone := StatusPending]> a).
Proof using.
  intros Ha Hsm Hq He Hnew Hid.
  exact (publish_accounts_as copy_value q ty copy s a eq_refl Ha Hsm Hq He Hnew Hid (or_introl eq_refl)).
Qed.

(** The hash of the copy, and of any other message. *)
Lemma copy_hash ty s f :
  wf_queue q → no_colon (ID clone) = true →
  hsh (publish_effect_as copy_value q ty copy s) (Message (ID clone)) !! mkey f = Some (copy_value f).
Proof using.
  intros Hq Hn. change (ID clone) with (ID copy) in *. unfold publish_effect_as, add_counter at 1. cbv zeta.
  rewrite hsh_upd_ne by key_ne. rewrite hsh_upd.
  rewrite hset_all_lookup_fields by apply messagePropertyFields_NoDup.
  by rewrite decide_True by apply messagePropertyFields_all.
Qed.

Lemma copy_other_hash ty s id :
  wf_queue q → publishable copy → no_colon id = true → id ≠ ID clone →
  hsh (publish_effect_as copy_value q ty copy s) (Message id) = hsh s (Message id).
Proof using.
  intros Hq He Hn Hne. change (ID clone) with (ID copy) in *. pose proof (pb_id _ He).
  unfold publish_effect_as, add_counter. cbv zeta. views. by rewrite enqueue_message.
Qed.
End copy.
