(* ===== verification/Manage.v ===== *)
(** * Managing stored messages

    Reading, deleting and requeuing messages: internal/message/store.go and
    the scripts core/delete-message.lua and core/requeue-message.lua.  The
    second publishes a copy of a message (Copy.v). *)

From S2P Require Import Prelude Keys Redis RedisFacts Types Keyspace Json Message MessageCodec.
From S2P Require Import Publish Consume Accounts Accounting Retry Copy.
#[local] Open Scope Z_scope.

(** ** core/delete-message.lua *)

(** The lock check of the scripts that change a queue from outside: the reply
    that refuses, or none. *)
Definition lock_check (currentState : option string) (currentLockId locked operationLockId : string)
    : option string :=
  if decide (currentState = Some locked) then
    if decide (operationLockId = "") then Some "QUEUE_LOCKED"
    else if decide (currentLockId = "" ∨ currentLockId ≠ operationLockId) then Some "INVALID_LOCK"
    else None
  else None.

Record DeleteStats := { Processed : Z; Success : Z; NotFound : Z; InProcess : Z }.
Definition no_stats : DeleteStats := {| Processed := 0; Success := 0; NotFound := 0; InProcess := 0 |}.
Definition add_stats (a b : DeleteStats) : DeleteStats := {|
  Processed := Processed a + Processed b; Success := Success a + Success b;
  NotFound := NotFound a + NotFound b; InProcess := InProcess a + InProcess b |}.
Definition one_deleted : DeleteStats := {| Processed := 1; Success := 1; NotFound := 0; InProcess := 0 |}.
Definition one_missing : DeleteStats := {| Processed := 1; Success := 0; NotFound := 1; InProcess := 0 |}.
Definition one_busy : DeleteStats := {| Processed := 1; Success := 0; NotFound := 0; InProcess := 1 |}.

(** Takes the message off the list its status says; the counter to decrement. *)
Definition delete_from (keys args : list string) (queueType : option string)
    (messageStatus messageId : string) : M (option string) :=
  if decide (messageStatus = arg args 14) then
    _ ← cmd_lrem1 (arg keys 6) messageId; mret (Some (arg args 3))
  else if decide (messageStatus = arg args 17) then
    _ ← cmd_lrem1 (arg keys 7) messageId; mret (Some (arg args 4))
  else if decide (messageStatus = arg args 16) then
    _ ← cmd_zrem (arg keys 5) messageId; mret (Some (arg args 6))
  else if decide (messageStatus = arg args 18) then
    _ ← cmd_lrem1 (arg keys 8) messageId; mret (Some (arg args 7))
  else if decide (messageStatus = arg args 19) then
    _ ← cmd_lrem1 (arg keys 9) messageId; mret (Some (arg args 8))
  else if decide (messageStatus = arg args 15) then
    _ ← (if decide (queueType = Some (arg args 9)) then cmd_zrem (arg keys 4) messageId
         else if decide (queueType = Some (arg args 11) ∨ queueType = Some (arg args 10))
         then cmd_lrem1 (arg keys 3) messageId else mret 0);
    mret (Some (arg args 5))
  else mret None.

Definition delete_turn (keys args : list string) (queueType : option string) (acc : DeleteStats)
    (i : nat) : M DeleteStats :=
  let messageKey := arg keys (10 + 2 * i) in
  let messageHistoryKey := arg keys (11 + 2 * i) in
  let messageId := arg args (24 + i) in
  messageStatus ← cmd_hget messageKey (arg args 12);
  match messageStatus with
  | None => mret (add_stats acc one_missing)
  | Some messageStatus =>
      if decide (messageStatus = arg args 13) then mret (add_stats acc one_busy)
      else
        counterToDecrement ← delete_from keys args queueType messageStatus messageId;
        _ ← cmd_del [messageKey; messageHistoryKey];
        _ ← cmd_lrem1 (arg keys 2) messageId;
        _ ← cmd_hincrby (arg keys 1) (arg args 2) (-1);
        _ ← match counterToDecrement with
            | Some f => cmd_hincrby (arg keys 1) f (-1)
            | None => mret 0
            end;
        mret (add_stats acc one_deleted)
  end.

Definition delete_message (keys args : list string) : M (string + DeleteStats) :=
  let keyQueueProperties := arg keys 1 in
  ex ← cmd_exists keyQueueProperties;
  if negb ex then mret (inl "QUEUE_NOT_FOUND")
  else
    currentState ← cmd_hget keyQueueProperties (arg args 20);
    currentLockId ← cmd_hget keyQueueProperties (arg args 22);
    match lock_check currentState (default "" currentLockId) (arg args 21) (arg args 23) with
    | Some reply => mret (inl reply)
    | None =>
        let dynamicKeysCount := (length keys - 9)%nat in
        let dynamicArgsCount := (length args - 23)%nat in
        if decide (dynamicKeysCount = 0%nat ∧ dynamicArgsCount = 0%nat) then mret (inr no_stats)
        else if decide (dynamicKeysCount mod 2 ≠ 0)%nat then mret (inl "INVALID_ARGS_ERROR")
        else if decide (dynamicKeysCount / 2 ≠ dynamicArgsCount)%nat then mret (inl "INVALID_ARGS_ERROR")
        else
          queueType ← cmd_hget keyQueueProperties (arg args 1);
          stats ← foldM (delete_turn keys args queueType) no_stats (turns args 23 1);
          mret (inr stats)
    end.

(** ** core/requeue-message.lua *)

Definition requeue_turn (keys args : list string) (requeuedCount : Z) (i : nat) : M (string + Z) :=
  let keyOriginalMessage := arg keys (7 + 2 * i) in
  let keyNewMessage := arg keys (8 + 2 * i) in
  let base := (41 + 7 * i)%nat in
  let newChildMessageId := arg args base in
  let consumerGroupId := arg args (base + 6) in
  originalMessageId ← cmd_hget keyOriginalMessage (arg args 16);
  match originalMessageId with
  | None => mret (inr requeuedCount)
  | Some originalMessageId =>
      group_exists ← (if decide (consumerGroupId ≠ "")
                      then cmd_sismember (arg keys 6) consumerGroupId else mret true);
      if (group_exists : bool) then
        result ← publish_message
          [arg keys 1; arg keys 2; arg keys 3; arg keys 5; arg keys 4; arg keys 6; keyNewMessage]
          ((arg args <$> seq 1 13) ++
           [arg args (base + 2); ""; arg args 14; arg args 15] ++
           (arg args <$> seq 16 24) ++
           child_values (arg args 15) newChildMessageId (arg args (base + 1)) (arg args (base + 3))
             "" originalMessageId ++
           [consumerGroupId; arg args 40]);
        if decide (result ≠ "OK")
        then mret (inl ("REQUEUE_ERROR:" +:+ originalMessageId +:+ ":" +:+ result))
        else
          _ ← cmd_hset keyOriginalMessage
                [(arg args 27, arg args (base + 4)); (arg args 29, arg args (base + 5))];
          _ ← cmd_hincrby keyOriginalMessage (arg args 28) 1;
          mret (inr (requeuedCount + 1))
      else mret (inr requeuedCount)
  end.

(** A loop that a turn can leave with a reply. *)
Fixpoint loopM {A B R} (f : B → A → M (R + B)) (b : B) (l : list A) : M (R + B) :=
  match l with
  | [] => mret (inr b)
  | a :: l' => r ← f b a; match r with inl x => mret (inl x) | inr b' => loopM f b' l' end
  end.

Definition requeue_message (keys args : list string) : M (string + Z) :=
  ex ← cmd_exists (arg keys 1);
  if negb ex then mret (inr 0)
  else loopM (requeue_turn keys args) 0 (turns args 40 7).

(** ** internal/message/store.go *)

Inductive message_error :=
| MNotFound | MDecode | MBadStatus | MLocked | MQueueNotFound | MUnexpectedReply (reply : string)
| MNotRequeuable | MNoDestination | MScript (err : rerr).

Record DeleteResponse := { resp_Status : string; resp_Stats : DeleteStats }.
Definition DeleteStatusOK : string := "OK".
Definition DeleteStatusPartialSuccess : string := "PARTIAL_SUCCESS".
Definition DeleteStatusNotDeleted : string := "MESSAGE_NOT_DELETED".

(** The messages of one queue and one consumer group. *)
Record messageGroup := { mg_id : string * string; mg_queue : QParams; mg_messages : list Envelope }.

(** [groups[queueID][cgID].messages = append(..., env)], with the groups in the
    order of their first message. *)
Fixpoint group_add (id : string * string) (q : QParams) (env : Envelope) (l : list messageGroup)
    : list messageGroup :=
  match l with
  | [] => [{| mg_id := id; mg_queue := q; mg_messages := [env] |}]
  | g :: l' =>
      if decide (mg_id g = id)
      then {| mg_id := mg_id g; mg_queue := mg_queue g; mg_messages := mg_messages g ++ [env] |} :: l'
      else g :: group_add id q env l'
  end.

Definition message_groups (messages : list Envelope) : list messageGroup :=
  foldl (λ l env,
    match destinationQueue env with
    | None => l
    | Some q =>
        let cgID := if decide (consumerGroupID env = "") then "_" else consumerGroupID env in
        group_add (q_ns q +:+ ":" +:+ q_name q, cgID) q env l
    end) [] messages.

Definition del_keys (q : Queue) (g : string) (ids : list string) : list string :=
  [Properties q; Published q;
   if decide (g ≠ "") then PendingWithGroup q g else Pending q;
   if decide (g ≠ "") then PriorityWithGroup q g else Priority q;
   Scheduled q; Acknowledged q; DeadLetter q; Delayed q; Requeued q] ++
  (ids ≫= λ id, [Message id; MessageAcknowledgementHistory id]).

Definition del_args (lockID : string) (ids : list string) : list string :=
  [qkey Q_Type; qkey Q_MessagesCount; qkey Q_AcknowledgedMessagesCount;
   qkey Q_DeadLetteredMessagesCount; qkey Q_PendingMessagesCount; qkey Q_ScheduledMessagesCount;
   qkey Q_DelayedMessagesCount; qkey Q_RequeuedMessagesCount;
   itoa TypePriority; itoa TypeLIFO; itoa TypeFIFO; mkey F_Status;
   itoa StatusProcessing; itoa StatusAcknowledged; itoa StatusPending; itoa StatusScheduled;
   itoa StatusDeadLettered; itoa StatusUnackDelaying; itoa StatusUnackRequeuing;
   qkey Q_OperationalState; itoa StateLocked; qkey Q_LockID; lockID] ++ ids.

Definition deleteMessageGroup (q : QParams) (messages : list Envelope) (lockID : string) (s : store)
    : (message_error + DeleteStats) * store :=
  let g := match messages with msg :: _ => consumerGroupID msg | [] => "" end in
  let ids := ID <$> messages in
  match delete_message (del_keys (queue_keys_of q) g ids) (del_args lockID ids) s with
  | (Err e, s') => (inl (MScript e), s')
  | (Ret (inl reply), s') =>
      (inl (if decide (reply = "QUEUE_LOCKED") then MLocked
            else if decide (reply = "QUEUE_NOT_FOUND") then MQueueNotFound
            else MUnexpectedReply reply), s')
  | (Ret (inr stats), s') => (inr stats, s')
  end.

Definition GetStatus (s : store) (messageID : string) : message_error + Z :=
  match cmd_hget (Message messageID) (mkey F_Status) s with
  | (Ret (Some v), _) => match ParseInt v with (z, None) => inr z | _ => inl MBadStatus end
  | _ => inl MNotFound
  end.

Definition GetUnacknowledgmentHistory (s : store) (messageID : string) : message_error + list string :=
  if decide (is_Some (db s !! Message messageID)) then
    match cmd_lrange_all (MessageAcknowledgementHistory messageID) s with
    | (Ret l, _) => inr l
    | (Err e, _) => inl (MScript e)
    end
  else inl MNotFound.

Section Store.
(** The defaults, identifiers and clock a decoder uses. *)
Context (defaults : ConsumeOptions) (uuid uuid' : string) (now : Z).

Definition GetState (s : store) (messageID : string) : message_error + State :=
  match cmd_hgetall (Message messageID) s with
  | (Err _, _) => inl MNotFound
  | (Ret h, _) =>
      if decide (h = ∅) then inl MNotFound
      else match DecodeState uuid h with Some st => inr st | None => inl MDecode end
  end.

Definition GetMessage (s : store) (messageID : string) : message_error + Envelope :=
  match cmd_hgetall (Message messageID) s with
  | (Err _, _) => inl MNotFound
  | (Ret h, _) =>
      if decide (h = ∅) then inl MNotFound
      else match DecodeEnvelope defaults uuid uuid' now h with Some e => inr e | None => inl MDecode end
  end.

Fixpoint GetMessages (s : store) (messageIDs : list string) : message_error + list Envelope :=
  match messageIDs with
  | [] => inr []
  | id :: ids =>
      match GetMessage s id with
      | inr env => match GetMessages s ids with inr l => inr (env :: l) | inl e => inl e end
      | inl MNotFound => GetMessages s ids
      | inl e => inl e
      end
  end.

(** The groups in the order the map is iterated in. *)
Fixpoint delete_groups (lockID : string) (groups : list messageGroup) (stats : DeleteStats) (s : store)
    : (message_error + DeleteStats) * store :=
  match groups with
  | [] => (inr stats, s)
  | g :: groups' =>
      match deleteMessageGroup (mg_queue g) (mg_messages g) lockID s with
      | (inl e, s') => (inl e, s')
      | (inr st, s') => delete_groups lockID groups' (add_stats stats st) s'
      end
  end.

(** [order] stands for the iteration order of the map of groups. *)
Definition DeleteMessages (order : list messageGroup → list messageGroup) (messageIDs : list string)
    (lockID : string) (s : store) : (message_error + DeleteResponse) * store :=
  match messageIDs with
  | [] => (inr {| resp_Status := DeleteStatusOK; resp_Stats := no_stats |}, s)
  | _ =>
      match GetMessages s messageIDs with
      | inl e => (inl e, s)
      | inr messages =>
          let missing := Z.of_nat (length messageIDs) - Z.of_nat (length messages) in
          let start := {| Processed := missing; Success := 0; NotFound := missing; InProcess := 0 |} in
          match messages with
          | [] => (inr {| resp_Status := DeleteStatusNotDeleted; resp_Stats := start |}, s)
          | _ =>
              match delete_groups lockID (order (message_groups messages)) start s with
              | (inl e, s') => (inl e, s')
              | (inr st, s') =>
                  (inr {| resp_Status :=
                            if decide (Processed st = Success st ∧ 0 < Processed st) then DeleteStatusOK
                            else if decide (0 < Success st) then DeleteStatusPartialSuccess
                            else DeleteStatusNotDeleted;
                          resp_Stats := st |}, s')
              end
          end
      end
  end.

(** The copy a requeue publishes; [newID] is its generated identifier and the
    clock reads [ts], in milliseconds, once and [now'] while copying. *)
Definition requeue_clone (newID : string) (now' ts : Z) (messageID : string) (original : Envelope)
    : Envelope :=
  let clone := reset_clone defaults newID now' original in
  SetMessageState
    (SetRequeuedMessageParentID messageID (SetPublishedAt ts (messageState clone))) clone.

Definition requeue_static : list string :=
  [qkey Q_Type; qkey Q_MessagesCount; qkey Q_PendingMessagesCount; qkey Q_ScheduledMessagesCount;
   itoa TypePriority; itoa TypeLIFO; itoa TypeFIFO; qkey Q_OperationalState; qkey Q_LockID;
   itoa StateActive; itoa StatePaused; itoa StateStopped; itoa StateLocked;
   itoa StatusScheduled; itoa StatusPending] ++ (mkey <$> messagePropertyFields) ++ [""].

Definition requeue_args (ts : Z) (original clone : Envelope) : list string :=
  requeue_static ++
  [ID clone; print (transferable_json (ToTransferable clone)); priority_arg clone; itoa ts;
   itoa (default ts (RequeuedAt (messageState original))); itoa ts; consumerGroupID original].

Definition requeue_keys (q : Queue) (g messageID newID : string) : list string :=
  [Properties q;
   if decide (g ≠ "") then PriorityWithGroup q g else Priority q;
   if decide (g ≠ "") then PendingWithGroup q g else Pending q;
   Published q; Scheduled q; ConsumerGroups q; Message messageID; Message newID].

Definition RequeueMessage (newID : string) (now' ts : Z) (messageID : string) (s : store)
    : (message_error + string) * store :=
  match GetMessage s messageID with
  | inl e => (inl e, s)
  | inr original =>
      if negb (IsRequeuable (status original)) then (inl MNotRequeuable, s)
      else
        match destinationQueue original with
        | None => (inl MNoDestination, s)
        | Some destQueue =>
            let clone := requeue_clone newID now' ts messageID original in
            match requeue_message
                    (requeue_keys (queue_keys_of destQueue) (consumerGroupID original) messageID (ID clone))
                    (requeue_args ts original clone) s with
            | (Err e, s') => (inl (MScript e), s')
            | (Ret (inl reply), s') => (inl (MUnexpectedReply reply), s')
            | (Ret (inr n), s') => if decide (n = 0) then (inl MNotFound, s') else (inr (ID clone), s')
            end
        end
  end.

(** The public manager (internal/message/manager.go) hands on to the store. *)
Definition Manager_State (s : store) (messageID : string) : message_error + StateTransferable :=
  match GetState s messageID with inl e => inl e | inr st => inr (state_ToTransferable st) end.
Definition Manager_Get (s : store) (messageID : string) : message_error + Transferable :=
  match GetMessage s messageID with inl e => inl e | inr env => inr (ToTransferable env) end.
Definition Manager_GetAll (s : store) (messageIDs : list string) : message_error + list Transferable :=
  match GetMessages s messageIDs with inl e => inl e | inr l => inr (ToTransferable <$> l) end.
Definition Manager_DeleteAll (order : list messageGroup → list messageGroup) (messageIDs : list string)
    (s : store) : (message_error + DeleteResponse) * store :=
  match messageIDs with
  | [] => (inr {| resp_Status := DeleteStatusOK; resp_Stats := no_stats |}, s)
  | _ => DeleteMessages order messageIDs "" s
  end.
Definition Manager_Delete (order : list messageGroup → list messageGroup) (messageID : string) (s : store)
    : (message_error + DeleteResponse) * store :=
  Manager_DeleteAll order [messageID] s.
End Store.

(** ** Deletion keeps the accounts *)

Section take_off.
Context (q : Queue) (g : string) (Hq : wf_queue q) (Hg : no_colon g = true).

(** [s1] is [s] with the message taken off the list of its status. *)
Record taken (id : string) (s s1 : store) : Prop := {
  tk_wt : wt s1;
  tk_other k : wf_key k →
    key_type k = THash ∨ k = KPublished q ∨ k = KDelayed q ∨ (∃ i, k = KMessageHistory i) →
    db s1 !! render_key k = db s !! render_key k;
  tk_NoDup : NoDup (lst s1 (Requeued q));
  tk_requeued x : x ∈ lst s1 (Requeued q) → x ∈ lst s (Requeued q) ∧ x ≠ id;
  tk_scheduled x : x ∈ (zst s1 (Scheduled q)).*2 → x ∈ (zst s (Scheduled q)).*2 ∧ x ≠ id
}.

(** One key of the message's lists is written, neither of the waiting ones. *)
Lemma taken_upd id s a st k ov :
  messages_of q s a → a !! id = Some st → st ≠ StatusUnackRequeuing → st ≠ StatusScheduled →
  wf_key k → has_type (key_type k) ov →
  k ∈ [KAcknowledged q; KDeadLetter q; KPending q; KPriority q; KPendingWithGroup q g; KPriorityWithGroup q g] →
  taken id s (upd (render_key k) ov s).
Proof using Hq Hg.
  intros Hm Hid Hr Hs Hk Ht Hin. pose proof (mo_wt _ _ _ Hm) as Hw.
  assert (∀ k', wf_key k' → key_type k' = THash ∨ k' = KPublished q ∨ k' = KDelayed q ∨
    (∃ i, k' = KMessageHistory i) ∨ k' = KRequeued q ∨ k' = KScheduled q →
    db (upd (render_key k) ov s) !! render_key k' = db s !! render_key k') as Hf.
  { intros k' Hk' Hor. apply lookup_upd_ne, render_key_ne; [done|done|]. intros ->.
    destruct Hor as [H|[H|[H|[[i H]|[H|H]]]]]; [|subst k'..];
      repeat (apply elem_of_cons in Hin as [Hin|Hin]; [try discriminate Hin; try (subst k'; discriminate H)|]);
      by apply elem_of_nil in Hin. }
  pose proof (Hf (KRequeued q) ltac:(wf_parts) ltac:(tauto)) as HR.
  pose proof (Hf (KScheduled q) ltac:(wf_parts) ltac:(tauto)) as HS. cbn [render_key] in HR, HS.
  destruct (waiting_apart q s a id st (mo_waiting _ _ _ Hm) Hid) as (A1 & _ & A3).
  split.
  - by apply wt_upd.
  - intros k' Hk' Hor. apply Hf; [done|tauto].
  - unfold lst. rewrite HR. apply (mo_waiting _ _ _ Hm).
  - intros x. unfold lst. rewrite HR. intros Hx. split; [done|]. intros ->. by apply A1.
  - intros x. unfold zst. rewrite HS. intros Hx. split; [done|]. intros ->. by apply A3.
Qed.

Lemma taken_refl id s a st :
  messages_of q s a → a !! id = Some st → st ≠ StatusUnackRequeuing → st ≠ StatusScheduled →
  taken id s s.
Proof using.
  intros Hm Hid Hr Hs. destruct (waiting_apart q s a id st (mo_waiting _ _ _ Hm) Hid) as (A1 & _ & A3).
  split; [apply Hm|done|apply (mo_waiting _ _ _ Hm)|..].
  - intros x Hx. split; [done|]. intros ->. by apply A1.
  - intros x Hx. split; [done|]. intros ->. by apply A3.
Qed.

Lemma taken_lrem id s a st k :
  messages_of q s a → a !! id = Some st → st ≠ StatusUnackRequeuing → st ≠ StatusScheduled →
  wf_key k → key_type k = TList → k ∈ [KAcknowledged q; KDeadLetter q; KPending q; KPendingWithGroup q g] →
  ∃ n s1, cmd_lrem1 (render_key k) id s = (Ret n, s1) ∧ taken id s s1.
Proof using Hq Hg.
  intros Hm Hid Hr Hs Hk Ht Hin. rewrite lrem1_run by (apply wt_list; [apply Hm|done..]).
  case_decide; [|by eauto using taken_refl]. eexists _, _. split; [done|].
  eapply taken_upd; [done..| |]; [rewrite Ht; simpl; rewrite as_list_val; by eexists|set_solver].
Qed.

Lemma taken_zrem id s a st k :
  messages_of q s a → a !! id = Some st → st ≠ StatusUnackRequeuing → st ≠ StatusScheduled →
  wf_key k → key_type k = TZSet → k ∈ [KPriority q; KPriorityWithGroup q g] →
  ∃ n s1, cmd_zrem (render_key k) id s = (Ret n, s1) ∧ taken id s s1.
Proof using Hq Hg.
  intros Hm Hid Hr Hs Hk Ht Hin. rewrite zrem_run by (apply wt_zset; [apply Hm|done..]).
  case_decide; [|by eauto using taken_refl]. eexists _, _. split; [done|].
  eapply taken_upd; [done..| |]; [rewrite Ht; simpl; rewrite as_zset_val; by eexists|set_solver].
Qed.

(** A message of the waiting lists leaves them. *)
Lemma taken_requeued id s a :
  messages_of q s a → a !! id = Some StatusUnackRequeuing →
  ∃ n s1, cmd_lrem1 (Requeued q) id s = (Ret n, s1) ∧ taken id s s1.
Proof using Hq Hg.
  intros Hm Hid. pose proof (mo_wt _ _ _ Hm) as Hw. pose proof (mo_waiting _ _ _ Hm) as Hwo.
  destruct (waiting_apart q s a id _ Hwo Hid) as (_ & _ & A3). rewrite lrem1_run by wt_view.
  pose proof (wo_NoDup _ _ _ Hwo) as Hnd. destruct (decide (id ∈ lst s (Requeued q))) as [Hin|Hin]; eexists _, _;
    (split; [done|]); split.
  - wt_solve.
  - intros k Hk Hor. apply lookup_upd_ne, (render_key_ne (KRequeued q)); [wf_parts|done|].
    intros <-. destruct Hor as [H|[H|[H|[i H]]]]; discriminate H.
  - views. by apply NoDup_remove_first.
  - views. intros x Hx. split; [by eapply elem_of_remove_first|]. intros ->.
    by apply (not_elem_of_remove_first id (lst s (Requeued q))).
  - views. intros x Hx. split; [done|]. intros ->. by apply A3.
  - done.
  - done.
  - done.
  - intros x Hx. split; [done|]. intros ->. done.
  - intros x Hx. split; [done|]. intros ->. by apply A3.
Qed.

Lemma taken_scheduled id s a :
  messages_of q s a → a !! id = Some StatusScheduled →
  ∃ n s1, cmd_zrem (Scheduled q) id s = (Ret n, s1) ∧ taken id s s1.
Proof using Hq Hg.
  intros Hm Hid. pose proof (mo_wt _ _ _ Hm) as Hw. pose proof (mo_waiting _ _ _ Hm) as Hwo.
  destruct (waiting_apart q s a id _ Hwo Hid) as (A1 & _ & _). rewrite zrem_run by wt_view.
  pose proof (wo_NoDup _ _ _ Hwo) as Hnd.
  destruct (decide (id ∈ (zst s (Scheduled q)).*2)) as [Hin|Hin]; eexists _, _; (split; [done|]); split.
  - wt_solve.
  - intros k Hk Hor. apply lookup_upd_ne, (render_key_ne (KScheduled q)); [wf_parts|done|].
    intros <-. destruct Hor as [H|[H|[H|[i H]]]]; discriminate H.
  - by views.
  - views. intros x Hx. split; [done|]. intros ->. by apply A1.
  - views. intros x Hx. by apply elem_of_zremove.
  - done.
  - done.
  - done.
  - intros x Hx. split; [done|]. intros ->. by apply A1.
  - intros x Hx. split; [done|]. intros ->. done.
Qed.

Lemma delete_from_run queueType st id s a :
  messages_of q s a → a !! id = Some st → st ≠ StatusProcessing →
  (st = StatusUnackDelaying → db s !! Delayed q = None) →
  ∃ s1, delete_from (del_keys q g []) (del_args "" []) queueType (itoa st) id s =
          (Ret (qkey <$> status_field st), s1) ∧ taken id s s1.
Proof using Hq Hg.
  intros Hm Hid Hp Hd. unfold delete_from, status_field.
  cbv [arg nth Nat.sub del_keys del_args app].
  rewrite !(decide_ext (itoa st = itoa _) (st = _)) by apply (inj_iff itoa).
  rewrite (decide_False (P := st = StatusProcessing)) by done.
  destruct (decide (st = StatusAcknowledged)) as [->|N1].
  { destruct (taken_lrem id s a _ (KAcknowledged q) Hm Hid) as (n & s1 & Hr & Ht); [done|done|wf_parts|done|set_solver|].
    exists s1. split; [|done]. erewrite bind_Ret; [|exact Hr]. done. }
  destruct (decide (st = StatusDeadLettered)) as [->|N2].
  { destruct (taken_lrem id s a _ (KDeadLetter q) Hm Hid) as (n & s1 & Hr & Ht); [done|done|wf_parts|done|set_solver|].
    exists s1. split; [|done]. erewrite bind_Ret; [|exact Hr]. done. }
  destruct (decide (st = StatusScheduled)) as [->|N3].
  { destruct (taken_scheduled id s a Hm Hid) as (n & s1 & Hr & Ht).
    exists s1. split; [|done]. erewrite bind_Ret; [|exact Hr]. done. }
  destruct (decide (st = StatusUnackDelaying)) as [->|N4].
  { exists s. split; [|by eapply taken_refl]. unfold cmd_lrem1, with_view. rewrite bind_Ret with (a := 0) (s' := s); [done|].
    rewrite Hd by done. cbn [as_list]. rewrite decide_False by apply not_elem_of_nil. done. }
  destruct (decide (st = StatusUnackRequeuing)) as [->|N5].
  { destruct (taken_requeued id s a Hm Hid) as (n & s1 & Hr & Ht).
    exists s1. split; [|done]. erewrite bind_Ret; [|exact Hr]. done. }
  destruct (decide (st = StatusPending)) as [->|N6]; [|exists s; split; [done|by eapply taken_refl]].
  fold (pending_key q g) (priority_key q g).
  destruct (priority_key_wf q g Hq Hg) as (kp & Wp & Tp & Ep & Op).
  destruct (pending_key_wf q g Hq Hg) as (kl & Wl & Tl & El & Ol). rewrite Ep, El.
  assert (∃ n s1, (if decide (queueType = Some (itoa TypePriority)) then cmd_zrem (render_key kp) id
    else if decide (queueType = Some (itoa TypeFIFO) ∨ queueType = Some (itoa TypeLIFO))
    then cmd_lrem1 (render_key kl) id else mret 0) s = (Ret n, s1) ∧ taken id s s1) as (n & s1 & Hr & Ht).
  { case_decide; [eapply taken_zrem; try done; set_solver|].
    case_decide; [eapply taken_lrem; try done; set_solver|]. eexists _, _. split; [done|by eapply taken_refl]. }
  exists s1. split; [|done]. erewrite bind_Ret; [|exact Hr]. done.
Qed.
End take_off.

(** One message, with the keys and names the Go code sends. *)
Definition delete_one (q : Queue) (g : string) (queueType : option string) (acc : DeleteStats)
    (id : string) : M DeleteStats :=
  messageStatus ← cmd_hget (Message id) (mkey F_Status);
  match messageStatus with
  | None => mret (add_stats acc one_missing)
  | Some messageStatus =>
      if decide (messageStatus = itoa StatusProcessing) then mret (add_stats acc one_busy)
      else
        counterToDecrement ← delete_from (del_keys q g []) (del_args "" []) queueType messageStatus id;
        _ ← cmd_del [Message id; MessageAcknowledgementHistory id];
        _ ← cmd_lrem1 (Published q) id;
        _ ← cmd_hincrby (Properties q) (qkey Q_MessagesCount) (-1);
        _ ← match counterToDecrement with
            | Some f => cmd_hincrby (Properties q) f (-1)
            | None => mret 0
            end;
        mret (add_stats acc one_deleted)
  end.

Lemma delete_turn_eq q g lockID ids queueType acc i id s :
  ids !! i = Some id →
  delete_turn (del_keys q g ids) (del_args lockID ids) queueType acc i s =
  delete_one q g queueType acc id s.
Proof.
  intros Hi. unfold delete_turn, del_keys, del_args.
  pose proof (nth_blocks (λ id, [Message id; MessageAcknowledgementHistory id]) 2 ids i) as Hk.
  assert (∀ l1 l2 n k, length l1 = n → (n < k)%nat → arg (l1 ++ l2) k = nth (k - n - 1) l2 "") as Harg.
  { intros l1 l2 n k Hl Hn. rewrite <-(arg_behind n l1 l2) by done. f_equal. lia. }
  assert (nth i ids "" = id) as Hid by by apply nth_lookup_default.
  rewrite (Harg _ ids 23%nat (24 + i)%nat) by (reflexivity || lia).
  rewrite (Harg _ (ids ≫= _) 9%nat (10 + 2 * i)%nat) by (reflexivity || lia).
  rewrite (Harg _ (ids ≫= _) 9%nat (11 + 2 * i)%nat) by (reflexivity || lia).
  replace (24 + i - 23 - 1)%nat with i by lia. rewrite Hid.
  replace (10 + 2 * i - 9 - 1)%nat with (2 * i + 0)%nat by lia.
  replace (11 + 2 * i - 9 - 1)%nat with (2 * i + 1)%nat by lia.
  rewrite !(Hk _ id) by (done || lia). reflexivity.
Qed.

(** *** What a deletion means for the accounts *)

(** [blocked]: the delayed set exists, and the script treats it as a list. *)
Definition delete_verdict (blocked : bool) (a : accounts) (id : string)
    : outcome (DeleteStats * accounts) :=
  match a !! id with
  | None => Ret (one_missing, a)
  | Some st =>
      if decide (st = StatusProcessing) then Ret (one_busy, a)
      else if blocked && bool_decide (st = StatusUnackDelaying) then Err WRONGTYPE
      else Ret (one_deleted, delete id a)
  end.

Fixpoint delete_all (blocked : bool) (a : accounts) (acc : DeleteStats) (ids : list string)
    : outcome DeleteStats * accounts :=
  match ids with
  | [] => (Ret acc, a)
  | id :: ids =>
      match delete_verdict blocked a id with
      | Err e => (Err e, a)
      | Ret (d, a') => delete_all blocked a' (add_stats acc d) ids
      end
  end.

(** The messages that left the accounts are gone, the others are as before. *)
Record removed (q : Queue) (s : store) (a : accounts) (s' : store) (a' : accounts) : Prop := {
  rm_sub : a' ⊆ a;
  rm_gone id : no_colon id = true → is_Some (a !! id) → a' !! id = None →
    db s' !! Message id = None ∧ db s' !! MessageAcknowledgementHistory id = None;
  rm_kept id : no_colon id = true → a' !! id = a !! id →
    db s' !! Message id = db s !! Message id ∧
    db s' !! MessageAcknowledgementHistory id = db s !! MessageAcknowledgementHistory id;
  rm_delayed : db s' !! Delayed q = db s !! Delayed q
}.

Lemma removed_refl q s a : removed q s a s a.
Proof. split; [done| |done|done]. intros id _ [st Hst] H. congruence. Qed.

Lemma removed_trans q s0 a0 s1 a1 s2 a2 :
  removed q s0 a0 s1 a1 → removed q s1 a1 s2 a2 → removed q s0 a0 s2 a2.
Proof.
  intros [S1 G1 K1 D1] [S2 G2 K2 D2]. split; [by trans a1| | |by rewrite D2].
  - intros id Hid Hin Hno. destruct (a1 !! id) as [st|] eqn:E; [by eapply G2|].
    destruct (K2 id Hid) as [-> ->]; [congruence|]. by eapply G1.
  - intros id Hid E2. assert (a1 !! id = a0 !! id) as E1.
    { destruct (a0 !! id) as [st|] eqn:E0.
      - symmetry in E2. by eapply lookup_weaken in S2.
      - destruct (a1 !! id) eqn:E; [|done]. by eapply lookup_weaken in S1; [|exact E]; congruence. }
    destruct (K2 id Hid) as [-> ->]; [congruence|]. by apply K1.
Qed.

Section delete_one.
Context (q : Queue) (g : string) (ty : option string) (s : store) (a : accounts) (id : string).
Context (Hq : wf_queue q) (Hg : no_colon g = true) (Hcol : no_colon id = true).
Context (Ha : accounts_of q s a) (Hsm : small a).

(** The counters of a removed message. *)
Lemma delete_counters st s1 :
  a !! id = Some st → hsh s1 (Properties q) = hsh s (Properties q) → wt s1 →
  ∃ s2, (∀ m : M DeleteStats,
           (_ ← cmd_hincrby (Properties q) (qkey Q_MessagesCount) (-1);
            _ ← match qkey <$> status_field st with
                | Some f => cmd_hincrby (Properties q) f (-1)
                | None => mret 0
                end; m) s1 = m s2) ∧
    counters_of (hsh s2 (Properties q)) (delete id a) ∧ wt s2 ∧
    ∀ k, k ≠ Properties q → db s2 !! k = db s1 !! k.
Proof using All.
  intros Hid Hp Hw1. pose proof (proj2 Ha) as Hc. rewrite <-Hp in Hc.
  pose proof (size_pos a id st Hid) as Hpos. pose proof (account_range a) as Hr.
  assert (cmd_hincrby (Properties q) (qkey Q_MessagesCount) (-1) s1 =
    (Ret (counter s1 q Q_MessagesCount + -1), add_counter q Q_MessagesCount (-1) s1)) as H1
    by (apply hincrby_counter; [wt_view|apply (counter_can_move q s1 a); [done|done|done|lia]]).
  set (s2 := add_counter q Q_MessagesCount (-1) s1). assert (wt s2) as Hw2 by (unfold s2; wt_solve).
  assert (tally (hsh s2 (Properties q)) (λ g, account a g + delta Q_MessagesCount (-1) g)) as Ht.
  { apply tally_add; [done|done|]. apply (small_in_int64 a); [done|specialize (Hr Q_MessagesCount); lia]. }
  destruct (status_field st) as [f|] eqn:Hf; cbn [fmap option_fmap option_map].
  - assert (is_counter f = true ∧ f ≠ Q_MessagesCount) as [Hif Hne].
    { unfold status_field in Hf. repeat (case_decide; [by injection Hf as <-|]). discriminate Hf. }
    specialize (Hr f). eexists. split.
    { intros m. erewrite bind_Ret; [|exact H1]. fold s2.
      erewrite bind_Ret; [done|]. apply hincrby_counter; [wt_view|]. eapply (tally_ok q s2); [exact Ht|done|..]; cbv beta; rewrite delta_ne by done;
        apply (small_in_int64 a); done || lia. }
    split; [|split; [wt_solve|intros k Hk; unfold s2, add_counter; by rewrite !lookup_upd_ne]].
    eapply tally_ext; [apply tally_add; [exact Ht|done|]|].
    { cbv beta. rewrite delta_ne by done. apply (small_in_int64 a); done || lia. }
    intros h Hh. rewrite (account_delete a id st h Hid Hh). unfold sdelta. rewrite Hf.
    unfold delta. repeat case_decide; lia.
  - exists s2. split; [intros m; erewrite bind_Ret; [|exact H1]; done|]. split; [|split; [done|]].
    2: { intros k Hk. unfold s2, add_counter. by rewrite lookup_upd_ne. }
    eapply tally_ext; [exact Ht|]. intros h Hh. rewrite (account_delete a id st h Hid Hh).
    unfold sdelta. rewrite Hf. unfold delta. case_decide; lia.
Qed.

(** What the rest of a turn writes, after the message was taken off its list. *)
Record erased (s1 s' : store) : Prop := {
  er_wt : wt s';
  er_published : lst s' (Published q) = remove_first id (lst s (Published q));
  er_lists k : k = KRequeued q ∨ k = KScheduled q → db s' !! render_key k = db s1 !! render_key k;
  er_delayed : db s' !! Delayed q = db s !! Delayed q;
  er_message : db s' !! Message id = None ∧ db s' !! MessageAcknowledgementHistory id = None;
  er_messages id' : id' ≠ id → no_colon id' = true →
    db s' !! Message id' = db s !! Message id' ∧
    db s' !! MessageAcknowledgementHistory id' = db s !! MessageAcknowledgementHistory id'
}.

Lemma erase_run st s1 :
  a !! id = Some st → taken q id s s1 →
  ∃ s', (∀ m : M DeleteStats,
           (_ ← cmd_del [Message id; MessageAcknowledgementHistory id];
            _ ← cmd_lrem1 (Published q) id;
            _ ← cmd_hincrby (Properties q) (qkey Q_MessagesCount) (-1);
            _ ← match qkey <$> status_field st with
                | Some f => cmd_hincrby (Properties q) f (-1)
                | None => mret 0
                end; m) s1 = m s') ∧
        counters_of (hsh s' (Properties q)) (delete id a) ∧ erased s1 s'.
Proof using All.
  intros Hid Ht. pose proof Ha as [Hm _]. pose proof (tk_wt _ _ _ _ Ht) as Hw1.
  set (s2 := upd (MessageAcknowledgementHistory id) None (upd (Message id) None s1)).
  assert (wt s2) as Hw2.
  { apply (wt_upd _ (KMessageHistory id)); [|wf_parts|apply has_type_None].
    apply (wt_upd _ (KMessage id)); [done|wf_parts|apply has_type_None]. }
  assert (∀ k, wf_key k → k ≠ KMessage id → k ≠ KMessageHistory id → db s2 !! render_key k = db s1 !! render_key k) as Hf1.
  { intros k Hk N1 N2. unfold s2. rewrite !lookup_upd_ne; [done|..].
    - apply not_eq_sym, (render_key_ne k (KMessage id)); done || wf_parts.
    - apply not_eq_sym, (render_key_ne k (KMessageHistory id)); done || wf_parts. }
  assert (∀ k, wf_key k → k ≠ KMessage id → k ≠ KMessageHistory id →
    key_type k = THash ∨ k = KPublished q ∨ k = KDelayed q ∨ (∃ i, k = KMessageHistory i) →
    db s2 !! render_key k = db s !! render_key k) as Hf2.
  { intros k Hk N1 N2 Hor. rewrite Hf1 by done. by eapply tk_other. }
  assert (lst s2 (Published q) = lst s (Published q)) as Hl2.
  { unfold lst. pose proof (Hf2 (KPublished q)) as H. cbn [render_key] in H.
    by rewrite H by (wf_parts || done || tauto). }
  assert (id ∈ lst s (Published q)) as Hin by (eapply messages_elem; [done|by eexists]).
  set (s3 := upd (Published q) (list_val (remove_first id (lst s (Published q)))) s2).
  assert (wt s3) as Hw3 by (unfold s3; wt_solve).
  destruct (delete_counters st s3 Hid) as (s4 & Hrun & Hc4 & Hw4 & Hf4); [|done|].
  { unfold s3, hsh. rewrite lookup_upd_ne by key_ne. pose proof (Hf2 (KProperties q)) as H.
    cbn [render_key] in H. by rewrite H by (wf_parts || done || tauto). }
  exists s4. split; [|split; [done|]].
  { intros m. erewrite bind_Ret; [|done].
    erewrite bind_Ret; [apply Hrun|]. cbn [foldl].
    change (remove_key _ (remove_key _ s1)) with s2. rewrite lrem1_run by wt_view.
    by rewrite Hl2, decide_True. }
  assert (∀ k, wf_key k → k ≠ KProperties q → k ≠ KPublished q →
    db s4 !! render_key k = db s2 !! render_key k) as H42.
  { intros k Hk N1 N2. rewrite Hf4; [apply lookup_upd_ne, (render_key_ne (KPublished q)); done || wf_parts|].
    apply (render_key_ne k (KProperties q)); done || wf_parts. }
  split.
  - done.
  - unfold lst. rewrite Hf4 by key_ne. unfold s3. by rewrite lookup_upd_eq, as_list_val.
  - intros k Hk. assert (wf_key k) by (destruct Hk; subst k; wf_parts).
    rewrite H42, Hf1 by (destruct Hk; by subst k). done.
  - etrans; [apply (H42 (KDelayed q)); done || wf_parts|].
    apply (Hf2 (KDelayed q)); wf_parts || done || tauto.
  - split; [etrans; [apply (H42 (KMessage id)); done || wf_parts|]|
            etrans; [apply (H42 (KMessageHistory id)); done || wf_parts|]]; cbn [render_key]; unfold s2.
    + rewrite lookup_upd_ne by key_ne. apply lookup_upd_eq.
    + apply lookup_upd_eq.
  - intros id' Hne Hn. split.
    + etrans; [apply (H42 (KMessage id')); done || wf_parts|].
      apply (Hf2 (KMessage id')); [wf_parts|congruence|done|by left].
    + etrans; [apply (H42 (KMessageHistory id')); done || wf_parts|].
      apply (Hf2 (KMessageHistory id')); [wf_parts|done|congruence|eauto].
Qed.

Lemma erased_accounts st s1 s' :
  a !! id = Some st → (st = StatusUnackDelaying → db s !! Delayed q = None) →
  taken q id s s1 → erased s1 s' → messages_of q s' (delete id a) ∧ removed q s a s' (delete id a).
Proof using Ha.
  intros Hid Hd Ht [Hw' Hl HRS HD HM HMs]. pose proof Ha as [Hm _]. split; [|split].
  - apply (messages_delete q s s' a id st); [done|done|done|done| |].
    + intros id' Hne Hn. unfold hsh. by rewrite (proj1 (HMs id' Hne Hn)).
    + pose proof (HRS (KRequeued q)) as HR. pose proof (HRS (KScheduled q)) as HS. cbn [render_key] in HR, HS.
      destruct (waiting_apart q s a id st (mo_waiting _ _ _ Hm) Hid) as (_ & A2 & _).
      apply (waiting_delete q s s' a id); [apply Hm|unfold lst, zst; rewrite ?HR, ?HS, ?HD by tauto..].
      * apply Ht.
      * intros x. apply Ht.
      * intros x Hx. split; [done|]. intros ->. destruct (decide (st = StatusUnackDelaying)) as [E|E].
        -- rewrite Hd in Hx by done. by apply elem_of_nil in Hx.
        -- by apply A2.
      * intros x. apply Ht.
  - apply delete_subseteq.
  - intros i Hi [st' Hst'] Hno. apply lookup_delete_None in Hno as [<-|Hno]; [done|congruence].
  - intros i Hi He. apply HMs; [|done]. intros ->. rewrite lookup_delete_eq in He. congruence.
  - done.
Qed.

Hypothesis Hforeign : a !! id = None → hsh s (Message id) !! mkey F_Status = None.

Definition blocked : bool := bool_decide (is_Some (db s !! Delayed q)).

Lemma delete_delayed_fails queueType :
  is_Some (db s !! Delayed q) →
  delete_from (del_keys q g []) (del_args "" []) queueType (itoa StatusUnackDelaying) id s =
  (Err WRONGTYPE, s).
Proof using Ha Hq.
  intros [v Hv]. pose proof (mo_wt _ _ _ (proj1 Ha)) as Hw.
  unfold delete_from. rewrite !decide_False by done. rewrite decide_True by done.
  apply bind_Err. unfold cmd_lrem1, with_view. cbn [arg nth Nat.sub del_keys app]. rewrite Hv.
  assert (is_zset s (Delayed q)) as [z Hz] by wt_view. rewrite Hv in Hz. by destruct v; cbn in Hz |- *.
Qed.

Lemma delete_one_run acc :
  match delete_verdict blocked a id with
  | Err e => delete_one q g ty acc id s = (Err e, s)
  | Ret (d, a') => ∃ s', delete_one q g ty acc id s = (Ret (add_stats acc d), s') ∧
                         accounts_of q s' a' ∧ removed q s a s' a'
  end.
Proof using All.
  pose proof Ha as [Hm Hc]. pose proof (mo_wt _ _ _ Hm) as Hw. unfold delete_verdict, delete_one.
  assert (∀ {B} (f : option string → M B), (cmd_hget (Message id) (mkey F_Status) ≫= f) s =
    f (itoa <$> a !! id) s) as Hget.
  { intros B f. erewrite bind_Ret; [|apply hget_run; wt_view]. do 2 f_equal.
    destruct (a !! id) as [st|] eqn:E; [|by apply Hforeign].
    by destruct (mo_status _ _ _ Hm id st E) as (_ & _ & ->). }
  rewrite Hget. clear Hget.
  destruct (a !! id) as [st|] eqn:Hid; [|exists s; split; [done|by split; [|apply removed_refl]]].
  cbn [fmap option_fmap option_map].
  rewrite (decide_ext (itoa st = itoa _) (st = _)) by apply (inj_iff itoa).
  destruct (decide (st = StatusProcessing)) as [Hp|Hp].
  { exists s. split; [done|]. split; [done|apply removed_refl]. }
  unfold blocked. destruct (bool_decide (is_Some _) && _) eqn:Hb.
  { apply andb_true_iff in Hb as [Hv%bool_decide_eq_true ->%bool_decide_eq_true].
    by apply bind_Err, delete_delayed_fails. }
  assert (st = StatusUnackDelaying → db s !! Delayed q = None) as Hd.
  { intros ->. apply andb_false_iff in Hb as [Hb|Hb]; [|by rewrite bool_decide_eq_true_2 in Hb].
    apply bool_decide_eq_false in Hb. by apply eq_None_not_Some. }
  destruct (delete_from_run q g Hq Hg ty st id s a Hm Hid Hp Hd) as (s1 & Hr1 & Ht).
  erewrite bind_Ret; [|exact Hr1].
  destruct (erase_run st s1 Hid Ht) as (s' & Hrun & Hc' & Her). exists s'. rewrite Hrun.
  destruct (erased_accounts st s1 s' Hid Hd Ht Her). split; [done|]. by split.
Qed.
End delete_one.

(** The messages a batch names belong to the queue, or do not exist. *)
Definition deletable_ids (s : store) (a : accounts) (ids : list string) : Prop :=
  ∀ id, id ∈ ids → no_colon id = true ∧ (a !! id = None → hsh s (Message id) !! mkey F_Status = None).

Section delete_loop.
Context (q : Queue) (g : string) (ty : option string) (Hq : wf_queue q) (Hg : no_colon g = true).

Lemma delete_loop_run b ids : ∀ s a acc,
  accounts_of q s a → small a → deletable_ids s a ids →
  b = bool_decide (is_Some (db s !! Delayed q)) →
  ∃ s', foldM (delete_one q g ty) acc ids s = ((delete_all b a acc ids).1, s') ∧
        accounts_of q s' (delete_all b a acc ids).2 ∧
        removed q s a s' (delete_all b a acc ids).2.
Proof using Hq Hg.
  induction ids as [|id ids IH]; intros s a acc Ha Hsm Hids Hb.
  { exists s. split; [done|]. split; [done|apply removed_refl]. }
  destruct (Hids id ltac:(set_solver)) as [Hcol Hfor].
  pose proof (delete_one_run q g ty s a id Hq Hg Hcol Ha Hsm Hfor acc) as H1.
  unfold blocked in H1. rewrite <-Hb in H1. cbn [foldM delete_all].
  destruct (delete_verdict b a id) as [[d a1]|e] eqn:Hv.
  2: { exists s. erewrite bind_Err; [|exact H1]. split; [done|]. split; [done|apply removed_refl]. }
  destruct H1 as (s1 & Hr1 & Ha1 & Hrm1). pose proof Hrm1 as [Hsub Hgone Hkept Hdel].
  erewrite bind_Ret; [|exact Hr1].
  destruct (IH s1 a1 (add_stats acc d)) as (s' & Hr & Ha' & Hrm).
  - done.
  - unfold small in *. pose proof (map_subseteq_size _ _ Hsub). lia.
  - intros i Hi. destruct (Hids i ltac:(set_solver)) as [Hci Hfi]. split; [done|]. intros Hno.
    destruct (a !! i) as [st|] eqn:Ei.
    + destruct (Hgone i Hci ltac:(by eexists) Hno) as [E _]. unfold hsh. by rewrite E.
    + destruct (Hkept i Hci) as [E _]; [congruence|]. unfold hsh. rewrite E. by apply Hfi.
  - by rewrite Hdel.
  - exists s'. split; [done|]. split; [done|]. by eapply removed_trans.
Qed.
End delete_loop.

(** The replies that refuse a deletion. *)
Definition delete_refusal (s : store) (q : Queue) (lockID : string) : option string :=
  if decide (is_Some (db s !! Properties q)) then
    lock_check (hsh s (Properties q) !! qkey Q_OperationalState)
      (default "" (hsh s (Properties q) !! qkey Q_LockID)) (itoa StateLocked) lockID
  else Some "QUEUE_NOT_FOUND".

Lemma delete_batch_run q g lockID ids s a :
  wf_queue q → no_colon g = true → accounts_of q s a → small a → deletable_ids s a ids →
  ∃ s', delete_message (del_keys q g ids) (del_args lockID ids) s =
    match delete_refusal s q lockID with
    | Some reply => (Ret (inl reply), s)
    | None =>
        (match (delete_all (bool_decide (is_Some (db s !! Delayed q))) a no_stats ids).1 with
         | Ret stats => Ret (inr stats) | Err e => Err e end, s')
    end ∧
    (delete_refusal s q lockID = None →
     accounts_of q s' (delete_all (bool_decide (is_Some (db s !! Delayed q))) a no_stats ids).2 ∧
     removed q s a s' (delete_all (bool_decide (is_Some (db s !! Delayed q))) a no_stats ids).2).
Proof.
  intros Hq Hg Ha Hsm Hids. pose proof (mo_wt _ _ _ (proj1 Ha)) as Hw.
  set (b := bool_decide (is_Some (db s !! Delayed q))).
  destruct (delete_loop_run q g (hsh s (Properties q) !! qkey Q_Type) Hq Hg b ids s a no_stats Ha Hsm Hids eq_refl)
    as (s' & Hrun & Ha' & Hrm).
  exists s'. split; [|done]. unfold delete_message, delete_refusal.
  change (arg (del_keys q g ids) 1) with (Properties q).
  change (arg (del_args lockID ids) 1) with (qkey Q_Type).
  change (arg (del_args lockID ids) 20) with (qkey Q_OperationalState).
  change (arg (del_args lockID ids) 21) with (itoa StateLocked).
  change (arg (del_args lockID ids) 22) with (qkey Q_LockID).
  change (arg (del_args lockID ids) 23) with lockID.
  assert (length (del_keys q g ids) - 9 = 2 * length ids)%nat as Hlk.
  { unfold del_keys. rewrite length_app, (length_blocks _ 2) by done. cbn [length]. lia. }
  assert (length (del_args lockID ids) - 23 = length ids)%nat as Hla.
  { unfold del_args. rewrite length_app. cbn [length]. lia. }
  assert (turns (del_args lockID ids) 23 1 = seq 0 (length ids)) as Ht.
  { unfold turns. f_equal. rewrite Hla, Nat.sub_diag, Nat.add_0_r. apply Nat.div_1_r. }
  cbv zeta. rewrite Hlk, Hla, Ht. erewrite bind_Ret; [|done].
  destruct (decide (is_Some (db s !! Properties q))) as [Hex|Hex].
  2: { by rewrite bool_decide_eq_false_2. }
  rewrite bool_decide_eq_true_2 by done. cbn [negb]. run_cmd hget_run. run_cmd hget_run.
  destruct (lock_check _ _ _ _) as [reply|]; [done|].
  destruct (decide (_ ∧ length ids = 0%nat)) as [[_ Hz]|Hz].
  { destruct ids; [|done]. cbn in Hrun |- *. by injection Hrun as <-. }
  rewrite decide_False by (rewrite Nat.mul_comm, Nat.Div0.mod_mul; lia).
  rewrite decide_False by (rewrite Nat.mul_comm, Nat.div_mul; lia).
  run_cmd hget_run.
  assert (foldM (delete_turn (del_keys q g ids) (del_args lockID ids) (hsh s (Properties q) !! qkey Q_Type))
    no_stats (seq 0 (length ids)) s = ((delete_all b a no_stats ids).1, s')) as Hloop.
  { rewrite <-Hrun. apply foldM_seq. intros acc i id s0 Hi. by apply delete_turn_eq. }
  destruct ((delete_all b a no_stats ids).1) as [stats|e]; [by erewrite bind_Ret|by erewrite bind_Err].
Qed.

(** *** The batch as a whole *)

(** What is left of the accounts when every message was looked at. *)
Definition undeleted (ids : list string) (a : accounts) : accounts :=
  filter (λ kv, kv.1 ∉ ids ∨ kv.2 = StatusProcessing) a.

Lemma undeleted_nil a : undeleted [] a = a.
Proof. apply map_filter_id. intros i st _. left. apply not_elem_of_nil. Qed.

Lemma undeleted_missing id ids a :
  a !! id = None ∨ a !! id = Some StatusProcessing → undeleted (id :: ids) a = undeleted ids a.
Proof.
  intros Hid. apply map_filter_strong_ext. intros i st. rewrite not_elem_of_cons. cbn.
  destruct (decide (i = id)) as [->|Hne]; naive_solver.
Qed.

Lemma undeleted_delete id ids a st :
  a !! id = Some st → st ≠ StatusProcessing →
  undeleted (id :: ids) a = undeleted ids (delete id a).
Proof.
  intros Hid Hst. apply map_filter_strong_ext. intros i st'. rewrite not_elem_of_cons, lookup_delete_Some. cbn.
  destruct (decide (i = id)) as [->|Hne]; naive_solver.
Qed.

Lemma delete_all_Ret b ids : ∀ a acc stats a',
  delete_all b a acc ids = (Ret stats, a') →
  a' = undeleted ids a ∧ Processed stats = Processed acc + Z.of_nat (length ids) ∧
  Success stats = Success acc + (Z.of_nat (size a) - Z.of_nat (size a')) ∧
  (b = true → ∀ id, id ∈ ids → a !! id ≠ Some StatusUnackDelaying).
Proof.
  induction ids as [|id ids IH]; intros a acc stats a' H; cbn [delete_all] in H.
  { injection H as <- <-. rewrite undeleted_nil. cbn [length]. split_and!; [done|lia|lia|set_solver]. }
  unfold delete_verdict in H. destruct (a !! id) as [st|] eqn:Hid.
  2: { apply IH in H as (-> & HP & HS & HB). rewrite undeleted_missing by auto. cbn in HP, HS |- *.
       split_and!; [done|lia|lia|]. intros Hb i [->|Hi]%elem_of_cons; [congruence|by apply HB]. }
  destruct (decide (st = StatusProcessing)) as [->|Hp].
  { apply IH in H as (-> & HP & HS & HB). rewrite undeleted_missing by auto. cbn in HP, HS |- *.
    split_and!; [done|lia|lia|]. intros Hb i [->|Hi]%elem_of_cons; [|by apply HB].
    rewrite Hid. intros [=]. }
  destruct (b && _) eqn:Hbl; [discriminate H|].
  apply IH in H as (-> & HP & HS & HB). rewrite (undeleted_delete _ _ _ _ Hid Hp).
  pose proof (map_size_delete id a) as Hsz. rewrite Hid in Hsz. pose proof (size_pos a id st Hid).
  cbn in HP, HS |- *. split_and!; [done|lia|lia|].
  intros -> i [->|Hi]%elem_of_cons.
  - rewrite Hid. intros [= ->]. by rewrite bool_decide_eq_true_2 in Hbl.
  - intros Hi'. destruct (decide (i = id)) as [->|Hne].
    + rewrite Hid in Hi'. injection Hi' as ->. by rewrite bool_decide_eq_true_2 in Hbl.
    + apply (HB eq_refl i Hi). by rewrite lookup_delete_ne.
Qed.

Lemma delete_all_Err b ids : ∀ a acc e a',
  delete_all b a acc ids = (Err e, a') →
  e = WRONGTYPE ∧ b = true ∧ a' ⊆ a ∧ ∃ id, id ∈ ids ∧ a !! id = Some StatusUnackDelaying.
Proof.
  induction ids as [|id ids IH]; intros a acc e a' H; cbn [delete_all] in H; [discriminate H|].
  unfold delete_verdict in H. destruct (a !! id) as [st|] eqn:Hid.
  2: { apply IH in H as (? & ? & ? & i & ? & ?). split_and!; [done..|]. exists i. set_solver. }
  destruct (decide (st = StatusProcessing)) as [->|Hp].
  { apply IH in H as (? & ? & ? & i & ? & ?). split_and!; [done..|]. exists i. set_solver. }
  destruct (b && _) eqn:Hbl.
  - injection H as <- <-. apply andb_true_iff in Hbl as [-> ->%bool_decide_eq_true].
    split_and!; [done..|]. exists id. set_solver.
  - apply IH in H as (? & ? & ? & i & ? & Hi). apply lookup_delete_Some in Hi as [_ Hi].
    split_and!; [done|done|etrans; [done|apply delete_subseteq]|]. exists i. set_solver.
Qed.

(** A message that is being processed is not deleted. *)
Lemma delete_all_processing b ids id : ∀ a acc,
  a !! id = Some StatusProcessing → (delete_all b a acc ids).2 !! id = Some StatusProcessing.
Proof.
  induction ids as [|i ids IH]; intros a acc Hid; cbn [delete_all]; [done|]. unfold delete_verdict.
  destruct (a !! i) as [st|] eqn:Hi; [|by apply IH]. destruct (decide (st = StatusProcessing)); [by apply IH|].
  destruct (b && _); [done|]. apply IH. rewrite lookup_delete_ne; [done|]. intros ->. congruence.
Qed.

(** ** Properties of deletion *)

(** C10: deleting a batch of messages of a queue.  A missing queue, or a locked
    one without its lock identifier, is left alone.  Otherwise every message
    of the batch that is not being processed leaves the accounts of the queue,
    with its hash and its history, and the counters follow; the reply counts
    them.  The exception is a delayed message: while the delayed set exists the
    script fails with WRONGTYPE at the first one, with the messages before it
    deleted and the accounts still exact. *)
Theorem delete_messages_refines q g lockID ids s a :
  wf_queue q → no_colon g = true → accounts_of q s a → small a → deletable_ids s a ids →
  match delete_message (del_keys q g ids) (del_args lockID ids) s with
  | (Ret (inl reply), s') => s' = s ∧ delete_refusal s q lockID = Some reply
  | (Ret (inr stats), s') =>
      delete_refusal s q lockID = None ∧
      accounts_of q s' (undeleted ids a) ∧ removed q s a s' (undeleted ids a) ∧
      Processed stats = Z.of_nat (length ids) ∧
      Success stats = Z.of_nat (size a) - Z.of_nat (size (undeleted ids a)) ∧
      ∀ id, id ∈ ids → a !! id = Some StatusUnackDelaying → db s !! Delayed q = None
  | (Err e, s') =>
      e = WRONGTYPE ∧ (∃ id, id ∈ ids ∧ a !! id = Some StatusUnackDelaying) ∧
      ∃ a', a' ⊆ a ∧ accounts_of q s' a' ∧ removed q s a s' a'
  end.
Proof.
  intros Hq Hg Ha Hsm Hids. destruct (delete_batch_run q g lockID ids s a Hq Hg Ha Hsm Hids) as (s' & -> & Hs').
  destruct (delete_refusal s q lockID) as [reply|]; [done|]. specialize (Hs' eq_refl) as [Ha' Hrm].
  set (b := bool_decide _) in *. destruct (delete_all b a no_stats ids) as [[stats|e] a'] eqn:E; cbn [fst snd] in *.
  - apply delete_all_Ret in E as (-> & HP & HS & HB). cbn in HP, HS. split_and!; [done..|].
    intros id Hid Hst. apply eq_None_not_Some. intros Hex. eapply HB; [|done|done].
    by apply bool_decide_eq_true.
  - apply delete_all_Err in E as (-> & _ & Hsub & Hex). split; [done|]. split; [done|]. by exists a'.
Qed.

(** ** Requeuing *)

(** The requeue counter of a message can be incremented. *)
Definition requeue_count_ok (h : gmap string string) : Prop :=
  ∃ n, string2ll (default "0" (h !! mkey F_RequeueCount)) = Some n ∧ in_int64 (n + 1).

(** What a requeue notes in the original message. *)
Definition requeue_times (ts : Z) (original : Envelope) (h : gmap string string) : gmap string string :=
  hset_all [(mkey F_RequeuedAt, itoa (default ts (RequeuedAt (messageState original))));
            (mkey F_LastRequeuedAt, itoa ts)] h.
Definition requeue_again (h : gmap string string) : gmap string string :=
  <[mkey F_RequeueCount :=
      itoa (default 0 (string2ll (default "0" (h !! mkey F_RequeueCount))) + 1)]> h.

Definition requeue_effect (q : Queue) (ty messageID : string) (ts : Z) (rp : string)
    (original clone : Envelope) (s : store) : store :=
  let s := publish_effect_as (copy_value clone (print (transferable_json (ToTransferable clone)))
                                (itoa ts) "" rp) q ty (copy clone) s in
  let s := put_hash (Message messageID) (requeue_times ts original (hsh s (Message messageID))) s in
  put_hash (Message messageID) (requeue_again (hsh s (Message messageID))) s.

Section requeue.
Context (q : Queue) (messageID : string) (ts : Z) (original clone : Envelope) (s : store).
Context (Hq : wf_queue q) (Hw : wt s) (Hmid : no_colon messageID = true).
Context (Hgroup : consumerGroupID clone = consumerGroupID original).
Context (Hsched : ScheduledAt (messageState clone) = None) (Hpub : publishable (copy clone)).
Context (Hne : messageID ≠ ID clone) (Hct : publish_counters s q (copy clone)).
Context (Hcnt : requeue_count_ok (hsh s (Message messageID))).

Let g := consumerGroupID original.
Let keys := requeue_keys q g messageID (ID clone).
Let args := requeue_args ts original clone.

(** The reply and the keyspace after, on every branch. *)
Definition requeue_spec : (string + Z) * store :=
  let reply := publish_reply (hsh s (Properties q)) (sts s (ConsumerGroups q)) (copy clone) in
  match hsh s (Message messageID) !! mkey F_ID with
  | Some id =>
      if decide (g ≠ "" ∧ g ∉ sts s (ConsumerGroups q)) then (inr 0, s)
      else if decide (reply = "OK") then
        (inr 1, requeue_effect q (default "" (hsh s (Properties q) !! qkey Q_Type)) messageID ts id
                  original clone s)
      else (inl ("REQUEUE_ERROR:" +:+ id +:+ ":" +:+ reply), s)
  | None => (inr 0, s)
  end.

Lemma requeue_turn_run :
  requeue_turn keys args 0 0 s = (Ret requeue_spec.1, requeue_spec.2).
Proof using All.
  unfold requeue_turn, requeue_spec. cbn [Nat.mul Nat.add].
  change (arg args 16) with (mkey F_ID). change (arg keys 7) with (Message messageID).
  change (arg args 47) with g. change (arg keys 6) with (ConsumerGroups q).
  run_cmd hget_run. destruct (hsh s (Message messageID) !! mkey F_ID) as [id|]; [|done].
  assert ((if decide (g ≠ "") then cmd_sismember (ConsumerGroups q) g else mret true) s =
    (Ret (bool_decide (¬ (g ≠ "" ∧ g ∉ sts s (ConsumerGroups q)))), s)) as Hx.
  { destruct (decide (g ≠ "")) as [Hgn|Hgn].
    - rewrite sismember_run by wt_view. do 2 f_equal. apply bool_decide_ext.
      destruct (decide (g ∈ sts s (ConsumerGroups q))); naive_solver.
    - rewrite bool_decide_eq_true_2; [done|]. naive_solver. }
  erewrite bind_Ret; [|exact Hx]. destruct (decide (g ≠ "" ∧ _)) as [Hn|Hn].
  { by rewrite bool_decide_eq_false_2 by naive_solver. }
  rewrite bool_decide_eq_true_2 by done.
  pose proof (copy_run q clone (print (transferable_json (ToTransferable clone))) (itoa ts) "" id s Hw Hq Hpub Hct)
    as Hrun.
  rewrite <-copy_args_eq in Hrun by done.
  replace (publish_keys q (copy clone)) with
    [arg keys 1; arg keys 2; arg keys 3; arg keys 5; arg keys 4; arg keys 6; arg keys 8] in Hrun
    by (unfold publish_keys, keys, requeue_keys, copy, SetStatus, g; cbn; by rewrite <-Hgroup).
  rewrite Hgroup in Hrun. fold g in Hrun. cbv zeta in Hrun.
  erewrite bind_Ret; [|exact Hrun]. clear Hrun. set (reply := publish_reply _ _ _).
  destruct (decide (reply = "OK")) as [Hr|Hr]; [rewrite (decide_False (P := ¬ _)) by tauto|by rewrite decide_True].
  assert (wt (publish_effect_as (copy_value clone (print (transferable_json (ToTransferable clone))) (itoa ts) "" id)
    q (default "" (hsh s (Properties q) !! qkey Q_Type)) (copy clone) s)) as Hw1.
  { pose proof (pb_id _ Hpub). pose proof (enqueue_wt q (default "" (hsh s (Properties q) !! qkey Q_Type)) _ s Hw Hq Hpub).
    unfold publish_effect_as, add_counter. cbv zeta. wt_solve. }
  unfold requeue_effect. cbv zeta. set (s1 := publish_effect_as _ _ _ _ _) in *.
  assert (hsh s1 (Message messageID) = hsh s (Message messageID)) as Hm1 by by apply copy_other_hash.
  run_cmd hset_run. destruct Hcnt as (n & Hn1 & Hn2). unfold put_hash.
  change (hset_all _ (hsh s1 (Message messageID))) with (requeue_times ts original (hsh s1 (Message messageID))).
  set (s2 := upd (Message messageID) _ s1).
  assert (hsh s2 (Message messageID) !! mkey F_RequeueCount = hsh s (Message messageID) !! mkey F_RequeueCount) as Hh.
  { unfold s2. rewrite hsh_upd. unfold requeue_times, hset_all. cbn [foldl fst snd].
    rewrite !lookup_insert_ne by done. by rewrite Hm1. }
  erewrite bind_Ret; [|apply (hincrby_run _ _ _ (n + 1)); [unfold s2; wt_view|]].
  - unfold requeue_again. by rewrite Hh, Hn1.
  - unfold hincr. change (arg args 28) with (mkey F_RequeueCount). rewrite Hh, Hn1. by rewrite decide_True.
Qed.
End requeue.

(** The whole script, for the one message the Go code sends. *)
Lemma requeue_run q messageID ts original clone s :
  wf_queue q → wt s → no_colon messageID = true → consumerGroupID clone = consumerGroupID original →
  ScheduledAt (messageState clone) = None → publishable (copy clone) → messageID ≠ ID clone →
  publish_counters s q (copy clone) → requeue_count_ok (hsh s (Message messageID)) →
  let r := if decide (is_Some (db s !! Properties q))
           then requeue_spec q messageID ts original clone s else (inr 0, s) in
  requeue_message (requeue_keys q (consumerGroupID original) messageID (ID clone))
    (requeue_args ts original clone) s = (Ret r.1, r.2).
Proof.
  intros Hq Hw Hmid Hg Hs Hp Hne Hct Hcnt. unfold requeue_message. erewrite bind_Ret; [|done].
  change (arg (requeue_keys q (consumerGroupID original) messageID (ID clone)) 1) with (Properties q).
  destruct (decide (is_Some (db s !! Properties q))) as [Hex|Hex].
  2: { by rewrite bool_decide_eq_false_2. }
  rewrite bool_decide_eq_true_2 by done. cbn [negb].
  change (turns (requeue_args ts original clone) 40 7) with [0%nat]. cbn [loopM].
  erewrite bind_Ret; [|by apply requeue_turn_run]. by destruct (requeue_spec q messageID ts original clone s) as [[|] ?].
Qed.

Lemma requeue_effect_accounts q ty messageID ts rp original clone s a st :
  accounts_of q s a → small a → wf_queue q → publishable (copy clone) → a !! ID clone = None → ID clone ≠ "" →
  a !! messageID = Some st → no_colon messageID = true →
  let s' := requeue_effect q ty messageID ts rp original clone s in
  accounts_of q s' (<[ID clone := StatusPending]> a) ∧
  (∀ f, hsh s' (Message (ID clone)) !! mkey f =
        Some (copy_value clone (print (transferable_json (ToTransferable clone))) (itoa ts) "" rp f)) ∧
  hsh s' (Message messageID) = requeue_again (requeue_times ts original (hsh s (Message messageID))).
Proof.
  intros Ha Hsm Hq Hp Hnew Hid Hm Hmid. unfold requeue_effect. cbv zeta. set (v := copy_value _ _ _ _ _).
  assert (messageID ≠ ID clone) as Hne by congruence. pose proof (pb_id _ Hp : no_colon (ID clone) = true) as Hn.
  pose proof (copy_accounts q clone (print (transferable_json (ToTransferable clone))) (itoa ts) "" rp ty s a
    Ha Hsm Hq Hp Hnew Hid) as Ha1. fold v in Ha1.
  pose proof (copy_other_hash q clone (print (transferable_json (ToTransferable clone))) (itoa ts) "" rp ty s messageID
    Hq Hp Hmid Hne) as Ho. fold v in Ho.
  pose proof (λ f, copy_hash q clone (print (transferable_json (ToTransferable clone))) (itoa ts) "" rp ty s f Hq Hn) as Hv.
  fold v in Hv. set (s1 := publish_effect_as v q ty (copy clone) s) in *. split; [|split].
  - apply hash_write_accounts; [apply hash_write_accounts; [done|done|done|]|done|done|].
    + unfold requeue_times, hset_all. cbn [foldl fst snd]. by rewrite !lookup_insert_ne by done.
    + unfold requeue_again. by rewrite lookup_insert_ne by done.
  - intros f. unfold put_hash. rewrite !hsh_upd_ne by key_ne. apply Hv.
  - unfold put_hash. rewrite !hsh_upd. by rewrite Ho.
Qed.

(** An unknown consumer group is refused. *)
Lemma publish_reply_group props groups e :
  consumerGroupID e ≠ "" ∧ consumerGroupID e ∉ groups → publish_reply props groups e ≠ "OK".
Proof.
  intros Hg. unfold publish_reply. destruct (props !! qkey Q_Type); [|done].
  repeat (case_decide; [done|]). done.
Qed.

(** The clone that a requeue sends, of a message that can be stored. *)
Lemma requeue_clone_ok defaults newID now' ts messageID original :
  storable defaults original → no_colon newID = true → no_colon (consumerGroupID original) = true →
  let clone := requeue_clone defaults newID now' ts messageID original in
  ID clone = newID ∧ consumerGroupID clone = consumerGroupID original ∧
  ScheduledAt (messageState clone) = None ∧ publishable (copy clone) ∧
  env_ToParams clone = env_ToParams (copied newID now' ts "" messageID original) ∧
  priority_arg clone = priority_arg original.
Proof.
  intros He Hn Hg clone. pose proof He as [Hw Hr _ _ Hp _ _].
  destruct (reset_clone_ok defaults newID now' original Hw Hr) as (E1 & E2 & E3 & E4 & E5).
  assert (ID clone = newID) as HID by exact E2.
  assert (producibleMessage clone = producibleMessage (reset_clone defaults newID now' original)) as HP by done.
  assert (m_priority (producibleMessage clone) = m_priority (producibleMessage original)) as Hpr.
  { rewrite HP, E1. by destruct (producibleMessage original). }
  split_and!; [done|exact E4|exact E5| | |].
  - split.
    + by change (no_colon (ID clone) = true); rewrite HID.
    + change (no_colon (consumerGroupID (reset_clone defaults newID now' original)) = true). by rewrite E4.
    + change (producibleMessage (copy clone)) with (producibleMessage clone). rewrite Hpr.
      intros p Hpp. by apply (ir_priority _ Hp).
    + by intros [].
  - exact (copied_params defaults newID now' ts "" messageID original Hw Hr).
  - unfold priority_arg. by rewrite Hpr.
Qed.

(** C11: requeuing a message by hand, end to end.  It succeeds exactly when the
    message is acknowledged or dead-lettered and its queue accepts a message
    of its group and priority.  Then the queue has one more pending message,
    under the new identifier, which reads back as a copy of the original
    without its schedule and with the original as its parent; the counters are
    exact; and the original keeps its status and everything else but its count
    and times of requeuing, which docs/message-management.md calls unchanged; an
    error changes nothing. *)
Theorem requeue_message_correct defaults uuid uuid' now now'' newID now' ts messageID original dq s a st :
  let q := queue_keys_of dq in
  accounts_of q s a → small a → wf_queue q →
  a !! messageID = Some st → a !! newID = None → newID ≠ "" → no_colon newID = true →
  GetMessage defaults uuid uuid' now s messageID = inr original →
  hsh s (Message messageID) !! mkey F_ID = Some messageID →
  requeue_count_ok (hsh s (Message messageID)) →
  storable defaults original → destinationQueue original = Some dq →
  no_colon (consumerGroupID original) = true → in_int64 (UnixMilli now') → 0 < ts <= int64_max →
  let accepts := publish_reply (hsh s (Properties q)) (sts s (ConsumerGroups q))
                   (SetStatus StatusPending original) = "OK" in
  match RequeueMessage defaults uuid uuid' now newID now' ts messageID s with
  | (inr id, s') =>
      id = newID ∧ IsRequeuable (status original) = true ∧ accepts ∧
      accounts_of q s' (<[newID := StatusPending]> a) ∧
      GetMessage defaults uuid uuid' now'' s' newID =
        inr (reread now'' (copied newID now' ts "" messageID original)) ∧
      hsh s' (Message messageID) = requeue_again (requeue_times ts original (hsh s (Message messageID)))
  | (inl e, s') => s' = s ∧ ¬ (IsRequeuable (status original) = true ∧ accepts)
  end.
Proof.
  intros q Ha Hsm Hq Hmid Hnew Hnid Hncol Hget HID Hcnt Hst Hdq Hg Hn Hts accepts.
  pose proof (mo_wt _ _ _ (proj1 Ha)) as Hw.
  destruct (mo_status _ _ _ (proj1 Ha) messageID st Hmid) as (Hmcol & _).
  unfold RequeueMessage. rewrite Hget, Hdq. destruct (IsRequeuable (status original)); [|cbn; naive_solver].
  cbn [negb]. set (clone := requeue_clone defaults newID now' ts messageID original).
  destruct (requeue_clone_ok defaults newID now' ts messageID original Hst Hncol Hg) as (EID & EG & ES & EP & EPar & Epr).
  fold clone in EID, EG, ES, EP, EPar, Epr. fold q. rewrite <-EID in Hnew, Hnid.
  assert (messageID ≠ ID clone) as Hne by congruence.
  assert (publish_counters s q (copy clone)) as Hct by (apply (publish_counters_ok q s a); [apply Ha|done]).
  rewrite (requeue_run q messageID ts original clone s Hq Hw Hmcol EG ES EP Hne Hct Hcnt). cbv zeta.
  assert (publish_reply (hsh s (Properties q)) (sts s (ConsumerGroups q)) (copy clone) =
          publish_reply (hsh s (Properties q)) (sts s (ConsumerGroups q)) (SetStatus StatusPending original)) as HR.
  { unfold publish_reply. change (priority_arg (copy clone)) with (priority_arg clone).
    change (consumerGroupID (copy clone)) with (consumerGroupID clone). by rewrite EG, Epr. }
  fold q in accepts. destruct (decide (is_Some (db s !! Properties q))) as [Hex|Hex].
  2: { cbn. split; [done|]. intros [_ Hacc]. unfold accepts, publish_reply, hsh in Hacc.
       apply eq_None_not_Some in Hex. by rewrite Hex in Hacc. }
  unfold requeue_spec. rewrite HID, HR. fold accepts.
  destruct (decide (consumerGroupID original ≠ "" ∧ _)) as [Hgr|Hgr].
  { cbn. split; [done|]. intros [_ Hacc]. unfold accepts in Hacc.
    by apply (publish_reply_group _ _ (SetStatus StatusPending original) Hgr) in Hacc. }
  destruct (decide accepts) as [Hacc|Hacc]; [|cbn; naive_solver].
  cbn [fst snd]. rewrite (decide_False (P := 1 = 0)) by done.
  destruct (requeue_effect_accounts q (default "" (hsh s (Properties q) !! qkey Q_Type)) messageID ts messageID
    original clone s a st Ha Hsm Hq EP Hnew Hnid Hmid Hmcol) as (Ha' & Hh & Ho).
  set (s' := requeue_effect _ _ _ _ _ _ _ _) in *. rewrite EID in *. split_and!; [done..| |done].
  pose proof (mo_wt _ _ _ (proj1 Ha')) as Hw'. unfold GetMessage. rewrite hgetall_run by wt_view.
  rewrite decide_False.
  2: { intros E. specialize (Hh F_ID). by rewrite E, lookup_empty in Hh. }
  rewrite (copy_readable defaults uuid uuid' now'' newID now' ts "" messageID original clone); [done..|].
  intros f. rewrite Hh. unfold copy_value. by rewrite EID.
Qed.
