(* ===== verification/Schedule.v ===== *)
(** * Publishing scheduled messages

    The worker that delivers scheduled messages when their time has come:
    core/publish-scheduled.lua and internal/consumer/scheduled_publisher.go.  A
    message scheduled once is moved to the pending messages of its group; a
    repeating one stays scheduled for its next time, and a copy of it (Copy.v)
    is published; when the consumer group is gone the message is
    dead-lettered.  The times the code reads while it handles one tick are one
    reading [clock] here.  A tick makes a request for the due identifiers, one per
    message and one script call per group; other clients change the keyspace
    between these requests. *)

From S2P Require Import Prelude Keys Redis RedisFacts Types Keyspace Json Message MessageCodec.
From S2P Require Import Publish Consume Accounts Accounting Retry Delivery Copy Manage.
#[local] Open Scope Z_scope.

(** ** core/publish-scheduled.lua *)

(** The arguments of one message, from position [base]. *)
Definition scheduled_fields (args : list string) (base : nat) : list (string * string) :=
  [(arg args 28, arg args (base + 6)); (arg args 38, arg args (base + 7));
   (arg args 33, arg args (base + 9)); (arg args 35, arg args (base + 10));
   (arg args 37, arg args (base + 11))].

(** A message scheduled once; true when it was still scheduled. *)
Definition fire_simple (keys args : list string) (queueType : string) (group_exists : bool)
    (base : nat) (keyScheduledMessage : string) : M bool :=
  let keyQueueProperties := arg keys 1 in
  let scheduledMessageId := arg args (base + 4) in
  removed ← cmd_zrem (arg keys 5) scheduledMessageId;
  if decide (removed = 1) then
    _ ← cmd_hincrby keyQueueProperties (arg args 4) (-1);
    (if group_exists then
       _ ← (if decide (queueType = arg args 8) then cmd_lpush (arg keys 2) scheduledMessageId
            else if decide (queueType = arg args 7) then cmd_rpush (arg keys 2) [scheduledMessageId]
            else cmd_zadd (arg keys 4) (arg args (base + 2)) scheduledMessageId);
       _ ← cmd_hincrby keyQueueProperties (arg args 3) 1;
       _ ← cmd_hset keyScheduledMessage
             ((arg args 22, arg args (base + 8)) :: (arg args 19, arg args 15) ::
              scheduled_fields args base);
       mret true
     else
       _ ← cmd_rpush (arg keys 6) [scheduledMessageId];
       _ ← cmd_hincrby keyQueueProperties (arg args 5) 1;
       _ ← cmd_hset keyScheduledMessage
             [(arg args 19, arg args 17); (arg args 24, arg args (base + 13))];
       mret true)
  else mret false.

(** A repeating message: the error that ends the script, if publishing the copy
    is refused. *)
Definition fire_repeat (keys args : list string) (group_exists : bool) (base : nat)
    (keyMessage keyScheduledMessage : string) : M (option string) :=
  let keyQueueProperties := arg keys 1 in
  let newMessageId := arg args base in
  let scheduledMessageId := arg args (base + 4) in
  if group_exists then
    _ ← cmd_zadd (arg keys 5) (arg args (base + 5)) scheduledMessageId;
    _ ← cmd_hset keyScheduledMessage (scheduled_fields args base);
    result ← publish_message
      [keyQueueProperties; arg keys 4; arg keys 2; arg keys 5; arg keys 3; arg keys 7; keyMessage]
      ((arg args <$> seq 1 4) ++ (arg args <$> seq 6 9) ++
       [arg args (base + 2); ""; arg args 16; arg args 15] ++
       (arg args <$> seq 18 24) ++
       child_values (arg args 15) newMessageId (arg args (base + 1)) (arg args (base + 3))
         scheduledMessageId "" ++
       [arg args (base + 12); ""]);
    mret (if decide (result ≠ "OK") then Some ("PUBLISH_ERROR:" +:+ newMessageId +:+ ":" +:+ result)
          else None)
  else
    removed ← cmd_zrem (arg keys 5) scheduledMessageId;
    _ ← when (bool_decide (removed = 1))
          (_ ← cmd_rpush (arg keys 6) [scheduledMessageId];
           _ ← cmd_hset keyScheduledMessage
                 [(arg args 19, arg args 17); (arg args 24, arg args (base + 13))];
           _ ← cmd_hincrby keyQueueProperties (arg args 4) (-1);
           _ ← cmd_hincrby keyQueueProperties (arg args 5) 1;
           mret tt);
    mret None.

Definition scheduled_turn (keys args : list string) (queueType : string) (processed_count : Z) (i : nat)
    : M (string + Z) :=
  let base := (42 + 14 * i)%nat in
  let keyMessage := arg keys (8 + 2 * i) in
  let keyScheduledMessage := arg keys (9 + 2 * i) in
  let consumerGroupId := arg args (base + 12) in
  group_exists ← (if decide (consumerGroupId ≠ "") then cmd_sismember (arg keys 7) consumerGroupId
                  else mret true);
  if decide (arg args base = "") then
    moved ← fire_simple keys args queueType group_exists base keyScheduledMessage;
    mret (inr (if (moved : bool) then processed_count + 1 else processed_count))
  else
    err ← fire_repeat keys args group_exists base keyMessage keyScheduledMessage;
    mret (match err with Some e => inl e | None => inr (processed_count + 1) end).

Definition publish_scheduled (keys args : list string) : M (string + Z) :=
  queueProps ← cmd_hmget (arg keys 1) [arg args 1; arg args 9];
  match reply_at queueProps 1 with
  | None => mret (inr 0)
  | Some queueType =>
      match state_check (default (arg args 11) (reply_at queueProps 2)) (arg args 11) (arg args 12)
              (arg args 13) (arg args 14) with
      | Some _ => mret (inr 0)
      | None => loopM (scheduled_turn keys args queueType) 0 (turns args 41 14)
      end
  end.

(** ** internal/consumer/scheduled_publisher.go *)

(** One message as it is sent: the message with its new schedule, the time it
    is scheduled for next, the copy of a repeating one, and the clock. *)
Record firing := { f_msg : Envelope; f_next : Z; f_clone : option Envelope; f_ts : Z }.

Definition buildScheduledArgs : list string :=
  [qkey Q_Type; qkey Q_MessagesCount; qkey Q_PendingMessagesCount; qkey Q_ScheduledMessagesCount;
   qkey Q_DeadLetteredMessagesCount; itoa TypePriority; itoa TypeLIFO; itoa TypeFIFO;
   qkey Q_OperationalState; qkey Q_LockID; itoa StateActive; itoa StatePaused; itoa StateStopped;
   itoa StateLocked; itoa StatusPending; itoa StatusScheduled; itoa StatusDeadLettered] ++
  (mkey <$> messagePropertyFields).

Definition scheduled_entry (g : string) (f : firing) : list string :=
  let state := messageState (f_msg f) in
  [match f_clone f with Some c => ID c | None => "" end;
   match f_clone f with Some c => print (transferable_json (ToTransferable c)) | None => "" end;
   priority_arg (f_msg f);
   itoa (match f_clone f with Some _ => f_ts f | None => 0 end);
   ID (f_msg f); itoa (f_next f);
   OrEmptyInt64 (LastScheduledAt state); itoa (st_scheduledTimes state);
   OrEmptyInt64 (PublishedAt state); itoa (BoolToInt (st_scheduledCronFired state));
   itoa (st_scheduledRepeatCount state); itoa (st_effectiveScheduledDelay state);
   g; itoa (f_ts f)].

Definition scheduled_keys (q : Queue) (g : string) (fs : list firing) : list string :=
  [Properties q;
   if decide (g ≠ "") then PendingWithGroup q g else Pending q;
   Published q;
   if decide (g ≠ "") then PriorityWithGroup q g else Priority q;
   Scheduled q; DeadLetter q; ConsumerGroups q] ++
  (fs ≫= λ f, [match f_clone f with Some c => Message (ID c) | None => "" end; Message (ID (f_msg f))]).

Definition scheduled_args (g : string) (fs : list firing) : list string :=
  buildScheduledArgs ++ (fs ≫= scheduled_entry g).

Section publisher.
(** The CRON library, the default options and the identifiers a decoder makes. *)
Context (gv : string → bool) (gn : string → Z → option Z) (defaults : ConsumeOptions).
Context (uuid uuid' : string).

(** [newID] is the identifier of the copy, if there is one. *)
Definition fire (newID : string) (clock : Z) (msg : Envelope) : firing :=
  let '(next, msg) := NextScheduledTimestamp gv gn clock clock msg in
  let ts := UnixMilli clock in
  if bool_decide (0 < next) && IsPeriodic msg then
    let clone := reset_clone defaults newID clock msg in
    {| f_msg := SetMessageState (IncrScheduledTimes (SetLastScheduledAt ts (messageState msg))) msg;
       f_next := next;
       f_clone := Some (SetMessageState (SetScheduledMessageParentID (ID msg)
                          (SetPublishedAt ts (messageState clone))) clone);
       f_ts := ts |}
  else {| f_msg := msg; f_next := next; f_clone := None; f_ts := ts |}.

(** The reply is only logged. *)
Definition enqueueScheduled (q : Queue) (clock : Z) (newID : string → string) (messages : list Envelope)
    (g : string) (s : store) : store :=
  let fs := (λ msg, fire (newID (ID msg)) clock msg) <$> messages in
  (publish_scheduled (scheduled_keys q g fs) (scheduled_args g fs) s).2.

(** [groups[cgID] = append(groups[cgID], msg)]. *)
Fixpoint group_append (msg : Envelope) (l : list (string * list Envelope)) : list (string * list Envelope) :=
  match l with
  | [] => [(consumerGroupID msg, [msg])]
  | (g, msgs) :: l' =>
      if decide (g = consumerGroupID msg) then (g, msgs ++ [msg]) :: l' else (g, msgs) :: group_append msg l'
  end.
Definition group_messages (messages : list Envelope) : list (string * list Envelope) :=
  foldl (λ l msg, group_append msg l) [] messages.

(** The requests of a tick.  [others r] is what other clients have done to the
    keyspace between the request before [r] and [r]. *)
Inductive request := RangeRequest | LoadRequest (id : string) | ScriptRequest (g : string).

Section requests.
Context (others : request → store → store).

Fixpoint load_due (clock : Z) (ids : list string) (s : store) : list Envelope * store :=
  match ids with
  | [] => ([], s)
  | id :: ids =>
      let s := others (LoadRequest id) s in
      let '(messages, s') := load_due clock ids s in
      (match load_message defaults uuid uuid' clock s id with
       | Some msg => msg :: messages
       | None => messages
       end, s')
  end.

Definition readDue (q : Queue) (clock : Z) (s : store) : list Envelope * store :=
  let s := others RangeRequest s in
  match cmd_zrangebyscore (Scheduled q) (UnixMilli clock) 99 s with
  | (Err _, _) => ([], s)
  | (Ret ids, _) => load_due clock ids s
  end.

(** The script calls, each with the keyspace it finds, and the keyspace after the
    last one. *)
Fixpoint group_calls (q : Queue) (clock : Z) (newID : string → string)
    (groups : list (string * list Envelope)) (s : store)
    : list (string * list Envelope * store) * store :=
  match groups with
  | [] => ([], s)
  | (g, msgs) :: groups =>
      let s := others (ScriptRequest g) s in
      let '(calls, s') := group_calls q clock newID groups (enqueueScheduled q clock newID msgs g s) in
      ((g, msgs, s) :: calls, s')
  end.

(** One tick; [order] is the order the map of groups is iterated in. *)
Definition publishDue (order : list (string * list Envelope) → list (string * list Envelope))
    (q : Queue) (clock : Z) (newID : string → string) (s : store) : store :=
  let '(messages, s) := readDue q clock s in
  match messages with
  | [] => s
  | _ => (group_calls q clock newID (order (group_messages messages)) s).2
  end.
End requests.
End publisher.

(** ** One message *)

(** A turn reads the arguments of its message only. *)
Lemma scheduled_turn_eq q g ty n fs i f s :
  fs !! i = Some f →
  scheduled_turn (scheduled_keys q g fs) (scheduled_args g fs) ty n i s =
  scheduled_turn (scheduled_keys q g [f]) (scheduled_args g [f]) ty n 0 s.
Proof.
  intros Hi.
  assert (∀ j, (j < 14)%nat → arg (scheduled_args g fs) (42 + 14 * i + j) = arg (scheduled_args g [f]) (42 + j)) as Ha.
  { intros j Hj. unfold scheduled_args.
    replace (42 + 14 * i + j)%nat with (41 + S (14 * i + j))%nat by lia.
    replace (42 + j)%nat with (41 + S (14 * 0 + j))%nat by lia.
    rewrite !arg_behind by reflexivity. by rewrite !(nth_blocks (scheduled_entry g) 14 _ _ j f). }
  assert (∀ j, (j < 2)%nat → arg (scheduled_keys q g fs) (8 + 2 * i + j) = arg (scheduled_keys q g [f]) (8 + j)) as Hk.
  { intros j Hj. unfold scheduled_keys.
    replace (8 + 2 * i + j)%nat with (7 + S (2 * i + j))%nat by lia.
    replace (8 + j)%nat with (7 + S (2 * 0 + j))%nat by lia.
    rewrite !arg_behind by reflexivity. by rewrite !(nth_blocks _ 2 _ _ j f). }
  unfold scheduled_turn, fire_simple, fire_repeat, scheduled_fields.
  replace (arg (scheduled_keys q g fs) (9 + 2 * i)) with (arg (scheduled_keys q g [f]) 9)
    by (symmetry; etrans; [|apply (Hk 1%nat); lia]; f_equal; lia).
  replace (arg (scheduled_keys q g fs) (8 + 2 * i)) with (arg (scheduled_keys q g [f]) 8)
    by (symmetry; etrans; [|apply (Hk 0%nat); lia]; f_equal; lia).
  replace (arg (scheduled_args g fs) (42 + 14 * i)) with (arg (scheduled_args g [f]) 42)
    by (symmetry; etrans; [|apply (Ha 0%nat); lia]; f_equal; lia).
  rewrite !Ha by lia. reflexivity.
Qed.

(** A message leaves the scheduled set for another status. *)
Lemma unscheduled_accounts q s s' a id st f :
  accounts_of q s a → small a → a !! id = Some StatusScheduled → status_field st = Some f →
  settled st → wt s' → lst s' (Published q) = lst s (Published q) →
  lst s' (Requeued q) = lst s (Requeued q) → zst s' (Delayed q) = zst s (Delayed q) →
  zst s' (Scheduled q) = zremove id (zst s (Scheduled q)) →
  hsh s' (Message id) !! mkey F_Status = Some (itoa st) →
  (∀ id', id' ≠ id → no_colon id' = true → hsh s' (Message id') = hsh s (Message id')) →
  hsh s' (Properties q) =
    hsh (add_counter q f 1 (add_counter q Q_ScheduledMessagesCount (-1) s)) (Properties q) →
  accounts_of q s' (<[id := st]> a).
Proof.
  intros [Hm Hc] Hsm Hid Hf (N1 & N2 & N3) Hw' Hp Hr Hd Hs Hst Hoth Hprops.
  destruct (waiting_apart q s a id _ (mo_waiting _ _ _ Hm) Hid) as (A1 & A2 & _). split.
  - apply (messages_move q s s' a id StatusScheduled); [done..| |].
    + intros id' Hne Hn. by rewrite Hoth.
    + apply (waiting_leave q s s' a); [apply Hm|rewrite Hr; apply (mo_waiting _ _ _ Hm)|..].
      * intros x. rewrite Hr. intros Hx. split; [done|]. intros ->. by apply A1.
      * intros x. rewrite Hd. intros Hx. left. split; [done|]. intros ->. by apply A2.
      * intros x. rewrite Hs, elem_of_zremove. by left.
  - rewrite Hprops. pose proof (account_range a) as Hra. pose proof (size_pos a id _ Hid).
    assert (is_counter f = true ∧ f ≠ Q_ScheduledMessagesCount) as [Hif Hne].
    { unfold status_field in Hf. repeat (case_decide; [by injection Hf as <-|]). discriminate Hf. }
    eapply tally_ext; [apply tally_add; [apply tally_add; [done|done|]|done|]|].
    + apply (small_in_int64 a); [done|]. specialize (Hra Q_ScheduledMessagesCount). lia.
    + cbv beta. rewrite delta_ne by done. apply (small_in_int64 a); [done|]. specialize (Hra f). lia.
    + intros h Hh. rewrite (account_move a id StatusScheduled) by done. unfold sdelta at 1. rewrite Hf.
      change (sdelta StatusScheduled (-1) h) with (delta Q_ScheduledMessagesCount (-1) h). lia.
Qed.

(** The parts of a queue that a turn reads and no turn writes. *)
Definition same_queue (q : Queue) (s s' : store) : Prop :=
  sts s' (ConsumerGroups q) = sts s (ConsumerGroups q) ∧
  ∀ f, is_counter f = false → hsh s' (Properties q) !! qkey f = hsh s (Properties q) !! qkey f.

Lemma same_queue_refl q s : same_queue q s s.
Proof. by split. Qed.
Lemma same_queue_trans q s1 s2 s3 : same_queue q s1 s2 → same_queue q s2 s3 → same_queue q s1 s3.
Proof. intros [G1 P1] [G2 P2]. split; [by rewrite G2|]. intros f Hf. by rewrite P2, P1. Qed.

Lemma add_counter_static q f n s g :
  is_counter f = true → is_counter g = false →
  hsh (add_counter q f n s) (Properties q) !! qkey g = hsh s (Properties q) !! qkey g.
Proof.
  intros Hf Hg. unfold add_counter. rewrite hsh_upd, lookup_insert_ne; [done|].
  intros ->%(inj qkey). congruence.
Qed.

Lemma publish_reply_same q s s' e :
  same_queue q s s' →
  publish_reply (hsh s' (Properties q)) (sts s' (ConsumerGroups q)) e =
  publish_reply (hsh s (Properties q)) (sts s (ConsumerGroups q)) e.
Proof. intros [-> Hp]. unfold publish_reply. by rewrite !Hp. Qed.

(** The lists a due message can be put on. *)
Definition due_keys (q : Queue) (g : string) : list redis_key :=
  [KPending q; KPendingWithGroup q g; KPriority q; KPriorityWithGroup q g; KDeadLetter q].

(** The keys that putting a message on such a list leaves alone. *)
Definition due_other (q : Queue) (k : redis_key) : Prop :=
  key_type k = THash ∨ k = KPublished q ∨ k = KRequeued q ∨ k = KDelayed q ∨ k = KScheduled q ∨
  k = KConsumerGroups q.

Lemma due_key_other q g k k' ov s' :
  k ∈ due_keys q g → wf_key k → wf_key k' → due_other q k' →
  db (upd (render_key k) ov s') !! render_key k' = db s' !! render_key k'.
Proof.
  intros Hk Wk Wk' Hor. apply lookup_upd_ne, render_key_ne; [done|done|]. intros ->. unfold due_keys in Hk.
  repeat (apply elem_of_cons in Hk as [->|Hk]; [by destruct Hor as [?|[?|[?|[?|[?|?]]]]]|]).
  by apply elem_of_nil in Hk.
Qed.

(** What a turn leaves behind: it touches the messages [ids] only. *)
Record turned (q : Queue) (ids : list string) (s s' : store) (a' : accounts) : Prop := {
  tu_accounts : accounts_of q s' a';
  tu_queue : same_queue q s s';
  tu_slots : ∀ n x, x ∉ ids → (n, x) ∈ zst s' (Scheduled q) ↔ (n, x) ∈ zst s (Scheduled q);
  tu_hash : ∀ x, x ∉ ids → no_colon x = true → hsh s' (Message x) = hsh s (Message x)
}.

Lemma turned_refl q ids s a : accounts_of q s a → turned q ids s s a.
Proof. intros Ha. by split. Qed.

Lemma turned_trans q ids ids' s1 s2 s3 a2 a3 :
  turned q ids s1 s2 a2 → turned q ids' s2 s3 a3 → turned q (ids ++ ids') s1 s3 a3.
Proof.
  intros [A1 Q1 S1 H1] [A2 Q2 S2 H2]. split; [done|by eapply same_queue_trans|..].
  - intros n x [N1 N2]%not_elem_of_app. by rewrite S2, S1.
  - intros x [N1 N2]%not_elem_of_app Hx. by rewrite H2, H1.
Qed.

Lemma elem_of_zremove_pair n x m z : x ≠ m → (n, x) ∈ zremove m z ↔ (n, x) ∈ z.
Proof. intros Hne. unfold zremove. rewrite list_elem_of_filter. cbn. tauto. Qed.

Section fire_simple.
Context (q : Queue) (g ty : string) (f : firing) (s : store) (a : accounts).
Context (Hq : wf_queue q) (Hg : no_colon g = true) (Hty : retryable ty (f_msg f)).
Context (Hfg : consumerGroupID (f_msg f) = g).
Context (Ha : accounts_of q s a) (Hsm : small a).
Let id := ID (f_msg f).
Let keys := scheduled_keys q g [f].
Let args := scheduled_args g [f].

(** The message is put on its list, counted there, and its hash updated. *)
Lemma settle_run k ov (push : M unit) st fc fields :
  let s1 := upd (Scheduled q) (zset_val (zremove id (zst s (Scheduled q)))) s in
  let s2 := add_counter q Q_ScheduledMessagesCount (-1) s1 in
  a !! id = Some StatusScheduled → k ∈ due_keys q g → wf_key k → has_type (key_type k) ov →
  push s2 = (Ret tt, upd (render_key k) ov s2) → status_field st = Some fc → settled st →
  (∀ h, hset_all fields h !! mkey F_Status = Some (itoa st)) →
  ∃ s', (_ ← push; _ ← cmd_hincrby (Properties q) (qkey fc) 1; _ ← cmd_hset (Message id) fields;
         mret true) s2 = (Ret true, s') ∧
        turned q [id] s s' (<[id := st]> a) ∧ id ∉ (zst s' (Scheduled q)).*2.
Proof using Hq Ha Hsm.
  intros s1 s2 Hid Hk Wk Ht Hpush Hfc Hset Hst. pose proof Ha as [Hm Hc]. pose proof (mo_wt _ _ _ Hm) as Hw.
  destruct (mo_status _ _ _ Hm id _ Hid) as (Hcol & _). pose proof (size_pos a id _ Hid) as Hpos.
  assert (is_counter fc = true ∧ fc ≠ Q_ScheduledMessagesCount) as [Hif Hne].
  { unfold status_field in Hfc. destruct Hset as (_ & _ & N). clear - Hfc N.
    repeat (case_decide; [by injection Hfc as <-|]). discriminate Hfc. }
  assert (wt s2) as Hw2 by (unfold s2, s1; wt_solve). set (s3 := upd (render_key k) ov s2) in *.
  assert (wt s3) as Hw3 by by apply wt_upd.
  assert (hsh s2 (Properties q) = hsh (add_counter q Q_ScheduledMessagesCount (-1) s) (Properties q)) as Hp2.
  { unfold s2, s1, add_counter, counter. rewrite !hsh_upd. by views. }
  assert (∀ k', wf_key k' → due_other q k' → db s3 !! render_key k' = db s2 !! render_key k') as H32 by (intros; by apply (due_key_other q g)).
  pose proof (H32 (KProperties q) ltac:(wf_parts) ltac:(left; reflexivity)) as HP. cbn [render_key] in HP.
  assert (hsh s3 (Properties q) = hsh (add_counter q Q_ScheduledMessagesCount (-1) s) (Properties q)) as Hp3.
  { rewrite <-Hp2. unfold hsh. by rewrite HP. }
  assert (counter_ok s3 q fc 1) as Hok.
  { eapply counter_ok_hsh; [exact Hp3|]. apply counter_ok_ne; [congruence|].
    apply (counter_can_move q s a); [done|done|done|lia]. }
  erewrite bind_Ret; [|exact Hpush]. erewrite bind_Ret; [|apply hincrby_counter; [wt_view|done]].
  set (s4 := add_counter q fc 1 s3). assert (wt s4) as Hw4 by (unfold s4; wt_solve).
  erewrite bind_Ret; [|apply hset_run; wt_view]. set (s5 := upd (Message id) _ s4).
  exists s5. split; [done|]. clear Hpush Hok.
  assert (wt s5) as Hw5 by (unfold s5; wt_solve).
  assert (∀ k', wf_key k' → k' ≠ KMessage id → k' ≠ KProperties q → due_other q k' →
    db s5 !! render_key k' = db s1 !! render_key k') as H51.
  { intros k' Wk' N1 N2 Hor. unfold s5. rewrite lookup_upd_ne by (apply (render_key_ne (KMessage id)); done || wf_parts).
    unfold s4, add_counter. rewrite lookup_upd_ne by (apply (render_key_ne (KProperties q)); done || wf_parts).
    rewrite H32 by done. unfold s2, add_counter.
    apply lookup_upd_ne, (render_key_ne (KProperties q)); done || wf_parts. }
  pose proof (H51 (KPublished q) ltac:(wf_parts) ltac:(discriminate) ltac:(discriminate) ltac:(unfold due_other; tauto)) as K1.
  pose proof (H51 (KRequeued q) ltac:(wf_parts) ltac:(discriminate) ltac:(discriminate) ltac:(unfold due_other; tauto)) as K2.
  pose proof (H51 (KDelayed q) ltac:(wf_parts) ltac:(discriminate) ltac:(discriminate) ltac:(unfold due_other; tauto)) as K3.
  pose proof (H51 (KScheduled q) ltac:(wf_parts) ltac:(discriminate) ltac:(discriminate) ltac:(unfold due_other; tauto)) as K4.
  pose proof (H51 (KConsumerGroups q) ltac:(wf_parts) ltac:(discriminate) ltac:(discriminate) ltac:(unfold due_other; tauto)) as K5.
  cbn [render_key] in K1, K2, K3, K4, K5.
  assert (zst s5 (Scheduled q) = zremove id (zst s (Scheduled q))) as HS.
  { unfold zst at 1. rewrite K4. unfold s1. by rewrite lookup_upd_eq, as_zset_val. }
  assert (hsh s5 (Properties q) =
    hsh (add_counter q fc 1 (add_counter q Q_ScheduledMessagesCount (-1) s)) (Properties q)) as HP5.
  { unfold s5. rewrite hsh_upd_ne by key_ne. unfold s4, add_counter at 1 2, counter. rewrite !hsh_upd. by rewrite Hp3. }
  assert (∀ id', id' ≠ id → no_colon id' = true → hsh s5 (Message id') = hsh s (Message id')) as HM5.
  { intros id' Hne' Hn. unfold hsh. pose proof (H51 (KMessage id')) as K. cbn [render_key] in K.
    rewrite K; [|wf_parts|congruence|discriminate|by left]. unfold s1. by rewrite lookup_upd_ne by key_ne. }
  split; [|rewrite HS; apply zremove_members]. split.
  - apply (unscheduled_accounts q s s5 a id st fc); try done.
    + unfold lst. rewrite K1. unfold s1. by rewrite lookup_upd_ne by key_ne.
    + unfold lst. rewrite K2. unfold s1. by rewrite lookup_upd_ne by key_ne.
    + unfold zst. rewrite K3. unfold s1. by rewrite lookup_upd_ne by key_ne.
    + unfold s5. rewrite hsh_upd. apply Hst.
  - split.
    + unfold sts. rewrite K5. unfold s1. by rewrite lookup_upd_ne by key_ne.
    + intros h Hh. by rewrite HP5, !add_counter_static.
  - intros n x [Hx _]%not_elem_of_cons. rewrite HS. by apply elem_of_zremove_pair.
  - intros x [Hx _]%not_elem_of_cons. by apply HM5.
Qed.

(** Both updates of its hash set its status. *)
Lemma due_fields h :
  hset_all ((arg args 22, arg args (42 + 8)) :: (arg args 19, arg args 15) :: scheduled_fields args 42) h
    !! mkey F_Status = Some (itoa StatusPending).
Proof using. unfold hset_all, scheduled_fields. cbn [foldl fst snd]. rewrite !lookup_insert_ne by done. apply lookup_insert_eq. Qed.
Lemma dead_fields h :
  hset_all [(arg args 19, arg args 17); (arg args 24, arg args (42 + 13))] h
    !! mkey F_Status = Some (itoa StatusDeadLettered).
Proof using. unfold hset_all. cbn [foldl fst snd]. rewrite !lookup_insert_ne by done. apply lookup_insert_eq. Qed.

(** Where a due message goes. *)
Definition due_status (group_exists : bool) : Z :=
  if group_exists then StatusPending else StatusDeadLettered.

Lemma fire_simple_run b :
  id ∈ (zst s (Scheduled q)).*2 → f_clone f = None →
  ∃ s', fire_simple keys args ty b 42 (Message id) s = (Ret true, s') ∧
        turned q [id] s s' (<[id := due_status b]> a) ∧ id ∉ (zst s' (Scheduled q)).*2.
Proof using All.
  intros Hin Hcl. pose proof Ha as [Hm Hc]. pose proof (mo_wt _ _ _ Hm) as Hw.
  pose proof (wo_scheduled _ _ _ (mo_waiting _ _ _ Hm) id Hin) as Hid.
  destruct (mo_status _ _ _ Hm id _ Hid) as (Hcol & _). pose proof (size_pos a id _ Hid) as Hpos.
  unfold fire_simple. change (arg keys 5) with (Scheduled q). change (arg args (42 + 4)) with id.
  change (arg keys 1) with (Properties q). change (arg args 4) with (qkey Q_ScheduledMessagesCount).
  erewrite bind_Ret; [|etrans; [apply zrem_run; wt_view|by rewrite (decide_True (P := id ∈ _))]].
  rewrite (decide_True (P := 1 = 1)) by done. set (s1 := upd (Scheduled q) _ s).
  assert (counter_ok s1 q Q_ScheduledMessagesCount (-1)) as Hok.
  { eapply counter_ok_hsh; [|apply (counter_can_move q s a Q_ScheduledMessagesCount (-1)); [done|done|done|lia]].
    unfold s1. by views. }
  erewrite bind_Ret; [|apply hincrby_counter; [unfold s1; wt_view|done]].
  set (s2 := add_counter q _ _ s1). assert (wt s2) as Hw2 by (unfold s2, s1; wt_solve).
  destruct b; [destruct (priority_key_wf q g Hq Hg) as (kp & Wp & Tp & Ep & Op);
               destruct (pending_key_wf q g Hq Hg) as (kl & Wl & Tl & El & Ol)|].
  - change (arg keys 2) with (pending_key q g). change (arg keys 4) with (priority_key q g).
    change (arg args (42 + 2)) with (priority_arg (f_msg f)).
    destruct (decide (ty = arg args 8)) as [E1|N1]; [|destruct (decide (ty = arg args 7)) as [E2|N2]].
    + apply (settle_run kl (list_val (id :: lst s2 (pending_key q g))) _ StatusPending Q_PendingMessagesCount);
        try done; [destruct Ol as [->| ->]; unfold due_keys; set_solver|by rewrite Tl; eexists; rewrite as_list_val| |apply due_fields].
      rewrite <-El. apply lpush_run. rewrite El. by apply wt_list.
    + apply (settle_run kl (list_val (lst s2 (pending_key q g) ++ [id])) _ StatusPending Q_PendingMessagesCount);
        try done; [destruct Ol as [->| ->]; unfold due_keys; set_solver|by rewrite Tl; eexists; rewrite as_list_val| |apply due_fields].
      rewrite <-El. apply rpush_run. rewrite El. by apply wt_list.
    + destruct (rt_priority _ _ Hty N1 N2) as (p & Hp & Hr).
      apply (settle_run kp (zset_val (zinsert (p, id) (zremove id (zst s2 (priority_key q g))))) _ StatusPending
        Q_PendingMessagesCount); try done;
        [destruct Op as [->| ->]; unfold due_keys; set_solver|by rewrite Tp; eexists; rewrite as_zset_val| |apply due_fields].
      rewrite <-Ep. apply zadd_run; [rewrite Ep; by apply wt_zset|].
      unfold priority_arg. rewrite Hp. by apply ParseInt_itoa.
  - apply (settle_run (KDeadLetter q) (list_val (lst s2 (DeadLetter q) ++ [id])) _ StatusDeadLettered
      Q_DeadLetteredMessagesCount); try done;
      [unfold due_keys; set_solver|wf_parts|cbn [key_type has_type]; rewrite as_list_val; by eexists|
       apply rpush_run; wt_view|apply dead_fields].
Qed.

(** One that is not scheduled any more is left alone. *)
Lemma fire_simple_gone b :
  id ∉ (zst s (Scheduled q)).*2 → fire_simple keys args ty b 42 (Message id) s = (Ret false, s).
Proof using Hq Ha.
  intros Hin. pose proof (mo_wt _ _ _ (proj1 Ha)) as Hw. unfold fire_simple.
  change (arg keys 5) with (Scheduled q). change (arg args (42 + 4)) with id.
  erewrite bind_Ret; [|etrans; [apply zrem_run; wt_view|by rewrite (decide_False (P := id ∈ _))]].
  by rewrite (decide_False (P := 0 = 1)) by done.
Qed.
End fire_simple.

(** *** A repeating message whose group is gone *)

Section fire_dead.
Context (q : Queue) (g : string) (f : firing) (s : store) (a : accounts) (km : string).
Context (Hq : wf_queue q) (Ha : accounts_of q s a) (Hsm : small a).
Let id := ID (f_msg f).
Let keys := scheduled_keys q g [f].
Let args := scheduled_args g [f].

Lemma fire_dead_run :
  id ∈ (zst s (Scheduled q)).*2 →
  ∃ s', fire_repeat keys args false 42 km (Message id) s = (Ret None, s') ∧
        turned q [id] s s' (<[id := StatusDeadLettered]> a) ∧ id ∉ (zst s' (Scheduled q)).*2.
Proof using All.
  intros Hin. pose proof Ha as [Hm Hc]. pose proof (mo_wt _ _ _ Hm) as Hw.
  pose proof (wo_scheduled _ _ _ (mo_waiting _ _ _ Hm) id Hin) as Hid.
  destruct (mo_status _ _ _ Hm id _ Hid) as (Hcol & _). pose proof (size_pos a id _ Hid) as Hpos.
  unfold fire_repeat. change (arg keys 5) with (Scheduled q). change (arg args (42 + 4)) with id.
  change (arg keys 1) with (Properties q). change (arg keys 6) with (DeadLetter q).
  erewrite bind_Ret; [|etrans; [apply zrem_run; wt_view|by rewrite (decide_True (P := id ∈ _))]].
  rewrite bool_decide_eq_true_2 by done. set (s1 := upd (Scheduled q) _ s). cbn [when]. rewrite !bind_assoc.
  assert (wt s1) as Hw1 by (unfold s1; wt_solve). run_cmd rpush_run. set (s2 := upd (DeadLetter q) _ s1).
  assert (wt s2) as Hw2 by (unfold s2; wt_solve). rewrite !bind_assoc. run_cmd hset_run.
  set (s3 := upd (Message id) _ s2). assert (wt s3) as Hw3 by (unfold s3; wt_solve). rewrite !bind_assoc.
  assert (hsh s3 (Properties q) = hsh s (Properties q)) as Hp by (unfold s3, s2, s1; by views).
  assert (counter_ok s3 q Q_ScheduledMessagesCount (-1)) as Hok1.
  { eapply counter_ok_hsh; [exact Hp|]. apply (counter_can_move q s a); [done|done|done|lia]. }
  erewrite bind_Ret; [|apply hincrby_counter; [wt_view|exact Hok1]]. rewrite !bind_assoc.
  set (s4 := add_counter q _ _ s3). assert (wt s4) as Hw4 by (unfold s4; wt_solve).
  assert (counter_ok s4 q Q_DeadLetteredMessagesCount 1) as Hok2.
  { apply counter_ok_ne; [done|]. eapply counter_ok_hsh; [exact Hp|].
    apply (counter_can_move q s a); [done|done|done|lia]. }
  erewrite bind_Ret; [|apply hincrby_counter; [wt_view|exact Hok2]].
  set (s5 := add_counter q _ 1 s4). assert (wt s5) as Hw5 by (unfold s5; wt_solve).
  exists s5. split; [done|]. clear Hok1 Hok2.
  assert (zst s5 (Scheduled q) = zremove id (zst s (Scheduled q))) as HS.
  { unfold s5, s4, s3, s2. views. unfold s1. by rewrite zst_upd. }
  assert (hsh s5 (Properties q) = hsh (add_counter q Q_DeadLetteredMessagesCount 1
    (add_counter q Q_ScheduledMessagesCount (-1) s)) (Properties q)) as HP.
  { unfold s5, s4, add_counter, counter. rewrite !hsh_upd. by rewrite Hp. }
  assert (∀ id', id' ≠ id → no_colon id' = true → hsh s5 (Message id') = hsh s (Message id')) as HM5.
  { intros id' Hne Hn. unfold s5, s4, s3, s2, s1. by views. }
  split; [|rewrite HS; apply zremove_members]. split.
  - apply (unscheduled_accounts q s s5 a id StatusDeadLettered Q_DeadLetteredMessagesCount); try done.
    1-3: unfold s5, s4, s3, s2, s1; by views.
    unfold s5, s4, add_counter. rewrite !hsh_upd_ne by key_ne. unfold s3. rewrite hsh_upd. apply dead_fields.
  - split; [unfold s5, s4, s3, s2, s1; by views|]. intros h Hh. by rewrite HP, !add_counter_static.
  - intros n x [Hx _]%not_elem_of_cons. rewrite HS. by apply elem_of_zremove_pair.
  - intros x [Hx _]%not_elem_of_cons. by apply HM5.
Qed.

Lemma fire_dead_gone :
  id ∉ (zst s (Scheduled q)).*2 → fire_repeat keys args false 42 km (Message id) s = (Ret None, s).
Proof using Hq Ha.
  intros Hin. pose proof (mo_wt _ _ _ (proj1 Ha)) as Hw. unfold fire_repeat.
  change (arg keys 5) with (Scheduled q). change (arg args (42 + 4)) with id.
  erewrite bind_Ret; [|etrans; [apply zrem_run; wt_view|by rewrite (decide_False (P := id ∈ _))]]. done.
Qed.
End fire_dead.

(** *** A repeating message that is published again *)

(** A scheduled message gets another time. *)
Lemma rescheduled_accounts q s a id n :
  accounts_of q s a → wf_queue q → a !! id = Some StatusScheduled →
  accounts_of q (upd (Scheduled q) (zset_val (zinsert (n, id) (zremove id (zst s (Scheduled q))))) s) a.
Proof.
  intros [Hm Hc] Hq Hid. pose proof Hm as [Hw Hl Hst [W1 W2 W3 W4]]. set (s1 := upd _ _ s). split.
  - split; [unfold s1; wt_solve|unfold s1; by views|..].
    + intros i st Hi. specialize (Hst i st Hi) as (Hn & ? & ?). unfold s1. by views.
    + split; [unfold s1; by views|intros i|intros i|intros i].
      * unfold s1. views. apply W2.
      * unfold s1. views. apply W3.
      * unfold s1. rewrite zst_upd, elem_of_zadd. intros [->|Hi]; [done|by apply W4].
  - unfold s1. by views.
Qed.

(** The copy leaves what the queue is and the other messages alone. *)
Section copy_frame.
Context (q : Queue) (ty : string) (c : Envelope) (s : store) (v : mfield → string).
Context (Hq : wf_queue q) (Hpub : publishable (copy c)).

Lemma copy_other k :
  wf_key k → k = KScheduled q ∨ k = KConsumerGroups q →
  db (publish_effect_as v q ty (copy c) s) !! render_key k = db s !! render_key k.
Proof using Hq Hpub.
  intros Hk Hor. pose proof (pb_id _ Hpub) as Hn. unfold publish_effect_as, add_counter. cbv zeta.
  assert (k ≠ KProperties q ∧ k ≠ KPublished q ∧ k ≠ KMessage (ID (copy c))) as (N1 & N2 & N3)
    by (destruct Hor as [->| ->]; done).
  rewrite lookup_upd_ne by (apply (render_key_ne (KProperties q)); [wf_parts|done|done]).
  rewrite lookup_upd_ne by (apply (render_key_ne (KMessage (ID (copy c)))); [wf_parts|done|done]).
  rewrite lookup_upd_ne by (apply (render_key_ne (KPublished q)); [wf_parts|done|done]).
  rewrite lookup_upd_ne by (apply (render_key_ne (KProperties q)); [wf_parts|done|done]).
  apply enqueue_other; [done|done|done|]. unfold enqueue_key. rewrite decide_True by done.
  by destruct Hor as [->| ->]; repeat case_decide.
Qed.

Lemma copy_queue : same_queue q s (publish_effect_as v q ty (copy c) s).
Proof using Hq Hpub.
  pose proof (pb_id _ Hpub) as Hn. split.
  - pose proof (copy_other (KConsumerGroups q) ltac:(wf_parts) ltac:(by right)) as H. cbn [render_key] in H.
    unfold sts. by rewrite H.
  - intros f Hf. unfold publish_effect_as. rewrite add_counter_static by done.
    rewrite !hsh_upd_ne by key_ne. rewrite add_counter_static by done. by rewrite enqueue_props.
Qed.

Lemma copy_scheduled : zst (publish_effect_as v q ty (copy c) s) (Scheduled q) = zst s (Scheduled q).
Proof using Hq Hpub.
  pose proof (copy_other (KScheduled q) ltac:(wf_parts) ltac:(by left)) as H. cbn [render_key] in H.
  unfold zst. by rewrite H.
Qed.
End copy_frame.

Section fire_repeat.
Context (q : Queue) (g : string) (f : firing) (c : Envelope) (s : store) (a : accounts).
Context (Hq : wf_queue q) (Ha : accounts_of q s a) (Hsm : small a).
Context (Hcl : f_clone f = Some c) (Hg : consumerGroupID c = g).
Context (Hpr : priority_arg c = priority_arg (f_msg f)) (Hsc : ScheduledAt (messageState c) = None).
Context (Hpub : publishable (copy c)) (Hnew : a !! ID c = None) (Hnid : ID c ≠ "").
Context (Hnext : in_int64 (f_next f)) (Hid : a !! ID (f_msg f) = Some StatusScheduled).
Context (Hok : publish_reply (hsh s (Properties q)) (sts s (ConsumerGroups q)) (copy c) = "OK").
Let id := ID (f_msg f).
Let keys := scheduled_keys q g [f].
Let args := scheduled_args g [f].

(** The values of the copy's fields. *)
Definition fired_value : mfield → string :=
  copy_value c (print (transferable_json (ToTransferable c))) (itoa (f_ts f)) id "".

Lemma fire_repeat_run :
  ∃ s', fire_repeat keys args true 42 (Message (ID c)) (Message id) s = (Ret None, s') ∧
        turned q [id; ID c] s s' (<[ID c := StatusPending]> a) ∧
        (f_next f, id) ∈ zst s' (Scheduled q) ∧
        (∀ h, hsh s' (Message (ID c)) !! mkey h = Some (fired_value h)) ∧
        hsh s' (Message id) = hset_all (scheduled_fields args 42) (hsh s (Message id)).
Proof using All.
  pose proof Ha as [Hm Hc]. pose proof (mo_wt _ _ _ Hm) as Hw. pose proof (pb_id _ Hpub : no_colon (ID c) = true) as Hcc.
  destruct (mo_status _ _ _ Hm _ _ Hid) as (Hcol & _). fold id in Hcol.
  assert (id ≠ ID c) as Hne by (unfold id; congruence).
  unfold fire_repeat. change (arg keys 5) with (Scheduled q). change (arg args (42 + 4)) with id.
  change (arg args (42 + 5)) with (itoa (f_next f)).
  erewrite bind_Ret; [|apply zadd_run; [wt_view|by apply ParseInt_itoa]].
  pose proof (rescheduled_accounts q s a id (f_next f) Ha Hq Hid) as Ha1. set (s1 := upd _ _ s) in *.
  pose proof (mo_wt _ _ _ (proj1 Ha1)) as Hw1. run_cmd hset_run.
  set (h2 := hset_all (scheduled_fields args 42) (hsh s1 (Message id))).
  assert (accounts_of q (put_hash (Message id) h2 s1) a) as Ha2.
  { apply hash_write_accounts; [done|done|done|]. unfold h2, scheduled_fields, hset_all. cbn [foldl fst snd].
    by rewrite !lookup_insert_ne by done. }
  change (upd (Message id) (hash_val h2) s1) with (put_hash (Message id) h2 s1).
  set (s2 := put_hash (Message id) h2 s1) in *. pose proof (mo_wt _ _ _ (proj1 Ha2)) as Hw2.
  assert (same_queue q s s2) as Hsq by (unfold s2, put_hash, s1; split; [by views|intros; by views]).
  assert (publish_counters s2 q (copy c)) as Hct by (apply (publish_counters_ok q s2 a); [apply Ha2|done]).
  pose proof (copy_run q c (print (transferable_json (ToTransferable c))) (itoa (f_ts f)) id "" s2 Hw2 Hq Hpub Hct)
    as Hrun.
  rewrite <-copy_args_eq in Hrun by done. cbv zeta in Hrun.
  rewrite (publish_reply_same q s s2) in Hrun by done. rewrite Hok in Hrun. rewrite decide_True in Hrun by done.
  replace (publish_keys q (copy c)) with
    [arg keys 1; arg keys 4; arg keys 2; arg keys 5; arg keys 3; arg keys 7; Message (ID c)] in Hrun
    by (unfold publish_keys, keys, scheduled_keys; cbn; by rewrite <-Hg).
  rewrite Hg, Hpr in Hrun.
  assert (arg args 42 = ID c ∧ arg args (42 + 1) = print (transferable_json (ToTransferable c)) ∧
          arg args (42 + 3) = itoa (f_ts f)) as (E1 & E2 & E3).
  { unfold args, scheduled_args, scheduled_entry, buildScheduledArgs. cbn. by rewrite Hcl. }
  rewrite E1, E2, E3. erewrite bind_Ret; [|exact Hrun]. clear Hrun E1 E2 E3. fold fired_value.
  set (ty := default "" _). set (s3 := publish_effect_as fired_value q ty (copy c) s2).
  exists s3. split; [done|]. split; [split|split].
  - exact (copy_accounts q c _ _ _ _ ty s2 a Ha2 Hsm Hq Hpub Hnew Hnid).
  - eapply same_queue_trans; [exact Hsq|]. by apply copy_queue.
  - intros n x [Hx _]%not_elem_of_cons. unfold s3. rewrite copy_scheduled by done. unfold s2, put_hash.
    rewrite zst_upd_ne by key_ne. unfold s1. rewrite zst_upd, elem_of_zinsert, elem_of_zremove_pair by exact Hx.
    split; [intros [E|H]; [injection E as _ E; by destruct Hx|exact H]|by right].
  - intros x [Hx [Hx' _]%not_elem_of_cons]%not_elem_of_cons Hxc.
    unfold s3, fired_value. rewrite copy_other_hash by done. unfold s2, put_hash, s1. by views.
  - unfold s3. rewrite copy_scheduled by done. unfold s2, put_hash. rewrite zst_upd_ne by key_ne.
    unfold s1. rewrite zst_upd, elem_of_zinsert. by left.
  - split; [intros h; by apply copy_hash|].
    unfold s3, fired_value. rewrite copy_other_hash by done. unfold s2, put_hash. rewrite hsh_upd.
    unfold h2, s1. by views.
Qed.
End fire_repeat.

(** ** One turn *)

(** The messages a firing touches. *)
Definition fire_ids (f : firing) : list string :=
  ID (f_msg f) :: match f_clone f with Some c => [ID c] | None => [] end.

(** The accounts afterwards: [b] says whether the group exists, [l] holds the
    messages that are still scheduled. *)
Definition due_account (b : bool) (l : list string) (a : accounts) (f : firing) : accounts :=
  match f_clone f, b with
  | Some c, true => <[ID c := StatusPending]> a
  | _, _ => if decide (ID (f_msg f) ∈ l) then <[ID (f_msg f) := due_status b]> a else a
  end.

(** The script counts a repeating message in any case. *)
Definition due_count (l : list string) (f : firing) : Z :=
  match f_clone f with
  | Some _ => 1
  | None => if decide (ID (f_msg f) ∈ l) then 1 else 0
  end.

Definition due_total (l : list string) (fs : list firing) : Z := foldr (λ f n, due_count l f + n) 0 fs.

(** The hash of a repeating message, [h] before, after it has been fired. *)
Definition fired_hash (f : firing) (h : gmap string string) : gmap string string :=
  hset_all (scheduled_fields (scheduled_args "" [f]) 42) h.

(** A repeating message, stored as [h] before, is scheduled again, its hash updated
    and its copy stored; any other one is not scheduled any more. *)
Definition due_result (q : Queue) (b : bool) (f : firing) (h : gmap string string) (s' : store) : Prop :=
  match f_clone f, b with
  | Some c, true =>
      (f_next f, ID (f_msg f)) ∈ zst s' (Scheduled q) ∧
      (∀ h, hsh s' (Message (ID c)) !! mkey h = Some (fired_value f c h)) ∧
      hsh s' (Message (ID (f_msg f))) = fired_hash f h
  | _, _ => ID (f_msg f) ∉ (zst s' (Scheduled q)).*2
  end.

(** What a firing needs to be carried out: its copy can be published. *)
Record fireable (g ty : string) (f : firing) : Prop := {
  fi_retry : retryable ty (f_msg f);
  fi_group : consumerGroupID (f_msg f) = g;
  fi_next : in_int64 (f_next f);
  fi_copy : ∀ c, f_clone f = Some c →
    consumerGroupID c = g ∧ priority_arg c = priority_arg (f_msg f) ∧
    ScheduledAt (messageState c) = None ∧ publishable (copy c) ∧ ID c ≠ ""
}.

(** A repeating message is still scheduled, and its copy new and accepted. *)
Definition repeatable (q : Queue) (s : store) (a : accounts) (f : firing) : Prop :=
  ∀ c, f_clone f = Some c →
    a !! ID (f_msg f) = Some StatusScheduled ∧ a !! ID c = None ∧
    publish_reply (hsh s (Properties q)) (sts s (ConsumerGroups q)) (copy c) = "OK".

Definition group_exists (q : Queue) (g : string) (s : store) : bool :=
  bool_decide (g = "" ∨ g ∈ sts s (ConsumerGroups q)).

Definition scheduled_one (q : Queue) (g ty : string) (n : Z) (f : firing) : M (string + Z) :=
  scheduled_turn (scheduled_keys q g [f]) (scheduled_args g [f]) ty n 0.

Lemma turned_weaken q ids ids' s s' a' : ids ⊆ ids' → turned q ids s s' a' → turned q ids' s s' a'.
Proof. intros Hi [H1 H2 H3 H4]. split; [done|done|intros n x Hx; apply H3; set_solver|intros x Hx; apply H4; set_solver]. Qed.

Lemma scheduled_one_run q g ty n f s a l :
  wf_queue q → no_colon g = true → accounts_of q s a → small a → fireable g ty f →
  (group_exists q g s = true → repeatable q s a f) →
  (ID (f_msg f) ∈ l ↔ ID (f_msg f) ∈ (zst s (Scheduled q)).*2) →
  let b := group_exists q g s in
  ∃ s', scheduled_one q g ty n f s = (Ret (inr (n + due_count l f)), s') ∧
        turned q (fire_ids f) s s' (due_account b l a f) ∧
        due_result q b f (hsh s (Message (ID (f_msg f)))) s'.
Proof.
  intros Hq Hg Ha Hsm [F1 F2 F3 F4] Hrep Hl b. pose proof (mo_wt _ _ _ (proj1 Ha)) as Hw.
  unfold scheduled_one, scheduled_turn. cbn [Nat.mul Nat.add].
  change (arg (scheduled_args g [f]) 54) with g. change (arg (scheduled_keys q g [f]) 7) with (ConsumerGroups q).
  assert ((if decide (g ≠ "") then cmd_sismember (ConsumerGroups q) g else mret true) s = (Ret b, s)) as Hx.
  { unfold b, group_exists. destruct (decide (g ≠ "")) as [Hn|Hn].
    - rewrite sismember_run by wt_view. do 2 f_equal. apply bool_decide_ext. tauto.
    - rewrite bool_decide_eq_true_2; [done|]. left. by apply dec_stable. }
  erewrite bind_Ret; [|exact Hx]. clear Hx.
  change (arg (scheduled_keys q g [f]) 9) with (Message (ID (f_msg f))).
  unfold due_account, due_result, due_count, fire_ids. destruct (f_clone f) as [c|] eqn:Hcl.
  - destruct (F4 c eq_refl) as (C1 & C2 & C3 & C4 & C5). pose proof (pb_id _ C4 : no_colon (ID c) = true).
    replace (arg (scheduled_keys q g [f]) 8) with (Message (ID c))
      by (unfold scheduled_keys; cbn; by rewrite Hcl).
    replace (arg (scheduled_args g [f]) 42) with (ID c)
      by (unfold scheduled_args, scheduled_entry, buildScheduledArgs; cbn; by rewrite Hcl).
    rewrite decide_False by done. destruct b eqn:Hb.
    + destruct (Hrep Hb c Hcl) as (R1 & R2 & R3).
      destruct (fire_repeat_run q g f c s a Hq Ha Hsm Hcl C1 C2 C3 C4 R2 C5 F3 R1 R3) as (s' & Hr & Ht & H1 & H2 & H3).
      exists s'. split; [erewrite bind_Ret; [|exact Hr]; reflexivity|]. split; [exact Ht|]. split_and!; [done..|exact H3].
    + destruct (decide (ID (f_msg f) ∈ l)) as [Hi|Hi].
      * destruct (fire_dead_run q g f s a (Message (ID c)) Hq Ha Hsm (proj1 Hl Hi)) as (s' & Hr & Ht & H1).
        exists s'. split; [erewrite bind_Ret; [|exact Hr]; reflexivity|]. split; [|exact H1].
        eapply turned_weaken; [|exact Ht]. set_solver.
      * exists s. assert (ID (f_msg f) ∉ (zst s (Scheduled q)).*2) as Hn by tauto.
        split; [erewrite bind_Ret; [|by apply (fire_dead_gone q g f s a)]; reflexivity|]. split; [by apply turned_refl|done].
  - replace (arg (scheduled_args g [f]) 42) with ""
      by (unfold scheduled_args, scheduled_entry, buildScheduledArgs; cbn; by rewrite Hcl).
    rewrite decide_True by done. destruct (decide (ID (f_msg f) ∈ l)) as [Hi|Hi].
    + destruct (fire_simple_run q g ty f s a Hq Hg F1 F2 Ha Hsm b (proj1 Hl Hi) Hcl) as (s' & Hr & Ht & H1).
      exists s'. split; [erewrite bind_Ret; [|exact Hr]; reflexivity|auto].
    + exists s. assert (ID (f_msg f) ∉ (zst s (Scheduled q)).*2) as Hn by tauto.
      split; [erewrite bind_Ret; [|by apply (fire_simple_gone q g ty f s a)]; by rewrite Z.add_0_r|].
      split; [by apply turned_refl|done].
Qed.

(** ** The batch *)

Lemma loopM_seq {A B R} (f : B → nat → M (R + B)) (h : B → A → M (R + B)) k l b s :
  (∀ b i x s, l !! i = Some x → f b (k + i)%nat s = h b x s) →
  loopM f b (seq k (length l)) s = loopM h b l s.
Proof.
  revert k b s. induction l as [|x l IH]; intros k b s Hfh; [done|]. cbn [length seq loopM].
  pose proof (Hfh b 0%nat x s eq_refl) as H0. rewrite Nat.add_0_r in H0.
  destruct (h b x s) as [[[r|b']|e] s'] eqn:E.
  - by rewrite (bind_Ret _ _ _ _ _ E), (bind_Ret _ _ _ _ _ H0).
  - rewrite (bind_Ret _ _ _ _ _ E), (bind_Ret _ _ _ _ _ H0).
    apply IH. intros b0 i y s0 Hy. rewrite <-(Hfh b0 (S i) y) by done. f_equal. lia.
  - by rewrite (bind_Err _ _ _ _ _ E), (bind_Err _ _ _ _ _ H0).
Qed.

Lemma due_account_other b l a f x : x ∉ fire_ids f → due_account b l a f !! x = a !! x.
Proof.
  unfold fire_ids, due_account. intros [H1 H2]%not_elem_of_cons.
  destruct (f_clone f) as [c|]; [apply not_elem_of_cons in H2 as [H2 _]|]; destruct b; repeat case_decide;
    rewrite ?lookup_insert_ne; done.
Qed.

Lemma due_account_size b l a f : (size (due_account b l a f) <= S (size a))%nat.
Proof.
  assert (∀ x st, size (<[x := st]> a) <= S (size a))%nat as H.
  { intros x st. rewrite map_size_insert. destruct (a !! x); simpl; lia. }
  unfold due_account. destruct (f_clone f) as [c|], b; repeat case_decide; first [apply H|lia].
Qed.

Lemma slot_frame q ids s s' a' x :
  turned q ids s s' a' → x ∉ ids → x ∈ (zst s' (Scheduled q)).*2 ↔ x ∈ (zst s (Scheduled q)).*2.
Proof.
  intros H Hx. rewrite !list_elem_of_fmap. split; intros ([n y] & -> & Hy); exists (n, y);
    (split; [done|]); by apply (tu_slots _ _ _ _ _ H).
Qed.

(** Later turns keep what a turn has done. *)
Lemma due_result_frame q b f h ids s s' a' :
  turned q ids s s' a' → (∀ x, x ∈ fire_ids f → x ∉ ids) →
  (∀ c, f_clone f = Some c → b = true → no_colon (ID (f_msg f)) = true ∧ no_colon (ID c) = true) →
  due_result q b f h s → due_result q b f h s'.
Proof.
  intros Ht Hd Hc. assert (ID (f_msg f) ∉ ids) as H1 by (apply Hd; unfold fire_ids; set_solver).
  unfold due_result. destruct (f_clone f) as [c|] eqn:E, b; try by rewrite (slot_frame q ids s s' a').
  assert (ID c ∉ ids) as H2 by (apply Hd; unfold fire_ids; rewrite E; set_solver).
  destruct (Hc c eq_refl eq_refl) as [N1 N2].
  intros (R1 & R2 & R3). split; [by apply (tu_slots _ _ _ _ _ Ht)|].
  split; [intros h'|]; rewrite (tu_hash _ _ _ _ _ Ht); auto.
Qed.

(** A turn does not change what the others start from. *)
Lemma due_result_before q b f ids s s1 s' a a1 :
  accounts_of q s a → turned q ids s s1 a1 → ID (f_msg f) ∉ ids →
  (b = true → repeatable q s a f) →
  due_result q b f (hsh s1 (Message (ID (f_msg f)))) s' →
  due_result q b f (hsh s (Message (ID (f_msg f)))) s'.
Proof.
  intros [Hm _] Ht Hn Hrep. unfold due_result. destruct (f_clone f) as [c|] eqn:E, b; try done.
  destruct (Hrep eq_refl c E) as (R1 & _). destruct (mo_status _ _ _ Hm _ _ R1) as (Hcol & _).
  by rewrite (tu_hash _ _ _ _ _ Ht).
Qed.

Section batch.
Context (q : Queue) (g ty : string) (Hq : wf_queue q) (Hg : no_colon g = true) (b : bool) (l : list string).

Lemma scheduled_loop_run fs : ∀ s a n,
  accounts_of q s a → Z.of_nat (size a + length fs) < 4611686018427387904 →
  group_exists q g s = b → NoDup (fs ≫= fire_ids) →
  (∀ f, f ∈ fs → fireable g ty f ∧ (b = true → repeatable q s a f) ∧
     (ID (f_msg f) ∈ l ↔ ID (f_msg f) ∈ (zst s (Scheduled q)).*2)) →
  ∃ s', loopM (scheduled_one q g ty) n fs s = (Ret (inr (n + due_total l fs)), s') ∧
        turned q (fs ≫= fire_ids) s s' (foldl (due_account b l) a fs) ∧
        (∀ f, f ∈ fs → due_result q b f (hsh s (Message (ID (f_msg f)))) s').
Proof using Hq Hg.
  induction fs as [|f fs IH]; intros s a n Ha Hsm Hb Hnd Hfs.
  { exists s. split; [by rewrite Z.add_0_r|]. split; [by apply turned_refl|]. intros f Hf. by apply elem_of_nil in Hf. }
  destruct (Hfs f ltac:(left)) as (Hfi & Hrep & Hl). cbn [length] in Hsm. rewrite bind_cons in Hnd.
  apply NoDup_app in Hnd as (_ & Hdis & Hnd).
  destruct (scheduled_one_run q g ty n f s a l Hq Hg Ha) as (s1 & Hr & Ht & Hres);
    [unfold small; lia|done|rewrite Hb; done|done|].
  rewrite Hb in Ht, Hres. pose proof (due_account_size b l a f) as Hsz.
  destruct (IH s1 (due_account b l a f) (n + due_count l f)) as (s2 & Hr2 & Ht2 & Hres2);
    [apply Ht|lia| |done| |].
  { rewrite <-Hb. unfold group_exists. by rewrite (proj1 (tu_queue _ _ _ _ _ Ht)). }
  { intros f' Hf'. destruct (Hfs f' ltac:(by right)) as (Hfi' & Hrep' & Hl').
    assert (∀ x, x ∈ fire_ids f' → x ∉ fire_ids f) as Hout.
    { intros x Hx Hx'. apply (Hdis x Hx'), list_elem_of_bind. by exists f'. }
    assert (ID (f_msg f') ∉ fire_ids f) as N1 by (apply Hout; left).
    split; [done|]. split.
    - intros Hbt c Hc. destruct (Hrep' Hbt c Hc) as (R1 & R2 & R3).
      assert (ID c ∉ fire_ids f) as N2 by (apply Hout; unfold fire_ids; rewrite Hc; right; left).
      rewrite !due_account_other by done. split_and!; [done|done|].
      by rewrite (publish_reply_same q s s1) by apply Ht.
    - by rewrite (slot_frame q (fire_ids f) s s1 _ _ Ht). }
  exists s2. split; [|split].
  - cbn [loopM]. erewrite bind_Ret; [|exact Hr]. cbv beta iota. rewrite Hr2. do 3 f_equal.
    unfold due_total. cbn [foldr]. lia.
  - rewrite bind_cons. eapply turned_trans; [exact Ht|exact Ht2].
  - intros f' [->|Hf']%elem_of_cons.
    + eapply (due_result_frame q b _ _ _ s1 s2); [exact Ht2|intros x Hx; by apply Hdis| |done].
      intros c Hc Hbt. destruct (fi_copy _ _ _ Hfi c Hc) as (_ & _ & _ & P & _).
      destruct (Hrep Hbt c Hc) as (R1 & _). split; [|apply (pb_id _ P)].
      by destruct (mo_status _ _ _ (proj1 Ha) _ _ R1) as (Hcol & _).
    + destruct (Hfs f' ltac:(by right)) as (_ & Hrep' & _).
      apply (due_result_before q b f' (fire_ids f) s s1 s2 a (due_account b l a f)); [done|done| |done|by apply Hres2].
      intros Hx. apply (Hdis _ Hx), list_elem_of_bind. exists f'. split; [left|done].
Qed.
End batch.

Lemma publish_scheduled_run q g ty fs s a :
  wf_queue q → no_colon g = true → accounts_of q s a →
  Z.of_nat (size a + length fs) < 4611686018427387904 →
  hsh s (Properties q) !! qkey Q_Type = Some ty → NoDup (fs ≫= fire_ids) →
  let b := group_exists q g s in
  let l := (zst s (Scheduled q)).*2 in
  (∀ f, f ∈ fs → fireable g ty f ∧ (refused s q = None → b = true → repeatable q s a f)) →
  ∃ n s', publish_scheduled (scheduled_keys q g fs) (scheduled_args g fs) s = (Ret (inr n), s') ∧
    match refused s q with
    | Some _ => s' = s ∧ n = 0
    | None => n = due_total l fs ∧ turned q (fs ≫= fire_ids) s s' (foldl (due_account b l) a fs) ∧
              ∀ f, f ∈ fs → due_result q b f (hsh s (Message (ID (f_msg f)))) s'
    end.
Proof.
  intros Hq Hg Ha Hsm Hty Hnd b l Hfs. pose proof (mo_wt _ _ _ (proj1 Ha)) as Hw. unfold publish_scheduled.
  assert (turns (scheduled_args g fs) 41 14 = seq 0 (length fs)) as Hturns.
  { apply (turns_length _ 41 14 fs (scheduled_entry g) buildScheduledArgs); [done|done|done|lia]. }
  change (arg (scheduled_keys q g fs) 1) with (Properties q).
  change (arg (scheduled_args g fs) 1) with (qkey Q_Type). change (arg (scheduled_args g fs) 9) with (qkey Q_OperationalState).
  run_cmd hmget_run. cbn [fmap list_fmap]. rewrite Hty. change (reply_at [Some ty; ?x] 1) with (Some ty).
  change (reply_at [?y; ?x] 2) with x. cbv beta iota.
  change (arg (scheduled_args g fs) 11) with (itoa StateActive). change (arg (scheduled_args g fs) 12) with (itoa StatePaused).
  change (arg (scheduled_args g fs) 13) with (itoa StateStopped). change (arg (scheduled_args g fs) 14) with (itoa StateLocked).
  fold (op_state s q) (refused s q). destruct (refused s q) as [reply|] eqn:Hopen; [by exists 0, s|].
  destruct (scheduled_loop_run q g ty Hq Hg b l fs s a 0 Ha Hsm eq_refl Hnd) as (s' & Hr & Ht & Hres).
  { intros f Hf. destruct (Hfs f Hf) as [H1 H2]. by split_and!; [|apply H2|]. }
  rewrite Z.add_0_l in Hr. exists (due_total l fs), s'. split; [|done]. rewrite Hturns, <-Hr.
  apply loopM_seq. intros n i f s0 Hi. by apply scheduled_turn_eq.
Qed.

(** ** The messages of a tick *)

Section fire_facts.
Context (gv : string → bool) (gn : string → Z → option Z) (defaults : ConsumeOptions).
Context (newID : string) (clock : Z) (m : Envelope).
Let f := fire gv gn defaults newID clock m.

Lemma NextScheduledTimestamp_same now now' t e e' :
  NextScheduledTimestamp gv gn now now' e = (t, e') →
  producibleMessage e' = producibleMessage e ∧ ID e' = ID e ∧ status e' = status e ∧
  destinationQueue e' = destinationQueue e ∧ consumerGroupID e' = consumerGroupID e.
Proof using.
  unfold NextScheduledTimestamp. destruct e as [pm [] st dq g].
  repeat first [case_decide|case_match]; by intros [= <- <-].
Qed.

(** The message that is sent is the message, up to its state. *)
Lemma fire_msg :
  producibleMessage (f_msg f) = producibleMessage m ∧ ID (f_msg f) = ID m ∧
  consumerGroupID (f_msg f) = consumerGroupID m.
Proof using.
  unfold f, fire. destruct (NextScheduledTimestamp gv gn clock clock m) as [t m'] eqn:E.
  apply NextScheduledTimestamp_same in E as (E1 & E2 & _ & _ & E5).
  destruct (_ && _); cbn [f_msg]; [|done]. destruct m' as [pm [] st dq g]. split_and!; [exact E1|exact E2|exact E5].
Qed.

(** Its copy. *)
Lemma fire_clone c :
  storable defaults m → no_colon newID = true → no_colon (consumerGroupID m) = true →
  f_clone f = Some c →
  let ts := UnixMilli clock in
  f_ts f = ts ∧ ID c = newID ∧ consumerGroupID c = consumerGroupID m ∧
  ScheduledAt (messageState c) = None ∧ publishable (copy c) ∧ priority_arg c = priority_arg m ∧
  env_ToParams c = env_ToParams (copied newID clock ts (ID m) "" m).
Proof using.
  intros [Hw Hr _ _ Hp _ _] Hn Hg. unfold f, fire.
  destruct (NextScheduledTimestamp gv gn clock clock m) as [t m'] eqn:E.
  apply NextScheduledTimestamp_same in E as (E1 & E2 & E3 & E4 & E5).
  destruct (bool_decide (0 < t) && IsPeriodic m'); [|done]. set (ts := UnixMilli clock). cbn [f_clone f_ts]. intros Hc%(inj Some). subst c.
  rewrite <-E1 in Hw, Hr. rewrite <-E5 in Hg.
  destruct (reset_clone_ok defaults newID clock m' Hw Hr) as (C1 & C2 & C3 & C4 & C5).
  pose proof (copied_params defaults newID clock ts (ID m) "" m' Hw Hr) as C6.
  set (rc := reset_clone defaults newID clock m') in *. clearbody rc.
  assert (m_priority (producibleMessage rc) = m_priority (producibleMessage m)) as Hpr.
  { rewrite C1, E1. by destruct (producibleMessage m). }
  rewrite <-E5. split_and!; [done|exact C2|exact C4|exact C5| | |].
  - split; [by rewrite <-C2 in Hn|by rewrite <-C4 in Hg| |by intros []].
    intros p Hpp. apply (ir_priority _ Hp). change (m_priority (producibleMessage rc) = Some p) in Hpp.
    by rewrite Hpr in Hpp.
  - unfold priority_arg. by rewrite <-Hpr.
  - etrans; [exact C6|]. unfold env_ToParams, copied. cbn. by rewrite E1, E4, E5.
Qed.
End fire_facts.

Section due_accounts.
Context (b : bool) (l : list string).

Lemma due_accounts_other fs x : ∀ a,
  x ∉ (fs ≫= fire_ids) → foldl (due_account b l) a fs !! x = a !! x.
Proof using.
  induction fs as [|f fs IH]; intros a Hx; [done|]. rewrite bind_cons in Hx.
  apply not_elem_of_app in Hx as [H1 H2]. cbn [foldl]. by rewrite IH, due_account_other.
Qed.

Lemma due_accounts_lookup fs f x : ∀ a,
  NoDup (fs ≫= fire_ids) → f ∈ fs → x ∈ fire_ids f →
  foldl (due_account b l) a fs !! x = due_account b l a f !! x.
Proof using.
  induction fs as [|f' fs IH]; intros a Hnd Hf Hx; [by apply elem_of_nil in Hf|]. rewrite bind_cons in Hnd.
  apply NoDup_app in Hnd as (_ & Hdis & Hnd). cbn [foldl]. apply elem_of_cons in Hf as [->|Hf].
  - apply due_accounts_other. by apply Hdis.
  - rewrite IH by done. assert (x ∉ fire_ids f') as Hx'.
    { intros Hx'. apply (Hdis x Hx'), list_elem_of_bind. by exists f. }
    pose proof (due_account_other b l a f' x Hx') as E. revert E. generalize (due_account b l a f').
    intros a' E. unfold due_account. destruct (f_clone f), b; repeat case_decide; try done;
      rewrite !lookup_insert; by case_decide.
Qed.

Lemma due_accounts_size fs : ∀ a, (size (foldl (due_account b l) a fs) <= size a + length fs)%nat.
Proof using.
  induction fs as [|f fs IH]; intros a; cbn [foldl length]; [lia|].
  specialize (IH (due_account b l a f)). pose proof (due_account_size b l a f). lia.
Qed.

(** A message that is being processed is no concern of a tick. *)
Lemma due_accounts_processing fs id : ∀ a,
  (∀ i, i ∈ l → a !! i ≠ Some StatusProcessing) → a !! id = Some StatusProcessing →
  (b = true → ∀ f c, f ∈ fs → f_clone f = Some c → a !! ID c = None) →
  foldl (due_account b l) a fs !! id = Some StatusProcessing.
Proof using.
  intros a Hl Hid Hnew. assert (∀ a', a' !! id = Some StatusProcessing →
    foldl (due_account b l) a' fs !! id = Some StatusProcessing) as H; [|by apply H].
  induction fs as [|f fs IH]; intros a' Ha'; [done|]. cbn [foldl].
  apply IH; [intros Hb f' c Hf'; apply Hnew; [done|by right]|].
  assert (ID (f_msg f) ∈ l → id ≠ ID (f_msg f)) as N1 by (intros Hi ->; by apply (Hl _ Hi)).
  assert (b = true → ∀ c, f_clone f = Some c → id ≠ ID c) as N2.
  { intros Hb c Hc ->. rewrite (Hnew Hb f c ltac:(left) Hc) in Hid. discriminate Hid. }
  unfold due_account. destruct (f_clone f) as [c|], b; repeat case_decide; rewrite ?lookup_insert_ne; auto;
    try (symmetry; auto).
Qed.
End due_accounts.

(** A queue that is not closed accepts a pending message of one of its groups,
    with a priority exactly in a priority queue. *)
Definition known_type (ty : string) : Prop :=
  ty = itoa TypePriority ∨ ty = itoa TypeLIFO ∨ ty = itoa TypeFIFO.

Lemma publish_reply_ok q s ty e :
  hsh s (Properties q) !! qkey Q_Type = Some ty → known_type ty → refused s q = None →
  group_exists q (consumerGroupID e) s = true → (priority_arg e ≠ "" ↔ ty = itoa TypePriority) →
  publish_reply (hsh s (Properties q)) (sts s (ConsumerGroups q)) e = "OK".
Proof.
  intros Hty Hk Hr Hg%bool_decide_eq_true Hp. unfold publish_reply. rewrite Hty. fold (op_state s q).
  unfold refused, state_check in Hr. destruct (decide (op_state s q = itoa StateStopped)); [done|].
  destruct (decide (op_state s q = itoa StateLocked)); [done|].
  destruct (decide (op_state s q = itoa StatePaused ∨ op_state s q = itoa StateActive)); [|done].
  rewrite (decide_False (P := op_state s q ≠ _ ∧ _)) by tauto.
  rewrite (decide_False (P := consumerGroupID e ≠ "" ∧ _)) by tauto.
  rewrite (decide_False (P := ty = itoa TypePriority ∧ _)) by tauto.
  rewrite (decide_False (P := ty ≠ itoa TypePriority ∧ priority_arg e ≠ _)) by tauto.
  unfold known_type in Hk. rewrite decide_False by tauto. done.
Qed.

(** A message of the batch: it can be stored, a repeating one is still scheduled,
    and it has a new identifier for its copy. *)
Record scheduled_message (defaults : ConsumeOptions) (g ty : string) (newID : string → string)
    (s : store) (q : Queue) (a : accounts) (m : Envelope) : Prop := {
  sm_storable : storable defaults m;
  sm_group : consumerGroupID m = g;
  sm_scheduled : IsPeriodic m = true → ID m ∈ (zst s (Scheduled q)).*2;
  sm_priority : priority_arg m ≠ "" ↔ ty = itoa TypePriority;
  sm_new : a !! newID (ID m) = None;
  sm_newID : newID (ID m) ≠ "" ∧ no_colon (newID (ID m)) = true
}.

Section tick.
Context (gv : string → bool) (gn : string → Z → option Z) (defaults : ConsumeOptions).
Context (q : Queue) (g ty : string) (clock : Z) (newID : string → string).
Let f (m : Envelope) : firing := fire gv gn defaults (newID (ID m)) clock m.

Lemma scheduled_fireable s a m :
  scheduled_message defaults g ty newID s q a m → no_colon g = true → known_type ty →
  in_int64 (f_next (f m)) → fireable g ty (f m).
Proof using.
  intros [S1 S2 S3 S4 S5 [S6 S7]] Hg Hty Hn. destruct (fire_msg gv gn defaults (newID (ID m)) clock m) as (M1 & M2 & M3).
  fold (f m) in M1, M2, M3. split.
  - split; [by rewrite M3, S2|]. intros N1 N2. rewrite M1.
    assert (ty = itoa TypePriority) as E by (destruct Hty as [?|[?|?]]; done).
    apply S4 in E. unfold priority_arg in E. destruct (m_priority (producibleMessage m)) as [p|] eqn:Ep; [|done].
    exists p. split; [done|]. by apply (ir_priority _ (sb_params _ _ S1)).
  - by rewrite M3.
  - done.
  - intros c Hc. rewrite <-S2 in Hg.
    destruct (fire_clone gv gn defaults (newID (ID m)) clock m c S1 S7 Hg Hc) as (_ & C1 & C2 & C3 & C4 & C5 & _).
    split_and!; [by rewrite C2| |done|done|by rewrite C1]. rewrite C5. unfold priority_arg. by rewrite M1.
Qed.

Lemma fire_repeats m : is_Some (f_clone (f m)) ↔ IsPeriodic m = true ∧ 0 < f_next (f m).
Proof using.
  unfold f, fire. destruct (NextScheduledTimestamp gv gn clock clock m) as [t m'] eqn:E.
  apply NextScheduledTimestamp_same in E as (E1 & _). unfold IsPeriodic. rewrite E1. fold (IsPeriodic m).
  destruct (bool_decide_reflect (0 < t)), (IsPeriodic m); cbn;
    first [split; [done|by eexists]|split; by intros []].
Qed.

Lemma scheduled_repeatable s a m :
  scheduled_message defaults g ty newID s q a m → no_colon g = true → known_type ty →
  accounts_of q s a → hsh s (Properties q) !! qkey Q_Type = Some ty → refused s q = None →
  group_exists q g s = true → repeatable q s a (f m).
Proof using.
  intros [S1 S2 S3 S4 S5 [S6 S7]] Hg Hk Ha Hty Hr Hb c Hc. rewrite <-S2 in Hg.
  destruct (fire_msg gv gn defaults (newID (ID m)) clock m) as (M1 & M2 & M3). fold (f m) in M1, M2, M3.
  destruct (fire_clone gv gn defaults (newID (ID m)) clock m c S1 S7 Hg Hc) as (_ & C1 & C2 & C3 & C4 & C5 & _).
  assert (IsPeriodic m = true) as Hper by (apply fire_repeats; fold (f m); by eexists).
  rewrite M2, C1. split_and!; [by apply (wo_scheduled _ _ _ (mo_waiting _ _ _ (proj1 Ha))), S3|done|].
  apply (publish_reply_ok q s ty); [done|done|done|by rewrite <-Hb, <-S2, <-C2|].
  change (priority_arg (copy c)) with (priority_arg c). by rewrite C5.
Qed.

Definition tick_ids (messages : list Envelope) : list string := messages ≫= λ m, [ID m; newID (ID m)].

Lemma fire_ids_tick messages s a :
  no_colon g = true → (∀ m, m ∈ messages → scheduled_message defaults g ty newID s q a m) →
  ((f <$> messages) ≫= fire_ids) `sublist_of` tick_ids messages.
Proof using.
  intros Hg. induction messages as [|m ms IH]; intros Hms; [done|].
  unfold tick_ids. rewrite fmap_cons, !bind_cons. apply sublist_app; [|apply IH; intros; apply Hms; by right].
  destruct (Hms m ltac:(left)) as [S1 S2 S3 S4 S5 [S6 S7]]. rewrite <-S2 in Hg.
  destruct (fire_msg gv gn defaults (newID (ID m)) clock m) as (_ & M2 & _). fold (f m) in M2.
  unfold fire_ids. rewrite M2. destruct (f_clone (f m)) as [c|] eqn:Hc; [|apply sublist_skip, sublist_nil_l].
  destruct (fire_clone gv gn defaults (newID (ID m)) clock m c S1 S7 Hg Hc) as (_ & C1 & _). by rewrite C1.
Qed.

(** The identifier for a copy that is not made is not touched. *)
Lemma tick_unused messages s a m :
  no_colon g = true → (∀ m, m ∈ messages → scheduled_message defaults g ty newID s q a m) →
  NoDup (tick_ids messages) → m ∈ messages → f_clone (f m) = None →
  newID (ID m) ∉ ((f <$> messages) ≫= fire_ids).
Proof using.
  intros Hg. induction messages as [|m0 ms IH]; intros Hms Hnd Hm Hc; [by apply elem_of_nil in Hm|].
  assert (∀ m, m ∈ ms → scheduled_message defaults g ty newID s q a m) as Hms' by (intros; apply Hms; by right).
  pose proof (fire_ids_tick ms s a Hg Hms') as Hsub.
  pose proof (fire_ids_tick [m0] s a Hg ltac:(intros x ->%list_elem_of_singleton; apply Hms; left)) as Hsub0.
  unfold tick_ids in Hnd. rewrite bind_cons in Hnd. fold (tick_ids ms) in Hnd. apply NoDup_app in Hnd as (N1 & N2 & N3).
  rewrite fmap_cons, bind_cons, not_elem_of_app. cbn [fmap list_fmap mbind list_bind] in Hsub0. rewrite app_nil_r in Hsub0.
  apply elem_of_cons in Hm as [->|Hm].
  - split.
    + destruct (fire_msg gv gn defaults (newID (ID m0)) clock m0) as (_ & M2 & _). fold (f m0) in M2.
      unfold fire_ids. rewrite Hc, M2, list_elem_of_singleton. apply NoDup_cons in N1 as [N1 _].
      intros E. apply N1. rewrite E. left.
    + intros Hin. apply (N2 (newID (ID m0))); [right; left|]. by eapply sublist_subseteq.
  - split; [|by apply IH]. intros Hin. apply (N2 (newID (ID m))); [by eapply sublist_subseteq in Hin|].
    apply list_elem_of_bind. exists m. split; [right; left|done].
Qed.

(** The copy reads back as the message without its schedule. *)
Lemma fired_copy_readable uuid uuid' now' s' m c :
  storable defaults m → no_colon (newID (ID m)) = true → no_colon (consumerGroupID m) = true → wt s' →
  0 < UnixMilli clock <= int64_max → f_clone (f m) = Some c →
  (∀ h, hsh s' (Message (ID c)) !! mkey h = Some (fired_value (f m) c h)) →
  load_message defaults uuid uuid' now' s' (newID (ID m)) =
    Some (reread now' (copied (newID (ID m)) clock (UnixMilli clock) (ID m) "" m)).
Proof using.
  intros Hs Hn Hg Hw Hts Hc Hh.
  destruct (fire_msg gv gn defaults (newID (ID m)) clock m) as (_ & M2 & _). fold (f m) in M2.
  destruct (fire_clone gv gn defaults (newID (ID m)) clock m c Hs Hn Hg Hc) as (C0 & C1 & _ & _ & _ & _ & C6).
  fold (f m) in C0. rewrite C1 in Hh. unfold load_message. rewrite hgetall_run by wt_view. rewrite decide_False.
  2: { intros E. specialize (Hh F_ID). by rewrite E, lookup_empty in Hh. }
  apply (copy_readable defaults uuid uuid' now' (newID (ID m)) clock (UnixMilli clock) (ID m) "" m c); try done.
  - unfold in_int64, int64_min. lia.
  - intros h. rewrite Hh. unfold fired_value, copy_value. by rewrite C0, C1, M2.
Qed.
End tick.

(** ** A whole tick *)

(** What has become of a message, from a keyspace [s] with accounts [a]: a repeating
    one, while its group exists, is scheduled again, with its schedule as it was
    sent, and its copy is pending; any other one, if it was still scheduled, has
    left the schedule, and is left alone otherwise. *)
Definition due_outcome gv gn (defaults : ConsumeOptions) (uuid uuid' : string) (now' : Z) (q : Queue)
    (clock : Z) (newID : string → string) (b : bool) (s : store) (a : accounts) (s' : store) (a' : accounts)
    (m : Envelope) : Prop :=
  let f := fire gv gn defaults (newID (ID m)) clock m in
  if decide (b = true ∧ IsPeriodic m = true ∧ 0 < f_next f) then
    a' !! ID m = Some StatusScheduled ∧ (f_next f, ID m) ∈ zst s' (Scheduled q) ∧
    hsh s' (Message (ID m)) = fired_hash f (hsh s (Message (ID m))) ∧
    a' !! newID (ID m) = Some StatusPending ∧
    load_message defaults uuid uuid' now' s' (newID (ID m)) =
      Some (reread now' (copied (newID (ID m)) clock (UnixMilli clock) (ID m) "" m))
  else
    a' !! ID m = (if decide (ID m ∈ (zst s (Scheduled q)).*2) then Some (due_status b) else a !! ID m) ∧
    (ID m ∉ (zst s' (Scheduled q)).*2) ∧ a' !! newID (ID m) = None.

Lemma enqueueScheduled_run gv gn defaults uuid uuid' now' q g ty clock newID messages s a :
  wf_queue q → no_colon g = true → accounts_of q s a →
  Z.of_nat (size a + length messages) < 4611686018427387904 →
  hsh s (Properties q) !! qkey Q_Type = Some ty → known_type ty →
  0 < UnixMilli clock <= int64_max → NoDup (tick_ids newID messages) →
  (∀ m, m ∈ messages → scheduled_message defaults g ty newID s q a m ∧
     in_int64 (f_next (fire gv gn defaults (newID (ID m)) clock m))) →
  let s' := enqueueScheduled gv gn defaults q clock newID messages g s in
  match refused s q with
  | Some _ => s' = s
  | None => ∃ a', turned q (tick_ids newID messages) s s' a' ∧
      (size a' <= size a + length messages)%nat ∧
      (∀ x, x ∉ tick_ids newID messages → a' !! x = a !! x) ∧
      ∀ m, m ∈ messages →
        due_outcome gv gn defaults uuid uuid' now' q clock newID (group_exists q g s) s a s' a' m
  end.
Proof.
  intros Hq Hg Ha Hsm Hty Hk Hts Hnd Hms s'. set (b := group_exists q g s). set (f m := fire gv gn defaults (newID (ID m)) clock m).
  set (fs := f <$> messages). set (l := (zst s (Scheduled q)).*2).
  pose proof (fire_ids_tick gv gn defaults q g ty clock newID messages s a Hg (λ m H, proj1 (Hms m H))) as Hsub.
  fold f fs in Hsub. assert (NoDup (fs ≫= fire_ids)) as Hnd' by (by eapply sublist_NoDup).
  destruct (publish_scheduled_run q g ty fs s a Hq Hg Ha) as (n & s1 & Hrun & Hres); [|done|done| |].
  { unfold fs. by rewrite length_fmap. }
  { intros x (m & -> & Hm)%list_elem_of_fmap. destruct (Hms m Hm) as [Hsm' Hn].
    split; [exact (scheduled_fireable gv gn defaults q g ty clock newID s a m Hsm' Hg Hk Hn)|].
    intros Hopen Hb. exact (scheduled_repeatable gv gn defaults q g ty clock newID s a m Hsm' Hg Hk Ha Hty Hopen Hb). }
  assert (s' = s1) as -> by (unfold s', enqueueScheduled; fold f fs; by rewrite Hrun).
  destruct (refused s q); [by destruct Hres|]. destruct Hres as (_ & Ht & Hdue). fold b l in Ht, Hdue.
  exists (foldl (due_account b l) a fs). split; [|split; [|split]].
  { eapply turned_weaken; [|exact Ht]. by apply sublist_subseteq. }
  { pose proof (due_accounts_size b l fs a) as H. unfold fs in H at 2. by rewrite length_fmap in H. }
  { intros x Hx. apply due_accounts_other. intros Hx'. apply Hx. by eapply sublist_subseteq. }
  intros m Hm. unfold due_outcome. cbv zeta. fold (f m). destruct (Hms m Hm) as [[S1 S2 S3 S4 S5 [S6 S7]] Hn].
  destruct (fire_msg gv gn defaults (newID (ID m)) clock m) as (_ & M2 & _). fold (f m) in M2.
  assert (f m ∈ fs) as Hf by by apply list_elem_of_fmap_2.
  pose proof (due_accounts_lookup b l fs (f m) (ID m) a Hnd' Hf ltac:(unfold fire_ids; rewrite M2; left)) as L1.
  pose proof (fire_repeats gv gn defaults clock newID m) as Hrep. fold (f m) in Hrep.
  specialize (Hdue _ Hf). unfold due_result in Hdue. unfold due_account in L1. rewrite M2 in L1, Hdue.
  destruct (f_clone (f m)) as [c|] eqn:Hc.
  - pose proof (proj1 (proj1 Hrep ltac:(by eexists))) as Hper. specialize (S3 Hper).
    pose proof (wo_scheduled _ _ _ (mo_waiting _ _ _ (proj1 Ha)) (ID m) S3) as Hst.
    assert (ID m ≠ newID (ID m)) as Hne by (intros E; rewrite <-E in S5; congruence).
    rewrite <-S2 in Hg. destruct (fire_clone gv gn defaults (newID (ID m)) clock m c S1 S7 Hg Hc) as (_ & C1 & _).
    pose proof (due_accounts_lookup b l fs (f m) (newID (ID m)) a Hnd' Hf
      ltac:(unfold fire_ids; rewrite Hc, C1; right; left)) as L2.
    unfold due_account in L2. rewrite Hc, M2 in L2. rewrite C1 in L1, L2.
    destruct b; [rewrite decide_True by (split; [done|apply Hrep; by eexists])|rewrite decide_False by (by intros [])].
    + rewrite lookup_insert_ne in L1 by done. rewrite lookup_insert_eq in L2. destruct Hdue as (D1 & D2 & D3).
      split_and!; [etrans; [exact L1|exact Hst]|exact D1|exact D3|exact L2|].
      by apply (fired_copy_readable gv gn defaults clock newID uuid uuid' now' s1 m c); try apply Ht.
    + rewrite decide_True in L1, L2 by done. rewrite decide_True by done. rewrite lookup_insert_eq in L1. rewrite lookup_insert_ne in L2 by done.
      split_and!; [exact L1|exact Hdue|etrans; [exact L2|exact S5]].
  - rewrite decide_False by (intros (_ & H); apply Hrep in H as [c H];
      discriminate (eq_trans (eq_sym H) Hc)).
    fold l. split_and!; [etrans; [exact L1|]; case_decide; [apply lookup_insert_eq|done]|exact Hdue|].
    rewrite due_accounts_other; [done|].
    apply (tick_unused gv gn defaults q g ty clock newID messages s a); [done| |done|done|done].
    intros m0 Hm0. by apply Hms.
Qed.

(** Later groups keep what was done with a message. *)
Lemma due_outcome_frame gv gn defaults uuid uuid' now' q clock newID b ids s0 a0 s s' a a' m :
  wf_queue q → wt s → no_colon (ID m) = true → no_colon (newID (ID m)) = true → turned q ids s s' a' →
  (∀ x, x ∉ ids → a' !! x = a !! x) → ID m ∉ ids → newID (ID m) ∉ ids →
  due_outcome gv gn defaults uuid uuid' now' q clock newID b s0 a0 s a m →
  due_outcome gv gn defaults uuid uuid' now' q clock newID b s0 a0 s' a' m.
Proof.
  intros Hq Hw Hn0 Hn Ht Hout N1 N2. pose proof (mo_wt _ _ _ (proj1 (tu_accounts _ _ _ _ _ Ht))) as Hw'.
  unfold due_outcome. rewrite !Hout by done.
  case_decide; [|by rewrite (slot_frame q ids s s' a')]. intros (O1 & O2 & O3 & O4 & O5). split_and!; [done| | |done|].
  - by apply (tu_slots _ _ _ _ _ Ht).
  - by rewrite (tu_hash _ _ _ _ _ Ht).
  - rewrite <-O5. unfold load_message. rewrite !hgetall_run by wt_view.
    by rewrite (tu_hash _ _ _ _ _ Ht).
Qed.

(** Earlier groups do not change what a later one starts from. *)
Lemma due_outcome_before gv gn defaults uuid uuid' now' q clock newID b ids s s1 a a1 s' a' m :
  no_colon (ID m) = true → turned q ids s s1 a1 → (∀ x, x ∉ ids → a1 !! x = a !! x) → ID m ∉ ids →
  due_outcome gv gn defaults uuid uuid' now' q clock newID b s1 a1 s' a' m →
  due_outcome gv gn defaults uuid uuid' now' q clock newID b s a s' a' m.
Proof.
  intros Hn Ht Hout N1. unfold due_outcome. rewrite (tu_hash _ _ _ _ _ Ht), Hout by done.
  case_decide; [done|]. intros (O1 & O2 & O3). split_and!; [|done|done]. rewrite O1.
  pose proof (slot_frame q ids s s1 a1 (ID m) Ht N1) as E.
  repeat case_decide; tauto.
Qed.

Lemma scheduled_message_frame defaults g ty newID q ids s s' a a' m :
  turned q ids s s' a' → (∀ x, x ∉ ids → a' !! x = a !! x) → ID m ∉ ids → newID (ID m) ∉ ids →
  scheduled_message defaults g ty newID s q a m → scheduled_message defaults g ty newID s' q a' m.
Proof.
  intros Ht Hout N1 N2 [S1 S2 S3 S4 S5 S6]. split; try done.
  - intros Hper. apply (slot_frame q ids s s' a'); auto.
  - by rewrite Hout.
Qed.

Lemma refused_same q s s' : same_queue q s s' → refused s' q = refused s q.
Proof. intros [_ H]. unfold refused, op_state. by rewrite H. Qed.

Section groups.
Context (gv : string → bool) (gn : string → Z → option Z) (defaults : ConsumeOptions).
Context (uuid uuid' : string) (now' : Z) (q : Queue) (ty : string) (clock : Z) (newID : string → string).
Context (Hq : wf_queue q) (Hk : known_type ty) (Hts : 0 < UnixMilli clock <= int64_max).

Definition run_groups (groups : list (string * list Envelope)) (s : store) : store :=
  foldl (λ s gm, enqueueScheduled gv gn defaults q clock newID gm.2 gm.1 s) s groups.
Definition group_ids (groups : list (string * list Envelope)) : list string :=
  groups ≫= λ gm, tick_ids newID gm.2.
Definition group_total (groups : list (string * list Envelope)) : nat :=
  length (groups ≫= λ gm, gm.2).

Definition group_ready (s : store) (a : accounts) (gm : string * list Envelope) : Prop :=
  no_colon gm.1 = true ∧
  ∀ m, m ∈ gm.2 → no_colon (ID m) = true ∧ scheduled_message defaults gm.1 ty newID s q a m ∧
    in_int64 (f_next (fire gv gn defaults (newID (ID m)) clock m)).

Lemma groups_run groups : ∀ s a,
  accounts_of q s a → Z.of_nat (size a + group_total groups) < 4611686018427387904 →
  hsh s (Properties q) !! qkey Q_Type = Some ty → refused s q = None →
  NoDup (group_ids groups) → (∀ gm, gm ∈ groups → group_ready s a gm) →
  ∃ a', turned q (group_ids groups) s (run_groups groups s) a' ∧
    (size a' <= size a + group_total groups)%nat ∧
    (∀ x, x ∉ group_ids groups → a' !! x = a !! x) ∧
    ∀ gm m, gm ∈ groups → m ∈ gm.2 →
      due_outcome gv gn defaults uuid uuid' now' q clock newID (group_exists q gm.1 s) s a
        (run_groups groups s) a' m.
Proof using Hq Hk Hts.
  induction groups as [|[g ms] groups IH]; intros s a Ha Hsm Hty Hopen Hnd Hrdy.
  { exists a. split_and!; [by apply turned_refl|lia|done|]. intros gm m Hgm. by apply elem_of_nil in Hgm. }
  unfold group_ids, group_total in *. rewrite bind_cons in Hnd. rewrite bind_cons in Hsm. rewrite !bind_cons.
  cbn [fst snd] in *.
  rewrite length_app in Hsm |- *. apply NoDup_app in Hnd as (Hnd1 & Hdis & Hnd2).
  destruct (Hrdy (g, ms) ltac:(left)) as [Hg Hms]. cbn [fst snd] in Hg, Hms.
  pose proof (enqueueScheduled_run gv gn defaults uuid uuid' now' q g ty clock newID ms s a Hq Hg Ha
    ltac:(lia) Hty Hk Hts Hnd1 (λ m Hm, proj2 (Hms m Hm))) as H.
  cbv zeta in H. rewrite Hopen in H. destruct H as (a1 & Ht1 & Hsz1 & Hout1 & Hdue1).
  set (s1 := enqueueScheduled gv gn defaults q clock newID ms g s) in *.
  pose proof (mo_wt _ _ _ (proj1 (tu_accounts _ _ _ _ _ Ht1))) as Hw1.
  assert (∀ gm m, gm ∈ groups → m ∈ gm.2 → (ID m ∉ tick_ids newID ms) ∧ newID (ID m) ∉ tick_ids newID ms) as Hapart.
  { intros gm m Hgm Hm. split; intros Hx; apply (Hdis _ Hx), list_elem_of_bind; exists gm; (split; [|done]);
      apply list_elem_of_bind; exists m; (split; [|done]); [left|right; left]. }
  destruct (IH s1 a1) as (a2 & Ht2 & Hsz2 & Hout2 & Hdue2); [apply Ht1|lia| | |done| |].
  { by rewrite (proj2 (tu_queue _ _ _ _ _ Ht1)). }
  { by rewrite (refused_same q s s1) by apply Ht1. }
  { intros gm Hgm. destruct (Hrdy gm ltac:(by right)) as [Hg' Hms']. split; [done|]. intros m Hm.
    destruct (Hms' m Hm) as (Hid & Hsm' & Hn). destruct (Hapart gm m Hgm Hm) as [N1 N2]. split_and!; [done| |done].
    by apply (scheduled_message_frame defaults _ ty newID q (tick_ids newID ms) s s1 a a1). }
  change (run_groups ((g, ms) :: groups) s) with (run_groups groups s1). exists a2. split_and!.
  - eapply turned_trans; [exact Ht1|exact Ht2].
  - lia.
  - intros x [X1 X2]%not_elem_of_app. by rewrite Hout2, Hout1.
  - intros gm m [->|Hgm]%elem_of_cons Hm.
    + destruct (Hms m Hm) as (Hid & S & _). cbn [fst snd] in *.
      apply (due_outcome_frame gv gn defaults uuid uuid' now' q clock newID _ (group_ids groups) _ _ s1 _ a1);
        [done|done|done|apply S|done|done| | |by apply Hdue1]; apply Hdis, list_elem_of_bind; exists m;
        (split; [|done]); [left|right; left].
    + specialize (Hdue2 gm m Hgm Hm). destruct (Hapart gm m Hgm Hm) as [N1 _].
      destruct (Hrdy gm ltac:(by right)) as [_ Hid]. destruct (Hid m Hm) as [Hid' _].
      unfold group_exists in Hdue2 |- *. rewrite (proj1 (tu_queue _ _ _ _ _ Ht1)) in Hdue2.
      by apply (due_outcome_before gv gn defaults uuid uuid' now' q clock newID _ (tick_ids newID ms) s s1 a a1).
Qed.

Lemma groups_refused groups s a :
  accounts_of q s a → Z.of_nat (size a + group_total groups) < 4611686018427387904 →
  hsh s (Properties q) !! qkey Q_Type = Some ty → refused s q ≠ None →
  NoDup (group_ids groups) → (∀ gm, gm ∈ groups → group_ready s a gm) → run_groups groups s = s.
Proof using Hq Hk Hts.
  intros Ha Hsm Hty Hno Hnd Hrdy. induction groups as [|[g ms] groups IH]; [done|].
  unfold group_ids, group_total in *. rewrite bind_cons in Hnd. rewrite bind_cons in Hsm. cbn [fst snd] in *.
  rewrite length_app in Hsm. apply NoDup_app in Hnd as (Hnd1 & _ & Hnd2).
  destruct (Hrdy (g, ms) ltac:(left)) as [Hg Hms].
  pose proof (enqueueScheduled_run gv gn defaults "" "" 0 q g ty clock newID ms s a Hq Hg Ha
    ltac:(lia) Hty Hk Hts Hnd1 (λ m Hm, proj2 (Hms m Hm))) as H.
  cbv zeta in H. destruct (refused s q); [|done]. unfold run_groups in *. cbn [foldl fst snd]. rewrite H.
  apply IH; [lia|done|]. intros gm Hgm. apply Hrdy. by right.
Qed.
End groups.

(** Grouping keeps the messages, each in the group of its name. *)
Lemma group_append_Permutation msg l :
  (group_append msg l ≫= λ gm, gm.2) ≡ₚ msg :: (l ≫= λ gm, gm.2).
Proof.
  induction l as [|[g ms] l IH]; [done|]. cbn [group_append]. case_decide.
  - rewrite !bind_cons. cbn [snd]. rewrite <-app_assoc. symmetry. apply Permutation_middle.
  - rewrite !bind_cons. cbn [snd]. rewrite IH. symmetry. apply Permutation_middle.
Qed.

Lemma group_messages_Permutation messages : (group_messages messages ≫= λ gm, gm.2) ≡ₚ messages.
Proof.
  unfold group_messages.
  assert (∀ l, (foldl (λ l msg, group_append msg l) l messages ≫= λ gm, gm.2) ≡ₚ messages ++ (l ≫= λ gm, gm.2))
    as H; [|by rewrite H, app_nil_r].
  induction messages as [|m ms IH]; intros l; [done|]. cbn [foldl].
  rewrite IH, group_append_Permutation. symmetry. apply Permutation_middle.
Qed.

Definition grouped (l : list (string * list Envelope)) : Prop :=
  ∀ gm, gm ∈ l → gm.2 ≠ [] ∧ ∀ m, m ∈ gm.2 → consumerGroupID m = gm.1.

Lemma group_append_grouped msg l : grouped l → grouped (group_append msg l).
Proof.
  induction l as [|[g ms] l IH]; intros Hl gm; cbn [group_append].
  - rewrite list_elem_of_singleton. intros ->. split; [done|]. cbn. by intros m ->%list_elem_of_singleton.
  - assert (grouped l) as Hl' by (intros x Hx; apply Hl; by right).
    destruct (Hl (g, ms) ltac:(left)) as [Hne Hg]. cbn [fst snd] in Hne, Hg.
    case_decide as E; intros [->|Hgm]%elem_of_cons; [|by apply Hl'|by split|by apply (IH Hl')]. cbn [fst snd].
    split; [by destruct ms|]. intros m [Hm|Hm%list_elem_of_singleton]%elem_of_app; [by apply Hg|by subst].
Qed.

Lemma group_messages_grouped messages : grouped (group_messages messages).
Proof.
  unfold group_messages. assert (grouped []) as H by (intros gm Hgm; by apply elem_of_nil in Hgm).
  revert H. generalize (@nil (string * list Envelope)).
  induction messages as [|m ms IH]; intros l Hl; [done|]. cbn [foldl]. by apply IH, group_append_grouped.
Qed.

Lemma group_ids_tick newID l : group_ids newID l = tick_ids newID (l ≫= λ gm, gm.2).
Proof.
  unfold group_ids, tick_ids. induction l as [|gm l IH]; [done|]. by rewrite !bind_cons, bind_app, IH.
Qed.

(** The messages a tick loads. *)
Definition due_batch (defaults : ConsumeOptions) (uuid uuid' : string) (clock : Z) (q : Queue) (s : store)
    : list Envelope :=
  omap (load_message defaults uuid uuid' clock s)
    (take 99 (filter (λ e : Z * string, 0 <= e.1 <= UnixMilli clock) (zst s (Scheduled q))).*2).

(** Nobody interferes. *)
Definition alone : request → store → store := λ _ s, s.

Lemma readDue_alone defaults uuid uuid' q clock s :
  wf_queue q → wt s →
  readDue defaults uuid uuid' alone q clock s = (due_batch defaults uuid uuid' clock q s, s).
Proof.
  intros Hq Hw. unfold readDue, alone, cmd_zrangebyscore. rewrite with_zset_run by wt_view. rewrite ret_run.
  unfold due_batch. generalize (take 99 (filter (λ e : Z * string, 0 <= e.1 <= UnixMilli clock)
    (zst s (Scheduled q))).*2). intros ids.
  induction ids as [|id ids IH]; [done|]. cbn [load_due omap list_omap]. rewrite IH.
  by destruct (load_message _ _ _ _ s id).
Qed.

Lemma group_calls_alone gv gn defaults q clock newID groups s :
  (group_calls gv gn defaults alone q clock newID groups s).2 = run_groups gv gn defaults q clock newID groups s.
Proof.
  revert s. induction groups as [|[g ms] groups IH]; intros s; [done|]. cbn [group_calls]. unfold alone at 1.
  specialize (IH (enqueueScheduled gv gn defaults q clock newID ms g s)).
  destruct (group_calls _ _ _ _ _ _ _ groups _) as [calls s']. cbn [snd] in *. rewrite IH. done.
Qed.

Lemma group_calls_groups gv gn defaults others q clock newID groups s :
  (group_calls gv gn defaults others q clock newID groups s).1.*1 = groups.
Proof.
  revert s. induction groups as [|[g ms] groups IH]; intros s; [done|]. cbn [group_calls].
  specialize (IH (enqueueScheduled gv gn defaults q clock newID ms g (others (ScriptRequest g) s))).
  destruct (group_calls _ _ _ _ _ _ _ groups _) as [calls s']. cbn [fst] in *.
  rewrite fmap_cons. by rewrite IH.
Qed.

(** C9: a tick of the scheduled publisher, with other clients at work between its
    requests.  The tick loads what it can of the first 99 due identifiers, and
    sends every message it loaded in exactly one script call, that of its group,
    in whatever order the groups are taken.  A call, on whatever keyspace it finds
    (exact counters, type known, the identifiers for copies new, and no repeating
    message of the call unscheduled since it was read), changes nothing when the
    queue is closed, and otherwise deals with each of its messages as read: a
    repeating one, while its group exists, stays scheduled for its next time with
    its new schedule stored, and a copy, which reads back as the message without
    its schedule and with the message as its parent, becomes pending; any other
    one that is still scheduled leaves the schedule for the pending messages, or
    is dead-lettered when its group is gone, and one that is not is left alone; no
    other message moves, and the counters are exact again.  A repeating message
    that was deleted since it was read is scheduled again all the same
    ([deleted_message_scheduled_again]). *)
Theorem publish_due_refines gv gn defaults uuid uuid' now' others order q clock newID s :
  (∀ l, order l ≡ₚ l) → wf_queue q → 0 < UnixMilli clock <= int64_max →
  let '(messages, s1) := readDue defaults uuid uuid' others q clock s in
  let calls := (group_calls gv gn defaults others q clock newID (order (group_messages messages)) s1).1 in
  (calls ≫= λ c, c.1.2) ≡ₚ messages ∧
  (∀ c m, c ∈ calls → m ∈ c.1.2 → consumerGroupID m = c.1.1) ∧
  ∀ g ms s0 a ty,
    (g, ms, s0) ∈ calls → no_colon g = true → accounts_of q s0 a →
    Z.of_nat (size a + length ms) < 4611686018427387904 →
    hsh s0 (Properties q) !! qkey Q_Type = Some ty → known_type ty → NoDup (tick_ids newID ms) →
    (∀ m, m ∈ ms → scheduled_message defaults g ty newID s0 q a m ∧
       in_int64 (f_next (fire gv gn defaults (newID (ID m)) clock m))) →
    let s' := enqueueScheduled gv gn defaults q clock newID ms g s0 in
    match refused s0 q with
    | Some _ => s' = s0
    | None => ∃ a', accounts_of q s' a' ∧ (∀ x, x ∉ tick_ids newID ms → a' !! x = a !! x) ∧
        ∀ m, m ∈ ms →
          due_outcome gv gn defaults uuid uuid' now' q clock newID (group_exists q g s0) s0 a s' a' m
    end.
Proof.
  intros Ho Hq Hts. destruct (readDue defaults uuid uuid' others q clock s) as [messages s1]. intros calls.
  assert (calls.*1 = order (group_messages messages)) as Hcalls by apply group_calls_groups.
  split_and!.
  - assert ((calls ≫= λ c, c.1.2) = calls.*1 ≫= λ gm, gm.2) as ->.
    { clear. induction calls as [|c calls IH]; [done|]. rewrite fmap_cons, !bind_cons. by rewrite IH. }
    rewrite Hcalls, (Ho (group_messages messages)). apply group_messages_Permutation.
  - intros c m Hc Hm. apply (group_messages_grouped messages c.1); [|done].
    rewrite <-(Ho (group_messages messages)), <-Hcalls. by apply list_elem_of_fmap_2.
  - intros g ms s0 a ty _ Hg Ha Hsm Hty Hk Hnd Hms s'.
    pose proof (enqueueScheduled_run gv gn defaults uuid uuid' now' q g ty clock newID ms s0 a
      Hq Hg Ha Hsm Hty Hk Hts Hnd Hms) as H.
    cbv zeta in H. fold s' in H. destruct (refused s0 q); [done|].
    destruct H as (a' & Ht & _ & Hout & Hdue). exists a'. split_and!; [apply Ht|done|done].
Qed.

(** A whole tick when nobody interferes: every message it loaded is dealt with, as
    in [publish_due_refines], and all groups together leave exact counters. *)
Theorem publish_due_alone gv gn defaults uuid uuid' now' order q ty clock newID s a :
  (∀ l, order l ≡ₚ l) → wf_queue q → accounts_of q s a →
  hsh s (Properties q) !! qkey Q_Type = Some ty → known_type ty → 0 < UnixMilli clock <= int64_max →
  let messages := due_batch defaults uuid uuid' clock q s in
  Z.of_nat (size a + length messages) < 4611686018427387904 →
  NoDup (tick_ids newID messages) →
  (∀ m, m ∈ messages → no_colon (consumerGroupID m) = true ∧ no_colon (ID m) = true ∧
     scheduled_message defaults (consumerGroupID m) ty newID s q a m ∧
     in_int64 (f_next (fire gv gn defaults (newID (ID m)) clock m))) →
  let s' := publishDue gv gn defaults uuid uuid' alone order q clock newID s in
  match refused s q with
  | Some _ => s' = s
  | None => ∃ a', accounts_of q s' a' ∧ (size a' <= size a + length messages)%nat ∧
      (∀ x, x ∉ tick_ids newID messages → a' !! x = a !! x) ∧
      ∀ m, m ∈ messages →
        due_outcome gv gn defaults uuid uuid' now' q clock newID
          (group_exists q (consumerGroupID m) s) s a s' a' m
  end.
Proof.
  intros Ho Hq Ha Hty Hk Hts messages Hsm Hnd Hms s'. pose proof (mo_wt _ _ _ (proj1 Ha)) as Hw.
  set (groups := order (group_messages messages)).
  assert ((groups ≫= λ gm, gm.2) ≡ₚ messages) as Hperm.
  { unfold groups. rewrite (Ho (group_messages messages)). apply group_messages_Permutation. }
  assert (s' = run_groups gv gn defaults q clock newID groups s) as ->.
  { unfold s', publishDue. rewrite readDue_alone by done. fold messages. rewrite <-group_calls_alone.
    unfold groups. destruct messages as [|m ms]; [|done].
    pose proof (Ho []) as E. apply Permutation_nil_r in E. unfold group_messages. cbn [foldl]. by rewrite E. }
  assert (group_ids newID groups ≡ₚ tick_ids newID messages) as Hids.
  { rewrite group_ids_tick. unfold tick_ids. by rewrite Hperm. }
  assert (group_total groups = length messages) as Htot by (unfold group_total; by rewrite Hperm).
  assert (∀ gm, gm ∈ groups → gm ∈ group_messages messages) as Hin by (intros gm; unfold groups; by rewrite (Ho _)).
  assert (∀ gm m, gm ∈ groups → m ∈ gm.2 → m ∈ messages ∧ consumerGroupID m = gm.1) as Hgr.
  { intros gm m Hgm Hm. split; [|by apply (group_messages_grouped messages gm (Hin _ Hgm))].
    rewrite <-Hperm. apply list_elem_of_bind. by exists gm. }
  assert (∀ gm, gm ∈ groups → group_ready gv gn defaults q ty clock newID s a gm) as Hrdy.
  { intros gm Hgm. destruct (group_messages_grouped messages gm (Hin _ Hgm)) as [Hne _]. split.
    - destruct (gm.2) as [|m0 ms] eqn:E; [done|].
      destruct (Hgr gm m0 Hgm ltac:(rewrite E; left)) as [H0 <-]. by apply Hms.
    - intros m Hm. destruct (Hgr _ m Hgm Hm) as [H1 <-]. by apply Hms. }
  rewrite <-Hids in Hnd. rewrite <-Htot in Hsm. clear Hin. destruct (refused s q) as [reply|] eqn:Hopen.
  { apply (groups_refused gv gn defaults q ty clock newID Hq Hk Hts groups s a); try done. by rewrite Hopen. }
  destruct (groups_run gv gn defaults uuid uuid' now' q ty clock newID Hq Hk Hts groups s a Ha Hsm Hty Hopen Hnd Hrdy)
    as (a' & Ht & Hsz & Hout & Hdue).
  exists a'. split_and!; [apply Ht|by rewrite <-Htot| |].
  - intros x Hx. apply Hout. by rewrite Hids.
  - intros m Hm. rewrite <-Hperm in Hm. apply list_elem_of_bind in Hm as (gm & Hm & Hgm).
    destruct (Hgr gm m Hgm Hm) as [_ ->]. by apply Hdue.
Qed.

(** ** Two scheduled messages

    One is to be delivered once, the other three times, a period apart. *)

Lemma after_publish_accounts e s a :
  accounts_of sample_queue s a → small a → publishable e → a !! ID e = None → ID e ≠ "" →
  status e = StatusPending ∨ status e = StatusScheduled →
  (publish_message (publish_keys sample_queue e) (BuildPublishArgs e) s).1 = Ret "OK" →
  accounts_of sample_queue (after_publish e s) (<[ID e := status e]> a).
Proof.
  intros Ha Hsm He Hnew Hid Hst Hok. unfold after_publish.
  rewrite publish_run in Hok |- *; try (apply Ha || exact sample_queue_wf || done);
    try (by eapply publish_counters_ok; [apply Ha|]).
  cbv zeta in Hok |- *. cbn [fst snd] in *. injection Hok as Hok. rewrite decide_True by done.
  apply publish_accounts; auto using sample_queue_wf.
Qed.

Definition scheduled_envelope (id : string) (m : ProducibleMessage) : Envelope :=
  SetStatus StatusScheduled (SetDestinationQueue (Some sample_params)
    (SetMessageState (SetScheduledAt 50 (NewMessageState id)) (NewEnvelope id m))).
Definition plain_message : ProducibleMessage :=
  SetQueue (Some sample_params) (New DefaultConsumeOptions 1000000).
Definition repeating_message : ProducibleMessage :=
  SetScheduledRepeat 3 (SetScheduledRepeatPeriod (10000 * millisecond) plain_message).

Definition schedule_1 : store :=
  after_publish (scheduled_envelope "m2" repeating_message)
    (after_publish (scheduled_envelope "m1" plain_message) (typed_store TypeFIFO)).

Lemma schedule_1_accounts :
  accounts_of sample_queue schedule_1 {["m2" := StatusScheduled; "m1" := StatusScheduled]}.
Proof.
  unfold schedule_1.
  assert (∀ id m, no_colon id = true → m = plain_message ∨ m = repeating_message →
    publishable (scheduled_envelope id m)) as Hp.
  { intros id m Hid [->| ->]; (split; [exact Hid|reflexivity|intros p H; vm_compute in H; discriminate H|]);
      intros _; exists 50; (split; [reflexivity|vm_compute; split; discriminate]). }
  apply (after_publish_accounts (scheduled_envelope "m2" repeating_message)).
  - apply (after_publish_accounts (scheduled_envelope "m1" plain_message) _ ∅);
      [apply typed_store_accounts|vm_compute; reflexivity|by apply Hp; [|left]|reflexivity|discriminate|by right|].
    vm_compute. reflexivity.
  - vm_compute. reflexivity.
  - by apply Hp; [|right].
  - vm_compute. reflexivity.
  - discriminate.
  - by right.
  - vm_compute. reflexivity.
Qed.

#[global] Instance canonical_ts_dec o : Decision (canonical_ts o).
Proof. destruct o; cbn; apply _. Defined.

(** Storability of a concrete message. *)
Ltac storable_some :=
  intros ? H; vm_compute in H;
  first [discriminate H|injection H as <-; apply (bool_decide_unpack _); vm_compute; exact I].
Ltac solve_storable :=
  split;
  [ split; try storable_some; vm_compute; first [discriminate|reflexivity|auto]
  | split; [storable_some|vm_compute; auto]
  | split; try storable_some; vm_compute; reflexivity
  | split; apply (bool_decide_unpack _); vm_compute; exact I
  | split; try storable_some; apply (bool_decide_unpack _); vm_compute; exact I
  | apply (bool_decide_unpack _); vm_compute; exact I
  | left; reflexivity ].

Definition copy_id (id : string) : string := id +:+ "-copy".
Definition read_1 (m : string * ProducibleMessage) : Envelope := reread 60000000 (scheduled_envelope m.1 m.2).

Lemma schedule_1_batch :
  due_batch DefaultConsumeOptions "u" "v" 60000000 sample_queue schedule_1 =
  [read_1 ("m1", plain_message); read_1 ("m2", repeating_message)].
Proof. vm_compute. reflexivity. Qed.

Lemma read_1_ready m :
  m = ("m1", plain_message) ∨ m = ("m2", repeating_message) →
  scheduled_message DefaultConsumeOptions "" (itoa TypeFIFO) copy_id schedule_1 sample_queue
    {["m2" := StatusScheduled; "m1" := StatusScheduled]} (read_1 m).
Proof.
  intros [->| ->]; (split; [solve_storable|reflexivity|intros _; apply (bool_decide_unpack _); vm_compute; exact I| |
                            vm_compute; reflexivity|split; [vm_compute; discriminate|vm_compute; reflexivity]]);
    (split; [intros H; exfalso; apply H; vm_compute; reflexivity|intros H; vm_compute in H; discriminate H]).
Qed.

Lemma schedule_1_ready m :
  m ∈ [read_1 ("m1", plain_message); read_1 ("m2", repeating_message)] →
  no_colon (consumerGroupID m) = true ∧ no_colon (ID m) = true ∧ consumerGroupID m = "" ∧
  scheduled_message DefaultConsumeOptions "" (itoa TypeFIFO) copy_id schedule_1 sample_queue
    {["m2" := StatusScheduled; "m1" := StatusScheduled]} m ∧
  in_int64 (f_next (fire (λ _, true) (λ _ _, None) DefaultConsumeOptions (copy_id (ID m)) 60000000 m)).
Proof.
  rewrite !elem_of_cons, elem_of_nil. intros [->|[->|[]]];
    (do 3 (split; [reflexivity|]); split; [apply read_1_ready; auto|vm_compute; split; discriminate]).
Qed.

Lemma publish_due_refines_witness :
  let s' := enqueueScheduled (λ _, true) (λ _ _, None) DefaultConsumeOptions sample_queue 60000000 copy_id
              [read_1 ("m1", plain_message); read_1 ("m2", repeating_message)] "" schedule_1 in
  ∃ a', accounts_of sample_queue s' a' ∧
    a' !! "m1" = Some StatusPending ∧ a' !! "m2" = Some StatusScheduled ∧
    a' !! "m2-copy" = Some StatusPending ∧ (60, "m2") ∈ zst s' (Scheduled sample_queue).
Proof.
  pose proof (publish_due_refines (λ _, true) (λ _ _, None) DefaultConsumeOptions "u" "v" 70000000 alone reverse
    sample_queue 60000000 copy_id schedule_1 reverse_Permutation sample_queue_wf
    ltac:(vm_compute; split; [reflexivity|discriminate])) as H.
  rewrite readDue_alone in H by (exact sample_queue_wf || apply schedule_1_accounts).
  rewrite schedule_1_batch in H. cbv zeta in H. destruct H as (_ & _ & H).
  specialize (H "" [read_1 ("m1", plain_message); read_1 ("m2", repeating_message)] schedule_1 _ (itoa TypeFIFO)
    ltac:(left) eq_refl schedule_1_accounts eq_refl).
  assert (refused schedule_1 sample_queue = None) as Hr by (vm_compute; reflexivity). rewrite Hr in H. clear Hr.
  destruct H as (a' & Ha & _ & Hm).
  - vm_compute. reflexivity.
  - right. right. reflexivity.
  - apply (bool_decide_unpack _). vm_compute. exact I.
  - intros m Hin. by destruct (schedule_1_ready m Hin) as (_ & _ & _ & H).
  - exists a'. split; [exact Ha|].
    pose proof (Hm (read_1 ("m1", plain_message)) ltac:(left)) as H1.
    pose proof (Hm (read_1 ("m2", repeating_message)) ltac:(right; left)) as H2. unfold due_outcome in H1, H2.
    rewrite decide_False in H1 by (intros (_ & H & _); vm_compute in H; discriminate H).
    rewrite decide_True in H1 by (apply (bool_decide_unpack _); vm_compute; exact I).
    rewrite decide_True in H2 by (split_and!; vm_compute; reflexivity).
    destruct H1 as (H1 & _). destruct H2 as (H2 & H3 & _ & H4 & _).
    split_and!; [exact H1|exact H2|exact H4|exact H3].
Defined.

Lemma publish_due_alone_witness :
  let s' := publishDue (λ _, true) (λ _ _, None) DefaultConsumeOptions "u" "v" alone reverse sample_queue
              60000000 copy_id schedule_1 in
  ∃ a', accounts_of sample_queue s' a' ∧ (size a' <= 4)%nat.
Proof.
  pose proof (publish_due_alone (λ _, true) (λ _ _, None) DefaultConsumeOptions "u" "v" 70000000 reverse
    sample_queue (itoa TypeFIFO) 60000000 copy_id schedule_1 _ reverse_Permutation sample_queue_wf
    schedule_1_accounts) as H.
  rewrite schedule_1_batch in H. cbv zeta in H |- *.
  assert (refused schedule_1 sample_queue = None) as Hr by (vm_compute; reflexivity). rewrite Hr in H. clear Hr.
  destruct H as (a' & Ha & Hsz & _).
  - vm_compute. reflexivity.
  - right. right. reflexivity.
  - vm_compute. split; [reflexivity|discriminate].
  - vm_compute. reflexivity.
  - apply (bool_decide_unpack _). vm_compute. exact I.
  - intros m Hin. destruct (schedule_1_ready m Hin) as (H1 & H2 & H3 & H4 & H5). rewrite H3. auto.
  - exists a'. split; [exact Ha|exact Hsz].
Defined.

(** ** Repeat schedules end *)

(** A message scheduled by a repeat limit and a period alone. *)
Record repeats_only (m : Envelope) (period : Z) : Prop := {
  ro_cron : m_scheduledCron (producibleMessage m) = "";
  ro_delay : m_scheduledDelay (producibleMessage m) = None;
  ro_pending : st_effectiveScheduledDelay (messageState m) = 0;
  ro_period : m_scheduledRepeatPeriod (producibleMessage m) = Some period;
  ro_limit : 0 < m_scheduledRepeat (producibleMessage m) <= int64_max;
  ro_count : 0 <= st_scheduledRepeatCount (messageState m);
  ro_positive : 0 <= Milliseconds period
}.

(** How often it is still to be copied. *)
Definition remaining (m : Envelope) : Z :=
  Z.max 0 (m_scheduledRepeat (producibleMessage m) - st_scheduledRepeatCount (messageState m)).

Section repeats.
Context (gv : string → bool) (gn : string → Z → option Z) (defaults : ConsumeOptions).
Context (clock : Z) (m : Envelope) (period : Z) (Hro : repeats_only m period).
Context (Hts : 0 < UnixMilli clock) (Hmax : UnixMilli clock + Milliseconds period <= int64_max).
Let count := st_scheduledRepeatCount (messageState m).
Let limit := m_scheduledRepeat (producibleMessage m).

(** When the next delivery is. *)
Definition repeat_at : Z :=
  if decide (0 < count) then UnixMilli clock + Milliseconds period else UnixMilli clock.

Lemma repeats_fire newID :
  let f := fire gv gn defaults newID clock m in
  IsPeriodic m = true ∧
  (count < limit → f_next f = repeat_at ∧ 0 < f_next f ∧
     st_scheduledRepeatCount (messageState (f_msg f)) = count + 1 ∧
     st_effectiveScheduledDelay (messageState (f_msg f)) = 0) ∧
  (limit <= count → f_next f = 0).
Proof using Hro Hts Hmax.
  destruct Hro as [R1 R2 R3 R4 R5 R6 R7].
  assert (IsPeriodic m = true) as Hper.
  { unfold IsPeriodic. rewrite (bool_decide_eq_true_2 (0 < _)) by lia. by rewrite orb_true_r. }
  unfold fire. rewrite (repeat_step gv gn clock clock m count period) by done. fold count limit repeat_at.
  assert (0 < repeat_at) as Hat by (unfold repeat_at; case_decide; lia).
  split_and!; [done| |]; intros Hc.
  - rewrite (decide_True (P := count < limit)) by done. rewrite (bool_decide_eq_true_2 (0 < repeat_at)) by done.
    change (IsPeriodic (with_repeat_count (count + 1) m)) with (IsPeriodic m). rewrite Hper. cbn [andb].
    cbn [f_next f_msg]. split_and!; [done|done|reflexivity|exact R3].
  - rewrite (decide_False (P := count < limit)) by lia. done.
Qed.
End repeats.

Lemma fired_hash_lookup f h :
  fired_hash f h !! mkey F_Message = h !! mkey F_Message ∧ fired_hash f h !! mkey F_ID = h !! mkey F_ID ∧
  fired_hash f h !! mkey F_ScheduledRepeatCount = Some (itoa (st_scheduledRepeatCount (messageState (f_msg f)))) ∧
  fired_hash f h !! mkey F_EffectiveScheduledDelay = Some (itoa (st_effectiveScheduledDelay (messageState (f_msg f)))).
Proof.
  unfold fired_hash, hset_all, scheduled_fields. cbn [foldl fst snd].
  split_and!; [by rewrite !lookup_insert_ne by done|by rewrite !lookup_insert_ne by done| |].
  - rewrite lookup_insert_ne by done. apply lookup_insert_eq.
  - apply lookup_insert_eq.
Qed.

(** Reading a fired message again. *)
Lemma repeats_reload defaults uuid uuid' now now' s s' m f period :
  wt s → wt s' → no_colon (ID m) = true → load_message defaults uuid uuid' now s (ID m) = Some m →
  repeats_only m period → hsh s' (Message (ID m)) = fired_hash f (hsh s (Message (ID m))) →
  st_scheduledRepeatCount (messageState (f_msg f)) = st_scheduledRepeatCount (messageState m) + 1 →
  st_effectiveScheduledDelay (messageState (f_msg f)) = 0 → 0 < remaining m →
  ∃ m', load_message defaults uuid uuid' now' s' (ID m) = Some m' ∧ ID m' = ID m ∧
    repeats_only m' period ∧ remaining m' = remaining m - 1.
Proof.
  intros Hw Hw' Hid Hload Hro Hh Hc Hd Hr. destruct (fired_hash_lookup f (hsh s (Message (ID m)))) as (F1 & F2 & F3 & F4).
  rewrite <-Hh in F1, F2, F3, F4. unfold load_message in *. rewrite hgetall_run in Hload |- * by wt_view.
  destruct (decide (hsh s (Message (ID m)) = ∅)); [done|].
  rewrite decide_False by (intros E; by rewrite E, lookup_empty in F3).
  destruct Hro as [R1 R2 R3 R4 R5 R6 R7]. unfold remaining in *.
  destruct (DecodeEnvelope_schedule defaults uuid uuid' now now' _ _ m Hload R2 F1 F2 ltac:(rewrite F3; by eexists))
    as (m' & Hm' & E1 & E2 & _ & _ & E5 & E6).
  unfold int_field in E5, E6. rewrite F3 in E5. rewrite F4 in E6. rewrite Hc in E5. rewrite Hd in E6.
  rewrite ParseInt_itoa in E5 by (unfold in_int64, int64_min; lia). rewrite ParseInt_itoa in E6 by done.
  cbn [fst] in E5, E6.
  assert (m_scheduledRepeat (producibleMessage m') = m_scheduledRepeat (producibleMessage m)) as E7 by (by rewrite E2).
  exists m'. split; [done|]. split; [done|]. split; [|rewrite E7, E5; lia].
  split; first [by rewrite E2|by rewrite E7|done|rewrite E5; lia].
Qed.

(** C40: a repeat schedule ends.  Dispatching a message with a repeat limit, a
    period and neither a CRON expression nor a delay schedules it at once and
    counts one of its deliveries.  When a tick fires it, unchanged since it was
    read, on an open queue that has its group, the number of copies still to make
    ([remaining]) decides: while it is positive, the message stays scheduled, one
    period later (at once when nothing was counted yet), exactly one copy becomes
    pending, and reading the message again gives the same schedule with one less
    remaining; when it is 0, the message itself becomes pending, no copy is made
    and nothing is scheduled any more.  So a limit of [n] gives [n] deliveries in
    all, the first one included. *)
Theorem repeat_schedule_terminates gv gn defaults uuid uuid' now' q g ty clock newID s a m period :
  wf_queue q → no_colon g = true → accounts_of q s a → Z.of_nat (size a + 1) < 4611686018427387904 →
  hsh s (Properties q) !! qkey Q_Type = Some ty → known_type ty → refused s q = None →
  group_exists q g s = true → scheduled_message defaults g ty newID s q a m → ID m ≠ newID (ID m) →
  load_message defaults uuid uuid' clock s (ID m) = Some m → no_colon (ID m) = true →
  repeats_only m period → 0 < UnixMilli clock → UnixMilli clock + Milliseconds period <= int64_max →
  let s' := enqueueScheduled gv gn defaults q clock newID [m] g s in
  (∀ e dq, repeats_only e period → st_scheduledRepeatCount (messageState e) = 0 →
     ∃ e', dispatch_prepare gv gn clock clock clock e dq = (true, e') ∧
       ScheduledAt (messageState e') = Some (UnixMilli clock) ∧
       remaining e' = m_scheduledRepeat (producibleMessage e) - 1) ∧
  ∃ a', accounts_of q s' a' ∧ (∀ x, x ≠ ID m → x ≠ newID (ID m) → a' !! x = a !! x) ∧
  if decide (0 < remaining m) then
    (repeat_at clock m period, ID m) ∈ zst s' (Scheduled q) ∧ a' !! ID m = Some StatusScheduled ∧
    a' !! newID (ID m) = Some StatusPending ∧
    ∃ m', load_message defaults uuid uuid' now' s' (ID m) = Some m' ∧ ID m' = ID m ∧
      repeats_only m' period ∧ remaining m' = remaining m - 1
  else
    a' !! ID m = Some StatusPending ∧ (ID m ∉ (zst s' (Scheduled q)).*2) ∧ a' !! newID (ID m) = None.
Proof.
  intros Hq Hg Ha Hsm Hty Hk Hopen Hgr Hready Hne Hload Hid Hro Hts Hmax s'. split.
  - intros e dq He H0. destruct He as [R1 R2 R3 R4 R5 R6 R7]. unfold dispatch_prepare.
    rewrite (repeat_step gv gn clock clock (SetDestinationQueue (Some dq) e) 0 period)
      by (first [done|by destruct e as [? [] ? ? ?]]).
    change (m_scheduledRepeat (producibleMessage (SetDestinationQueue (Some dq) e)))
      with (m_scheduledRepeat (producibleMessage e)).
    rewrite (decide_True (P := 0 < m_scheduledRepeat _)) by lia. rewrite (decide_False (P := 0 < 0)) by lia.
    rewrite decide_True by done. eexists. split; [reflexivity|].
    assert (Z.max 0 (m_scheduledRepeat (producibleMessage e) - (0 + 1)) = m_scheduledRepeat (producibleMessage e) - 1)
      as E by lia.
    split; [exact (f_equal Some (Z.div_mul (UnixMilli clock) millisecond ltac:(done)))|exact E].
  - pose proof (mo_wt _ _ _ (proj1 Ha)) as Hw.
    destruct (repeats_fire gv gn defaults clock m period Hro Hts Hmax (newID (ID m))) as (Hper & Hmore & Hlast).
    set (f := fire gv gn defaults (newID (ID m)) clock m) in *.
    set (count := st_scheduledRepeatCount (messageState m)) in *.
    set (limit := m_scheduledRepeat (producibleMessage m)) in *.
    assert (in_int64 (f_next f)) as Hn.
    { destruct (decide (count < limit)) as [Hc|Hc].
      - destruct (Hmore Hc) as (-> & _). unfold repeat_at, in_int64, int64_min. destruct Hro. case_decide; lia.
      - rewrite Hlast by lia. done. }
    assert (UnixMilli clock <= int64_max) as Hts' by (destruct Hro; lia).
    pose proof (enqueueScheduled_run gv gn defaults uuid uuid' now' q g ty clock newID [m] s a Hq Hg Ha
      ltac:(cbn [length]; lia) Hty Hk ltac:(lia)) as H.
    cbv zeta in H. rewrite Hopen in H. destruct H as (a' & Ht & _ & Hout & Hdue).
    { unfold tick_ids. cbn. apply NoDup_cons. split; [set_solver|]. apply NoDup_singleton. }
    { intros x ->%list_elem_of_singleton. by split. }
    fold s' in Ht, Hdue. exists a'. split; [apply Ht|]. split.
    { intros x N1 N2. apply Hout. unfold tick_ids. cbn. set_solver. }
    specialize (Hdue m ltac:(left)). unfold due_outcome in Hdue. cbv zeta in Hdue. fold f in Hdue.
    assert (0 < remaining m ↔ count < limit) as Hrem by (unfold remaining; fold count limit; lia).
    destruct (decide (0 < remaining m)) as [Hr|Hr].
    + destruct (Hmore (proj1 Hrem Hr)) as (M1 & M2 & M3 & M4). rewrite decide_True in Hdue by done.
      destruct Hdue as (D1 & D2 & D3 & D4 & _). rewrite <-M1. split_and!; [done|done|done|].
      apply (repeats_reload defaults uuid uuid' clock now' s s' m f period); try done. apply Ht.
    + rewrite decide_False in Hdue by (rewrite Hlast by lia; intros (_ & _ & ?); lia).
      rewrite decide_True in Hdue by (by apply Hready). rewrite Hgr in Hdue. exact Hdue.
Qed.

Lemma repeat_schedule_terminates_witness :
  let m := read_1 ("m2", repeating_message) in
  let s' := enqueueScheduled (λ _, true) (λ _ _, None) DefaultConsumeOptions sample_queue 60000000 copy_id [m]
              "" schedule_1 in
  remaining m = 3 ∧
  ∃ m', load_message DefaultConsumeOptions "u" "v" 70000000 s' "m2" = Some m' ∧ remaining m' = 2.
Proof.
  destruct (schedule_1_ready (read_1 ("m2", repeating_message)) ltac:(right; left)) as (_ & _ & _ & Hsm & _).
  destruct (repeat_schedule_terminates (λ _, true) (λ _ _, None) DefaultConsumeOptions "u" "v" 70000000
    sample_queue "" (itoa TypeFIFO) 60000000 copy_id schedule_1 _ (read_1 ("m2", repeating_message))
    (10000 * millisecond) sample_queue_wf eq_refl schedule_1_accounts) as (_ & a' & _ & _ & H);
    [vm_compute; reflexivity|vm_compute; reflexivity|right; right; reflexivity|vm_compute; reflexivity
    |vm_compute; reflexivity|exact Hsm|vm_compute; discriminate|vm_compute; reflexivity|reflexivity| |
    vm_compute; reflexivity|vm_compute; discriminate|].
  - split; try (vm_compute; reflexivity); vm_compute; [split; [reflexivity|discriminate]|discriminate|discriminate].
  - rewrite decide_True in H by (vm_compute; reflexivity). destruct H as (_ & _ & _ & m' & H1 & _ & _ & H2).
    split; [vm_compute; reflexivity|]. exists m'. split; [exact H1|]. rewrite H2. vm_compute. reflexivity.
Defined.

(** A repeating message that is deleted after the publisher has read it and
    before its script runs comes back: the script schedules it again without
    looking whether it is still there, leaves a hash with no message in it, and
    publishes a copy.  The scheduled set then holds one more message than its
    counter says, and no tick can load, fire or remove it. *)
Theorem deleted_message_scheduled_again :
  let m := read_1 ("m2", repeating_message) in
  let s := (delete_message (del_keys sample_queue "" ["m2"]) (del_args "" ["m2"]) schedule_1).2 in
  let s' := enqueueScheduled (λ _, true) (λ _ _, None) DefaultConsumeOptions sample_queue 60000000
              copy_id [m] "" s in
  m ∈ due_batch DefaultConsumeOptions "u" "v" 60000000 sample_queue schedule_1 ∧
  db s !! Message "m2" = None ∧ (zst s (Scheduled sample_queue)).*2 = ["m1"] ∧
  (zst s' (Scheduled sample_queue)).*2 = ["m1"; "m2"] ∧
  counter s' sample_queue Q_ScheduledMessagesCount = 1 ∧
  lst s' (Published sample_queue) = ["m1"; "m2-copy"] ∧ lst s' (Pending sample_queue) = ["m2-copy"] ∧
  is_Some (db s' !! Message "m2") ∧ load_message DefaultConsumeOptions "u" "v" 70000000 s' "m2" = None.
Proof.
  cbv zeta. split; [rewrite schedule_1_batch; right; left|].
  split_and!; try (vm_compute; reflexivity). apply (bool_decide_unpack _). vm_compute. exact I.
Qed.
