(* ===== verification/Lifecycle.v ===== *)
(** * The life of a queue's messages

    A queue as a transition system: producers publish, consumers pop, check
    out, acknowledge and unacknowledge, the requeuers retry, the scheduled
    publisher fires, and messages are deleted and requeued by hand, in any
    interleaving (each script is atomic, a pop and the checkout that follows it
    are two steps), and everything else that happens in the keyspace leaves the
    queue's messages and counters alone.  A consumer can acknowledge and
    unacknowledge messages it has not checked out (the recovery of a processing
    list takes everything in it), and the publisher can fire a repeating message
    that was deleted since it was read; the system notes when that has happened.
    The theorems show that the accounts hold in every keyspace reached without
    it, and that they do not with it. *)

From S2P Require Import Prelude Keys Redis RedisFacts Types Keyspace Json Message MessageCodec.
From S2P Require Import Publish Consume Accounts Accounting Retry Delivery Copy Manage Schedule.
#[local] Open Scope Z_scope.

(** ** The transition system *)

(** [held]: the messages that are out, each with the consumer that checked it
    out and has neither acknowledged nor unacknowledged it yet.  [orderly]: so far
    only messages in the hands of their consumer were acknowledged and
    unacknowledged, and repeating messages only fired while they were scheduled. *)
Record system := System { keyspace : store; held : gmap string string; orderly : bool }.

Definition drop_held (ids : list string) (h : gmap string string) : gmap string string :=
  foldr (λ id h, delete id h) h ids.

(** [s'] differs from [s] in nothing the accounts of [q] depend on. *)
Definition unrelated (q : Queue) (s s' : store) : Prop :=
  wt s' ∧ lst s' (Published q) = lst s (Published q) ∧
  (lst s' (Requeued q) = lst s (Requeued q) ∧ zst s' (Delayed q) = zst s (Delayed q) ∧
   zst s' (Scheduled q) = zst s (Scheduled q)) ∧
  (∀ id, id ∈ lst s (Published q) → no_colon id = true →
     hsh s' (Message id) !! mkey F_Status = hsh s (Message id) !! mkey F_Status) ∧
  (∀ f, is_counter f = true →
     counter_text (hsh s' (Properties q)) f = counter_text (hsh s (Properties q)) f).

(** The messages are in the hands of the consumer, each named once. *)
Definition in_hand (x : system) (c : string) (ids : list string) : bool :=
  bool_decide (NoDup ids ∧ Forall (λ id, held x !! id = Some c) ids).

(** A repeating message is still scheduled, and its copy will be accepted if the
    script gets to it. *)
Definition fires (q : Queue) (g : string) (s : store) (f : firing) : bool :=
  match f_clone f with
  | None => true
  | Some c =>
      bool_decide (ID (f_msg f) ∈ lst s (Published q) ∧
                   hsh s (Message (ID (f_msg f))) !! mkey F_Status = Some (itoa StatusScheduled)) &&
      (negb (bool_decide (refused s q = None)) || negb (group_exists q g s) ||
       bool_decide (publish_reply (hsh s (Properties q)) (sts s (ConsumerGroups q)) (copy c) = "OK"))
  end.

Inductive step (cfg : ConfigRec) (q : Queue) : system → system → Prop :=
| step_publish x e r s' :
    publishable e → ID e ≠ "" → ID e ∉ lst (keyspace x) (Published q) →
    status e = StatusPending ∨ status e = StatusScheduled →
    publish_message (publish_keys q e) (BuildPublishArgs e) (keyspace x) = (r, s') →
    step cfg q x (System s' (held x) (orderly x))
| step_pop x d id s' :
    d_key d = q → no_colon (d_consumerID d) = true → no_colon (d_groupID d) = true →
    pop d (keyspace x) = (id, s') →
    step cfg q x (System s' (held x) (orderly x))
| step_checkout x now c id r s' :
    id ∈ lst (keyspace x) (Published q) → attempts_ok (hsh (keyspace x) (Message id)) →
    checkout_message (checkout_keys q id) (checkout_args now) (keyspace x) = (r, s') →
    step cfg q x (System s' (match r with Ret (inr _) => <[id := c]> (held x) | _ => held x end) (orderly x))
| step_ack x rnow now c ids r s' :
    no_colon c = true →
    acknowledge_message rnow (ack_keys q c ids) (ack_args cfg now ids) (keyspace x) = (r, s') →
    step cfg q x (System s' (drop_held ids (held x)) (orderly x && in_hand x c ids))
| step_unack x rnow now now' c entries r s' :
    no_colon c = true →
    (∀ id, id ∈ unack_entry_id <$> entries → unack_count_ok (hsh (keyspace x) (Message id))) →
    unacknowledge_message rnow (unack_keys q c entries) (unack_args cfg now now' entries)
      (keyspace x) = (r, s') →
    step cfg q x (System s' (drop_held (unack_entry_id <$> entries) (held x))
                      (orderly x && in_hand x c (unack_entry_id <$> entries)))
| step_requeue x ty now es r s' :
    hsh (keyspace x) (Properties q) !! qkey Q_Type = Some ty →
    (∀ e, e ∈ es → retryable ty e) →
    requeue_immediate (immediate_keys q es) (immediate_args now es) (keyspace x) = (r, s') →
    step cfg q x (System s' (held x) (orderly x))
| step_requeue_delayed x ty now es r s' :
    hsh (keyspace x) (Properties q) !! qkey Q_Type = Some ty →
    (∀ e, e ∈ es → retryable ty e) →
    requeue_delayed (delayed_keys q es) (delayed_args now es) (keyspace x) = (r, s') →
    step cfg q x (System s' (held x) (orderly x))
| step_delete x g lockID ids r s' :
    no_colon g = true →
    (∀ id, id ∈ ids → no_colon id = true ∧
       (id ∉ lst (keyspace x) (Published q) → hsh (keyspace x) (Message id) !! mkey F_Status = None)) →
    delete_message (del_keys q g ids) (del_args lockID ids) (keyspace x) = (r, s') →
    step cfg q x (System s' (held x) (orderly x))
| step_requeue_message x messageID ts original clone r s' :
    messageID ∈ lst (keyspace x) (Published q) →
    publishable (copy clone) → ID clone ≠ "" → ID clone ∉ lst (keyspace x) (Published q) →
    consumerGroupID clone = consumerGroupID original → ScheduledAt (messageState clone) = None →
    requeue_count_ok (hsh (keyspace x) (Message messageID)) →
    requeue_message (requeue_keys q (consumerGroupID original) messageID (ID clone))
      (requeue_args ts original clone) (keyspace x) = (r, s') →
    step cfg q x (System s' (held x) (orderly x))
| step_fire x g ty fs r s' :
    no_colon g = true → (length fs <= 99)%nat → NoDup (fs ≫= fire_ids) →
    hsh (keyspace x) (Properties q) !! qkey Q_Type = Some ty →
    (∀ f, f ∈ fs → fireable g ty f ∧ ∀ c, f_clone f = Some c → ID c ∉ lst (keyspace x) (Published q)) →
    publish_scheduled (scheduled_keys q g fs) (scheduled_args g fs) (keyspace x) = (r, s') →
    step cfg q x (System s' (held x) (orderly x && forallb (fires q g (keyspace x)) fs))
| step_other x s' :
    unrelated q (keyspace x) s' → step cfg q x (System s' (held x) (orderly x)).

Record invariant (q : Queue) (x : system) (a : accounts) : Prop := {
  inv_accounts : accounts_of q (keyspace x) a;
  inv_held : ∀ id c, held x !! id = Some c → a !! id = Some StatusProcessing
}.

Lemma drop_held_lookup ids h id :
  drop_held ids h !! id = if decide (id ∈ ids) then None else h !! id.
Proof.
  induction ids as [|i ids IH]; simpl; [done|].
  destruct (decide (id = i)) as [->|Hne].
  - by rewrite lookup_delete_eq, decide_True by set_solver.
  - rewrite lookup_delete_ne, IH by done.
    destruct (decide (id ∈ ids)); [by rewrite decide_True by set_solver|].
    by rewrite decide_False by set_solver.
Qed.

(** ** Each step keeps the accounts *)

(** A pop moves the message between two lists and nothing else. *)
Lemma pop_accounts d s a :
  accounts_of (d_key d) s a → wf_queue (d_key d) → no_colon (d_consumerID d) = true →
  no_colon (d_groupID d) = true → accounts_of (d_key d) (pop d s).2 a.
Proof.
  intros Ha Hq Hc Hg. pose proof (mo_wt _ _ _ (proj1 Ha)) as Hw.
  destruct (pop_frame d Hq Hc Hg s Hw) as [Hw' Hf]. set (s' := (pop d s).2) in *.
  assert (∀ k, wf_key k →
    key_type k = THash ∨ k = KPublished (d_key d) ∨ k = KRequeued (d_key d) ∨ k = KDelayed (d_key d) ∨
    k = KScheduled (d_key d) →
    db s' !! render_key k = db s !! render_key k) as Hk.
  { intros k Hwk Hor. apply Hf.
    - apply not_eq_sym, pop_key_ne; tauto.
    - apply (render_key_ne k (KConsumerProcessing _ _)); [done|by apply dst_wf|].
      destruct Hor as [Ht | [-> | [-> | [-> | ->]]]]; [by intros ->|done..]. }
  split.
  - eapply messages_frame; [apply Ha|done| | | | |].
    + unfold lst. pose proof (Hk (KPublished (d_key d))) as E. cbn [render_key] in E.
      rewrite E; [done|wf_parts|tauto].
    + intros i st Hi. pose proof (mo_status _ _ _ (proj1 Ha) i st Hi) as (Hn & _).
      unfold hsh. pose proof (Hk (KMessage i)) as E. cbn [render_key] in E.
      rewrite E; [done|wf_parts|by left].
    + unfold lst. pose proof (Hk (KRequeued (d_key d))) as E. cbn [render_key] in E.
      rewrite E; [done|wf_parts|tauto].
    + unfold zst. pose proof (Hk (KDelayed (d_key d))) as E. cbn [render_key] in E.
      rewrite E; [done|wf_parts|tauto].
    + unfold zst. pose proof (Hk (KScheduled (d_key d))) as E. cbn [render_key] in E.
      rewrite E; [done|wf_parts|tauto].
  - unfold hsh. pose proof (Hk (KProperties (d_key d))) as E. cbn [render_key] in E.
    rewrite E; [apply Ha|wf_parts|by left].
Qed.

Section preserve.
Context (cfg : ConfigRec) (q : Queue) (Hq : wf_queue q).
Context (Hack : audit_ok (AcknowledgedMessages (cfg_MessageAudit cfg))).
Context (Hdl : audit_ok (DeadLetteredMessages (cfg_MessageAudit cfg))).
Context (x : system) (a : accounts) (Hinv : invariant q x a).
Context (Hroom : Z.of_nat (size a + 99) < 4611686018427387904) (o : bool).

Lemma room_small : small a.
Proof using Hroom. unfold small. lia. Qed.

(** The accounts after a step, of at most 99 more messages: a tick of the
    scheduled publisher makes as many copies. *)
Definition kept (x' : system) : Prop :=
  ∃ a', invariant q x' a' ∧ (size a' ≤ size a + 99)%nat.

Lemma keep_publish e r s' :
  publishable e → ID e ≠ "" → ID e ∉ lst (keyspace x) (Published q) →
  status e = StatusPending ∨ status e = StatusScheduled →
  publish_message (publish_keys q e) (BuildPublishArgs e) (keyspace x) = (r, s') →
  kept (System s' (held x) o).
Proof using Hq Hinv Hroom.
  pose proof room_small as Hsm. pose proof Hinv as [Ha Hh]. intros He Hid Hnew Hst Hrun.
  rewrite publish_run in Hrun; [|apply Ha|done|done|by eapply publish_counters_ok; [apply Ha|]].
  cbv zeta in Hrun. injection Hrun as _ <-.
  assert (a !! ID e = None) as Hn.
  { apply eq_None_not_Some. by rewrite <-(messages_elem q (keyspace x) a) by apply Ha. }
  case_decide; [|exists a; split; [by split|lia]].
  exists (<[ID e := status e]> a). split; [split|].
  - apply publish_accounts; auto.
  - intros id c Hc. simpl in Hc. rewrite lookup_insert_ne; [by eapply Hh|].
    intros <-. specialize (Hh _ _ Hc). congruence.
  - rewrite map_size_insert_None by done. lia.
Qed.

Lemma keep_pop d id s' :
  d_key d = q → no_colon (d_consumerID d) = true → no_colon (d_groupID d) = true →
  pop d (keyspace x) = (id, s') → kept (System s' (held x) o).
Proof using Hq Hinv Hroom.
  pose proof Hinv as [Ha Hh]. intros Hd Hc Hg Hpop. unfold kept. rewrite <-Hd in *.
  exists a. split; [split|lia]; [|done]. cbn [keyspace].
  change s' with (id, s').2. rewrite <-Hpop. by apply pop_accounts.
Qed.

Lemma keep_checkout now c id r s' :
  id ∈ lst (keyspace x) (Published q) → attempts_ok (hsh (keyspace x) (Message id)) →
  checkout_message (checkout_keys q id) (checkout_args now) (keyspace x) = (r, s') →
  kept (System s' (match r with Ret (inr _) => <[id := c]> (held x) | _ => held x end) o).
Proof using Hq Hinv Hroom.
  pose proof room_small as Hsm. pose proof Hinv as [Ha Hh]. intros Hin Hat Hrun.
  apply (messages_elem q (keyspace x) a) in Hin as [st Hid]; [|apply Ha].
  rewrite (checkout_run q id now (keyspace x) a st Ha Hsm Hq Hid Hat) in Hrun.
  destruct (refused (keyspace x) q); [injection Hrun as <- <-; exists a; split; [by split|lia]|].
  destruct (decide (st = StatusPending)) as [->|];
    [|injection Hrun as <- <-; exists a; split; [by split|lia]].
  injection Hrun as <- <-. exists (<[id := StatusProcessing]> a). split; [split|].
  - by eapply checkout_accounts.
  - intros i c' Hi. simpl in Hi. destruct (decide (i = id)) as [->|Hne].
    + by rewrite lookup_insert_eq.
    + rewrite lookup_insert_ne in Hi by done. rewrite lookup_insert_ne by done. by eapply Hh.
  - rewrite map_size_insert_Some by (by eexists). lia.
Qed.

(** Messages that leave the hands of their consumer. *)
Lemma held_dropped (ids : list string) (a' : accounts) :
  (∀ id, id ∉ ids → a' !! id = a !! id) →
  ∀ id c, drop_held ids (held x) !! id = Some c → a' !! id = Some StatusProcessing.
Proof using Hinv.
  intros Ha' id c. rewrite drop_held_lookup. case_decide; [done|].
  intros Hc. rewrite Ha' by done. by eapply (inv_held _ _ _ Hinv).
Qed.

Lemma keep_ack rnow now c ids r s' :
  no_colon c = true → NoDup ids → (∀ id, id ∈ ids → held x !! id = Some c) →
  acknowledge_message rnow (ack_keys q c ids) (ack_args cfg now ids) (keyspace x) = (r, s') →
  kept (System s' (drop_held ids (held x)) o).
Proof using Hq Hinv Hroom Hack.
  pose proof room_small as Hsm. pose proof Hinv as [Ha Hh]. intros Hc Hnd Hheld Hrun.
  assert (∀ id, id ∈ ids → a !! id = Some StatusProcessing) as Hproc by eauto.
  destruct (acknowledge_run q c cfg now rnow ids (keyspace x) a Ha Hsm Hq Hc Hnd)
    as (s1 & Hrun1 & Hs1); [|by auto|done|].
  { apply Forall_forall. intros id Hid%Hproc. destruct (mo_status _ _ _ (proj1 Ha) id _ Hid) as (Hcol & _). done. }
  rewrite Hrun in Hrun1. injection Hrun1 as _ <-. case_decide.
  - set (moved := in_list (lst (keyspace x) (ConsumerProcessing q c)) ids) in *.
    exists (move_all StatusAcknowledged moved a). split; [split; [done|]|].
    + apply held_dropped. intros id Hid. rewrite move_all_lookup, decide_False; [done|].
      unfold moved, in_list. rewrite list_elem_of_filter. naive_solver.
    + rewrite (move_all_size StatusProcessing); [lia|]. intros id.
      unfold moved, in_list. rewrite list_elem_of_filter. naive_solver.
  - subst s'. exists a. split; [split; [done|]|lia]. by apply held_dropped.
Qed.

Lemma unack_all_cons now' l e es b :
  unack_all now' l (e :: es) b =
  unack_all now' l es (if decide (unack_entry_id e ∈ l)
                       then <[unack_entry_id e := unack_target now' e]> b else b).
Proof. done. Qed.

Lemma unack_all_lookup now' l entries : ∀ b id,
  id ∉ unack_entry_id <$> entries → unack_all now' l entries b !! id = b !! id.
Proof.
  induction entries as [|e es IH]; intros b id Hid; [done|].
  rewrite fmap_cons, not_elem_of_cons in Hid. destruct Hid as [Hne Hid].
  rewrite unack_all_cons, IH by done.
  case_decide; [by rewrite lookup_insert_ne|done].
Qed.

Lemma unack_all_size now' l entries : ∀ b : accounts,
  (∀ id, id ∈ unack_entry_id <$> entries → is_Some (b !! id)) →
  size (unack_all now' l entries b) = size b.
Proof.
  induction entries as [|e es IH]; intros b Hb; [done|].
  rewrite fmap_cons in Hb. rewrite unack_all_cons, IH.
  - case_decide; [|done]. rewrite map_size_insert_Some; [done|]. apply Hb, elem_of_cons. by left.
  - intros id Hid. case_decide; [|apply Hb, elem_of_cons; by right].
    apply lookup_insert_is_Some'. right. apply Hb, elem_of_cons. by right.
Qed.

Lemma keep_unack rnow now now' c entries r s' :
  no_colon c = true → NoDup (unack_entry_id <$> entries) →
  (∀ id, id ∈ unack_entry_id <$> entries →
     held x !! id = Some c ∧ unack_count_ok (hsh (keyspace x) (Message id))) →
  unacknowledge_message rnow (unack_keys q c entries) (unack_args cfg now now' entries)
    (keyspace x) = (r, s') →
  kept (System s' (drop_held (unack_entry_id <$> entries) (held x)) o).
Proof using Hq Hinv Hroom Hdl.
  pose proof room_small as Hsm. pose proof Hinv as [Ha Hh]. intros Hc Hnd Hheld Hrun.
  assert (∀ id, id ∈ unack_entry_id <$> entries → a !! id = Some StatusProcessing) as Hproc.
  { intros id Hid. destruct (Hheld id Hid) as [Hhid _]. by eapply Hh. }
  destruct (unacknowledge_run rnow cfg now now' q c entries (keyspace x) a Ha Hsm Hq Hc Hdl Hnd)
    as (s1 & Hrun1 & Hs1).
  { intros e He. apply (list_elem_of_fmap_2 unack_entry_id) in He. split.
    - apply Hproc in He. destruct (mo_status _ _ _ (proj1 Ha) _ _ He) as (Hcol & _). done.
    - intros _. split; [by apply Hproc|by apply Hheld]. }
  rewrite Hrun in Hrun1. injection Hrun1 as _ <-. case_decide.
  - destruct Hs1 as [Hs1 _]. eexists. split; [split; [exact Hs1|]|].
    + apply held_dropped. intros id Hid. by apply unack_all_lookup.
    + rewrite unack_all_size; [lia|]. intros id Hid. eexists. by apply Hproc.
  - subst s'. exists a. split; [split; [done|]|lia]. by apply held_dropped.
Qed.

(** A retry moves messages that nobody holds. *)
Lemma keep_retry from target l es s' :
  (∀ id, id ∈ l → a !! id = Some from) → from ≠ StatusProcessing →
  retried_to q (keyspace x) a target (retried l es) s' → kept (System s' (held x) o).
Proof using Hinv Hroom.
  pose proof Hinv as [Ha Hh]. intros Hl Hf Hs'. unfold retried_to in Hs'.
  destruct (refused (keyspace x) q); [subst s'; exists a; split; [by split|lia]|].
  assert (∀ e, e ∈ retried l es → a !! ID e = Some from) as Hr.
  { intros e [He _]%retried_in. by apply Hl. }
  eexists. split; [split; [exact Hs'|]|].
  - intros id c Hid. simpl in Hid. pose proof (Hh _ _ Hid) as Hp. rewrite retry_all_other; [done|].
    intros (e & -> & He%Hr)%list_elem_of_fmap. congruence.
  - rewrite retry_all_size; [lia|]. intros e He. eexists. by apply Hr.
Qed.

Lemma keep_requeue ty now es r s' :
  hsh (keyspace x) (Properties q) !! qkey Q_Type = Some ty → (∀ e, e ∈ es → retryable ty e) →
  requeue_immediate (immediate_keys q es) (immediate_args now es) (keyspace x) = (r, s') →
  kept (System s' (held x) o).
Proof using Hq Hinv Hroom.
  pose proof room_small as Hsm. pose proof Hinv as [Ha _]. intros Hty Hes Hrun.
  destruct (requeue_immediate_run q ty now es (keyspace x) a Ha Hsm Hq Hty Hes) as (s1 & Hr1 & Hs1).
  rewrite Hrun in Hr1. injection Hr1 as _ <-. eapply (keep_retry StatusUnackRequeuing); [|done|exact Hs1].
  intros id. apply requeued_status, Ha.
Qed.

Lemma keep_requeue_delayed ty now es r s' :
  hsh (keyspace x) (Properties q) !! qkey Q_Type = Some ty → (∀ e, e ∈ es → retryable ty e) →
  requeue_delayed (delayed_keys q es) (delayed_args now es) (keyspace x) = (r, s') →
  kept (System s' (held x) o).
Proof using Hq Hinv Hroom.
  pose proof room_small as Hsm. pose proof Hinv as [Ha _]. intros Hty Hes Hrun.
  destruct (requeue_delayed_run q ty now es (keyspace x) a Ha Hsm Hq Hty Hes) as (s1 & Hr1 & Hs1).
  rewrite Hrun in Hr1. injection Hr1 as _ <-. eapply (keep_retry StatusUnackDelaying); [|done|exact Hs1].
  intros id. apply delaying_status, Ha.
Qed.

Lemma keep_other s' : unrelated q (keyspace x) s' → kept (System s' (held x) o).
Proof using Hinv Hroom.
  pose proof Hinv as [[Hm Hc] Hh]. intros (Hw & Hl & (Hr & Hd & Hz) & Hs & Hp).
  exists a. split; [split; [|done]|lia]. split.
  - apply (messages_frame q (keyspace x)); [done|done|done| |done..]. intros id st Hid. apply Hs.
    + rewrite (messages_elem q (keyspace x) a) by done. by eexists.
    + by destruct (mo_status _ _ _ Hm id st Hid) as (Hcol & _).
  - intros f Hf. cbn [keyspace]. rewrite Hp by done. by apply Hc.
Qed.

(** What is deleted was in nobody's hands. *)
Lemma keep_delete g lockID ids r s' :
  no_colon g = true →
  (∀ id, id ∈ ids → no_colon id = true ∧
     (id ∉ lst (keyspace x) (Published q) → hsh (keyspace x) (Message id) !! mkey F_Status = None)) →
  delete_message (del_keys q g ids) (del_args lockID ids) (keyspace x) = (r, s') →
  kept (System s' (held x) o).
Proof using Hq Hinv Hroom.
  pose proof room_small as Hsm. pose proof Hinv as [Ha Hh]. intros Hg Hids Hrun.
  destruct (delete_batch_run q g lockID ids (keyspace x) a Hq Hg Ha Hsm) as (s1 & Hr1 & Hs1).
  { intros id Hid. destruct (Hids id Hid) as [Hn Hno]. split; [done|]. intros E. apply Hno.
    rewrite (messages_elem q (keyspace x) a) by apply Ha. rewrite E. by intros []. }
  rewrite Hrun in Hr1. destruct (delete_refusal (keyspace x) q lockID) as [reply|].
  { injection Hr1 as _ ->. exists a. split; [by split|lia]. }
  injection Hr1 as _ ->. destruct (Hs1 eq_refl) as [Ha1 Hrm]. set (b := bool_decide _) in *.
  eexists. split; [split; [exact Ha1|]|].
  - intros id c Hid. apply delete_all_processing. by eapply Hh.
  - pose proof (map_subseteq_size _ _ (rm_sub _ _ _ _ _ Hrm)). lia.
Qed.

Lemma keep_requeue_message messageID ts original clone r s' :
  messageID ∈ lst (keyspace x) (Published q) →
  publishable (copy clone) → ID clone ≠ "" → ID clone ∉ lst (keyspace x) (Published q) →
  consumerGroupID clone = consumerGroupID original → ScheduledAt (messageState clone) = None →
  requeue_count_ok (hsh (keyspace x) (Message messageID)) →
  requeue_message (requeue_keys q (consumerGroupID original) messageID (ID clone))
    (requeue_args ts original clone) (keyspace x) = (r, s') →
  kept (System s' (held x) o).
Proof using Hq Hinv Hroom.
  pose proof room_small as Hsm. pose proof Hinv as [Ha Hh]. intros Hin Hpub Hid Hnew Hg Hsc Hcnt Hrun.
  pose proof (mo_wt _ _ _ (proj1 Ha)) as Hw.
  apply (messages_elem q (keyspace x) a) in Hin as [st Hst]; [|apply Ha].
  destruct (mo_status _ _ _ (proj1 Ha) messageID st Hst) as (Hmid & _).
  assert (a !! ID clone = None) as Hn.
  { apply eq_None_not_Some. by rewrite <-(messages_elem q (keyspace x) a) by apply Ha. }
  rewrite (requeue_run q messageID ts original clone (keyspace x)) in Hrun;
    [|done|done|done|done|done|done|congruence|by eapply publish_counters_ok; [apply Ha|]|done].
  injection Hrun as _ <-. unfold requeue_spec.
  assert (kept (System (keyspace x) (held x) o)) as Hsame by (exists a; split; [by split|lia]).
  destruct (decide (is_Some _)); [|done]. destruct (_ !! mkey F_ID) as [oid|]; [|done].
  case_decide; [done|]. case_decide; [|done]. cbn [snd].
  destruct (requeue_effect_accounts q (default "" (hsh (keyspace x) (Properties q) !! qkey Q_Type)) messageID ts oid
    original clone (keyspace x) a st Ha Hsm Hq Hpub Hn Hid Hst Hmid) as (Ha' & _).
  eexists. split; [split; [exact Ha'|]|].
  - intros id c Hc. simpl in Hc. rewrite lookup_insert_ne; [by eapply Hh|].
    intros <-. specialize (Hh _ _ Hc). congruence.
  - rewrite map_size_insert_None by done. lia.
Qed.

Lemma keep_fire g ty fs r s' :
  no_colon g = true → (length fs <= 99)%nat → NoDup (fs ≫= fire_ids) →
  hsh (keyspace x) (Properties q) !! qkey Q_Type = Some ty →
  (∀ f, f ∈ fs → fireable g ty f ∧
     (refused (keyspace x) q = None → group_exists q g (keyspace x) = true → repeatable q (keyspace x) a f)) →
  publish_scheduled (scheduled_keys q g fs) (scheduled_args g fs) (keyspace x) = (r, s') →
  kept (System s' (held x) o).
Proof using Hq Hinv Hroom.
  pose proof room_small as Hsm. pose proof Hinv as [Ha Hh]. intros Hg Hlen Hnd Hty Hfs Hrun.
  destruct (publish_scheduled_run q g ty fs (keyspace x) a Hq Hg Ha ltac:(lia) Hty Hnd Hfs) as (n & s1 & Hr1 & Hs1).
  rewrite Hrun in Hr1. injection Hr1 as _ ->. cbv zeta in Hs1.
  destruct (refused (keyspace x) q) as [reply|]; [destruct Hs1 as [-> _]; exists a; split; [by split|lia]|].
  destruct Hs1 as (_ & Ht & _). set (b := group_exists _ _ _) in *. set (l := (zst _ _).*2) in *.
  eexists. split; [split; [apply Ht|]|].
  - intros id c Hid. simpl in Hid. apply due_accounts_processing; [|by eapply Hh|].
    + intros i Hi. rewrite (wo_scheduled _ _ _ (mo_waiting _ _ _ (proj1 Ha)) i Hi). by intros [=].
    + intros Hb f c' Hf Hc. destruct (Hfs f Hf) as [_ Hrep]. by destruct (Hrep eq_refl Hb c' Hc) as (_ & E & _).
  - pose proof (due_accounts_size b l fs a). lia.
Qed.

End preserve.

(** ** Reachable keyspaces *)

(** What the flag says of a step. *)
Lemma in_hand_spec x c ids :
  in_hand x c ids = true → NoDup ids ∧ ∀ id, id ∈ ids → held x !! id = Some c.
Proof. intros [H1 H2]%bool_decide_eq_true. rewrite Forall_forall in H2. auto. Qed.

Lemma fires_spec q g s a f :
  messages_of q s a → fires q g s f = true → (∀ c, f_clone f = Some c → ID c ∉ lst s (Published q)) →
  refused s q = None → group_exists q g s = true → repeatable q s a f.
Proof.
  intros Hm Hf Hnew Hopen Hg c Hc. unfold fires in Hf. rewrite Hc in Hf.
  apply andb_true_iff in Hf as [[H1 H2]%bool_decide_eq_true Hok].
  rewrite bool_decide_eq_true_2, Hg in Hok by done. apply bool_decide_eq_true in Hok.
  specialize (Hnew c Hc). rewrite (messages_elem q _ a _ Hm) in H1. rewrite (messages_elem q _ a _ Hm) in Hnew.
  destruct H1 as [st Hst]. split_and!; [|by apply eq_None_not_Some|done].
  destruct (mo_status _ _ _ Hm _ _ Hst) as (_ & _ & E). rewrite E in H2. injection H2 as H2%(inj itoa). by subst st.
Qed.

Lemma step_orderly cfg q x x' : step cfg q x x' → orderly x' = true → orderly x = true.
Proof. destruct 1; simpl; by try intros [? _]%andb_true_iff. Qed.

Lemma keep_step cfg q x x' a :
  wf_queue q → audit_ok (AcknowledgedMessages (cfg_MessageAudit cfg)) →
  audit_ok (DeadLetteredMessages (cfg_MessageAudit cfg)) →
  invariant q x a → Z.of_nat (size a + 99) < 4611686018427387904 → step cfg q x x' → orderly x' = true →
  ∃ a', invariant q x' a' ∧ (size a' ≤ size a + 99)%nat.
Proof.
  intros Hq Hk Hd Hinv Hroom Hstep Ho. change (kept q a x').
  destruct Hstep as [| | |x rnow now c ids r s' Hc Hrun|x rnow now now' c entries r s' Hc Hcnt Hrun| | | |
                    |x g ty fs r s' Hg Hlen Hnd Hty Hfs Hrun|];
    [by eapply keep_publish|by eapply keep_pop|by eapply keep_checkout| |
    |by eapply keep_requeue|by eapply keep_requeue_delayed|by eapply keep_delete|by eapply keep_requeue_message
    | |by eapply keep_other].
  - apply andb_true_iff in Ho as [_ [H1 H2]%in_hand_spec]. by eapply keep_ack.
  - apply andb_true_iff in Ho as [_ [H1 H2]%in_hand_spec]. eapply keep_unack; eauto.
  - apply andb_true_iff in Ho as [_ Hfires]. rewrite forallb_forall in Hfires.
    eapply (keep_fire q Hq x a Hinv Hroom _ g ty fs); [done..| |exact Hrun].
    intros f Hf. destruct (Hfs f Hf) as [Hfi Hnew]. split; [done|].
    apply fires_spec; [apply Hinv|by apply Hfires, list_elem_of_In|done].
Qed.

(** A queue that has just been created. *)
Definition initial (q : Queue) (x : system) : Prop :=
  wt (keyspace x) ∧ lst (keyspace x) (Published q) = [] ∧
  lst (keyspace x) (Requeued q) = [] ∧ zst (keyspace x) (Delayed q) = [] ∧
  zst (keyspace x) (Scheduled q) = [] ∧
  tally (hsh (keyspace x) (Properties q)) (λ _, 0) ∧ held x = ∅.

(** The published messages whose stored status is [st]. *)
Definition in_status (s : store) (q : Queue) (st : Z) : list string :=
  filter (λ id, hsh s (Message id) !! mkey F_Status = Some (itoa st)) (lst s (Published q)).

Lemma in_status_count q s a st :
  messages_of q s a → Z.of_nat (length (in_status s q st)) = count a st.
Proof.
  intros Hm. unfold in_status, count, has_status. f_equal.
  rewrite (mo_list _ _ _ Hm). rewrite <-length_map_to_list, <-(length_fmap fst).
  apply Permutation_length, NoDup_Permutation.
  - apply NoDup_filter, NoDup_fst_map_to_list.
  - apply NoDup_fst_map_to_list.
  - intros id. rewrite list_elem_of_filter, !list_elem_of_fmap. split.
    + intros (Hs & (i & st') & -> & Hi%elem_of_map_to_list). exists (i, st'). split; [done|].
      apply elem_of_map_to_list, map_lookup_filter_Some. split; [done|]. cbn [fst snd] in *.
      destruct (mo_status _ _ _ Hm i st' Hi) as (_ & _ & Hs'). rewrite Hs' in Hs.
      by injection Hs as ?%(inj itoa).
    + intros ((i & st') & -> & Hi%elem_of_map_to_list%map_lookup_filter_Some).
      destruct Hi as [Hi E]. cbn [fst snd] in E |- *. subst st'.
      destruct (mo_status _ _ _ Hm i st Hi) as (_ & _ & Hs'). split; [done|].
      exists (i, st). split; [done|]. by apply elem_of_map_to_list.
Qed.

Lemma accounts_counters q s a :
  accounts_of q s a → small a →
  counter s q Q_MessagesCount = Z.of_nat (length (lst s (Published q))) ∧
  ∀ st f, status_field st = Some f → counter s q f = Z.of_nat (length (in_status s q st)).
Proof.
  intros [Hm Hc] Hsm. split.
  - rewrite (tally_counter q s _ Q_MessagesCount Hc eq_refl).
    + simpl. f_equal. rewrite (mo_list _ _ _ Hm), length_fmap. by rewrite length_map_to_list.
    + apply (small_in_int64 a); [done|]. simpl. lia.
  - intros st f Hf. rewrite (in_status_count q s a) by done.
    assert (is_counter f = true ∧ account a f = count a st) as [Hcf Haf].
    { unfold status_field in Hf. repeat case_decide; simplify_eq; done. }
    rewrite (tally_counter q s _ f Hc Hcf); [done|].
    apply (small_in_int64 a); [done|]. pose proof (account_range a f). lia.
Qed.

Lemma reachable_invariant cfg q n x0 x :
  wf_queue q → audit_ok (AcknowledgedMessages (cfg_MessageAudit cfg)) →
  audit_ok (DeadLetteredMessages (cfg_MessageAudit cfg)) →
  initial q x0 → nsteps (step cfg q) n x0 x → 99 * Z.of_nat n < 4611686018427387904 → orderly x = true →
  ∃ a, invariant q x a ∧ (size a ≤ 99 * n)%nat.
Proof.
  intros Hq Hk Hd (Hw & Hl & Hr & Hdz & Hsz0 & Ht & Hh) Hsteps Hn Ho.
  assert (∃ a, invariant q x0 a ∧ size a = 0%nat) as (a & Ha & Hsz).
  { exists ∅. split; [split; [by apply accounts_init|]|done]. intros id c. by rewrite Hh. }
  clear Hw Hl Hr Hdz Hsz0 Ht Hh. cut (∃ a', invariant q x a' ∧ (size a' ≤ 99 * n + size a)%nat).
  { rewrite Hsz, Nat.add_0_r. done. }
  assert (99 * Z.of_nat n + Z.of_nat (size a) < 4611686018427387904) as Hb by lia. clear Hsz Hn.
  revert a Ha Hb. induction Hsteps as [|n x y z Hs Hss IH]; intros a Ha Hb; [by exists a|].
  assert (orderly y = true) as Hy.
  { clear -Hss Ho. induction Hss as [|n y z w Hs _ IH]; [done|]. eapply step_orderly; [exact Hs|auto]. }
  destruct (keep_step cfg q x y a) as (a1 & Ha1 & Hsz1); try done; [lia|].
  destruct (IH Ho a1) as (a2 & Ha2 & Hsz2); [done|lia|]. exists a2. split; [done|lia].
Qed.


(** One message published, popped, checked out and acknowledged. *)
Definition life_0 : store := typed_store TypeFIFO.
Definition life_1 : store := after_publish (pending_envelope "m1") life_0.
Definition life_2 : store := (pop (dequeuer TypeFIFO) life_1).2.
Definition life_3 : store :=
  (checkout_message (checkout_keys sample_queue "m1") (checkout_args 7000000) life_2).2.
Definition life_4 : store :=
  (acknowledge_message 8 (ack_keys sample_queue "c1" ["m1"])
     (ack_args DefaultConfig 9000000 ["m1"]) life_3).2.

Lemma life_initial : initial sample_queue (System life_0 ∅ true).
Proof.
  destruct (typed_store_accounts TypeFIFO) as [Hm Hc]. split; [apply Hm|]. do 4 (split; [reflexivity|]).
  split; [|done]. eapply tally_ext; [exact Hc|]. by intros [].
Qed.

Lemma life_checkout :
  step DefaultConfig sample_queue (System life_2 ∅ true) (System life_3 {["m1" := "c1"]} true).
Proof.
  assert ("m1" ∈ lst life_2 (Published sample_queue)) as Hin.
  { apply (bool_decide_unpack _). vm_compute. exact I. }
  assert (attempts_ok (hsh life_2 (Message "m1"))) as Hat.
  { split; [vm_compute; reflexivity|vm_compute; split; discriminate]. }
  pose proof (step_checkout DefaultConfig sample_queue (System life_2 ∅ true) 7000000 "c1" "m1" _ _
                Hin Hat (surjective_pairing _)) as H.
  match type of H with step _ _ _ (System _ ?h _) => assert (h = {["m1" := "c1"]}) as E end.
  { vm_compute. reflexivity. }
  rewrite E in H. exact H.
Qed.

Lemma life_ack :
  step DefaultConfig sample_queue (System life_3 {["m1" := "c1"]} true) (System life_4 ∅ true).
Proof.
  pose proof (step_ack DefaultConfig sample_queue (System life_3 {["m1" := "c1"]} true) 8 9000000 "c1" ["m1"]
    _ _ eq_refl (surjective_pairing _)) as H.
  match type of H with step _ _ _ (System _ ?h ?o) => assert (h = ∅) as E by (vm_compute; reflexivity);
    assert (o = true) as E' by (vm_compute; reflexivity) end.
  rewrite E, E' in H. exact H.
Qed.

Lemma life_steps :
  nsteps (step DefaultConfig sample_queue) 4 (System life_0 ∅ true) (System life_4 ∅ true).
Proof.
  apply (nsteps_l _ _ _ (System life_1 ∅ true)).
  { eapply (step_publish _ _ (System life_0 ∅ true) (pending_envelope "m1"));
      [by apply sample_publishable|done| |by left|].
    - apply (bool_decide_unpack _). vm_compute. exact I.
    - apply (after_publish_ok _ life_0). vm_compute. reflexivity. }
  apply (nsteps_l _ _ _ (System life_2 ∅ true)).
  { eapply (step_pop _ _ (System life_1 ∅ true) (dequeuer TypeFIFO)); [done..|].
    apply surjective_pairing. }
  eapply nsteps_l; [exact life_checkout|]. eapply nsteps_l; [exact life_ack|]. apply nsteps_O.
Qed.


(** ** The scripts one by one *)

Lemma attempts_checked_out now h :
  attempts_ok h → in_int64 (attempts (checked_out now h) + 1) → attempts_ok (checked_out now h).
Proof.
  intros [_ Hr] Hmax. split; [|done]. unfold attempts. unfold checked_out.
  rewrite lookup_insert_eq. cbn [default from_option id]. by rewrite string2ll_itoa.
Qed.

(** C6: checkout hands a message out once.  On a message of the queue the script
    refuses without a change when the queue's state forbids delivery or the
    message is not pending; otherwise it moves the message from pending to
    processing, counters included, and a second checkout of it is refused and
    changes nothing. *)
Theorem checkout_once q id now now' s a st :
  accounts_of q s a → small a → wf_queue q → a !! id = Some st →
  attempts_ok (hsh s (Message id)) →
  match checkout_message (checkout_keys q id) (checkout_args now) s with
  | (Ret (inr h), s') =>
      refused s q = None ∧ st = StatusPending ∧ h = hsh s' (Message id) ∧
      h = checked_out now (hsh s (Message id)) ∧
      accounts_of q s' (<[id := StatusProcessing]> a) ∧
      (in_int64 (attempts h + 1) →
       checkout_message (checkout_keys q id) (checkout_args now') s' =
       (Ret (inl match refused s' q with Some reply => reply | None => "MESSAGE_NOT_PENDING" end),
        s'))
  | (Ret (inl reply), s') =>
      s' = s ∧ (refused s q = Some reply ∨ (st ≠ StatusPending ∧ reply = "MESSAGE_NOT_PENDING"))
  | (Err _, _) => False
  end.
Proof.
  intros Ha Hsm Hq Hid Hat. rewrite (checkout_run q id now s a st) by done.
  destruct (refused s q) as [reply|] eqn:Hr; [auto|].
  destruct (decide (st = StatusPending)) as [->|]; [|auto].
  pose proof (checkout_accounts q id now s a StatusPending Ha Hsm Hq Hid eq_refl) as Ha'.
  assert (hsh (checkout_effect q id now s) (Message id) = checked_out now (hsh s (Message id))) as Hh.
  { pose proof (mo_status _ _ _ (proj1 Ha) id _ Hid) as (Hcol & _).
    unfold checkout_effect, add_counter. rewrite !hsh_upd_ne by key_ne. apply hsh_upd. }
  split_and!; try done. intros Hmax.
  rewrite (checkout_run q id now' _ (<[id := StatusProcessing]> a) StatusProcessing); try done.
  - by destruct (refused (checkout_effect q id now s) q).
  - unfold small. rewrite map_size_insert_Some by (by eexists). exact Hsm.
  - apply lookup_insert_eq.
  - rewrite Hh in *. by apply attempts_checked_out.
Qed.

Lemma life_1_accounts : accounts_of sample_queue life_1 {["m1" := StatusPending]}.
Proof.
  destruct (accepted_step sample_queue "" (pending_envelope "m1") [] life_0 life_1 ∅) as (_ & H & _).
  - apply typed_store_accounts.
  - exact sample_queue_wf.
  - split; [apply (bool_decide_unpack _); vm_compute; exact I| |vm_compute; reflexivity].
    intros e He. apply list_elem_of_singleton in He as ->.
    split; [by apply sample_publishable|split; [discriminate|split_and!; reflexivity]].
  - apply (after_publish_ok _ life_0). vm_compute. reflexivity.
  - exact H.
Qed.

Lemma life_2_accounts : accounts_of sample_queue life_2 {["m1" := StatusPending]}.
Proof.
  exact (pop_accounts (dequeuer TypeFIFO) life_1 _ life_1_accounts sample_queue_wf eq_refl eq_refl).
Qed.

Lemma life_2_attempts : attempts_ok (hsh life_2 (Message "m1")).
Proof. split; [vm_compute; reflexivity|vm_compute; split; discriminate]. Qed.

Lemma sample_small st : small {["m1" := st]}.
Proof. vm_compute. reflexivity. Qed.

Lemma life_3_accounts : accounts_of sample_queue life_3 {["m1" := StatusProcessing]}.
Proof.
  pose proof (checkout_run sample_queue "m1" 7000000 life_2 _ StatusPending life_2_accounts
                (sample_small _) sample_queue_wf eq_refl life_2_attempts) as H.
  assert (refused life_2 sample_queue = None) as Hr by (vm_compute; reflexivity).
  rewrite Hr in H. unfold life_3. rewrite H. cbn [snd].
  exact (checkout_accounts sample_queue "m1" 7000000 life_2 _ StatusPending life_2_accounts
           (sample_small _) sample_queue_wf eq_refl eq_refl).
Qed.

Lemma checkout_once_witness :
  let r := checkout_message (checkout_keys sample_queue "m1") (checkout_args 7000000) life_2 in
  match r with
  | (Ret (inr h), s') => accounts_of sample_queue s' {["m1" := StatusProcessing]}
  | _ => False
  end.
Proof.
  pose proof (checkout_once sample_queue "m1" 7000000 9000000 life_2 _ StatusPending
                life_2_accounts (sample_small _) sample_queue_wf eq_refl life_2_attempts) as H.
  assert (∃ h, (checkout_message (checkout_keys sample_queue "m1") (checkout_args 7000000)
                 life_2).1 = Ret (inr h)) as [h Hh] by (eexists; vm_compute; reflexivity).
  cbv zeta. destruct (checkout_message _ _ life_2) as [[[r|h']|e] s']; [discriminate Hh| |destruct H].
  destruct H as (_ & _ & _ & _ & H & _). exact H.
Defined.

(** C3: acknowledgement implements its specification on every branch.  A missing
    queue and a state that forbids it are reported and change nothing;
    otherwise the reply tells for each message of the batch whether it was in
    the consumer's processing list, exactly those messages become
    acknowledged, and the counters follow. *)
Theorem acknowledge_refines q c cfg now rnow ids s a :
  accounts_of q s a → small a → wf_queue q → no_colon c = true →
  NoDup ids → Forall (λ id, no_colon id = true) ids →
  (∀ id, id ∈ ids → id ∈ lst s (ConsumerProcessing q c) → a !! id = Some StatusProcessing) →
  audit_ok (AcknowledgedMessages (cfg_MessageAudit cfg)) →
  let l := lst s (ConsumerProcessing q c) in
  let known := bool_decide (is_Some (db s !! Properties q)) in
  ∃ s', acknowledge_message rnow (ack_keys q c ids) (ack_args cfg now ids) s =
    (Ret match known, refused s q with
         | false, _ => inl "QUEUE_NOT_FOUND"
         | true, Some reply => inl reply
         | true, None => inr ((λ id, if decide (id ∈ l) then 1 else 0) <$> ids)
         end, s') ∧
    match known, refused s q with
    | true, None => accounts_of q s' (move_all StatusAcknowledged (filter (λ id, id ∈ l) ids) a)
    | _, _ => s' = s
    end.
Proof.
  intros Ha Hsm Hq Hc Hnd Hcol Hproc Hcfg l known.
  destruct (acknowledge_run q c cfg now rnow ids s a Ha Hsm Hq Hc Hnd Hcol Hproc Hcfg)
    as (s' & Hrun & Hs'). exists s'. rewrite Hrun. unfold known.
  destruct (decide (is_Some (db s !! Properties q))) as [He|He].
  - rewrite bool_decide_eq_true_2 by done. destruct (refused s q) as [reply|] eqn:Hr.
    + rewrite decide_False in Hs' by naive_solver. done.
    + rewrite decide_True in Hs' by done. destruct Hs'. done.
  - rewrite bool_decide_eq_false_2 by done. rewrite decide_False in Hs' by naive_solver. done.
Qed.

Lemma acknowledge_refines_witness :
  ∃ s', acknowledge_message 8 (ack_keys sample_queue "c1" ["m1"; "m2"])
          (ack_args DefaultConfig 9000000 ["m1"; "m2"]) life_3 = (Ret (inr [1; 0]), s') ∧
        accounts_of sample_queue s' {["m1" := StatusAcknowledged]}.
Proof.
  assert (lst life_3 (ConsumerProcessing sample_queue "c1") = ["m1"]) as E
    by (vm_compute; reflexivity).
  assert (refused life_3 sample_queue = None) as Hr by (vm_compute; reflexivity).
  assert (bool_decide (is_Some (db life_3 !! Properties sample_queue)) = true) as Hk
    by (vm_compute; reflexivity).
  pose proof (acknowledge_refines sample_queue "c1" DefaultConfig 9000000 8 ["m1"; "m2"] life_3 _
                life_3_accounts (sample_small _) sample_queue_wf eq_refl
                (ltac:(apply (bool_decide_unpack _); vm_compute; exact I))
                (ltac:(repeat constructor))) as H.
  cbv zeta in H. rewrite E, Hr, Hk in H. apply H.
  - intros id _ Hid. apply list_elem_of_singleton in Hid as ->. reflexivity.
  - vm_compute. discriminate.
Defined.

(** C4: unacknowledgement implements its specification on every branch.  A
    missing queue and a state that forbids it are reported and change nothing;
    otherwise every message of the batch that is in the consumer's processing
    list becomes dead-lettered when the decision says so (time to live over,
    periodic, or retries used up) and requeued when not, the reply is their
    number, and the counters follow. *)
Theorem unacknowledge_refines rnow cfg now now' q c entries s a :
  accounts_of q s a → small a → wf_queue q → no_colon c = true →
  audit_ok (DeadLetteredMessages (cfg_MessageAudit cfg)) →
  NoDup (unack_entry_id <$> entries) → (∀ e, e ∈ entries → unackable q c s a e) →
  let l := lst s (ConsumerProcessing q c) in
  let known := bool_decide (is_Some (db s !! Properties q)) in
  ∃ s', unacknowledge_message rnow (unack_keys q c entries) (unack_args cfg now now' entries) s =
    (Ret match known, refused s q with
         | false, _ => inl "QUEUE_NOT_FOUND"
         | true, Some reply => inl reply
         | true, None => inr (unack_count now' l entries StatusDeadLettered +
                              unack_count now' l entries StatusUnackRequeuing)
         end, s') ∧
    match known, refused s q with
    | true, None => accounts_of q s' (unack_all now' l entries a)
    | _, _ => s' = s
    end.
Proof.
  intros Ha Hsm Hq Hc Hcfg Hnd Hok l known.
  destruct (unacknowledge_run rnow cfg now now' q c entries s a Ha Hsm Hq Hc Hcfg Hnd Hok)
    as (s' & Hrun & Hs'). exists s'. rewrite Hrun. unfold known.
  destruct (decide (is_Some (db s !! Properties q))) as [He|He].
  - rewrite bool_decide_eq_true_2 by done. destruct (refused s q) as [reply|] eqn:Hr.
    + rewrite decide_False in Hs' by naive_solver. done.
    + rewrite decide_True in Hs' by done. split; [done|apply Hs'].
  - rewrite bool_decide_eq_false_2 by done. rewrite decide_False in Hs' by naive_solver. done.
Qed.

Definition sample_entry : UnackEntry :=
  {| ue_Message := pending_envelope "m1"; ue_Cause := CauseTTLExpired |}.

Lemma unacknowledge_refines_witness :
  ∃ s', unacknowledge_message 8 (unack_keys sample_queue "c1" [sample_entry])
          (unack_args DefaultConfig 9000000 9000000 [sample_entry]) life_3 = (Ret (inr 1), s') ∧
        accounts_of sample_queue s' {["m1" := StatusDeadLettered]}.
Proof.
  assert (lst life_3 (ConsumerProcessing sample_queue "c1") = ["m1"]) as E
    by (vm_compute; reflexivity).
  assert (refused life_3 sample_queue = None) as Hr by (vm_compute; reflexivity).
  assert (bool_decide (is_Some (db life_3 !! Properties sample_queue)) = true) as Hk
    by (vm_compute; reflexivity).
  pose proof (unacknowledge_refines 8 DefaultConfig 9000000 9000000 sample_queue "c1"
                [sample_entry] life_3 _ life_3_accounts (sample_small _) sample_queue_wf eq_refl
                (ltac:(vm_compute; discriminate))
                (ltac:(apply (bool_decide_unpack _); vm_compute; exact I))) as H.
  cbv zeta in H. rewrite E, Hr, Hk in H. apply H.
  intros e He. apply list_elem_of_singleton in He as ->. split; [reflexivity|]. intros _.
  split; [reflexivity|]. exists 0. split; [vm_compute; reflexivity|vm_compute; split; discriminate].
Defined.

(** ** Retries

    The message is not acknowledged, waits out its retry delay and comes back. *)

Definition failed_entry : UnackEntry :=
  {| ue_Message := pending_envelope "m1"; ue_Cause := CauseUnacknowledged |}.

Definition retry_1 : store :=
  (unacknowledge_message 8 (unack_keys sample_queue "c1" [failed_entry])
     (unack_args DefaultConfig 9000000 9000000 [failed_entry]) life_3).2.
Definition retry_2 : store :=
  requeue DefaultConsumeOptions "u" "v" 10000000 sample_queue retry_1.

Lemma retry_1_accounts : accounts_of sample_queue retry_1 {["m1" := StatusUnackRequeuing]}.
Proof.
  destruct (unacknowledge_run 8 DefaultConfig 9000000 9000000 sample_queue "c1" [failed_entry]
              life_3 _ life_3_accounts (sample_small _) sample_queue_wf eq_refl
              (ltac:(vm_compute; discriminate))
              (ltac:(apply (bool_decide_unpack _); vm_compute; exact I))) as (s' & Hr & Hs').
  - intros e He. apply list_elem_of_singleton in He as ->. split; [reflexivity|]. intros _.
    split; [reflexivity|]. exists 0. split; [vm_compute; reflexivity|vm_compute; split; discriminate].
  - unfold retry_1. rewrite Hr. cbn [snd].
    assert (lst life_3 (ConsumerProcessing sample_queue "c1") = ["m1"]) as E by (vm_compute; reflexivity).
    rewrite E in Hs'. rewrite decide_True in Hs'; [exact (proj1 Hs')|].
    apply (bool_decide_unpack _). vm_compute. exact I.
Qed.

(** The only message of a batch can be retried. *)
Lemma sample_batch_retryable ty es :
  bool_decide (Forall (λ e, no_colon (consumerGroupID e) = true) es) = true →
  ty = itoa TypeFIFO → ∀ e, e ∈ es → retryable ty e.
Proof.
  intros H%bool_decide_eq_true -> e He. rewrite Forall_forall in H. split; [by apply H|done].
Qed.

Lemma retry_1_batch :
  ∀ e, e ∈ immediate_batch DefaultConsumeOptions "u" "v" 10000000 sample_queue retry_1 →
       retryable (itoa TypeFIFO) e.
Proof. apply sample_batch_retryable; [vm_compute; reflexivity|done]. Qed.

Lemma retry_1_refused : refused retry_1 sample_queue = None.
Proof. vm_compute. reflexivity. Qed.

Lemma immediate_requeue_refines_witness :
  accounts_of sample_queue retry_2 {["m1" := StatusUnackDelaying]}.
Proof.
  pose proof (immediate_requeue_refines DefaultConsumeOptions "u" "v" 10000000 sample_queue
                (itoa TypeFIFO) retry_1 _ retry_1_accounts (sample_small _) sample_queue_wf
                (ltac:(vm_compute; reflexivity)) retry_1_batch) as H.
  cbv zeta in H. unfold retried_to in H. rewrite retry_1_refused in H.
  match type of H with accounts_of _ _ ?m => assert (m = {["m1" := StatusUnackDelaying]}) as E end.
  { vm_compute. reflexivity. }
  rewrite E in H. exact H.
Defined.

Lemma retry_2_accounts : accounts_of sample_queue retry_2 {["m1" := StatusUnackDelaying]}.
Proof.
  pose proof (requeueMessages_accounts 10000000 sample_queue (itoa TypeFIFO) _ retry_1 _
                retry_1_accounts (sample_small _) sample_queue_wf (ltac:(vm_compute; reflexivity))
                retry_1_batch) as H.
  unfold retried_to in H. rewrite retry_1_refused in H. unfold retry_2.
  rewrite requeue_eq by (apply retry_1_accounts || exact sample_queue_wf).
  match type of H with accounts_of _ ?s ?m =>
    assert (m = {["m1" := StatusUnackDelaying]}) as E by (vm_compute; reflexivity) end.
  rewrite E in H. destruct (immediate_batch _ _ _ _ _ _) eqn:B; [|exact H].
  assert (length (immediate_batch DefaultConsumeOptions "u" "v" 10000000 sample_queue retry_1) = 1%nat)
    as L by (vm_compute; reflexivity).
  rewrite B in L. discriminate L.
Qed.

(** Before its time the message stays delayed, after it the message is pending. *)
Lemma delayed_retry_timing_witness :
  hsh (requeueDue DefaultConsumeOptions "u" "v" 60009000000 60009000000 sample_queue retry_2)
    (Message "m1") !! mkey F_Status = Some (itoa StatusUnackDelaying) ∧
  hsh (requeueDue DefaultConsumeOptions "u" "v" 60010000000 60010000000 sample_queue retry_2)
    (Message "m1") !! mkey F_Status = Some (itoa StatusPending).
Proof.
  assert (∀ now, (∀ e, e ∈ delayed_batch DefaultConsumeOptions "u" "v" now now sample_queue retry_2 →
                       retryable (itoa TypeFIFO) e) →
    loads_itself DefaultConsumeOptions "u" "v" now retry_2 "m1" →
    let s' := requeueDue DefaultConsumeOptions "u" "v" now now sample_queue retry_2 in
    (UnixMilli now < 60010 →
       hsh s' (Message "m1") !! mkey F_Status = Some (itoa StatusUnackDelaying)) ∧
    (∀ e, "m1" ∈ due now sample_queue retry_2 →
       load_message DefaultConsumeOptions "u" "v" now retry_2 "m1" = Some e →
       hsh s' (Message "m1") !! mkey F_Status =
         Some (itoa (retry_status (sts retry_2 (ConsumerGroups sample_queue)) e)))) as H.
  { assert (zst retry_2 (Delayed sample_queue) = [(60010, "m1")]) as Z by (vm_compute; reflexivity).
    intros now Hb Hl.
    apply (delayed_retry_timing DefaultConsumeOptions "u" "v" now now sample_queue (itoa TypeFIFO)
             retry_2 _ 60010 "m1" retry_2_accounts (sample_small _) sample_queue_wf
             (ltac:(vm_compute; reflexivity)) Hb (ltac:(vm_compute; reflexivity))); rewrite Z.
    - apply NoDup_singleton.
    - intros id Hid. apply list_elem_of_singleton in Hid as ->. exact Hl.
    - apply list_elem_of_singleton. reflexivity. }
  split.
  - apply H; [apply sample_batch_retryable; [vm_compute; reflexivity|done]| |vm_compute; reflexivity].
    intros e He. vm_compute in He. injection He as <-. reflexivity.
  - destruct (load_message DefaultConsumeOptions "u" "v" 60010000000 retry_2 "m1") as [e|] eqn:He.
    2: { vm_compute in He. discriminate He. }
    destruct (H 60010000000) as [_ H2].
    + apply sample_batch_retryable; [vm_compute; reflexivity|done].
    + intros e' He'. vm_compute in He'. injection He' as <-. reflexivity.
    + rewrite (H2 e); [|apply (bool_decide_unpack _); vm_compute; exact I|exact He].
      vm_compute in He. injection He as <-. vm_compute. reflexivity.
Defined.

(** ** Deleting and requeuing by hand *)

Lemma life_1_deletable : deletable_ids life_1 {["m1" := StatusPending]} ["m1"; "m9"].
Proof.
  intros id Hid. rewrite !elem_of_cons, elem_of_nil in Hid.
  destruct Hid as [->|[->|[]]]; (split; [reflexivity|]); [discriminate|]. intros _. vm_compute. reflexivity.
Qed.

(** One of the two messages exists. *)
Lemma delete_messages_refines_witness :
  match delete_message (del_keys sample_queue "" ["m1"; "m9"]) (del_args "" ["m1"; "m9"]) life_1 with
  | (Ret (inr stats), s') => accounts_of sample_queue s' ∅ ∧ Processed stats = 2 ∧ Success stats = 1
  | _ => False
  end.
Proof.
  pose proof (delete_messages_refines sample_queue "" "" ["m1"; "m9"] life_1 _ sample_queue_wf eq_refl
                life_1_accounts (sample_small _) life_1_deletable) as H.
  assert (∃ stats, (delete_message (del_keys sample_queue "" ["m1"; "m9"]) (del_args "" ["m1"; "m9"])
                      life_1).1 = Ret (inr stats)) as [stats Hs] by (eexists; vm_compute; reflexivity).
  destruct (delete_message _ _ life_1) as [[[r|stats']|e] s']; [discriminate Hs| |discriminate Hs].
  destruct H as (_ & Ha & _ & Hp & Hsu & _).
  assert (undeleted ["m1"; "m9"] {["m1" := StatusPending]} = ∅) as E by (vm_compute; reflexivity).
  rewrite E in Ha, Hsu. split; [exact Ha|]. split; [exact Hp|exact Hsu].
Defined.

Lemma life_4_accounts : accounts_of sample_queue life_4 {["m1" := StatusAcknowledged]}.
Proof.
  destruct (acknowledge_run sample_queue "c1" DefaultConfig 9000000 8 ["m1"] life_3 _ life_3_accounts
              (sample_small _) sample_queue_wf eq_refl
              (ltac:(apply (bool_decide_unpack _); vm_compute; exact I))
              (ltac:(repeat constructor))) as (s' & Hr & Hs').
  - intros id Hid _. apply list_elem_of_singleton in Hid as ->. reflexivity.
  - vm_compute. discriminate.
  - unfold life_4. rewrite Hr. cbn [snd].
    assert (lst life_3 (ConsumerProcessing sample_queue "c1") = ["m1"]) as E by (vm_compute; reflexivity).
    rewrite E in Hs'. rewrite decide_True in Hs'; [exact Hs'|].
    apply (bool_decide_unpack _). vm_compute. exact I.
Qed.

(** The acknowledged message as it is read at time 10000000. *)
Definition acknowledged : Envelope :=
  match GetMessage DefaultConsumeOptions "u" "v" 10000000 life_4 "m1" with
  | inr e => e
  | inl _ => pending_envelope "m1"
  end.

Lemma acknowledged_storable : storable DefaultConsumeOptions acknowledged.
Proof. solve_storable. Qed.

Lemma requeue_message_correct_witness :
  match RequeueMessage DefaultConsumeOptions "u" "v" 10000000 "m2" 11000000 11 "m1" life_4 with
  | (inr id, s') => id = "m2" ∧
      accounts_of sample_queue s' {["m2" := StatusPending; "m1" := StatusAcknowledged]}
  | (inl _, _) => False
  end.
Proof.
  pose proof (requeue_message_correct DefaultConsumeOptions "u" "v" 10000000 12000000 "m2" 11000000 11 "m1"
                acknowledged sample_params life_4 _ StatusAcknowledged life_4_accounts (sample_small _)
                sample_queue_wf eq_refl eq_refl) as H.
  assert (∃ id, (RequeueMessage DefaultConsumeOptions "u" "v" 10000000 "m2" 11000000 11 "m1" life_4).1 = inr id)
    as [id Hid] by (eexists; vm_compute; reflexivity).
  cbv zeta in H. destruct (RequeueMessage _ _ _ _ _ _ _ _ life_4) as [[e|id'] s']; [discriminate Hid|].
  destruct H as (H1 & _ & _ & H2 & _).
  - discriminate.
  - reflexivity.
  - vm_compute. reflexivity.
  - vm_compute. reflexivity.
  - exists 0. split; [vm_compute; reflexivity|vm_compute; split; discriminate].
  - exact acknowledged_storable.
  - vm_compute. reflexivity.
  - vm_compute. reflexivity.
  - vm_compute. split; discriminate.
  - split; [reflexivity|discriminate].
  - split; [exact H1|exact H2].
Defined.

(** ** Where the code leaves the protocol *)

Lemma refused_replies s q reply :
  refused s q = Some reply →
  reply = "QUEUE_STOPPED" ∨ reply = "QUEUE_LOCKED" ∨ reply = "QUEUE_INVALID_STATE".
Proof. unfold refused, state_check. repeat case_decide; naive_solver. Qed.

Lemma unacknowledge_refused rnow cfg now now' q c entries s reply :
  wt s → wf_queue q → is_Some (db s !! Properties q) → refused s q = Some reply →
  unacknowledge_message rnow (unack_keys q c entries) (unack_args cfg now now' entries) s =
  (Ret (inl reply), s).
Proof.
  intros Hw Hq Hex Hr. unfold unacknowledge_message. eval_consumer_args.
  erewrite bind_Ret; [|done]. rewrite bool_decide_eq_true_2 by done. cbn [negb].
  erewrite bind_Ret; [|apply hget_run; wt_view]. fold (op_state s q) (refused s q). by rewrite Hr.
Qed.

Lemma checkout_refused q id now s reply :
  wt s → wf_queue q → refused s q = Some reply →
  checkout_message (checkout_keys q id) (checkout_args now) s = (Ret (inl reply), s).
Proof.
  intros Hw Hq Hr. unfold checkout_message. eval_consumer_args.
  erewrite bind_Ret; [|apply hget_run; wt_view]. fold (op_state s q) (refused s q). by rewrite Hr.
Qed.

(** A message popped from a queue that is stopped, locked or in an unknown
    state is stranded: the checkout is refused, the unacknowledgement meant to
    put the message back is refused for the same reason (its reply is
    dropped), and the message stays in the consumer's processing list, out of
    reach of every other consumer, with its stored fields and all counters as
    before. *)
Theorem refused_checkout_strands cfg defaults uuid uuid' now rnow d s l v reply :
  let q := d_key d in
  let src := pending_key q (d_groupID d) in
  let dst := ConsumerProcessing q (d_consumerID d) in
  wt s → wf_queue q → no_colon (d_consumerID d) = true → no_colon (d_groupID d) = true →
  d_queueType d ≠ TypePriority → d_rateLimit d = None →
  is_Some (db s !! Properties q) → refused s q = Some reply →
  lst s src = l ++ [v] → v ≠ "" →
  ∃ err s', Dequeue cfg defaults uuid uuid' now rnow d s = (inl err, s') ∧
    lst s' src = l ∧ lst s' dst = v :: lst s dst ∧
    ∀ k, k ≠ src → k ≠ dst → db s' !! k = db s !! k.
Proof.
  intros q src dst Hw Hq Hc Hg Hty Hrl Hex Hr Hl Hv.
  pose proof (pop_fifo_run d Hq Hc Hg s Hw Hty) as Hpop. cbv zeta in Hpop.
  pose proof (pop_frame d Hq Hc Hg s Hw) as [Hw1 _].
  fold q in Hpop. fold src dst in Hpop. rewrite Hl, last_snoc, removelast_last in Hpop.
  rewrite Hpop in Hw1. cbn [snd] in Hw1. set (s1 := upd dst _ _) in *.
  destruct (pending_key_wf q (d_groupID d) Hq Hg) as (k & Hk & Htk & Hkeq & Hor).
  assert (src ≠ dst) as Hne.
  { unfold src, dst. rewrite Hkeq. apply (render_key_ne k (KConsumerProcessing q _)); [done|wf_parts|].
    by destruct Hor; subst k. }
  assert (Properties q ≠ src ∧ Properties q ≠ dst) as [Hn1 Hn2].
  { split; [|unfold dst; key_ne]. unfold src. rewrite Hkeq. apply (render_key_ne (KProperties q) k);
      [wf_parts|done|]. by destruct Hor; subst k. }
  assert (∀ k, k ≠ src → k ≠ dst → db s1 !! k = db s !! k) as Hf.
  { intros k' H1 H2. unfold s1. by rewrite !lookup_upd_ne. }
  assert (refused s1 q = Some reply) as Hr1.
  { rewrite <-Hr. unfold refused, op_state, hsh. by rewrite (Hf (Properties q)). }
  assert (∃ err, checkout defaults uuid uuid' now d v s1 = (inl err, s1) ∧
            is_Some (causeFromCheckoutError err)) as (err & Hck & [cause Hcause]).
  { unfold checkout. fold q. rewrite (checkout_refused q v now s1 reply) by done.
    destruct (refused_replies s1 q reply Hr1) as [-> | [-> | ->]]; eexists; by split. }
  exists err, s1. split.
  - unfold Dequeue, checkRateLimit. rewrite Hrl, Hpop, decide_False by done. rewrite Hck.
    f_equal. unfold unacknowledgePoppedMessage. rewrite Hcause. unfold UnacknowledgeBatch.
    cbn [buildBatchLuaArgs]. fold q. rewrite (unacknowledge_refused _ _ _ _ q _ _ s1 reply); try done.
    by rewrite (Hf (Properties q)).
  - split; [unfold s1; rewrite lst_upd_ne by done; apply lst_upd|].
    split; [unfold s1; apply lst_upd|done].
Qed.

Definition stopped_store : store :=
  upd (Properties sample_queue)
    (hash_val (<[qkey Q_OperationalState := itoa StateStopped]>
                 (hsh life_1 (Properties sample_queue)))) life_1.

Lemma stopped_store_wt : wt stopped_store.
Proof.
  apply (wt_upd_hash _ (KProperties sample_queue)); [apply life_1_accounts| |done].
  apply (bool_decide_unpack _). vm_compute. exact I.
Qed.

Lemma refused_checkout_strands_witness :
  ∃ err s', Dequeue DefaultConfig DefaultConsumeOptions "u" "v" 5 5 (dequeuer TypeFIFO)
              stopped_store = (inl err, s') ∧
    lst s' (Pending sample_queue) = [] ∧
    lst s' (ConsumerProcessing sample_queue "c1") = ["m1"].
Proof.
  destruct (refused_checkout_strands DefaultConfig DefaultConsumeOptions "u" "v" 5 5
              (dequeuer TypeFIFO) stopped_store [] "m1" "QUEUE_STOPPED" stopped_store_wt
              sample_queue_wf eq_refl eq_refl)
    as (err & s' & H1 & H2 & H3 & _).
  - discriminate.
  - reflexivity.
  - apply (bool_decide_unpack _). vm_compute. exact I.
  - vm_compute. reflexivity.
  - vm_compute. reflexivity.
  - discriminate.
  - exists err, s'. split; [exact H1|]. split; [exact H2|]. exact H3.
Defined.

(** Unacknowledging the processing list of a consumer that died between a
    pop and its checkout miscounts: the one message of the queue was counted
    as pending and never as processing, and afterwards it is counted as
    pending and as requeued while the processing counter is -1. *)
Theorem recovery_of_popped_message_miscounts :
  let s' := (UnacknowledgeProcessingQueue DefaultConfig DefaultConsumeOptions "u" "v" 9000000 9
               sample_queue "c1" CauseOfflineConsumer life_2).2 in
  counter life_2 sample_queue Q_PendingMessagesCount = 1 ∧
  counter life_2 sample_queue Q_ProcessingMessagesCount = 0 ∧
  lst s' (Published sample_queue) = ["m1"] ∧ lst s' (Requeued sample_queue) = ["m1"] ∧
  counter s' sample_queue Q_ProcessingMessagesCount = -1 ∧
  counter s' sample_queue Q_PendingMessagesCount = 1 ∧
  counter s' sample_queue Q_RequeuedMessagesCount = 1.
Proof. vm_compute. repeat split; reflexivity. Qed.
