(* ===== verification/Batch.v ===== *)
(** * Batching of acknowledgements

    internal/consumer/batch_acker.go and batch_unacker.go: both buffer what the
    handlers report and hand it on in batches, when the buffer is full, when a
    timer fires, or at shutdown.  The two types differ in what they buffer
    (message identifiers; messages with a cause) and in what a flushed batch is
    given to ([acknowledge] and [UnacknowledgeBatch] of Consume.v); the
    buffering is modelled once for any item.

    [Ack], [Unack], [Flush] and [Shutdown] hold the mutex for their whole body:
    each is one step.  The timer calls [flush] without the mutex: the goroutine
    of a fired timer has a step per access of the shared fields, and the methods
    of other goroutines, and further timers, run between these steps. *)

From S2P Require Import Prelude Keys Redis Types Message Consume.

(** ** Data *)

(** pkg/consumer/batch_config.go: the timeout in nanoseconds. *)
Record BatchConfig := { Enabled : bool; BatchSize : Z; BatchTimeout : Z }.

(** [sent] holds the batches given to goroutines, oldest first; [timer] says
    whether a timer is set. *)
Record batcher (A : Type) := Batcher { buffer : list A; timer : bool; sent : list (list A) }.
Arguments Batcher {_} _ _ _.
Arguments buffer {_} _.
Arguments timer {_} _.
Arguments sent {_} _.

Section batcher.
Context {A : Type} (cfg : BatchConfig).
Implicit Types b : batcher A.

Definition new_batcher : batcher A := Batcher [] false [].

(** ** Operations *)

Definition flush b : batcher A :=
  match buffer b with
  | [] => b
  | items => Batcher [] false (sent b ++ [items])
  end.

Definition add (x : A) b : batcher A :=
  if negb (Enabled cfg) then Batcher (buffer b) (timer b) (sent b ++ [[x]])
  else
    let b := Batcher (buffer b ++ [x]) (timer b) (sent b) in
    let b := if negb (timer b) then Batcher (buffer b) true (sent b) else b in
    if decide (BatchSize cfg ≤ Z.of_nat (length (buffer b)))%Z
    then flush (Batcher (buffer b) false (sent b))
    else b.

Definition Flush b : batcher A := flush b.
Definition Shutdown b : batcher A := flush (Batcher (buffer b) false (sent b)).

(** ** The methods under the mutex *)

Inductive bop := Add (x : A) | DoFlush | DoShutdown.

Definition run_op b (op : bop) : batcher A :=
  match op with
  | Add x => add x b
  | DoFlush => Flush b
  | DoShutdown => Shutdown b
  end.
Definition item (op : bop) : list A := match op with Add x => [x] | _ => [] end.

(** The limit on the size of a batch. *)
Definition limit : nat := Z.to_nat (Z.max 1 (BatchSize cfg)).

Record batch_ok b : Prop := {
  bo_room : (length (buffer b) < limit)%nat;
  bo_timer : timer b = true ↔ buffer b ≠ [];
  bo_sent : Forall (λ l : list A, l ≠ [] ∧ (length l ≤ limit)%nat) (sent b)
}.

Lemma new_ok : batch_ok new_batcher.
Proof. split; simpl; [unfold limit; lia|by split|constructor]. Qed.

(** A flush sends what is buffered, whatever the timer says. *)
Lemma flush_ok b :
  (length (buffer b) ≤ limit)%nat → (buffer b = [] → timer b = false) →
  Forall (λ l : list A, l ≠ [] ∧ (length l ≤ limit)%nat) (sent b) →
  batch_ok (flush b) ∧ buffer (flush b) = [] ∧
  concat (sent (flush b)) = concat (sent b) ++ buffer b.
Proof.
  intros Hl Ht Hs. unfold flush. destruct (buffer b) as [|x l] eqn:E.
  - rewrite app_nil_r. split; [|done]. split; [rewrite E; unfold limit; simpl; lia| |done].
    rewrite Ht, E by done. by split.
  - simpl. rewrite concat_app. simpl. rewrite app_nil_r. split; [|done]. split; simpl.
    + unfold limit. lia.
    + by split.
    + apply Forall_app. split; [done|]. constructor; [|constructor]. done.
Qed.

Lemma add_ok x b :
  batch_ok b → batch_ok (add x b) ∧
  (Enabled cfg = true →
   concat (sent (add x b)) ++ buffer (add x b) = (concat (sent b) ++ buffer b) ++ [x]).
Proof.
  intros [Hr Ht Hs]. unfold add. destruct (Enabled cfg) eqn:He; simpl.
  2: { split; [|done]. split; simpl; [done|done|]. apply Forall_app. split; [done|].
       constructor; [|constructor]. split; [done|]. simpl. unfold limit. lia. }
  set (b1 := Batcher (buffer b ++ [x]) true (sent b)).
  assert ((if negb (timer b) then b1 else Batcher (buffer b ++ [x]) (timer b) (sent b)) = b1) as ->.
  { unfold b1. by destruct (timer b). }
  assert (length (buffer b1) = S (length (buffer b))) as Hlen.
  { simpl. rewrite length_app. simpl. lia. }
  case_decide as Hsz.
  - destruct (flush_ok (Batcher (buffer b1) false (sent b1))) as (H1 & H2 & H3).
    + cbn [buffer]. lia.
    + done.
    + done.
    + split; [done|]. intros _. rewrite H2, H3. simpl. rewrite app_nil_r. by rewrite app_assoc.
  - split; [split|].
    + unfold limit in *. lia.
    + simpl. split; [|done]. intros _. by destruct (buffer b).
    + done.
    + intros _. simpl. by rewrite app_assoc.
Qed.

Lemma run_op_ok op b :
  batch_ok b → batch_ok (run_op b op) ∧
  (Enabled cfg = true →
   concat (sent (run_op b op)) ++ buffer (run_op b op) =
   (concat (sent b) ++ buffer b) ++ item op).
Proof.
  intros Hb. pose proof Hb as [Hr Ht Hs].
  assert (∀ t, (t = timer b ∨ t = false) →
    batch_ok (flush (Batcher (buffer b) t (sent b))) ∧
    concat (sent (flush (Batcher (buffer b) t (sent b)))) ++
      buffer (flush (Batcher (buffer b) t (sent b))) = concat (sent b) ++ buffer b) as Hflush.
  { intros t Hor. destruct (flush_ok (Batcher (buffer b) t (sent b))) as (H1 & H2 & H3); simpl.
    - lia.
    - intros E. destruct Hor as [-> | ->]; [|done]. destruct (timer b); [|done].
      by destruct (proj1 Ht eq_refl).
    - done.
    - split; [done|]. rewrite H2, H3. simpl. by rewrite app_nil_r. }
  destruct op as [x| |]; simpl.
  - by apply add_ok.
  - unfold Flush. destruct b as [l t k]. rewrite app_nil_r.
    destruct (Hflush t) as [H1 H2]; [by left|]. auto.
  - unfold Shutdown. rewrite app_nil_r. destruct (Hflush false) as [H1 H2]; [by right|]. auto.
Qed.

(** Whatever is added or flushed, an item stays in the buffer, at its place, or
    is handed on. *)
Lemma run_op_keeps op b i x :
  Enabled cfg = true → buffer b !! i = Some x →
  x ∈ concat (sent (run_op b op)) ∨ buffer (run_op b op) !! i = Some x.
Proof.
  intros He Hi.
  assert (∀ t l, l !! i = Some x → x ∈ concat (sent (flush (Batcher l t (sent b))))) as Hfl.
  { intros t [|y l] Hl; [done|]. unfold flush. simpl. rewrite concat_app, elem_of_app. right.
    simpl. rewrite app_nil_r. by eapply list_elem_of_lookup_2. }
  destruct op as [y| |]; simpl; [|left..].
  - unfold add. rewrite He. simpl. apply (lookup_app_l_Some _ [y]) in Hi.
    destruct (timer b); simpl; case_decide; auto.
  - unfold Flush. destruct b. by apply Hfl.
  - by apply Hfl.
Qed.

Lemma run_op_sent op b x : x ∈ concat (sent b) → x ∈ concat (sent (run_op b op)).
Proof.
  intros Hx. assert (∀ b, x ∈ concat (sent b) → x ∈ concat (sent (flush b))) as Hfl.
  { intros b0 H0. unfold flush. destruct (buffer b0); [done|]. simpl.
    rewrite concat_app. set_solver. }
  destruct op; simpl; [|by apply Hfl..]. unfold add.
  destruct (Enabled cfg); simpl; [|rewrite concat_app; set_solver].
  destruct (timer b); simpl; (case_decide; [by apply Hfl|done]).
Qed.

Lemma run_op_adds op b x :
  Enabled cfg = true → x ∈ item op →
  x ∈ concat (sent (run_op b op)) ∨ x ∈ buffer (run_op b op).
Proof.
  intros He. destruct op as [y| |]; simpl; [|by intros ?%elem_of_nil..].
  intros ->%list_elem_of_singleton. unfold add. rewrite He. simpl.
  assert (∀ t, y ∈ concat (sent (flush (Batcher (buffer b ++ [y]) t (sent b))))) as Hfl.
  { intros t. unfold flush. simpl. destruct (buffer b ++ [y]) as [|z l] eqn:E.
    - by destruct (buffer b).
    - simpl. rewrite <-E, concat_app. simpl. set_solver. }
  destruct (timer b); simpl; (case_decide; [left; apply Hfl|right; simpl; set_solver]).
Qed.

(** ** The timer without the mutex *)

(** The goroutine of a timer that has fired: it has not looked at the buffer yet;
    it has made a slice of the buffer's length; it has copied the buffer; it has
    emptied the buffer.  [zero] is what the slice is filled with before the copy. *)
Context (zero : A).
Inductive flusher := Started | Sized (n : nat) | Copied (items : list A) | Emptied (items : list A).

Definition busy (f : flusher) : bool := match f with Started => false | _ => true end.

(** [accepted]: the items added so far; [calm]: those added while no timer was
    inside [flush]; [alone]: never was a method or another timer's flush executed
    while a timer was inside [flush]. *)
Record racing := Racing {
  state : batcher A;
  flushers : list flusher;
  accepted : list A;
  calm : list A;
  alone : bool
}.
Definition quiet (r : racing) : bool := negb (existsb busy (flushers r)).
Definition new_racing : racing := Racing new_batcher [] [] [] true.

Inductive race_step : racing → racing → Prop :=
| race_call r op :
    race_step r (Racing (run_op (state r) op) (flushers r) (accepted r ++ item op)
                   (calm r ++ if quiet r then item op else []) (alone r && quiet r))
| race_fire r :
    timer (state r) = true →
    race_step r (Racing (state r) (flushers r ++ [Started]) (accepted r) (calm r) (alone r))
| race_nothing b fs fs' acc c al :
    buffer b = [] →
    race_step (Racing b (fs ++ Started :: fs') acc c al) (Racing b (fs ++ fs') acc c al)
| race_size b fs fs' acc c al :
    buffer b ≠ [] →
    race_step (Racing b (fs ++ Started :: fs') acc c al)
      (Racing b (fs ++ Sized (length (buffer b)) :: fs') acc c
         (al && quiet (Racing b (fs ++ Started :: fs') acc c al)))
| race_copy b fs n fs' acc c al :
    race_step (Racing b (fs ++ Sized n :: fs') acc c al)
      (Racing b (fs ++ Copied (take n (buffer b) ++ replicate (n - length (buffer b)) zero) :: fs')
         acc c al)
| race_empty b fs items fs' acc c al :
    race_step (Racing b (fs ++ Copied items :: fs') acc c al)
      (Racing (Batcher [] (timer b) (sent b)) (fs ++ Emptied items :: fs') acc c al)
| race_hand b fs items fs' acc c al :
    race_step (Racing b (fs ++ Emptied items :: fs') acc c al)
      (Racing (Batcher (buffer b) false (sent b ++ [items])) (fs ++ fs') acc c al).

(** *** Items added outside a timer's flush are not lost *)

Definition carries (f : flusher) : list A :=
  match f with Copied items | Emptied items => items | _ => [] end.

Definition covers (i : nat) (f : flusher) : Prop :=
  match f with Started => True | Sized n => (i < n)%nat | _ => False end.

(** Where an item is: handed on, in the copy of some timer, or in the buffer, where
    every timer that will empty the buffer is still to copy it. *)
Definition safe (r : racing) (x : A) : Prop :=
  x ∈ concat (sent (state r)) ∨ x ∈ flushers r ≫= carries ∨
  ∃ i, buffer (state r) !! i = Some x ∧ Forall (covers i) (flushers r).

Lemma quiet_covers r i : quiet r = true → Forall (covers i) (flushers r).
Proof.
  unfold quiet. intros H%negb_true_iff. apply Forall_forall. intros f Hf.
  destruct f; try done; exfalso;
    (assert (existsb busy (flushers r) = true) as Hb;
     [apply existsb_exists; eexists; split; [by apply list_elem_of_In|done]|congruence]).
Qed.

Lemma race_step_safe r r' x :
  Enabled cfg = true → (∀ y, y ∈ calm r → safe r y) → race_step r r' → x ∈ calm r' → safe r' x.
Proof.
  intros He Hsafe Hst. destruct Hst; simpl in *.
  - rewrite elem_of_app. intros [Hx|Hx].
    + destruct (Hsafe x Hx) as [H|[H|(i & Hi & Hc)]].
      * left. by apply run_op_sent.
      * right. by left.
      * destruct (run_op_keeps op (state r) i x He Hi); [by left|]. right. right. eauto.
    + destruct (quiet r) eqn:Eq; [|by apply elem_of_nil in Hx].
      destruct (run_op_adds op (state r) x He Hx) as [H|H]; [by left|].
      apply list_elem_of_lookup in H as [i Hi]. right. right. exists i.
      split; [done|]. by apply quiet_covers.
  - intros Hx. destruct (Hsafe x Hx) as [H0|[H0|(i & Hi & Hc)]]; [by left|right..].
    + left. simpl. rewrite bind_app, elem_of_app. by left.
    + right. exists i. split; [done|]. apply Forall_app. split; [done|]. by repeat constructor.
  - intros Hx. destruct (Hsafe x Hx) as [H0|[H0|(i & Hi & Hc)]]; simpl in *.
    + by left.
    + right. left. simpl. rewrite bind_app in *. by set_solver.
    + by rewrite H in Hi.
  - intros Hx. destruct (Hsafe x Hx) as [H0|[H0|(i & Hi & Hc)]]; simpl in *.
    + by left.
    + right. left. simpl. rewrite bind_app in *. simpl in *. by set_solver.
    + right. right. exists i. split; [done|]. simpl. apply Forall_app in Hc as [H1 H2].
      inversion H2. apply Forall_app. split; [done|]. constructor; [|done]. simpl.
      by eapply lookup_lt_Some.
  - intros Hx. destruct (Hsafe x Hx) as [H0|[H0|(i & Hi & Hc)]]; simpl in *.
    + by left.
    + right. left. simpl. rewrite bind_app in *. simpl in *. by set_solver.
    + right. left. simpl. rewrite bind_app. simpl. apply Forall_app in Hc as [H1 H2].
      inversion H2 as [|? ? Hn]; subst. simpl in Hn. rewrite !elem_of_app. right. left. left.
      apply list_elem_of_lookup. exists i. by rewrite lookup_take_lt.
  - intros Hx. destruct (Hsafe x Hx) as [H0|[H0|(i & Hi & Hc)]]; simpl in *.
    + by left.
    + right. left. simpl. rewrite bind_app in *. simpl in *. by set_solver.
    + apply Forall_app in Hc as [_ Hc]. by inversion Hc.
  - intros Hx. destruct (Hsafe x Hx) as [H0|[H0|(i & Hi & Hc)]]; simpl in *.
    + left. simpl. rewrite concat_app. set_solver.
    + rewrite bind_app in H0. simpl in H0. rewrite !elem_of_app in H0.
      destruct H0 as [H0|[H0|H0]]; [right; left; simpl; rewrite bind_app; by set_solver
        |left; simpl; rewrite concat_app; simpl; set_solver|right; left; simpl; rewrite bind_app; by set_solver].
    + apply Forall_app in Hc as [_ Hc]. by inversion Hc.
Qed.

(** *** Exactness while no call overlaps a timer's flush *)

Definition sent_ok b : Prop := Forall (λ l : list A, l ≠ [] ∧ (length l ≤ limit)%nat) (sent b).

(** The batcher with the one timer that is inside [flush], if there is one. *)
Definition exact (b : batcher A) (inside : list flusher) (acc : list A) : Prop :=
  match inside with
  | [] => batch_ok b ∧ concat (sent b) ++ buffer b = acc
  | [Sized n] => batch_ok b ∧ concat (sent b) ++ buffer b = acc ∧ n = length (buffer b) ∧
                 buffer b ≠ []
  | [Copied items] => batch_ok b ∧ concat (sent b) ++ buffer b = acc ∧ items = buffer b ∧
                      buffer b ≠ []
  | [Emptied items] => sent_ok b ∧ buffer b = [] ∧ concat (sent b) ++ items = acc ∧
                       items ≠ [] ∧ (length items ≤ limit)%nat
  | _ => False
  end.

Definition inside (r : racing) : list flusher := filter busy (flushers r).

Lemma quiet_inside r : quiet r = true ↔ inside r = [].
Proof.
  unfold quiet, inside. induction (flushers r) as [|f fs IH]; [done|].
  rewrite filter_cons. destruct f; simpl; [done|by split..].
Qed.

Lemma inside_app b fs f fs' acc c al :
  inside (Racing b (fs ++ f :: fs') acc c al) = filter busy fs ++ filter busy [f] ++ filter busy fs'.
Proof. unfold inside. simpl. change (f :: fs') with ([f] ++ fs'). by rewrite !filter_app. Qed.

(** When a timer is inside [flush] and no call overlaps, it is the only one. *)
Lemma exact_only b fs f fs' acc :
  busy f = true → exact b (filter busy fs ++ [f] ++ filter busy fs') acc →
  filter busy fs = [] ∧ filter busy fs' = [] ∧ exact b [f] acc.
Proof.
  intros Hb Hex. destruct (filter busy fs) as [|g l]; simpl in *.
  - destruct f; try done; destruct (filter busy fs'); done.
  - by destruct g, l.
Qed.

Lemma race_step_exact r r' :
  Enabled cfg = true → (alone r = true → exact (state r) (inside r) (accepted r)) →
  race_step r r' → alone r' = true → exact (state r') (inside r') (accepted r').
Proof.
  intros He Hex Hst. destruct Hst; cbn [alone state accepted] in *.
  - intros [Ha Hq]%andb_true_iff. specialize (Hex Ha). apply quiet_inside in Hq.
    change (inside _) with (inside r). rewrite Hq in *. destruct Hex as [Hok Hacc].
    destruct (run_op_ok op (state r) Hok) as [H1 H2]. split; [done|].
    by rewrite H2, Hacc by done.
  - intros Ha. unfold inside. simpl. rewrite filter_app, filter_cons. simpl. rewrite app_nil_r. auto.
  - intros Ha. specialize (Hex Ha). rewrite inside_app in Hex. unfold inside. simpl.
    by rewrite filter_app.
  - intros [Ha Hq]%andb_true_iff. specialize (Hex Ha). apply quiet_inside in Hq.
    rewrite Hq in Hex. rewrite inside_app in *. apply app_eq_nil in Hq as [Hq1 Hq2].
    apply app_eq_nil in Hq2 as [_ Hq2]. rewrite Hq1, Hq2. by destruct Hex.
  - intros Ha. specialize (Hex Ha). rewrite inside_app in *.
    apply exact_only in Hex as (H1 & H2 & Hex); [|done]. rewrite H1, H2.
    destruct Hex as (Hok & Hacc & -> & Hne). split_and!; try done.
    rewrite Nat.sub_diag, firstn_all. simpl. by rewrite app_nil_r.
  - intros Ha. specialize (Hex Ha). rewrite inside_app in *.
    apply exact_only in Hex as (H1 & H2 & Hex); [|done]. rewrite H1, H2.
    destruct Hex as ([Hr Ht Hs] & Hacc & -> & Hne). split_and!; try done. simpl. lia.
  - intros Ha. specialize (Hex Ha). rewrite inside_app in Hex.
    apply exact_only in Hex as (H1 & H2 & Hex); [|done]. unfold inside. simpl.
    rewrite filter_app, H1, H2. destruct Hex as (Hs & Hb & Hacc & Hne & Hl). simpl. rewrite Hb.
    split; [split; simpl|].
    + unfold limit. lia.
    + by split.
    + apply Forall_app. split; [done|]. by repeat constructor.
    + rewrite concat_app. simpl. by rewrite !app_nil_r.
Qed.

Lemma race_steps_ok r :
  Enabled cfg = true → rtc race_step new_racing r →
  (∀ x, x ∈ calm r → safe r x) ∧
  (alone r = true → exact (state r) (inside r) (accepted r)).
Proof.
  intros He Hr. pattern r. revert r Hr. apply rtc_ind_r.
  - split; [by intros x ?%elem_of_nil|]. intros _. split; [apply new_ok|done].
  - intros r1 r2 _ Hst [H1 H2].
    split; [intros x; by eapply race_step_safe|by eapply race_step_exact].
Qed.
End batcher.
Arguments bop : clear implicits.
Arguments racing : clear implicits.
Arguments new_racing {_}.

(** ** The two batchers *)

Definition Ack (cfg : BatchConfig) (messageID : string) (b : batcher string) : batcher string :=
  add cfg messageID b.
Definition acker_Flush (b : batcher string) : batcher string := Flush b.
Definition acker_Shutdown (b : batcher string) : batcher string := Shutdown b.

Definition Unack (cfg : BatchConfig) (msg : Envelope) (cause : Z) (b : batcher UnackEntry)
    : batcher UnackEntry := add cfg {| ue_Message := msg; ue_Cause := cause |} b.
Definition unacker_Flush (b : batcher UnackEntry) : batcher UnackEntry := Flush b.
Definition unacker_Shutdown (b : batcher UnackEntry) : batcher UnackEntry := Shutdown b.

(** The events of a batch of unacknowledgements, published once the script has
    run without a Redis error. *)
Inductive consumer_event :=
| EvUnacknowledged (id : string) (cause : Z)
| EvDeadLettered (id : string) (cause : Z)
| EvDelayed (id : string)
| EvRequeued (id : string).

Definition unack_events (now : Z) (entry : UnackEntry) : list consumer_event :=
  let id := ID (ue_Message entry) in
  let '(action, deadLetterCause) := resolveUnackAction now (ue_Message entry) (ue_Cause entry) in
  if decide (action = ActionDeadLetter)
  then [EvUnacknowledged id (ue_Cause entry); EvDeadLettered id deadLetterCause]
  else if decide (action = ActionDelay) then [EvUnacknowledged id (ue_Cause entry); EvDelayed id]
  else if decide (action = ActionRequeue)
       then [EvUnacknowledged id (ue_Cause entry); EvRequeued id]
  else [].

(** [cfg] is the message audit configuration the script arguments depend on. *)
Definition unacknowledge (cfg : ConfigRec) (now rnow : Z) (q : Queue) (consumerID : string)
    (entries : list UnackEntry) (s : store) : list consumer_event * store :=
  match UnacknowledgeBatch cfg now rnow q consumerID entries s with
  | (Some _, s') => ([], s')
  | (None, s') => (entries ≫= unack_events now, s')
  end.

(** C34: what batching loses and keeps, with the timer's flush interleaved with
    the methods access by access.  An item that was added while no timer was
    inside [flush] is not lost: in every state reached it is in a batch handed on,
    in the copy a timer is about to hand on, or in the buffer.  As long as no
    method and no other timer ran while a timer was inside [flush], and none is
    inside now, the batches handed on followed by the buffer are exactly the items
    in the order they were added, every batch is non-empty and within the size
    limit, the buffer has room for another item, a timer is set exactly while
    something is buffered, and a shutdown hands on everything.  Without that
    condition items are lost ([timer_flush_race_loses]). *)
Theorem batching_lossless {A} (cfg : BatchConfig) (zero : A) (r : racing A) :
  Enabled cfg = true → rtc (race_step cfg zero) new_racing r →
  let b := state r in
  (∀ x, x ∈ calm r → x ∈ concat (sent b) ++ (flushers r ≫= carries) ++ buffer b) ∧
  (alone r = true → quiet r = true →
   concat (sent b) ++ buffer b = accepted r ∧
   (length (buffer b) < limit cfg)%nat ∧ (timer b = true ↔ buffer b ≠ []) ∧
   Forall (λ l, l ≠ [] ∧ (length l ≤ limit cfg)%nat) (sent b) ∧
   concat (sent (Shutdown b)) = accepted r ∧ buffer (Shutdown b) = []).
Proof.
  intros He Hr b. destruct (race_steps_ok cfg zero r He Hr) as [Hsafe Hex]. split.
  - intros x Hx. rewrite !elem_of_app. destruct (Hsafe x Hx) as [H|[H|(i & Hi & _)]]; auto.
    right. right. by eapply list_elem_of_lookup_2.
  - intros Ha Hq. specialize (Hex Ha). apply quiet_inside in Hq. rewrite Hq in Hex.
    destruct Hex as [[Hroom Ht Hs] Hc]. fold b in Hroom, Ht, Hs, Hc.
    destruct (flush_ok cfg (Batcher (buffer b) false (sent b))) as (_ & H2 & H3); simpl; try done; [lia|].
    split_and!; try done. unfold Shutdown. by rewrite H3.
Qed.

Definition sample_batching : BatchConfig := {| Enabled := true; BatchSize := 3; BatchTimeout := 1 |}.

(** Two additions, a timer's flush, and another addition. *)
Lemma batching_lossless_witness :
  ∃ r, rtc (race_step sample_batching "") new_racing r ∧ quiet r = true ∧
    concat (sent (state r)) ++ buffer (state r) = ["a"; "b"; "c"] ∧
    sent (state r) = [["a"; "b"]] ∧ concat (sent (Shutdown (state r))) = ["a"; "b"; "c"].
Proof.
  set (r := Racing (Batcher ["c"] true [["a"; "b"]]) [] ["a"; "b"; "c"] ["a"; "b"; "c"] true).
  assert (rtc (race_step sample_batching "") new_racing r) as Hr.
  { eapply rtc_l; [exact (race_call sample_batching "" new_racing (Add "a"))|].
    eapply rtc_l; [eapply (race_call sample_batching "" _ (Add "b"))|].
    eapply rtc_l; [eapply race_fire; reflexivity|].
    eapply rtc_l; [eapply (race_size sample_batching "" _ [] []); vm_compute; discriminate|].
    eapply rtc_l; [eapply (race_copy sample_batching "" _ [] _ [])|].
    eapply rtc_l; [eapply (race_empty sample_batching "" _ [] _ [])|].
    eapply rtc_l; [eapply (race_hand sample_batching "" _ [] _ [])|].
    apply rtc_once. exact (race_call sample_batching "" _ (Add "c")). }
  destruct (batching_lossless sample_batching "" r eq_refl Hr) as [_ H].
  destruct (H eq_refl eq_refl) as (H1 & _ & _ & _ & H2 & _).
  exists r. split; [exact Hr|]. split; [reflexivity|]. split; [exact H1|].
  split; [reflexivity|]. exact H2.
Defined.

(** The timer's flush loses an acknowledgement: added after the copy of the buffer
    and before its reset, it is in no batch, in no copy and not in the buffer. *)
Theorem timer_flush_race_loses :
  ∃ r, rtc (race_step sample_batching "") new_racing r ∧ quiet r = true ∧
    accepted r = ["a"; "b"] ∧ sent (state r) = [["a"]] ∧ buffer (state r) = [].
Proof.
  exists (Racing (Batcher [] false [["a"]]) [] ["a"; "b"] ["a"] false). split; [|done].
  eapply rtc_l; [exact (race_call sample_batching "" new_racing (Add "a"))|].
  eapply rtc_l; [eapply race_fire; reflexivity|].
  eapply rtc_l; [eapply (race_size sample_batching "" _ [] []); vm_compute; discriminate|].
  eapply rtc_l; [eapply (race_copy sample_batching "" _ [] _ [])|].
  eapply rtc_l; [eapply (race_call sample_batching "" _ (Add "b"))|].
  eapply rtc_l; [eapply (race_empty sample_batching "" _ [] _ [])|].
  apply rtc_once.
  exact (race_hand sample_batching "" (Batcher [] true []) [] ["a"] [] ["a"; "b"] ["a"] false).
Qed.
