(* ===== verification/QueueState.v ===== *)
(** * Queue states

    internal/queue/state.go and the script core/set-queue-state.lua: the
    operational state of a queue, its exclusive lock and the history of its
    transitions, which is stored as JSON (pkg/queue/state_transition.go).

    A transition is decided on a state that was read before the script runs, so
    the keyspace may have changed in between.  The script compares the state
    again, and the safety results are about its run on an arbitrary keyspace. *)

From S2P Require Import Prelude Keys Redis RedisFacts Types Keyspace Json Message MessageCodec.
From S2P Require Import Publish Consume Accounts Accounting Delivery Lifecycle.
#[local] Open Scope Z_scope.

(** ** Transitions (pkg/queue/state_transition.go, lock_owner.go)

    A metadata map is given by its fields in the order encoding/json writes
    them (sorted by key); a nil and an empty map are both []: [omitempty]
    leaves both out. *)

Definition ReasonSystemInit : string := "SYSTEM_INIT".
Definition ReasonManual : string := "MANUAL".
Definition LockOwnerPurgeJob : Z := 0.

Record StateTransition := {
  From : option Z;
  To : Z;
  Reason : string;
  Timestamp : Z;
  Description : string;
  LockID : option string;
  Owner : option Z;
  Metadata : list (string * json)
}.

Record StateTransitionOptions := {
  opt_Reason : option string;
  opt_Description : option string;
  opt_LockID : option string;
  opt_Owner : option Z;
  opt_Metadata : option (list (string * json))
}.

Definition transition_json (t : StateTransition) : json := JObj (
  [("from", match From t with Some z => JNum z | None => JNull end);
   ("to", JNum (To t)); ("reason", JStr (Reason t)); ("timestamp", JNum (Timestamp t))] ++
  omit "description" JStr (nonempty (Description t)) ++
  omit "lockId" JStr (LockID t) ++
  omit "lockOwner" JNum (Owner t) ++
  omit "metadata" JObj (match Metadata t with [] => None | m => Some m end)).

Definition as_object (j : json) : option (list (string * json)) :=
  match j with JObj l => Some l | _ => None end.

Definition transition_of_json (j : json) : option StateTransition :=
  match j with
  | JNull => Some {| From := None; To := 0; Reason := ""; Timestamp := 0; Description := "";
                     LockID := None; Owner := None; Metadata := [] |}
  | JObj l =>
      from ← get_opt as_int "from" l;
      to ← get_or 0 as_int "to" l;
      reason ← get_or "" as_text "reason" l;
      timestamp ← get_or 0 as_int "timestamp" l;
      description ← get_or "" as_text "description" l;
      lockId ← get_opt as_text "lockId" l;
      owner ← get_opt as_int "lockOwner" l;
      metadata ← get_or [] as_object "metadata" l;
      Some {| From := from; To := to; Reason := reason; Timestamp := timestamp;
              Description := description; LockID := lockId; Owner := owner;
              Metadata := metadata |}
  | _ => None
  end.

Definition marshal_transition (t : StateTransition) : string := print (transition_json t).
Definition unmarshal_transition (data : string) : option StateTransition :=
  parse_json data ≫= transition_of_json.

(** ** core/set-queue-state.lua *)

Definition set_queue_state (keys args : list string) : M string :=
  let keyQueueProperties := arg keys 1 in
  let keyQueueStateHistory := arg keys 2 in
  let newState := arg args 2 in
  let expectedPreviousState := arg args 4 in
  let locked := arg args 7 in
  let lockId := arg args 8 in
  let maxQueueStateHistorySize := (ParseInt (arg args 6)).1 in
  ex ← cmd_exists keyQueueProperties;
  if negb ex then mret "QUEUE_NOT_FOUND"
  else
    currentStateValue ← cmd_hget keyQueueProperties (arg args 1);
    let currentState := default (arg args 5) currentStateValue in
    if decide (expectedPreviousState ≠ "" ∧ currentState ≠ expectedPreviousState)
    then mret "INVALID_STATE_TRANSITION"
    else
      lockValue ← cmd_hget keyQueueProperties (arg args 11);
      let currentLockId := default "" lockValue in
      ok ← (if decide (newState = locked) then
              if decide (lockId = "") then mret false
              else _ ← cmd_hset keyQueueProperties [(arg args 11, lockId)]; mret true
            else if decide (currentState = locked) then
              if decide (lockId = "") then mret false
              else if decide (currentLockId = "" ∨ currentLockId ≠ lockId) then mret false
              else _ ← cmd_hdel keyQueueProperties (arg args 11); mret true
            else mret true);
      if negb ok then mret "INVALID_LOCK"
      else
        _ ← cmd_hset keyQueueProperties [(arg args 1, newState)];
        _ ← cmd_hset keyQueueProperties [(arg args 9, arg args 10)];
        _ ← cmd_lpush keyQueueStateHistory (arg args 3);
        _ ← cmd_ltrim keyQueueStateHistory 0 (maxQueueStateHistorySize - 1);
        mret "OK".

(** ** internal/queue/state.go *)

Inductive state_error :=
| StNotFound | StInvalidTransition | StInvalidLock | StNotLocked
| StLockOwnerMismatch | StLockIDMismatch
| StUnexpectedReply (reply : string) | StRedis | StJSON.

Definition maxHistorySize : Z := 100.

Definition newInitialTransition (now : Z) (state : Z) : StateTransition :=
  {| From := None; To := state; Reason := ReasonSystemInit; Timestamp := UnixMilli now;
     Description := ""; LockID := None; Owner := None; Metadata := [] |}.

Definition newTransition (now : Z) (from : option Z) (to : Z) (reason : string)
    (opts : option StateTransitionOptions) : StateTransition :=
  match opts with
  | None => {| From := from; To := to; Reason := reason; Timestamp := UnixMilli now;
               Description := ""; LockID := None; Owner := None; Metadata := [] |}
  | Some o =>
      {| From := from; To := to; Reason := reason; Timestamp := UnixMilli now;
         Description := default "" (opt_Description o); LockID := opt_LockID o;
         Owner := opt_Owner o; Metadata := default [] (opt_Metadata o) |}
  end.

Definition reasonFromOpts (opts : option StateTransitionOptions) : string :=
  default ReasonManual (opts ≫= opt_Reason).
Definition extractLockID (opts : option StateTransitionOptions) : string :=
  default "" (opts ≫= opt_LockID).

Definition interpretReply (reply : string) (t : StateTransition) : state_error + StateTransition :=
  if decide (reply = "OK") then inr t
  else if decide (reply = "QUEUE_NOT_FOUND") then inl StNotFound
  else if decide (reply = "INVALID_STATE_TRANSITION") then inl StInvalidTransition
  else if decide (reply = "INVALID_LOCK") then inl StInvalidLock
  else inl (StUnexpectedReply reply).

Definition state_keys (q : Queue) : list string := [Properties q; StateHistory q].
Definition state_args (t : StateTransition) (from : option Z) (to : Z)
    (opts : option StateTransitionOptions) : list string :=
  [qkey Q_OperationalState; itoa to; marshal_transition t;
   match from with Some f => itoa f | None => "" end;
   itoa StateActive; itoa maxHistorySize; itoa StateLocked; extractLockID opts;
   qkey Q_LastStateChangeAt; itoa (Timestamp t); qkey Q_LockID].

Definition saveState (now : Z) (q : Queue) (from : option Z) (to : Z) (reason : string)
    (opts : option StateTransitionOptions) (s : store) : (state_error + StateTransition) * store :=
  let t := newTransition now from to reason opts in
  match set_queue_state (state_keys q) (state_args t from to opts) s with
  | (Err _, s') => (inl StRedis, s')
  | (Ret reply, s') => (interpretReply reply t, s')
  end.

Definition FetchCurrent (now : Z) (q : Queue) (s : store) : state_error + StateTransition :=
  match (cmd_hget (Properties q) (qkey Q_OperationalState) s).1 with
  | Ret (Some raw) =>
      let current := if decide (raw ≠ "") then
                       match ParseInt raw with (v, None) => v | _ => StateActive end
                     else StateActive in
      match (cmd_lindex0 (StateHistory q) s).1 with
      | Ret (Some latest) =>
          match unmarshal_transition latest with
          | Some t => inr t
          | None => inl StJSON
          end
      | _ => inr (newInitialTransition now current)
      end
  | _ => if decide (is_Some (db s !! Properties q)) then inl StRedis else inl StNotFound
  end.

Definition FetchHistory (q : Queue) (s : store) : state_error + list StateTransition :=
  match (cmd_lrange_all (StateHistory q) s).1 with
  | Err _ => inl StRedis
  | Ret raw => match mapM unmarshal_transition raw with Some l => inr l | None => inl StJSON end
  end.

(** The decisions: what is saved, given the state that was read. *)
Definition transition_decision (target : Z) (current : StateTransition) : option state_error :=
  if negb (CanTransitionTo (To current) target) then Some StInvalidTransition else None.

Definition lock_options (owner : Z) (id : string) (opts : option StateTransitionOptions)
    : StateTransitionOptions :=
  {| opt_Reason := None;
     opt_Description := Some (default "Exclusive lock" (opts ≫= opt_Description));
     opt_LockID := Some id; opt_Owner := Some owner; opt_Metadata := opts ≫= opt_Metadata |}.
Definition unlock_options (id : string) (opts : option StateTransitionOptions)
    : StateTransitionOptions :=
  {| opt_Reason := None;
     opt_Description := Some (default "Queue unlocked" (opts ≫= opt_Description));
     opt_LockID := Some id; opt_Owner := None; opt_Metadata := opts ≫= opt_Metadata |}.

Definition release_decision (owner : Z) (id : string) (current : StateTransition)
    : option state_error :=
  if decide (To current ≠ StateLocked) then Some StNotLocked
  else if decide (Owner current ≠ Some owner) then Some StLockOwnerMismatch
  else if decide (LockID current ≠ Some id) then Some StLockIDMismatch
  else None.

Definition transitionTo (now : Z) (q : Queue) (target : Z) (reason : string)
    (opts : option StateTransitionOptions) (s : store) : (state_error + StateTransition) * store :=
  match FetchCurrent now q s with
  | inl e => (inl e, s)
  | inr current =>
      match transition_decision target current with
      | Some e => (inl e, s)
      | None => saveState now q (Some (To current)) target reason opts s
      end
  end.

Definition acquireLock (now : Z) (q : Queue) (owner : Z) (id reason : string)
    (opts : option StateTransitionOptions) (s : store) : (state_error + StateTransition) * store :=
  if decide (id = "") then (inl StInvalidLock, s)
  else match FetchCurrent now q s with
  | inl e => (inl e, s)
  | inr current =>
      match transition_decision StateLocked current with
      | Some e => (inl e, s)
      | None => saveState now q (Some (To current)) StateLocked reason
                  (Some (lock_options owner id opts)) s
      end
  end.

Definition releaseLock (now : Z) (q : Queue) (owner : Z) (id reason : string)
    (opts : option StateTransitionOptions) (s : store) : (state_error + StateTransition) * store :=
  if decide (id = "") then (inl StInvalidLock, s)
  else match FetchCurrent now q s with
  | inl e => (inl e, s)
  | inr current =>
      match release_decision owner id current with
      | Some e => (inl e, s)
      | None => saveState now q (Some (To current)) StateActive reason
                  (Some (unlock_options id opts)) s
      end
  end.

Definition TransitionTo now q target opts s := transitionTo now q target (reasonFromOpts opts) opts s.
Definition AcquireLock now q owner id opts s :=
  acquireLock now q owner id (reasonFromOpts opts) opts s.
Definition ReleaseLock now q owner id opts s :=
  releaseLock now q owner id (reasonFromOpts opts) opts s.

(** internal/queue/state_manager.go *)
Definition Pause now q opts s := TransitionTo now q StatePaused opts s.
Definition Resume now q opts s := TransitionTo now q StateActive opts s.
Definition Stop now q opts s := TransitionTo now q StateStopped opts s.

(** ** The JSON of a transition *)

Record transition_in_range (t : StateTransition) : Prop := {
  tr_from : ∀ z, From t = Some z → in_int64 z;
  tr_to : in_int64 (To t);
  tr_time : in_int64 (Timestamp t);
  tr_owner : ∀ z, Owner t = Some z → in_int64 z
}.

Lemma transition_roundtrip t :
  transition_in_range t → unmarshal_transition (marshal_transition t) = Some t.
Proof.
  intros [Hf Ht Hs Ho]. unfold unmarshal_transition, marshal_transition. rewrite parse_print.
  cbn [mbind option_bind]. destruct t as [from to reason ts desc lid own meta]. cbn in Hf, Ht, Hs, Ho.
  unfold transition_json, transition_of_json.
  cbn [From To Reason Timestamp Description LockID Owner Metadata].
  match goal with |- context [get_opt as_int "from" ?x] => set (l := x) end.
  assert (get_opt as_int "from" l = Some from) as ->.
  { unfold get_opt. assert (jfield "from" l = Some match from with Some z => JNum z | None => JNull end)
      as -> by (unfold l; jfields). destruct from as [z|]; [|done].
    by rewrite as_int_num by auto. }
  assert (get_or 0 as_int "to" l = Some to) as ->.
  { eapply get_or_eq; [unfold l; jfields|by apply as_int_num|done]. }
  assert (get_or "" as_text "reason" l = Some reason) as ->.
  { eapply get_or_eq; [unfold l; jfields|done|done]. }
  assert (get_or 0 as_int "timestamp" l = Some ts) as ->.
  { eapply get_or_eq; [unfold l; jfields|by apply as_int_num|done]. }
  assert (get_or "" as_text "description" l = Some desc) as ->.
  { apply get_or_nonempty. unfold l; jfields. }
  assert (get_opt as_text "lockId" l = Some lid) as ->.
  { apply (get_opt_eq as_text JStr); [unfold l; jfields|done]. }
  assert (get_opt as_int "lockOwner" l = Some own) as ->.
  { apply (get_opt_eq as_int JNum); [unfold l; jfields|]. intros z ->. by rewrite as_int_num by auto. }
  assert (get_or [] as_object "metadata" l = Some meta) as ->; [|done].
  unfold get_or, get_opt.
  assert (jfield "metadata" l = JObj <$> match meta with [] => None | m => Some m end) as ->
    by (unfold l; destruct meta; jfields).
  by destruct meta.
Qed.

(** ** A run of the script *)

Definition lock_field (s : store) (q : Queue) : string :=
  default "" (hsh s (Properties q) !! qkey Q_LockID).

(** The state changed since it was read. *)
Definition stale (s : store) (q : Queue) (from : option Z) : bool :=
  match from with Some f => bool_decide (op_state s q ≠ itoa f) | None => false end.

(** The reply, as a function of the state and lock found. *)
Definition state_reply (s : store) (q : Queue) (from : option Z) (to : Z) (lockId : string) : string :=
  if stale s q from then "INVALID_STATE_TRANSITION"
  else if decide (to = StateLocked) then if decide (lockId = "") then "INVALID_LOCK" else "OK"
  else if decide (op_state s q = itoa StateLocked) then
    if decide (lockId ≠ "" ∧ lock_field s q = lockId) then "OK" else "INVALID_LOCK"
  else "OK".

(** The lock field and the properties after an accepted transition. *)
Definition props_after (s : store) (q : Queue) (to : Z) (lockId : string) (ts : Z)
    : gmap string string :=
  let h := hsh s (Properties q) in
  let h := if decide (to = StateLocked) then <[qkey Q_LockID := lockId]> h
           else if decide (op_state s q = itoa StateLocked) then delete (qkey Q_LockID) h else h in
  <[qkey Q_LastStateChangeAt := itoa ts]> (<[qkey Q_OperationalState := itoa to]> h).

Record state_saved (q : Queue) (t : StateTransition) (to : Z) (lockId : string) (s s' : store) : Prop := {
  ss_wt : wt s';
  ss_props : hsh s' (Properties q) = props_after s q to lockId (Timestamp t);
  ss_history : lst s' (StateHistory q) = take 100 (marshal_transition t :: lst s (StateHistory q));
  ss_other : ∀ k, k ≠ Properties q → k ≠ StateHistory q → db s' !! k = db s !! k
}.

Lemma ltrim_prefix n l : l ≠ [] → (0 < n)%nat → ltrim 0 (Z.of_nat n - 1) l = take n l.
Proof.
  intros Hl Hn. unfold ltrim. rewrite (decide_False (P := (0 < 0))) by lia.
  rewrite (decide_False (P := (Z.of_nat n - 1 < 0))) by lia.
  assert (length l ≠ 0%nat) by (by destruct l).
  rewrite decide_False by lia. cbn [Z.to_nat]. rewrite drop_0.
  destruct (decide (n <= length l)%nat).
  - f_equal. lia.
  - rewrite !take_ge; [done|lia..].
Qed.

Ltac eval_state_args :=
  repeat match goal with
  | |- context [arg ?l ?i] =>
      let v := eval cbv [arg nth Nat.sub state_keys state_args] in (arg l i) in
      progress change (arg l i) with v
  end.

(** The writes after the checks, once the lock field has been dealt with. *)
Lemma save_tail_run q t to opts s1 s :
  wt s → wt s1 → wf_queue q → (∀ k, k ≠ Properties q → db s1 !! k = db s !! k) →
  hsh s1 (Properties q) =
    (let h := hsh s (Properties q) in
     if decide (to = StateLocked) then <[qkey Q_LockID := extractLockID opts]> h
     else if decide (op_state s q = itoa StateLocked) then delete (qkey Q_LockID) h else h) →
  ∃ s', (_ ← cmd_hset (Properties q) [(qkey Q_OperationalState, itoa to)];
         _ ← cmd_hset (Properties q) [(qkey Q_LastStateChangeAt, itoa (Timestamp t))];
         _ ← cmd_lpush (StateHistory q) (marshal_transition t);
         _ ← cmd_ltrim (StateHistory q) 0 ((ParseInt (itoa maxHistorySize)).1 - 1);
         mret "OK") s1 = (Ret "OK", s') ∧
        state_saved q t to (extractLockID opts) s s'.
Proof.
  intros Hw Hw1 Hq Hf Hh. eexists.
  erewrite bind_Ret; [|apply hset_run; wt_view].
  erewrite bind_Ret; [|apply hset_run; wt_view].
  erewrite bind_Ret; [|apply lpush_run; wt_view].
  erewrite bind_Ret; [|apply ltrim_run; wt_view].
  split; [done|]. split.
  - wt_solve.
  - views. rewrite Hh. reflexivity.
  - views. assert (lst s1 (StateHistory q) = lst s (StateHistory q)) as ->.
    { unfold lst. by rewrite Hf by key_ne. }
    apply (ltrim_prefix 100); [done|lia].
  - intros k H1 H2. rewrite !lookup_upd_ne by done. by apply Hf.
Qed.

Ltac save_tail q t to opts s :=
  lazymatch goal with
  | |- ex ?P =>
      lazymatch eval cbv beta in (P s) with
      | _ ?s1 = _ ∧ _ => destruct (save_tail_run q t to opts s1 s) as (s' & Hrun & Hsaved)
      end
  end.

Lemma set_queue_state_run q t from to opts s :
  wt s → wf_queue q →
  ∃ s', set_queue_state (state_keys q) (state_args t from to opts) s =
    (Ret (if decide (is_Some (db s !! Properties q)) then state_reply s q from to (extractLockID opts)
          else "QUEUE_NOT_FOUND"), s') ∧
    if decide (is_Some (db s !! Properties q) ∧ state_reply s q from to (extractLockID opts) = "OK")
    then state_saved q t to (extractLockID opts) s s' else s' = s.
Proof.
  intros Hw Hq. unfold set_queue_state. eval_state_args. cbv zeta.
  erewrite bind_Ret; [|done].
  destruct (decide (is_Some (db s !! Properties q))) as [Hex|Hex].
  2: { rewrite bool_decide_eq_false_2 by done. exists s. split; [done|].
       by rewrite decide_False by naive_solver. }
  rewrite bool_decide_eq_true_2 by done. cbn [negb].
  erewrite bind_Ret; [|apply hget_run; wt_view]. fold (op_state s q).
  unfold state_reply.
  destruct (stale s q from) eqn:Hst.
  { unfold stale in Hst. destruct from as [f|]; [|done]. apply bool_decide_eq_true in Hst.
    rewrite decide_True by (split; [apply itoa_nonempty|done]).
    exists s. split; [done|]. by rewrite decide_False by naive_solver. }
  rewrite decide_False.
  2: { unfold stale in Hst. destruct from as [f|]; [|naive_solver].
       apply bool_decide_eq_false in Hst. naive_solver. }
  erewrite bind_Ret; [|apply hget_run; wt_view]. fold (lock_field s q).
  destruct (decide (to = StateLocked)) as [Hto|Hto].
  - rewrite (decide_True (P := itoa to = itoa StateLocked)) by by subst.
    destruct (decide (extractLockID opts = "")) as [He|He].
    { exists s. split; [done|]. by rewrite decide_False by naive_solver. }
    rewrite bind_assoc. erewrite bind_Ret; [|apply hset_run; wt_view].
    erewrite bind_Ret; [|apply ret_run]. cbn [negb].
    save_tail q t to opts s; [done|wt_solve|done| | |].
    + intros k Hk. by apply lookup_upd_ne.
    + rewrite hsh_upd. cbv zeta. by rewrite decide_True by done.
    + exists s'. split; [done|]. by rewrite decide_True by done.
  - rewrite (decide_False (P := itoa to = itoa StateLocked)) by (by intros ?%(inj itoa)).
    destruct (decide (op_state s q = itoa StateLocked)) as [Hl|Hl].
    + destruct (decide (extractLockID opts = "")) as [He|He].
      { rewrite decide_False by naive_solver. exists s. split; [done|].
        by rewrite decide_False by naive_solver. }
      destruct (decide (lock_field s q = extractLockID opts)) as [Hm|Hm].
      2: { rewrite decide_True by auto. rewrite (decide_False (P := _ ∧ _)) by naive_solver.
           exists s. split; [done|]. by rewrite decide_False by naive_solver. }
      rewrite decide_False by (rewrite Hm; intros [?|?]; done). rewrite (decide_True (P := _ ∧ _)) by done.
      rewrite bind_assoc. erewrite bind_Ret; [|apply hdel_run; wt_view].
      erewrite bind_Ret; [|apply ret_run]. cbn [negb].
      save_tail q t to opts s; [done|wt_solve|done| | |].
      * intros k Hk. by apply lookup_upd_ne.
      * rewrite hsh_upd. cbv zeta. by rewrite decide_False, decide_True by done.
      * exists s'. split; [done|]. by rewrite decide_True by done.
    + erewrite bind_Ret; [|apply ret_run]. cbn [negb].
      save_tail q t to opts s; try done.
      * cbv zeta. by rewrite !decide_False by done.
      * exists s'. split; [done|]. by rewrite decide_True by done.
Qed.

(** ** Saving a transition, on any keyspace *)

Lemma CanTransitionTo_states f to :
  CanTransitionTo f to = true → state_IsValid f = true ∧ state_IsValid to = true ∧ f ≠ to.
Proof.
  rewrite CanTransitionTo_iff. unfold allowedTransitions.
  repeat case_decide; subst; rewrite ?elem_of_cons, ?elem_of_nil; naive_solver.
Qed.

Lemma state_valid_range st : state_IsValid st = true → in_int64 st.
Proof.
  unfold state_IsValid, StateActive, StateLocked, in_int64, int64_min, int64_max.
  intros [H1%bool_decide_eq_true H2%bool_decide_eq_true]%andb_true_iff. lia.
Qed.

Lemma saveState_cases now q from to reason opts s :
  wt s → wf_queue q →
  let t := newTransition now from to reason opts in
  let lockId := extractLockID opts in
  (∃ e, saveState now q from to reason opts s = (inl e, s) ∧
     (e = StNotFound ∨ e = StInvalidTransition ∨ e = StInvalidLock) ∧
     (is_Some (db s !! Properties q) → state_reply s q from to lockId ≠ "OK")) ∨
  (∃ s', saveState now q from to reason opts s = (inr t, s') ∧
     is_Some (db s !! Properties q) ∧ state_reply s q from to lockId = "OK" ∧
     state_saved q t to lockId s s').
Proof.
  intros Hw Hq t lockId. unfold saveState. fold t.
  destruct (set_queue_state_run q t from to opts s Hw Hq) as (s' & Hrun & Hs').
  fold lockId in Hrun, Hs'. rewrite Hrun.
  destruct (decide (is_Some (db s !! Properties q))) as [Hex|Hex].
  2: { rewrite decide_False in Hs' by naive_solver. subst s'. left. exists StNotFound.
       split_and!; [done|auto|done]. }
  destruct (decide (state_reply s q from to lockId = "OK")) as [Hok|Hok].
  - right. rewrite decide_True in Hs' by done. exists s'. rewrite Hok. done.
  - left. rewrite decide_False in Hs' by naive_solver. subst s'.
    assert (state_reply s q from to lockId = "INVALID_STATE_TRANSITION" ∨
            state_reply s q from to lockId = "INVALID_LOCK") as [E|E].
    { unfold state_reply in *. repeat case_match; auto; done. }
    + rewrite E. exists StInvalidTransition. split_and!; [done|auto|done].
    + rewrite E. exists StInvalidLock. split_and!; [done|auto|done].
Qed.

(** What an accepted transition found and what it left. *)
Lemma saved_view q t f to lockId s s' :
  state_reply s q (Some f) to lockId = "OK" → state_saved q t to lockId s s' → f ≠ to →
  op_state s q = itoa f ∧ op_state s' q = itoa to ∧
  (to = StateLocked → lockId ≠ "" ∧ lock_field s' q = lockId) ∧
  (f = StateLocked → lockId ≠ "" ∧ lock_field s q = lockId ∧ lock_field s' q = "") ∧
  (f ≠ StateLocked → to ≠ StateLocked → lock_field s' q = lock_field s q).
Proof.
  intros Hr [Hw Hp Hh Ho] Hne.
  assert (op_state s q = itoa f) as Hf.
  { unfold state_reply in Hr. destruct (stale s q (Some f)) eqn:E; [done|].
    unfold stale in E. apply bool_decide_eq_false in E. by apply dec_stable. }
  assert (op_state s' q = itoa to) as Hto.
  { unfold op_state. rewrite Hp. unfold props_after.
    rewrite lookup_insert_ne by done. by rewrite lookup_insert_eq. }
  assert (lock_field s' q = if decide (to = StateLocked) then lockId
            else if decide (f = StateLocked) then "" else lock_field s q) as Hl.
  { unfold lock_field at 1. rewrite Hp. unfold props_after.
    rewrite !lookup_insert_ne by done. destruct (decide (to = StateLocked)).
    - by rewrite lookup_insert_eq.
    - destruct (decide (f = StateLocked)) as [->|Hn].
      + rewrite decide_True by done. by rewrite lookup_delete_eq.
      + rewrite decide_False; [done|]. rewrite Hf. by intros ?%(inj itoa). }
  unfold state_reply in Hr. destruct (stale s q (Some f)); [done|].
  split; [done|]. split; [done|]. rewrite Hl. split; [|split].
  - intros ->. rewrite !decide_True in * by done. case_decide; [done|]. done.
  - intros ->. rewrite (decide_False (P := to = StateLocked)) in * by done.
    rewrite decide_True in Hr by done.
    destruct (decide (lockId ≠ "" ∧ lock_field s q = lockId)) as [[]|]; done.
  - intros H1 H2. by rewrite !decide_False.
Qed.

(** ** Histories *)

(** Newest first: each transition starts where the one before it ended, along
    an edge of the state graph. *)
Fixpoint chained (l : list StateTransition) : Prop :=
  match l with
  | t :: ((t' :: _) as l') =>
      From t = Some (To t') ∧ CanTransitionTo (To t') (To t) = true ∧ chained l'
  | _ => True
  end.

Lemma chained_take n : ∀ l, chained l → chained (take n l).
Proof.
  induction n as [|n IH]; intros [|t [|t' l]] H; simpl; try done.
  - destruct n; done.
  - destruct H as (H1 & H2 & H3). destruct n as [|n]; [done|].
    specialize (IH (t' :: l) H3). simpl in *. done.
Qed.

Lemma mapM_take {A B} (f : A → option B) n l k :
  mapM f l = Some k → mapM f (take n l) = Some (take n k).
Proof.
  rewrite !mapM_Some. intros H. revert n. induction H; intros [|n]; simpl; constructor; auto.
Qed.

(** The state, the lock and the history agree. *)
Record state_ok (q : Queue) (s : store) : Prop := {
  so_wt : wt s;
  so_history : ∃ t h,
    mapM unmarshal_transition (lst s (StateHistory q)) = Some (t :: h) ∧
    chained (t :: h) ∧ (length (t :: h) ≤ 100)%nat ∧ state_IsValid (To t) = true ∧
    hsh s (Properties q) !! qkey Q_OperationalState = Some (itoa (To t)) ∧
    (To t = StateLocked → lock_field s q ≠ "" ∧ LockID t = Some (lock_field s q)) ∧
    (To t ≠ StateLocked → lock_field s q = "")
}.

(** Go integers are in range. *)
Definition opts_ok (now : Z) (opts : option StateTransitionOptions) : Prop :=
  in_int64 (UnixMilli now) ∧ ∀ o z, opts = Some o → opt_Owner o = Some z → in_int64 z.

Lemma newTransition_range now f to reason opts :
  in_int64 f → in_int64 to → opts_ok now opts →
  transition_in_range (newTransition now (Some f) to reason opts).
Proof.
  intros Hf Ht [Hn Ho]. destruct opts as [o|]; split; simpl; try done; try naive_solver.
Qed.

Lemma state_ok_op q s t :
  hsh s (Properties q) !! qkey Q_OperationalState = Some (itoa (To t)) → op_state s q = itoa (To t).
Proof. intros H. unfold op_state. by rewrite H. Qed.

Lemma save_keeps now q f to reason opts s :
  wf_queue q → state_ok q s → CanTransitionTo f to = true → opts_ok now opts →
  state_ok q (saveState now q (Some f) to reason opts s).2.
Proof.
  intros Hq [Hw (t0 & h0 & Hmap & Hch & Hlen & Hval & Hst & Hlk & Hul)] Hcan Hopts.
  destruct (saveState_cases now q (Some f) to reason opts s Hw Hq)
    as [(e & -> & _)|(s' & -> & Hex & Hr & Hs)]; [by split; [|exists t0, h0]|].
  cbn [snd]. set (t := newTransition now (Some f) to reason opts) in *.
  destruct (CanTransitionTo_states f to Hcan) as (Vf & Vto & Hne).
  destruct (saved_view q t f to _ s s' Hr Hs Hne) as (Hf & Hto & HL1 & HL2 & HL3).
  assert (To t0 = f) as <-.
  { rewrite (state_ok_op q s t0 Hst) in Hf. by apply (inj itoa) in Hf. }
  assert (unmarshal_transition (marshal_transition t) = Some t) as Hrt.
  { apply transition_roundtrip, newTransition_range; [by apply state_valid_range..|done]. }
  assert (To t = to ∧ From t = Some (To t0) ∧
          (to = StateLocked → LockID t = Some (extractLockID opts))) as (Tt & Tf & Tl).
  { unfold t, newTransition. destruct opts as [o|]; [|split_and!; [done|done|by intros [[] _]%HL1]].
    split_and!; [done..|]. intros [Hn _]%HL1. unfold extractLockID in *. cbn in *.
    by destruct (opt_LockID o). }
  split; [apply Hs|]. exists t, (take 99 (t0 :: h0)). split_and!.
  - rewrite (ss_history _ _ _ _ _ _ Hs).
    change (t :: take 99 (t0 :: h0)) with (take 100 (t :: t0 :: h0)).
    apply mapM_take. cbn [mapM]. rewrite Hrt. cbn [mbind option_bind]. by rewrite Hmap.
  - change (t :: take 99 (t0 :: h0)) with (take 100 (t :: t0 :: h0)). apply chained_take.
    cbn [chained]. by rewrite Tt.
  - cbn [length]. rewrite length_take. lia.
  - by rewrite Tt.
  - rewrite (ss_props _ _ _ _ _ _ Hs). unfold props_after. rewrite lookup_insert_ne by done.
    by rewrite lookup_insert_eq, Tt.
  - rewrite Tt. intros E. destruct (HL1 E) as [Hn ->]. auto.
  - rewrite Tt. intros E. destruct (decide (To t0 = StateLocked)) as [E'|E'].
    + by destruct (HL2 E') as (_ & _ & ->).
    + rewrite HL3 by done. by apply Hul.
Qed.

(** ** Reachable states *)

(** Clients change the state after reading [current], which may be out of date;
    anything else leaves the state, the lock and the history alone. *)
Inductive state_step (q : Queue) : store → store → Prop :=
| step_transition now current target reason opts s :
    opts_ok now opts → transition_decision target current = None →
    state_step q s (saveState now q (Some (To current)) target reason opts s).2
| step_acquire now current owner id reason opts s :
    opts_ok now (Some (lock_options owner id opts)) → id ≠ "" →
    transition_decision StateLocked current = None →
    state_step q s (saveState now q (Some (To current)) StateLocked reason
                      (Some (lock_options owner id opts)) s).2
| step_release now current owner id reason opts s :
    opts_ok now (Some (unlock_options id opts)) → id ≠ "" →
    release_decision owner id current = None →
    state_step q s (saveState now q (Some (To current)) StateActive reason
                      (Some (unlock_options id opts)) s).2
| step_rest s s' :
    wt s' → lst s' (StateHistory q) = lst s (StateHistory q) →
    hsh s' (Properties q) !! qkey Q_OperationalState =
      hsh s (Properties q) !! qkey Q_OperationalState →
    hsh s' (Properties q) !! qkey Q_LockID = hsh s (Properties q) !! qkey Q_LockID →
    state_step q s s'.

Lemma decision_can target current :
  transition_decision target current = None → CanTransitionTo (To current) target = true.
Proof. unfold transition_decision. by destruct (CanTransitionTo _ _). Qed.

Lemma release_can owner id current :
  release_decision owner id current = None →
  To current = StateLocked ∧ Owner current = Some owner ∧ LockID current = Some id.
Proof.
  unfold release_decision. intros H.
  destruct (decide (To current ≠ StateLocked)) as [|H1]; [done|]. apply dec_stable in H1.
  destruct (decide (Owner current ≠ Some owner)) as [|H2]; [done|]. apply dec_stable in H2.
  destruct (decide (LockID current ≠ Some id)) as [|H3]; [done|]. by apply dec_stable in H3.
Qed.

Lemma state_step_keeps q s s' : wf_queue q → state_step q s s' → state_ok q s → state_ok q s'.
Proof.
  intros Hq Hstep Hok. destruct Hstep as [now cur tgt reason opts s Ho Hd
    |now cur owner id reason opts s Ho Hid Hd|now cur owner id reason opts s Ho Hid Hd
    |s s' Hw Hl Hst Hlk].
  - apply save_keeps; [done|done|by apply decision_can|done].
  - apply save_keeps; [done|done|by apply decision_can|done].
  - apply release_can in Hd as (Hl & _). apply save_keeps; [done|done|by rewrite Hl|done].
  - destruct Hok as [_ (t & h & H)]. split; [done|]. exists t, h.
    unfold lock_field in *. rewrite Hl, Hst, Hlk. exact H.
Qed.

Lemma state_ok_fetch now q s :
  wf_queue q → state_ok q s →
  ∃ t h, FetchHistory q s = inr (t :: h) ∧ FetchCurrent now q s = inr t ∧
    chained (t :: h) ∧ (length (t :: h) ≤ 100)%nat ∧ state_IsValid (To t) = true ∧
    op_state s q = itoa (To t) ∧ (lock_field s q ≠ "" ↔ To t = StateLocked) ∧
    (To t = StateLocked → LockID t = Some (lock_field s q)).
Proof.
  intros Hq [Hw (t & h & Hmap & Hch & Hlen & Hval & Hst & Hlk & Hul)]. exists t, h. split_and!.
  - unfold FetchHistory, cmd_lrange_all. rewrite with_list_run by wt_view. cbn [fst mret M_ret]. by rewrite Hmap.
  - unfold FetchCurrent. rewrite hget_run by wt_view. cbn [fst]. rewrite Hst.
    rewrite lindex0_run by wt_view. cbn [fst].
    destruct (lst s (StateHistory q)) as [|x l]; [done|]. cbn [head]. cbn [mapM] in Hmap.
    apply bind_Some in Hmap as (t' & Ht & Hmap). apply bind_Some in Hmap as (h' & _ & [= <- <-]).
    by rewrite Ht.
  - done.
  - done.
  - done.
  - by apply state_ok_op.
  - split; [|by intros [? _]%Hlk]. intros Hne. destruct (decide (To t = StateLocked)); [done|].
    by destruct Hne; apply Hul.
  - intros E. by apply Hlk.
Qed.

(** C26: the state of a queue stays consistent under concurrent clients.  In
    every keyspace reached from a consistent one by transitions, locks and
    unlocks decided on possibly outdated readings, the history reads back and
    is a path of the state graph of at most 100 entries, its newest entry is
    the current state, and the lock identifier is set exactly while the queue
    is locked. *)
Theorem queue_state_consistent now q s0 s :
  wf_queue q → state_ok q s0 → rtc (state_step q) s0 s →
  ∃ t h, FetchHistory q s = inr (t :: h) ∧ FetchCurrent now q s = inr t ∧
    chained (t :: h) ∧ (length (t :: h) ≤ 100)%nat ∧ state_IsValid (To t) = true ∧
    op_state s q = itoa (To t) ∧ (lock_field s q ≠ "" ↔ To t = StateLocked) ∧
    (To t = StateLocked → LockID t = Some (lock_field s q)).
Proof.
  intros Hq H0 Hs. apply state_ok_fetch; [done|].
  induction Hs as [|x y z Hxy Hyz IH]; [done|]. apply IH. by eapply state_step_keeps.
Qed.

(** A queue as it is created: active, with its first transition. *)
Definition created_store : store :=
  upd (StateHistory sample_queue)
    (list_val [marshal_transition (newInitialTransition 5000000 StateActive)])
    (upd (Properties sample_queue)
       (hash_val (<[qkey Q_LockID := ""]> (<[qkey Q_OperationalState := itoa StateActive]> ∅)))
       empty_store).

Lemma created_ok : state_ok sample_queue created_store.
Proof.
  pose proof sample_queue_wf as Hq. pose proof wt_empty as He. split; [unfold created_store; wt_solve|].
  exists (newInitialTransition 5000000 StateActive), []. split_and!; try (vm_compute; reflexivity).
  - vm_compute. lia.
  - intros E. vm_compute in E. discriminate E.
Qed.

Definition lock_opts : option StateTransitionOptions := None.
Definition locked_store : store :=
  (AcquireLock 6000000 sample_queue LockOwnerPurgeJob "job1" lock_opts created_store).2.

Lemma queue_state_consistent_witness :
  ∃ t h, FetchHistory sample_queue locked_store = inr (t :: h) ∧
    FetchCurrent 9 sample_queue locked_store = inr t ∧ chained (t :: h) ∧
    (lock_field locked_store sample_queue ≠ "" ↔ To t = StateLocked).
Proof.
  destruct (queue_state_consistent 9 sample_queue created_store locked_store sample_queue_wf
              created_ok) as (t & h & H1 & H2 & H3 & _ & _ & _ & H4 & _).
  - apply rtc_once.
    refine (step_acquire sample_queue 6000000 (newInitialTransition 5000000 StateActive)
              LockOwnerPurgeJob "job1" ReasonManual None created_store _ _ _).
    + split; [vm_compute; split; discriminate|]. intros o z [= <-] [= <-].
      vm_compute. split; discriminate.
    + discriminate.
    + reflexivity.
  - exists t, h. split_and!; [exact H1|exact H2|exact H3|exact H4].
Defined.

(** ** The lock *)

(** What holds once [owner] has the lock under [id]. *)
Record locked_by (q : Queue) (s : store) (owner : Z) (id : string) : Prop := {
  lb_ok : state_ok q s;
  lb_exists : is_Some (db s !! Properties q);
  lb_field : lock_field s q = id;
  lb_current : ∃ t h, mapM unmarshal_transition (lst s (StateHistory q)) = Some (t :: h) ∧
    To t = StateLocked ∧ Owner t = Some owner ∧ LockID t = Some id
}.

Section locked.
Context (q : Queue) (s : store) (owner : Z) (id : string).
Context (Hq : wf_queue q) (Hid : id ≠ "") (Hl : locked_by q s owner id).

Lemma locked_fetch now :
  ∃ t, FetchCurrent now q s = inr t ∧ To t = StateLocked ∧ Owner t = Some owner ∧
       LockID t = Some id.
Proof using Hq Hl.
  destruct Hl as [Hok _ _ (t & h & Hmap & Ht)].
  destruct (state_ok_fetch now q s Hq Hok) as (t' & h' & Hh & Hc & _). exists t'. split; [done|].
  unfold FetchHistory, cmd_lrange_all in Hh. pose proof (so_wt _ _ Hok) as Hw.
  rewrite with_list_run in Hh by wt_view. cbn [fst mret M_ret] in Hh. rewrite Hmap in Hh.
  by injection Hh as <- <-.
Qed.

Lemma locked_op : op_state s q = itoa StateLocked.
Proof using Hq Hl.
  destruct (locked_fetch 0) as (t & Hc & Ht & _). destruct Hl as [Hok _ _ _].
  destruct (state_ok_fetch 0 q s Hq Hok) as (t' & h' & _ & Hc' & _ & _ & _ & Hop & _).
  rewrite Hc in Hc'. injection Hc' as <-. by rewrite Hop, Ht.
Qed.

(** Another lock identifier does not change a locked queue. *)
Lemma locked_refuses now f to reason opts :
  extractLockID opts ≠ id → to ≠ StateLocked →
  ∃ e, saveState now q (Some f) to reason opts s = (inl e, s).
Proof using Hq Hid Hl.
  intros Hne Hto. pose proof (so_wt _ _ (lb_ok _ _ _ _ Hl)) as Hw.
  destruct (saveState_cases now q (Some f) to reason opts s Hw Hq)
    as [(e & He & _)|(s' & _ & _ & Hr & _)]; [by exists e|]. exfalso.
  unfold state_reply in Hr. destruct (stale s q (Some f)); [done|].
  rewrite (decide_False (P := to = StateLocked)) in Hr by done.
  rewrite (decide_True (P := op_state s q = _)) in Hr by apply locked_op.
  rewrite decide_False in Hr; [done|]. rewrite (lb_field _ _ _ _ Hl). naive_solver.
Qed.

Lemma locked_transition now target opts :
  extractLockID opts ≠ id → ∃ e, TransitionTo now q target opts s = (inl e, s).
Proof using Hq Hid Hl.
  intros Hne. unfold TransitionTo, transitionTo. destruct (locked_fetch now) as (t & -> & Ht & _).
  destruct (transition_decision target t) as [e|] eqn:Hd; [by exists e|].
  apply locked_refuses; [done|]. apply decision_can, CanTransitionTo_states in Hd.
  rewrite Ht in Hd. naive_solver.
Qed.

Lemma locked_release_other now owner' id' opts :
  owner' ≠ owner ∨ id' ≠ id → ∃ e, ReleaseLock now q owner' id' opts s = (inl e, s).
Proof using Hq Hl.
  intros Hne. unfold ReleaseLock, releaseLock. case_decide; [by eexists|].
  destruct (locked_fetch now) as (t & -> & Ht & Ho & Hi).
  destruct (release_decision owner' id' t) as [e|] eqn:Hd; [by exists e|].
  apply release_can in Hd. naive_solver.
Qed.

Lemma locked_acquire now owner' id' opts :
  ∃ e, AcquireLock now q owner' id' opts s = (inl e, s).
Proof using Hq Hl.
  unfold AcquireLock, acquireLock. case_decide; [by eexists|].
  destruct (locked_fetch now) as (t & -> & Ht & _).
  exists StInvalidTransition. unfold transition_decision. by rewrite Ht.
Qed.

(** The lock identifier opens the queue. *)
Lemma locked_unlocks now reason opts :
  extractLockID opts = id →
  ∃ s', saveState now q (Some StateLocked) StateActive reason opts s =
          (inr (newTransition now (Some StateLocked) StateActive reason opts), s') ∧
        state_saved q (newTransition now (Some StateLocked) StateActive reason opts) StateActive id s s' ∧
        op_state s' q = itoa StateActive ∧ lock_field s' q = "".
Proof using Hq Hid Hl.
  intros Ho. pose proof (so_wt _ _ (lb_ok _ _ _ _ Hl)) as Hw.
  destruct (saveState_cases now q (Some StateLocked) StateActive reason opts s Hw Hq)
    as [(e & _ & _ & Hr)|(s' & He & Hex & Hr & Hs)]; rewrite Ho in Hr.
  - exfalso. apply Hr; [apply Hl|]. unfold state_reply, stale. rewrite locked_op.
    rewrite bool_decide_eq_false_2 by naive_solver. rewrite decide_False by done.
    rewrite (decide_True (P := itoa StateLocked = itoa StateLocked)) by done.
    rewrite decide_True; [done|]. rewrite (lb_field _ _ _ _ Hl). done.
  - exists s'. rewrite Ho in Hs. split; [exact He|]. split; [exact Hs|].
    destruct (saved_view q _ StateLocked StateActive _ s s' Hr Hs) as (_ & H1 & _ & H2 & _); [done|].
    split; [done|]. by apply H2.
Qed.

(** The holder's release. *)
Lemma locked_releaseLock now reason opts :
  ∃ t s', releaseLock now q owner id reason opts s = (inr t, s') ∧
          state_saved q t StateActive id s s' ∧
          op_state s' q = itoa StateActive ∧ lock_field s' q = "".
Proof using Hq Hid Hl.
  unfold releaseLock. rewrite decide_False by done.
  destruct (locked_fetch now) as (t & -> & Ht & Ho & Hi).
  assert (release_decision owner id t = None) as ->.
  { unfold release_decision. rewrite !decide_False by naive_solver. done. }
  rewrite Ht. destruct (locked_unlocks now reason (Some (unlock_options id opts))) as (s' & He & H); [done|]. eauto.
Qed.

Lemma locked_release now opts :
  ∃ t s', ReleaseLock now q owner id opts s = (inr t, s') ∧
          op_state s' q = itoa StateActive ∧ lock_field s' q = "".
Proof using Hq Hid Hl.
  destruct (locked_releaseLock now (reasonFromOpts opts) opts) as (t & s' & Hr & _ & H). by exists t, s'.
Qed.
End locked.

Lemma acquireLock_locks now q owner id reason opts s t s1 :
  wf_queue q → state_ok q s → in_int64 owner → in_int64 (UnixMilli now) →
  acquireLock now q owner id reason opts s = (inr t, s1) →
  id ≠ "" ∧ locked_by q s1 owner id ∧
  ∀ k, k ≠ Properties q → k ≠ StateHistory q → db s1 !! k = db s !! k.
Proof.
  intros Hq Hok Ho Hn Hacq. unfold acquireLock in Hacq.
  destruct (decide (id = "")) as [|Hid]; [done|]. split; [done|].
  destruct (FetchCurrent now q s) as [e|cur]; [done|].
  destruct (transition_decision StateLocked cur) as [e|] eqn:Hd; [done|].
  apply decision_can in Hd as Hcan.
  assert (opts_ok now (Some (lock_options owner id opts))) as Hopts.
  { split; [done|]. by intros o z [= <-] [= <-]. }
  pose proof (save_keeps now q (To cur) StateLocked reason _ s Hq Hok Hcan Hopts) as Hk.
  rewrite Hacq in Hk. cbn [snd] in Hk.
  destruct (saveState_cases now q (Some (To cur)) StateLocked reason
              (Some (lock_options owner id opts)) s (so_wt _ _ Hok) Hq)
    as [(e & He & _)|(s' & He & Hex & Hr & Hs)]; rewrite Hacq in He; [done|].
  injection He as -> <-. destruct (CanTransitionTo_states _ _ Hcan) as (Vc & _ & Hne).
  destruct (saved_view q _ (To cur) StateLocked _ s s1 Hr Hs Hne) as (_ & _ & HL & _).
  split; [|apply Hs]. split; [done| |by apply HL|].
  - destruct (db s1 !! Properties q) as [v|] eqn:E; [by eexists|]. exfalso.
    pose proof (ss_props _ _ _ _ _ _ Hs) as Hp. unfold hsh in Hp. rewrite E in Hp.
    unfold props_after in Hp. cbn in Hp. symmetry in Hp. by apply insert_non_empty in Hp.
  - destruct Hok as [_ (t0 & h0 & Hmap & _)].
    exists (newTransition now (Some (To cur)) StateLocked reason
              (Some (lock_options owner id opts))), (take 99 (t0 :: h0)). split; [|done].
    rewrite (ss_history _ _ _ _ _ _ Hs). apply (mapM_take _ 100 _ (_ :: t0 :: h0)). cbn [mapM].
    rewrite transition_roundtrip; [cbn [mbind option_bind]; by rewrite Hmap|].
    apply newTransition_range; [by apply state_valid_range|by apply state_valid_range|done].
Qed.

Lemma acquire_locks now q owner id opts s t s1 :
  wf_queue q → state_ok q s → in_int64 owner → in_int64 (UnixMilli now) →
  AcquireLock now q owner id opts s = (inr t, s1) → id ≠ "" ∧ locked_by q s1 owner id.
Proof.
  intros Hq Hok Ho Hn Hacq.
  destruct (acquireLock_locks now q owner id (reasonFromOpts opts) opts s t s1) as (H1 & H2 & _); done.
Qed.

(** The lock is exclusive.  After a successful lock, every other attempt to
    lock, every unlock by another owner or under another identifier and every
    transition without the identifier fails and changes nothing; the holder's
    unlock succeeds and leaves the queue active and unlocked. *)
Theorem lock_exclusive now q owner id opts s t s1 :
  wf_queue q → state_ok q s → in_int64 owner → in_int64 (UnixMilli now) →
  AcquireLock now q owner id opts s = (inr t, s1) →
  (∀ now' owner' id' opts', ∃ e, AcquireLock now' q owner' id' opts' s1 = (inl e, s1)) ∧
  (∀ now' owner' id' opts', owner' ≠ owner ∨ id' ≠ id →
     ∃ e, ReleaseLock now' q owner' id' opts' s1 = (inl e, s1)) ∧
  (∀ now' target opts', extractLockID opts' ≠ id →
     ∃ e, TransitionTo now' q target opts' s1 = (inl e, s1)) ∧
  (∀ now' opts', ∃ t' s2, ReleaseLock now' q owner id opts' s1 = (inr t', s2) ∧
     op_state s2 q = itoa StateActive ∧ lock_field s2 q = "").
Proof.
  intros Hq Hok Ho Hn Hacq.
  destruct (acquire_locks now q owner id opts s t s1 Hq Hok Ho Hn Hacq) as [Hid Hl].
  split_and!; intros.
  - by eapply locked_acquire.
  - by eapply locked_release_other.
  - by eapply locked_transition.
  - by eapply locked_release.
Qed.

Lemma lock_exclusive_witness :
  (∃ e, AcquireLock 7 sample_queue 0 "other" None locked_store = (inl e, locked_store)) ∧
  (∃ e, TransitionTo 7 sample_queue StateActive None locked_store = (inl e, locked_store)) ∧
  (∃ t s, ReleaseLock 7 sample_queue 0 "job1" None locked_store = (inr t, s) ∧
     op_state s sample_queue = itoa StateActive ∧ lock_field s sample_queue = "").
Proof.
  assert (∃ t, AcquireLock 6000000 sample_queue 0 "job1" None created_store =
               (inr t, locked_store)) as [t Ht].
  { assert (∃ t, (AcquireLock 6000000 sample_queue 0 "job1" None created_store).1 = inr t)
      as [t H] by (eexists; vm_compute; reflexivity).
    exists t. rewrite (surjective_pairing (AcquireLock _ _ _ _ _ _)), H. reflexivity. }
  destruct (lock_exclusive 6000000 sample_queue 0 "job1" None created_store t locked_store
              sample_queue_wf created_ok) as (H1 & H2 & H3 & H4).
  - vm_compute. split; discriminate.
  - vm_compute. split; discriminate.
  - exact Ht.
  - split; [apply H1|]. split; [apply H3; discriminate|apply H4].
Defined.

(** A change of state never disturbs the messages: whatever the decision was
    based on, the script leaves the published list, the stored messages and
    every counter of the queue as they were. *)
Theorem state_change_keeps_messages now q from to reason opts s :
  wt s → wf_queue q → unrelated q s (saveState now q from to reason opts s).2.
Proof.
  intros Hw Hq. destruct (saveState_cases now q from to reason opts s Hw Hq)
    as [(e & -> & _)|(s' & -> & _ & _ & [Hw' Hp _ Ho])]; [done|]. cbn [snd].
  split; [done|]. split; [|split; [|split]].
  - unfold lst. by rewrite Ho by key_ne.
  - unfold lst, zst. by rewrite !Ho by key_ne.
  - intros id _ Hid. unfold hsh. by rewrite Ho by key_ne.
  - intros f Hf. unfold counter_text. rewrite Hp. unfold props_after.
    rewrite !lookup_insert_ne by (by intros <-%(inj qkey)).
    repeat case_decide; [by rewrite lookup_insert_ne by (by intros <-%(inj qkey))| |done].
    by rewrite lookup_delete_ne by (by intros <-%(inj qkey)).
Qed.

Lemma state_change_keeps_messages_witness :
  unrelated sample_queue life_1
    (saveState 7 sample_queue (Some StateActive) StatePaused ReasonManual None life_1).2.
Proof.
  exact (state_change_keeps_messages 7 sample_queue (Some StateActive) StatePaused ReasonManual None
           life_1 (mo_wt _ _ _ (proj1 life_1_accounts)) sample_queue_wf).
Defined.
