(* ===== verification/PurgeJobs.v ===== *)
(** * Purge jobs

    The records of background purge jobs: pkg/queue/purge_job.go,
    internal/queue/purge_job_store.go and the scripts jobs/*.lua.  A job is
    stored as JSON in a hash; its identifier waits in the pending list and
    moves to the active list while a worker has it.

    The scripts do not parse the JSON: they look for the first status field in
    the text.  [job_codec_agrees] shows that this reads the status of every job
    Go writes, whatever the identifier and the queue name contain.

    [Save] is the one write without a test: a worker can put its copy over a job
    that was cancelled or failed meanwhile. *)

From S2P Require Import Prelude Keys Redis RedisFacts Types Keyspace Json Message MessageCodec Delivery.
#[local] Open Scope Z_scope.

(** ** pkg/queue/purge_job.go *)

Definition PurgeJobPending : Z := 0.
Definition PurgeJobProcessing : Z := 1.
Definition PurgeJobCompleted : Z := 2.
Definition PurgeJobFailed : Z := 3.
Definition PurgeJobCanceled : Z := 4.
Definition job_status_String (st : Z) : string := itoa st.

Record PurgeJobPayload := { pl_Queue : option QParams; pl_MessageType : Z }.
Record PurgeJobMeta := { Purged : Z }.
Record PurgeJob := {
  pj_ID : string;
  pj_Payload : PurgeJobPayload;
  pj_Status : Z;
  pj_CreatedAt : Z;
  pj_UpdatedAt : Z;
  pj_StartedAt : Z;
  pj_CompletedAt : Z;
  pj_BatchSize : Z;
  pj_DelayMs : Z;
  pj_Error : string;
  pj_Meta : option PurgeJobMeta
}.

Definition QueueParams (j : PurgeJob) : option QParams := pl_Queue (pj_Payload j).

(** [omitempty] on an integer. *)
Definition nonzero (z : Z) : option Z := if decide (z = 0) then None else Some z.

Definition payload_json (p : PurgeJobPayload) : json := JObj [
  ("queue", match pl_Queue p with Some q => q_MarshalJSON q | None => JNull end);
  ("messageType", JNum (pl_MessageType p))].

Definition meta_json (m : PurgeJobMeta) : json := JObj [("purged", JNum (Purged m))].

Definition job_json (j : PurgeJob) : json := JObj (
  [("id", JStr (pj_ID j)); ("payload", payload_json (pj_Payload j));
   ("status", JNum (pj_Status j)); ("createdAt", JNum (pj_CreatedAt j))] ++
  omit "updatedAt" JNum (nonzero (pj_UpdatedAt j)) ++
  omit "startedAt" JNum (nonzero (pj_StartedAt j)) ++
  omit "completedAt" JNum (nonzero (pj_CompletedAt j)) ++
  omit "batchSize" JNum (nonzero (pj_BatchSize j)) ++
  omit "delay" JNum (nonzero (pj_DelayMs j)) ++
  omit "error" JStr (nonempty (pj_Error j)) ++
  omit "meta" meta_json (pj_Meta j)).

Definition payload_of_json (j : json) : option PurgeJobPayload :=
  match j with
  | JObj l =>
      q ← get_opt q_UnmarshalJSON "queue" l;
      t ← get_or 0 as_int "messageType" l;
      Some {| pl_Queue := q; pl_MessageType := t |}
  | _ => None
  end.

Definition meta_of_json (j : json) : option PurgeJobMeta :=
  match j with
  | JObj l => n ← get_or 0 as_int "purged" l; Some {| Purged := n |}
  | _ => None
  end.

Definition zero_payload : PurgeJobPayload := {| pl_Queue := None; pl_MessageType := 0 |}.

Definition job_of_json (j : json) : option PurgeJob :=
  match j with
  | JNull => Some {| pj_ID := ""; pj_Payload := zero_payload; pj_Status := 0; pj_CreatedAt := 0;
                     pj_UpdatedAt := 0; pj_StartedAt := 0; pj_CompletedAt := 0; pj_BatchSize := 0;
                     pj_DelayMs := 0; pj_Error := ""; pj_Meta := None |}
  | JObj l =>
      id ← get_or "" as_text "id" l;
      payload ← get_or zero_payload payload_of_json "payload" l;
      status ← get_or 0 as_int "status" l;
      createdAt ← get_or 0 as_int "createdAt" l;
      updatedAt ← get_or 0 as_int "updatedAt" l;
      startedAt ← get_or 0 as_int "startedAt" l;
      completedAt ← get_or 0 as_int "completedAt" l;
      batchSize ← get_or 0 as_int "batchSize" l;
      delay ← get_or 0 as_int "delay" l;
      error ← get_or "" as_text "error" l;
      meta ← get_opt meta_of_json "meta" l;
      Some {| pj_ID := id; pj_Payload := payload; pj_Status := status; pj_CreatedAt := createdAt;
              pj_UpdatedAt := updatedAt; pj_StartedAt := startedAt; pj_CompletedAt := completedAt;
              pj_BatchSize := batchSize; pj_DelayMs := delay; pj_Error := error; pj_Meta := meta |}
  | _ => None
  end.

Definition mustMarshal (j : PurgeJob) : string := print (job_json j).
Definition unmarshal_job (data : string) : option PurgeJob := parse_json data ≫= job_of_json.

(** ** The scripts (jobs/*.lua) *)

(** [string.find] with the pattern of a status field of one digit: the digit
    of the first match. *)
Definition status_pattern : string :=
  String quote_char ("status" +:+ String quote_char ":").
Definition status_here (s : string) : option string :=
  match strip status_pattern s with
  | Some (String c _) => if is_digit c then Some (String c "") else None
  | _ => None
  end.
Fixpoint find_status (s : string) : option string :=
  match status_here s with
  | Some d => Some d
  | None => match s with String _ r => find_status r | EmptyString => None end
  end.

Definition create_job (keys args : list string) : M Z :=
  jobExists ← cmd_hexists (arg keys 1) (arg args 1);
  if (jobExists : bool) then mret (-1)
  else
    _ ← cmd_hset (arg keys 1) [(arg args 1, arg args 2)];
    _ ← cmd_lpush (arg keys 2) (arg args 1);
    mret 1.

(** The status of the stored job; the scripts reply 0 when there is none. *)
Definition current_status (jobs jobId : string) : M (option string) :=
  currentJobData ← cmd_hget jobs jobId;
  mret (currentJobData ≫= find_status).

Definition start_job (keys args : list string) : M Z :=
  let jobId := arg args 1 in
  status ← current_status (arg keys 1) jobId;
  match status with
  | None => mret 0
  | Some statusStr =>
      if decide (statusStr = arg args 5) then mret 2
      else if decide (statusStr = arg args 6) then mret (-1)
      else if decide (statusStr = arg args 7) then mret (-2)
      else if decide (statusStr = arg args 8) then mret (-3)
      else if decide (statusStr ≠ arg args 4) then mret 0
      else
        isInProcessingList ← cmd_lrem0 (arg keys 2) jobId;
        if decide (isInProcessingList = 0) then mret 0
        else
          _ ← cmd_rpush (arg keys 2) [jobId];
          _ ← cmd_hset (arg keys 1) [(jobId, arg args 3)];
          _ ← cmd_set (arg keys 3) (arg args 2);
          mret 1
  end.

(** Takes the job off the processing list and drops its link to a worker. *)
Definition drop_processing (processing worker jobId : string) (reply : Z) : M Z :=
  _ ← cmd_lrem0 processing jobId;
  _ ← cmd_del [worker];
  mret reply.

Definition complete_job (keys args : list string) : M Z :=
  let jobId := arg args 1 in
  status ← current_status (arg keys 1) jobId;
  match status with
  | None => mret 0
  | Some statusStr =>
      if decide (statusStr = arg args 4) then drop_processing (arg keys 2) (arg keys 3) jobId 2
      else if decide (statusStr = arg args 5) then drop_processing (arg keys 2) (arg keys 3) jobId (-1)
      else if decide (statusStr = arg args 6) then drop_processing (arg keys 2) (arg keys 3) jobId (-2)
      else if decide (statusStr ≠ arg args 3) then mret 0
      else
        _ ← cmd_hset (arg keys 1) [(jobId, arg args 2)];
        drop_processing (arg keys 2) (arg keys 3) jobId 1
  end.

Definition fail_job (keys args : list string) : M Z :=
  let jobId := arg args 1 in
  status ← current_status (arg keys 1) jobId;
  match status with
  | None => mret 0
  | Some statusStr =>
      if decide (statusStr = arg args 5) then drop_processing (arg keys 2) (arg keys 3) jobId 2
      else if decide (statusStr = arg args 4) then drop_processing (arg keys 2) (arg keys 3) jobId (-1)
      else if decide (statusStr = arg args 6) then drop_processing (arg keys 2) (arg keys 3) jobId (-2)
      else if decide (statusStr ≠ arg args 3) then mret 0
      else
        _ ← cmd_hset (arg keys 1) [(jobId, arg args 2)];
        drop_processing (arg keys 2) (arg keys 3) jobId 1
  end.

Definition cancel_job (keys args : list string) : M Z :=
  let jobId := arg args 1 in
  let drop (reply : Z) :=
    (_ ← cmd_lrem0 (arg keys 2) jobId;
     drop_processing (arg keys 3) (arg keys 4) jobId reply) in
  status ← current_status (arg keys 1) jobId;
  match status with
  | None => mret 0
  | Some statusStr =>
      if decide (statusStr = arg args 7) then drop 2
      else if decide (statusStr = arg args 5) then drop (-1)
      else if decide (statusStr = arg args 6) then drop (-2)
      else if decide (statusStr ≠ arg args 3 ∧ statusStr ≠ arg args 4) then mret 0
      else
        _ ← cmd_hset (arg keys 1) [(jobId, arg args 2)];
        drop 1
  end.

Definition recover_stuck_job (keys args : list string) : M Z :=
  let jobId := arg args 1 in
  status ← current_status (arg keys 1) jobId;
  match status with
  | None => mret 0
  | Some statusStr =>
      if decide (statusStr = arg args 4) then drop_processing (arg keys 3) (arg keys 4) jobId (-1)
      else if decide (statusStr = arg args 5) then drop_processing (arg keys 3) (arg keys 4) jobId (-2)
      else if decide (statusStr = arg args 6) then drop_processing (arg keys 3) (arg keys 4) jobId (-3)
      else if decide (statusStr ≠ arg args 3) then mret 0
      else
        _ ← cmd_hset (arg keys 1) [(jobId, arg args 2)];
        _ ← cmd_lrem0 (arg keys 3) jobId;
        _ ← cmd_lpush (arg keys 2) jobId;
        _ ← cmd_del [arg keys 4];
        mret 1
  end.

(** ** internal/queue/purge_job_store.go *)

Inductive job_error :=
| JobScript (e : rerr)
| JobNotFound (operation : string)
| JobAlreadyCompleted | JobAlreadyFailed | JobAlreadyCanceled
| JobUnexpectedReply (operation : string) (n : Z)
| JobDecode.

Definition runJobScript (script : M Z) (operation : string) (s : store)
    : (job_error + unit) * store :=
  match script s with
  | (Err e, s') => (inl (JobScript e), s')
  | (Ret n, s') =>
      (if decide (n = 1 ∨ n = 2) then inr tt
       else if decide (n = 0) then inl (JobNotFound operation)
       else if decide (n = -1) then inl JobAlreadyCompleted
       else if decide (n = -2) then inl JobAlreadyFailed
       else if decide (n = -3) then inl JobAlreadyCanceled
       else inl (JobUnexpectedReply operation n), s')
  end.

Definition Create (job : PurgeJob) : store → (job_error + unit) * store :=
  runJobScript (create_job [PurgeJobs; PendingPurgeJobs] [pj_ID job; mustMarshal job]) "create".

Definition Start (jobID workerID : string) (job : PurgeJob) : store → (job_error + unit) * store :=
  runJobScript (start_job [PurgeJobs; ActivePurgeJobs; JobWorker jobID]
    [jobID; workerID; mustMarshal job;
     job_status_String PurgeJobPending; job_status_String PurgeJobProcessing;
     job_status_String PurgeJobCompleted; job_status_String PurgeJobFailed;
     job_status_String PurgeJobCanceled]) "start".

Definition Complete (jobID : string) (job : PurgeJob) : store → (job_error + unit) * store :=
  runJobScript (complete_job [PurgeJobs; ActivePurgeJobs; JobWorker jobID]
    [jobID; mustMarshal job;
     job_status_String PurgeJobProcessing; job_status_String PurgeJobCompleted;
     job_status_String PurgeJobFailed; job_status_String PurgeJobCanceled]) "complete".

(** [Fail] of the source. *)
Definition FailJob (jobID : string) (job : PurgeJob) : store → (job_error + unit) * store :=
  runJobScript (fail_job [PurgeJobs; ActivePurgeJobs; JobWorker jobID]
    [jobID; mustMarshal job;
     job_status_String PurgeJobProcessing; job_status_String PurgeJobCompleted;
     job_status_String PurgeJobFailed; job_status_String PurgeJobCanceled]) "fail".

Definition CancelJob (jobID : string) (job : PurgeJob) : store → (job_error + unit) * store :=
  runJobScript (cancel_job [PurgeJobs; PendingPurgeJobs; ActivePurgeJobs; JobWorker jobID]
    [jobID; mustMarshal job;
     job_status_String PurgeJobPending; job_status_String PurgeJobProcessing;
     job_status_String PurgeJobCompleted; job_status_String PurgeJobFailed;
     job_status_String PurgeJobCanceled]) "cancel".

Definition Recover (jobID : string) (job : PurgeJob) : store → (job_error + unit) * store :=
  runJobScript (recover_stuck_job [PurgeJobs; PendingPurgeJobs; ActivePurgeJobs; JobWorker jobID]
    [jobID; mustMarshal job;
     job_status_String PurgeJobProcessing; job_status_String PurgeJobCompleted;
     job_status_String PurgeJobFailed; job_status_String PurgeJobCanceled;
     "Recovered from worker crash"]) "recover".

Definition GetJob (jobID : string) (s : store) : job_error + PurgeJob :=
  match (cmd_hget PurgeJobs jobID s).1 with
  | Ret (Some data) => match unmarshal_job data with Some job => inr job | None => inl JobDecode end
  | _ => inl (JobNotFound jobID)
  end.

Definition set_UpdatedAt (ts : Z) (j : PurgeJob) : PurgeJob :=
  {| pj_ID := pj_ID j; pj_Payload := pj_Payload j; pj_Status := pj_Status j;
     pj_CreatedAt := pj_CreatedAt j; pj_UpdatedAt := ts; pj_StartedAt := pj_StartedAt j;
     pj_CompletedAt := pj_CompletedAt j; pj_BatchSize := pj_BatchSize j; pj_DelayMs := pj_DelayMs j;
     pj_Error := pj_Error j; pj_Meta := pj_Meta j |}.

(** The job with its new time, which [SaveJob] writes into the caller's job. *)
Definition SaveJob (now : Z) (job : PurgeJob) (s : store) : PurgeJob * ((job_error + unit) * store) :=
  let job := set_UpdatedAt (UnixMilli now) job in
  (job, match cmd_hset PurgeJobs [(pj_ID job, mustMarshal job)] s with
        | (Err e, s') => (inl (JobScript e), s')
        | (Ret _, s') => (inr tt, s')
        end).

Definition IsCanceled (jobID : string) (s : store) : job_error + bool :=
  match GetJob jobID s with
  | inl e => inl e
  | inr job => inr (bool_decide (pj_Status job = PurgeJobCanceled))
  end.

(** [acquire] of internal/queue/purge_worker.go: a blocking move from the
    pending to the active list; no job is the empty string. *)
Definition acquire (s : store) : (rerr + string) * store :=
  match cmd_rpoplpush PendingPurgeJobs ActivePurgeJobs s with
  | (Err e, s') => (inl e, s')
  | (Ret None, s') => (inr "", s')
  | (Ret (Some jobID), s') => (inr jobID, s')
  end.

(** ** The status in the text of a job *)

Lemma str_cons c a b : String c a +:+ b = String c (a +:+ b).
Proof. done. Qed.
Lemma str_nil a : "" +:+ a = a.
Proof. done. Qed.

Fixpoint no_quote (s : string) : bool :=
  match s with
  | EmptyString => true
  | String c r => negb (bool_decide (c = quote_char)) && no_quote r
  end.

Fixpoint plain (s : string) : bool :=
  match s with
  | EmptyString => true
  | String c r => bool_decide (c ≠ quote_char ∧ c ≠ "\"%char) && plain r
  end.

Lemma status_here_nonquote c r : c ≠ quote_char → status_here (String c r) = None.
Proof.
  intros Hc. unfold status_here, status_pattern. cbn [strip]. by rewrite decide_False by congruence.
Qed.

Lemma find_status_skip t r : no_quote t = true → find_status (t +:+ r) = find_status r.
Proof.
  induction t as [|c t IH]; [done|]. cbn [no_quote]. intros [Hc Ht]%andb_true_iff.
  apply negb_true_iff, bool_decide_eq_false in Hc.
  rewrite str_cons. cbn [find_status].
  rewrite status_here_nonquote by done. by apply IH.
Qed.

Lemma escape_cases c :
  (c = quote_char ∧ escape c = String "\" (String quote_char "")) ∨
  (no_quote (escape c) = true ∧
   ((escape c = String c "" ∧ c ≠ quote_char ∧ c ≠ "\"%char) ∨ ∃ t, escape c = String "\" t)).
Proof.
  destruct c as [[] [] [] [] [] [] [] []];
    first [by left | right; split; [reflexivity|first [left; split; [reflexivity|split; discriminate] | right; eexists; reflexivity]]].
Qed.

(** Inside a quoted text no quote follows a plain character: the pattern, less
    its first quote, does not match there. *)
Lemma strip_escaped p s c r :
  plain p = true → c ≠ ":"%char →
  strip (p +:+ String quote_char ":") (escape_all s +:+ String quote_char (String c r)) = None.
Proof.
  intros Hp Hc. revert s. induction p as [|x p IH]; intros s.
  - change ("" +:+ String quote_char ":") with (String quote_char ":").
    destruct s as [|d s]; cbn [escape_all].
    + rewrite str_nil. cbn [strip].
      rewrite decide_True by done. by rewrite decide_False by congruence.
    + destruct (escape_cases d) as [[-> ->]|[_ [(-> & Hq & _)|[t ->]]]]; rewrite ?str_cons; cbn [strip];
        by rewrite decide_False by (discriminate || congruence).
  - cbn [plain] in Hp. apply andb_true_iff in Hp as [[Hx Hxb]%bool_decide_eq_true Hp].
    rewrite str_cons.
    destruct s as [|d s]; cbn [escape_all].
    + rewrite str_nil. cbn [strip].
      by rewrite decide_False by congruence.
    + rewrite str_app_assoc.
      destruct (escape_cases d) as [[-> ->]|[_ [(-> & Hq & _)|[t ->]]]]; rewrite ?str_cons; cbn [strip].
      * by rewrite decide_False by congruence.
      * destruct (decide (x = d)) as [->|]; [|done].
        by apply IH.
      * by rewrite decide_False by congruence.
Qed.

Lemma status_here_quoted s c r :
  c ≠ ":"%char → status_here (String quote_char (escape_all s +:+ String quote_char (String c r))) = None.
Proof.
  intros Hc. unfold status_here, status_pattern. cbn [strip]. rewrite decide_True by done.
  by rewrite strip_escaped.
Qed.

Lemma find_status_escaped s c r :
  c ≠ ":"%char → c ≠ "s"%char →
  find_status (escape_all s +:+ String quote_char (String c r)) = find_status (String c r).
Proof.
  intros Hc Hs. induction s as [|d s IH]; cbn [escape_all].
  - rewrite str_nil. cbn [find_status]. unfold status_here at 1, status_pattern. cbn [strip].
    rewrite decide_True by done. rewrite str_cons. cbn [strip]. by rewrite decide_False by congruence.
  - rewrite str_app_assoc. destruct (escape_cases d) as [[-> ->]|[Hq _]].
    + rewrite !str_cons, str_nil. change (find_status (String "\" ?t)) with (find_status t).
      cbn [find_status]. by rewrite status_here_quoted.
    + by rewrite find_status_skip.
Qed.

(** A quoted value is passed over. *)
Lemma find_status_text s c r :
  c ≠ ":"%char → c ≠ "s"%char → find_status (quote s +:+ String c r) = find_status (String c r).
Proof.
  intros Hc Hs. rewrite quote_app. cbn [find_status]. rewrite status_here_quoted by done.
  by apply find_status_escaped.
Qed.

Lemma no_quote_uint d : no_quote (DecimalString.NilEmpty.string_of_uint d) = true.
Proof. by induction d. Qed.

Lemma no_quote_itoa z : no_quote (itoa z) = true.
Proof.
  destruct z as [|p|p]; [done|..]; unfold itoa; cbn [Z.to_int DecimalString.NilZero.string_of_int];
    rewrite nilzero_pos; [|cbn [no_quote]; rewrite bool_decide_eq_false_2 by discriminate];
    apply no_quote_uint.
Qed.

Definition known_status (st : Z) : Prop := 0 ≤ st ≤ 4.
#[global] Instance known_status_dec st : Decision (known_status st).
Proof. unfold known_status. apply _. Defined.

(** The fields up to the status, passed over one by one. *)
Lemma find_status_job j :
  known_status (pj_Status j) → find_status (mustMarshal j) = Some (job_status_String (pj_Status j)).
Proof.
  intros Hst. unfold mustMarshal, job_json. cbn [app]. rewrite print_obj.
  change (find_status ("{" +:+ quote "id" +:+ ":" +:+ ?r)) with (find_status r).
  set (rest := omit "updatedAt" _ _ ++ _). cbn [print_fields]. cbn [print].
  change ("," +:+ ?r) with (String "," r). rewrite find_status_text by discriminate.
  change (find_status (String "," (quote "payload" +:+ ":" +:+ ?r))) with (find_status r).
  unfold payload_json. rewrite print_obj, !str_app_assoc.
  change (find_status ("{" +:+ quote "queue" +:+ ":" +:+ ?r)) with (find_status r).
  cbn [print_fields]. cbn [print]. rewrite !str_app_assoc.
  set (tail := "," +:+ quote "messageType" +:+ _).
  assert (find_status (print (match pl_Queue (pj_Payload j) with Some q => q_MarshalJSON q | None => JNull end)
            +:+ tail) = find_status tail) as ->.
  { destruct (pl_Queue (pj_Payload j)) as [q|]; [|by apply find_status_skip].
    unfold q_MarshalJSON. rewrite print_obj, !str_app_assoc. cbn [print_fields]. cbn [print].
    change (find_status ("{" +:+ quote "name" +:+ ":" +:+ ?r)) with (find_status r).
    rewrite !str_app_assoc. change ("," +:+ ?r) with (String "," r).
    rewrite find_status_text by discriminate.
    change (find_status (String "," (quote "ns" +:+ ":" +:+ ?r))) with (find_status r).
    change ("}" +:+ ?r) with (String "}" r). by rewrite find_status_text by discriminate. }
  unfold tail. change (find_status ("," +:+ quote "messageType" +:+ ":" +:+ ?r)) with (find_status r).
  rewrite find_status_skip by apply no_quote_itoa.
  assert (pj_Status j = 0 ∨ pj_Status j = 1 ∨ pj_Status j = 2 ∨ pj_Status j = 3 ∨ pj_Status j = 4) as H
    by (unfold known_status in Hst; lia).
  by destruct H as [->|[->|[->|[->| ->]]]].
Qed.

(** ** Reading a job back *)

Record job_in_range (j : PurgeJob) : Prop := {
  jr_type : in_int64 (pl_MessageType (pj_Payload j));
  jr_status : known_status (pj_Status j);
  jr_created : in_int64 (pj_CreatedAt j);
  jr_updated : in_int64 (pj_UpdatedAt j);
  jr_started : in_int64 (pj_StartedAt j);
  jr_completed : in_int64 (pj_CompletedAt j);
  jr_batch : in_int64 (pj_BatchSize j);
  jr_delay : in_int64 (pj_DelayMs j);
  jr_meta : ∀ m, pj_Meta j = Some m → in_int64 (Purged m)
}.

Lemma get_or_nonzero k l z :
  in_int64 z → jfield k l = JNum <$> nonzero z → get_or 0 as_int k l = Some z.
Proof.
  intros Hz Hj. unfold get_or, get_opt. rewrite Hj. unfold nonzero.
  case_decide; [by subst|]. cbn [fmap option_fmap option_map]. by rewrite as_int_num.
Qed.

Lemma payload_roundtrip p :
  in_int64 (pl_MessageType p) → payload_of_json (payload_json p) = Some p.
Proof.
  destruct p as [q t]. cbn [pl_MessageType]. intros Ht. unfold payload_json, payload_of_json.
  cbn [pl_Queue pl_MessageType].
  rewrite (get_or_eq 0 as_int (JNum t) t "messageType") by (jfields || by apply as_int_num).
  unfold get_opt. by destruct q as [[n ns]|].
Qed.

Lemma meta_roundtrip m : in_int64 (Purged m) → meta_of_json (meta_json m) = Some m.
Proof.
  destruct m as [n]. intros H. unfold meta_of_json, meta_json. cbn [Purged] in *.
  by rewrite (get_or_eq 0 as_int (JNum n) n "purged") by (jfields || by apply as_int_num).
Qed.

Lemma job_roundtrip j : job_in_range j → unmarshal_job (mustMarshal j) = Some j.
Proof.
  intros [Ht Hs Hc Hu Hst Hco Hb Hd Hm]. unfold unmarshal_job, mustMarshal. rewrite parse_print.
  cbn [mbind option_bind]. assert (in_int64 (pj_Status j)) as Hs'.
  { unfold known_status, in_int64, int64_min, int64_max in *. lia. }
  destruct j as [id pl st ca ua sa co bs dl er me]. cbn in *.
  unfold job_of_json, job_json.
  cbn [pj_ID pj_Payload pj_Status pj_CreatedAt pj_UpdatedAt pj_StartedAt pj_CompletedAt pj_BatchSize
       pj_DelayMs pj_Error pj_Meta].
  rewrite (get_or_eq "" as_text (JStr id) id "id") by (jfields || done). cbn [mbind option_bind].
  rewrite (get_or_eq _ payload_of_json (payload_json pl) pl "payload")
    by (jfields || (by apply payload_roundtrip) || discriminate). cbn [mbind option_bind].
  rewrite (get_or_eq 0 as_int (JNum st) st "status") by (jfields || by apply as_int_num). cbn [mbind option_bind].
  rewrite (get_or_eq 0 as_int (JNum ca) ca "createdAt") by (jfields || by apply as_int_num). cbn [mbind option_bind].
  rewrite (get_or_nonzero "updatedAt" _ ua) by (done || jfields). cbn [mbind option_bind].
  rewrite (get_or_nonzero "startedAt" _ sa) by (done || jfields). cbn [mbind option_bind].
  rewrite (get_or_nonzero "completedAt" _ co) by (done || jfields). cbn [mbind option_bind].
  rewrite (get_or_nonzero "batchSize" _ bs) by (done || jfields). cbn [mbind option_bind].
  rewrite (get_or_nonzero "delay" _ dl) by (done || jfields). cbn [mbind option_bind].
  rewrite (get_or_nonempty "error" _ er) by jfields. cbn [mbind option_bind].
  rewrite (get_opt_eq meta_of_json meta_json "meta" _ me); [done|jfields|].
  intros m ->. split; [by apply meta_roundtrip, Hm|done].
Qed.

(** ** What the scripts do to the tables

    [job_effect id h p a s s']: the hash of jobs is [h], the lists hold [p] and
    [a], and nothing else changed but the link of job [id] to a worker. *)

Record job_effect (id : string) (h : gmap string string) (p a : list string) (s s' : store) : Prop := {
  je_wt : wt s';
  je_jobs : hsh s' PurgeJobs = h;
  je_pending : lst s' PendingPurgeJobs = p;
  je_active : lst s' ActivePurgeJobs = a;
  je_other : ∀ k, k ≠ PurgeJobs → k ≠ PendingPurgeJobs → k ≠ ActivePurgeJobs → k ≠ JobWorker id →
    db s' !! k = db s !! k
}.

Definition without (id : string) (l : list string) : list string := filter (λ x, x ≠ id) l.

Lemma lrem0_run k v s :
  is_list s k →
  cmd_lrem0 k v s =
    if decide (without v (lst s k) = lst s k) then (Ret 0, s)
    else (Ret (Z.of_nat (length (lst s k) - length (without v (lst s k)))),
          upd k (list_val (without v (lst s k))) s).
Proof.
  intros H. unfold cmd_lrem0. rewrite with_list_run by done. cbv zeta. fold (without v (lst s k)).
  by destruct (decide (without v (lst s k) = lst s k)).
Qed.

Lemma without_shorter v l : v ∈ l → (length (without v l) < length l)%nat.
Proof. intros H. unfold without. apply (length_filter_lt _ _ v); [done|]. by intros []. Qed.

Lemma without_notin v l : v ∉ l → without v l = l.
Proof.
  induction l as [|x l IH]; [done|]. intros [Hx Hl]%not_elem_of_cons. unfold without.
  rewrite filter_cons_True by congruence. f_equal. by apply IH.
Qed.

Lemma elem_of_without x v l : x ∈ without v l ↔ x ∈ l ∧ x ≠ v.
Proof. unfold without. rewrite list_elem_of_filter. naive_solver. Qed.

Section effects.
Context (id : string) (Hid : no_colon id = true).

Lemma je_refl s : wt s → job_effect id (hsh s PurgeJobs) (lst s PendingPurgeJobs) (lst s ActivePurgeJobs) s s.
Proof. by split. Qed.

Section from.
Context (h : gmap string string) (p a : list string) (s s1 : store) (He : job_effect id h p a s s1).

Lemma je_upd_list k l (p' a' : list string) :
  (k = PendingPurgeJobs ∧ p' = l ∧ a' = a) ∨ (k = ActivePurgeJobs ∧ p' = p ∧ a' = l) →
  job_effect id h p' a' s (upd k (list_val l) s1).
Proof using He.
  destruct He as [Hw Hj Hp Ha Ho]. intros [(-> & -> & ->)|(-> & -> & ->)].
  - split; [wt_solve|by views; rewrite Hj|by views|by views; rewrite Ha|].
    intros k' H1 H2 H3 H4. rewrite lookup_upd_ne by done. by apply Ho.
  - split; [wt_solve|by views; rewrite Hj|by views; rewrite Hp|by views|].
    intros k' H1 H2 H3 H4. rewrite lookup_upd_ne by done. by apply Ho.
Qed.

Lemma je_hset data :
  ∃ s2, cmd_hset PurgeJobs [(id, data)] s1 = (Ret tt, s2) ∧ job_effect id (<[id := data]> h) p a s s2.
Proof using He.
  destruct He as [Hw Hj Hp Ha Ho]. eexists. split; [apply hset_run; wt_view|].
  split; [wt_solve|by views; rewrite Hj|by views; rewrite Hp|by views; rewrite Ha|].
  intros k' H1 H2 H3 H4. rewrite lookup_upd_ne by done. by apply Ho.
Qed.

Lemma je_lrem_pending :
  ∃ n s2, cmd_lrem0 PendingPurgeJobs id s1 = (Ret n, s2) ∧ job_effect id h (without id p) a s s2.
Proof using He.
  pose proof He as [Hw Hj Hp Ha Ho]. rewrite lrem0_run by wt_view. rewrite Hp.
  destruct (decide (without id p = p)) as [E|E]; do 2 eexists; split; [done|by rewrite E|done|].
  apply je_upd_list. auto.
Qed.

Lemma je_lrem_active :
  ∃ n s2, cmd_lrem0 ActivePurgeJobs id s1 = (Ret n, s2) ∧ job_effect id h p (without id a) s s2 ∧
    (n = 0 ↔ id ∉ a).
Proof using He.
  pose proof He as [Hw Hj Hp Ha Ho]. rewrite lrem0_run by wt_view. rewrite Ha.
  destruct (decide (without id a = a)) as [E|E].
  - do 2 eexists. split; [done|]. rewrite E. split; [done|]. split; [|done]. intros _ Hin.
    pose proof (without_shorter id a Hin). rewrite E in *. lia.
  - do 2 eexists. split; [done|]. split; [apply je_upd_list; auto|].
    destruct (decide (id ∈ a)) as [Hin|Hin].
    + pose proof (without_shorter id a Hin). split; [lia|done].
    + by destruct E; apply without_notin.
Qed.

Lemma je_lpush_pending :
  ∃ s2, cmd_lpush PendingPurgeJobs id s1 = (Ret tt, s2) ∧ job_effect id h (id :: p) a s s2.
Proof using He.
  pose proof He as [Hw Hj Hp Ha Ho]. eexists. split; [apply lpush_run; wt_view|].
  rewrite Hp. apply je_upd_list. auto.
Qed.

Lemma je_rpush_active :
  ∃ s2, cmd_rpush ActivePurgeJobs [id] s1 = (Ret tt, s2) ∧ job_effect id h p (a ++ [id]) s s2.
Proof using He.
  pose proof He as [Hw Hj Hp Ha Ho]. eexists. split; [apply rpush_run; wt_view|].
  rewrite Ha. apply je_upd_list. auto.
Qed.

(** Writing or removing the link to a worker. *)
Lemma je_worker ov s2 :
  has_type TStr ov → db s2 = db (upd (JobWorker id) ov s1) → job_effect id h p a s s2.
Proof using He Hid.
  intros Ht E. destruct He as [Hw Hj Hp Ha Ho].
  assert (wt (upd (JobWorker id) ov s1)) as Hw2 by (apply (wt_upd _ (KJobWorker id)); [done|wf_parts|done]).
  assert (∀ k, k ≠ JobWorker id → db s2 !! k = db s1 !! k) as Hk.
  { intros k Hne. rewrite E. by apply lookup_upd_ne. }
  split.
  - intros k Hwf. rewrite E. by apply Hw2.
  - unfold hsh. rewrite Hk by key_ne. exact Hj.
  - unfold lst. rewrite Hk by key_ne. exact Hp.
  - unfold lst. rewrite Hk by key_ne. exact Ha.
  - intros k H1 H2 H3 H4. rewrite Hk by done. by apply Ho.
Qed.

Lemma je_set_worker w :
  ∃ s2, cmd_set (JobWorker id) w s1 = (Ret tt, s2) ∧ job_effect id h p a s s2.
Proof using He Hid.
  eexists. split; [done|]. apply (je_worker (Some (VStr w))); [by eexists|done].
Qed.

Lemma je_del_worker :
  ∃ s2, cmd_del [JobWorker id] s1 = (Ret tt, s2) ∧ job_effect id h p a s s2.
Proof using He Hid.
  eexists. split; [done|]. apply (je_worker None); [by eexists|done].
Qed.

End from.

Lemma drop_processing_run h p a s s1 r :
  job_effect id h p a s s1 →
  ∃ s2, drop_processing ActivePurgeJobs (JobWorker id) id r s1 = (Ret r, s2) ∧
    job_effect id h p (without id a) s s2.
Proof using Hid.
  intros He. unfold drop_processing.
  destruct (je_lrem_active h p a s s1 He) as (n & s2 & Hr & He2 & _).
  destruct (je_del_worker h p (without id a) s s2 He2) as (s3 & Hr3 & He3).
  exists s3. split; [|done]. erewrite bind_Ret; [|exact Hr]. erewrite bind_Ret; [|exact Hr3]. done.
Qed.

Lemma drop_both_run h p a s s1 r :
  job_effect id h p a s s1 →
  ∃ s2, (_ ← cmd_lrem0 PendingPurgeJobs id;
         drop_processing ActivePurgeJobs (JobWorker id) id r) s1 = (Ret r, s2) ∧
    job_effect id h (without id p) (without id a) s s2.
Proof using Hid.
  intros He. destruct (je_lrem_pending h p a s s1 He) as (n & s2 & Hr & He2).
  destruct (drop_processing_run h (without id p) a s s2 r He2) as (s3 & Hr3 & He3).
  exists s3. split; [|done]. erewrite bind_Ret; [|exact Hr]. exact Hr3.
Qed.

(** *** The scripts *)

Definition job_status (s : store) (i : string) : option string := hsh s PurgeJobs !! i ≫= find_status.
Definition terminal (st : option string) : Prop := st = Some "2" ∨ st = Some "3" ∨ st = Some "4".

Lemma current_status_run s : wt s → current_status PurgeJobs id s = (Ret (job_status s id), s).
Proof. intros Hw. unfold current_status. by run_cmd hget_run. Qed.

Context (s : store) (Hw : wt s) (data : string).
#[local] Abbreviation h := (hsh s PurgeJobs).
#[local] Abbreviation p := (lst s PendingPurgeJobs).
#[local] Abbreviation a := (lst s ActivePurgeJobs).
#[local] Abbreviation st := (job_status s id).

Lemma create_job_run :
  ∃ r s', create_job [PurgeJobs; PendingPurgeJobs] [id; data] s = (Ret r, s') ∧
    if decide (is_Some (h !! id)) then r = -1 ∧ s' = s
    else r = 1 ∧ job_effect id (<[id := data]> h) (id :: p) a s s'.
Proof using Hw.
  unfold create_job. cbn [arg nth Nat.sub].
  erewrite bind_Ret; [|unfold cmd_hexists; rewrite with_hash_run by wt_view; done].
  destruct (decide (is_Some (h !! id))) as [Hx|Hx].
  - rewrite bool_decide_eq_true_2 by done. by do 2 eexists.
  - rewrite bool_decide_eq_false_2 by done.
    destruct (je_hset _ _ _ s s (je_refl s Hw) data) as (s1 & Hr1 & He1).
    destruct (je_lpush_pending _ _ _ s s1 He1) as (s2 & Hr2 & He2).
    exists 1, s2. split; [|done]. erewrite bind_Ret; [|exact Hr1]. erewrite bind_Ret; [|exact Hr2]. done.
Qed.

Definition start_post (r : Z) (s' : store) : Prop :=
  if decide (st = Some "0" ∧ id ∈ a)
  then r = 1 ∧ job_effect id (<[id := data]> h) p (without id a ++ [id]) s s'
  else job_effect id h p a s s' ∧ (st = Some "1" → r = 2) ∧ (st ≠ Some "1" → r ∈ [0; -1; -2; -3]).

Lemma start_run w :
  ∃ r s', start_job [PurgeJobs; ActivePurgeJobs; JobWorker id] [id; w; data; "0"; "1"; "2"; "3"; "4"] s
    = (Ret r, s') ∧ start_post r s'.
Proof using Hw Hid.
  unfold start_job, start_post. cbn [arg nth Nat.sub]. cbv zeta.
  erewrite bind_Ret; [|by apply current_status_run].
  pose proof (je_refl s Hw) as H0.
  assert (∀ r, st ≠ Some "0" ∨ id ∉ a → (st = Some "1" → r = 2) → (st ≠ Some "1" → r ∈ [0; -1; -2; -3]) →
    start_post r s) as Hno.
  { intros r Hst Hr1 Hr2. unfold start_post. by rewrite decide_False by tauto. }
  unfold start_post in Hno.
  destruct (job_status s id) as [x|] eqn:E; [|exists 0, s; split; [done|]; apply Hno; set_solver].
  destruct (decide (x = "0")) as [->|N0].
  2: { destruct (decide (x = "1")) as [->|]; [exists 2, s; split; [done|]; apply Hno; set_solver|].
       destruct (decide (x = "2")) as [->|]; [exists (-1), s; split; [done|]; apply Hno; set_solver|].
       destruct (decide (x = "3")) as [->|]; [exists (-2), s; split; [done|]; apply Hno; set_solver|].
       destruct (decide (x = "4")) as [->|]; [exists (-3), s; split; [done|]; apply Hno; set_solver|].
       rewrite decide_True by done. exists 0, s. split; [done|]. apply Hno; set_solver. }
  rewrite !(decide_False (P := "0" = _)) by done. rewrite (decide_False (P := "0" ≠ "0")) by naive_solver.
  destruct (je_lrem_active h p a s s H0) as (n & s1 & Hr1 & He1 & Hn).
  erewrite bind_Ret; [|exact Hr1]. destruct (decide (id ∈ a)) as [Hin|Hin].
  - rewrite (decide_False (P := n = 0)) by tauto.
    destruct (je_rpush_active _ _ _ s s1 He1) as (s2 & Hr2 & He2).
    destruct (je_hset _ _ _ s s2 He2 data) as (s3 & Hr3 & He3).
    destruct (je_set_worker _ _ _ s s3 He3 w) as (s4 & Hr4 & He4).
    exists 1, s4. rewrite decide_True by done. split; [|done].
    erewrite bind_Ret; [|exact Hr2]. erewrite bind_Ret; [|exact Hr3].
    erewrite bind_Ret; [|exact Hr4]. done.
  - rewrite (decide_True (P := n = 0)) by tauto.
    exists 0, s1. split; [done|]. rewrite decide_False by naive_solver.
    rewrite without_notin in He1 by done. set_solver.
Qed.

(** The scripts that end or give back a job: [acc] says from which statuses,
    [p1] is what they leave in the pending list, [p2] what they leave there
    when the job has ended already. *)
Definition finish_post (acc : Prop) `{Decision acc} (p1 p2 : list string) (r : Z) (s' : store) : Prop :=
  (r = 1 ↔ acc) ∧
  job_effect id (if decide acc then <[id := data]> h else h)
    (if decide acc then p1 else if decide (terminal st) then p2 else p)
    (if decide (acc ∨ terminal st) then without id a else a) s s'.

Section finish.
Context (acc : Prop) `{Decision acc} (p1 p2 : list string).

Lemma finish_accept s' :
  acc → job_effect id (<[id := data]> h) p1 (without id a) s s' → finish_post acc p1 p2 1 s'.
Proof. intros Ha He. split; [done|]. by rewrite !decide_True by auto. Qed.
Lemma finish_terminal r s' :
  ¬ acc → terminal st → r ≠ 1 → job_effect id h p2 (without id a) s s' → finish_post acc p1 p2 r s'.
Proof.
  intros Ha Ht Hr He. split; [tauto|]. rewrite !(decide_False (P := acc)) by done.
  by rewrite !decide_True by auto.
Qed.
Lemma finish_none : ¬ acc → ¬ terminal st → finish_post acc p1 p2 0 s.
Proof using Hw.
  intros Ha Ht. split; [naive_solver|]. rewrite !decide_False by tauto. by apply je_refl.
Qed.
End finish.

(** Facts about the status found, [E]. *)
Ltac status_is E := unfold terminal; rewrite ?E; naive_solver.

(** A finished job only has what is left of it removed. *)
Ltac ended lem E r :=
  let s1 := fresh "s1" in let Hr := fresh "Hr" in let He := fresh "He" in
  destruct (lem (hsh s PurgeJobs) (lst s PendingPurgeJobs) (lst s ActivePurgeJobs) s s r (je_refl s Hw))
    as (s1 & Hr & He);
  exists r, s1; split; [exact Hr|apply finish_terminal; [status_is E|status_is E|lia|exact He]].

Ltac accepted lem E :=
  let s1 := fresh "s1" in let Hr1 := fresh "Hr" in let He1 := fresh "He" in
  let s2 := fresh "s2" in let Hr2 := fresh "Hr" in let He2 := fresh "He" in
  destruct (je_hset _ _ _ s s (je_refl s Hw) data) as (s1 & Hr1 & He1);
  destruct (lem _ _ _ s s1 1 He1) as (s2 & Hr2 & He2);
  exists 1, s2; split; [by erewrite bind_Ret; [|exact Hr1]|apply finish_accept; [status_is E|exact He2]].

Lemma complete_run :
  ∃ r s', complete_job [PurgeJobs; ActivePurgeJobs; JobWorker id] [id; data; "1"; "2"; "3"; "4"] s
    = (Ret r, s') ∧ finish_post (st = Some "1") p p r s'.
Proof using Hw Hid.
  unfold complete_job. cbn [arg nth Nat.sub]. cbv zeta. erewrite bind_Ret; [|by apply current_status_run].
  destruct (job_status s id) as [x|] eqn:E; [|exists 0, s; split; [done|apply finish_none; status_is E]].
  destruct (decide (x = "2")) as [->|N2]; [ended drop_processing_run E 2|].
  destruct (decide (x = "3")) as [->|N3]; [ended drop_processing_run E (-1)|].
  destruct (decide (x = "4")) as [->|N4]; [ended drop_processing_run E (-2)|].
  destruct (decide (x = "1")) as [->|N1].
  - rewrite decide_False by naive_solver. accepted drop_processing_run E.
  - rewrite decide_True by done. exists 0, s. split; [done|apply finish_none; status_is E].
Qed.

Lemma fail_run :
  ∃ r s', fail_job [PurgeJobs; ActivePurgeJobs; JobWorker id] [id; data; "1"; "2"; "3"; "4"] s
    = (Ret r, s') ∧ finish_post (st = Some "1") p p r s'.
Proof using Hw Hid.
  unfold fail_job. cbn [arg nth Nat.sub]. cbv zeta. erewrite bind_Ret; [|by apply current_status_run].
  destruct (job_status s id) as [x|] eqn:E; [|exists 0, s; split; [done|apply finish_none; status_is E]].
  destruct (decide (x = "3")) as [->|N3]; [ended drop_processing_run E 2|].
  destruct (decide (x = "2")) as [->|N2]; [ended drop_processing_run E (-1)|].
  destruct (decide (x = "4")) as [->|N4]; [ended drop_processing_run E (-2)|].
  destruct (decide (x = "1")) as [->|N1].
  - rewrite decide_False by naive_solver. accepted drop_processing_run E.
  - rewrite decide_True by done. exists 0, s. split; [done|apply finish_none; status_is E].
Qed.

Lemma cancel_run :
  ∃ r s', cancel_job [PurgeJobs; PendingPurgeJobs; ActivePurgeJobs; JobWorker id]
      [id; data; "0"; "1"; "2"; "3"; "4"] s
    = (Ret r, s') ∧ finish_post (st = Some "0" ∨ st = Some "1") (without id p) (without id p) r s'.
Proof using Hw Hid.
  unfold cancel_job. cbn [arg nth Nat.sub]. cbv zeta. erewrite bind_Ret; [|by apply current_status_run].
  destruct (job_status s id) as [x|] eqn:E; [|exists 0, s; split; [done|apply finish_none; status_is E]].
  destruct (decide (x = "4")) as [->|N4]; [ended drop_both_run E 2|].
  destruct (decide (x = "2")) as [->|N2]; [ended drop_both_run E (-1)|].
  destruct (decide (x = "3")) as [->|N3]; [ended drop_both_run E (-2)|].
  destruct (decide (x ≠ "0" ∧ x ≠ "1")) as [N|N].
  - exists 0, s. split; [done|apply finish_none; status_is E].
  - assert (x = "0" ∨ x = "1") as Hx by (destruct (decide (x = "0")), (decide (x = "1")); tauto).
    clear N. accepted drop_both_run E.
Qed.

Lemma recover_run :
  ∃ r s', recover_stuck_job [PurgeJobs; PendingPurgeJobs; ActivePurgeJobs; JobWorker id]
      [id; data; "1"; "2"; "3"; "4"; "Recovered from worker crash"] s
    = (Ret r, s') ∧ finish_post (st = Some "1") (id :: p) p r s'.
Proof using Hw Hid.
  unfold recover_stuck_job. cbn [arg nth Nat.sub]. cbv zeta.
  erewrite bind_Ret; [|by apply current_status_run].
  destruct (job_status s id) as [x|] eqn:E; [|exists 0, s; split; [done|apply finish_none; status_is E]].
  destruct (decide (x = "2")) as [->|N2]; [ended drop_processing_run E (-1)|].
  destruct (decide (x = "3")) as [->|N3]; [ended drop_processing_run E (-2)|].
  destruct (decide (x = "4")) as [->|N4]; [ended drop_processing_run E (-3)|].
  destruct (decide (x = "1")) as [->|N1].
  - rewrite decide_False by naive_solver.
    destruct (je_hset _ _ _ s s (je_refl s Hw) data) as (s1 & Hr1 & He1).
    destruct (je_lrem_active _ _ _ s s1 He1) as (n & s2 & Hr2 & He2 & _).
    destruct (je_lpush_pending _ _ _ s s2 He2) as (s3 & Hr3 & He3).
    destruct (je_del_worker _ _ _ s s3 He3) as (s4 & Hr4 & He4).
    exists 1, s4. split; [|apply finish_accept; [status_is E|exact He4]].
    erewrite bind_Ret; [|exact Hr1]. erewrite bind_Ret; [|exact Hr2]. erewrite bind_Ret; [|exact Hr3].
    by erewrite bind_Ret; [|exact Hr4].
  - rewrite decide_True by done. exists 0, s. split; [done|apply finish_none; status_is E].
Qed.
End effects.

(** ** The invariant of the tables *)

Definition stat (h : gmap string string) (id : string) : option string := h !! id ≫= find_status.

(** Every entry is a job as Go writes it; a pending job is listed once, a
    processing one in the active list, and a finished one nowhere. *)
Record table_ok (h : gmap string string) (p a : list string) : Prop := {
  tb_text : ∀ id data, h !! id = Some data →
    no_colon id = true ∧ ∃ j, data = mustMarshal j ∧ pj_ID j = id ∧ job_in_range j;
  tb_NoDup : NoDup (p ++ a);
  tb_pending : ∀ id, id ∈ p → stat h id = Some "0";
  tb_active : ∀ id, id ∈ a → stat h id = Some "0" ∨ stat h id = Some "1";
  tb_listed : ∀ id, stat h id = Some "0" → id ∈ p ++ a;
  tb_working : ∀ id, stat h id = Some "1" → id ∈ a
}.

Lemma stat_insert h j : job_in_range j → stat (<[pj_ID j := mustMarshal j]> h) (pj_ID j) = Some (job_status_String (pj_Status j)).
Proof.
  intros Hj. unfold stat. rewrite lookup_insert_eq. cbn [mbind option_bind].
  by apply find_status_job, Hj.
Qed.

Lemma stat_insert_ne h id id' data : id ≠ id' → stat (<[id := data]> h) id' = stat h id'.
Proof. intros H. unfold stat. by rewrite lookup_insert_ne. Qed.

(** A write of one job that changes the lists at its identifier only. *)
Lemma table_write h p a p' a' j :
  table_ok h p a → job_in_range j → no_colon (pj_ID j) = true → NoDup (p' ++ a') →
  (∀ x, x ≠ pj_ID j → (x ∈ p' ↔ x ∈ p) ∧ (x ∈ a' ↔ x ∈ a)) →
  (pj_ID j ∈ p' ↔ pj_Status j = 0 ∧ pj_ID j ∉ a') →
  (pj_Status j = 1 → pj_ID j ∈ a') →
  (pj_ID j ∈ a' → pj_Status j = 0 ∨ pj_Status j = 1) →
  table_ok (<[pj_ID j := mustMarshal j]> h) p' a'.
Proof.
  intros [Ht Hn Hp Ha Hl Hw] Hj Hc Hn' Hx Hp' H1 Ha'. set (id := pj_ID j) in *.
  pose proof (stat_insert h j Hj) as Hst. fold id in Hst.
  assert (∀ z, job_status_String (pj_Status j) = itoa z → pj_Status j = z) as Hz by (by intros z ?%(inj itoa)).
  split.
  - intros i data. destruct (decide (id = i)) as [<-|Hne].
    + rewrite lookup_insert_eq. intros [= <-]. split; [done|]. by exists j.
    + rewrite lookup_insert_ne by done. apply Ht.
  - done.
  - intros i Hi. destruct (decide (id = i)) as [<-|Hne].
    + rewrite Hst. by apply Hp' in Hi as [-> _].
    + rewrite stat_insert_ne by done. apply Hp, Hx; [done|exact Hi].
  - intros i Hi. destruct (decide (id = i)) as [<-|Hne].
    + rewrite Hst. by destruct (Ha' Hi) as [-> | ->]; [left|right].
    + rewrite stat_insert_ne by done. apply Ha, Hx; [done|exact Hi].
  - intros i. rewrite elem_of_app. destruct (decide (id = i)) as [<-|Hne].
    + rewrite Hst. intros [= E]. apply (Hz 0) in E.
      destruct (decide (id ∈ a')); [by right|left; by apply Hp'].
    + rewrite stat_insert_ne by done. intros Hs%Hl. rewrite elem_of_app in Hs.
      destruct (Hx i) as [-> ->]; [congruence|done].
  - intros i. destruct (decide (id = i)) as [<-|Hne].
    + rewrite Hst. intros [= E]. apply (Hz 1) in E. by apply H1.
    + rewrite stat_insert_ne by done. intros Hs%Hw. by apply Hx.
Qed.

Lemma NoDup_without v l : NoDup l → NoDup (without v l).
Proof. apply NoDup_filter. Qed.

Lemma NoDup_without2 v p a : NoDup (p ++ a) → NoDup (without v p ++ without v a).
Proof. intros H. unfold without. rewrite <-filter_app. by apply NoDup_filter. Qed.

Section table.
Context (h : gmap string string) (p a : list string) (Hok : table_ok h p a).
Context (j : PurgeJob) (Hj : job_in_range j) (Hc : no_colon (pj_ID j) = true).
Let id := pj_ID j.
Let h' := <[id := mustMarshal j]> h.

Lemma table_parts : NoDup p ∧ NoDup a ∧ ∀ x, x ∈ p → x ∉ a.
Proof using Hok. pose proof (tb_NoDup _ _ _ Hok) as H. apply NoDup_app in H. naive_solver. Qed.

Lemma fresh_unlisted : h !! id = None → (id ∉ p) ∧ (id ∉ a).
Proof using Hok.
  intros Hn. assert (stat h id = None) as Hs by (unfold stat; by rewrite Hn).
  split; intros Hin; [apply (tb_pending _ _ _ Hok) in Hin|apply (tb_active _ _ _ Hok) in Hin]; naive_solver.
Qed.

Lemma terminal_unlisted i : terminal (stat h i) → (i ∉ p) ∧ (i ∉ a).
Proof using Hok.
  intros Ht. unfold terminal in Ht.
  split; intros Hin; [apply (tb_pending _ _ _ Hok) in Hin|apply (tb_active _ _ _ Hok) in Hin]; naive_solver.
Qed.

Lemma table_create : pj_Status j = 0 → h !! id = None → table_ok h' (id :: p) a.
Proof using Hok Hj Hc.
  intros Hs Hn. destruct (fresh_unlisted Hn) as [Hp Ha].
  apply (table_write h p a); [done..| | |rewrite elem_of_cons; naive_solver|lia|naive_solver].
  - cbn. apply NoDup_cons. split; [rewrite elem_of_app; naive_solver|]. apply Hok.
  - intros x Hx. rewrite elem_of_cons. naive_solver.
Qed.

Lemma table_acquire i : last p = Some i → table_ok h (removelast p) (i :: a).
Proof using Hok.
  clear h' id Hj Hc j. intros Hl. destruct table_parts as (Np & Na & Hd). pose proof (removelast_app1 p i Hl) as E.
  assert (∀ x, x ∈ p ↔ x ∈ removelast p ∨ x = i) as Hin by (intros x; rewrite E at 1; set_solver).
  pose proof Hok as [Ht Hn Hp Ha Hls Hw]. split.
  - done.
  - rewrite E in Hn. by rewrite <-app_assoc in Hn.
  - intros x Hx. apply Hp, Hin. by left.
  - intros x [->|Hx]%elem_of_cons; [left; apply Hp, Hin; by right|by apply Ha].
  - intros x Hx%Hls. rewrite elem_of_app, Hin in Hx. rewrite elem_of_app, elem_of_cons. tauto.
  - intros x Hx. rewrite elem_of_cons. right. by apply Hw.
Qed.

Lemma table_start : pj_Status j = 1 → stat h id = Some "0" → id ∈ a → table_ok h' p (without id a ++ [id]).
Proof using Hok Hj Hc.
  intros Hs H0 Hin. destruct table_parts as (Np & Na & Hd).
  assert (∀ x, x ∈ without id a ++ [id] ↔ x ∈ a) as Hm.
  { intros x. rewrite elem_of_app, elem_of_without, list_elem_of_singleton.
    destruct (decide (x = id)) as [->|]; naive_solver. }
  apply (table_write h p a); [done..| | | |by intros _; apply Hm|lia].
  - apply NoDup_app. split; [done|]. split; [intros x Hx; rewrite Hm; by apply Hd|].
    apply NoDup_app. split; [by apply NoDup_without|]. split; [|apply NoDup_singleton].
    intros x. rewrite elem_of_without, list_elem_of_singleton. naive_solver.
  - intros x Hx. by rewrite Hm.
  - rewrite Hm. split; [intros Hp; by apply Hd in Hp|lia].
Qed.

Lemma table_finish : 2 ≤ pj_Status j → stat h id = Some "1" → table_ok h' p (without id a).
Proof using Hok Hj Hc.
  intros Hs H1. destruct table_parts as (Np & Na & Hd). pose proof (tb_working _ _ _ Hok id H1) as Hin.
  assert (id ∉ p) as Hp by (intros Hp; by apply Hd in Hp).
  apply (table_write h p a); [done..| | | |lia|rewrite elem_of_without; naive_solver].
  - apply NoDup_app. split_and!; [done| |by apply NoDup_without].
    intros x Hx. rewrite elem_of_without. intros [Hx' _]. by eapply Hd.
  - intros x Hx. rewrite elem_of_without. naive_solver.
  - split; [done|lia].
Qed.

Lemma table_cancel : 2 ≤ pj_Status j → table_ok h' (without id p) (without id a).
Proof using Hok Hj Hc.
  intros Hs. pose proof (tb_NoDup _ _ _ Hok) as Hn.
  apply (table_write h p a); [done..|by apply NoDup_without2| | |lia|rewrite elem_of_without; naive_solver].
  - intros x Hx. rewrite !elem_of_without. naive_solver.
  - rewrite !elem_of_without. split; [naive_solver|lia].
Qed.

Lemma table_recover : pj_Status j = 0 → stat h id = Some "1" → table_ok h' (id :: p) (without id a).
Proof using Hok Hj Hc.
  intros Hs H1. destruct table_parts as (Np & Na & Hd). pose proof (tb_working _ _ _ Hok id H1) as Hin.
  assert (id ∉ p) as Hp by (intros Hp; by apply Hd in Hp).
  apply (table_write h p a); [done..| | | |lia|rewrite elem_of_without; naive_solver].
  - cbn. apply NoDup_cons. rewrite elem_of_app, elem_of_without. split; [naive_solver|].
    apply NoDup_app. split_and!; [done| |by apply NoDup_without].
    intros x Hx. rewrite elem_of_without. intros [Hx' _]. by eapply Hd.
  - intros x Hx. rewrite elem_of_without, elem_of_cons. naive_solver.
  - rewrite elem_of_without, elem_of_cons. naive_solver.
Qed.

Lemma table_save : pj_Status j = 1 → stat h id = Some "1" → table_ok h' p a.
Proof using Hok Hj Hc.
  intros Hs H1. destruct table_parts as (Np & Na & Hd). pose proof (tb_working _ _ _ Hok id H1) as Hin.
  apply (table_write h p a); [done..| |done| |done|lia].
  - apply Hok.
  - split; [intros Hp; by apply Hd in Hp|lia].
Qed.
End table.

(** ** Reachable tables *)

Definition jobs_ok (s : store) : Prop :=
  wt s ∧ table_ok (hsh s PurgeJobs) (lst s PendingPurgeJobs) (lst s ActivePurgeJobs).

Definition job_written (j : PurgeJob) (st : Z) : Prop :=
  pj_Status j = st ∧ job_in_range j ∧ no_colon (pj_ID j) = true.

(** Managers and workers act on the tables one script at a time, with jobs
    they read earlier.  [SaveJob] is not guarded by a script and writes whatever
    the worker has; the label of a step is false when it does so over a job that
    is not processing any more. *)
Inductive job_step (s : store) : bool → store → Prop :=
| js_create j : job_written j PurgeJobPending → job_step s true (Create j s).2
| js_acquire : job_step s true (acquire s).2
| js_start w j : job_written j PurgeJobProcessing → job_step s true (Start (pj_ID j) w j s).2
| js_complete j : job_written j PurgeJobCompleted → job_step s true (Complete (pj_ID j) j s).2
| js_fail j : job_written j PurgeJobFailed → job_step s true (FailJob (pj_ID j) j s).2
| js_cancel j : job_written j PurgeJobCanceled → job_step s true (CancelJob (pj_ID j) j s).2
| js_recover j : job_written j PurgeJobPending → job_step s true (Recover (pj_ID j) j s).2
| js_save now j :
    job_written j PurgeJobProcessing → in_int64 (UnixMilli now) →
    job_step s (bool_decide (job_status s (pj_ID j) = Some "1")) (SaveJob now j s).2.2
| js_rest s' :
    wt s' → db s' !! PurgeJobs = db s !! PurgeJobs →
    db s' !! PendingPurgeJobs = db s !! PendingPurgeJobs →
    db s' !! ActivePurgeJobs = db s !! ActivePurgeJobs → job_step s true s'.

(** Sequences of steps; the flag stays true as long as no save overwrote a job that
    was not processing. *)
Inductive job_run (s0 : store) : bool → store → Prop :=
| jr_start : job_run s0 true s0
| jr_step b s b' s' : job_run s0 b s → job_step s b' s' → job_run s0 (b && b') s'.

Lemma runJobScript_state m op s : (runJobScript m op s).2 = (m s).2.
Proof. unfold runJobScript. by destruct (m s) as [[]]. Qed.

Lemma acquire_state s : (acquire s).2 = (cmd_rpoplpush PendingPurgeJobs ActivePurgeJobs s).2.
Proof. unfold acquire. by destruct (cmd_rpoplpush _ _ s) as [[[]|]]. Qed.

(** What a step may do to a finished job: nothing. *)
Definition keeps_finished (h h' : gmap string string) : Prop :=
  ∀ id, terminal (stat h id) → h' !! id = h !! id.

Lemma keeps_finished_insert h id data : ¬ terminal (stat h id) → keeps_finished h (<[id := data]> h).
Proof. intros Hn i Hi. rewrite lookup_insert_ne; [done|]. by intros ->. Qed.

Lemma effect_ok id h p a s s' :
  job_effect id h p a s s' → table_ok h p a → keeps_finished (hsh s PurgeJobs) h →
  jobs_ok s' ∧ keeps_finished (hsh s PurgeJobs) (hsh s' PurgeJobs).
Proof. intros [Hw Hj Hp Ha _] Ht Hk. unfold jobs_ok. by rewrite Hj, Hp, Ha. Qed.

Lemma finish_ok j acc `{Decision acc} p1 p2 s r s' :
  jobs_ok s → finish_post (pj_ID j) s (mustMarshal j) acc p1 p2 r s' →
  (terminal (job_status s (pj_ID j)) → p2 = lst s PendingPurgeJobs) →
  (acc → ¬ terminal (job_status s (pj_ID j)) ∧
         table_ok (<[pj_ID j := mustMarshal j]> (hsh s PurgeJobs)) p1 (without (pj_ID j) (lst s ActivePurgeJobs))) →
  jobs_ok s' ∧ keeps_finished (hsh s PurgeJobs) (hsh s' PurgeJobs).
Proof.
  intros [Hw Hok] [_ He] Hp2 Hacc. eapply effect_ok; [exact He|..].
  - destruct (decide acc) as [Ha|Ha].
    + rewrite decide_True by auto. by apply Hacc.
    + destruct (decide (acc ∨ terminal (job_status s (pj_ID j)))) as [[?|Ht]|Hn]; [done|..].
      * rewrite decide_True by done. destruct (terminal_unlisted _ _ _ Hok (pj_ID j) Ht) as [_ Hna].
        by rewrite without_notin, Hp2.
      * by rewrite decide_False by tauto.
  - case_decide; [|done]. apply keeps_finished_insert. by apply Hacc.
Qed.

Lemma not_terminal s id st :
  job_status s id = Some st → st = "0" ∨ st = "1" → ¬ terminal (stat (hsh s PurgeJobs) id).
Proof.
  intros H Hst. change (stat (hsh s PurgeJobs) id) with (job_status s id). unfold terminal.
  rewrite H. naive_solver.
Qed.

(** The status arguments of the scripts. *)
Ltac status_args :=
  change (job_status_String PurgeJobPending) with "0"; change (job_status_String PurgeJobProcessing) with "1";
  change (job_status_String PurgeJobCompleted) with "2"; change (job_status_String PurgeJobFailed) with "3";
  change (job_status_String PurgeJobCanceled) with "4".

(** *** Each step keeps the tables consistent and finished jobs as they are *)

Section steps.
Context (s : store) (Hok : jobs_ok s).

Definition kept (s' : store) : Prop :=
  jobs_ok s' ∧ keeps_finished (hsh s PurgeJobs) (hsh s' PurgeJobs).

Lemma create_ok j : job_written j PurgeJobPending → kept (Create j s).2.
Proof using Hok.
  intros (Hs & Hr & Hc). pose proof Hok as [Hw Ht]. unfold Create. rewrite runJobScript_state.
  destruct (create_job_run (pj_ID j) s Hw (mustMarshal j)) as (r & s' & -> & H). cbn [snd].
  destruct (decide _) as [_|Hno]; [by destruct H as [_ ->]|]. destruct H as [_ He].
  apply eq_None_not_Some in Hno. eapply effect_ok; [exact He|by apply table_create|].
  apply keeps_finished_insert. unfold stat. rewrite Hno. by intros [|[|]].
Qed.

Lemma acquire_ok : kept (acquire s).2.
Proof using Hok.
  pose proof Hok as [Hw Ht]. rewrite acquire_state. rewrite rpoplpush_run by (wt_view || key_ne).
  destruct (last (lst s PendingPurgeJobs)) as [i|] eqn:E; [|done]. cbn [snd]. split; [split|].
  - wt_solve.
  - views. by apply table_acquire.
  - views. done.
Qed.

Lemma start_ok w j : job_written j PurgeJobProcessing → kept (Start (pj_ID j) w j s).2.
Proof using Hok.
  intros (Hs & Hr & Hc). pose proof Hok as [Hw Ht]. unfold Start. rewrite runJobScript_state. status_args.
  destruct (start_run (pj_ID j) Hc s Hw (mustMarshal j) w) as (r & s' & -> & H). cbn [snd].
  unfold start_post in H. destruct (decide _) as [[Hst Hin]|Hno].
  - destruct H as [_ He]. eapply effect_ok; [exact He|by apply table_start|].
    apply keeps_finished_insert. by eapply not_terminal; [exact Hst|left].
  - destruct H as [He _]. eapply effect_ok; [exact He|done|done].
Qed.

(** The job leaves the active list. *)
Lemma finish_step_ok j r s' :
  job_written j PurgeJobCompleted ∨ job_written j PurgeJobFailed →
  finish_post (pj_ID j) s (mustMarshal j) (job_status s (pj_ID j) = Some "1")
    (lst s PendingPurgeJobs) (lst s PendingPurgeJobs) r s' → kept s'.
Proof using Hok.
  intros Hj H. eapply finish_ok; [done|exact H|done|]. intros Hst. split.
  - by eapply not_terminal; [exact Hst|right].
  - destruct Hok as [_ Ht].
    destruct Hj as [(Hs & Hr & Hc)|(Hs & Hr & Hc)]; apply table_finish; try done; by rewrite Hs.
Qed.

Lemma complete_ok j : job_written j PurgeJobCompleted → kept (Complete (pj_ID j) j s).2.
Proof using Hok.
  intros Hj. pose proof Hj as (_ & _ & Hc). pose proof Hok as [Hw _].
  unfold Complete. rewrite runJobScript_state. status_args.
  destruct (complete_run (pj_ID j) Hc s Hw (mustMarshal j)) as (r & s' & -> & H).
  eapply finish_step_ok; [by left|exact H].
Qed.

Lemma fail_ok j : job_written j PurgeJobFailed → kept (FailJob (pj_ID j) j s).2.
Proof using Hok.
  intros Hj. pose proof Hj as (_ & _ & Hc). pose proof Hok as [Hw _].
  unfold FailJob. rewrite runJobScript_state. status_args.
  destruct (fail_run (pj_ID j) Hc s Hw (mustMarshal j)) as (r & s' & -> & H).
  eapply finish_step_ok; [by right|exact H].
Qed.

Lemma cancel_ok j : job_written j PurgeJobCanceled → kept (CancelJob (pj_ID j) j s).2.
Proof using Hok.
  intros (Hs & Hr & Hc). pose proof Hok as [Hw Ht]. unfold CancelJob. rewrite runJobScript_state. status_args.
  destruct (cancel_run (pj_ID j) Hc s Hw (mustMarshal j)) as (r & s' & -> & H).
  eapply finish_ok; [done|exact H| |].
  - intros Hte. apply without_notin. by apply (terminal_unlisted _ _ _ Ht).
  - intros Hst. split; [destruct Hst as [Hst|Hst]; eapply not_terminal; [exact Hst|auto|exact Hst|auto]|].
    apply table_cancel; [done..|]. by rewrite Hs.
Qed.

Lemma recover_ok j : job_written j PurgeJobPending → kept (Recover (pj_ID j) j s).2.
Proof using Hok.
  intros (Hs & Hr & Hc). pose proof Hok as [Hw Ht]. unfold Recover. rewrite runJobScript_state. status_args.
  destruct (recover_run (pj_ID j) Hc s Hw (mustMarshal j)) as (r & s' & -> & H).
  eapply finish_ok; [done|exact H|done|]. intros Hst.
  split; [by eapply not_terminal; [exact Hst|right]|by apply table_recover].
Qed.

Lemma save_ok now j :
  job_written j PurgeJobProcessing → in_int64 (UnixMilli now) →
  job_status s (pj_ID j) = Some "1" → kept (SaveJob now j s).2.2.
Proof using Hok.
  intros (Hs & [] & Hc) Hnow Hst. pose proof Hok as [Hw Ht]. unfold SaveJob. cbv zeta. cbn [snd].
  change (pj_ID (set_UpdatedAt (UnixMilli now) j)) with (pj_ID j).
  rewrite hset_run by wt_view. cbn [snd hset_all]. split; [split|].
  - wt_solve.
  - views. apply (table_save _ _ _ Ht (set_UpdatedAt (UnixMilli now) j)); [by split|done..].
  - views. apply keeps_finished_insert. by eapply not_terminal; [exact Hst|right].
Qed.
End steps.

(** Both facts are kept from the first state on. *)
Lemma kept_trans s0 s s' : kept s0 s → kept s s' → kept s0 s'.
Proof.
  intros [_ K1] [H2 K2]. split; [done|]. intros id Hid. rewrite <-(K1 id Hid). apply K2.
  unfold stat in *. by rewrite (K1 id Hid).
Qed.

Lemma job_step_ok s b s' : job_step s b s' → b = true → jobs_ok s → kept s s'.
Proof.
  intros Hstep Hb Hok.
  destruct Hstep as [j Hj| |w j Hj|j Hj|j Hj|j Hj|j Hj|now j Hj Hn|s' Hw H1 H2 H3].
  - by apply create_ok.
  - by apply acquire_ok.
  - by apply start_ok.
  - by apply complete_ok.
  - by apply fail_ok.
  - by apply cancel_ok.
  - by apply recover_ok.
  - apply bool_decide_eq_true in Hb. by apply save_ok.
  - destruct Hok as [_ Ht]. unfold kept, jobs_ok, hsh, lst. rewrite H1, H2, H3. done.
Qed.

Lemma job_run_ok s0 b s : jobs_ok s0 → job_run s0 b s → b = true → kept s0 s.
Proof.
  intros H0 Hr. induction Hr as [|b s b' s' _ IH Hst]; [done|]. intros [Hb Hb']%andb_true_iff.
  pose proof (IH Hb) as Hk. apply (kept_trans s0 s); [done|]. eapply job_step_ok; [done|done|apply Hk].
Qed.

(** ** Properties *)

Lemma job_read s id data :
  jobs_ok s → hsh s PurgeJobs !! id = Some data →
  ∃ j, GetJob id s = inr j ∧ data = mustMarshal j ∧ pj_ID j = id ∧ job_in_range j ∧
    job_status s id = Some (job_status_String (pj_Status j)).
Proof.
  intros [Hw Ht] Hd. destruct (tb_text _ _ _ Ht id data Hd) as (Hc & j & -> & Hi & Hj).
  exists j. unfold GetJob, job_status. rewrite hget_run by wt_view. cbn [fst]. rewrite Hd.
  rewrite job_roundtrip by done. split_and!; [done..|]. cbn [mbind option_bind].
  by apply find_status_job, Hj.
Qed.

Lemma GetJob_inv s id j :
  jobs_ok s → GetJob id s = inr j →
  hsh s PurgeJobs !! id = Some (mustMarshal j) ∧ pj_ID j = id ∧ known_status (pj_Status j) ∧
  job_status s id = Some (job_status_String (pj_Status j)).
Proof.
  intros Hok Hg. pose proof Hok as [Hw _]. destruct (hsh s PurgeJobs !! id) as [data|] eqn:E.
  - destruct (job_read s id data Hok E) as (j' & Hg' & -> & Hi & Hr & Hst). rewrite Hg in Hg'.
    injection Hg' as <-. split_and!; [done..|apply Hr|done].
  - unfold GetJob in Hg. rewrite hget_run in Hg by wt_view. cbn [fst] in Hg. by rewrite E in Hg.
Qed.

(** The text of a job.  Reading back what Go stores gives the job, and the
    pattern the scripts search for finds its status, whatever the identifier
    and the queue contain. *)
Theorem job_codec_agrees j :
  job_in_range j →
  unmarshal_job (mustMarshal j) = Some j ∧
  find_status (mustMarshal j) = Some (job_status_String (pj_Status j)).
Proof. intros Hj. split; [by apply job_roundtrip|by apply find_status_job, Hj]. Qed.

Definition sample_job (id : string) (st : Z) : PurgeJob :=
  {| pj_ID := id;
     pj_Payload := {| pl_Queue := Some {| q_name := "orders"; q_ns := "shop" |}; pl_MessageType := 3 |};
     pj_Status := st; pj_CreatedAt := 5000; pj_UpdatedAt := 0; pj_StartedAt := 0; pj_CompletedAt := 0;
     pj_BatchSize := 1000; pj_DelayMs := 5000; pj_Error := ""; pj_Meta := Some {| Purged := 0 |} |}.

Lemma sample_job_range id st : known_status st → job_in_range (sample_job id st).
Proof.
  intros Hst. split; cbn; try done; try (unfold in_int64, int64_min, int64_max; lia).
  intros m [= <-]. cbn. unfold in_int64, int64_min, int64_max. lia.
Qed.

(** An identifier that looks like another status. *)
Definition tricky_id : string := String quote_char ("status" +:+ String quote_char ":4").

Lemma job_codec_agrees_witness :
  unmarshal_job (mustMarshal (sample_job tricky_id 2)) = Some (sample_job tricky_id 2) ∧
  find_status (mustMarshal (sample_job tricky_id 2)) = Some "2".
Proof.
  apply (job_codec_agrees (sample_job tricky_id 2)). apply sample_job_range.
  vm_compute. split; discriminate.
Defined.

(** C14: the tables of jobs stay consistent.  In every keyspace reached from a
    consistent one by the operations of any number of managers and workers, as
    long as no worker saved its copy of a job over one that was not processing any
    more (which nothing prevents, [save_undoes_cancellation]), no job is listed
    twice; every listed job exists and is unfinished, the
    pending list holding pending jobs; a pending job is listed, a processing
    job is in the active list; and a job that was finished still is, as it
    was. *)
Theorem purge_jobs_consistent s0 s :
  jobs_ok s0 → job_run s0 true s →
  NoDup (lst s PendingPurgeJobs ++ lst s ActivePurgeJobs) ∧
  (∀ id, id ∈ lst s PendingPurgeJobs → ∃ j, GetJob id s = inr j ∧ pj_Status j = PurgeJobPending) ∧
  (∀ id, id ∈ lst s ActivePurgeJobs → ∃ j, GetJob id s = inr j ∧
     (pj_Status j = PurgeJobPending ∨ pj_Status j = PurgeJobProcessing)) ∧
  (∀ id j, GetJob id s = inr j →
     (pj_Status j = PurgeJobPending → id ∈ lst s PendingPurgeJobs ++ lst s ActivePurgeJobs) ∧
     (pj_Status j = PurgeJobProcessing → id ∈ lst s ActivePurgeJobs)) ∧
  (∀ id j, GetJob id s0 = inr j →
     pj_Status j = PurgeJobCompleted ∨ pj_Status j = PurgeJobFailed ∨ pj_Status j = PurgeJobCanceled →
     GetJob id s = inr j).
Proof.
  intros H0 Hr.
  destruct (job_run_ok s0 true s H0 Hr eq_refl) as [Hok Hkeep].
  pose proof Hok as [Hw Ht]. split; [apply Ht|].
  assert (∀ id x, stat (hsh s PurgeJobs) id = Some (itoa x) → ∃ j, GetJob id s = inr j ∧ pj_Status j = x) as Hst.
  { intros id x Hs. unfold stat in Hs. apply bind_Some in Hs as (data & Hd & Hf).
    destruct (job_read s id data Hok Hd) as (j & Hg & -> & _ & _ & Hj). exists j. split; [done|].
    unfold job_status in Hj. rewrite Hd in Hj. cbn [mbind option_bind] in Hj. rewrite Hf in Hj. by injection Hj as ?%(inj itoa). }
  split_and!.
  - intros id Hin. apply (Hst id 0). by apply Ht.
  - intros id Hin. destruct (tb_active _ _ _ Ht id Hin) as [E|E].
    + destruct (Hst id 0 E) as (j & ? & ?). eauto.
    + destruct (Hst id 1 E) as (j & ? & ?). eauto.
  - intros id j (_ & _ & _ & Hs)%GetJob_inv; [|done].
    split; intros E; rewrite E in Hs; [by apply Ht|by apply (tb_working _ _ _ Ht)].
  - intros id j Hg Hfin. destruct (GetJob_inv s0 id j H0 Hg) as (Hd & _ & _ & Hs).
    assert (hsh s PurgeJobs !! id = Some (mustMarshal j)) as Hd'.
    { rewrite Hkeep; [done|]. change (stat (hsh s0 PurgeJobs) id) with (job_status s0 id). rewrite Hs.
      unfold terminal. destruct Hfin as [->|[->| ->]]; auto. }
    destruct (tb_text _ _ _ (proj2 H0) id _ Hd) as (_ & j' & Ej & _ & Hj').
    assert (j = j') as <-.
    { destruct (job_read s0 id _ H0 Hd) as (j2 & Hg2 & E2 & _ & Hr2 & _). rewrite Hg in Hg2.
      injection Hg2 as <-. pose proof (job_roundtrip j Hr2) as R1. rewrite Ej, job_roundtrip in R1 by done. congruence. }
    unfold GetJob. rewrite hget_run by wt_view. cbn [fst]. by rewrite Hd', job_roundtrip.
Qed.

Lemma no_jobs_ok : jobs_ok empty_store.
Proof. split; [apply wt_empty|]. split; try done; [apply NoDup_nil_2|..]; intros id H; by apply elem_of_nil in H. Qed.

(** A job that is created, acquired, started and completed. *)
Definition purge_run : store :=
  let s1 := (Create (sample_job "j1" 0) empty_store).2 in
  let s2 := (acquire s1).2 in
  let s3 := (Start "j1" "w1" (sample_job "j1" 1) s2).2 in
  (Complete "j1" (sample_job "j1" 2) s3).2.

Lemma purge_jobs_consistent_witness :
  NoDup (lst purge_run PendingPurgeJobs ++ lst purge_run ActivePurgeJobs) ∧
  GetJob "j1" purge_run = inr (sample_job "j1" 2).
Proof.
  assert (∀ st, known_status st → job_written (sample_job "j1" st) st) as Hj.
  { intros st Hst. split_and!; [done|by apply sample_job_range|done]. }
  split; [|vm_compute; reflexivity].
  apply (purge_jobs_consistent empty_store purge_run no_jobs_ok).
  unfold purge_run. cbv zeta.
  eapply (jr_step _ true _ true); [|apply (js_complete _ (sample_job "j1" 2)), Hj; vm_compute; split; discriminate].
  eapply (jr_step _ true _ true); [|apply (js_start _ "w1" (sample_job "j1" 1)), Hj; vm_compute; split; discriminate].
  eapply (jr_step _ true _ true); [|apply js_acquire].
  eapply (jr_step _ true _ true); [|apply (js_create _ (sample_job "j1" 0)), Hj; vm_compute; split; discriminate].
  apply jr_start.
Defined.

(** A cancellation can be lost.  A worker checks whether its job is
    cancelled, deletes a batch and saves its own copy of the job with [SaveJob],
    which no script guards.  When the job is cancelled in between, the save
    turns it back into a processing job that is in neither list. *)
Theorem save_undoes_cancellation now j jc s :
  jobs_ok s → job_written j PurgeJobProcessing → job_written jc PurgeJobCanceled → pj_ID jc = pj_ID j →
  in_int64 (UnixMilli now) → job_status s (pj_ID j) = Some "1" →
  let s1 := (CancelJob (pj_ID j) jc s).2 in
  let s2 := (SaveJob now j s1).2.2 in
  IsCanceled (pj_ID j) s1 = inr true ∧
  GetJob (pj_ID j) s2 = inr (set_UpdatedAt (UnixMilli now) j) ∧
  IsCanceled (pj_ID j) s2 = inr false ∧
  (pj_ID j ∉ lst s2 PendingPurgeJobs ++ lst s2 ActivePurgeJobs).
Proof.
  intros Hok (Hs & Hr & Hc) (Hs' & Hr' & Hc') E Hnow Hst s1 s2. pose proof Hok as [Hw _].
  assert (job_effect (pj_ID j) (<[pj_ID j := mustMarshal jc]> (hsh s PurgeJobs))
    (without (pj_ID j) (lst s PendingPurgeJobs)) (without (pj_ID j) (lst s ActivePurgeJobs)) s s1) as [Hw1 Hj1 Hp1 Ha1 _].
  { unfold s1, CancelJob. rewrite runJobScript_state. status_args.
    destruct (cancel_run (pj_ID j) Hc s Hw (mustMarshal jc)) as (r & s' & -> & _ & He).
    by rewrite !decide_True in He by auto. }
  assert (s2 = upd PurgeJobs (hash_val (<[pj_ID j := mustMarshal (set_UpdatedAt (UnixMilli now) j)]>
                                          (hsh s1 PurgeJobs))) s1) as E2.
  { unfold s2, SaveJob. cbv zeta. cbn [snd]. by rewrite hset_run by wt_view. }
  assert (wt s2) as Hw2 by (rewrite E2; wt_solve).
  assert (job_in_range (set_UpdatedAt (UnixMilli now) j)) as Hr2 by (by destruct Hr; split).
  assert (GetJob (pj_ID j) s2 = inr (set_UpdatedAt (UnixMilli now) j)) as Hg2.
  { unfold GetJob. rewrite hget_run by wt_view. cbn [fst]. rewrite E2, hsh_upd, lookup_insert_eq.
    by rewrite job_roundtrip. }
  split_and!.
  - unfold IsCanceled, GetJob. rewrite hget_run by wt_view. cbn [fst]. rewrite Hj1, lookup_insert_eq.
    rewrite job_roundtrip by done. by rewrite Hs'.
  - done.
  - unfold IsCanceled. rewrite Hg2. cbn. by rewrite Hs.
  - rewrite E2. views. rewrite Hp1, Ha1, elem_of_app, !elem_of_without. tauto.
Qed.

Definition purging_run : store :=
  let s1 := (Create (sample_job "j1" 0) empty_store).2 in
  let s2 := (acquire s1).2 in
  (Start "j1" "w1" (sample_job "j1" 1) s2).2.

Lemma purging_run_ok : jobs_ok purging_run.
Proof.
  assert (∀ st, known_status st → job_written (sample_job "j1" st) st) as Hj.
  { intros st Hst. split_and!; [done|by apply sample_job_range|done]. }
  pose proof (create_ok _ no_jobs_ok (sample_job "j1" 0) (Hj 0 ltac:(vm_compute; split; discriminate))) as [H1 _].
  pose proof (acquire_ok _ H1) as [H2 _].
  exact (proj1 (start_ok _ H2 "w1" (sample_job "j1" 1) (Hj 1 ltac:(vm_compute; split; discriminate)))).
Qed.

Lemma save_undoes_cancellation_witness :
  let s1 := (CancelJob "j1" (sample_job "j1" 4) purging_run).2 in
  let s2 := (SaveJob 9000000 (sample_job "j1" 1) s1).2.2 in
  IsCanceled "j1" s1 = inr true ∧ IsCanceled "j1" s2 = inr false.
Proof.
  destruct (save_undoes_cancellation 9000000 (sample_job "j1" 1) (sample_job "j1" 4) purging_run purging_run_ok)
    as (H1 & _ & H3 & _).
  - split; [reflexivity|split; [apply sample_job_range; vm_compute; split; discriminate|reflexivity]].
  - split; [reflexivity|split; [apply sample_job_range; vm_compute; split; discriminate|reflexivity]].
  - reflexivity.
  - vm_compute. split; discriminate.
  - vm_compute. reflexivity.
  - split; [exact H1|exact H3].
Defined.
