(* ===== verification/Purge.v ===== *)
(** * Purging a queue

    internal/queue/purge_manager.go, purge_worker.go and purge_helpers.go: a
    purge locks the queue, leaves a job (PurgeJobs.v) and lets a worker delete
    the messages of one category in batches (Manage.v), after which the worker
    ends the job and gives the queue back (QueueState.v).

    The loop over batches runs with fuel; [purge_messages_terminates] shows
    that one more than the size of the category is enough.

    Requests made with a cancelled context fail: a purge that ends because its
    context is cancelled can neither fail its job nor release the lock. *)

From S2P Require Import Prelude Keys Redis RedisFacts Types Keyspace Json Message MessageCodec.
From S2P Require Import Publish Consume Accounts Accounting Retry Copy Manage Delivery QueueState PurgeJobs.
#[local] Open Scope Z_scope.

(** ** pkg/queue/browse.go *)

Definition BrowseDeadLettered : Z := 0.
Definition BrowseAcknowledged : Z := 1.
Definition BrowseScheduled : Z := 2.
Definition BrowsePending : Z := 3.
Definition BrowsePublished : Z := 4.

(** ** internal/queue/purge_helpers.go *)

Definition defaultPurgeBatchSize : Z := 1000.
Definition defaultPurgeBatchDelay : Z := 5000000000.

(** [TYPE key]. *)
Definition cmd_type (k : string) (s : store) : string :=
  match db s !! k with
  | None => "none"
  | Some (VStr _) => "string"
  | Some (VList _) => "list"
  | Some (VHash _) => "hash"
  | Some (VSet _) => "set"
  | Some (VZSet _) => "zset"
  end.

(** [ZREM key m1 m2 ...]. *)
Definition cmd_zrem_all (k : string) (ms : list string) : M unit :=
  with_view as_zset k (λ z, modify (put_zset k (filter (λ e : Z * string, e.2 ∉ ms) z))).

Inductive fetch_error := UnexpectedType (t : string).

Definition fetchBatch (key : string) (count : Z) (s : store) : fetch_error + list string :=
  let t := cmd_type key s in
  if decide (t = "list") then inr (ltrim 0 (count - 1) (lst s key))
  else if decide (t = "zset") then inr (ltrim 0 (count - 1) (zst s key).*2)
  else if decide (t = "none") then inr []
  else inl (UnexpectedType t).

Definition trimCategory (key : string) (count : Z) (s : store) : (rerr + unit) * store :=
  let t := cmd_type key s in
  if decide (t = "list") then
    match cmd_ltrim key count (-1) s with (Err e, s') => (inl e, s') | (Ret _, s') => (inr tt, s') end
  else if decide (t = "zset") then
    match ltrim 0 (count - 1) (zst s key).*2 with
    | [] => (inr tt, s)
    | members =>
        match cmd_zrem_all key members s with (Err e, s') => (inl e, s') | (Ret _, s') => (inr tt, s') end
    end
  else (inr tt, s).

(** ** internal/queue/purge_manager.go *)

Definition ReasonPurgeStart : string := "PURGE_QUEUE_START".
Definition ReasonPurgeCancel : string := "PURGE_QUEUE_CANCEL".
Definition ReasonPurgeFail : string := "PURGE_QUEUE_FAIL".
Definition ReasonPurgeComplete : string := "PURGE_QUEUE_COMPLETE".

(** The keys of queue parameters that may be nil: their names are then empty. *)
Definition keys_of (q : option QParams) : Queue :=
  queue_keys_of (default {| q_name := ""; q_ns := "" |} q).

Definition resolveCategoryKey (filter : Z) (qKey : Queue) : string :=
  if decide (filter = BrowsePending) then Pending qKey
  else if decide (filter = BrowseScheduled) then Scheduled qKey
  else if decide (filter = BrowseAcknowledged) then Acknowledged qKey
  else if decide (filter = BrowseDeadLettered) then DeadLetter qKey
  else "".

Definition newPurgeJob (now : Z) (jobID : string) (q : option QParams) (filter : Z) : PurgeJob :=
  {| pj_ID := jobID; pj_Payload := {| pl_Queue := q; pl_MessageType := filter |};
     pj_Status := PurgeJobPending; pj_CreatedAt := UnixMilli now; pj_UpdatedAt := 0; pj_StartedAt := 0;
     pj_CompletedAt := 0; pj_BatchSize := defaultPurgeBatchSize;
     pj_DelayMs := Milliseconds defaultPurgeBatchDelay; pj_Error := "";
     pj_Meta := Some {| Purged := 0 |} |}.

Definition validateFilter (cfg : ConfigRec) (filter : Z) : bool :=
  if decide (filter = BrowseAcknowledged) then am_Enabled (AcknowledgedMessages (cfg_MessageAudit cfg))
  else if decide (filter = BrowseDeadLettered) then am_Enabled (DeadLetteredMessages (cfg_MessageAudit cfg))
  else true.

Definition describe (d : string) : option StateTransitionOptions :=
  Some {| opt_Reason := None; opt_Description := Some d; opt_LockID := None; opt_Owner := None;
          opt_Metadata := None |}.

Definition unlock_reason (status : Z) : string :=
  if decide (status = PurgeJobCompleted) then ReasonPurgeComplete
  else if decide (status = PurgeJobFailed) then ReasonPurgeFail
  else if decide (status = PurgeJobCanceled) then ReasonPurgeCancel
  else ReasonPurgeComplete.

(** A failed release is logged. *)
Definition unlockQueue (now : Z) (q : option QParams) (jobID : string) (status : Z) (description : string)
    (s : store) : store :=
  (releaseLock now (keys_of q) LockOwnerPurgeJob jobID (unlock_reason status) (describe description) s).2.

Inductive purge_error :=
| PurgeAuditDisabled
| PurgeLock (e : state_error)
| PurgeJobError (e : job_error)
| PurgeFetch (e : fetch_error)
| PurgeDelete (e : message_error)
| PurgeTrim (e : rerr)
| PurgeContext.

(** Changes to the caller's copy of a job. *)
Definition set_Status (st : Z) (j : PurgeJob) : PurgeJob :=
  {| pj_ID := pj_ID j; pj_Payload := pj_Payload j; pj_Status := st;
     pj_CreatedAt := pj_CreatedAt j; pj_UpdatedAt := pj_UpdatedAt j; pj_StartedAt := pj_StartedAt j;
     pj_CompletedAt := pj_CompletedAt j; pj_BatchSize := pj_BatchSize j; pj_DelayMs := pj_DelayMs j;
     pj_Error := pj_Error j; pj_Meta := pj_Meta j |}.
Definition set_StartedAt (ts : Z) (j : PurgeJob) : PurgeJob :=
  {| pj_ID := pj_ID j; pj_Payload := pj_Payload j; pj_Status := pj_Status j;
     pj_CreatedAt := pj_CreatedAt j; pj_UpdatedAt := pj_UpdatedAt j; pj_StartedAt := ts;
     pj_CompletedAt := pj_CompletedAt j; pj_BatchSize := pj_BatchSize j; pj_DelayMs := pj_DelayMs j;
     pj_Error := pj_Error j; pj_Meta := pj_Meta j |}.
Definition set_CompletedAt (ts : Z) (j : PurgeJob) : PurgeJob :=
  {| pj_ID := pj_ID j; pj_Payload := pj_Payload j; pj_Status := pj_Status j;
     pj_CreatedAt := pj_CreatedAt j; pj_UpdatedAt := pj_UpdatedAt j; pj_StartedAt := pj_StartedAt j;
     pj_CompletedAt := ts; pj_BatchSize := pj_BatchSize j; pj_DelayMs := pj_DelayMs j;
     pj_Error := pj_Error j; pj_Meta := pj_Meta j |}.
Definition set_Error (e : string) (j : PurgeJob) : PurgeJob :=
  {| pj_ID := pj_ID j; pj_Payload := pj_Payload j; pj_Status := pj_Status j;
     pj_CreatedAt := pj_CreatedAt j; pj_UpdatedAt := pj_UpdatedAt j; pj_StartedAt := pj_StartedAt j;
     pj_CompletedAt := pj_CompletedAt j; pj_BatchSize := pj_BatchSize j; pj_DelayMs := pj_DelayMs j;
     pj_Error := e; pj_Meta := pj_Meta j |}.
Definition set_Purged (n : Z) (j : PurgeJob) : PurgeJob :=
  {| pj_ID := pj_ID j; pj_Payload := pj_Payload j; pj_Status := pj_Status j;
     pj_CreatedAt := pj_CreatedAt j; pj_UpdatedAt := pj_UpdatedAt j; pj_StartedAt := pj_StartedAt j;
     pj_CompletedAt := pj_CompletedAt j; pj_BatchSize := pj_BatchSize j; pj_DelayMs := pj_DelayMs j;
     pj_Error := pj_Error j; pj_Meta := Some {| Purged := n |} |}.

(** What surrounds a worker: the decoder's defaults, identifiers and clock,
    the iteration order of maps, the clock (one reading per event of a job,
    counted), the context (cancelled at the start of a turn, during the wait after
    it, or once the loop is done), and the text of an error.  A request that is
    made with a cancelled context fails without reaching Redis; a cancellation
    while a request is under way is one at the next of these points. *)
Record environment := {
  env_defaults : ConsumeOptions;
  env_uuid : string;
  env_uuid' : string;
  env_now : Z;
  env_order : list messageGroup → list messageGroup;
  env_clock : nat → Z;
  env_done : nat → bool;
  env_wait : nat → bool;
  env_over : bool;
  env_text : purge_error → string
}.

Section manager.
Context (env : environment) (workerID : string).

Definition Enqueue (cfg : ConfigRec) (now : Z) (jobID : string) (q : option QParams) (filter : Z) (s : store)
    : (purge_error + string) * store :=
  if negb (validateFilter cfg filter) then (inl PurgeAuditDisabled, s)
  else
    match acquireLock now (keys_of q) LockOwnerPurgeJob jobID ReasonPurgeStart
            (describe "Queue is being purged") s with
    | (inl e, s1) => (inl (PurgeLock e), s1)
    | (inr _, s1) =>
        match Create (newPurgeJob now jobID q filter) s1 with
        | (inl e, s2) =>
            (inl (PurgeJobError e),
             unlockQueue now q jobID PurgeJobFailed (env_text env (PurgeJobError e)) s2)
        | (inr _, s2) => (inr jobID, s2)
        end
    end.

(** [Cancel] of the source. *)
Definition Cancel (now : Z) (q : option QParams) (jobID : string) (s : store)
    : (purge_error + unit) * store :=
  match GetJob jobID s with
  | inl e => (inl (PurgeJobError e), s)
  | inr job =>
      match CancelJob jobID (set_CompletedAt (UnixMilli now) (set_Status PurgeJobCanceled job)) s with
      | (inl e, s1) => (inl (PurgeJobError e), s1)
      | (inr _, s1) => (inr tt, unlockQueue now q jobID PurgeJobCanceled "Purge job cancelled" s1)
      end
  end.

(** [done]: the context the worker passes on is cancelled, so that neither the
    script nor the release of the lock reaches Redis. *)
Definition failJob (done : bool) (now : Z) (job : PurgeJob) (q : option QParams) (errMsg : string) (s : store)
    : store :=
  if done then s else
  let job := set_CompletedAt (UnixMilli now) (set_Error errMsg (set_Status PurgeJobFailed job)) in
  unlockQueue now q (pj_ID job) PurgeJobFailed errMsg (FailJob (pj_ID job) job s).2.

(** One turn of the loop: the result that ends it, or the job and the total
    for the next turn. *)
Definition purge_turn (i : nat) (categoryKey : string) (job : PurgeJob) (purged : Z) (s : store)
    : ((purge_error + Z) + Z) * (PurgeJob * store) :=
  if env_done env i then (inl (inl PurgeContext), (job, s))
  else match IsCanceled (pj_ID job) s with
  | inl e => (inl (inl (PurgeJobError e)), (job, s))
  | inr true => (inl (inr purged), (job, s))
  | inr false =>
      match fetchBatch categoryKey (pj_BatchSize job) s with
      | inl e => (inl (inl (PurgeFetch e)), (job, s))
      | inr [] => (inl (inr purged), (job, s))
      | inr ids =>
          match DeleteMessages (env_defaults env) (env_uuid env) (env_uuid' env) (env_now env)
                  (env_order env) ids (pj_ID job) s with
          | (inl e, s1) => (inl (inl (PurgeDelete e)), (job, s1))
          | (inr result, s1) =>
              let purged := wrap64 (purged + Success (resp_Stats result)) in
              match trimCategory categoryKey (Z.of_nat (length ids)) s1 with
              | (inl e, s2) => (inl (inl (PurgeTrim e)), (job, s2))
              | (inr _, s2) =>
                  let '(job, (_, s3)) := SaveJob (env_clock env i) (set_Purged purged job) s2 in
                  if bool_decide (Z.of_nat (length ids) = pj_BatchSize job) && env_wait env i
                  then (inl (inl PurgeContext), (job, s3))
                  else (inr purged, (job, s3))
              end
          end
      end
  end.

Fixpoint purge_loop (fuel i : nat) (categoryKey : string) (job : PurgeJob) (purged : Z) (s : store)
    : option ((purge_error + Z) * (PurgeJob * store)) :=
  match fuel with
  | O => None
  | S fuel =>
      match purge_turn i categoryKey job purged s with
      | (inl r, js) => Some (r, js)
      | (inr purged, (job, s)) => purge_loop fuel (S i) categoryKey job purged s
      end
  end.

Definition purgeMessages (fuel : nat) (job : PurgeJob) (s : store)
    : option ((purge_error + Z) * (PurgeJob * store)) :=
  purge_loop fuel 0 (resolveCategoryKey (pl_MessageType (pj_Payload job)) (keys_of (pl_Queue (pj_Payload job))))
    job 0 s.

(** The error of a cancelled context. *)
Definition cut_off (e : purge_error) : bool := match e with PurgeContext => true | _ => false end.

(** [t0] and [t1]: the clock when the job starts and when it ends.  With a
    cancelled context the last check fails, which is logged, and so do the
    completion and the release of the lock. *)
Definition execute (fuel : nat) (t0 t1 : Z) (jobID : string) (s : store) : option store :=
  match GetJob jobID s with
  | inl _ => Some s
  | inr job =>
      let queueParams := pl_Queue (pj_Payload job) in
      let job := set_StartedAt (UnixMilli t0) (set_Status PurgeJobProcessing job) in
      match Start jobID workerID job s with
      | (inl e, s1) => Some (failJob false t1 job queueParams (env_text env (PurgeJobError e)) s1)
      | (inr _, s1) =>
          match purgeMessages fuel job s1 with
          | None => None
          | Some (inl e, (job, s2)) => Some (failJob (cut_off e) t1 job queueParams (env_text env e) s2)
          | Some (inr purged, (job, s2)) =>
              if env_over env then Some s2
              else match IsCanceled jobID s2 with
              | inr true => Some s2
              | _ =>
                  let job := set_CompletedAt (UnixMilli t1)
                               (set_Purged purged (set_Status PurgeJobCompleted job)) in
                  let s3 := (Complete jobID job s2).2 in
                  Some (unlockQueue t1 queueParams jobID PurgeJobCompleted "Purge completed" s3)
              end
          end
      end
  end.

(** [IsWorkerAlive] of internal/queue/purge_worker.go. *)
Definition IsWorkerAlive (jobID : string) (s : store) : bool :=
  match (cmd_get (JobWorker jobID) s).1 with
  | Ret (Some w) =>
      if decide (w = "") then false
      else match (cmd_exists (WorkerHeartbeat w) s).1 with Ret b => b | Err _ => false end
  | _ => false
  end.

Definition recover_one (now : Z) (s : store) (jobID : string) : store :=
  if IsWorkerAlive jobID s then s
  else match GetJob jobID s with
  | inl _ => s
  | inr job =>
      let job := set_UpdatedAt (UnixMilli now)
                   (set_Error "Recovered from worker crash" (set_Status PurgeJobPending job)) in
      (Recover jobID job s).2
  end.

Definition recoverStuckJobs (now : Z) (s : store) : store :=
  match cmd_smembers ActivePurgeJobs s with
  | (Err _, s) => s
  | (Ret jobIDs, s) => foldl (recover_one now) s jobIDs
  end.

(** The heartbeat of a worker: [SET key 1] for 30 seconds. *)
Definition workerHeartbeatTTL : Z := 30000.
Definition heartbeat (now : Z) (s : store) : store :=
  {| db := <[WorkerHeartbeat workerID := VStr "1"]> (db s);
     expires := <[WorkerHeartbeat workerID := now + workerHeartbeatTTL]> (expires s) |}.

(** A turn of the worker's loop, once a job was acquired. *)
Definition work_turn (fuel : nat) (t0 t1 : Z) (s : store) : option store :=
  match acquire s with
  | (inl _, s1) => Some s1
  | (inr jobID, s1) => if decide (jobID = "") then Some s1 else execute fuel t0 t1 jobID s1
  end.
End manager.

(** ** What a purge leaves alone

    Deleting messages only shortens lists, lowers counters and removes message
    hashes: the state and the lock of a queue, its history and the tables of
    jobs are not touched. *)

Definition protected (k : redis_key) : bool :=
  match k with
  | KStateHistory _ | KPurgeJobs | KPendingPurgeJobs | KActivePurgeJobs | KJobWorker _ => true
  | _ => false
  end.

Record spares (s s' : store) : Prop := {
  sp_wt : wt s';
  sp_protected k : wf_key k → protected k = true → db s' !! render_key k = db s !! render_key k;
  sp_fields q f : wf_queue q → is_counter f = false →
    hsh s' (Properties q) !! qkey f = hsh s (Properties q) !! qkey f;
  sp_exists q : wf_queue q → is_Some (db s !! Properties q) → is_Some (db s' !! Properties q);
  sp_messages id : no_colon id = true → db s' !! Message id = db s !! Message id ∨ db s' !! Message id = None;
  sp_lists k : wf_key k → protected k = false → lst s' (render_key k) `sublist_of` lst s (render_key k);
  sp_zsets k : wf_key k → protected k = false → zst s' (render_key k) `sublist_of` zst s (render_key k)
}.

Lemma spares_refl s : wt s → spares s s.
Proof. intros Hw. split; auto. Qed.

Lemma spares_trans s1 s2 s3 : spares s1 s2 → spares s2 s3 → spares s1 s3.
Proof.
  intros H1 H2. split.
  - apply H2.
  - intros k Hk Hp. rewrite (sp_protected _ _ H2), (sp_protected _ _ H1); done.
  - intros q f Hq Hf. rewrite (sp_fields _ _ H2), (sp_fields _ _ H1); done.
  - intros q Hq Hx. by apply (sp_exists _ _ H2), (sp_exists _ _ H1).
  - intros id Hid. destruct (sp_messages _ _ H2 id Hid) as [->|E]; [by apply H1|by right].
  - intros k Hk Hp. etrans; [by apply (sp_lists _ _ H2)|by apply H1].
  - intros k Hk Hp. etrans; [by apply (sp_zsets _ _ H2)|by apply H1].
Qed.

(** A write to one key that is neither protected, nor properties, nor a
    message. *)
Definition movable (k : redis_key) : bool :=
  match k with
  | KProperties _ | KMessage _ => false
  | _ => negb (protected k)
  end.

Lemma render_inj k k' : wf_key k → wf_key k' → k ≠ k' → render_key k ≠ render_key k'.
Proof. intros H1 H2 Hne E. by apply Hne, render_key_inj. Qed.

Lemma movable_ne k k' : movable k = true → movable k' = false → k ≠ k'.
Proof. congruence. Qed.

Lemma spares_upd s k ov :
  wt s → wf_key k → movable k = true → has_type (key_type k) ov →
  lst (upd (render_key k) ov s) (render_key k) `sublist_of` lst s (render_key k) →
  zst (upd (render_key k) ov s) (render_key k) `sublist_of` zst s (render_key k) →
  spares s (upd (render_key k) ov s).
Proof.
  intros Hw Hk Hm Ht Hl Hz.
  assert (∀ k', wf_key k' → movable k' = false → db (upd (render_key k) ov s) !! render_key k' = db s !! render_key k') as Ho.
  { intros k' Hk' Hm'. apply lookup_upd_ne, render_inj; [done..|]. by apply movable_ne. }
  split.
  - by apply wt_upd.
  - intros k' Hk' Hp. apply Ho; [done|]. destruct k'; cbn in *; try done; by rewrite ?Hp.
  - intros q f Hq Hf. pose proof (Ho (KProperties q) ltac:(wf_parts) eq_refl) as E. cbn [render_key] in E.
    unfold hsh. by rewrite E.
  - intros q Hq Hx. pose proof (Ho (KProperties q) ltac:(wf_parts) eq_refl) as E. cbn [render_key] in E.
    by rewrite E.
  - intros id Hid. left. apply (Ho (KMessage id)); [wf_parts|done].
  - intros k' Hk' Hp. destruct (decide (render_key k = render_key k')) as [<-|Hne]; [done|].
    by rewrite lst_upd_ne.
  - intros k' Hk' Hp. destruct (decide (render_key k = render_key k')) as [<-|Hne]; [done|].
    by rewrite zst_upd_ne.
Qed.

Lemma zst_of_list s k l : key_type k = TList → zst (upd (render_key k) (list_val l) s) (render_key k) = [].
Proof. intros _. unfold zst. rewrite lookup_upd_eq. by destruct l. Qed.
Lemma lst_of_zset s k z : key_type k = TZSet → lst (upd (render_key k) (zset_val z) s) (render_key k) = [].
Proof. intros _. unfold lst. rewrite lookup_upd_eq. by destruct z. Qed.

Lemma spares_list s k l :
  wt s → wf_key k → movable k = true → key_type k = TList → l `sublist_of` lst s (render_key k) →
  spares s (upd (render_key k) (list_val l) s).
Proof.
  intros Hw Hk Hm Ht Hl. apply spares_upd; [done..| | |].
  - rewrite Ht. cbn. by rewrite as_list_val.
  - by rewrite lst_upd.
  - rewrite zst_of_list by done. apply sublist_nil_l.
Qed.

Lemma spares_zset s k z :
  wt s → wf_key k → movable k = true → key_type k = TZSet → z `sublist_of` zst s (render_key k) →
  spares s (upd (render_key k) (zset_val z) s).
Proof.
  intros Hw Hk Hm Ht Hz. apply spares_upd; [done..| | |].
  - rewrite Ht. cbn. by rewrite as_zset_val.
  - rewrite lst_of_zset by done. apply sublist_nil_l.
  - by rewrite zst_upd.
Qed.

(** *** Commands and scripts *)

Definition spared {A} (m : M A) : Prop := ∀ s, wt s → spares s (m s).2.

Lemma spared_ret {A} (a : A) : spared (mret a : M A).
Proof. intros s Hw. by apply spares_refl. Qed.

Lemma spared_bind {A B} (m : M A) (f : A → M B) : spared m → (∀ a, spared (f a)) → spared (m ≫= f).
Proof.
  intros Hm Hf s Hw. specialize (Hm s Hw). unfold mbind, M_bind. destruct (m s) as [[a|e] s1]; [|done].
  cbn in *. eapply spares_trans; [exact Hm|]. apply Hf. apply Hm.
Qed.

Lemma spared_foldM {A B} (f : B → A → M B) l b :
  (∀ b a, a ∈ l → spared (f b a)) → spared (foldM f b l).
Proof.
  revert b. induction l as [|a l IH]; intros b Hf; cbn [foldM]; [apply spared_ret|].
  apply spared_bind; [apply Hf; set_solver|]. intros b'. apply IH. set_solver.
Qed.

Lemma sublist_remove_first v l : remove_first v l `sublist_of` l.
Proof. induction l as [|x l IH]; cbn; [done|]. case_decide; [by constructor|by constructor]. Qed.

Lemma sublist_filter {A} (P : A → Prop) `{∀ x, Decision (P x)} l : filter P l `sublist_of` l.
Proof. induction l as [|x l IH]; [done|]. rewrite filter_cons. case_decide; by constructor. Qed.

Lemma spared_lrem1 k v : wf_key k → movable k = true → key_type k = TList → spared (cmd_lrem1 (render_key k) v).
Proof.
  intros Hk Hm Ht s Hw. rewrite lrem1_run by by apply wt_list. case_decide; cbn [snd]; [|by apply spares_refl].
  apply spares_list; [done..|]. apply sublist_remove_first.
Qed.

Lemma spared_zrem k v : wf_key k → movable k = true → key_type k = TZSet → spared (cmd_zrem (render_key k) v).
Proof.
  intros Hk Hm Ht s Hw. rewrite zrem_run by by apply wt_zset. case_decide; cbn [snd]; [|by apply spares_refl].
  apply spares_zset; [done..|]. apply sublist_filter.
Qed.

Lemma spared_view {T A} (v : option value → option T) k (f : T → M A) :
  (∀ x, spared (f x)) → spared (with_view v k f).
Proof. intros Hf s Hw. unfold with_view. case_match; [by apply Hf|by apply spares_refl]. Qed.

Lemma spared_hget k f : spared (cmd_hget k f).
Proof. apply spared_view. intros x. apply spared_ret. Qed.
Lemma spared_exists k : spared (cmd_exists k).
Proof. intros s Hw. by apply spares_refl. Qed.

(** A key of sorted-set type that a script treats as a list. *)
Lemma spared_lrem1_zset k v : wf_key k → key_type k = TZSet → spared (cmd_lrem1 (render_key k) v).
Proof.
  intros Hk Ht s Hw. pose proof (Hw k Hk) as Hty. rewrite Ht in Hty. cbn in Hty.
  unfold cmd_lrem1, with_view. destruct (db s !! render_key k) as [[| | | |]|] eqn:E; cbn in Hty |- *;
    try (by apply spares_refl); by destruct Hty.
Qed.

Lemma spared_hincrby q f n :
  wf_queue q → is_counter f = true → spared (cmd_hincrby (Properties q) (qkey f) n).
Proof.
  intros Hq Hf s Hw. unfold cmd_hincrby. rewrite with_hash_run by wt_view.
  destruct (hincr _ _ _) as [z|e]; [|by apply spares_refl]. erewrite bind_Ret; [|done].
  unfold put_hash. rewrite ret_run. cbn [snd].
  set (h := <[qkey f := itoa z]> (hsh s (Properties q))).
  assert (∀ k, k ≠ Properties q → db (upd (Properties q) (hash_val h) s) !! k = db s !! k) as Ho.
  { intros k Hk. by apply lookup_upd_ne. }
  assert (∀ k, wf_key k → k ≠ KProperties q → db (upd (Properties q) (hash_val h) s) !! render_key k = db s !! render_key k) as Hr.
  { intros k Hk Hne. apply Ho. apply (render_inj k (KProperties q)); [done|wf_parts|done]. }
  split.
  - wt_solve.
  - intros k Hk Hp. apply Hr; [done|]. by intros ->.
  - intros q' f' Hq' Hf'. destruct (decide (Properties q' = Properties q)) as [->|Hne].
    + rewrite hsh_upd. unfold h. rewrite lookup_insert_ne; [done|]. intros E%(inj qkey). congruence.
    + unfold hsh. by rewrite Ho.
  - intros q' Hq' Hx. destruct (decide (Properties q' = Properties q)) as [->|Hne]; [|by rewrite Ho].
    rewrite lookup_upd_eq. unfold hash_val, h. rewrite decide_False by apply insert_non_empty. by eexists.
  - intros id Hid. left. apply (Hr (KMessage id)); [wf_parts|done].
  - intros k Hk Hp. destruct (decide (render_key k = Properties q)) as [->|Hne].
    + unfold lst. rewrite lookup_upd_eq. unfold hash_val. case_decide; apply sublist_nil_l.
    + unfold lst. by rewrite Ho.
  - intros k Hk Hp. destruct (decide (render_key k = Properties q)) as [->|Hne].
    + unfold zst. rewrite lookup_upd_eq. unfold hash_val. case_decide; apply sublist_nil_l.
    + unfold zst. by rewrite Ho.
Qed.

Lemma spares_remove_message s id : wt s → no_colon id = true → spares s (remove_key (Message id) s).
Proof.
  intros Hw Hid. change (remove_key (Message id) s) with (upd (Message id) None s).
  assert (∀ k, wf_key k → k ≠ KMessage id → db (upd (Message id) None s) !! render_key k = db s !! render_key k) as Hr.
  { intros k Hk Hne. apply lookup_upd_ne. apply (render_inj (KMessage id) k); [wf_parts|done|congruence]. }
  split.
  - apply (wt_upd _ (KMessage id)); [done|wf_parts|by eexists].
  - intros k Hk Hp. apply Hr; [done|]. by intros ->.
  - intros q f Hq Hf. pose proof (Hr (KProperties q) ltac:(wf_parts) ltac:(done)) as E. cbn [render_key] in E.
    unfold hsh. by rewrite E.
  - intros q Hq Hx. pose proof (Hr (KProperties q) ltac:(wf_parts) ltac:(done)) as E. cbn [render_key] in E.
    by rewrite E.
  - intros i Hi. destruct (decide (Message id = Message i)) as [<-|Hne].
    + right. apply lookup_upd_eq.
    + left. by apply lookup_upd_ne.
  - intros k Hk Hp. destruct (decide (Message id = render_key k)) as [<-|Hne].
    + unfold lst. rewrite lookup_upd_eq. apply sublist_nil_l.
    + by rewrite lst_upd_ne.
  - intros k Hk Hp. destruct (decide (Message id = render_key k)) as [<-|Hne].
    + unfold zst. rewrite lookup_upd_eq. apply sublist_nil_l.
    + by rewrite zst_upd_ne.
Qed.

Lemma spared_del_message id : no_colon id = true → spared (cmd_del [Message id; MessageAcknowledgementHistory id]).
Proof.
  intros Hid s Hw. cbn. pose proof (spares_remove_message s id Hw Hid) as H1.
  eapply spares_trans; [exact H1|].
  change (remove_key (MessageAcknowledgementHistory id) ?x) with
    (upd (render_key (KMessageHistory id)) (list_val []) x).
  apply spares_list; [apply H1|wf_parts|done|done|apply sublist_nil_l].
Qed.

(** What the answer of a script can be. *)
Definition yields {A} (m : M A) (P : A → Prop) : Prop := ∀ s a, (m s).1 = Ret a → P a.

Lemma yields_ret {A} (a : A) (P : A → Prop) : P a → yields (mret a : M A) P.
Proof. intros H s x [= <-]. done. Qed.
Lemma yields_bind {A B} (m : M A) (f : A → M B) P : (∀ a, yields (f a) P) → yields (m ≫= f) P.
Proof.
  intros Hf s b. unfold mbind, M_bind. destruct (m s) as [[a|e] s1]; [apply Hf|done].
Qed.

Lemma spared_bind_with {A B} (m : M A) (f : A → M B) P :
  spared m → yields m P → (∀ a, P a → spared (f a)) → spared (m ≫= f).
Proof.
  intros Hm Hy Hf s Hw. specialize (Hm s Hw). specialize (Hy s). unfold mbind, M_bind.
  destruct (m s) as [[a|e] s1]; [|done]. cbn in *.
  eapply spares_trans; [exact Hm|]. apply Hf; [by apply Hy|apply Hm].
Qed.

Section deletion.
Context (q : Queue) (g : string) (Hq : wf_queue q) (Hg : no_colon g = true).

Lemma pending_spared id : spared (cmd_lrem1 (if decide (g ≠ "") then PendingWithGroup q g else Pending q) id).
Proof using Hq Hg.
  case_decide; [apply (spared_lrem1 (KPendingWithGroup q g))|apply (spared_lrem1 (KPending q))];
    [wf_parts|done|done|wf_parts|done|done].
Qed.
Lemma priority_spared id : spared (cmd_zrem (if decide (g ≠ "") then PriorityWithGroup q g else Priority q) id).
Proof using Hq Hg.
  case_decide; [apply (spared_zrem (KPriorityWithGroup q g))|apply (spared_zrem (KPriority q))];
    [wf_parts|done|done|wf_parts|done|done].
Qed.

(** The list named by the status, and the counter of the status. *)
Lemma delete_from_spared ty st id : spared (delete_from (del_keys q g []) (del_args "" []) ty st id).
Proof using Hq Hg.
  unfold delete_from, del_keys, del_args. cbn [app mbind list_bind arg nth Nat.sub].
  destruct (decide (st = _)); [apply spared_bind; [|intros; apply spared_ret]|].
  { apply (spared_lrem1 (KAcknowledged q)); [wf_parts|done|done]. }
  destruct (decide (st = _)); [apply spared_bind; [|intros; apply spared_ret]|].
  { apply (spared_lrem1 (KDeadLetter q)); [wf_parts|done|done]. }
  destruct (decide (st = _)); [apply spared_bind; [|intros; apply spared_ret]|].
  { apply (spared_zrem (KScheduled q)); [wf_parts|done|done]. }
  destruct (decide (st = _)); [apply spared_bind; [|intros; apply spared_ret]|].
  { apply (spared_lrem1_zset (KDelayed q)); [wf_parts|done]. }
  destruct (decide (st = _)); [apply spared_bind; [|intros; apply spared_ret]|].
  { apply (spared_lrem1 (KRequeued q)); [wf_parts|done|done]. }
  destruct (decide (st = _)); [apply spared_bind; [|intros; apply spared_ret]|apply spared_ret].
  destruct (decide (ty = _)); [apply priority_spared|].
  destruct (decide (ty = _ ∨ _)); [apply pending_spared|apply spared_ret].
Qed.

Lemma delete_from_yields ty st id :
  yields (delete_from (del_keys q g []) (del_args "" []) ty st id)
    (λ o, ∀ f, o = Some f → ∃ qf, f = qkey qf ∧ is_counter qf = true).
Proof.
  unfold delete_from, del_keys, del_args. cbn [app mbind list_bind arg nth Nat.sub].
  assert (∀ qf, is_counter qf = true →
    ∀ f, Some (qkey qf) = Some f → ∃ qf, f = qkey qf ∧ is_counter qf = true) as Hc.
  { intros qf Hqf f [= <-]. by exists qf. }
  repeat (destruct (decide (st = _)); [apply yields_bind; intros; apply yields_ret; by apply Hc|]).
  by apply yields_ret.
Qed.

Lemma delete_one_spared ty acc id : no_colon id = true → spared (delete_one q g ty acc id).
Proof using Hq Hg.
  intros Hid. unfold delete_one. apply spared_bind; [apply spared_hget|]. intros [st|]; [|apply spared_ret].
  case_decide; [apply spared_ret|]. eapply spared_bind_with; [apply delete_from_spared|apply delete_from_yields|].
  intros o Ho. apply spared_bind; [by apply spared_del_message|]. intros _.
  apply spared_bind; [apply (spared_lrem1 (KPublished q)); [wf_parts|done|done]|]. intros _.
  apply spared_bind; [by apply spared_hincrby|]. intros _.
  apply spared_bind; [|intros _; apply spared_ret].
  destruct o as [f|]; [|apply spared_ret]. destruct (Ho f eq_refl) as (qf & -> & Hqf). by apply spared_hincrby.
Qed.

Lemma delete_message_spared lockID ids :
  (∀ id, id ∈ ids → no_colon id = true) → spared (delete_message (del_keys q g ids) (del_args lockID ids)).
Proof using Hq Hg.
  intros Hids. unfold delete_message. apply spared_bind; [apply spared_exists|]. intros ex.
  destruct (negb ex); [apply spared_ret|]. apply spared_bind; [apply spared_hget|]. intros st.
  apply spared_bind; [apply spared_hget|]. intros lk. destruct (lock_check _ _ _ _); [apply spared_ret|].
  cbv zeta. repeat (case_decide; [apply spared_ret|]). apply spared_bind; [apply spared_hget|]. intros ty.
  apply spared_bind; [|intros; apply spared_ret].
  assert (turns (del_args lockID ids) 23 1 = seq 0 (length ids)) as ->.
  { unfold turns, del_args. f_equal. rewrite length_app. cbn [length].
    replace (23 + length ids - 23 + (1 - 1))%nat with (length ids) by lia. apply Nat.div_1_r. }
  intros s Hw. erewrite foldM_seq; [|intros b i id s0 Hi; by apply delete_turn_eq].
  apply spared_foldM; [|done]. intros b id Hid. by apply delete_one_spared, Hids.
Qed.
End deletion.

(** ** The Go side of a deletion *)

Section deleting.
Context (env : environment).

(** A stored message names itself, its queue and its group by key parts. *)
Definition clean_envelope (e : Envelope) : Prop :=
  no_colon (ID e) = true ∧ no_colon (consumerGroupID e) = true ∧
  ∀ q, destinationQueue e = Some q → wf_queue (queue_keys_of q).

Definition clean_messages (s : store) : Prop :=
  ∀ id e, no_colon id = true →
    GetMessage (env_defaults env) (env_uuid env) (env_uuid' env) (env_now env) s id = inr e →
    clean_envelope e.

Lemma clean_spares s s' : clean_messages s → spares s s' → clean_messages s'.
Proof.
  intros Hc Hs id e Hid Hg. destruct (sp_messages _ _ Hs id Hid) as [E|E].
  - apply (Hc id e Hid). unfold GetMessage, cmd_hgetall, with_view in *. rewrite E in Hg.
    by destruct (as_hash (db s !! Message id)).
  - unfold GetMessage, cmd_hgetall, with_view in Hg. rewrite E in Hg. cbn in Hg.
    by rewrite decide_True in Hg.
Qed.

Definition clean_group (g : messageGroup) : Prop :=
  wf_queue (queue_keys_of (mg_queue g)) ∧ Forall clean_envelope (mg_messages g).

Lemma deleteMessageGroup_spares g lockID s :
  wt s → clean_group g → spares s (deleteMessageGroup (mg_queue g) (mg_messages g) lockID s).2.
Proof.
  intros Hw [Hq Hm]. unfold deleteMessageGroup. set (gid := match mg_messages g with [] => _ | _ => _ end).
  assert (no_colon gid = true) as Hg.
  { unfold gid. destruct (mg_messages g) as [|m l]; [done|]. by apply Forall_cons in Hm as [(_ & ? & _) _]. }
  assert (∀ id, id ∈ ID <$> mg_messages g → no_colon id = true) as Hids.
  { intros id (e & -> & He)%list_elem_of_fmap. rewrite Forall_forall in Hm. by apply Hm. }
  pose proof (delete_message_spared _ gid Hq Hg lockID _ Hids s Hw) as Hs.
  destruct (delete_message _ _ s) as [[[]|] s']; exact Hs.
Qed.

Lemma delete_groups_spares lockID gs : ∀ stats s,
  wt s → Forall clean_group gs → spares s (delete_groups lockID gs stats s).2.
Proof.
  induction gs as [|g gs IH]; intros stats s Hw Hgs; [by apply spares_refl|]. cbn [delete_groups].
  apply Forall_cons in Hgs as [Hg Hgs]. pose proof (deleteMessageGroup_spares g lockID s Hw Hg) as H1.
  destruct (deleteMessageGroup _ _ _ s) as [[e|st] s1]; cbn [snd] in *; [done|].
  eapply spares_trans; [exact H1|]. apply IH; [apply H1|done].
Qed.

Lemma group_add_clean id q e l :
  wf_queue (queue_keys_of q) → clean_envelope e → Forall clean_group l → Forall clean_group (group_add id q e l).
Proof.
  intros Hq He. induction l as [|g l IH]; intros Hl; cbn [group_add].
  - apply Forall_singleton. split; [done|]. by apply Forall_singleton.
  - apply Forall_cons in Hl as [[Hg1 Hg2] Hl]. case_decide; apply Forall_cons.
    + split; [|done]. split; [done|]. apply Forall_app. split; [done|]. by apply Forall_singleton.
    + split; [by split|by apply IH].
Qed.

Lemma message_groups_clean l : Forall clean_envelope l → Forall clean_group (message_groups l).
Proof.
  unfold message_groups. intros Hl. assert (Forall clean_group []) as H0 by constructor.
  revert H0. generalize (@nil messageGroup). induction l as [|e l IH]; intros acc Hacc; [done|].
  apply Forall_cons in Hl as [He Hl]. cbn [foldl]. apply IH; [done|].
  destruct (destinationQueue e) as [q|] eqn:Eq; [|done]. apply group_add_clean; [|done|done]. by apply He.
Qed.

Lemma GetMessages_clean s ids l :
  clean_messages s → (∀ id, id ∈ ids → no_colon id = true) →
  GetMessages (env_defaults env) (env_uuid env) (env_uuid' env) (env_now env) s ids = inr l →
  Forall clean_envelope l.
Proof.
  intros Hc. revert l. induction ids as [|id ids IH]; intros l Hids H; cbn [GetMessages] in H.
  { injection H as <-. constructor. }
  assert (∀ id0, id0 ∈ ids → no_colon id0 = true) as Hids' by (intros; apply Hids; set_solver).
  destruct (GetMessage _ _ _ _ s id) as [e|m] eqn:Em.
  - destruct e; try discriminate H. by apply IH.
  - destruct (GetMessages _ _ _ _ s ids) as [|l']; [discriminate H|]. injection H as <-.
    apply Forall_cons. split; [|by apply IH]. apply (Hc id m); [apply Hids; set_solver|done].
Qed.

(** The iteration order only permutes the groups. *)
Definition permuting : Prop := ∀ l, env_order env l ≡ₚ l.

Lemma DeleteMessages_spares ids lockID s :
  wt s → permuting → clean_messages s → (∀ id, id ∈ ids → no_colon id = true) →
  spares s (DeleteMessages (env_defaults env) (env_uuid env) (env_uuid' env) (env_now env)
              (env_order env) ids lockID s).2.
Proof.
  intros Hw Hp Hc Hids. unfold DeleteMessages. destruct ids as [|id ids]; [by apply spares_refl|].
  destruct (GetMessages _ _ _ _ s (id :: ids)) as [e|l] eqn:El; [by apply spares_refl|].
  apply GetMessages_clean in El; [|done..]. destruct l as [|m l]; [by apply spares_refl|].
  assert (Forall clean_group (env_order env (message_groups (m :: l)))) as Hg.
  { rewrite (Hp (message_groups (m :: l))). by apply message_groups_clean. }
  pose proof (delete_groups_spares lockID _ {| Processed := Z.of_nat (length (id :: ids)) - Z.of_nat (length (m :: l));
    Success := 0; NotFound := Z.of_nat (length (id :: ids)) - Z.of_nat (length (m :: l)); InProcess := 0 |} s Hw Hg) as H.
  cbv zeta. destruct (delete_groups _ _ _ s) as [[e|st] s']; exact H.
Qed.
End deleting.

(** ** What holds while a job is being worked on *)

Lemma locked_frame q owner id s s' :
  wt s' → lst s' (StateHistory q) = lst s (StateHistory q) →
  (∀ f, is_counter f = false → hsh s' (Properties q) !! qkey f = hsh s (Properties q) !! qkey f) →
  (is_Some (db s !! Properties q) → is_Some (db s' !! Properties q)) →
  locked_by q s owner id → locked_by q s' owner id.
Proof.
  intros Hw Hh Hf Hx [[_ (t & h & Hm & Hch & Hlen & Hv & Hst & Hlk & Hul)] Hex Hfi Hcur].
  assert (lock_field s' q = lock_field s q) as El by (unfold lock_field; by rewrite Hf).
  split.
  - split; [done|]. exists t, h. rewrite Hh, Hf, El by done. done.
  - by apply Hx.
  - by rewrite El.
  - by rewrite Hh.
Qed.

Lemma locked_spares q owner id s s' :
  wf_queue q → spares s s' → locked_by q s owner id → locked_by q s' owner id.
Proof.
  intros Hq Hs. apply locked_frame; [apply Hs| |by intros f Hf; apply Hs|by apply Hs].
  pose proof (sp_protected _ _ Hs (KStateHistory q) ltac:(wf_parts) eq_refl) as E. cbn [render_key] in E.
  unfold lst. by rewrite E.
Qed.

Lemma jobs_spares s s' : spares s s' → jobs_ok s → jobs_ok s' ∧ hsh s' PurgeJobs = hsh s PurgeJobs.
Proof.
  intros Hs [_ Ht]. pose proof (sp_protected _ _ Hs KPurgeJobs ltac:(wf_parts) eq_refl) as E1.
  pose proof (sp_protected _ _ Hs KPendingPurgeJobs ltac:(wf_parts) eq_refl) as E2.
  pose proof (sp_protected _ _ Hs KActivePurgeJobs ltac:(wf_parts) eq_refl) as E3.
  cbn [render_key] in E1, E2, E3. unfold jobs_ok, hsh, lst. rewrite E1, E2, E3. split; [|done].
  split; [apply Hs|exact Ht].
Qed.

(** *** Changes to the tables of jobs only *)

Definition job_key (k : redis_key) : bool :=
  match k with KPurgeJobs | KPendingPurgeJobs | KActivePurgeJobs | KJobWorker _ => true | _ => false end.

Definition same_rest (s s' : store) : Prop :=
  ∀ k, wf_key k → job_key k = false → db s' !! render_key k = db s !! render_key k.

Lemma same_rest_locked q owner id s s' :
  wf_queue q → wt s' → same_rest s s' → locked_by q s owner id → locked_by q s' owner id.
Proof.
  intros Hq Hw Ho. pose proof (Ho (KStateHistory q) ltac:(wf_parts) eq_refl) as E1.
  pose proof (Ho (KProperties q) ltac:(wf_parts) eq_refl) as E2. cbn [render_key] in E1, E2.
  apply locked_frame; [done|unfold lst; by rewrite E1|intros f Hf; unfold hsh; by rewrite E2|by rewrite E2].
Qed.

Lemma same_rest_clean env s s' : same_rest s s' → clean_messages env s → clean_messages env s'.
Proof.
  intros Ho Hc id e Hid Hg. apply (Hc id e Hid).
  pose proof (Ho (KMessage id) ltac:(wf_parts) eq_refl) as E. cbn [render_key] in E.
  unfold GetMessage, cmd_hgetall, with_view in *. rewrite E in Hg. by destruct (as_hash (db s !! Message id)).
Qed.

Lemma effect_same_rest id h p a s s' : no_colon id = true → job_effect id h p a s s' → same_rest s s'.
Proof.
  intros Hid He k Hk Hj. apply (je_other _ _ _ _ _ _ He).
  - apply (render_inj k KPurgeJobs); [done|wf_parts|by intros ->].
  - apply (render_inj k KPendingPurgeJobs); [done|wf_parts|by intros ->].
  - apply (render_inj k KActivePurgeJobs); [done|wf_parts|by intros ->].
  - apply (render_inj k (KJobWorker id)); [done|wf_parts|by intros ->].
Qed.

(** The keys of the categories that can be purged. *)
Definition category (filter : Z) (q : Queue) : option redis_key :=
  if decide (filter = BrowsePending) then Some (KPending q)
  else if decide (filter = BrowseScheduled) then Some (KScheduled q)
  else if decide (filter = BrowseAcknowledged) then Some (KAcknowledged q)
  else if decide (filter = BrowseDeadLettered) then Some (KDeadLetter q)
  else None.

(** The message identifiers of a category, in order. *)
Definition listed (k : redis_key) (s : store) : list string :=
  match key_type k with TList => lst s (render_key k) | _ => (zst s (render_key k)).*2 end.

Lemma category_key filter q k : category filter q = Some k →
  resolveCategoryKey filter q = render_key k ∧ movable k = true ∧
  (key_type k = TList ∨ key_type k = TZSet) ∧ key_parts k = [Namespace q; Name q].
Proof.
  unfold category, resolveCategoryKey. intros H.
  repeat (destruct (decide (filter = _)); [injection H as <-; by (repeat split; auto)|]). discriminate H.
Qed.

Lemma filter_none {A} (P : A → Prop) `{∀ x, Decision (P x)} l : (∀ x, x ∈ l → ¬ P x) → filter P l = [].
Proof.
  induction l as [|x l IH]; [done|]. intros Hl. rewrite filter_cons_False by (apply Hl; set_solver).
  apply IH. set_solver.
Qed.

Section category.
Context (k : redis_key) (Hk : wf_key k) (Hm : movable k = true).
Context (Ht : key_type k = TList ∨ key_type k = TZSet).

Lemma ltrim_nil a b : ltrim a b [] = [].
Proof. unfold ltrim. case_decide; [done|]. by rewrite drop_nil, take_nil. Qed.

Lemma ltrim_drop n l : ltrim (Z.of_nat n) (-1) l = drop n l.
Proof.
  unfold ltrim. rewrite (decide_False (P := Z.of_nat n < 0)) by lia.
  rewrite (decide_True (P := -1 < 0)) by lia. destruct (decide _) as [H|H].
  - symmetry. apply drop_ge. lia.
  - rewrite Nat2Z.id. apply take_ge. rewrite length_drop. lia.
Qed.

Lemma fetch_run n s : wt s → fetchBatch (render_key k) n s = inr (ltrim 0 (n - 1) (listed k s)).
Proof using Hk Ht.
  intros Hw. pose proof (Hw k Hk) as Hty. unfold fetchBatch, cmd_type, listed, lst, zst.
  destruct Ht as [E|E]; rewrite E in *; destruct (db s !! render_key k) as [[| | | |]|]; cbn in Hty |- *;
    try (by destruct Hty); by rewrite ?ltrim_nil.
Qed.

Lemma sublist_map {A B} (f : A → B) l l' : l `sublist_of` l' → f <$> l `sublist_of` f <$> l'.
Proof. induction 1; cbn; by constructor. Qed.

Lemma members_spares s s' : spares s s' → listed k s' `sublist_of` listed k s.
Proof using Hk Hm Ht.
  intros Hs. assert (protected k = false) as Hp by (by destruct k).
  unfold listed. destruct (key_type k); try (by apply (sp_lists _ _ Hs)); 
    (apply sublist_map; by apply (sp_zsets _ _ Hs)).
Qed.

Lemma same_rest_members s s' : same_rest s s' → listed k s' = listed k s.
Proof using Hk Hm Ht. intros Ho. unfold listed, lst, zst. rewrite Ho; [done..|]. by destruct k. Qed.

Lemma ltrim_all n (l : list string) : (length l <= n)%nat → ltrim 0 (Z.of_nat n - 1) l = l.
Proof.
  intros Hn. destruct l as [|x l]; [apply ltrim_nil|]. rewrite ltrim_prefix; [by apply take_ge|done|].
  cbn in Hn. lia.
Qed.

Lemma trim_run n s :
  wt s → (0 < n)%nat →
  ∃ s', trimCategory (render_key k) (Z.of_nat n) s = (inr tt, s') ∧ spares s s' ∧
    (listed k s ≠ [] → (length (listed k s') < length (listed k s))%nat) ∧
    ((length (listed k s) <= n)%nat → listed k s' = []) ∧
    (∀ k', k' ≠ render_key k → db s' !! k' = db s !! k').
Proof using Hk Hm Ht.
  intros Hw Hn. pose proof (Hw k Hk) as Hty. unfold trimCategory, cmd_type, listed.
  destruct Ht as [E|E]; rewrite E in *; destruct (db s !! render_key k) as [[|l| | |z]|] eqn:Ed; cbn in Hty;
    try (by destruct Hty).
  - rewrite (decide_True (P := "list" = "list")) by done. rewrite ltrim_run by by apply wt_list.
    eexists. split; [done|]. rewrite ltrim_drop, lst_upd. split; [|split; [|split]].
    + apply spares_list; [done..|]. apply sublist_drop.
    + rewrite length_drop. destruct (lst s (render_key k)); [done|]. cbn. lia.
    + intros Hle. by apply drop_ge.
    + intros k' Hne. by apply lookup_upd_ne.
  - exists s. unfold lst. rewrite Ed. split; [done|]. by split; [apply spares_refl|].
  - rewrite (decide_False (P := "zset" = "list")) by done. rewrite (decide_True (P := "zset" = "zset")) by done.
    assert (zst s (render_key k) = z) as Ez by (unfold zst; by rewrite Ed). rewrite Ez.
    destruct z as [|[sc m] z]; [rewrite ltrim_nil; exists s; rewrite Ez; split; [done|]; by split; [apply spares_refl|]|].
    destruct (ltrim 0 (Z.of_nat n - 1) ((sc, m) :: z).*2) as [|m' ms] eqn:El.
    { rewrite ltrim_prefix in El by (done || lia). destruct n; [lia|discriminate El]. }
    assert (m' = m) as ->.
    { rewrite ltrim_prefix in El by (done || lia). destruct n; [lia|]. by injection El. }
    unfold cmd_zrem_all. rewrite with_zset_run by by apply wt_zset. cbn [modify]. rewrite Ez.
    eexists. split; [done|]. unfold put_zset. rewrite zst_upd. split; [|split; [|split]].
    + apply spares_zset; [done..|]. rewrite Ez. apply sublist_filter.
    + intros _. rewrite !length_fmap. apply (length_filter_lt _ _ (sc, m)); [set_solver|]. cbn. set_solver.
    + intros Hle. rewrite ltrim_all in El by done. rewrite <-El. rewrite filter_none; [done|].
      intros [sc' x] Hx Hno. apply Hno, list_elem_of_fmap. by exists (sc', x).
    + intros k' Hne. by apply lookup_upd_ne.
  - exists s. unfold zst. rewrite Ed. split; [done|]. by split; [apply spares_refl|].
Qed.
End category.

(** ** The loop *)

Section loop.
Context (env : environment) (q : Queue) (k : redis_key).
Context (Hq : wf_queue q) (Hk : wf_key k) (Hm : movable k = true).
Context (Ht : key_type k = TList ∨ key_type k = TZSet).
Context (Horder : permuting env) (Hclock : ∀ i, in_int64 (UnixMilli (env_clock env i))).

(** The job is processing and holds the queue. *)
Record at_work (job : PurgeJob) (s : store) : Prop := {
  aw_jobs : jobs_ok s;
  aw_status : job_status s (pj_ID job) = Some "1";
  aw_job : job_written job PurgeJobProcessing;
  aw_lock : locked_by q s LockOwnerPurgeJob (pj_ID job);
  aw_clean : clean_messages env s;
  aw_members : ∀ id, id ∈ listed k s → no_colon id = true
}.

Lemma at_work_spares job s s' : at_work job s → spares s s' → at_work job s'.
Proof using Hq Hk Hm Ht.
  intros [Hj Hs Hw Hl Hc Hme] Hsp. destruct (jobs_spares s s' Hsp Hj) as [Hj' E]. split.
  - done.
  - unfold job_status. by rewrite E.
  - done.
  - by eapply locked_spares.
  - by eapply clean_spares.
  - intros id Hid. apply Hme. eapply elem_of_sublist; [exact Hid|]. by apply members_spares.
Qed.

Lemma not_canceled job s : at_work job s → IsCanceled (pj_ID job) s = inr false.
Proof using.
  intros [Hj Hs _ _ _ _]. unfold job_status in Hs. apply bind_Some in Hs as (data & Hd & Hf).
  destruct (job_read s _ data Hj Hd) as (j & Hg & -> & _ & Hr & Hst). unfold IsCanceled. rewrite Hg.
  f_equal. apply bool_decide_eq_false. intros E. rewrite find_status_job in Hf by apply Hr.
  rewrite E in Hf. discriminate Hf.
Qed.

Lemma save_at_work now n job s :
  at_work job s → in_int64 n → in_int64 (UnixMilli now) →
  let '(job', (_, s')) := SaveJob now (set_Purged n job) s in
  at_work job' s' ∧ listed k s' = listed k s ∧ pj_ID job' = pj_ID job ∧
  pj_Payload job' = pj_Payload job ∧ pj_BatchSize job' = pj_BatchSize job.
Proof using Hq Hk Hm Ht.
  intros [Hj Hs Hw Hl Hc Hme] Hn Hnow. pose proof Hw as (Hst & Hr & Hcol).
  assert (job_written (set_Purged n job) PurgeJobProcessing) as Hw1.
  { split; [done|]. split; [|done]. destruct Hr. split; try done. by intros m [= <-]. }
  pose proof (save_ok s Hj now (set_Purged n job) Hw1 Hnow Hs) as [Hj' _].
  unfold SaveJob in *. cbv zeta in *. cbn [snd] in Hj'. pose proof (proj1 Hj) as Hwt.
  rewrite hset_run in Hj' |- * by wt_view. cbn [snd] in Hj'.
  set (job' := set_UpdatedAt (UnixMilli now) (set_Purged n job)) in *.
  set (s' := upd PurgeJobs _ s) in *.
  assert (same_rest s s') as Ho.
  { intros k' Hk' Hne. apply lookup_upd_ne. apply (render_inj KPurgeJobs k'); [wf_parts|done|by intros <-]. }
  assert (listed k s' = listed k s) as Em by by apply same_rest_members.
  assert (job_written job' PurgeJobProcessing) as Hw2.
  { destruct Hw1 as (? & Hr1 & ?). split_and!; [done| |done]. destruct Hr1. by split. }
  split_and!; [|done..]. split; [done| |done| | |by rewrite Em].
  - unfold job_status, s'. rewrite hsh_upd. cbn [hset_all foldl]. rewrite lookup_insert_eq. cbn [mbind option_bind snd].
    rewrite find_status_job by apply Hw2. by rewrite (proj1 Hw2).
  - by eapply same_rest_locked; [done|apply Hj'|..].
  - by eapply same_rest_clean.
Qed.

(** A turn keeps the job at work; it ends the loop or makes the category
    smaller. *)
Lemma turn_ok i job n s :
  at_work job s → in_int64 n →
  let '(r, (job', s')) := purge_turn env i (render_key k) job n s in
  at_work job' s' ∧ pj_ID job' = pj_ID job ∧ pj_Payload job' = pj_Payload job ∧
  match r with
  | inl (inr m) => in_int64 m
  | inr m => in_int64 m ∧ (length (listed k s') < length (listed k s))%nat
  | _ => True
  end.
Proof using All.
  intros Haw Hn. unfold purge_turn. destruct (env_done env i); [done|].
  rewrite not_canceled by done. pose proof (proj1 (aw_jobs _ _ Haw)) as Hw.
  rewrite (fetch_run k Hk Ht) by done.
  destruct (ltrim 0 (pj_BatchSize job - 1) (listed k s)) as [|id0 ids0] eqn:El; [done|].
  assert (∀ id, id ∈ id0 :: ids0 → id ∈ listed k s) as Hin.
  { intros id. rewrite <-El. unfold ltrim. case_decide; [by intros ?%elem_of_nil|].
    intros Hid. eapply elem_of_sublist; [exact Hid|]. etrans; [apply sublist_take|apply sublist_drop]. }
  set (ids := id0 :: ids0) in *.
  pose proof (DeleteMessages_spares env ids (pj_ID job) s Hw Horder (aw_clean _ _ Haw)
                ltac:(intros id Hid; by apply (aw_members _ _ Haw), Hin)) as Hsp.
  destruct (DeleteMessages _ _ _ _ _ ids (pj_ID job) s) as [[e|resp] s1]; cbn [snd] in Hsp.
  { split; [by eapply at_work_spares|done]. }
  pose proof (at_work_spares job s s1 Haw Hsp) as Haw1.
  destruct (trim_run k Hk Hm Ht (length ids) s1 (sp_wt _ _ Hsp) ltac:(cbn; lia)) as (s2 & -> & Hsp2 & Hlt & _).
  pose proof (at_work_spares job s1 s2 Haw1 Hsp2) as Haw2.
  pose proof (save_at_work (env_clock env i) (wrap64 (n + Success (resp_Stats resp))) job s2 Haw2
                (wrap64_in _) (Hclock i)) as Hsave. cbv zeta.
  destruct (SaveJob _ _ s2) as [job' [r s3]]. destruct Hsave as (Haw3 & Em & Hid & Hpl & _).
  assert (length (listed k s3) < length (listed k s))%nat as Hless.
  { rewrite Em. pose proof (sublist_length _ _ (members_spares k Hk Hm Ht s s1 Hsp)).
    pose proof (sublist_length _ _ (members_spares k Hk Hm Ht s1 s2 Hsp2)).
    destruct (listed k s1) as [|x l] eqn:E1.
    - assert (id0 ∈ listed k s) as Hi by (apply Hin; set_solver).
      destruct (listed k s); [by apply elem_of_nil in Hi|]. cbn in *. lia.
    - specialize (Hlt ltac:(done)). lia. }
  destruct (bool_decide _ && _); split_and!; try done. apply wrap64_in.
Qed.

(** The context is never cancelled. *)
Definition uncancelled : Prop := (∀ i, env_done env i = false ∧ env_wait env i = false) ∧ env_over env = false.

Lemma turn_uncut i job n s r js :
  uncancelled → purge_turn env i (render_key k) job n s = (inl (inl r), js) → cut_off r = false.
Proof using.
  intros [Hu _]. unfold purge_turn. destruct (Hu i) as [-> ->].
  destruct (IsCanceled (pj_ID job) s) as [|[]]; [by intros [= <- _]|done|].
  destruct (fetchBatch _ _ s) as [|[|id ids]]; [by intros [= <- _]|done|].
  destruct (DeleteMessages _ _ _ _ _ _ _ s) as [[] s1]; [by intros [= <- _]|].
  cbv zeta. destruct (trimCategory _ _ s1) as [[] s2]; [by intros [= <- _]|].
  destruct (SaveJob _ _ s2) as [j [? s3]]. by rewrite andb_false_r.
Qed.

Lemma loop_uncut fuel : ∀ i job n s r js,
  uncancelled → purge_loop env fuel i (render_key k) job n s = Some (inl r, js) → cut_off r = false.
Proof using.
  induction fuel as [|fuel IH]; intros i job n s r js Hu; [done|]. cbn [purge_loop].
  destruct (purge_turn env i (render_key k) job n s) as [[r'|m] js'] eqn:E.
  - intros [= -> ->]. by eapply turn_uncut.
  - destruct js' as [job' s']. by apply IH.
Qed.

Lemma loop_ok fuel : ∀ i job n s,
  at_work job s → in_int64 n → (length (listed k s) < fuel)%nat →
  ∃ r job' s', purge_loop env fuel i (render_key k) job n s = Some (r, (job', s')) ∧
    at_work job' s' ∧ pj_ID job' = pj_ID job ∧ pj_Payload job' = pj_Payload job ∧
    (∀ m, r = inr m → in_int64 m).
Proof using All.
  induction fuel as [|fuel IH]; intros i job n s Haw Hn Hlen; [lia|]. cbn [purge_loop].
  pose proof (turn_ok i job n s Haw Hn) as H.
  destruct (purge_turn env i (render_key k) job n s) as [[r|m] [job1 s1]]; destruct H as (H1 & H2 & H3 & H4).
  - exists r, job1, s1. split_and!; try done. intros m ->. done.
  - destruct H4 as [Hmr Hlt]. destruct (IH (S i) job1 m s1 H1 Hmr ltac:(lia)) as (r & job' & s' & Hr & Ha & E1 & E2 & E3).
    exists r, job', s'. split_and!; try done; congruence.
Qed.
End loop.

(** ** What a batch deletes *)

Lemma GetMessages_all env s ids es :
  Forall2 (λ id e, GetMessage (env_defaults env) (env_uuid env) (env_uuid' env) (env_now env) s id = inr e) ids es →
  GetMessages (env_defaults env) (env_uuid env) (env_uuid' env) (env_now env) s ids = inr es.
Proof. induction 1 as [|id e ids es He _ IH]; [done|]. cbn [GetMessages]. by rewrite He, IH. Qed.

(** Messages of one queue and one group are one group. *)
Definition one_group (qp : QParams) (g : string) (es : list Envelope) : messageGroup :=
  {| mg_id := (q_ns qp +:+ ":" +:+ q_name qp, if decide (g = "") then "_" else g);
     mg_queue := qp; mg_messages := es |}.

Lemma message_groups_one qp g e es :
  Forall (λ e, destinationQueue e = Some qp ∧ consumerGroupID e = g) (e :: es) →
  message_groups (e :: es) = [one_group qp g (e :: es)].
Proof.
  intros [[Hd Hg] Hes]%Forall_cons. unfold message_groups. cbn [foldl]. rewrite Hd, Hg. cbv zeta. cbn [group_add].
  fold (one_group qp g [e]). change (e :: es) with ([e] ++ es).
  generalize [e] as pre. induction es as [|e' es IH]; intros pre; [by rewrite app_nil_r|].
  apply Forall_cons in Hes as [[Hd' Hg'] Hes]. cbn [foldl]. rewrite Hd', Hg'. cbv zeta. cbn [group_add].
  rewrite decide_True by done. replace (pre ++ e' :: es) with ((pre ++ [e']) ++ es) by by rewrite <-app_assoc.
  exact (IH Hes (pre ++ [e'])).
Qed.

Lemma size_undeleted ids : ∀ a : accounts,
  NoDup ids → (∀ id, id ∈ ids → ∃ st, a !! id = Some st ∧ st ≠ StatusProcessing) →
  Z.of_nat (size a) = Z.of_nat (size (undeleted ids a)) + Z.of_nat (length ids).
Proof.
  induction ids as [|id ids IH]; intros a Hnd Hids; [rewrite undeleted_nil; cbn; lia|].
  apply NoDup_cons in Hnd as [Hni Hnd]. destruct (Hids id ltac:(set_solver)) as (st & Hst & Hp).
  rewrite (undeleted_delete _ _ _ _ Hst Hp). pose proof (map_size_delete id a) as Hsz. rewrite Hst in Hsz.
  pose proof (size_pos a id st Hst). cbn [length].
  rewrite Nat2Z.inj_succ. specialize (IH (delete id a) Hnd). rewrite <-Z.add_1_r, Z.add_assoc, <-IH; [lia|].
  intros i Hi. destruct (Hids i ltac:(set_solver)) as (st' & Hs' & Hp'). exists st'.
  rewrite lookup_delete_ne; [done|]. by intros ->.
Qed.

Section batch.
Context (env : environment) (Horder : permuting env) (qp : QParams) (g : string).
Let q := queue_keys_of qp.
Context (Hq : wf_queue q) (Hg : no_colon g = true).
Context (jobID : string) (Hid : jobID ≠ "") (s : store) (Hl : locked_by q s LockOwnerPurgeJob jobID).
Context (a : accounts) (Ha : accounts_of q s a) (Hsm : small a).
Context (ids : list string) (Hne : ids ≠ []) (Hnd : NoDup ids).
Context (Hst : ∀ id, id ∈ ids → ∃ st, a !! id = Some st ∧ st ≠ StatusProcessing ∧ st ≠ StatusUnackDelaying).
Context (Hmsg : ∀ id, id ∈ ids → ∃ e,
  GetMessage (env_defaults env) (env_uuid env) (env_uuid' env) (env_now env) s id = inr e ∧
  ID e = id ∧ destinationQueue e = Some qp ∧ consumerGroupID e = g).

Lemma batch_envelopes l : (∀ id, id ∈ l → id ∈ ids) → ∃ es,
  Forall2 (λ id e, GetMessage (env_defaults env) (env_uuid env) (env_uuid' env) (env_now env) s id = inr e) l es ∧
  ID <$> es = l ∧ Forall (λ e, destinationQueue e = Some qp ∧ consumerGroupID e = g) es.
Proof using Hmsg.
  clear Hne Hnd Hst. induction l as [|id l IH]; intros Hin; [by exists []|].
  destruct IH as (es & H1 & H2 & H3); [intros i Hi; apply Hin; by right|].
  destruct (Hmsg id) as (e & E1 & E2 & E3 & E4); [apply Hin; by left|].
  exists (e :: es). split_and!; [by constructor|cbn; congruence|by constructor].
Qed.

(** The holder of the lock is let through. *)
Lemma holder_allowed : delete_refusal s q jobID = None.
Proof using Hq Hl Hid.
  unfold delete_refusal. rewrite decide_True by apply Hl. fold (lock_field s q). rewrite (lb_field _ _ _ _ Hl).
  unfold lock_check. destruct (decide _); [|done]. rewrite decide_False by done.
  by rewrite decide_False by naive_solver.
Qed.

Lemma delete_batch :
  ∃ resp s', DeleteMessages (env_defaults env) (env_uuid env) (env_uuid' env) (env_now env) (env_order env)
      ids jobID s = (inr resp, s') ∧
    Success (resp_Stats resp) = Z.of_nat (length ids) ∧
    accounts_of q s' (undeleted ids a) ∧ removed q s a s' (undeleted ids a).
Proof using All.
  destruct (batch_envelopes ids (λ _ H, H)) as (es & H1 & H2 & H3).
  unfold DeleteMessages. destruct ids as [|i0 ids0] eqn:Eids; [done|]. rewrite <-Eids in *.
  rewrite (GetMessages_all _ _ _ _ H1). destruct es as [|e es]; [by rewrite <-H2 in Hne|].
  rewrite (message_groups_one qp g) by done. cbv zeta.
  rewrite (proj1 (Permutation_singleton_r _ _) (Horder [one_group qp g (e :: es)])). cbn [delete_groups one_group mg_queue mg_messages].
  unfold deleteMessageGroup. apply Forall_cons in H3 as [[_ Hge] _]. rewrite Hge, H2. fold q.
  assert (deletable_ids s a ids) as Hdel.
  { intros id Hin. destruct (Hst id Hin) as (st & Hs & _). split; [|congruence].
    by apply (mo_status _ _ _ (proj1 Ha) id st). }
  destruct (delete_batch_run q g jobID ids s a Hq Hg Ha Hsm Hdel) as (s' & -> & Hs').
  rewrite holder_allowed in *. specialize (Hs' eq_refl).
  destruct (delete_all _ a no_stats ids) as [[stats|e'] a'] eqn:Ea; cbn [fst snd] in *.
  2: { apply delete_all_Err in Ea as (_ & _ & _ & id & Hin & Hd).
       destruct (Hst id Hin) as (st & Hs & _ & Hn). congruence. }
  apply delete_all_Ret in Ea as (-> & _ & HS & _). destruct Hs' as [Ha' Hrm].
  eexists _, s'. split; [done|]. cbn [resp_Stats add_stats Success]. split; [|done].
  cbn [no_stats Success] in HS. rewrite (size_undeleted ids a) in HS; [lia|done|].
  intros id Hin. destruct (Hst id Hin) as (st & ? & ? & _). eauto.
Qed.
End batch.

(** Keys the accounts depend on are the same; scheduled entries may be gone. *)
Lemma accounts_keep q s s' a :
  wf_queue q → wt s' →
  (∀ k, k = KPublished q ∨ k = KProperties q ∨ k = KRequeued q ∨ k = KDelayed q ∨
        (∃ id, k = KMessage id ∧ no_colon id = true) → db s' !! render_key k = db s !! render_key k) →
  zst s' (Scheduled q) `sublist_of` zst s (Scheduled q) → accounts_of q s a → accounts_of q s' a.
Proof.
  intros Hq Hw Ho Hz [[_ Hl Hst [Hnd Hrq Hdl Hsc]] Hc].
  pose proof (Ho (KPublished q) ltac:(tauto)) as E1. pose proof (Ho (KProperties q) ltac:(tauto)) as E2.
  pose proof (Ho (KRequeued q) ltac:(tauto)) as E3. pose proof (Ho (KDelayed q) ltac:(tauto)) as E4.
  cbn [render_key] in E1, E2, E3, E4. split; [split|].
  - done.
  - unfold lst in *. by rewrite E1.
  - intros id st Hid. destruct (Hst id st Hid) as (H1 & H2 & H3). split_and!; [done..|].
    assert (db s' !! Message id = db s !! Message id) as Em by (apply (Ho (KMessage id)); eauto 10).
    unfold hsh in *. by rewrite Em.
  - assert (lst s' (Requeued q) = lst s (Requeued q)) as R3 by (unfold lst; by rewrite E3).
    assert (zst s' (Delayed q) = zst s (Delayed q)) as R4 by (unfold zst; by rewrite E4).
    split; rewrite ?R3, ?R4; [done..|]. intros id Hid. apply Hsc.
    eapply elem_of_sublist; [exact Hid|]. by apply sublist_map.
  - unfold counters_of, hsh in *. by rewrite E2.
Qed.

Lemma category_apart filter q k k' :
  category filter q = Some k → wf_queue q → wf_key k' →
  k' = KPublished q ∨ k' = KProperties q ∨ k' = KRequeued q ∨ k' = KDelayed q ∨
    (∃ id, k' = KMessage id ∧ no_colon id = true) → render_key k' ≠ render_key k.
Proof.
  intros Hc Hq Hk' H. destruct (category_key _ _ _ Hc) as (_ & _ & _ & Hp).
  apply render_inj; [done|unfold wf_key; rewrite Hp; destruct Hq; by repeat constructor|].
  unfold category in Hc. repeat (destruct (decide (filter = _)); [injection Hc as <-; naive_solver|]). discriminate Hc.
Qed.

Lemma save_same_rest now job s : wt s → same_rest s (SaveJob now job s).2.2.
Proof.
  intros Hw k Hk Hj. unfold SaveJob. cbv zeta. rewrite hset_run by wt_view. cbn [snd]. apply lookup_upd_ne.
  apply (render_inj KPurgeJobs k); [wf_parts|done|by intros <-].
Qed.

(** Neither trimming the category nor saving the job touches the accounts. *)
Lemma trim_accounts filter q k s s' a :
  category filter q = Some k → wf_queue q → spares s s' →
  (∀ k', k' ≠ render_key k → db s' !! k' = db s !! k') → accounts_of q s a → accounts_of q s' a.
Proof.
  intros Hcat Hq Hsp Hother Ha.
  eapply accounts_keep; [done|apply Hsp| |by apply (sp_zsets _ _ Hsp (KScheduled q)); [wf_parts|]|exact Ha].
  intros k' Hk'. apply Hother. eapply category_apart; [exact Hcat|done| |exact Hk'].
  destruct Hk' as [->|[->|[->|[->|(id & -> & ?)]]]]; wf_parts.
Qed.

Lemma rest_accounts q s s' a : wf_queue q → wt s' → same_rest s s' → accounts_of q s a → accounts_of q s' a.
Proof.
  intros Hq Hw Hrest Ha. eapply accounts_keep; [done|done| | |exact Ha].
  - intros k' Hk'. apply Hrest; destruct Hk' as [->|[->|[->|[->|(id & -> & ?)]]]]; first [wf_parts|done].
  - pose proof (Hrest (KScheduled q) ltac:(wf_parts) eq_refl) as E. cbn [render_key] in E. unfold zst. by rewrite E.
Qed.

(** The total of a batch does not overflow. *)
Lemma batch_total (a : accounts) ids n :
  small a → NoDup ids → (∀ id, id ∈ ids → ∃ st, a !! id = Some st ∧ st ≠ StatusProcessing) →
  n = Z.of_nat (length ids) → in_int64 n ∧ wrap64 (0 + n) = n.
Proof.
  intros Hsm Hnd Hids ->. pose proof (size_undeleted ids a Hnd Hids) as Hsz. unfold small in Hsm.
  assert (in_int64 (Z.of_nat (length ids))) as H by (unfold in_int64, int64_min, int64_max; lia).
  split; [done|]. by rewrite Z.add_0_l, wrap64_id.
Qed.

(** ** The end of a job *)

(** The job is over, as [job], and the queue is active and unlocked. *)
Record job_over (q : Queue) (job : PurgeJob) (s : store) : Prop := {
  jo_jobs : jobs_ok s;
  jo_job : GetJob (pj_ID job) s = inr job;
  jo_pending : pj_ID job ∉ lst s PendingPurgeJobs;
  jo_active : pj_ID job ∉ lst s ActivePurgeJobs;
  jo_state : op_state s q = itoa StateActive;
  jo_lock : lock_field s q = ""
}.

Lemma unlock_ends now qp job st d s :
  wf_queue (keys_of qp) → pj_ID job ≠ "" → no_colon (pj_ID job) = true → jobs_ok s →
  locked_by (keys_of qp) s LockOwnerPurgeJob (pj_ID job) →
  GetJob (pj_ID job) s = inr job → terminal (job_status s (pj_ID job)) →
  job_over (keys_of qp) job (unlockQueue now qp (pj_ID job) st d s).
Proof.
  intros Hq Hid Hc Hj Hl Hg Hte. unfold unlockQueue.
  destruct (locked_releaseLock _ s _ _ Hq Hid Hl now (unlock_reason st) (describe d)) as (t & s' & -> & Hs & H1 & H2).
  cbn [snd]. pose proof Hs as [Hw Hp Hh Ho].
  assert (db s' !! PurgeJobs = db s !! PurgeJobs) as E1 by (apply Ho; key_ne).
  assert (db s' !! PendingPurgeJobs = db s !! PendingPurgeJobs) as E2 by (apply Ho; key_ne).
  assert (db s' !! ActivePurgeJobs = db s !! ActivePurgeJobs) as E3 by (apply Ho; key_ne).
  destruct (terminal_unlisted _ _ _ (proj2 Hj) (pj_ID job) Hte) as [N1 N2].
  split; [| | | |done|done].
  - destruct Hj as [_ Ht]. unfold jobs_ok, hsh, lst in *. by rewrite E1, E2, E3.
  - pose proof (proj1 Hj) as Hws. unfold GetJob in *. rewrite hget_run in Hg |- * by wt_view. cbn [fst] in *.
    unfold hsh in *. by rewrite E1.
  - unfold lst in *. by rewrite E2.
  - unfold lst in *. by rewrite E3.
Qed.

Section ending.
Context (qp : option QParams) (job : PurgeJob) (s : store).
Context (Hq : wf_queue (keys_of qp)) (Hid : pj_ID job ≠ "") (Hj : jobs_ok s).
Context (Hl : locked_by (keys_of qp) s LockOwnerPurgeJob (pj_ID job)).
Context (Hst : job_status s (pj_ID job) = Some "1").

(** The job that a finishing script writes is the one stored. *)
Lemma finish_ends now r s1 st d :
  job_written job PurgeJobCompleted ∨ job_written job PurgeJobFailed →
  finish_post (pj_ID job) s (mustMarshal job) (job_status s (pj_ID job) = Some "1")
    (lst s PendingPurgeJobs) (lst s PendingPurgeJobs) r s1 →
  job_over (keys_of qp) job (unlockQueue now qp (pj_ID job) st d s1).
Proof using All.
  intros Hjw H. destruct (finish_step_ok s Hj job r s1 Hjw H) as [Hj1 _]. destruct H as [_ He].
  rewrite !decide_True in He by auto. pose proof He as [Hw1 Hh1 _ _ _].
  assert (job_in_range job ∧ no_colon (pj_ID job) = true ∧
          (pj_Status job = PurgeJobCompleted ∨ pj_Status job = PurgeJobFailed)) as (Hr & Hc & Hs).
  { destruct Hjw as [(? & ? & ?)|(? & ? & ?)]; auto. }
  apply unlock_ends; [done..| | |].
  - eapply same_rest_locked; [done|done|by eapply effect_same_rest|done].
  - unfold GetJob. rewrite hget_run by wt_view. cbn [fst]. rewrite Hh1, lookup_insert_eq. by rewrite job_roundtrip.
  - unfold job_status. rewrite Hh1, lookup_insert_eq. cbn [mbind option_bind].
    rewrite find_status_job by apply Hr. unfold terminal. destruct Hs as [-> | ->]; auto.
Qed.

Lemma complete_ends now st d :
  job_written job PurgeJobCompleted →
  job_over (keys_of qp) job (unlockQueue now qp (pj_ID job) st d (Complete (pj_ID job) job s).2).
Proof using All.
  intros Hjw. unfold Complete. rewrite runJobScript_state. status_args.
  destruct (complete_run (pj_ID job) (proj2 (proj2 Hjw)) s (proj1 Hj) (mustMarshal job)) as (r & s' & -> & H).
  eapply finish_ends; [by left|exact H].
Qed.

Lemma fail_ends now st d :
  job_written job PurgeJobFailed →
  job_over (keys_of qp) job (unlockQueue now qp (pj_ID job) st d (FailJob (pj_ID job) job s).2).
Proof using All.
  intros Hjw. unfold FailJob. rewrite runJobScript_state. status_args.
  destruct (fail_run (pj_ID job) (proj2 (proj2 Hjw)) s (proj1 Hj) (mustMarshal job)) as (r & s' & -> & H).
  eapply finish_ends; [by right|exact H].
Qed.
End ending.

(** ** A job from start to end *)

(** A worker has taken the job, whose queue is locked for it. *)
Record acquired (env : environment) (k : redis_key) (job : PurgeJob) (s : store) : Prop := {
  aq_jobs : jobs_ok s;
  aq_job : GetJob (pj_ID job) s = inr job;
  aq_status : pj_Status job = PurgeJobPending;
  aq_active : pj_ID job ∈ lst s ActivePurgeJobs;
  aq_queue : wf_queue (keys_of (pl_Queue (pj_Payload job)));
  aq_category : category (pl_MessageType (pj_Payload job)) (keys_of (pl_Queue (pj_Payload job))) = Some k;
  aq_lock : locked_by (keys_of (pl_Queue (pj_Payload job))) s LockOwnerPurgeJob (pj_ID job);
  aq_id : pj_ID job ≠ "";
  aq_clean : clean_messages env s;
  aq_members : ∀ id, id ∈ listed k s → no_colon id = true
}.

Lemma start_at_work env k job w t0 s :
  acquired env k job s → wf_key k → movable k = true → key_type k = TList ∨ key_type k = TZSet →
  in_int64 (UnixMilli t0) →
  let job1 := set_StartedAt (UnixMilli t0) (set_Status PurgeJobProcessing job) in
  ∃ s1, Start (pj_ID job) w job1 s = (inr tt, s1) ∧
    at_work env (keys_of (pl_Queue (pj_Payload job))) k job1 s1 ∧ listed k s1 = listed k s.
Proof.
  intros [Hj Hg Hs Hin Hq Hcat Hl Hid Hcl Hme] Hk Hm Ht H0 job1. pose proof (proj1 Hj) as Hw.
  destruct (GetJob_inv s _ _ Hj Hg) as (Hd & _ & _ & Hst). rewrite Hs in Hst.
  destruct (tb_text _ _ _ (proj2 Hj) _ _ Hd) as (Hc & _). 
  destruct (job_read s _ _ Hj Hd) as (j' & Hg' & _ & _ & Hr & _). rewrite Hg in Hg'. injection Hg' as <-.
  assert (job_written job1 PurgeJobProcessing) as Hw1.
  { split; [done|]. split; [|done]. destruct Hr. split; try done. }
  pose proof (start_ok s Hj w job1 Hw1) as [Hj1 _]. unfold Start in *. rewrite runJobScript_state in Hj1.
  change (pj_ID job1) with (pj_ID job) in Hj1. revert Hj1. status_args.
  destruct (start_run (pj_ID job) Hc s Hw (mustMarshal job1) w) as (r & s1 & Hrun & Hpost).
  rewrite Hrun. cbn [snd]. intros Hj1. unfold start_post in Hpost. rewrite decide_True in Hpost by done.
  destruct Hpost as [-> He]. exists s1. unfold runJobScript. rewrite Hrun. split; [done|].
  pose proof (effect_same_rest _ _ _ _ _ _ Hc He) as Ho.
  pose proof (same_rest_members k Hk Hm Ht s s1 Ho) as Em. split; [|done].
  split; [done| |done| | |by rewrite Em].
  - unfold job_status. rewrite (je_jobs _ _ _ _ _ _ He). change (pj_ID job1) with (pj_ID job).
    rewrite lookup_insert_eq. cbn [mbind option_bind]. rewrite find_status_job; [done|apply Hw1].
  - eapply same_rest_locked; [done|apply Hj1|exact Ho|exact Hl].
  - by eapply same_rest_clean.
Qed.

(** How a worker leaves a job: over, or, when its context was cancelled, possibly
    processing and with its queue locked. *)
Definition job_result (env : environment) (q : Queue) (job : PurgeJob) (s : store) : Prop :=
  ((pj_Status job = PurgeJobCompleted ∨ pj_Status job = PurgeJobFailed) ∧ job_over q job s) ∨
  (¬ uncancelled env ∧ jobs_ok s ∧ job_status s (pj_ID job) = Some "1" ∧
   locked_by q s LockOwnerPurgeJob (pj_ID job)).

Lemma job_ends env w fuel t0 t1 k job s :
  permuting env → (∀ i, in_int64 (UnixMilli (env_clock env i))) →
  in_int64 (UnixMilli t0) → in_int64 (UnixMilli t1) →
  acquired env k job s → (length (listed k s) < fuel)%nat →
  ∃ job' s', execute env w fuel t0 t1 (pj_ID job) s = Some s' ∧ pj_ID job' = pj_ID job ∧
    job_result env (keys_of (pl_Queue (pj_Payload job))) job' s'.
Proof.
  intros Hord Hclk H0 H1 Hacq Hfuel. set (qp := pl_Queue (pj_Payload job)).
  pose proof (aq_queue _ _ _ _ Hacq) as Hq. fold qp in Hq.
  destruct (category_key _ _ _ (aq_category _ _ _ _ Hacq)) as (Ek & Hm & Ht & Hparts).
  assert (wf_key k) as Hk.
  { unfold wf_key. rewrite Hparts. destruct Hq. by repeat constructor. }
  unfold execute. rewrite (aq_job _ _ _ _ Hacq). cbv zeta.
  destruct (start_at_work env k job w t0 s Hacq Hk Hm Ht H0) as (s1 & -> & Haw & Em). fold qp in Haw |- *.
  set (job1 := set_StartedAt _ _) in *. unfold purgeMessages.
  change (pl_Queue (pj_Payload job1)) with qp. change (pl_MessageType (pj_Payload job1)) with (pl_MessageType (pj_Payload job)).
  fold qp in Ek. rewrite Ek.
  destruct (loop_ok env (keys_of qp) k Hq Hk Hm Ht Hord Hclk fuel 0 job1 0 s1 Haw) as (r & job2 & s2 & Hloop & Haw2 & E1 & E2 & Hr).
  { unfold in_int64, int64_min, int64_max. lia. }
  { by rewrite Em. }
  rewrite Hloop. change (pj_ID job1) with (pj_ID job) in E1. pose proof Haw2 as [Hj2 Hst2 (Hs2 & Hr2 & Hc2) Hl2 _ _].
  assert (pj_ID job2 ≠ "") as Hid by (rewrite E1; apply Hacq).
  destruct r as [e|n].
  - destruct (cut_off e) eqn:Ec.
    { exists job2, s2. split; [done|]. split; [done|]. right. split_and!; [|done|done|done].
      intros Hu. by rewrite (loop_uncut env k _ _ _ _ _ _ _ Hu Hloop) in Ec. }
    set (job3 := set_CompletedAt (UnixMilli t1) (set_Error (env_text env e) (set_Status PurgeJobFailed job2))).
    exists job3. eexists. split; [done|]. split; [done|]. left. split; [by right|].
    apply fail_ends; [done..|]. split; [done|]. split; [|done]. destruct Hr2. split; try done.
  - destruct (env_over env) eqn:Eo.
    { exists job2, s2. split; [done|]. split; [done|]. right. split_and!; [|done|done|done].
      intros [_ Hu]. congruence. }
    rewrite <-E1. rewrite (not_canceled _ _ _ _ _ Haw2).
    set (job3 := set_CompletedAt (UnixMilli t1) (set_Purged n (set_Status PurgeJobCompleted job2))).
    exists job3. eexists. split; [done|]. split; [done|]. left. split; [by left|].
    apply (complete_ends qp job3); [done..|]. split; [done|]. split; [|done].
    destruct Hr2. split; try done. intros m [= <-]. by apply Hr.
Qed.

(** ** Enqueuing *)

Lemma new_job_range now id qp f :
  in_int64 (UnixMilli now) → in_int64 f → job_in_range (newPurgeJob now id qp f).
Proof.
  intros Hn Hf. split; cbn; try done; try (unfold known_status, in_int64, int64_min, int64_max; lia).
  intros m [= <-]. cbn. unfold in_int64, int64_min, int64_max. lia.
Qed.

Lemma acquireLock_fails now q owner id reason opts s e s' :
  wt s → wf_queue q → acquireLock now q owner id reason opts s = (inl e, s') → s' = s.
Proof.
  intros Hw Hq H. unfold acquireLock in H. case_decide; [by injection H as _ <-|].
  destruct (FetchCurrent now q s) as [e'|cur]; [by injection H as _ <-|].
  destruct (transition_decision _ _); [by injection H as _ <-|].
  destruct (saveState_cases now q (Some (To cur)) StateLocked reason (Some (lock_options owner id opts)) s Hw Hq)
    as [(e' & He & _)|(s1 & He & _)]; rewrite H in He; [by injection He as _ ->|done].
Qed.

Section enqueue.
Context (env : environment) (cfg : ConfigRec) (now : Z) (jobID : string) (qp : option QParams) (f : Z) (s : store).
Let q := keys_of qp.
Context (Hq : wf_queue q) (Hok : state_ok q s) (Hj : jobs_ok s) (Hid : no_colon jobID = true).
Context (Hfresh : hsh s PurgeJobs !! jobID = None) (Hnow : in_int64 (UnixMilli now)) (Hf : in_int64 f).

(** The state after a purge was accepted. *)
Record enqueued (s' : store) : Prop := {
  eq_jobs : jobs_ok s';
  eq_job : GetJob jobID s' = inr (newPurgeJob now jobID qp f);
  eq_pending : lst s' PendingPurgeJobs = jobID :: lst s PendingPurgeJobs;
  eq_lock : locked_by q s' LockOwnerPurgeJob jobID;
  eq_id : jobID ≠ "";
  eq_rest k : wf_key k → job_key k = false → k ≠ KProperties q → k ≠ KStateHistory q →
    db s' !! render_key k = db s !! render_key k
}.

Lemma enqueue_cases :
  (∃ e, Enqueue env cfg now jobID qp f s = (inl e, s)) ∨
  (∃ s', Enqueue env cfg now jobID qp f s = (inr jobID, s') ∧ enqueued s').
Proof using Hq Hok Hj Hid Hfresh Hnow Hf.
  unfold Enqueue. fold q. destruct (negb (validateFilter cfg f)); [left; by eexists|].
  pose proof (proj1 Hj) as Hw.
  destruct (acquireLock now q _ jobID _ _ s) as [[e|t] s1] eqn:Ea.
  { apply acquireLock_fails in Ea as ->; [|done..]. left. by eexists. }
  assert (in_int64 LockOwnerPurgeJob) as Ho by done.
  destruct (acquireLock_locks _ _ _ _ _ _ _ _ _ Hq Hok Ho Hnow Ea) as (Hne & Hl & Hrest).
  set (j := newPurgeJob now jobID qp f).
  assert (db s1 !! PurgeJobs = db s !! PurgeJobs) as E1 by (apply Hrest; key_ne).
  assert (db s1 !! PendingPurgeJobs = db s !! PendingPurgeJobs) as E2 by (apply Hrest; key_ne).
  assert (db s1 !! ActivePurgeJobs = db s !! ActivePurgeJobs) as E3 by (apply Hrest; key_ne).
  pose proof (so_wt _ _ (lb_ok _ _ _ _ Hl)) as Hw1.
  assert (jobs_ok s1) as Hj1.
  { destruct Hj as [_ Ht]. unfold jobs_ok, hsh, lst in *. by rewrite E1, E2, E3. }
  assert (job_written j PurgeJobPending) as Hjw.
  { split; [done|]. split; [by apply new_job_range|done]. }
  pose proof (create_ok s1 Hj1 j Hjw) as [Hj2 _]. unfold Create in *. rewrite runJobScript_state in Hj2.
  unfold runJobScript. change (pj_ID j) with jobID in *.
  destruct (create_job_run jobID s1 Hw1 (mustMarshal j)) as (r & s2 & Hrun & Hpost). rewrite Hrun in Hj2 |- *.
  cbn [snd] in Hj2. assert (hsh s1 PurgeJobs !! jobID = None) as Hn1 by (unfold hsh in *; by rewrite E1).
  rewrite decide_False in Hpost by (rewrite Hn1; by intros []). destruct Hpost as [-> He].
  right. exists s2. split; [done|]. pose proof (effect_same_rest _ _ _ _ _ _ Hid He) as Hsame. split.
  - done.
  - unfold GetJob. pose proof (je_wt _ _ _ _ _ _ He) as Hw2. rewrite hget_run by wt_view. cbn [fst].
    rewrite (je_jobs _ _ _ _ _ _ He), lookup_insert_eq. by rewrite job_roundtrip by apply Hjw.
  - rewrite (je_pending _ _ _ _ _ _ He). unfold lst. by rewrite E2.
  - eapply same_rest_locked; [done|apply Hj2|exact Hsame|exact Hl].
  - done.
  - intros k Hk Hjk N1 N2. rewrite Hsame by done. apply Hrest.
    + apply (render_inj k (KProperties q)); [done|wf_parts|done].
    + apply (render_inj k (KStateHistory q)); [done|wf_parts|done].
Qed.

(** The worker's turn on an idle table takes the job. *)
Lemma enqueued_acquired k s' :
  enqueued s' → lst s PendingPurgeJobs = [] → category f q = Some k →
  clean_messages env s → (∀ id, id ∈ listed k s → no_colon id = true) →
  ∃ s2, acquire s' = (inr jobID, s2) ∧ acquired env k (newPurgeJob now jobID qp f) s2 ∧ listed k s2 = listed k s.
Proof using Hq Hok Hj Hid Hfresh Hnow Hf.
  intros [Hj2 Hg Hp Hl Hne Hr] Hempty Hcat Hcl Hme. rewrite Hempty in Hp. pose proof (proj1 Hj2) as Hw.
  pose proof (acquire_ok s' Hj2) as [Hj3 _]. rewrite acquire_state in Hj3. unfold acquire.
  rewrite rpoplpush_run in Hj3 |- * by (wt_view || key_ne). rewrite Hp in *. cbn [last removelast] in *.
  cbn [snd] in Hj3. eexists. split; [done|]. set (s2 := upd ActivePurgeJobs _ _) in *.
  destruct (category_key _ _ _ Hcat) as (Ek & Hm & Ht & Hparts).
  assert (wf_key k) as Hk by (unfold wf_key; rewrite Hparts; destruct Hq; by repeat constructor).
  assert (same_rest s' s2) as Hsame.
  { intros k' Hk' Hjk. unfold s2. rewrite !lookup_upd_ne; [done|..].
    - apply (render_inj KPendingPurgeJobs k'); [wf_parts|done|by intros <-].
    - apply (render_inj KActivePurgeJobs k'); [wf_parts|done|by intros <-]. }
  assert (listed k s2 = listed k s) as Em.
  { rewrite (same_rest_members k Hk Hm Ht s' s2) by done. unfold listed, lst, zst.
    rewrite Hr; [done|done|by destruct k|by intros ->|by intros ->]. }
  split; [|done]. split; cbn [pj_ID pj_Payload pl_Queue pl_MessageType newPurgeJob].
  - done.
  - unfold GetJob in *. rewrite hget_run in Hg by wt_view. pose proof (proj1 Hj3) as Hw3.
    rewrite hget_run by wt_view. cbn [fst] in *. unfold s2. views. exact Hg.
  - done.
  - unfold s2. views. set_solver.
  - done.
  - done.
  - eapply same_rest_locked; [done|apply Hj3|exact Hsame|exact Hl].
  - done.
  - eapply same_rest_clean; [exact Hsame|]. intros id e Hid' Hge. apply (Hcl id e Hid').
    pose proof (Hr (KMessage id) ltac:(wf_parts) eq_refl ltac:(done) ltac:(done)) as E. cbn [render_key] in E.
    unfold GetMessage, cmd_hgetall, with_view in *. rewrite E in Hge. by destruct (as_hash (db s !! Message id)).
  - by rewrite Em.
Qed.
End enqueue.

(** ** Properties *)

(** Asking for a purge.  Under a fresh job identifier, a request that is
    refused changes nothing; one that is accepted leaves the queue locked for
    the job, the job stored and pending, first in the list, and touches no
    other key. *)
Theorem purge_enqueue_correct env cfg now jobID qp f s :
  wf_queue (keys_of qp) → state_ok (keys_of qp) s → jobs_ok s → no_colon jobID = true →
  hsh s PurgeJobs !! jobID = None → in_int64 (UnixMilli now) → in_int64 f →
  match Enqueue env cfg now jobID qp f s with
  | (inl _, s') => s' = s
  | (inr id, s') => id = jobID ∧ enqueued now jobID qp f s s'
  end.
Proof.
  intros Hq Hok Hj Hid Hfresh Hnow Hf.
  destruct (enqueue_cases env cfg now jobID qp f s Hq Hok Hj Hid Hfresh Hnow Hf) as [[e ->]|(s' & -> & H)]; done.
Qed.

(** C12: a purge ends.  A worker that took a pending job, whose queue is locked
    for it, and that nobody interferes with comes to an end in as many turns as
    the category has entries, at most.  Unless its context is cancelled meanwhile,
    the job is then completed or, whatever error the loop met, failed, and in
    neither list, and the queue is active and unlocked again.  When the context is
    cancelled it may instead be left as it was, processing and with the queue
    locked, since the calls that would fail the job and release the lock are made
    with the cancelled context ([cancelled_purge_keeps_lock]). *)
Theorem purge_job_ends env w fuel t0 t1 k job s :
  permuting env → (∀ i, in_int64 (UnixMilli (env_clock env i))) →
  in_int64 (UnixMilli t0) → in_int64 (UnixMilli t1) →
  acquired env k job s → (length (listed k s) < fuel)%nat →
  ∃ job' s', execute env w fuel t0 t1 (pj_ID job) s = Some s' ∧ pj_ID job' = pj_ID job ∧
    (uncancelled env →
     (pj_Status job' = PurgeJobCompleted ∨ pj_Status job' = PurgeJobFailed) ∧
     job_over (keys_of (pl_Queue (pj_Payload job))) job' s') ∧
    job_result env (keys_of (pl_Queue (pj_Payload job))) job' s'.
Proof.
  intros H1 H2 H3 H4 H5 H6. destruct (job_ends env w fuel t0 t1 k job s H1 H2 H3 H4 H5 H6) as (j & s' & E1 & E2 & E3).
  exists j, s'. split_and!; [done..| |done]. intros Hu. by destruct E3 as [?|[? _]].
Qed.

(** From the request to the end.  A purge that was accepted while no other
    job was waiting is taken by the next turn of a worker, which brings it to
    its end: the job is over and the queue is active and unlocked. *)
Theorem accepted_purge_ends env cfg w fuel now t0 t1 jobID qp f k s s' :
  wf_queue (keys_of qp) → state_ok (keys_of qp) s → jobs_ok s → no_colon jobID = true →
  hsh s PurgeJobs !! jobID = None → in_int64 (UnixMilli now) → in_int64 f →
  permuting env → (∀ i, in_int64 (UnixMilli (env_clock env i))) →
  in_int64 (UnixMilli t0) → in_int64 (UnixMilli t1) →
  category f (keys_of qp) = Some k → lst s PendingPurgeJobs = [] →
  clean_messages env s → (∀ id, id ∈ listed k s → no_colon id = true) →
  (length (listed k s) < fuel)%nat → uncancelled env →
  Enqueue env cfg now jobID qp f s = (inr jobID, s') →
  ∃ job s2, work_turn env w fuel t0 t1 s' = Some s2 ∧ pj_ID job = jobID ∧
    (pj_Status job = PurgeJobCompleted ∨ pj_Status job = PurgeJobFailed) ∧ job_over (keys_of qp) job s2.
Proof.
  intros Hq Hok Hj Hid Hfresh Hnow Hf Hord Hclk H0 H1 Hcat Hidle Hcl Hme Hfuel Hu Henq.
  destruct (enqueue_cases env cfg now jobID qp f s Hq Hok Hj Hid Hfresh Hnow Hf) as [[e He]|(s1 & He & Hs1)];
    rewrite He in Henq; [done|]. injection Henq as <-.
  destruct (enqueued_acquired env now jobID qp f s Hq Hok Hj Hid Hfresh Hnow Hf k s1 Hs1 Hidle Hcat Hcl Hme)
    as (s2 & Hacq & Ha & Em).
  unfold work_turn. rewrite Hacq. rewrite decide_False by apply Hs1. 
  destruct (job_ends env w fuel t0 t1 k (newPurgeJob now jobID qp f) s2 Hord Hclk H0 H1 Ha) as (job & s3 & Hr & Hj3 & Ho).
  - by rewrite Em.
  - destruct Ho as [[Hs Ho]|[Hn _]]; [|done]. by exists job, s3.
Qed.

(** *** A worker and a queue *)

Definition sample_env : environment := {|
  env_defaults := DefaultConsumeOptions; env_uuid := "u1"; env_uuid' := "u2"; env_now := 7000000;
  env_order := λ l, l; env_clock := λ _, 8000000; env_done := λ _, false;
  env_wait := λ _, false; env_over := false; env_text := λ _, "failed" |}.

Lemma sample_permuting : permuting sample_env.
Proof. by intros l. Qed.

Definition fifo_created : store :=
  upd (StateHistory sample_queue)
    (list_val [marshal_transition (newInitialTransition 5000000 StateActive)])
    (upd (Properties sample_queue)
       (hash_val (<[qkey Q_Type := itoa TypeFIFO]> (<[qkey Q_LockID := ""]>
          (<[qkey Q_OperationalState := itoa StateActive]> ∅)))) empty_store).
Definition one_message : store := after_publish (pending_envelope "m1") fifo_created.
Definition two_messages : store := after_publish (pending_envelope "m2") one_message.

(** A job that purges the pending messages one at a time. *)
Definition job_of_one : PurgeJob :=
  {| pj_ID := "j1"; pj_Payload := {| pl_Queue := Some sample_params; pl_MessageType := BrowsePending |};
     pj_Status := PurgeJobPending; pj_CreatedAt := 6; pj_UpdatedAt := 0; pj_StartedAt := 0; pj_CompletedAt := 0;
     pj_BatchSize := 1; pj_DelayMs := 5000; pj_Error := ""; pj_Meta := Some {| Purged := 0 |} |}.

Definition two_locked : store :=
  (acquire (Create job_of_one
    (acquireLock 6000000 sample_queue LockOwnerPurgeJob "j1" ReasonPurgeStart None two_messages).2).2).2.

(** A purge of more than one batch loses messages.  Deleting a batch takes
    its messages off the category's list already, and the worker then trims the
    list by the size of the batch once more: with two pending messages and
    batches of one, the job completes having deleted one of them, and the other
    is still published and counted as pending but in no list, so nobody will
    ever receive it. *)
Theorem purge_strands_messages :
  ∃ s job, execute sample_env "w1" 3 7000000 8000000 "j1" two_locked = Some s ∧
    GetJob "j1" s = inr job ∧ pj_Status job = PurgeJobCompleted ∧ pj_Meta job = Some {| Purged := 1 |} ∧
    lst two_messages (Pending sample_queue) = ["m2"; "m1"] ∧
    lst s (Pending sample_queue) = [] ∧ lst s (Published sample_queue) = ["m1"] ∧
    counter s sample_queue Q_PendingMessagesCount = 1 ∧
    GetStatus s "m1" = inr StatusPending.
Proof.
  destruct (execute sample_env "w1" 3 7000000 8000000 "j1" two_locked) as [s|] eqn:E;
    [|vm_compute in E; discriminate E].
  exists s, (set_CompletedAt 8 (set_UpdatedAt 8 (set_Purged 1 (set_StartedAt 7 (set_Status 2 job_of_one))))).
  assert (s = default two_locked (execute sample_env "w1" 3 7000000 8000000 "j1" two_locked)) as -> by by rewrite E.
  split; [reflexivity|]. clear E. split_and!; vm_compute; reflexivity.
Qed.

(** Nobody has stored a message in a queue that was just created. *)
Lemma created_clean : clean_messages sample_env created_store.
Proof.
  intros id e Hid Hg. exfalso. pose proof sample_queue_wf as Hq.
  assert (db created_store !! Message id = None) as E.
  { unfold created_store. rewrite !lookup_upd_ne by key_ne. apply lookup_empty. }
  unfold GetMessage, cmd_hgetall, with_view in Hg. rewrite E in Hg. cbn in Hg. by rewrite decide_True in Hg.
Qed.

Lemma created_jobs : jobs_ok created_store.
Proof.
  split; [apply created_ok|]. assert (hsh created_store PurgeJobs = ∅) as -> by (vm_compute; reflexivity).
  assert (lst created_store PendingPurgeJobs = []) as -> by (vm_compute; reflexivity).
  assert (lst created_store ActivePurgeJobs = []) as -> by (vm_compute; reflexivity).
  apply no_jobs_ok.
Qed.

Definition purge_request : (purge_error + string) * store :=
  Enqueue sample_env DefaultConfig 6000000 "j1" (Some sample_params) BrowsePending created_store.

Lemma purge_request_ok : purge_request = (inr "j1", purge_request.2).
Proof.
  assert (purge_request.1 = inr "j1") as E by (vm_compute; reflexivity).
  by rewrite <-E, <-surjective_pairing.
Qed.

Lemma purge_enqueue_correct_witness :
  enqueued 6000000 "j1" (Some sample_params) BrowsePending created_store purge_request.2.
Proof.
  pose proof (purge_enqueue_correct sample_env DefaultConfig 6000000 "j1" (Some sample_params) BrowsePending
    created_store sample_queue_wf created_ok created_jobs eq_refl) as H.
  fold purge_request in H. rewrite purge_request_ok in H. apply H.
  - vm_compute. reflexivity.
  - vm_compute. split; discriminate.
  - vm_compute. split; discriminate.
Defined.

Lemma purge_request_enqueued :
  enqueued 6000000 "j1" (Some sample_params) BrowsePending created_store purge_request.2.
Proof.
  destruct (enqueue_cases sample_env DefaultConfig 6000000 "j1" (Some sample_params) BrowsePending created_store
    sample_queue_wf created_ok created_jobs eq_refl) as [[e He]|(s' & He & Hs)].
  - vm_compute. reflexivity.
  - vm_compute. split; discriminate.
  - vm_compute. split; discriminate.
  - fold purge_request in He. rewrite purge_request_ok in He. discriminate He.
  - fold purge_request in He. rewrite (f_equal snd He : purge_request.2 = s'). exact Hs.
Qed.

Lemma purge_job_ends_witness :
  ∃ s job s', acquire purge_request.2 = (inr "j1", s) ∧
    execute sample_env "w1" 1 7000000 8000000 "j1" s = Some s' ∧ job_over sample_queue job s'.
Proof.
  assert (in_int64 (UnixMilli 6000000)) as Hn by (vm_compute; split; discriminate).
  assert (in_int64 BrowsePending) as Hf by (vm_compute; split; discriminate).
  assert (hsh created_store PurgeJobs !! "j1" = None) as Hfresh by (vm_compute; reflexivity).
  pose proof purge_request_enqueued as Henq.
  destruct (enqueued_acquired sample_env 6000000 "j1" (Some sample_params) BrowsePending created_store sample_queue_wf
    created_ok created_jobs eq_refl Hfresh Hn Hf (KPending sample_queue) purge_request.2 Henq) as (s & Hs & Ha & Em).
  { vm_compute. reflexivity. }
  { reflexivity. }
  { exact created_clean. }
  { intros id Hid. vm_compute in Hid. by apply elem_of_nil in Hid. }
  destruct (purge_job_ends sample_env "w1" 1 7000000 8000000 (KPending sample_queue)
    (newPurgeJob 6000000 "j1" (Some sample_params) BrowsePending) s sample_permuting) as (job & s' & H1 & _ & H4 & _).
  - intros i. vm_compute. split; discriminate.
  - vm_compute. split; discriminate.
  - vm_compute. split; discriminate.
  - exact Ha.
  - rewrite Em. vm_compute. lia.
  - exists s, job, s'. split; [exact Hs|]. split; [exact H1|].
    exact (proj2 (H4 (conj (λ i, conj eq_refl eq_refl) eq_refl))).
Defined.

Lemma accepted_purge_ends_witness :
  ∃ job s, work_turn sample_env "w1" 1 7000000 8000000 purge_request.2 = Some s ∧ job_over sample_queue job s.
Proof.
  destruct (accepted_purge_ends sample_env DefaultConfig "w1" 1 6000000 7000000 8000000 "j1" (Some sample_params)
    BrowsePending (KPending sample_queue) created_store purge_request.2 sample_queue_wf created_ok created_jobs eq_refl)
    as (job & s & H1 & _ & _ & H4).
  - vm_compute. reflexivity.
  - vm_compute. split; discriminate.
  - vm_compute. split; discriminate.
  - exact sample_permuting.
  - intros i. vm_compute. split; discriminate.
  - vm_compute. split; discriminate.
  - vm_compute. split; discriminate.
  - reflexivity.
  - vm_compute. reflexivity.
  - exact created_clean.
  - intros id Hid. vm_compute in Hid. by apply elem_of_nil in Hid.
  - vm_compute. lia.
  - split; [by intros i|reflexivity].
  - exact purge_request_ok.
  - exists job, s. split; [exact H1|exact H4].
Defined.

(** A worker whose context is cancelled before its first batch (the manager shuts
    down) leaves the job processing and the queue locked: it fails the job and
    releases the lock with the cancelled context, and stuck jobs are not recovered
    ([recovery_does_nothing]). *)
Definition cancelled_env : environment := {|
  env_defaults := DefaultConsumeOptions; env_uuid := "u1"; env_uuid' := "u2"; env_now := 7000000;
  env_order := λ l, l; env_clock := λ _, 8000000; env_done := λ _, true;
  env_wait := λ _, false; env_over := true; env_text := λ _, "failed" |}.

Theorem cancelled_purge_keeps_lock :
  let s := (acquire purge_request.2).2 in
  ∃ s', execute cancelled_env "w1" 1 7000000 8000000 "j1" s = Some s' ∧
    job_status s' "j1" = Some "1" ∧ lst s' ActivePurgeJobs = ["j1"] ∧
    op_state s' sample_queue = itoa StateLocked ∧ lock_field s' sample_queue ≠ "".
Proof.
  intros s. destruct (execute cancelled_env "w1" 1 7000000 8000000 "j1" s) as [s'|] eqn:E;
    [|vm_compute in E; discriminate E].
  exists s'. split; [done|].
  assert (s' = default s (execute cancelled_env "w1" 1 7000000 8000000 "j1" s)) as -> by by rewrite E.
  clear E. split_and!; try (vm_compute; reflexivity). vm_compute. discriminate.
Qed.

(** Stuck jobs are not recovered.  The active jobs are a list, and the
    recovery reads them as a set: while there are any, Redis refuses and
    nothing is recovered, so a job whose worker died stays processing and its
    queue stays locked. *)
Theorem recovery_does_nothing now s : wt s → recoverStuckJobs now s = s.
Proof.
  intros Hw. pose proof (Hw KActivePurgeJobs ltac:(wf_parts)) as Ht. cbn [key_type has_type render_key] in Ht.
  unfold recoverStuckJobs, cmd_smembers, with_view.
  destruct (db s !! ActivePurgeJobs) as [[| | | |]|]; cbn in Ht |- *; try done; by destruct Ht.
Qed.

Lemma recovery_does_nothing_witness :
  lst purging_run ActivePurgeJobs = ["j1"] ∧ IsWorkerAlive "j1" purging_run = false ∧
  recoverStuckJobs 9000000 purging_run = purging_run.
Proof.
  split; [vm_compute; reflexivity|]. split; [vm_compute; reflexivity|].
  apply (recovery_does_nothing 9000000 purging_run). exact (proj1 purging_run_ok).
Defined.

(** Cancelling.  A job that is waiting or being worked on and holds its
    queue is cancelled by one call: the stored job is the cancelled one, it is
    in neither list, and the queue is active and unlocked. *)
Theorem cancel_correct now qp jobID job s :
  wf_queue (keys_of qp) → jobs_ok s → jobID ≠ "" → in_int64 (UnixMilli now) →
  GetJob jobID s = inr job → locked_by (keys_of qp) s LockOwnerPurgeJob jobID →
  pj_Status job = PurgeJobPending ∨ pj_Status job = PurgeJobProcessing →
  ∃ s', Cancel now qp jobID s = (inr tt, s') ∧
    job_over (keys_of qp) (set_CompletedAt (UnixMilli now) (set_Status PurgeJobCanceled job)) s'.
Proof.
  intros Hq Hj Hne Hn Hg Hl Hnt. pose proof (proj1 Hj) as Hw.
  destruct (GetJob_inv s _ _ Hj Hg) as (Hd & Ei & Hks & Hst).
  destruct (tb_text _ _ _ (proj2 Hj) _ _ Hd) as (Hc & _).
  destruct (job_read s _ _ Hj Hd) as (j' & Hg' & _ & _ & Hr & _). rewrite Hg in Hg'. injection Hg' as <-.
  set (jc := set_CompletedAt (UnixMilli now) (set_Status PurgeJobCanceled job)).
  assert (job_written jc PurgeJobCanceled) as Hjw.
  { split; [done|]. split; [|by rewrite <-Ei in Hc]. destruct Hr. split; try done. }
  assert (pj_ID jc = jobID) as Eid by exact Ei.
  unfold Cancel. rewrite Hg. fold jc. pose proof (cancel_ok s Hj jc Hjw) as [Hj1 _].
  unfold CancelJob, runJobScript in *. revert Hj1. rewrite Eid. status_args.
  destruct (cancel_run jobID Hc s Hw (mustMarshal jc)) as (r & s1 & Hrun & Hr1 & He). rewrite Hrun. cbn [snd]. intros Hj1.
  assert (job_status s jobID = Some "0" ∨ job_status s jobID = Some "1") as Hacc.
  { rewrite Hst. by destruct Hnt as [-> | ->]; [left|right]. }
  assert (r = 1) as -> by by apply Hr1. rewrite decide_True by auto.
  eexists. split; [done|]. rewrite !decide_True in He by tauto. pose proof He as [Hw1 Hh1 _ _ _].
  rewrite <-Eid. apply unlock_ends; rewrite ?Eid; try done.
  - eapply same_rest_locked; [done|done|by eapply effect_same_rest|done].
  - unfold GetJob. rewrite hget_run by wt_view. cbn [fst]. rewrite Hh1, lookup_insert_eq.
    by rewrite job_roundtrip by apply Hjw.
  - unfold job_status. rewrite Hh1, lookup_insert_eq. cbn [mbind option_bind].
    rewrite find_status_job by apply Hjw. unfold terminal. auto.
Qed.

Lemma cancel_correct_witness :
  ∃ s, Cancel 9000000 (Some sample_params) "j1" purge_request.2 = (inr tt, s) ∧
    op_state s sample_queue = itoa StateActive ∧ lock_field s sample_queue = "".
Proof.
  pose proof purge_request_enqueued as Henq.
  destruct (cancel_correct 9000000 (Some sample_params) "j1" (newPurgeJob 6000000 "j1" (Some sample_params) BrowsePending)
    purge_request.2 sample_queue_wf (eq_jobs _ _ _ _ _ _ Henq)) as (s & H1 & H2).
  - discriminate.
  - vm_compute. split; discriminate.
  - exact (eq_job _ _ _ _ _ _ Henq).
  - exact (eq_lock _ _ _ _ _ _ Henq).
  - left. reflexivity.
  - exists s. split; [exact H1|]. split; [exact (jo_state _ _ _ H2)|exact (jo_lock _ _ _ H2)].
Defined.

(** C13: what a purge deletes.  When the category fits in one batch, and its
    messages are of the queue and of one consumer group and none is being
    processed, the purge deletes exactly them: the category is empty, their
    hashes are gone, the accounts of the queue are those without them, and the
    total is their number. *)
Theorem purge_one_batch env qp g k job s a :
  let q := queue_keys_of qp in
  wf_queue q → no_colon g = true → pl_Queue (pj_Payload job) = Some qp →
  category (pl_MessageType (pj_Payload job)) q = Some k → pj_ID job ≠ "" →
  permuting env → (∀ i, in_int64 (UnixMilli (env_clock env i))) →
  env_done env 0 = false → env_done env 1 = false → env_wait env 0 = false →
  at_work env q k job s → accounts_of q s a → small a →
  listed k s ≠ [] → NoDup (listed k s) → Z.of_nat (length (listed k s)) ≤ pj_BatchSize job →
  (∀ id, id ∈ listed k s → ∃ st, a !! id = Some st ∧ st ≠ StatusProcessing ∧ st ≠ StatusUnackDelaying) →
  (∀ id, id ∈ listed k s → ∃ e,
     GetMessage (env_defaults env) (env_uuid env) (env_uuid' env) (env_now env) s id = inr e ∧
     ID e = id ∧ destinationQueue e = Some qp ∧ consumerGroupID e = g) →
  ∃ job' s', purgeMessages env 2 job s = Some (inr (Z.of_nat (length (listed k s))), (job', s')) ∧
    listed k s' = [] ∧ accounts_of q s' (undeleted (listed k s) a) ∧
    ∀ id, id ∈ listed k s → db s' !! Message id = None.
Proof.
  intros q Hq Hg Hqp Hcat Hid Hord Hclk Hd0 Hd1 Hw0 Haw Ha Hsm Hne Hnd Hlen Hst Hmsg.
  destruct (category_key _ _ _ Hcat) as (Ek & Hm & Ht & Hparts).
  assert (wf_key k) as Hk by (unfold wf_key; rewrite Hparts; destruct Hq; by repeat constructor).
  set (ids := listed k s) in *.
  destruct (delete_batch env Hord qp g Hq Hg (pj_ID job) Hid s (aw_lock _ _ _ _ _ Haw) a Ha Hsm ids Hne Hnd Hst Hmsg)
    as (resp & s1 & Hdel & Hsucc & Ha1 & Hrm).
  pose proof (DeleteMessages_spares env ids (pj_ID job) s (proj1 (aw_jobs _ _ _ _ _ Haw)) Hord (aw_clean _ _ _ _ _ Haw)
                (aw_members _ _ _ _ _ Haw)) as Hsp. rewrite Hdel in Hsp. cbn [snd] in Hsp.
  pose proof (at_work_spares env q k Hq Hk Hm Ht job s s1 Haw Hsp) as Haw1.
  assert (0 < length ids)%nat as Hpos by (destruct ids; [done|cbn; lia]).
  destruct (trim_run k Hk Hm Ht (length ids) s1 (sp_wt _ _ Hsp) Hpos) as (s2 & Htrim & Hsp2 & _ & Hempty & Hother).
  pose proof (at_work_spares env q k Hq Hk Hm Ht job s1 s2 Haw1 Hsp2) as Haw2.
  assert (listed k s2 = []) as Em2.
  { apply Hempty. apply sublist_length. by apply (members_spares k Hk Hm Ht s s1). }
  destruct (batch_total a ids (Success (resp_Stats resp)) Hsm Hnd) as [Hrange Hn]; [|done|].
  { intros id Hin. destruct (Hst id Hin) as (st & ? & ? & _). eauto. }
  rewrite Hsucc in Hn, Hrange.
  pose proof (save_at_work env q k Hq Hk Hm Ht (env_clock env 0) (Z.of_nat (length ids)) job s2 Haw2 Hrange (Hclk 0%nat)) as Hsave.
  pose proof (save_same_rest (env_clock env 0) (set_Purged (Z.of_nat (length ids)) job) s2
                (proj1 (aw_jobs _ _ _ _ _ Haw2))) as Hrest.
  destruct (SaveJob (env_clock env 0) (set_Purged (Z.of_nat (length ids)) job) s2) as [job3 [r3 s3]] eqn:Es3.
  destruct Hsave as (Haw3 & Em3 & Hid3 & _). rewrite Em2 in Em3. cbn [snd] in Hrest.
  exists job3, s3. split_and!.
  - unfold purgeMessages. rewrite Hqp. fold q. change (keys_of (Some qp)) with q. rewrite Ek. cbn [purge_loop].
    unfold purge_turn at 1. rewrite Hd0, (not_canceled _ _ _ _ _ Haw), (fetch_run k Hk Ht) by apply Haw.
    fold ids. replace (pj_BatchSize job) with (Z.of_nat (Z.to_nat (pj_BatchSize job))) by lia.
    rewrite ltrim_all by lia. destruct ids as [|i0 l0] eqn:Eids; [done|]. rewrite <-Eids in *.
    rewrite Hdel. cbv zeta. rewrite Hsucc, Htrim, Hn, Es3, Hw0, andb_false_r.
    unfold purge_turn. rewrite Hd1, (not_canceled _ _ _ _ _ Haw3), (fetch_run k Hk Ht) by apply Haw3.
    rewrite Em3, ltrim_nil. done.
  - done.
  - eapply rest_accounts; [done|apply Haw3|exact Hrest|]. by eapply trim_accounts.
  - intros id Hin. destruct (Hst id Hin) as (st & Hs & Hp & _).
    assert (no_colon id = true) as Hc by (by apply (mo_status _ _ _ (proj1 Ha) id st)).
    destruct (rm_gone _ _ _ _ _ Hrm id Hc) as [Hgone _]; [by eexists| |].
    { apply map_lookup_filter_None. right. intros st' Hs'. cbn. rewrite Hs in Hs'. injection Hs' as <-. tauto. }
    pose proof (Hrest (KMessage id) ltac:(wf_parts) eq_refl) as E. cbn [render_key] in E. rewrite E.
    rewrite Hother; [done|]. apply (category_apart _ _ _ (KMessage id) Hcat Hq); [wf_parts|eauto 10].
Qed.

(** *** A queue with one message *)

Lemma fifo_created_accounts : accounts_of sample_queue fifo_created ∅.
Proof.
  pose proof sample_queue_wf as Hq. pose proof wt_empty as He. apply accounts_init; [|reflexivity..|].
  - unfold fifo_created. wt_solve.
  - intros f Hf. by destruct f.
Qed.

Lemma one_message_accounts : accounts_of sample_queue one_message {["m1" := StatusPending]}.
Proof.
  destruct (accepted_step sample_queue "" (pending_envelope "m1") [] fifo_created one_message ∅) as (_ & H & _).
  - apply fifo_created_accounts.
  - exact sample_queue_wf.
  - split; [apply (bool_decide_unpack _); vm_compute; exact I| |vm_compute; reflexivity].
    intros e He. apply list_elem_of_singleton in He as ->.
    split; [by apply sample_publishable|split; [discriminate|split_and!; reflexivity]].
  - apply (after_publish_ok _ fifo_created). vm_compute. reflexivity.
  - exact H.
Qed.

Lemma one_message_state : state_ok sample_queue one_message.
Proof.
  split; [apply one_message_accounts|]. exists (newInitialTransition 5000000 StateActive), [].
  split_and!; try (vm_compute; reflexivity).
  - vm_compute. lia.
  - intros E. vm_compute in E. discriminate E.
Qed.

Lemma one_message_jobs : jobs_ok one_message.
Proof.
  split; [apply one_message_accounts|]. assert (hsh one_message PurgeJobs = ∅) as -> by (vm_compute; reflexivity).
  assert (lst one_message PendingPurgeJobs = []) as -> by (vm_compute; reflexivity).
  assert (lst one_message ActivePurgeJobs = []) as -> by (vm_compute; reflexivity).
  apply no_jobs_ok.
Qed.

(** Whether a stored value decodes to a clean message, as a test. *)
Definition clean_value (env : environment) (v : value) : bool :=
  match as_hash (Some v) with
  | None => true
  | Some h =>
      match DecodeEnvelope (env_defaults env) (env_uuid env) (env_uuid' env) (env_now env) h with
      | None => true
      | Some e => no_colon (ID e) && no_colon (consumerGroupID e) &&
                  match destinationQueue e with
                  | None => true
                  | Some q => bool_decide (wf_queue (queue_keys_of q))
                  end
      end
  end.

Lemma clean_check env s : forallb (λ kv, clean_value env kv.2) (map_to_list (db s)) = true → clean_messages env s.
Proof.
  intros H id e _ Hg. rewrite forallb_forall in H. unfold GetMessage, cmd_hgetall, with_view in Hg.
  destruct (db s !! Message id) as [v|] eqn:E.
  2: { cbn in Hg. by rewrite decide_True in Hg. }
  specialize (H (Message id, v)). rewrite <-list_elem_of_In, elem_of_map_to_list in H. specialize (H E).
  unfold clean_value in H. cbn [snd] in H. destruct (as_hash (Some v)) as [h|]; [|discriminate Hg].
  cbn [mret M_ret] in Hg. destruct (decide (h = ∅)); [discriminate Hg|].
  destruct (DecodeEnvelope _ _ _ _ h) as [e'|]; [|discriminate Hg]. injection Hg as ->.
  apply andb_true_iff in H as [[H1 H2]%andb_true_iff H3]. split_and!; [done..|]. intros q Hq. rewrite Hq in H3.
  by apply bool_decide_eq_true in H3.
Qed.

Definition one_job : PurgeJob := newPurgeJob 6000000 "j1" (Some sample_params) BrowsePending.
Definition one_started_job : PurgeJob :=
  set_StartedAt (UnixMilli 7000000) (set_Status PurgeJobProcessing one_job).
Definition one_request : (purge_error + string) * store :=
  Enqueue sample_env DefaultConfig 6000000 "j1" (Some sample_params) BrowsePending one_message.
Definition one_started : store :=
  (Start "j1" "w1" one_started_job (acquire one_request.2).2).2.

Lemma sample_pending_wf : wf_key (KPending sample_queue).
Proof. pose proof sample_queue_wf as Hq. wf_parts. Qed.
Lemma sample_time : in_int64 (UnixMilli 7000000).
Proof. vm_compute. split; discriminate. Qed.

Lemma one_started_at_work : at_work sample_env sample_queue (KPending sample_queue) one_started_job one_started.
Proof.
  assert (in_int64 (UnixMilli 6000000)) as Hn by (vm_compute; split; discriminate).
  assert (in_int64 BrowsePending) as Hf by (vm_compute; split; discriminate).
  assert (hsh one_message PurgeJobs !! "j1" = None) as Hfresh by (vm_compute; reflexivity).
  assert (one_request.1 = inr "j1") as E1 by (vm_compute; reflexivity).
  destruct (enqueue_cases sample_env DefaultConfig 6000000 "j1" (Some sample_params) BrowsePending one_message
    sample_queue_wf one_message_state one_message_jobs eq_refl Hfresh Hn Hf) as [[e He]|(s' & He & Henq)];
    fold one_request in He; [rewrite He in E1; discriminate E1|].
  destruct (enqueued_acquired sample_env 6000000 "j1" (Some sample_params) BrowsePending one_message sample_queue_wf
    one_message_state one_message_jobs eq_refl Hfresh Hn Hf (KPending sample_queue) s' Henq) as (s & Hs & Ha & _).
  - vm_compute. reflexivity.
  - reflexivity.
  - apply clean_check. vm_compute. reflexivity.
  - intros id Hid. vm_compute in Hid. apply list_elem_of_singleton in Hid as ->. reflexivity.
  - assert ((acquire one_request.2).2 = s) as Es.
    { rewrite (f_equal snd He : one_request.2 = s'), Hs. reflexivity. }
    destruct (start_at_work sample_env (KPending sample_queue) one_job "w1" 7000000 s Ha sample_pending_wf eq_refl
                (or_introl eq_refl) sample_time) as (s1 & Hs1 & Haw & _).
    assert (one_started = s1) as E by (unfold one_started; rewrite Es; exact (f_equal snd Hs1)).
    rewrite E. exact Haw.
Qed.

Lemma one_started_accounts : accounts_of sample_queue one_started {["m1" := StatusPending]}.
Proof.
  pose proof (proj1 (aw_jobs _ _ _ _ _ one_started_at_work)) as Hw. split; [split|].
  - exact Hw.
  - assert (lst one_started (Published sample_queue) = ["m1"]) as -> by (vm_compute; reflexivity). reflexivity.
  - intros id st Hid. apply lookup_singleton_Some in Hid as [<- <-]. split_and!; [reflexivity|discriminate|].
    vm_compute. reflexivity.
  - assert (lst one_started (Requeued sample_queue) = []) as E1 by (vm_compute; reflexivity).
    assert (zst one_started (Delayed sample_queue) = []) as E2 by (vm_compute; reflexivity).
    assert (zst one_started (Scheduled sample_queue) = []) as E3 by (vm_compute; reflexivity).
    clear Hw. split; [rewrite E1; apply NoDup_nil_2|rewrite E1|rewrite E2|rewrite E3];
      intros id Hid; apply elem_of_nil in Hid; contradiction.
  - intros f Hf. destruct f; try discriminate Hf; vm_compute; reflexivity.
Qed.

Lemma purge_one_batch_witness :
  ∃ job s, purgeMessages sample_env 2 one_started_job one_started = Some (inr 1, (job, s)) ∧
    lst s (Pending sample_queue) = [] ∧ db s !! Message "m1" = None.
Proof.
  assert (listed (KPending sample_queue) one_started = ["m1"]) as Em by (vm_compute; reflexivity).
  destruct (purge_one_batch sample_env sample_params "" (KPending sample_queue) one_started_job one_started
    {["m1" := StatusPending]} sample_queue_wf eq_refl eq_refl eq_refl) as (job & s & H1 & H2 & _ & H4).
  - discriminate.
  - exact sample_permuting.
  - intros i. vm_compute. split; discriminate.
  - reflexivity.
  - reflexivity.
  - reflexivity.
  - exact one_started_at_work.
  - exact one_started_accounts.
  - vm_compute. reflexivity.
  - rewrite Em. discriminate.
  - rewrite Em. apply NoDup_singleton.
  - rewrite Em. vm_compute. discriminate.
  - rewrite Em. intros id Hid. apply list_elem_of_singleton in Hid as ->. exists StatusPending.
    split; [reflexivity|]. split; discriminate.
  - rewrite Em. intros id Hid. apply list_elem_of_singleton in Hid as ->. eexists.
    split; [vm_compute; reflexivity|]. split_and!; reflexivity.
  - exists job, s. rewrite Em in H1, H4. split; [exact H1|]. split; [exact H2|].
    apply H4. apply list_elem_of_singleton. reflexivity.
Defined.
