(* ===== verification/Configuration.v ===== *)
(** * Configuration

    internal/config/manager.go and codec.go, and the script
    core/save-config.lua.  The configuration is one hash in Redis, with a
    version that each save increments; every process keeps a copy, its
    manager's instance, and follows the others by events.

    Go passes configurations by pointer: a manager returns its instance, which
    callers modify and hand back to be saved.  A process is therefore modelled
    with its memory, [mem], and the instance is an address in it. *)

From S2P Require Import Prelude Keys Redis RedisFacts Types Keyspace Json Message MessageCodec.
#[local] Open Scope Z_scope.

(** ** JSON (pkg/config/types.go); the version is not part of it *)

Definition as_bool (j : json) : option bool := match j with JBool b => Some b | _ => None end.

Definition audit_messages_json (c : AuditMessagesConfig) : json := JObj [
  ("enabled", JBool (am_Enabled c)); ("queueSize", JNum (am_QueueSize c)); ("expire", JNum (am_Expire c))].
Definition audit_history_json (c : AuditHistoryConfig) : json := JObj [
  ("enabled", JBool (ah_Enabled c)); ("maxSize", JNum (ah_MaxSize c))].
Definition audit_json (c : MessageAudit) : json := JObj [
  ("acknowledgedMessages", audit_messages_json (AcknowledgedMessages c));
  ("deadLetteredMessages", audit_messages_json (DeadLetteredMessages c));
  ("unacknowledgementHistory", audit_history_json (UnacknowledgementHistory c))].
Definition logger_options_json (c : LoggerOptionsConfig) : json := JObj [
  ("includeTimestamp", JBool (IncludeTimestamp c)); ("colorize", JBool (Colorize c));
  ("logLevel", JNum (LogLevel c))].
Definition logger_json (c : LoggerConfig) : json := JObj [
  ("enabled", JBool (lg_Enabled c)); ("options", logger_options_json (lg_Options c))].
Definition config_json (c : ConfigRec) : json := JObj [
  ("namespace", JStr (cfg_Namespace c)); ("logger", logger_json (cfg_Logger c));
  ("messageAudit", audit_json (cfg_MessageAudit c))].

(** The zero values of the types, for absent and null fields. *)
Definition zero_messages : AuditMessagesConfig := {| am_Enabled := false; am_QueueSize := 0; am_Expire := 0 |}.
Definition zero_history : AuditHistoryConfig := {| ah_Enabled := false; ah_MaxSize := 0 |}.
Definition zero_audit : MessageAudit := {|
  AcknowledgedMessages := zero_messages; DeadLetteredMessages := zero_messages;
  UnacknowledgementHistory := zero_history |}.
Definition zero_options : LoggerOptionsConfig := {| IncludeTimestamp := false; Colorize := false; LogLevel := 0 |}.
Definition zero_logger : LoggerConfig := {| lg_Enabled := false; lg_Options := zero_options |}.
Definition zero_config : ConfigRec := {|
  cfg_Version := 0; cfg_Namespace := ""; cfg_Logger := zero_logger; cfg_MessageAudit := zero_audit |}.

Definition as_messages (j : json) : option AuditMessagesConfig :=
  match j with
  | JObj l =>
      e ← get_or false as_bool "enabled" l; n ← get_or 0 as_int "queueSize" l; x ← get_or 0 as_int "expire" l;
      Some {| am_Enabled := e; am_QueueSize := n; am_Expire := x |}
  | _ => None
  end.
Definition as_history (j : json) : option AuditHistoryConfig :=
  match j with
  | JObj l =>
      e ← get_or false as_bool "enabled" l; n ← get_or 0 as_int "maxSize" l;
      Some {| ah_Enabled := e; ah_MaxSize := n |}
  | _ => None
  end.
Definition as_audit (j : json) : option MessageAudit :=
  match j with
  | JObj l =>
      a ← get_or zero_messages as_messages "acknowledgedMessages" l;
      d ← get_or zero_messages as_messages "deadLetteredMessages" l;
      u ← get_or zero_history as_history "unacknowledgementHistory" l;
      Some {| AcknowledgedMessages := a; DeadLetteredMessages := d; UnacknowledgementHistory := u |}
  | _ => None
  end.
Definition as_options (j : json) : option LoggerOptionsConfig :=
  match j with
  | JObj l =>
      t ← get_or false as_bool "includeTimestamp" l; c ← get_or false as_bool "colorize" l;
      n ← get_or 0 as_int "logLevel" l;
      Some {| IncludeTimestamp := t; Colorize := c; LogLevel := n |}
  | _ => None
  end.
Definition as_logger (j : json) : option LoggerConfig :=
  match j with
  | JObj l =>
      e ← get_or false as_bool "enabled" l; o ← get_or zero_options as_options "options" l;
      Some {| lg_Enabled := e; lg_Options := o |}
  | _ => None
  end.
Definition config_of_json (j : json) : option ConfigRec :=
  match j with
  | JNull => Some zero_config
  | JObj l =>
      n ← get_or "" as_text "namespace" l;
      lg ← get_or zero_logger as_logger "logger" l;
      a ← get_or zero_audit as_audit "messageAudit" l;
      Some {| cfg_Version := 0; cfg_Namespace := n; cfg_Logger := lg; cfg_MessageAudit := a |}
  | _ => None
  end.

Definition marshal_config (c : ConfigRec) : string := print (config_json c).
Definition unmarshal_config (data : string) : option ConfigRec := parse_json data ≫= config_of_json.

Definition set_Version (v : Z) (c : ConfigRec) : ConfigRec := {|
  cfg_Version := v; cfg_Namespace := cfg_Namespace c; cfg_Logger := cfg_Logger c;
  cfg_MessageAudit := cfg_MessageAudit c |}.

(** ** internal/config/codec.go *)

Definition FieldVersion : string := "version".
Definition FieldData : string := "data".
Definition FieldEpoch : string := "epoch".

Definition Encode (c : ConfigRec) : gmap string string :=
  <[FieldVersion := itoa (cfg_Version c)]> (<[FieldData := marshal_config c]> ∅).

Definition Decode (hash : gmap string string) : option ConfigRec :=
  if decide (hash = ∅) then None
  else match hash !! FieldData with
  | None => None
  | Some data =>
      if decide (data = "") then None
      else
        cfg ← unmarshal_config data;
        match hash !! FieldVersion with
        | None => Some cfg
        | Some v => match ParseInt v with (n, None) => Some (set_Version n cfg) | _ => None end
        end
  end.

(** ** core/save-config.lua *)

(** [tonumber], on the decimal integers that are stored. *)
Definition tonumber (s : string) : option Z := match ParseInt s with (n, None) => Some n | _ => None end.

Definition save_config (keys args : list string) : M (string + Z) :=
  let keyConfiguration := arg keys 1 in
  let versionField := arg args 1 in
  let dataField := arg args 2 in
  let expectedVersion := tonumber (arg args 3) in
  let data := arg args 4 in
  currentVersion ← cmd_hget keyConfiguration versionField;
  match currentVersion with
  | None =>
      _ ← cmd_hset keyConfiguration [(versionField, itoa 1)];
      _ ← cmd_hset keyConfiguration [(dataField, data)];
      mret (inr 1)
  | Some currentVersion =>
      if decide (tonumber currentVersion ≠ expectedVersion) then mret (inl "VERSION_MISMATCH")
      else
        _ ← cmd_hset keyConfiguration [(dataField, data)];
        newVersion ← cmd_hincrby keyConfiguration versionField 1;
        mret (inr newVersion)
  end.

(** ** internal/config/manager.go *)

Inductive config_error :=
| CfgNotInitialized | CfgVersionMismatch | CfgUnexpectedReply (reply : string) | CfgRedis (e : rerr).

(** The manager of a process, with the memory its configurations are in.  The
    snapshot is what pkg/config.Get returns. *)
Record manager := Manager {
  mem : gmap nat ConfigRec;
  next : nat;
  instance : option nat;
  snapshot : nat;
  epoch : string
}.

(** A process that has just started. *)
Definition NewManager : manager :=
  Manager {[0%nat := DefaultConfig]} 1 None 0 "".

(** An update event; the configuration travels as its JSON.  The receiver reads
    the numbers through floating point on the way, which is exact below 2^53. *)
Record UpdatedPayload := { up_Config : string; up_Version : Z; up_Epoch : string }.

Definition alloc (c : ConfigRec) (m : manager) : nat * manager :=
  (next m, Manager (<[next m := c]> (mem m)) (S (next m)) (instance m) (snapshot m) (epoch m)).

Definition set_epoch (e : string) (m : manager) : manager :=
  Manager (mem m) (next m) (instance m) (snapshot m) e.

(** Sets the version in place; the address becomes the instance and the public
    snapshot. *)
Definition setCurrentConfigLocked (c : nat) (version : Z) (m : manager) : manager :=
  Manager (alter (set_Version version) c (mem m)) (next m) (Some c) c (epoch m).

Definition saveLocked (c : ConfigRec) (currentVersion : Z) (s : store) : (config_error + Z) * store :=
  match save_config [Config] [FieldVersion; FieldData; itoa currentVersion; marshal_config c] s with
  | (Err e, s') => (inl (CfgRedis e), s')
  | (Ret (inl reply), s') =>
      (inl (if decide (reply = "VERSION_MISMATCH") then CfgVersionMismatch else CfgUnexpectedReply reply), s')
  | (Ret (inr version), s') => (inr version, s')
  end.

(** The epoch is written outside the script. *)
Definition write_epoch (e : string) : M unit := cmd_hset Config [(FieldEpoch, e)].

(** [uuid] is the identifier generated if one is needed. *)
Definition persistLocked (uuid : string) (c : ConfigRec) (expectedVersion : Z) (m : manager) (s : store)
    : (config_error + Z) * (manager * store) :=
  let m := if decide (epoch m = "") then set_epoch uuid m else m in
  match saveLocked c expectedVersion s with
  | (inl e, s1) => (inl e, (m, s1))
  | (inr version, s1) =>
      match write_epoch (epoch m) s1 with
      | (Err e, s2) => (inl (CfgRedis e), (m, s2))
      | (Ret _, s2) => (inr version, (m, s2))
      end
  end.

Definition createDefaultsLocked (uuid : string) (m : manager) (s : store) : (config_error + unit) * (manager * store) :=
  let m := set_epoch uuid m in
  let '(defaults, m) := alloc DefaultConfig m in
  match persistLocked uuid DefaultConfig 0 m s with
  | (inl e, ms) => (inl e, ms)
  | (inr version, (m, s)) => (inr tt, (setCurrentConfigLocked defaults version m, s))
  end.

(** [read] is the reply of HGETALL, which may be out of date by the time the
    rest runs. *)
Definition loadOrCreateLocked (uuid : string) (read : outcome (gmap string string)) (m : manager) (s : store)
    : (config_error + unit) * (manager * store) :=
  match (match read with Ret hash => c ← Decode hash; Some (hash, c) | Err _ => None end) with
  | Some (hash, c) =>
      let e := default "" (hash !! FieldEpoch) in
      let finish m s := let '(a, m) := alloc c m in (inr tt, (setCurrentConfigLocked a (cfg_Version c) m, s)) in
      if decide (e = "") then
        let m := set_epoch uuid m in
        match write_epoch (epoch m) s with
        | (Err err, s1) => (inl (CfgRedis err), (m, s1))
        | (Ret _, s1) => finish m s1
        end
      else finish (set_epoch e m) s
  | None => createDefaultsLocked uuid m s
  end.

Definition read_config (s : store) : outcome (gmap string string) := (cmd_hgetall Config s).1.

(** The subscription to updates that [Init] makes is [onUpdated] below. *)
Definition Init (uuid : string) (read : outcome (gmap string string)) (m : manager) (s : store)
    : (config_error + unit) * (manager * store) :=
  match instance m with Some _ => (inr tt, (m, s)) | None => loadOrCreateLocked uuid read m s end.

(** [Get] panics before [Init]. *)
Definition GetConfig (m : manager) : option nat := instance m.

Definition version_of (m : manager) (c : nat) : Z := default 0 (cfg_Version <$> mem m !! c).

(** The saved configuration is the caller's object; [None] in the events:
    nothing is published. *)
Definition persistAndPublishLocked (uuid : string) (i c : nat) (m : manager) (s : store)
    : (config_error + Z) * (manager * store * option UpdatedPayload) :=
  let cfg := default zero_config (mem m !! c) in
  match persistLocked uuid cfg (version_of m i) m s with
  | (inl e, (m, s)) => (inl e, (m, s, None))
  | (inr version, (m, s)) =>
      let m := setCurrentConfigLocked c version m in
      (inr version, (m, s, Some {| up_Config := marshal_config (default zero_config (mem m !! c));
                                   up_Version := version; up_Epoch := epoch m |}))
  end.

Definition SaveConfig (uuid : string) (c : nat) (m : manager) (s : store)
    : (config_error + Z) * (manager * store * option UpdatedPayload) :=
  match instance m with
  | None => (inl CfgNotInitialized, (m, s, None))
  | Some i => persistAndPublishLocked uuid i c m s
  end.

Definition ResetConfig (uuid : string) (m : manager) (s : store)
    : (config_error + Z) * (manager * store * option UpdatedPayload) :=
  match instance m with
  | None => (inl CfgNotInitialized, (m, s, None))
  | Some i => let '(c, m) := alloc DefaultConfig m in persistAndPublishLocked uuid i c m s
  end.

Definition ReloadConfig (uuid : string) (read : outcome (gmap string string)) (m : manager) (s : store)
    : (config_error + unit) * (manager * store) :=
  match instance m with
  | None => (inl CfgNotInitialized, (m, s))
  | Some _ => loadOrCreateLocked uuid read m s
  end.

Definition CloseConfig (m : manager) : manager :=
  Manager (mem m) (next m) None (snapshot m) (epoch m).

(** The handler of update events; true asks for a reload. *)
Definition onUpdated (p : UpdatedPayload) (m : manager) : manager * bool :=
  match unmarshal_config (up_Config p) with
  | None => (m, false)
  | Some c =>
      match instance m with
      | None => (m, false)
      | Some i =>
          if decide (up_Epoch p ≠ epoch m) then (m, true)
          else if decide (version_of m i < up_Version p) then
            let '(a, m) := alloc c m in (setCurrentConfigLocked a (up_Version p) m, false)
          else (m, false)
      end
  end.

(** ** Round trip of the JSON *)

(** Every integer of the configuration is of the machine type. *)
Record config_in_range (c : ConfigRec) : Prop := {
  cr_level : in_int64 (LogLevel (lg_Options (cfg_Logger c)));
  cr_ack_size : in_int64 (am_QueueSize (AcknowledgedMessages (cfg_MessageAudit c)));
  cr_ack_expire : in_int64 (am_Expire (AcknowledgedMessages (cfg_MessageAudit c)));
  cr_dead_size : in_int64 (am_QueueSize (DeadLetteredMessages (cfg_MessageAudit c)));
  cr_dead_expire : in_int64 (am_Expire (DeadLetteredMessages (cfg_MessageAudit c)));
  cr_history : in_int64 (ah_MaxSize (UnacknowledgementHistory (cfg_MessageAudit c)))
}.

#[export] Instance config_in_range_dec c : Decision (config_in_range c).
Proof.
  refine (cast_if_and6
    (decide (in_int64 (LogLevel (lg_Options (cfg_Logger c)))))
    (decide (in_int64 (am_QueueSize (AcknowledgedMessages (cfg_MessageAudit c)))))
    (decide (in_int64 (am_Expire (AcknowledgedMessages (cfg_MessageAudit c)))))
    (decide (in_int64 (am_QueueSize (DeadLetteredMessages (cfg_MessageAudit c)))))
    (decide (in_int64 (am_Expire (DeadLetteredMessages (cfg_MessageAudit c)))))
    (decide (in_int64 (ah_MaxSize (UnacknowledgementHistory (cfg_MessageAudit c)))))); by (constructor || intros []).
Defined.

Lemma get_int k l z : jfield k l = Some (JNum z) → in_int64 z → get_or 0 as_int k l = Some z.
Proof. intros Hj Hz. by eapply get_or_eq; [exact Hj|apply as_int_num|]. Qed.

Lemma get_bool k l b : jfield k l = Some (JBool b) → get_or false as_bool k l = Some b.
Proof. intros Hj. by eapply get_or_eq; [exact Hj| |]. Qed.

Lemma messages_roundtrip c :
  in_int64 (am_QueueSize c) → in_int64 (am_Expire c) → as_messages (audit_messages_json c) = Some c.
Proof.
  destruct c as [e n x]. cbn. intros Hn Hx. unfold as_messages, audit_messages_json.
  rewrite (get_bool "enabled" _ e), (get_int "queueSize" _ n), (get_int "expire" _ x) by (jfields || done). done.
Qed.

Lemma history_roundtrip c : in_int64 (ah_MaxSize c) → as_history (audit_history_json c) = Some c.
Proof.
  destruct c as [e n]. cbn. intros Hn. unfold as_history, audit_history_json.
  by rewrite (get_bool "enabled" _ e), (get_int "maxSize" _ n) by (jfields || done).
Qed.

Lemma options_roundtrip c : in_int64 (LogLevel c) → as_options (logger_options_json c) = Some c.
Proof.
  destruct c as [t b n]. cbn. intros Hn. unfold as_options, logger_options_json.
  by rewrite (get_bool "includeTimestamp" _ t), (get_bool "colorize" _ b), (get_int "logLevel" _ n)
    by (jfields || done).
Qed.

Lemma logger_roundtrip c : in_int64 (LogLevel (lg_Options c)) → as_logger (logger_json c) = Some c.
Proof.
  destruct c as [e o]. cbn. intros Hn. unfold as_logger, logger_json.
  rewrite (get_bool "enabled" _ e) by jfields. cbn [mbind option_bind].
  by rewrite (get_or_eq _ as_options (logger_options_json o) o "options")
    by (jfields || (by apply options_roundtrip) || done).
Qed.

Lemma audit_roundtrip a d h :
  as_messages (audit_messages_json a) = Some a → as_messages (audit_messages_json d) = Some d →
  as_history (audit_history_json h) = Some h →
  as_audit (audit_json {| AcknowledgedMessages := a; DeadLetteredMessages := d; UnacknowledgementHistory := h |})
    = Some {| AcknowledgedMessages := a; DeadLetteredMessages := d; UnacknowledgementHistory := h |}.
Proof.
  intros Ha Hd Hh. unfold as_audit, audit_json.
  cbn [AcknowledgedMessages DeadLetteredMessages UnacknowledgementHistory].
  rewrite (get_or_eq _ as_messages (audit_messages_json a) a "acknowledgedMessages") by (jfields || done).
  cbn [mbind option_bind].
  rewrite (get_or_eq _ as_messages (audit_messages_json d) d "deadLetteredMessages") by (jfields || done).
  cbn [mbind option_bind].
  by rewrite (get_or_eq _ as_history (audit_history_json h) h "unacknowledgementHistory") by (jfields || done).
Qed.

(** The JSON reads back as the configuration, without its version. *)
Lemma config_json_roundtrip c : config_in_range c → unmarshal_config (marshal_config c) = Some (set_Version 0 c).
Proof.
  intros [Hl Has Hae Hds Hde Hh]. unfold unmarshal_config, marshal_config. rewrite parse_print.
  cbn [mbind option_bind]. destruct c as [v n lg [a d h]]. cbn in *. unfold config_of_json, config_json.
  cbn [cfg_Namespace cfg_Logger cfg_MessageAudit].
  rewrite (get_or_eq "" as_text (JStr n) n "namespace") by (jfields || done). cbn [mbind option_bind].
  rewrite (get_or_eq _ as_logger (logger_json lg) lg "logger")
    by (jfields || (by apply logger_roundtrip) || done). cbn [mbind option_bind].
  rewrite (get_or_eq _ as_audit (audit_json (Build_MessageAudit a d h)) (Build_MessageAudit a d h) "messageAudit");
    [done|jfields| |done].
  apply audit_roundtrip; [by apply messages_roundtrip|by apply messages_roundtrip|by apply history_roundtrip].
Qed.

Lemma marshal_nonempty c : marshal_config c ≠ "".
Proof. by unfold marshal_config, config_json. Qed.

Lemma marshal_version v c : marshal_config (set_Version v c) = marshal_config c.
Proof. done. Qed.

Lemma set_Version_twice v w c : set_Version v (set_Version w c) = set_Version v c.
Proof. done. Qed.

Lemma set_Version_id c : set_Version (cfg_Version c) c = c.
Proof. by destruct c. Qed.

Lemma range_version v c : config_in_range c → config_in_range (set_Version v c).
Proof. by intros []. Qed.

(** ** What is stored *)

#[local] Abbreviation stored s := (hsh s Config).

(** The configuration becomes [h], and no other key changes. *)
Record config_effect (h : gmap string string) (s s' : store) : Prop := {
  ce_hash : is_hash s' Config;
  ce_stored : stored s' = h;
  ce_other : ∀ k, k ≠ Config → db s' !! k = db s !! k
}.

Lemma config_effect_upd h s : config_effect h s (upd Config (hash_val h) s).
Proof. constructor; [apply is_hash_upd|apply hsh_upd|]. intros k Hk. by apply lookup_upd_ne. Qed.

Lemma config_effect_trans h h' s s' s'' : config_effect h s s' → config_effect h' s' s'' → config_effect h' s s''.
Proof. intros [_ _ H1] [? ? H2]. constructor; [done|done|]. intros k Hk. by rewrite H2, H1. Qed.

Lemma tonumber_itoa z : in_int64 z → tonumber (itoa z) = Some z.
Proof. intros H. unfold tonumber. by rewrite ParseInt_itoa. Qed.

(** The version Redis holds, 0 when there is none. *)
Definition stored_version (s : store) : Z := default 0 (stored s !! FieldVersion ≫= tonumber).

Definition saved (v : Z) (c : ConfigRec) (h : gmap string string) : gmap string string :=
  <[FieldVersion := itoa v]> (<[FieldData := marshal_config c]> h).

Lemma saved_version v c h : saved v c h !! FieldVersion = Some (itoa v).
Proof. apply lookup_insert_eq. Qed.
Lemma saved_data v c h : saved v c h !! FieldData = Some (marshal_config c).
Proof. unfold saved. rewrite lookup_insert_ne by done. apply lookup_insert_eq. Qed.

(** The first save. *)
Lemma saveLocked_first c v s :
  is_hash s Config → stored s !! FieldVersion = None →
  ∃ s', saveLocked c v s = (inr 1, s') ∧ config_effect (saved 1 c (stored s)) s s'.
Proof.
  intros Hh Hv. unfold saveLocked, save_config. cbn [arg Nat.sub nth].
  erewrite bind_Ret; [|by apply hget_run]. rewrite Hv.
  erewrite bind_Ret; [|by apply hset_run]. erewrite bind_Ret; [|apply hset_run, is_hash_upd].
  eexists. split; [reflexivity|]. rewrite hsh_upd. cbn [hset_all foldl fst snd].
  unfold saved. rewrite insert_insert_ne by done.
  eapply config_effect_trans; apply config_effect_upd.
Qed.

(** A save over version [n]. *)
Lemma saveLocked_next c n s :
  is_hash s Config → stored s !! FieldVersion = Some (itoa n) → in_int64 n → n < int64_max →
  ∃ s', saveLocked c n s = (inr (n + 1), s') ∧ config_effect (saved (n + 1) c (stored s)) s s'.
Proof.
  intros Hh Hv Hn Hlt. unfold saveLocked, save_config. cbn [arg Nat.sub nth].
  erewrite bind_Ret; [|by apply hget_run]. rewrite Hv, tonumber_itoa by done.
  rewrite decide_False by naive_solver.
  erewrite bind_Ret; [|by apply hset_run].
  assert (in_int64 (n + 1)) as Hn1 by (unfold in_int64, int64_min, int64_max in *; lia).
  erewrite bind_Ret; [|apply (hincrby_run _ _ _ (n + 1)); [apply is_hash_upd|]].
  - eexists. split; [reflexivity|]. rewrite hsh_upd. eapply config_effect_trans; apply config_effect_upd.
  - rewrite hsh_upd. cbn [hset_all foldl fst snd]. unfold hincr. rewrite lookup_insert_ne, Hv by done.
    cbn [default id from_option]. rewrite string2ll_itoa by done. by rewrite decide_True.
Qed.

(** A save over another version. *)
Lemma saveLocked_refused c v n s :
  is_hash s Config → stored s !! FieldVersion = Some (itoa n) → in_int64 n → in_int64 v → v ≠ n →
  saveLocked c v s = (inl CfgVersionMismatch, s).
Proof.
  intros Hh Hv Hn Hvr Hne. unfold saveLocked, save_config. cbn [arg Nat.sub nth].
  erewrite bind_Ret; [|by apply hget_run]. rewrite Hv, !tonumber_itoa by done.
  by rewrite decide_True by congruence.
Qed.

(** With the epoch. *)
Lemma persistLocked_run uuid c v n m s s1 h :
  saveLocked c v s = (inr n, s1) → config_effect h s s1 →
  let m1 := if decide (epoch m = "") then set_epoch uuid m else m in
  ∃ s2, persistLocked uuid c v m s = (inr n, (m1, s2)) ∧ config_effect (<[FieldEpoch := epoch m1]> h) s s2.
Proof.
  intros Hs He m1. unfold persistLocked, write_epoch. fold m1. rewrite Hs. rewrite hset_run by apply He.
  eexists. split; [reflexivity|]. eapply config_effect_trans; [exact He|].
  rewrite (ce_stored _ _ _ He). apply config_effect_upd.
Qed.

Lemma persistLocked_refused uuid c v m s e :
  saveLocked c v s = (inl e, s) →
  persistLocked uuid c v m s = (inl e, (if decide (epoch m = "") then set_epoch uuid m else m, s)).
Proof. intros Hs. unfold persistLocked. by rewrite Hs. Qed.

(** ** Many processes

    Processes save, reset, reload and follow the events of the others in any
    order.  [Get] returns the instance itself: callers make configurations of
    their own and write to any they have, the instance included, and save any
    of them.  The events that were sent may arrive late, repeatedly, in any
    order or never.  A process decides on a reading of Redis that may be out of
    date, or on a failed reading.  The epoch is written by a second command
    after the script, which other processes can come between: [w_epoch] lets it
    become anything at any time, and a reading may have any epoch. *)

(** [edited]: the processes whose instance was written to and is neither saved
    nor replaced since. *)
Record world := World {
  kv : store;
  readings : list (gmap string string);
  procs : list manager;
  sent : list UpdatedPayload;
  edited : gset nat
}.

Definition forget_epoch (h : gmap string string) : gmap string string := delete FieldEpoch h.

(** What a process may have read. *)
Definition may_read (w : world) (r : outcome (gmap string string)) : Prop :=
  match r with
  | Err _ => True
  | Ret h => ∃ h', h' ∈ stored (kv w) :: readings w ∧ forget_epoch h = forget_epoch h'
  end.

(** The object that is the instance, with its version: a save that succeeds
    gives the object another version, and whatever else replaces the instance
    gives the process another object. *)
Definition at_version (m : manager) : option (nat * Z) :=
  a ← instance m; c ← mem m !! a; Some (a, cfg_Version c).

Definition edited_after (w : world) (i : nat) (m : manager) : gset nat :=
  if decide (at_version m = (procs w !! i ≫= at_version)) then edited w else edited w ∖ {[i]}.

Definition after (w : world) (i : nat) (m : manager) (s : store) (ev : option UpdatedPayload) : world :=
  World s (stored (kv w) :: readings w) (<[i := m]> (procs w)) (option_list ev ++ sent w) (edited_after w i m).

(** A caller assigns the fields of the object at [a], but for its version. *)
Definition write (a : nat) (c : ConfigRec) (m : manager) : manager :=
  Manager (alter (λ d, set_Version (cfg_Version d) c) a (mem m)) (next m) (instance m) (snapshot m) (epoch m).

(** Versions are below the largest 64-bit integer. *)
Inductive world_step (w : world) : world → Prop :=
| w_start : world_step w (World (kv w) (readings w) (procs w ++ [NewManager]) (sent w) (edited w))
| w_init i m uuid r e m' s' :
    procs w !! i = Some m → may_read w r → Init uuid r m (kv w) = (e, (m', s')) →
    world_step w (after w i m' s' None)
| w_reload i m uuid r e m' s' :
    procs w !! i = Some m → may_read w r → ReloadConfig uuid r m (kv w) = (e, (m', s')) →
    world_step w (after w i m' s' None)
| w_new i m c :
    procs w !! i = Some m → world_step w (after w i (alloc c m).2 (kv w) None)
| w_write i m a c :
    procs w !! i = Some m →
    world_step w (World (kv w) (readings w) (<[i := write a c m]> (procs w)) (sent w)
                    (if decide (instance m = Some a) then {[i]} ∪ edited w else edited w))
| w_save i m uuid a c e m' s' ev :
    procs w !! i = Some m → mem m !! a = Some c → config_in_range c → stored_version (kv w) < int64_max →
    SaveConfig uuid a m (kv w) = (e, (m', s', ev)) →
    world_step w (after w i m' s' ev)
| w_reset i m uuid e m' s' ev :
    procs w !! i = Some m → stored_version (kv w) < int64_max →
    ResetConfig uuid m (kv w) = (e, (m', s', ev)) →
    world_step w (after w i m' s' ev)
| w_deliver i m p :
    procs w !! i = Some m → p ∈ sent w → world_step w (after w i (onUpdated p m).1 (kv w) None)
| w_close i m :
    procs w !! i = Some m → world_step w (after w i (CloseConfig m) (kv w) None)
| w_epoch e :
    world_step w (World (write_epoch e (kv w)).2 (stored (kv w) :: readings w) (procs w) (sent w) (edited w)).

(** The configuration a process runs with. *)
Definition current (m : manager) : option ConfigRec := i ← instance m; mem m !! i.

(** ** The history of the configuration

    The invariant: there is a history, a configuration for each version up to
    the stored one, that everything agrees with. *)

Record history_ok (h : gmap Z ConfigRec) (n : Z) : Prop := {
  ho_bound : 0 ≤ n ≤ int64_max;
  ho_entry : ∀ v c, h !! v = Some c → 1 ≤ v ≤ n ∧ cfg_Version c = v ∧ config_in_range c
}.

(** [dirty]: the instance was written to. *)
Record manager_ok (h : gmap Z ConfigRec) (dirty : bool) (m : manager) : Prop := {
  mo_mem : ∀ b c, mem m !! b = Some c → (b < next m)%nat;
  mo_instance : ∀ a, instance m = Some a →
    ∃ c x, mem m !! a = Some c ∧ h !! cfg_Version c = Some x ∧ (dirty = false → x = c)
}.

Definition event_ok (h : gmap Z ConfigRec) (p : UpdatedPayload) : Prop :=
  ∃ c, h !! up_Version p = Some c ∧ up_Config p = marshal_config c.

Definition holds (h : gmap Z ConfigRec) (g : gmap string string) (v : Z) : Prop :=
  ∃ c, h !! v = Some c ∧ g !! FieldVersion = Some (itoa v) ∧ g !! FieldData = Some (marshal_config c).
Definition blank (g : gmap string string) : Prop := g !! FieldVersion = None ∧ g !! FieldData = None.

Record world_ok (h : gmap Z ConfigRec) (n : Z) (w : world) : Prop := {
  wo_hash : is_hash (kv w) Config;
  wo_history : history_ok h n;
  wo_stored : n = 0 ∧ blank (stored (kv w)) ∨ 1 ≤ n ∧ holds h (stored (kv w)) n;
  wo_readings : ∀ g, g ∈ readings w → blank g ∨ ∃ v, holds h g v;
  wo_procs : ∀ i m, procs w !! i = Some m → manager_ok h (bool_decide (i ∈ edited w)) m;
  wo_sent : ∀ p, p ∈ sent w → event_ok h p
}.

(** *** The history grows *)

Lemma version_int64 h n v c : history_ok h n → h !! v = Some c → in_int64 v.
Proof.
  intros [Hb He] Hv. destruct (He v c Hv) as (? & _). unfold in_int64, int64_min, int64_max in *. lia.
Qed.

Lemma history_grows h n c :
  history_ok h n → config_in_range c → n < int64_max → history_ok (<[n + 1 := set_Version (n + 1) c]> h) (n + 1).
Proof.
  intros [Hb He] Hc Hlt. constructor; [lia|]. intros v d [[<- <-]|[Hne Hv]]%lookup_insert_Some.
  - split; [lia|]. split; [done|by apply range_version].
  - destruct (He v d Hv) as (? & ? & ?). split; [lia|done].
Qed.

Lemma new_version h n c : history_ok h n → h ⊆ <[n + 1 := c]> h.
Proof.
  intros [_ He]. apply insert_subseteq. destruct (h !! (n + 1)) as [d|] eqn:E; [|done].
  destruct (He _ _ E) as (? & _). lia.
Qed.

Lemma manager_ok_mono h h' d m : h ⊆ h' → manager_ok h d m → manager_ok h' d m.
Proof.
  intros Hs [H1 Hm]. split; [done|]. intros i Hi. destruct (Hm i Hi) as (c & x & Hc & Hv & Hd).
  exists c, x. split_and!; [done|by eapply lookup_weaken|done].
Qed.
Lemma manager_ok_ext h (X Y : gset nat) j m :
  (j ∈ X ↔ j ∈ Y) → manager_ok h (bool_decide (j ∈ X)) m → manager_ok h (bool_decide (j ∈ Y)) m.
Proof. intros E. by rewrite (bool_decide_ext _ _ E). Qed.
Lemma manager_ok_clean h d m : manager_ok h false m → manager_ok h d m.
Proof. intros [H1 H2]. split; [done|]. intros a (c & x & ? & ? & Hd)%H2. exists c, x. auto. Qed.
Lemma event_ok_mono h h' p : h ⊆ h' → event_ok h p → event_ok h' p.
Proof. intros Hs (c & Hv & Hc). exists c. split; [by eapply lookup_weaken|done]. Qed.
Lemma holds_mono h h' g v : h ⊆ h' → holds h g v → holds h' g v.
Proof. intros Hs (c & Hv & Hc). exists c. split; [by eapply lookup_weaken|done]. Qed.

(** *** Readings *)

Lemma Decode_holds h n g v :
  history_ok h n → holds h g v → ∃ c, Decode g = Some c ∧ h !! v = Some c ∧ cfg_Version c = v.
Proof.
  intros Hh (c & Hc & Hv & Hd). destruct (ho_entry _ _ Hh v c Hc) as (_ & E & Hr).
  exists c. split; [|done]. unfold Decode. rewrite decide_False by (intros ->; by rewrite lookup_empty in Hd).
  rewrite Hd, decide_False by apply marshal_nonempty. rewrite config_json_roundtrip by done.
  cbn [mbind option_bind]. rewrite Hv, ParseInt_itoa by by eapply version_int64.
  by rewrite set_Version_twice, <-E, set_Version_id.
Qed.

Lemma Decode_blank g : blank g → Decode g = None.
Proof. intros [_ Hd]. unfold Decode. case_decide; [done|]. by rewrite Hd. Qed.

Lemma forget_lookup g g' f :
  forget_epoch g = forget_epoch g' → f ≠ FieldEpoch → g !! f = g' !! f.
Proof.
  intros E Hf. rewrite <-(lookup_delete_ne g FieldEpoch f), <-(lookup_delete_ne g' FieldEpoch f) by done.
  unfold forget_epoch in E. by rewrite E.
Qed.

Lemma reading_decodes h n w r :
  world_ok h n w → may_read w r →
  match r with
  | Err _ => True
  | Ret g => Decode g = None ∨ ∃ c, Decode g = Some c ∧ h !! cfg_Version c = Some c
  end.
Proof.
  intros Hw Hr. destruct r as [g|e]; [|done]. destruct Hr as (g' & Hin & E).
  assert (blank g' ∨ ∃ v, holds h g' v) as Hg'.
  { apply elem_of_cons in Hin as [->|Hin]; [|by apply (wo_readings _ _ _ Hw)].
    destruct (wo_stored _ _ _ Hw) as [[_ ?]|[_ ?]]; eauto. }
  assert (∀ f, f ≠ FieldEpoch → g !! f = g' !! f) as Hl by (intros; by apply forget_lookup).
  unfold blank, holds in Hg'. rewrite <-!Hl in Hg' by done. destruct Hg' as [Hb|[v Hv]].
  - left. by apply Decode_blank.
  - right. destruct (Decode_holds h n g v (wo_history _ _ _ Hw) Hv) as (c & Hc & Hh & <-).
    eauto.
Qed.

(** *** The steps keep the invariant *)

(** The process still has the instance it had. *)
Record kept (m m' : manager) : Prop := {
  kp_mem : (∀ b c, mem m !! b = Some c → (b < next m)%nat) → ∀ b c, mem m' !! b = Some c → (b < next m')%nat;
  kp_instance : instance m' = instance m;
  kp_cell : (∀ b c, mem m !! b = Some c → (b < next m)%nat) → ∀ a, is_Some (mem m !! a) → mem m' !! a = mem m !! a
}.

Lemma kept_refl m : kept m m.
Proof. by split. Qed.

Lemma kept_epoch m e : kept m (set_epoch e m).
Proof. by split. Qed.

Lemma kept_alloc c m : kept m (alloc c m).2.
Proof.
  split; [..|done|]; cbn.
  - intros H b d [[<- _]|[_ Hb%H]]%lookup_insert_Some; lia.
  - intros H a [d Hd]. by rewrite lookup_insert_ne by (pose proof (H _ _ Hd); lia).
Qed.

Lemma kept_manager_trans m1 m2 m3 : kept m1 m2 → kept m2 m3 → kept m1 m3.
Proof.
  intros [A1 A2 A3] [B1 B2 B3]. split; [intros H; apply B1, A1, H|congruence|]. intros H a Ha.
  rewrite B3; [by apply A3|by apply A1|]. by rewrite A3.
Qed.

Lemma kept_ok h d m m' : kept m m' → manager_ok h d m → manager_ok h d m'.
Proof.
  intros [K1 K2 K3] [H1 H2]. split; [by apply K1|]. rewrite K2. intros a (c & x & Hc & ?)%H2. exists c, x.
  by rewrite K3 by (done || by eexists).
Qed.

Lemma kept_at h d m m' : kept m m' → manager_ok h d m → at_version m' = at_version m.
Proof.
  intros [K1 K2 K3] [H1 H2]. unfold at_version. rewrite K2. destruct (instance m) as [a|]; [|done]. cbn [mbind option_bind].
  destruct (H2 a eq_refl) as (c & x & Hc & _). by rewrite K3 by (done || by eexists).
Qed.

(** A process keeps its instance or has a clean one. *)
Definition moved (h : gmap Z ConfigRec) (m m' : manager) : Prop := kept m m' ∨ manager_ok h false m'.

(** Everything but one process and the stored configuration stays. *)
Lemma world_ok_after h h' n n' w i m0 m s ev :
  world_ok h n w → h ⊆ h' → history_ok h' n' → is_hash s Config → procs w !! i = Some m0 →
  (n' = 0 ∧ blank (stored s) ∨ 1 ≤ n' ∧ holds h' (stored s) n') → moved h' m0 m →
  (∀ p, ev = Some p → event_ok h' p) → world_ok h' n' (after w i m s ev).
Proof.
  intros [H1 H2 H3 H4 H5 H6] Hs Hh Hk Hi Hst Hm Hev.
  constructor; cbn [kv readings procs sent after edited]; [done|done|done| | |].
  - intros g [->|Hg]%elem_of_cons.
    + destruct H3 as [[_ ?]|[_ ?]]; [by left|right]. exists n. by eapply holds_mono.
    + destruct (H4 g Hg) as [?|[v ?]]; [by left|right]. exists v. by eapply holds_mono.
  - intros j m' Hj. unfold edited_after. rewrite Hi. cbn [mbind option_bind].
    apply list_lookup_insert_Some in Hj as [(-> & <- & _)|[Hne Hj]].
    + destruct Hm as [Hm|Hm]; [|by apply manager_ok_clean].
      rewrite (decide_True _ _ (kept_at h _ _ _ Hm (H5 _ _ Hi))).
      eapply kept_ok; [done|]. eapply manager_ok_mono; [done|]. by apply H5.
    + eapply manager_ok_mono; [done|]. eapply (manager_ok_ext h (edited w)); [|by apply H5]. case_decide; [done|]. set_solver.
  - intros p [Hp|Hp]%elem_of_app; [|eapply event_ok_mono; [done|by apply H6]].
    destruct ev as [q|]; cbn in Hp; [|by apply elem_of_nil in Hp].
    apply list_elem_of_singleton in Hp as ->. by apply Hev.
Qed.

Lemma world_ok_manager h n w i m0 m :
  world_ok h n w → procs w !! i = Some m0 → moved h m0 m → world_ok h n (after w i m (kv w) None).
Proof. intros Hw Hi Hm. eapply world_ok_after; try done; apply Hw. Qed.

Lemma current_alloc c m v :
  current (setCurrentConfigLocked (alloc c m).1 v (alloc c m).2) = Some (set_Version v c).
Proof.
  unfold current, setCurrentConfigLocked, alloc. cbn [instance mem fst snd mbind option_bind].
  by rewrite lookup_alter_eq, lookup_insert_eq.
Qed.

Lemma manager_ok_set h a c m v :
  (∀ b d, mem m !! b = Some d → (b < next m)%nat) → mem m !! a = Some c → h !! v = Some (set_Version v c) →
  manager_ok h false (setCurrentConfigLocked a v m).
Proof.
  intros Hm Ha Hh. split; cbn [setCurrentConfigLocked mem next instance].
  - intros b d. destruct (decide (b = a)) as [->|]; [by intros _; eapply Hm|]. rewrite lookup_alter_ne by done. apply Hm.
  - intros i [= <-]. rewrite lookup_alter_eq, Ha. eexists _, _. split; [reflexivity|]. cbn. by rewrite Hh.
Qed.

Lemma manager_ok_fresh h c m v :
  (∀ b d, mem m !! b = Some d → (b < next m)%nat) → h !! v = Some (set_Version v c) →
  manager_ok h false (setCurrentConfigLocked (alloc c m).1 v (alloc c m).2).
Proof.
  intros Hm Hh. apply (manager_ok_set h _ c); [by apply (kp_mem _ _ (kept_alloc c m))|cbn; apply lookup_insert_eq|done].
Qed.

(** The stored version as the script sees it. *)
Lemma stored_version_is h n w : world_ok h n w → stored_version (kv w) = n.
Proof.
  intros Hw. unfold stored_version. destruct (wo_stored _ _ _ Hw) as [[-> [-> _]]|(_ & c & Hc & -> & _)]; [done|].
  cbn [mbind option_bind]. rewrite tonumber_itoa; [done|]. by eapply version_int64; [apply Hw|].
Qed.

(** A write of version [v + 1] over version [v], or a refusal. *)
Lemma persist_ok h n w uuid c v m :
  world_ok h n w → n < int64_max → config_in_range c → in_int64 v →
  let h' := <[n + 1 := set_Version (n + 1) c]> h in
  let m1 := if decide (epoch m = "") then set_epoch uuid m else m in
  (∃ s', persistLocked uuid c v m (kv w) = (inr (n + 1), (m1, s')) ∧ is_hash s' Config ∧ holds h' (stored s') (n + 1))
  ∨ persistLocked uuid c v m (kv w) = (inl CfgVersionMismatch, (m1, kv w)).
Proof.
  intros Hw Hn Hc Hv h' m1. pose proof (wo_hash _ _ _ Hw) as Hh.
  assert (∀ s1, saveLocked c v (kv w) = (inr (n + 1), s1) → config_effect (saved (n + 1) c (stored (kv w))) (kv w) s1 →
    ∃ s', persistLocked uuid c v m (kv w) = (inr (n + 1), (m1, s')) ∧ is_hash s' Config ∧ holds h' (stored s') (n + 1)) as Hok.
  { intros s1 E1 E2. destruct (persistLocked_run uuid c v _ m _ _ _ E1 E2) as (s2 & -> & [Hs2 E3 _]).
    exists s2. split; [done|]. split; [done|]. exists (set_Version (n + 1) c).
    unfold h'. rewrite lookup_insert_eq, E3. split; [done|].
    rewrite !lookup_insert_ne by done. split; [apply saved_version|exact (saved_data _ c _)]. }
  destruct (wo_stored _ _ _ Hw) as [[-> [Hb _]]|(Hn1 & d & Hd & Hvs & _)].
  - left. destruct (saveLocked_first c v (kv w) Hh Hb) as (s1 & E1 & E2). by apply (Hok s1).
  - pose proof (version_int64 _ _ _ _ (wo_history _ _ _ Hw) Hd) as Hr. destruct (decide (v = n)) as [->|Hne].
    + left. destruct (saveLocked_next c n (kv w) Hh Hvs Hr Hn) as (s1 & E1 & E2). by apply (Hok s1).
    + right. by rewrite (persistLocked_refused _ _ _ _ _ CfgVersionMismatch) by by apply (saveLocked_refused _ _ n).
Qed.

Lemma publish_ok h n w uuid i a m0 m b c e m' s' ev :
  world_ok h n w → procs w !! i = Some m0 → kept m0 m → n < int64_max → config_in_range c → instance m0 = Some a →
  mem m !! b = Some c → persistAndPublishLocked uuid a b m (kv w) = (e, (m', s', ev)) →
  ∃ h' n', h ⊆ h' ∧ world_ok h' n' (after w i m' s' ev).
Proof.
  intros Hw Hi Hk Hn Hc Ha Hb. unfold persistAndPublishLocked. rewrite Hb. cbn [default from_option id].
  pose proof (kept_ok _ _ _ _ Hk (wo_procs _ _ _ Hw _ _ Hi)) as [Hm1 Hm2].
  assert (in_int64 (version_of m a)) as Hv.
  { destruct (Hm2 a) as (d & x & Hd & Hx & _); [by rewrite (kp_instance _ _ Hk)|]. unfold version_of. rewrite Hd.
    by eapply version_int64; [apply Hw|exact Hx]. }
  set (m1 := if decide (epoch m = "") then set_epoch uuid m else m).
  assert (kept m m1 ∧ mem m1 = mem m ∧ next m1 = next m) as (Hk1 & Em & En)
    by (unfold m1; destruct (decide (epoch m = "")); split; [apply kept_epoch|done|apply kept_refl|done]).
  destruct (persist_ok h n w uuid c (version_of m a) m Hw Hn Hc Hv) as [(s1 & -> & Hs1 & Hst)| ->]; fold m1.
  - intros [= <- <- <- <-]. exists (<[n + 1 := set_Version (n + 1) c]> h), (n + 1).
    pose proof (wo_history _ _ _ Hw) as Hh. pose proof (new_version h n (set_Version (n + 1) c) Hh) as Hsub.
    split; [done|]. eapply world_ok_after; [exact Hw|done|by apply history_grows|done|done| | |].
    + right. split; [|done]. pose proof (ho_bound _ _ Hh). lia.
    + right. apply (manager_ok_set _ _ c); [by rewrite Em, En|by rewrite Em|apply lookup_insert_eq].
    + intros p [= <-]. exists (set_Version (n + 1) c). cbn [up_Version up_Config]. rewrite lookup_insert_eq. split; [done|].
      cbn [setCurrentConfigLocked mem]. by rewrite lookup_alter_eq, Em, Hb.
  - intros [= <- <- <- <-]. exists h, n. split; [done|]. eapply world_ok_manager; [done|done|]. left. by eapply kept_manager_trans.
Qed.

Lemma DefaultConfig_in_range : config_in_range DefaultConfig.
Proof. apply (bool_decide_unpack _). vm_compute. exact I. Qed.

(** What is stored apart from the epoch. *)
Lemma blank_epoch g e : blank g → blank (<[FieldEpoch := e]> g).
Proof. unfold blank. by rewrite !lookup_insert_ne by done. Qed.
Lemma holds_epoch h g v e : holds h g v → holds h (<[FieldEpoch := e]> g) v.
Proof. unfold holds. by rewrite !lookup_insert_ne by done. Qed.

Lemma epoch_run e s :
  is_hash s Config →
  ∃ s', write_epoch e s = (Ret tt, s') ∧ config_effect (<[FieldEpoch := e]> (stored s)) s s'.
Proof. intros Hh. unfold write_epoch. rewrite hset_run by done. eexists. split; [done|]. apply config_effect_upd. Qed.

Lemma epoch_ok h n w i m0 m e s' :
  world_ok h n w → procs w !! i = Some m0 → moved h m0 m → config_effect (<[FieldEpoch := e]> (stored (kv w))) (kv w) s' →
  world_ok h n (after w i m s' None).
Proof.
  intros Hw Hi Hm [Hs E _]. eapply world_ok_after; [exact Hw|done|apply Hw|done|exact Hi| |done|done]. rewrite E.
  destruct (wo_stored _ _ _ Hw) as [[? ?]|[? ?]]; [left|right].
  - split; [done|by apply blank_epoch].
  - split; [done|by apply holds_epoch].
Qed.

Lemma defaults_ok h n w uuid i m e m' s' :
  world_ok h n w → procs w !! i = Some m → createDefaultsLocked uuid m (kv w) = (e, (m', s')) →
  ∃ h' n', h ⊆ h' ∧ world_ok h' n' (after w i m' s' None).
Proof.
  intros Hw Hi. pose proof (mo_mem _ _ _ (wo_procs _ _ _ Hw _ _ Hi)) as Hmem. unfold createDefaultsLocked. cbv zeta.
  destruct (alloc DefaultConfig (set_epoch uuid m)) as [a m0] eqn:Ea.
  assert (kept m m0) as Hm0.
  { replace m0 with (alloc DefaultConfig (set_epoch uuid m)).2 by by rewrite Ea. eapply kept_manager_trans; [apply kept_epoch|apply kept_alloc]. }
  set (m1 := if decide (epoch m0 = "") then set_epoch uuid m0 else m0).
  assert (kept m m1) as Hm1 by (unfold m1; destruct (decide (epoch m0 = "")); [eapply kept_manager_trans; [done|apply kept_epoch]|done]).
  destruct (wo_stored _ _ _ Hw) as [[-> Hb]|[Hn (d & Hd & Hvs & _)]].
  - destruct (persist_ok h 0 w uuid DefaultConfig 0 m0 Hw) as [(s1 & -> & Hs1 & Hst)|E];
      [done|apply DefaultConfig_in_range|done| |].
    + intros [= <- <- <-]. exists (<[1 := set_Version 1 DefaultConfig]> h), 1.
      pose proof (wo_history _ _ _ Hw) as Hh. pose proof (new_version h 0 (set_Version 1 DefaultConfig) Hh) as Hsub.
      split; [done|]. eapply world_ok_after; [exact Hw|done| |done|exact Hi|by right| |done].
      * apply (history_grows h 0); [done|apply DefaultConfig_in_range|done].
      * right. pose proof (manager_ok_fresh (<[1 := set_Version 1 DefaultConfig]> h) DefaultConfig (set_epoch uuid m) 1 Hmem) as Hf.
        rewrite Ea, lookup_insert_eq in Hf. specialize (Hf eq_refl). destruct Hf as [F1 F2]. by case_decide.
    + rewrite E. intros [= <- <- <-]. exists h, 0. split; [done|]. eapply world_ok_manager; [done|done|by left].
  - pose proof (version_int64 _ _ _ _ (wo_history _ _ _ Hw) Hd) as Hr.
    rewrite (persistLocked_refused _ _ _ _ _ CfgVersionMismatch)
      by (apply (saveLocked_refused _ _ n); [apply Hw|done|done|done|lia]).
    intros [= <- <- <-]. exists h, n. split; [done|]. eapply world_ok_manager; [done|done|by left].
Qed.

Lemma load_ok h n w uuid r i m e m' s' :
  world_ok h n w → procs w !! i = Some m → may_read w r → loadOrCreateLocked uuid r m (kv w) = (e, (m', s')) →
  ∃ h' n', h ⊆ h' ∧ world_ok h' n' (after w i m' s' None).
Proof.
  intros Hw Hi Hr. pose proof (reading_decodes h n w r Hw Hr) as Hd. unfold loadOrCreateLocked.
  pose proof (mo_mem _ _ _ (wo_procs _ _ _ Hw _ _ Hi)) as Hmem.
  destruct r as [g|err]; [|by apply (defaults_ok h n)].
  destruct Hd as [-> | (c & -> & Hc)]; cbn [mbind option_bind]; [by apply (defaults_ok h n)|].
  assert (∀ e, moved h m (setCurrentConfigLocked (alloc c (set_epoch e m)).1 (cfg_Version c) (alloc c (set_epoch e m)).2)) as Hf.
  { intros e0. right. apply manager_ok_fresh; [done|]. by rewrite set_Version_id. }
  case_decide.
  - destruct (epoch_run uuid (kv w) (wo_hash _ _ _ Hw)) as (s1 & E & He). cbn [epoch set_epoch]. rewrite E.
    cbn [alloc]. intros [= <- <- <-]. exists h, n. split; [done|]. by eapply epoch_ok; [|exact Hi|apply (Hf uuid)|].
  - cbn [alloc]. intros [= <- <- <-]. exists h, n. split; [done|]. eapply world_ok_manager; [done|exact Hi|apply Hf].
Qed.

Lemma onUpdated_ok h n p d m :
  history_ok h n → event_ok h p → manager_ok h d m → moved h m (onUpdated p m).1.
Proof.
  intros Hh (c & Hc & Hp) [Hm _]. unfold onUpdated. destruct (ho_entry _ _ Hh _ _ Hc) as (_ & Hv & Hr).
  rewrite Hp, config_json_roundtrip by done. destruct (instance m); [|left; apply kept_refl].
  case_decide; [left; apply kept_refl|]. case_decide; [|left; apply kept_refl]. right. apply manager_ok_fresh; [done|].
  by rewrite set_Version_twice, <-Hv, set_Version_id, Hv.
Qed.

Lemma write_ok h dirty a c m :
  manager_ok h dirty m → manager_ok h (if decide (instance m = Some a) then true else dirty) (write a c m).
Proof.
  intros [H1 H2]. split; cbn [write mem next instance].
  - intros b d [[-> (d' & Hd' & _)]|[_ Hb]]%lookup_alter_Some; by eapply H1.
  - intros i Hi. destruct (H2 i Hi) as (x & y & Hx & Hy & Hd). destruct (decide (i = a)) as [->|Hne].
    + rewrite lookup_alter_eq, Hx. eexists _, y. split; [reflexivity|]. split; [done|]. by rewrite decide_True.
    + rewrite lookup_alter_ne by done. exists x, y. split_and!; [done..|]. by case_decide.
Qed.

Lemma write_world_ok h n w i m a c :
  world_ok h n w → procs w !! i = Some m →
  world_ok h n (World (kv w) (readings w) (<[i := write a c m]> (procs w)) (sent w)
    (if decide (instance m = Some a) then {[i]} ∪ edited w else edited w)).
Proof.
  intros [? ? ? ? Hps ?] Hi. constructor; cbn [kv readings procs sent edited]; try done.
  intros j m' [(-> & <- & _)|[Hne Hj]]%list_lookup_insert_Some.
  - pose proof (write_ok h _ a c m (Hps _ _ Hi)) as Hw. case_decide; [|done].
    rewrite bool_decide_eq_true_2 by set_solver. done.
  - eapply (manager_ok_ext h (edited w)); [|by apply Hps]. case_decide; [|done]. set_solver.
Qed.

Lemma world_step_ok h n w w' :
  world_ok h n w → world_step w w' → ∃ h' n', h ⊆ h' ∧ world_ok h' n' w'.
Proof.
  intros Hw Hs. pose proof (stored_version_is h n w Hw) as Hv.
  assert (∀ i m m', procs w !! i = Some m → kept m m' → ∃ h' n', h ⊆ h' ∧ world_ok h' n' (after w i m' (kv w) None)) as Hkeep.
  { intros i m m' Hi Hk. exists h, n. split; [done|]. eapply world_ok_manager; [done|done|by left]. }
  destruct Hs as [|i m uuid r e m' s' Hi Hr E|i m uuid r e m' s' Hi Hr E|i m c Hi|i m a c Hi|i m uuid a c e m' s' ev Hi Ha Hc Hlt E
                 |i m uuid e m' s' ev Hi Hlt E|i m p Hi Hin|i m Hi|e].
  - exists h, n. split; [done|]. destruct Hw as [? ? ? ? Hps ?]. constructor; cbn [kv readings procs sent edited]; try done.
    intros i m [Hi|[_ [_ <-]%list_lookup_singleton_Some]]%lookup_app_Some; [by apply Hps|]. split; [|done].
    intros b c Hb. cbn [NewManager mem] in Hb. apply lookup_singleton_Some in Hb as [<- _]. cbn. lia.
  - unfold Init in E. destruct (instance m); [injection E as <- <- <-; by eapply Hkeep, kept_refl|]. by eapply load_ok.
  - unfold ReloadConfig in E. destruct (instance m); [by eapply load_ok|]. injection E as <- <- <-. by eapply Hkeep, kept_refl.
  - by eapply Hkeep, kept_alloc.
  - exists h, n. split; [done|]. by apply write_world_ok.
  - unfold SaveConfig in E. destruct (instance m) as [b|] eqn:Ei; [|injection E as <- <- <- <-; by eapply Hkeep, kept_refl].
    eapply (publish_ok h n w uuid i b m m a c); [done|done|apply kept_refl|lia|done..].
  - unfold ResetConfig in E. destruct (instance m) as [b|] eqn:Ei; [|injection E as <- <- <- <-; by eapply Hkeep, kept_refl].
    eapply (publish_ok h n w uuid i b m (alloc DefaultConfig m).2 (alloc DefaultConfig m).1 DefaultConfig);
      [done|done|apply kept_alloc|lia|apply DefaultConfig_in_range|done|cbn; apply lookup_insert_eq|done].
  - exists h, n. split; [done|]. eapply world_ok_manager; [done|done|].
    eapply onUpdated_ok; [apply Hw|by apply (wo_sent _ _ _ Hw)|by apply (wo_procs _ _ _ Hw)].
  - exists h, n. split; [done|]. eapply world_ok_manager; [done|done|]. right. split; [|done].
    apply (mo_mem _ _ _ (wo_procs _ _ _ Hw _ _ Hi)).
  - exists h, n. split; [done|]. destruct (epoch_run e (kv w) (wo_hash _ _ _ Hw)) as (s1 & -> & [Hs E _]).
    destruct Hw as [? ? H3 H4 ? ?]. constructor; cbn [kv readings procs sent edited snd]; try done.
    + rewrite E. destruct H3 as [[? ?]|[? ?]]; [left; split; [done|by apply blank_epoch]|right; split; [done|by apply holds_epoch]].
    + intros g [->|Hg]%elem_of_cons; [|by apply H4]. destruct H3 as [[_ ?]|[_ ?]]; eauto.
Qed.

(** ** What the processes agree on *)

Definition first_world (s : store) : world := World s [] [] [] ∅.

Lemma reachable_ok s w :
  is_hash s Config → blank (stored s) → rtc world_step (first_world s) w → ∃ h n, world_ok h n w.
Proof.
  intros Hh Hb Hr. assert (∃ h n, world_ok h n (first_world s)) as H0.
  { exists ∅, 0. constructor; cbn [kv readings procs sent first_world]; try done.
    - by constructor.
    - by intros ? ?%elem_of_nil.
    - by intros ? ?%elem_of_nil. }
  clear Hh Hb. revert H0. induction Hr as [x|x y z Hxy _ IH]; [done|]. intros (h & n & Hw).
  destruct (world_step_ok h n x y Hw Hxy) as (h' & n' & _ & ?). apply IH. eauto.
Qed.

(** The configuration of a process is in the history; its version is in any case. *)
Lemma current_version h n w i m c :
  world_ok h n w → procs w !! i = Some m → current m = Some c →
  ∃ x, h !! cfg_Version c = Some x ∧ (i ∉ edited w → x = c).
Proof.
  intros Hw Hi Hc. destruct (wo_procs _ _ _ Hw i m Hi) as [_ Hm].
  unfold current in Hc. destruct (instance m) as [a|]; [|done]. destruct (Hm a eq_refl) as (d & x & Hd & Hv & Hx).
  cbn [mbind option_bind] in Hc. simplify_eq. exists x. split; [done|]. intros He. apply Hx. by apply bool_decide_eq_false_2.
Qed.

Lemma current_in_history h n w i m c :
  world_ok h n w → procs w !! i = Some m → i ∉ edited w → current m = Some c → h !! cfg_Version c = Some c.
Proof. intros Hw Hi He Hc. destruct (current_version h n w i m c Hw Hi Hc) as (x & Hx & E). by rewrite Hx, E. Qed.

Lemma reload_current h n w uuid m :
  world_ok h n w → 1 ≤ n → is_Some (instance m) →
  ∃ m' s' c, ReloadConfig uuid (read_config (kv w)) m (kv w) = (inr tt, (m', s')) ∧
    current m' = Some c ∧ cfg_Version c = n ∧ Decode (stored (kv w)) = Some c ∧ instance m' = Some (next m).
Proof.
  intros Hw Hn [a Ha]. destruct (wo_stored _ _ _ Hw) as [[-> _]|[_ Hst]]; [lia|].
  destruct (Decode_holds h n _ n (wo_history _ _ _ Hw) Hst) as (c & Hd & _ & Hv).
  unfold ReloadConfig, loadOrCreateLocked, read_config. rewrite hgetall_run by apply Hw. rewrite Ha. cbn [fst].
  rewrite Hd. cbn [mbind option_bind]. case_decide.
  - destruct (epoch_run uuid (kv w) (wo_hash _ _ _ Hw)) as (s1 & E & _). cbn [epoch set_epoch]. rewrite E. cbn [alloc].
    do 3 eexists. split; [reflexivity|]. split; [|split; [exact Hv|done]].
    pose proof (current_alloc c (set_epoch uuid m) (cfg_Version c)) as E'. by rewrite set_Version_id in E'.
  - cbn [alloc]. do 3 eexists. split; [reflexivity|]. split; [|split; [exact Hv|done]].
    pose proof (current_alloc c (set_epoch (default "" (stored (kv w) !! FieldEpoch)) m) (cfg_Version c)) as E'.
    by rewrite set_Version_id in E'.
Qed.


(** ** The updates converge *)

Definition deliver (ps : list UpdatedPayload) (m : manager) : manager := foldl (λ m p, (onUpdated p m).1) m ps.

Definition newest (v : Z) (ps : list UpdatedPayload) : Z := foldl Z.max v (up_Version <$> ps).

Lemma onUpdated_current h n p m c :
  history_ok h n → event_ok h p → current m = Some c → h !! cfg_Version c = Some c → up_Epoch p = epoch m →
  ∃ c', current (onUpdated p m).1 = Some c' ∧ cfg_Version c' = Z.max (cfg_Version c) (up_Version p) ∧
    h !! cfg_Version c' = Some c' ∧ epoch (onUpdated p m).1 = epoch m.
Proof.
  intros Hh (d & Hd & Hp) Hc Hv He. destruct (ho_entry _ _ Hh _ _ Hd) as (_ & Ed & Hr). unfold onUpdated.
  rewrite Hp, config_json_roundtrip by done. pose proof Hc as Hc0. unfold current in Hc.
  destruct (instance m) as [a|] eqn:Ea; [|done]. cbn [mbind option_bind] in Hc.
  rewrite decide_False by (intros Hn; by apply Hn). unfold version_of. rewrite Hc. cbn [fmap option_fmap option_map default from_option id].
  case_decide.
  - exists (set_Version (up_Version p) (set_Version 0 d)). split; [apply current_alloc|]. cbn [cfg_Version set_Version].
    split; [lia|]. split; [|done]. rewrite <-Ed in Hd |- *. by rewrite set_Version_twice, set_Version_id.
  - exists c. split; [done|]. split; [lia|]. done.
Qed.

Lemma deliver_newest h n ps m c :
  history_ok h n → (∀ p, p ∈ ps → event_ok h p ∧ up_Epoch p = epoch m) →
  current m = Some c → h !! cfg_Version c = Some c →
  ∃ c', current (deliver ps m) = Some c' ∧ cfg_Version c' = newest (cfg_Version c) ps ∧ h !! cfg_Version c' = Some c'.
Proof.
  intros Hh. revert m c. induction ps as [|p ps IH]; intros m c Hps Hc Hv; [by exists c|].
  destruct (Hps p) as [Hp He]; [left|].
  destruct (onUpdated_current h n p m c Hh Hp Hc Hv He) as (c1 & Hc1 & Ev & Hv1 & Ee).
  destruct (IH (onUpdated p m).1 c1) as (c' & ? & E & ?); [|done|done|].
  - intros q Hq. rewrite Ee. apply Hps. by right.
  - exists c'. split; [done|]. split; [|done]. by rewrite E, Ev.
Qed.

Lemma newest_spec v ps b :
  v ≤ b → (∀ p, p ∈ ps → up_Version p ≤ b) → (v = b ∨ ∃ p, p ∈ ps ∧ up_Version p = b) → newest v ps = b.
Proof.
  unfold newest. revert v. induction ps as [|p ps IH]; intros v Hv Hb He; cbn.
  - destruct He as [?|(p & Hp%elem_of_nil & _)]; done.
  - apply IH; [apply Z.max_lub; [done|]; apply Hb; left|intros q Hq; apply Hb; by right|].
    destruct He as [->|(q & [->|Hq]%elem_of_cons & Eq)].
    + left. pose proof (Hb p ltac:(left)). lia.
    + left. lia.
    + right. eauto.
Qed.

(** Processes of the same generation that have received the same events end
    with the same configuration, whatever the order in which the events
    arrived, however often each did and whichever configurations the processes
    started from, once an event as new as these is among them: the one of the
    highest version. *)
Theorem updates_converge s w i j m1 m2 c1 c2 ps qs p :
  is_hash s Config → blank (stored s) → rtc world_step (first_world s) w →
  procs w !! i = Some m1 → i ∉ edited w → current m1 = Some c1 → procs w !! j = Some m2 → j ∉ edited w → current m2 = Some c2 →
  epoch m1 = epoch m2 → (∀ q, q ∈ ps → q ∈ sent w ∧ up_Epoch q = epoch m1) → (∀ q, q ∈ ps ↔ q ∈ qs) →
  p ∈ ps → cfg_Version c1 ≤ up_Version p → cfg_Version c2 ≤ up_Version p → (∀ q, q ∈ ps → up_Version q ≤ up_Version p) →
  current (deliver ps m1) = current (deliver qs m2) ∧
  ∃ c, current (deliver ps m1) = Some c ∧ cfg_Version c = up_Version p ∧ marshal_config c = up_Config p.
Proof.
  intros Hh Hb Hr Hi Hei Hc1 Hj Hej Hc2 Ee Hps Hpq Hp H1 H2 Hmax. destruct (reachable_ok s w Hh Hb Hr) as (h & n & Hw).
  pose proof (wo_history _ _ _ Hw) as Hho.
  assert (∀ q, q ∈ ps → event_ok h q ∧ up_Epoch q = epoch m1) as Hev.
  { intros q Hq. destruct (Hps q Hq). split; [by apply (wo_sent _ _ _ Hw)|done]. }
  destruct (deliver_newest h n ps m1 c1 Hho Hev Hc1) as (d1 & -> & E1 & Hd1); [by apply (current_in_history h n w i m1)|].
  destruct (deliver_newest h n qs m2 c2 Hho) as (d2 & -> & E2 & Hd2);
    [intros q Hq; rewrite <-Ee; by apply Hev, Hpq|done|by apply (current_in_history h n w j m2)|].
  rewrite (newest_spec _ ps (up_Version p)) in E1 by eauto.
  rewrite (newest_spec _ qs (up_Version p)) in E2;
    [|done|intros q Hq; by apply Hmax, Hpq|right; exists p; split; [by apply Hpq|done]].
  rewrite E1 in Hd1. rewrite E2 in Hd2. assert (d2 = d1) as -> by congruence. split; [done|]. exists d1. split; [done|]. split; [done|].
  destruct (Hev p Hp) as [(c & Hc & ->) _]. congruence.
Qed.

(** ** What goes wrong *)

(** [Save] compares the version in Redis with the version of the process's
    newest instance, not with the version of the object that is saved.  An
    object obtained before an update of another process arrived, saved after
    it arrived, replaces that update: [Save] succeeds, where
    docs/configuration.md promises ErrVersionMismatch. *)
Theorem stale_save_overwrites uuid m a c p d s :
  is_hash s Config → instance m = Some a → mem m !! a = Some c → (a < next m)%nat →
  up_Epoch p = epoch m → epoch m ≠ "" → up_Config p = marshal_config d → config_in_range d →
  stored s !! FieldVersion = Some (itoa (up_Version p)) → stored s !! FieldData = Some (marshal_config d) →
  in_int64 (up_Version p) → up_Version p < int64_max → cfg_Version c < up_Version p →
  let m1 := (onUpdated p m).1 in
  current m1 = Some (set_Version (up_Version p) d) ∧
  ∃ m2 s2 ev, SaveConfig uuid a m1 s = (inr (up_Version p + 1), (m2, s2, Some ev)) ∧
    stored s2 !! FieldData = Some (marshal_config c) ∧ up_Config ev = marshal_config c.
Proof.
  intros Hh Ha Hc Hlt He Hne Hp Hd Hv Hs Hr Hr' Hold m1.
  assert (m1 = setCurrentConfigLocked (next m) (up_Version p) (alloc (set_Version 0 d) m).2) as Em.
  { unfold m1, onUpdated. rewrite Hp, config_json_roundtrip, Ha by done. rewrite decide_False by (intros Hn; by apply Hn).
    unfold version_of. rewrite Hc. cbn [fmap option_fmap option_map default from_option id]. by rewrite decide_True. }
  split; [rewrite Em; exact (current_alloc (set_Version 0 d) m (up_Version p))|].
  clearbody m1. assert (instance m1 = Some (next m)) as Hi by by rewrite Em.
  unfold SaveConfig, persistAndPublishLocked. rewrite Hi.
  assert (mem m1 !! a = Some c) as Hc1.
  { rewrite Em. cbn [mem setCurrentConfigLocked alloc snd]. by rewrite lookup_alter_ne, lookup_insert_ne by lia. }
  assert (version_of m1 (next m) = up_Version p) as ->.
  { unfold version_of. rewrite Em. cbn [mem setCurrentConfigLocked alloc snd]. by rewrite lookup_alter_eq, lookup_insert_eq. }
  rewrite Hc1. cbn [default from_option id].
  destruct (saveLocked_next c (up_Version p) s Hh Hv Hr Hr') as (s1 & E1 & E2).
  destruct (persistLocked_run uuid c _ _ m1 _ _ _ E1 E2) as (s2 & -> & [_ E3 _]).
  do 3 eexists. split; [reflexivity|]. rewrite E3, lookup_insert_ne by done. split; [apply saved_data|].
  cbn [up_Config]. rewrite decide_False by (rewrite Em; exact Hne). cbn [setCurrentConfigLocked mem].
  by rewrite lookup_alter_eq, Hc1.
Qed.

(** A save after Redis lost the configuration starts again at version 1 but
    keeps the epoch, so the other processes take the new configuration for an
    old one and ignore its events; events.go says the epoch changes whenever
    the configuration is created from scratch. *)
Theorem flush_keeps_epoch uuid m a b c m' d s :
  is_hash s Config → blank (stored s) → instance m = Some a → mem m !! b = Some c → config_in_range c → epoch m ≠ "" →
  current m' = Some d → epoch m' = epoch m → 1 ≤ cfg_Version d →
  ∃ m1 s1 ev, SaveConfig uuid b m s = (inr 1, (m1, s1, Some ev)) ∧
    stored s1 !! FieldEpoch = Some (epoch m') ∧ onUpdated ev m' = (m', false).
Proof.
  intros Hh [Hv _] Ha Hc Hr Hne Hd Ee Hd1. unfold SaveConfig, persistAndPublishLocked. rewrite Ha, Hc.
  cbn [default from_option id]. destruct (saveLocked_first c (version_of m a) s Hh Hv) as (s1 & E1 & E2).
  destruct (persistLocked_run uuid c _ _ m _ _ _ E1 E2) as (s2 & -> & [_ E3 _]).
  rewrite decide_False in E3 |- * by done. do 3 eexists. split; [reflexivity|]. rewrite E3, lookup_insert_eq.
  split; [by rewrite Ee|]. unfold onUpdated. cbn [up_Config up_Epoch up_Version setCurrentConfigLocked mem epoch].
  rewrite lookup_alter_eq, Hc. cbn [fmap option_fmap option_map default from_option id]. rewrite marshal_version.
  rewrite config_json_roundtrip by done. unfold current in Hd. destruct (instance m') as [a'|]; [|done].
  rewrite decide_False by (rewrite Ee; intros Hn; by apply Hn). unfold version_of. cbn [mbind option_bind] in Hd. rewrite Hd.
  cbn [fmap option_fmap option_map default from_option id]. by rewrite decide_False by lia.
Qed.

(** When the configuration in Redis is unreadable, or was created by another
    process since it was read, [Init] fails: the defaults are saved over
    version 0, which the script refuses. *)
Theorem unreadable_config_refused uuid r m n s :
  is_hash s Config → instance m = None → stored s !! FieldVersion = Some (itoa n) → in_int64 n → n ≠ 0 →
  (∀ g, r = Ret g → Decode g = None) →
  ∃ m', Init uuid r m s = (inl CfgVersionMismatch, (m', s)) ∧ instance m' = None.
Proof.
  intros Hh Hi Hv Hn Hn0 Hr. unfold Init, loadOrCreateLocked. rewrite Hi.
  assert (match r with Ret hash => c ← Decode hash; Some (hash, c) | Err _ => None end = None) as ->.
  { destruct r as [g|e]; [|done]. by rewrite (Hr g). }
  unfold createDefaultsLocked. cbn [alloc].
  rewrite (persistLocked_refused _ _ _ _ _ CfgVersionMismatch) by by apply (saveLocked_refused _ _ n).
  eexists. split; [reflexivity|]. by case_decide.
Qed.

(** The documented retry after a mismatch fails in the same way until an event
    arrives: [Get] returns the object that was just modified. *)
Theorem retry_after_mismatch uuid uuid' m a m' s ev :
  instance m = Some a → SaveConfig uuid a m s = (inl CfgVersionMismatch, (m', s, ev)) →
  GetConfig m' = Some a ∧ current m' = current m ∧
  ∃ m'', SaveConfig uuid' a m' s = (inl CfgVersionMismatch, (m'', s, None)).
Proof.
  intros Ha. unfold SaveConfig, persistAndPublishLocked, persistLocked. rewrite Ha.
  destruct (saveLocked (default zero_config (mem m !! a)) (version_of m a) s) as [[e|v] s1] eqn:E.
  - intros [= -> <- -> <-]. set (m1 := if decide (epoch m = "") then set_epoch uuid m else m).
    assert (instance m1 = instance m ∧ mem m1 = mem m) as [E1 E2] by (unfold m1; by case_decide).
    unfold GetConfig, current, version_of. rewrite E1, E2, Ha. split; [done|]. split; [done|].
    change (default 0 (cfg_Version <$> mem m !! a)) with (version_of m a). rewrite E. eauto.
  - destruct (write_epoch _ s1) as [[|] s2]; congruence.
Qed.

(** ** A run of two processes *)

Definition prod_config : ConfigRec := {|
  cfg_Version := 0; cfg_Namespace := "prod"; cfg_Logger := cfg_Logger DefaultConfig;
  cfg_MessageAudit := cfg_MessageAudit DefaultConfig |}.

Definition do_init (uuid : string) (i : nat) (w : world) : world :=
  let '(_, (m, s)) := Init uuid (read_config (kv w)) (default NewManager (procs w !! i)) (kv w) in after w i m s None.
Definition do_new (c : ConfigRec) (i : nat) (w : world) : world :=
  after w i (alloc c (default NewManager (procs w !! i))).2 (kv w) None.
Definition do_save (a i : nat) (w : world) : world :=
  let '(_, (m, s, ev)) := SaveConfig "" a (default NewManager (procs w !! i)) (kv w) in after w i m s ev.
Definition do_write (a : nat) (c : ConfigRec) (i : nat) (w : world) : world :=
  let m := default NewManager (procs w !! i) in
  World (kv w) (readings w) (<[i := write a c m]> (procs w)) (sent w)
    (if decide (instance m = Some a) then {[i]} ∪ edited w else edited w).

Definition two_started : world := World empty_store [] [NewManager; NewManager] [] ∅.
Definition two_ready : world := do_init "e2" 1 (do_init "e1" 0 two_started).
Definition two_saved : world := do_save 2 0 (do_new prod_config 0 two_ready).

Lemma do_init_step uuid i w :
  is_hash (kv w) Config → is_Some (procs w !! i) → world_step w (do_init uuid i w).
Proof.
  intros Hh [m Hm]. unfold do_init. rewrite Hm. cbn [default from_option id].
  destruct (Init _ _ _ _) as [e [m' s']] eqn:E. eapply w_init; [done| |exact E].
  unfold read_config. rewrite hgetall_run by done. exists (stored (kv w)). split; [left|done].
Qed.

Lemma do_new_step c i w : is_Some (procs w !! i) → world_step w (do_new c i w).
Proof. intros [m Hm]. unfold do_new. rewrite Hm. by eapply w_new. Qed.

Lemma do_write_step a c i w : is_Some (procs w !! i) → world_step w (do_write a c i w).
Proof. intros [m Hm]. unfold do_write. rewrite Hm. by eapply w_write. Qed.

Lemma do_save_step a c i w :
  mem (default NewManager (procs w !! i)) !! a = Some c → config_in_range c → stored_version (kv w) < int64_max →
  is_Some (procs w !! i) → world_step w (do_save a i w).
Proof.
  intros Ha Hc Hv [m Hm]. unfold do_save. rewrite Hm in *. cbn [default from_option id] in *.
  destruct (SaveConfig _ _ _ _) as [e [[m' s'] ev]] eqn:E. by eapply w_save.
Qed.

Lemma two_ready_reached : rtc world_step (first_world empty_store) two_ready.
Proof.
  eapply rtc_l; [apply w_start|]. eapply rtc_l; [apply w_start|].
  change (rtc world_step two_started two_ready).
  eapply rtc_l; [apply (do_init_step "e1" 0); [eexists; vm_compute; reflexivity|eexists; vm_compute; reflexivity]|].
  eapply rtc_l; [|apply rtc_refl].
  apply (do_init_step "e2" 1); [eexists; vm_compute; reflexivity|eexists; vm_compute; reflexivity].
Qed.

Lemma two_saved_reached : rtc world_step (first_world empty_store) two_saved.
Proof.
  eapply rtc_trans; [exact two_ready_reached|].
  eapply rtc_l; [apply (do_new_step prod_config 0); eexists; vm_compute; reflexivity|].
  eapply rtc_l; [|apply rtc_refl].
  apply (do_save_step 2 prod_config 0);
    [vm_compute; reflexivity|apply (bool_decide_unpack _); vm_compute; exact I|vm_compute; reflexivity|eexists; vm_compute; reflexivity].
Qed.

(** The documented way to change the configuration: both processes write to
    what [Get] returned and save it; the second is refused. *)
Definition test_config : ConfigRec := {|
  cfg_Version := 0; cfg_Namespace := "test"; cfg_Logger := cfg_Logger DefaultConfig;
  cfg_MessageAudit := cfg_MessageAudit DefaultConfig |}.
Definition two_changed : world :=
  do_save 1 1 (do_write 1 test_config 1 (do_save 1 0 (do_write 1 prod_config 0 (do_init "e3" 2
    (World (kv two_ready) (readings two_ready) (procs two_ready ++ [NewManager]) (sent two_ready) (edited two_ready)))))).

Lemma two_changed_reached : rtc world_step (first_world empty_store) two_changed.
Proof.
  eapply rtc_trans; [exact two_ready_reached|].
  eapply rtc_l; [apply w_start|].
  eapply rtc_l; [apply (do_init_step "e3" 2); [eexists; vm_compute; reflexivity|eexists; vm_compute; reflexivity]|].
  eapply rtc_l; [apply (do_write_step 1 prod_config 0); eexists; vm_compute; reflexivity|].
  eapply rtc_l; [apply (do_save_step 1 (set_Version 1 prod_config) 0);
    [vm_compute; reflexivity|apply (bool_decide_unpack _); vm_compute; exact I|vm_compute; reflexivity|eexists; vm_compute; reflexivity]|].
  eapply rtc_l; [apply (do_write_step 1 test_config 1); eexists; vm_compute; reflexivity|].
  eapply rtc_l; [|apply rtc_refl].
  apply (do_save_step 1 (set_Version 1 test_config) 1);
    [vm_compute; reflexivity|apply (bool_decide_unpack _); vm_compute; exact I|vm_compute; reflexivity|eexists; vm_compute; reflexivity].
Qed.

(** After the failed save the second process runs with its change at version
    1, where a third one has the configuration that was saved as version 1. *)
Theorem failed_save_diverges :
  rtc world_step (first_world empty_store) two_changed ∧
  (λ m, (cfg_Version <$> current m, cfg_Namespace <$> current m)) <$> procs two_changed =
    [(Some 2, Some "prod"); (Some 1, Some "test"); (Some 1, Some "default")] ∧
  edited two_changed = {[1%nat]}.
Proof. split; [exact two_changed_reached|]. split; vm_compute; reflexivity. Qed.

Lemma empty_blank : is_hash empty_store Config ∧ blank (stored empty_store).
Proof. split; [by eexists; vm_compute|by split; vm_compute]. Qed.

Definition proc0 : manager := default NewManager (procs two_saved !! 0%nat).
Definition proc1 : manager := default NewManager (procs two_saved !! 1%nat).
Definition prod_event : UpdatedPayload := {| up_Config := marshal_config prod_config; up_Version := 2; up_Epoch := "e1" |}.


Lemma updates_converge_witness :
  current (deliver [prod_event] proc0) = current (deliver [prod_event; prod_event] proc1) ∧
  ∃ c, current (deliver [prod_event] proc0) = Some c ∧ cfg_Version c = 2 ∧
    marshal_config c = marshal_config prod_config.
Proof.
  destruct (current proc0) as [c0|] eqn:E0; [|vm_compute in E0; discriminate].
  destruct (current proc1) as [c1|] eqn:E1; [|vm_compute in E1; discriminate].
  assert (∀ q, q ∈ [prod_event] → q = prod_event) as Hone by by intros q ->%list_elem_of_singleton.
  apply (updates_converge empty_store two_saved 0 1 proc0 proc1 c0 c1 [prod_event] [prod_event; prod_event] prod_event
    (proj1 empty_blank) (proj2 empty_blank) two_saved_reached);
    [vm_compute; reflexivity|apply (bool_decide_unpack _); vm_compute; exact I|exact E0
    |vm_compute; reflexivity|apply (bool_decide_unpack _); vm_compute; exact I|exact E1| | | | | | |].
  - vm_compute. reflexivity.
  - intros q ->%Hone. split; [|vm_compute; reflexivity]. 
    assert (sent two_saved = [prod_event]) as -> by (vm_compute; reflexivity). by left.
  - clear. intros q. rewrite !elem_of_cons. tauto.
  - by left.
  - vm_compute in E0. injection E0 as <-. vm_compute. discriminate.
  - vm_compute in E1. injection E1 as <-. vm_compute. discriminate.
  - intros q ->%Hone. reflexivity.
Defined.

(** Process 1 took its configuration before the event of the save above came,
    and saves it after. *)
Lemma stale_save_overwrites_witness :
  ∃ m2 s2 ev, SaveConfig "" 1 (onUpdated prod_event proc1).1 (kv two_saved) = (inr 3, (m2, s2, Some ev)) ∧
    stored s2 !! FieldData = Some (marshal_config DefaultConfig).
Proof.
  destruct (stale_save_overwrites "" proc1 1 (set_Version 1 DefaultConfig) prod_event prod_config (kv two_saved))
    as (_ & m2 & s2 & ev & E & Hs & _);
    [eexists; vm_compute; reflexivity|vm_compute; reflexivity|vm_compute; reflexivity|vm_compute; lia|vm_compute; reflexivity
    |vm_compute; discriminate|reflexivity|apply (bool_decide_unpack _); vm_compute; exact I|vm_compute; reflexivity
    |vm_compute; reflexivity|vm_compute; split; discriminate|vm_compute; reflexivity|vm_compute; reflexivity|].
  exists m2, s2, ev. split; [exact E|exact Hs].
Defined.
