(* ===== verification/Lock.v ===== *)
(** * The distributed lock

    internal/util/lock/lock.go with redis_lock/extend-lock.lua and
    release-lock.lua: a key set only when it is absent, with a time to live,
    that its owner extends and removes.  Redis removes the key when its time is
    over, whatever the owner believes, so what the lock promises is exclusion
    between leases: a lease lasts for the time to live from the last successful
    acquisition or extension.

    Several clients with distinct owner names use one lock; time passes between
    and during their calls, and the reply of any call can get lost, also when
    Redis has executed it.  [Release] closes the channel of the refresh loop
    before it asks Redis, and keeps [acquired] when Redis does not answer: the
    client has given the lock up and still reports it as acquired. *)

From S2P Require Import Prelude Keys Redis RedisFacts Types Message.
#[local] Open Scope Z_scope.

(** ** The scripts *)

Definition extend_lock (rnow : Z) (keys args : list string) : M Z :=
  v ← cmd_get (arg keys 1);
  if decide (v = Some (arg args 1)) then
    ok ← cmd_pexpire rnow (arg keys 1) (arg args 2); mret (if (ok : bool) then 1 else 0)
  else mret 0.

Definition release_lock (keys args : list string) : M Z :=
  v ← cmd_get (arg keys 1);
  if decide (v = Some (arg args 1)) then _ ← cmd_del [arg keys 1]; mret 1
  else mret 0.

(** ** Backoff strategies

    A strategy maps the number of failed attempts to a wait in nanoseconds, or
    to a negative number to give up.  The exponential strategy uses floating
    point and randomness and is not modelled. *)

Definition BackoffStrategy : Type := Z → Z.
Definition LinearBackoff (base maxAttempts : Z) : BackoffStrategy := λ attempt,
  if decide (0 < maxAttempts ∧ maxAttempts <= attempt) then -1
  else wrap64 (base * (attempt + 1)).
Definition FixedBackoff (delay maxAttempts : Z) : BackoffStrategy := λ attempt,
  if decide (0 < maxAttempts ∧ maxAttempts <= attempt) then -1 else delay.

(** ** The lock object *)

Record Lock := {
  l_key : string;
  l_owner : string;
  l_ttl : Z;
  l_refresh : Z;
  l_backoff : option BackoffStrategy;
  l_acquired : bool;
  l_refreshing : bool
}.

Definition tryAcquire (now : Z) (l : Lock) : M bool :=
  cmd_set_px_nx now (l_key l) (l_owner l) (Milliseconds (l_ttl l)).

Definition set_acquired (l : Lock) : Lock :=
  {| l_key := l_key l; l_owner := l_owner l; l_ttl := l_ttl l; l_refresh := l_refresh l;
     l_backoff := l_backoff l; l_acquired := true;
     l_refreshing := bool_decide (0 < l_refresh l) || l_refreshing l |}.
Definition set_released (l : Lock) : Lock :=
  {| l_key := l_key l; l_owner := l_owner l; l_ttl := l_ttl l; l_refresh := l_refresh l;
     l_backoff := l_backoff l; l_acquired := false; l_refreshing := false |}.

Inductive acquire_result := Acquired (attempts : nat) | Failed (attempts : nat) | StillWaiting.

(** The retry loop of [Acquire], given the outcomes of successive attempts. *)
Fixpoint acquire_loop (backoff : option BackoffStrategy) (attempt : nat) (outcomes : list bool)
    : acquire_result :=
  match outcomes with
  | [] => StillWaiting
  | true :: _ => Acquired attempt
  | false :: rest =>
      match backoff with
      | None => Failed attempt
      | Some f => if decide (f (Z.of_nat attempt) < 0) then Failed attempt
                  else acquire_loop backoff (S attempt) rest
      end
  end.

(** One attempt of a client that does not hold the lock. *)
Definition Acquire1 (now : Z) (l : Lock) (s : store) : bool * Lock * store :=
  if l_acquired l then (false, l, s)
  else match tryAcquire now l s with
       | (Ret true, s') => (true, set_acquired l, s')
       | (_, s') => (false, l, s')
       end.

(** What [Release] leaves of the object when the script returns an error or its
    reply is lost: the refresh loop is told to stop, [acquired] stays. *)
Definition stop_refresh (l : Lock) : Lock :=
  {| l_key := l_key l; l_owner := l_owner l; l_ttl := l_ttl l; l_refresh := l_refresh l;
     l_backoff := l_backoff l; l_acquired := l_acquired l; l_refreshing := false |}.

(** [answered]: the reply of the script arrives. *)
Definition ReleaseReply (answered : bool) (l : Lock) (s : store) : Lock * store :=
  if negb (l_acquired l) then (l, s)
  else match release_lock [l_key l] [l_owner l] s with
       | (Ret _, s') => (if answered then set_released l else stop_refresh l, s')
       | (Err _, s') => (stop_refresh l, s')
       end.
Definition Release : Lock → store → Lock * store := ReleaseReply true.

(** One tick of the refresh loop; the reply of the script is dropped. *)
Definition refresh_tick (now : Z) (l : Lock) (s : store) : store :=
  if l_acquired l
  then (extend_lock now [l_key l] [l_owner l; itoa (Milliseconds (l_ttl l))] s).2 else s.

(** ** Clients *)

(** [lease]: until when the client may rely on the lock: a time to live from its
    last acquisition that succeeded or extension that Redis made, and not at all once it has
    called [Release]. *)
Record client := Client { lock : Lock; lease : Z }.
Record world := World { time : Z; keyspace : store; clients : gmap string client }.

Section clients.
Context (key : string).

(** A client's lock object is for this key and has its own owner name. *)
Definition well_formed (w : world) : Prop := ∀ o c, clients w !! o = Some c →
  l_key (lock c) = key ∧ l_owner (lock c) = o ∧
  0 < Milliseconds (l_ttl (lock c)) ∧ in_int64 (Milliseconds (l_ttl (lock c))).

(** Redis as it is at the time of a call. *)
Definition current (w : world) : store := expire_keys (time w) (keyspace w).

(** The extension a tick of the refresh loop asks for. *)
Definition extension (w : world) (l : Lock) : outcome Z * store :=
  extend_lock (time w) [l_key l] [l_owner l; itoa (Milliseconds (l_ttl l))] (current w).

(** A call of [Acquire] or [Release] whose reply is lost has been executed by
    Redis or has not reached it; the refresh loop drops the replies itself. *)
Inductive lock_step : world → world → Prop :=
| step_tick w t : time w <= t → lock_step w (World t (keyspace w) (clients w))
| step_acquire w o c ok l s :
    clients w !! o = Some c → Acquire1 (time w) (lock c) (current w) = (ok, l, s) →
    lock_step w (World (time w) s
      (<[o := Client l (if ok then time w + Milliseconds (l_ttl l) else lease c)]> (clients w)))
| step_acquire_lost w o c ok l s :
    clients w !! o = Some c → Acquire1 (time w) (lock c) (current w) = (ok, l, s) →
    lock_step w (World (time w) s (clients w))
| step_refresh w o c :
    clients w !! o = Some c →
    lock_step w (World (time w) (refresh_tick (time w) (lock c) (current w))
      (<[o := Client (lock c)
           (if decide ((extension w (lock c)).1 = Ret 1 ∧ l_acquired (lock c) = true)
            then time w + Milliseconds (l_ttl (lock c)) else lease c)]> (clients w)))
| step_release w o c answered l s :
    clients w !! o = Some c → ReleaseReply answered (lock c) (current w) = (l, s) →
    lock_step w (World (time w) s (<[o := Client l (time w)]> (clients w)))
| step_release_unsent w o c :
    clients w !! o = Some c → l_acquired (lock c) = true →
    lock_step w (World (time w) (keyspace w)
      (<[o := Client (stop_refresh (lock c)) (time w)]> (clients w)))
| step_others w s :
    db s !! key = db (keyspace w) !! key → expires s !! key = expires (keyspace w) !! key →
    lock_step w (World (time w) s (clients w)).

(** The client holds a lease that is not over. *)
Definition holds (w : world) (o : string) : Prop :=
  ∃ c, clients w !! o = Some c ∧ l_acquired (lock c) = true ∧ time w < lease c.

(** The key is [o]'s until [t]. *)
Definition owned_until (s : store) (o : string) (t : Z) : Prop :=
  db s !! key = Some (VStr o) ∧ expires s !! key = Some t.

(** A lease that is not over is the key's. *)
Definition leased (w : world) : Prop := ∀ o c,
  clients w !! o = Some c → l_acquired (lock c) = true → time w < lease c →
  owned_until (keyspace w) o (lease c).

Lemma current_key w :
  (db (current w) !! key = db (keyspace w) !! key ∧
   expires (current w) !! key = expires (keyspace w) !! key ∧ alive (time w) (keyspace w) key = true) ∨
  (db (current w) !! key = None ∧ alive (time w) (keyspace w) key = false).
Proof.
  unfold current, expire_keys. simpl. destruct (alive (time w) (keyspace w) key) eqn:E.
  - left. split_and!; [| |done].
    + destruct (db (keyspace w) !! key) as [v|] eqn:Hv.
      * by apply map_lookup_filter_Some.
      * apply map_lookup_filter_None. by left.
    + destruct (expires (keyspace w) !! key) as [t|] eqn:Ht.
      * apply map_lookup_filter_Some. split; [done|]. unfold alive in E. rewrite Ht in E.
        by apply bool_decide_eq_true in E.
      * apply map_lookup_filter_None. by left.
  - right. split; [|done]. apply map_lookup_filter_None. right. intros v _. simpl. by rewrite E.
Qed.

(** A lease survives the removal of expired keys. *)
Lemma current_leased w o c :
  leased w → clients w !! o = Some c → l_acquired (lock c) = true → time w < lease c →
  owned_until (current w) o (lease c).
Proof.
  intros Hl Hc Ha Ht. destruct (Hl o c Hc Ha Ht) as [Hd He]. unfold owned_until.
  destruct (current_key w) as [(-> & -> & _)|[_ Hdead]]; [done|].
  unfold alive in Hdead. rewrite He in Hdead. apply bool_decide_eq_false in Hdead. lia.
Qed.

Lemma acquire_leaves w l ok l' s' :
  l_key l = key → Acquire1 (time w) l (current w) = (ok, l', s') →
  (ok = false ∧ l' = l ∧ s' = current w) ∨
  (ok = true ∧ l_acquired l = false ∧ l' = set_acquired l ∧ db (current w) !! key = None ∧
   db s' !! key = Some (VStr (l_owner l)) ∧
   expires s' !! key = Some (time w + Milliseconds (l_ttl l))).
Proof.
  intros Hk. unfold Acquire1, tryAcquire, cmd_set_px_nx. rewrite Hk.
  destruct (l_acquired l); [intros [= <- <- <-]; by left|].
  destruct (db (current w) !! key) as [v|] eqn:E; intros [= <- <- <-]; [by left|].
  right. split_and!; try done; simpl; apply lookup_insert_eq.
Qed.

Lemma release_leaves answered l s l' s' :
  l_key l = key → ReleaseReply answered l s = (l', s') →
  (l' = l ∨ l' = stop_refresh l ∨ l' = set_released l) ∧
  (s' = s ∨ db s !! key = Some (VStr (l_owner l))).
Proof.
  intros Hk. unfold ReleaseReply, release_lock. rewrite Hk. cbn [arg nth Nat.sub].
  destruct (l_acquired l); simpl; [|intros [= <- <-]; by auto].
  unfold cmd_get, with_view. destruct (as_str (db s !! key)) as [v|] eqn:Hv.
  - erewrite bind_Ret; [|by rewrite Hv]. case_decide as Hd.
    + intros [= <- <-]. split; [destruct answered; auto|]. right. subst v.
      destruct (db s !! key) as [[]|]; simplify_eq/=; done.
    + intros [= <- <-]. split; [destruct answered; auto|]. by left.
  - erewrite bind_Err; [|by rewrite Hv]. intros [= <- <-]. auto.
Qed.

Lemma extend_leaves now l s :
  l_key l = key → in_int64 (Milliseconds (l_ttl l)) →
  let r := extend_lock now [l_key l] [l_owner l; itoa (Milliseconds (l_ttl l))] s in
  (r.1 ≠ Ret 1 ∧ r.2 = s) ∨
  (r.1 = Ret 1 ∧ db r.2 = db s ∧ db s !! key = Some (VStr (l_owner l)) ∧
   expires r.2 !! key = Some (now + Milliseconds (l_ttl l))).
Proof.
  intros Hk Hr. unfold extend_lock. rewrite Hk. cbn [arg nth Nat.sub].
  unfold cmd_get, with_view. destruct (as_str (db s !! key)) as [v|] eqn:Hv.
  2: { erewrite bind_Err; [|by rewrite Hv]. by left. }
  erewrite bind_Ret; [|by rewrite Hv]. case_decide as Hd; [|by left]. subst v.
  assert (db s !! key = Some (VStr (l_owner l))) as Hdb.
  { destruct (db s !! key) as [[]|]; simplify_eq/=; done. }
  unfold cmd_pexpire. rewrite string2ll_itoa by done.
  erewrite bind_Ret; [|rewrite decide_True by (rewrite Hdb; by eexists); done].
  right. split_and!; [done|done|done|]. apply lookup_insert_eq.
Qed.

(** Replacing one client. *)
Lemma replace_wf w o c c' t s :
  well_formed w → clients w !! o = Some c → l_key (lock c') = l_key (lock c) →
  l_owner (lock c') = l_owner (lock c) → l_ttl (lock c') = l_ttl (lock c) →
  well_formed (World t s (<[o := c']> (clients w))).
Proof.
  intros Hwf Hc Hk Ho Ht o' c0. simpl. destruct (decide (o' = o)) as [->|Hne].
  - rewrite lookup_insert_eq. intros [= <-]. rewrite Hk, Ho, Ht. by apply Hwf.
  - rewrite lookup_insert_ne by done. apply Hwf.
Qed.

Lemma replace_leased w o c' s :
  (l_acquired (lock c') = true → time w < lease c' → owned_until s o (lease c')) →
  (∀ o' c, o' ≠ o → clients w !! o' = Some c → l_acquired (lock c) = true → time w < lease c →
     owned_until s o' (lease c)) →
  leased (World (time w) s (<[o := c']> (clients w))).
Proof.
  intros H1 H2 o' c. simpl. destruct (decide (o' = o)) as [->|Hne].
  - rewrite lookup_insert_eq. by intros [= <-].
  - rewrite lookup_insert_ne by done. by apply H2.
Qed.

Section keeps.
Context (w : world) (Hwf : well_formed w) (Hl : leased w).

(** No other client holds a lease while the key names [o]. *)
Lemma others_out o o' c :
  db (current w) !! key = Some (VStr o) → o' ≠ o → clients w !! o' = Some c →
  l_acquired (lock c) = true → time w < lease c → False.
Proof using Hl.
  intros Hd Hne Hc Ha Ht. destruct (current_leased w o' c Hl Hc Ha Ht). congruence.
Qed.

Lemma keep_acquire o c ok l s :
  clients w !! o = Some c → Acquire1 (time w) (lock c) (current w) = (ok, l, s) →
  well_formed (World (time w) s
    (<[o := Client l (if ok then time w + Milliseconds (l_ttl l) else lease c)]> (clients w))) ∧
  leased (World (time w) s
    (<[o := Client l (if ok then time w + Milliseconds (l_ttl l) else lease c)]> (clients w))).
Proof using Hwf Hl.
  intros Hc Hacq. destruct (Hwf o c Hc) as (Hk & Ho & _).
  destruct (acquire_leaves w (lock c) ok l s Hk Hacq)
    as [(-> & -> & ->)|(-> & Hna & -> & Hnone & Hs & He)].
  - split; [by eapply replace_wf|]. apply replace_leased; simpl.
    + intros Ha Ht. by apply current_leased.
    + intros o' c' _. by apply current_leased.
  - split; [by eapply replace_wf|]. apply replace_leased; simpl.
    + intros _ _. unfold owned_until. by rewrite Hs, He, Ho.
    + intros o' c' _ Hc' Ha Ht. destruct (current_leased w o' c' Hl Hc' Ha Ht). congruence.
Qed.

Lemma keep_acquire_lost o c ok l s :
  clients w !! o = Some c → Acquire1 (time w) (lock c) (current w) = (ok, l, s) →
  leased (World (time w) s (clients w)).
Proof using Hwf Hl.
  intros Hc Hacq. destruct (Hwf o c Hc) as (Hk & Ho & _).
  destruct (acquire_leaves w (lock c) ok l s Hk Hacq)
    as [(-> & -> & ->)|(-> & Hna & -> & Hnone & Hs & He)]; intros o' c' Hc' Ha Ht; cbn [clients time keyspace] in *.
  - by apply current_leased.
  - destruct (current_leased w o' c' Hl Hc' Ha Ht). congruence.
Qed.

Lemma keep_refresh o c :
  clients w !! o = Some c →
  leased (World (time w) (refresh_tick (time w) (lock c) (current w))
    (<[o := Client (lock c) (if decide ((extension w (lock c)).1 = Ret 1 ∧ l_acquired (lock c) = true)
                             then time w + Milliseconds (l_ttl (lock c)) else lease c)]> (clients w))).
Proof using Hwf Hl.
  intros Hc. destruct (Hwf o c Hc) as (Hk & Ho & Hpos & Hri).
  unfold refresh_tick. destruct (l_acquired (lock c)) eqn:Ea.
  2: { apply replace_leased; simpl; [intros; congruence|]. intros o' c' _. by apply current_leased. }
  pose proof (extend_leaves (time w) (lock c) (current w) Hk Hri) as Hext.
  cbv zeta in Hext. fold (extension w (lock c)) in *.
  destruct Hext as [[Hn Hs]|(H1 & Hdb & Hown & Hexp)].
  - rewrite Hs. rewrite decide_False by naive_solver. apply replace_leased; simpl.
    + intros _ Ht. by apply current_leased.
    + intros o' c' _. by apply current_leased.
  - rewrite decide_True by done. apply replace_leased; simpl.
    + intros _ _. unfold owned_until. by rewrite Hdb, Hown, Ho, Hexp.
    + intros o' c' Hne Hc' Ha Ht. exfalso. rewrite Ho in Hown. by eapply others_out.
Qed.

Lemma keep_release o c answered l s :
  clients w !! o = Some c → ReleaseReply answered (lock c) (current w) = (l, s) →
  well_formed (World (time w) s (<[o := Client l (time w)]> (clients w))) ∧
  leased (World (time w) s (<[o := Client l (time w)]> (clients w))).
Proof using Hwf Hl.
  intros Hc Hrel. destruct (Hwf o c Hc) as (Hk & Ho & _).
  destruct (release_leaves answered (lock c) _ l s Hk Hrel) as [Hor Hs]. split.
  - destruct Hor as [-> |[-> | ->]]; by eapply replace_wf.
  - apply replace_leased; [simpl; lia|]. intros o' c' Hne Hc' Ha Ht.
    destruct Hs as [-> | Hown]; [by apply current_leased|].
    exfalso. rewrite Ho in Hown. by eapply others_out.
Qed.

Lemma keep_unsent o c :
  clients w !! o = Some c →
  leased (World (time w) (keyspace w) (<[o := Client (stop_refresh (lock c)) (time w)]> (clients w))).
Proof using Hl. intros Hc. apply replace_leased; [simpl; lia|]. intros o' c' _. by apply Hl. Qed.
End keeps.

Lemma lock_step_keeps w w' :
  well_formed w → leased w → lock_step w w' → well_formed w' ∧ leased w'.
Proof.
  intros Hwf Hl Hstep. destruct Hstep as [w t Ht|w o c ok l s Hc Hacq|w o c ok l s Hc Hacq
    |w o c Hc|w o c answered l s Hc Hrel|w o c Hc Ha|w s Hd He].
  - split; [done|]. intros o c Hc Ha Hlt. simpl in *. apply Hl; [done..|lia].
  - by eapply keep_acquire.
  - split; [done|]. by eapply keep_acquire_lost.
  - split; [by eapply replace_wf|]. by apply keep_refresh.
  - by eapply keep_release.
  - split; [by eapply replace_wf|]. by apply keep_unsent.
  - split; [done|]. intros o c Hc Ha Hlt. simpl in *. unfold owned_until. rewrite Hd, He. by apply Hl.
Qed.
End clients.

(** Clients that have not tried yet. *)
Definition fresh_world (w : world) : Prop :=
  ∀ o c, clients w !! o = Some c → l_acquired (lock c) = false.

(** C35: the lock excludes.  Whatever the clients do (attempts, refreshes,
    releases, in any order and at any times) and whichever replies are lost, two
    clients never hold unexpired leases at once, and a client with an unexpired
    lease still has the key in Redis under its own name.  A lease counts from an
    acquisition or extension and is given up by calling [Release], whether or not
    the call succeeds: [acquired] is no evidence of a lease after a failed release
    ([lost_release_reply]). *)
Theorem lock_mutual_exclusion key w0 w :
  well_formed key w0 → fresh_world w0 → rtc (lock_step key) w0 w →
  (∀ o o', holds w o → holds w o' → o = o') ∧
  (∀ o, holds w o → db (keyspace w) !! key = Some (VStr o) ∧
                    alive (time w) (keyspace w) key = true).
Proof.
  intros Hwf Hfresh Hs.
  assert (well_formed key w ∧ leased key w) as [_ Hl].
  { assert (leased key w0) as Hl0.
    { intros o c Hc Ha. by rewrite (Hfresh o c Hc) in Ha. }
    clear Hfresh. induction Hs as [|x y z Hxy _ IH]; [done|].
    destruct (lock_step_keeps key x y Hwf Hl0 Hxy) as [H1 H2]. by apply IH. }
  split.
  - intros o o' (c & Hc & Ha & Ht) (c' & Hc' & Ha' & Ht').
    destruct (Hl o c Hc Ha Ht) as [H1 _]. destruct (Hl o' c' Hc' Ha' Ht') as [H2 _]. congruence.
  - intros o (c & Hc & Ha & Ht). destruct (Hl o c Hc Ha Ht) as [H1 H2]. split; [done|].
    unfold alive. rewrite H2. by apply bool_decide_eq_true.
Qed.

Definition sample_lock (o : string) : Lock := {|
  l_key := "k"; l_owner := o; l_ttl := 30000000000; l_refresh := 0; l_backoff := None;
  l_acquired := false; l_refreshing := false
|}.
Definition sample_world : world :=
  World 100 empty_store (<["a" := Client (sample_lock "a") 0]>
                           (<["b" := Client (sample_lock "b") 0]> ∅)).

Lemma sample_world_wf : well_formed "k" sample_world ∧ fresh_world sample_world.
Proof.
  split; intros o c; simpl; rewrite !lookup_insert_Some, lookup_empty;
    intros [[<- <-]|[_ [[<- <-]|[_ H]]]]; try done;
    (split_and!; [done|done|done|vm_compute; split; discriminate]).
Qed.

Lemma triple_eta {A B C} (x : A * B * C) : x = (x.1.1, x.1.2, x.2).
Proof. by destruct x as [[]]. Qed.

Lemma lock_mutual_exclusion_witness :
  ∃ w, holds w "a" ∧ (∀ o, holds w o → o = "a").
Proof.
  set (r := Acquire1 100 (sample_lock "a") (current sample_world)).
  pose proof (step_acquire "k" sample_world "a" (Client (sample_lock "a") 0) r.1.1 r.1.2 r.2
                eq_refl (triple_eta r)) as Hstep.
  match type of Hstep with lock_step _ _ ?w' => exists w' end.
  match goal with |- holds ?w _ ∧ _ =>
    assert (holds w "a") as Ha by
      (eexists; split; [apply lookup_insert_eq|split; vm_compute; reflexivity]);
    destruct sample_world_wf as [H1 H2];
    destruct (lock_mutual_exclusion "k" sample_world w H1 H2 (rtc_once _ _ Hstep)) as [Hx _]
  end.
  split; [exact Ha|]. intros o Ho. exact (Hx o "a" Ho Ha).
Defined.

(** A release that Redis executes and whose reply is lost: the client still reports
    the lock as acquired while another client acquires it, so [IsAcquired] holds
    for both, with only the second one holding a lease. *)
Theorem lost_release_reply :
  ∃ w, rtc (lock_step "k") sample_world w ∧
    (l_acquired ∘ lock <$> clients w !! "a") = Some true ∧
    (l_acquired ∘ lock <$> clients w !! "b") = Some true ∧
    holds w "b" ∧ ¬ holds w "a".
Proof.
  eexists. split; [|split_and!].
  - eapply rtc_l.
    { by apply (step_acquire "k" sample_world "a" (Client (sample_lock "a") 0)
                  _ _ _ eq_refl (triple_eta _)). }
    eapply rtc_l.
    { eapply (step_release "k" _ "a" _ false);
        [apply lookup_insert_eq|apply surjective_pairing]. }
    eapply rtc_once.
    eapply (step_acquire "k" _ "b" (Client (sample_lock "b") 0)); [|apply triple_eta].
    cbn. by rewrite !lookup_insert_ne, lookup_insert_eq by done.
  - vm_compute. reflexivity.
  - vm_compute. reflexivity.
  - eexists. split; [apply lookup_insert_eq|]. split; vm_compute; reflexivity.
  - intros (c & Hc & _ & Ht). cbn in Hc.
    rewrite lookup_insert_ne, lookup_insert_eq in Hc by done. simplify_eq.
    vm_compute in Ht. discriminate.
Qed.

(** Bounded retries end: with a linear or fixed backoff of [n > 0] attempts
    the acquisition loop fails after exactly [n] further attempts when every
    attempt fails, and stops at the first success before that. *)
Theorem acquire_retries_bounded backoff base n outcomes :
  0 < n → 0 <= base → base * (n + 1) <= int64_max →
  backoff = LinearBackoff base n ∨ backoff = FixedBackoff base n →
  (Z.to_nat n < length outcomes)%nat →
  acquire_loop (Some backoff) 0 outcomes =
  match list_find (λ b, b = true) (take (S (Z.to_nat n)) outcomes) with
  | Some (i, _) => Acquired i
  | None => Failed (Z.to_nat n)
  end.
Proof.
  intros Hn Hb Hmax Hor Hlen.
  assert (∀ a : nat, (a < Z.to_nat n)%nat → backoff (Z.of_nat a) >= 0) as Hgo.
  { intros a Ha. destruct Hor as [-> | ->]; unfold LinearBackoff, FixedBackoff;
      rewrite decide_False by lia; [|lia].
    rewrite wrap64_id; [nia|]. unfold in_int64, int64_min, int64_max in *. nia. }
  assert (backoff n < 0) as Hstop.
  { destruct Hor as [-> | ->]; unfold LinearBackoff, FixedBackoff; rewrite decide_True by lia; lia. }
  assert (∀ m a outs, (a + m = Z.to_nat n)%nat → (m < length outs)%nat →
    acquire_loop (Some backoff) a outs =
    match list_find (λ b, b = true) (take (S m) outs) with
    | Some (i, _) => Acquired (a + i)
    | None => Failed (Z.to_nat n)
    end) as Hloop; [|by rewrite (Hloop (Z.to_nat n) 0%nat) by lia].
  induction m as [|m IH]; intros a [|x outs] Ha Hl; simpl in Hl; try lia; cbn [acquire_loop take].
  - destruct x; [simpl; by rewrite Nat.add_0_r|]. rewrite decide_True; [simpl; f_equal; lia|].
    replace (Z.of_nat a) with n by lia. done.
  - destruct x; [simpl; by rewrite Nat.add_0_r|].
    rewrite decide_False by (pose proof (Hgo a); lia). rewrite IH by lia.
    cbn [list_find]. rewrite decide_False by done.
    destruct (list_find _ (take (S m) outs)) as [[i b]|]; [|done]. simpl. f_equal. lia.
Qed.

Lemma acquire_retries_bounded_witness :
  acquire_loop (Some (FixedBackoff 5 2)) 0 [false; false; false; true] = Failed 2.
Proof.
  exact (acquire_retries_bounded (FixedBackoff 5 2) 5 2 [false; false; false; true]
           eq_refl (ltac:(discriminate)) (ltac:(vm_compute; discriminate)) (or_intror eq_refl)
           (ltac:(apply (bool_decide_unpack _); vm_compute; exact I))).
Defined.
