(* ===== verification/Exchange.v ===== *)
(** * Exchanges and their bindings

    internal/exchange: the stored properties of an exchange (store.go,
    codec.go), the rules for binding a queue (validate.go), and the direct,
    topic and fanout exchanges (direct.go, topic.go, fanout.go), which keep
    under each routing key or pattern the set of queues bound to it and with
    each queue the set of exchanges it is bound to.

    The operations run in optimistic transactions (internal/redis/tx.go): they
    watch some keys, read, and queue commands that are executed atomically
    unless a watched key has changed.  What other clients do between the reads
    and the execution is an argument of the model. *)

From S2P Require Import Prelude Keys Redis RedisFacts Types Keyspace Topic Json Message MessageCodec.
#[local] Open Scope Z_scope.

Inductive exchange_error :=
| XNotFound | XAlreadyExists | XTypeMismatch | XNamespaceMismatch | XQueueAlreadyBound
| XQueueNotBound | XPolicyViolation | XHasBoundQueues | XInvalidPattern | XQueueNotFound
| XParse | XRedis (e : rerr) | XAttempts.

#[global] Instance exchange_error_eq_dec : EqDecision exchange_error.
Proof. solve_decision. Defined.

(** ** Optimistic transactions (internal/redis/tx.go) *)

(** No watched key has changed. *)
Definition unchanged (watch : list string) (s s' : store) : Prop :=
  Forall (λ k, db s' !! k = db s !! k) watch.

#[global] Instance value_eq_dec : EqDecision value.
Proof. solve_decision. Defined.
#[global] Instance unchanged_dec watch s s' : Decision (unchanged watch s s').
Proof. unfold unchanged. apply _. Defined.

(** [EXEC] runs every queued command, also after one that failed; the first
    error is reported. *)
Fixpoint exec_all (cmds : list (M unit)) (s : store) : option rerr * store :=
  match cmds with
  | [] => (None, s)
  | m :: cmds =>
      match m s with
      | (Ret _, s') => exec_all cmds s'
      | (Err e, s') => (Some e, (exec_all cmds s').2)
      end
  end.

(** [fn] reads and returns an error or the commands to execute.  [others] holds
    for each attempt what the other clients do between its reads and its
    execution; its length is the number of attempts.  Redis also aborts when a
    watched key was written and then restored; here such an attempt executes,
    so that what holds of every execution here holds of those of Redis. *)
Fixpoint WithTransaction (watch : list string) (fn : M (exchange_error + list (M unit)))
    (others : list (store → store)) (s : store) : (exchange_error + unit) * store :=
  match others with
  | [] => (inl XAttempts, s)
  | other :: others =>
      match fn s with
      | (Err e, _) => (inl (XRedis e), s)
      | (Ret (inl e), _) => (inl e, s)
      | (Ret (inr cmds), _) =>
          let s' := other s in
          if decide (unchanged watch s s') then
            match exec_all cmds s' with
            | (None, s'') => (inr tt, s'')
            | (Some e, s'') => (inl (XRedis e), s'')
            end
          else WithTransaction watch fn others s'
      end
  end.

(** Nobody interferes. *)
Definition alone (n : nat) : list (store → store) := replicate n (λ s, s).

(** ** Encodings (internal/exchange/codec.go, internal/queue/codec.go) *)

Definition xkey (f : Z) : string := itoa f.
Definition X_Type : Z := 0.
Definition X_Policy : Z := 1.

Definition encode_queue (p : QParams) : string := print (q_MarshalJSON p).
Definition decode_queue (data : string) : option QParams :=
  j ← parse_json data; p ← q_UnmarshalJSON j;
  if decide (q_name p = "" ∨ q_ns p = "") then None else Some p.
Definition DecodeParamsSlice (members : list string) : list QParams := omap decode_queue members.

Definition encode_exchange (p : EParams) : string := print (e_MarshalJSON p).
Definition decode_exchange (data : string) : option EParams :=
  j ← parse_json data; p ← e_UnmarshalJSON j;
  if decide (e_name p = "" ∨ e_ns p = "") then None else Some p.

Record XProps := { xp_Type : Z; xp_Policy : Z }.

Definition EncodeProps (p : XProps) : list (string * string) :=
  [(xkey X_Type, itoa (xp_Type p)); (xkey X_Policy, itoa (xp_Policy p))].

Definition props_field (h : gmap string string) (f : Z) : option Z :=
  match h !! xkey f with
  | None => Some 0
  | Some v => match ParseInt v with (n, None) => Some n | _ => None end
  end.
Definition DecodeProps (h : gmap string string) : option XProps :=
  ty ← props_field h X_Type; policy ← props_field h X_Policy;
  Some {| xp_Type := ty; xp_Policy := policy |}.

(** ** Properties of exchanges (internal/exchange/store.go) *)

Definition save_watch (x : EParams) : list string :=
  [ExchangeProperties (exchange_keys_of x); AllExchanges; NamespaceExchanges (e_ns x)].
Definition save_tx (x : EParams) (policy : Z) : M (exchange_error + list (M unit)) :=
  exists' ← cmd_hexists (ExchangeProperties (exchange_keys_of x)) (xkey X_Type);
  if (exists' : bool) then mret (inl XAlreadyExists)
  else mret (inr
    [cmd_hset (ExchangeProperties (exchange_keys_of x))
       (EncodeProps {| xp_Type := e_typ x; xp_Policy := policy |});
     cmd_sadd AllNamespaces (e_ns x);
     cmd_sadd AllExchanges (encode_exchange x);
     cmd_sadd (NamespaceExchanges (e_ns x)) (encode_exchange x)]).
Definition Save (x : EParams) (policy : Z) (others : list (store → store))
    : store → (exchange_error + unit) * store :=
  WithTransaction (save_watch x) (save_tx x policy) others.

Definition Load (x : EParams) (s : store) : exchange_error + XProps :=
  match cmd_hgetall (ExchangeProperties (exchange_keys_of x)) s with
  | (Err _, _) => inl XNotFound
  | (Ret h, _) =>
      if decide (h = ∅) then inl XNotFound
      else match DecodeProps h with Some p => inr p | None => inl XParse end
  end.

Definition ValidateType (x : EParams) (s : store) : option exchange_error :=
  match cmd_hget (ExchangeProperties (exchange_keys_of x)) (xkey X_Type) s with
  | (Ret (Some storedType), _) =>
      match ParseInt storedType with
      | (typeValue, None) => if decide (typeValue = e_typ x) then None else Some XTypeMismatch
      | _ => Some XParse
      end
  | _ => Some XNotFound
  end.

(** ** Binding rules (internal/exchange/validate.go) *)

(** The type of a queue: [Store.Load] of internal/queue/store.go, of which the
    validation uses the type. *)
Definition load_queue_type (q : QParams) (s : store) : exchange_error + Z :=
  match cmd_hgetall (Properties (queue_keys_of q)) s with
  | (Err e, _) => inl (XRedis e)
  | (Ret h, _) =>
      if decide (h = ∅) then inl XQueueNotFound
      else inr match h !! qkey Q_Type with Some v => (ParseInt v).1 | None => 0 end
  end.

Definition checkPolicy (props : XProps) (queueType : Z) : bool :=
  if decide (xp_Policy props = PolicyStandard) then
    bool_decide (queueType = TypeFIFO ∨ queueType = TypeLIFO)
  else if decide (xp_Policy props = PolicyPriority) then bool_decide (queueType = TypePriority)
  else true.

(** An exchange that does not exist yet may be bound to: it is created then. *)
Definition ValidateQueueBinding (x : EParams) (q : QParams) (s : store) : option exchange_error :=
  match load_queue_type q s with
  | inl e => Some e
  | inr queueType =>
      match Load x s with
      | inl e => if decide (e = XNotFound) then None else Some e
      | inr props =>
          if decide (xp_Type props ≠ e_typ x) then Some XTypeMismatch
          else if checkPolicy props queueType then None else Some XPolicyViolation
      end
  end.

(** A test that reads the keyspace, inside a transaction. *)
Definition guarded (test : store → option exchange_error) (m : M (exchange_error + list (M unit)))
    : M (exchange_error + list (M unit)) :=
  λ s, match test s with Some e => (Ret (inl e), s) | None => m s end.

(** ** Bindings

    The direct exchange keeps the queues of each routing key, the topic
    exchange those of each pattern, in the same way: a set of labels, and a set
    of queues for each. *)

Record label_keys := { lk_labels : string; lk_queues : string → string }.

Definition direct_keys (x : EParams) : label_keys := {|
  lk_labels := RoutingKeys (exchange_keys_of x);
  lk_queues := RoutingKeyQueues (exchange_keys_of x)
|}.
Definition topic_keys (x : EParams) : label_keys := {|
  lk_labels := BindingPatterns (exchange_keys_of x);
  lk_queues := PatternQueues (exchange_keys_of x)
|}.

(** *** Binding *)

(** The commands every first binding queues. *)
Definition register_exchange (x : EParams) : list (M unit) :=
  [cmd_hset (ExchangeProperties (exchange_keys_of x)) [(xkey X_Type, itoa (e_typ x))];
   cmd_sadd AllExchanges (encode_exchange x);
   cmd_sadd (NamespaceExchanges (e_ns x)) (encode_exchange x)].

Definition bind_watch (ks : label_keys) (q : QParams) (x : EParams) (label : string) : list string :=
  let exKey := exchange_keys_of x in
  [ExchangeKey exKey; ExchangeProperties exKey; lk_labels ks; lk_queues ks label;
   ExchangeBindings (queue_keys_of q); AllExchanges; NamespaceExchanges (e_ns x)].
Definition bind_tx (ks : label_keys) (q : QParams) (x : EParams) (label : string)
    : M (exchange_error + list (M unit)) :=
  guarded (ValidateQueueBinding x q)
    (isMember ← cmd_sismember (lk_queues ks label) (encode_queue q);
     if (isMember : bool) then mret (inl XQueueAlreadyBound)
     else mret (inr (register_exchange x ++
            [cmd_sadd (lk_labels ks) label;
             cmd_sadd (lk_queues ks label) (encode_queue q);
             cmd_sadd (ExchangeBindings (queue_keys_of q)) (encode_exchange x)]))).
Definition bind_labelled (ks : label_keys) (q : QParams) (x : EParams) (label : string)
    (others : list (store → store)) : store → (exchange_error + unit) * store :=
  WithTransaction (bind_watch ks q x label) (bind_tx ks q x label) others.

(** *** Unbinding *)

(** Whether the queue is in the set of another label: stops at the first. *)
Fixpoint still_bound (ks : label_keys) (label queueStr : string) (labels : list string) : M bool :=
  match labels with
  | [] => mret false
  | l :: labels =>
      if decide (l = label) then still_bound ks label queueStr labels
      else
        member ← cmd_sismember (lk_queues ks l) queueStr;
        if (member : bool) then mret true else still_bound ks label queueStr labels
  end.

Definition unbind_watch (ks : label_keys) (q : QParams) (x : EParams) (label : string) : list string :=
  [ExchangeKey (exchange_keys_of x); lk_labels ks; lk_queues ks label;
   ExchangeBindings (queue_keys_of q)].
Definition unbind_tx (ks : label_keys) (q : QParams) (x : EParams) (label : string)
    : M (exchange_error + list (M unit)) :=
  guarded (ValidateType x)
    (isMember ← cmd_sismember (lk_queues ks label) (encode_queue q);
     if negb isMember then mret (inl XQueueNotBound)
     else
       allLabels ← cmd_smembers (lk_labels ks);
       stillBound ← still_bound ks label (encode_queue q) allLabels;
       count ← cmd_scard (lk_queues ks label);
       mret (inr
         ([cmd_srem (lk_queues ks label) (encode_queue q)] ++
          (if decide (count = 1) then [cmd_srem (lk_labels ks) label] else []) ++
          (if (stillBound : bool) then []
           else [cmd_srem (ExchangeBindings (queue_keys_of q)) (encode_exchange x)])))).
Definition unbind_labelled (ks : label_keys) (q : QParams) (x : EParams) (label : string)
    (others : list (store → store)) : store → (exchange_error + unit) * store :=
  WithTransaction (unbind_watch ks q x label) (unbind_tx ks q x label) others.

(** *** Deleting *)

Fixpoint any_bound (ks : label_keys) (labels : list string) : M bool :=
  match labels with
  | [] => mret false
  | l :: labels =>
      count ← cmd_scard (lk_queues ks l);
      if decide (0 < count) then mret true else any_bound ks labels
  end.

Definition delete_commands (x : EParams) (labelsKey : string) : list (M unit) :=
  [cmd_del [ExchangeKey (exchange_keys_of x)]; cmd_del [ExchangeProperties (exchange_keys_of x)];
   cmd_del [labelsKey]; cmd_srem AllExchanges (encode_exchange x);
   cmd_srem (NamespaceExchanges (e_ns x)) (encode_exchange x)].

(** [allLabels] was read before the transaction. *)
Definition delete_watch (ks : label_keys) (x : EParams) (allLabels : list string) : list string :=
  [ExchangeKey (exchange_keys_of x); lk_labels ks; AllExchanges; NamespaceExchanges (e_ns x)] ++
  (lk_queues ks <$> allLabels).
Definition delete_tx (ks : label_keys) (x : EParams) (allLabels : list string)
    : M (exchange_error + list (M unit)) :=
  guarded (ValidateType x)
    (bound ← any_bound ks allLabels;
     if (bound : bool) then mret (inl XHasBoundQueues)
     else mret (inr (delete_commands x (lk_labels ks) ++
            ((λ l, cmd_del [lk_queues ks l]) <$> allLabels)))).
Definition delete_labelled (ks : label_keys) (x : EParams) (allLabels : list string)
    (others : list (store → store)) : store → (exchange_error + unit) * store :=
  WithTransaction (delete_watch ks x allLabels) (delete_tx ks x allLabels) others.

(** ** The direct exchange (internal/exchange/direct.go) *)

Definition members (key : string) (s : store) : exchange_error + list string :=
  match cmd_smembers key s with (Ret l, _) => inr l | (Err e, _) => inl (XRedis e) end.

Definition direct_Create (x : EParams) (policy : Z) (others : list (store → store)) (s : store)
    : (exchange_error + unit) * store :=
  if decide (e_typ x ≠ TypeDirect) then (inl XTypeMismatch, s) else Save x policy others s.

Definition direct_BindQueue (q : QParams) (x : EParams) (routingKey : string)
    (others : list (store → store)) (s : store) : (exchange_error + unit) * store :=
  if decide (q_ns q ≠ e_ns x) then (inl XNamespaceMismatch, s)
  else bind_labelled (direct_keys x) q x routingKey others s.

Definition direct_UnbindQueue (q : QParams) (x : EParams) (routingKey : string)
    (others : list (store → store)) (s : store) : (exchange_error + unit) * store :=
  if decide (q_ns q ≠ e_ns x) then (inl XNamespaceMismatch, s)
  else unbind_labelled (direct_keys x) q x routingKey others s.

Definition direct_RoutingKeys (x : EParams) (s : store) : exchange_error + list string :=
  match ValidateType x s with
  | Some e => inl e
  | None => members (RoutingKeys (exchange_keys_of x)) s
  end.

Definition direct_BoundQueues (x : EParams) (routingKey : string) (s : store)
    : exchange_error + list QParams :=
  match ValidateType x s with
  | Some e => inl e
  | None =>
      match members (RoutingKeyQueues (exchange_keys_of x) routingKey) s with
      | inl e => inl e
      | inr l => inr (DecodeParamsSlice l)
      end
  end.

Definition direct_MatchQueues (x : EParams) (routingKey : string) (s : store)
    : exchange_error + list QParams :=
  match ValidateType x s with
  | Some e => inl e
  | None => direct_BoundQueues x routingKey s
  end.

(** Collects the queues of each label; fails at the first error. *)
Fixpoint collect {A} (f : string → exchange_error + A) (labels : list string)
    : exchange_error + list (string * A) :=
  match labels with
  | [] => inr []
  | l :: labels =>
      match f l with
      | inl e => inl e
      | inr a => match collect f labels with inl e => inl e | inr r => inr ((l, a) :: r) end
      end
  end.

Definition direct_Bindings (x : EParams) (s : store) : exchange_error + list (string * list QParams) :=
  match direct_RoutingKeys x s with
  | inl e => inl e
  | inr routingKeys => collect (λ rk, direct_BoundQueues x rk s) routingKeys
  end.

(** [between]: what happens after the routing keys were read and before the
    transaction starts. *)
Definition direct_Delete (x : EParams) (between : store → store) (others : list (store → store))
    (s : store) : (exchange_error + unit) * store :=
  match direct_RoutingKeys x s with
  | inl e => (inl e, s)
  | inr allKeys => delete_labelled (direct_keys x) x allKeys others (between s)
  end.

(** ** The topic exchange (internal/exchange/topic.go) *)

Definition topic_Create (x : EParams) (policy : Z) (others : list (store → store)) (s : store)
    : (exchange_error + unit) * store :=
  if decide (e_typ x ≠ TypeTopic) then (inl XTypeMismatch, s) else Save x policy others s.

Definition topic_BindQueue (q : QParams) (x : EParams) (pattern : string)
    (others : list (store → store)) (s : store) : (exchange_error + unit) * store :=
  if decide (q_ns q ≠ e_ns x) then (inl XNamespaceMismatch, s)
  else if negb (validateTopicPattern pattern) then (inl XInvalidPattern, s)
  else bind_labelled (topic_keys x) q x pattern others s.

Definition topic_UnbindQueue (q : QParams) (x : EParams) (pattern : string)
    (others : list (store → store)) (s : store) : (exchange_error + unit) * store :=
  if decide (q_ns q ≠ e_ns x) then (inl XNamespaceMismatch, s)
  else if negb (validateTopicPattern pattern) then (inl XInvalidPattern, s)
  else unbind_labelled (topic_keys x) q x pattern others s.

Definition patterns (x : EParams) (s : store) : exchange_error + list string :=
  members (BindingPatterns (exchange_keys_of x)) s.

Definition boundQueues (x : EParams) (pattern : string) (s : store) : exchange_error + list QParams :=
  match members (PatternQueues (exchange_keys_of x) pattern) s with
  | inl e => inl e
  | inr l => inr (DecodeParamsSlice l)
  end.

(** The queues not seen before, in order. *)
Fixpoint unseen (seen : list string) (qs : list QParams) : list QParams :=
  match qs with
  | [] => []
  | q :: qs =>
      let key := q_ns q +:+ ":" +:+ q_name q in
      if decide (key ∈ seen) then unseen seen qs else q :: unseen (key :: seen) qs
  end.

Definition topic_MatchQueues (x : EParams) (routingKey : string) (s : store)
    : exchange_error + list QParams :=
  match ValidateType x s with
  | Some e => inl e
  | None =>
      match patterns x s with
      | inl e => inl e
      | inr ps =>
          let matchedPatterns := filter (λ p, matchTopicPattern routingKey p = true) ps in
          match collect (λ p, boundQueues x p s) matchedPatterns with
          | inl e => inl e
          | inr bound => inr (unseen [] (mjoin bound.*2))
          end
      end
  end.

Definition topic_Patterns (x : EParams) (s : store) : exchange_error + list string :=
  match ValidateType x s with Some e => inl e | None => patterns x s end.

Definition topic_BoundQueues (x : EParams) (pattern : string) (s : store)
    : exchange_error + list QParams :=
  match ValidateType x s with Some e => inl e | None => boundQueues x pattern s end.

Definition topic_Bindings (x : EParams) (s : store) : exchange_error + list (string * list QParams) :=
  match topic_Patterns x s with
  | inl e => inl e
  | inr ps => collect (λ p, boundQueues x p s) ps
  end.

Definition topic_Delete (x : EParams) (between : store → store) (others : list (store → store))
    (s : store) : (exchange_error + unit) * store :=
  match patterns x s with
  | inl e => (inl e, s)
  | inr allPatterns => delete_labelled (topic_keys x) x allPatterns others (between s)
  end.

(** ** The fanout exchange (internal/exchange/fanout.go) *)

Definition fanout_Create (x : EParams) (policy : Z) (others : list (store → store)) (s : store)
    : (exchange_error + unit) * store :=
  if decide (e_typ x ≠ TypeFanout) then (inl XTypeMismatch, s) else Save x policy others s.

Definition fanout_bind_watch (q : QParams) (x : EParams) : list string :=
  let exKey := exchange_keys_of x in
  [ExchangeKey exKey; ExchangeProperties exKey; FanoutQueues exKey;
   ExchangeBindings (queue_keys_of q); AllExchanges; NamespaceExchanges (e_ns x)].
Definition fanout_bind_tx (q : QParams) (x : EParams) : M (exchange_error + list (M unit)) :=
  guarded (ValidateQueueBinding x q)
    (isMember ← cmd_sismember (FanoutQueues (exchange_keys_of x)) (encode_queue q);
     if (isMember : bool) then mret (inl XQueueAlreadyBound)
     else mret (inr (register_exchange x ++
            [cmd_sadd (FanoutQueues (exchange_keys_of x)) (encode_queue q);
             cmd_sadd (ExchangeBindings (queue_keys_of q)) (encode_exchange x)]))).
Definition fanout_BindQueue (q : QParams) (x : EParams) (others : list (store → store)) (s : store)
    : (exchange_error + unit) * store :=
  if decide (q_ns q ≠ e_ns x) then (inl XNamespaceMismatch, s)
  else WithTransaction (fanout_bind_watch q x) (fanout_bind_tx q x) others s.

Definition fanout_unbind_watch (q : QParams) (x : EParams) : list string :=
  [ExchangeKey (exchange_keys_of x); FanoutQueues (exchange_keys_of x);
   ExchangeBindings (queue_keys_of q)].
Definition fanout_unbind_tx (q : QParams) (x : EParams) : M (exchange_error + list (M unit)) :=
  guarded (ValidateType x)
    (isMember ← cmd_sismember (FanoutQueues (exchange_keys_of x)) (encode_queue q);
     if negb isMember then mret (inl XQueueNotBound)
     else mret (inr [cmd_srem (FanoutQueues (exchange_keys_of x)) (encode_queue q);
                     cmd_srem (ExchangeBindings (queue_keys_of q)) (encode_exchange x)])).
Definition fanout_UnbindQueue (q : QParams) (x : EParams) (others : list (store → store)) (s : store)
    : (exchange_error + unit) * store :=
  if decide (q_ns q ≠ e_ns x) then (inl XNamespaceMismatch, s)
  else WithTransaction (fanout_unbind_watch q x) (fanout_unbind_tx q x) others s.

Definition fanout_BoundQueues (x : EParams) (s : store) : exchange_error + list QParams :=
  match ValidateType x s with
  | Some e => inl e
  | None =>
      match members (FanoutQueues (exchange_keys_of x)) s with
      | inl e => inl e
      | inr l => inr (DecodeParamsSlice l)
      end
  end.
Definition fanout_MatchQueues (x : EParams) (s : store) : exchange_error + list QParams :=
  fanout_BoundQueues x s.

Definition fanout_delete_watch (x : EParams) : list string :=
  [ExchangeKey (exchange_keys_of x); FanoutQueues (exchange_keys_of x); AllExchanges;
   NamespaceExchanges (e_ns x)].
Definition fanout_delete_tx (x : EParams) : M (exchange_error + list (M unit)) :=
  guarded (ValidateType x)
    (count ← cmd_scard (FanoutQueues (exchange_keys_of x));
     if decide (0 < count) then mret (inl XHasBoundQueues)
     else mret (inr (delete_commands x (FanoutQueues (exchange_keys_of x))))).
Definition fanout_Delete (x : EParams) (others : list (store → store)) (s : store)
    : (exchange_error + unit) * store :=
  WithTransaction (fanout_delete_watch x) (fanout_delete_tx x) others s.

(** ** Deleting and listing (internal/exchange/store.go, lookup.go) *)

Definition Exists (x : EParams) (s : store) : bool :=
  bool_decide (is_Some (db s !! ExchangeProperties (exchange_keys_of x))).

(** The bound queues of an exchange of its type, as [Store.Delete] looks for
    them. *)
Definition has_bound (x : EParams) : M bool :=
  if decide (e_typ x = TypeDirect) then
    routingKeys ← cmd_smembers (lk_labels (direct_keys x)); any_bound (direct_keys x) routingKeys
  else if decide (e_typ x = TypeTopic) then
    ps ← cmd_smembers (lk_labels (topic_keys x)); any_bound (topic_keys x) ps
  else if decide (e_typ x = TypeFanout) then
    count ← cmd_scard (FanoutQueues (exchange_keys_of x)); mret (bool_decide (0 < count))
  else mret false.

(** The commands of its pipeline. *)
Definition delete_pipe (x : EParams) : list (M unit) :=
  let key := exchange_keys_of x in
  [cmd_del [ExchangeKey key]; cmd_del [ExchangeProperties key];
   cmd_srem AllExchanges (encode_exchange x);
   cmd_srem (NamespaceExchanges (e_ns x)) (encode_exchange x)] ++
  (if decide (e_typ x = TypeDirect) then [cmd_del [RoutingKeys key]]
   else if decide (e_typ x = TypeTopic) then [cmd_del [BindingPatterns key]]
   else if decide (e_typ x = TypeFanout) then [cmd_del [FanoutQueues key]] else []).

(** Not a transaction: [between] is what happens between the checks and the
    pipeline. *)
Definition Store_Delete (x : EParams) (between : store → store) (s : store)
    : (exchange_error + unit) * store :=
  if negb (Exists x s) then (inl XNotFound, s)
  else
    match has_bound x s with
    | (Err e, _) => (inl (XRedis e), s)
    | (Ret true, _) => (inl XHasBoundQueues, s)
    | (Ret false, _) =>
        match exec_all (delete_pipe x) (between s) with
        | (None, s') => (inr tt, s')
        | (Some e, s') => (inl (XRedis e), s')
        end
    end.

Definition list_exchanges (key : string) (s : store) : exchange_error + list EParams :=
  match members key s with inl e => inl e | inr l => inr (omap decode_exchange l) end.
Definition lookup_All : store → exchange_error + list EParams := list_exchanges AllExchanges.
Definition lookup_ByNamespace (ns : string) : store → exchange_error + list EParams :=
  list_exchanges (NamespaceExchanges ns).
Definition lookup_ByQueue (q : QParams) : store → exchange_error + list EParams :=
  list_exchanges (ExchangeBindings (queue_keys_of q)).
