(* ===== verification/Bindings.v ===== *)
(** * What the bindings of an exchange promise

    The two indexes of the labelled exchanges (direct and topic): the set of
    labels is exact whatever the other clients do, the set of exchanges kept
    with a queue is exact as long as transactions do not overlap; and routing
    delivers to the bound queues and to no others. *)

From S2P Require Import Prelude Keys Redis RedisFacts Types Keyspace Topic Json Message MessageCodec.
From S2P Require Import Exchange.
#[local] Open Scope Z_scope.

#[global] Instance Queue_eq_dec : EqDecision Queue.
Proof. solve_decision. Defined.
#[global] Instance Exchange_eq_dec : EqDecision Keys.Exchange.
Proof. solve_decision. Defined.
#[global] Instance redis_key_eq_dec : EqDecision redis_key.
Proof. solve_decision. Defined.

(** ** Executing commands *)

Inductive scmd :=
| SAdd (k : redis_key) (v : string)
| SRem (k : redis_key) (v : string)
| SHash (k : redis_key) (kvs : list (string * string))
| SDel (k : redis_key).

Definition skey (c : scmd) : redis_key :=
  match c with SAdd k _ | SRem k _ | SHash k _ | SDel k => k end.
Definition srun (c : scmd) : M unit :=
  match c with
  | SAdd k v => cmd_sadd (render_key k) v
  | SRem k v => cmd_srem (render_key k) v
  | SHash k kvs => cmd_hset (render_key k) kvs
  | SDel k => cmd_del [render_key k]
  end.

(** What a command makes of the set at [k]. *)
Definition supd (k : redis_key) (x : gset string) (c : scmd) : gset string :=
  if decide (skey c = k) then
    match c with
    | SAdd _ v => {[v]} ∪ x
    | SRem _ v => x ∖ {[v]}
    | SHash _ _ => x
    | SDel _ => ∅
    end
  else x.

Definition cmd_ok (c : scmd) : Prop :=
  wf_key (skey c) ∧
  match c with
  | SAdd k _ | SRem k _ => key_type k = TSet
  | SHash k _ => key_type k = THash
  | SDel _ => True
  end.

Lemma wt_remove k s : wt s → wf_key k → wt (remove_key (render_key k) s).
Proof. intros Hs Hk. apply (wt_upd s k None); [done..|apply has_type_None]. Qed.

Lemma srun_run c s :
  wt s → cmd_ok c →
  ∃ s', srun c s = (Ret tt, s') ∧ wt s' ∧
        ∀ k, wf_key k → key_type k = TSet →
          sts s' (render_key k) = supd k (sts s (render_key k)) c.
Proof.
  intros Hw [Hk Ht]. unfold supd. destruct c as [k v|k v|k kvs|k]; cbn [srun skey] in *.
  - pose proof (wt_set s Hw k Hk Ht) as Hs. eexists; split; [by rewrite sadd_run|].
    split; [by apply wt_upd_set|]. intros k' Hk' _.
    case_decide as E; [subst; apply sts_upd|]. by apply sts_upd_ne, render_key_ne.
  - pose proof (wt_set s Hw k Hk Ht) as Hs. eexists; split; [by rewrite srem_run|].
    split; [by apply wt_upd_set|]. intros k' Hk' _.
    case_decide as E; [subst; apply sts_upd|]. by apply sts_upd_ne, render_key_ne.
  - pose proof (wt_hash s Hw k Hk Ht) as Hs. eexists; split; [by rewrite hset_run|].
    split; [by apply wt_upd_hash|]. intros k' Hk' Ht'.
    rewrite decide_False by congruence. apply sts_upd_ne, render_key_ne; congruence.
  - exists (upd (render_key k) None s). split; [done|]. split; [by apply wt_remove|]. intros k' Hk' _.
    case_decide as E; [subst; unfold sts; by rewrite lookup_upd_eq|].
    by apply sts_upd_ne, render_key_ne.
Qed.

Lemma exec_sets l : ∀ s,
  wt s → Forall cmd_ok l →
  ∃ s', exec_all (srun <$> l) s = (None, s') ∧ wt s' ∧
        ∀ k, wf_key k → key_type k = TSet →
          sts s' (render_key k) = foldl (supd k) (sts s (render_key k)) l.
Proof.
  induction l as [|c l IH]; intros s Hw Hl; [by exists s|].
  apply Forall_cons in Hl as [Hc Hl]. destruct (srun_run c s Hw Hc) as (s1 & Hr & Hw1 & Hs1).
  destruct (IH s1 Hw1 Hl) as (s' & Hr' & Hw' & Hs').
  exists s'. rewrite fmap_cons. cbn [exec_all]. rewrite Hr. split; [done|]. split; [done|].
  intros k Hk Ht. rewrite Hs' by done. cbn [foldl]. by rewrite Hs1.
Qed.

(** Keys that no command names keep their value. *)
Lemma srun_touches c : touches [render_key (skey c)] (srun c).
Proof.
  destruct c; cbn [srun skey]; touches_auto; set_solver.
Qed.

Lemma exec_frame l k : ∀ s,
  k ∉ (render_key ∘ skey) <$> l → db (exec_all (srun <$> l) s).2 !! k = db s !! k.
Proof.
  induction l as [|c l IH]; intros s Hk; [done|]. rewrite fmap_cons, not_elem_of_cons in Hk.
  destruct Hk as [Hc Hl]. rewrite fmap_cons. cbn [exec_all].
  pose proof (srun_touches c s k) as Hf. destruct (srun c s) as [[[]|e] s1]; cbn in Hf |- *;
    rewrite IH by done; apply Hf; set_solver.
Qed.

(** Commands on other keys leave the set alone. *)
Lemma supd_other k l x : Forall (λ c, skey c ≠ k) l → foldl (supd k) x l = x.
Proof.
  revert x. induction l as [|c l IH]; intros x; [done|]. intros [Hc Hl]%Forall_cons.
  cbn [foldl]. rewrite IH by done. unfold supd. by rewrite decide_False.
Qed.

(** ** Transactions *)

(** An attempt that read in [s0] and executed in [s1], where no watched key
    differed. *)
Definition commits (watch : list string) (fn : M (exchange_error + list (M unit)))
    (s0 s1 s' : store) : Prop :=
  ∃ cmds, (fn s0).1 = Ret (inr cmds) ∧ unchanged watch s0 s1 ∧ exec_all cmds s1 = (None, s').

Lemma unchanged_refl watch s : unchanged watch s s.
Proof. unfold unchanged. by apply Forall_forall. Qed.

(** A transaction that succeeds has committed, at the attempt no other client
    disturbed; one that fails has changed nothing itself, unless a command of
    its own failed. *)
Lemma WithTransaction_cases watch fn others : ∀ s r s',
  WithTransaction watch fn others s = (r, s') →
  match r with
  | inr _ => ∃ n other, others !! n = Some other ∧
      let s0 := foldl (λ s f, f s) s (take n others) in commits watch fn s0 (other s0) s'
  | inl (XRedis _) => True
  | inl _ => ∃ n, s' = foldl (λ s f, f s) s (take n others)
  end.
Proof.
  induction others as [|other others IH]; intros s r s' H; cbn [WithTransaction] in H.
  { injection H as <- <-. by exists 0%nat. }
  destruct (fn s) as [[[e|cmds]|e] s0] eqn:E.
  - injection H as <- <-. destruct e; try done; by exists 0%nat.
  - case_decide as Hu.
    + destruct (exec_all cmds (other s)) as [[e|] s1] eqn:Ex; injection H as <- <-; [done|].
      exists 0%nat, other. split; [done|]. exists cmds. cbn. by rewrite E.
    + apply IH in H. destruct r as [[]|]; try done.
      all: try (destruct H as [n ->]; by exists (S n)).
      destruct H as (n & o & Ho & H). by exists (S n), o.
  - by injection H as <- <-.
Qed.

Lemma WithTransaction_alone watch fn n s :
  WithTransaction watch fn (alone (S n)) s =
  match (fn s).1 with
  | Err e => (inl (XRedis e), s)
  | Ret (inl e) => (inl e, s)
  | Ret (inr cmds) =>
      match exec_all cmds s with (None, s') => (inr tt, s') | (Some e, s') => (inl (XRedis e), s') end
  end.
Proof.
  cbn [WithTransaction alone replicate]. destruct (fn s) as [[[e|cmds]|e] s0]; [done| |done].
  by rewrite decide_True by apply unchanged_refl.
Qed.

(** ** Reads of a transaction *)

Lemma sismember_Ret k v s b s' :
  cmd_sismember k v s = (Ret b, s') → s' = s ∧ b = bool_decide (v ∈ sts s k).
Proof. unfold cmd_sismember, with_view, sts. destruct (as_set _); [|done]. by intros [= <- <-]. Qed.
Lemma scard_Ret k s n s' :
  cmd_scard k s = (Ret n, s') → s' = s ∧ n = Z.of_nat (size (sts s k)).
Proof. unfold cmd_scard, with_view, sts. destruct (as_set _); [|done]. by intros [= <- <-]. Qed.
Lemma smembers_Ret k s l s' :
  cmd_smembers k s = (Ret l, s') → s' = s ∧ l = elements (sts s k).
Proof. unfold cmd_smembers, with_view, sts. destruct (as_set _); [|done]. by intros [= <- <-]. Qed.

Lemma bind_Ret_inv {A B} (m : M A) (f : A → M B) s b s' :
  (m ≫= f) s = (Ret b, s') → ∃ a s1, m s = (Ret a, s1) ∧ f a s1 = (Ret b, s').
Proof. unfold mbind, M_bind. destruct (m s) as [[a|e] s1]; [|done]. eauto. Qed.

Lemma guarded_inv test m s c s' :
  guarded test m s = (Ret (inr c), s') → test s = None ∧ m s = (Ret (inr c), s').
Proof. unfold guarded. by destruct (test s). Qed.

Lemma still_bound_Ret ks label v labels : ∀ s b s',
  still_bound ks label v labels s = (Ret b, s') →
  s' = s ∧ (b = true ↔ ∃ l, l ∈ labels ∧ l ≠ label ∧ v ∈ sts s (lk_queues ks l)).
Proof.
  induction labels as [|l labels IH]; intros s b s' H; cbn [still_bound] in H.
  { injection H as <- <-. split; [done|]. set_solver. }
  case_decide as E.
  - apply IH in H as [-> H]. split; [done|]. rewrite H. set_solver.
  - apply bind_Ret_inv in H as (m & s1 & [-> ->]%sismember_Ret & H). case_bool_decide as Hm.
    + injection H as <- <-. split; [done|]. split; [|done]. exists l. set_solver.
    + apply IH in H as [-> H]. split; [done|]. rewrite H. set_solver.
Qed.

Lemma any_bound_Ret ks labels : ∀ s s',
  any_bound ks labels s = (Ret false, s') →
  s' = s ∧ Forall (λ l, sts s (lk_queues ks l) = ∅) labels.
Proof.
  induction labels as [|l labels IH]; intros s s' H; cbn [any_bound] in H.
  { injection H as <-. by split. }
  apply bind_Ret_inv in H as (n & s1 & [-> ->]%scard_Ret & H). case_decide as Hn; [done|].
  apply IH in H as [-> H]. split; [done|]. constructor; [|done].
  apply leibniz_equiv, size_empty_inv. lia.
Qed.

(** ** The operations *)

Inductive kind := LDirect | LTopic.

Definition kind_type (k : kind) : Z := match k with LDirect => TypeDirect | LTopic => TypeTopic end.
Definition kind_keys (k : kind) (x : EParams) : label_keys :=
  match k with LDirect => direct_keys x | LTopic => topic_keys x end.
Definition labels_of (k : kind) (X : Keys.Exchange) : redis_key :=
  match k with LDirect => KRoutingKeys X | LTopic => KBindingPatterns X end.
Definition queues_of (k : kind) (X : Keys.Exchange) (l : string) : redis_key :=
  match k with LDirect => KRoutingKeyQueues X l | LTopic => KPatternQueues X l end.

Definition labels (s : store) (k : kind) (X : Keys.Exchange) : gset string :=
  sts s (render_key (labels_of k X)).
Definition bound (s : store) (k : kind) (X : Keys.Exchange) (l : string) : gset string :=
  sts s (render_key (queues_of k X l)).
Definition fanned (s : store) (X : Keys.Exchange) : gset string := sts s (FanoutQueues X).
Definition bindings (s : store) (q : QParams) : gset string :=
  sts s (ExchangeBindings (queue_keys_of q)).

(** What the stores run in a transaction; a deletion has read the labels
    before. *)
Inductive bop :=
| OCreate (x : EParams) (policy : Z)
| OBind (k : kind) (q : QParams) (x : EParams) (l : string)
| OUnbind (k : kind) (q : QParams) (x : EParams) (l : string)
| ODelete (k : kind) (x : EParams) (allLabels : list string)
| OFanBind (q : QParams) (x : EParams)
| OFanUnbind (q : QParams) (x : EParams)
| OFanDelete (x : EParams).

Definition op_watch (o : bop) : list string :=
  match o with
  | OCreate x _ => save_watch x
  | OBind k q x l => bind_watch (kind_keys k x) q x l
  | OUnbind k q x l => unbind_watch (kind_keys k x) q x l
  | ODelete k x ls => delete_watch (kind_keys k x) x ls
  | OFanBind q x => fanout_bind_watch q x
  | OFanUnbind q x => fanout_unbind_watch q x
  | OFanDelete x => fanout_delete_watch x
  end.
Definition op_tx (o : bop) : M (exchange_error + list (M unit)) :=
  match o with
  | OCreate x policy => save_tx x policy
  | OBind k q x l => bind_tx (kind_keys k x) q x l
  | OUnbind k q x l => unbind_tx (kind_keys k x) q x l
  | ODelete k x ls => delete_tx (kind_keys k x) x ls
  | OFanBind q x => fanout_bind_tx q x
  | OFanUnbind q x => fanout_unbind_tx q x
  | OFanDelete x => fanout_delete_tx x
  end.

Definition wf_exchange (X : Keys.Exchange) : Prop :=
  no_colon (ExNamespace X) = true ∧ no_colon (ExName X) = true.
(** Names the validators accept. *)
Definition queue_ok (q : QParams) : Prop :=
  wf_queue (queue_keys_of q) ∧ q_name q ≠ "" ∧ q_ns q ≠ "".

Definition exchange_ok (x : EParams) : Prop :=
  wf_exchange (exchange_keys_of x) ∧ e_name x ≠ "" ∧ e_ns x ≠ "".

(** The arguments the stores let through: names are valid, queue and exchange
    share their namespace, and the exchange has the type of the store. *)
Definition op_ok (o : bop) : Prop :=
  match o with
  | OCreate x _ => exchange_ok x
  | OBind k q x l | OUnbind k q x l =>
      exchange_ok x ∧ queue_ok q ∧ no_colon l = true ∧
      q_ns q = e_ns x ∧ e_typ x = kind_type k
  | ODelete k x ls =>
      exchange_ok x ∧ e_typ x = kind_type k
  | OFanBind q x | OFanUnbind q x =>
      exchange_ok x ∧ queue_ok q ∧ q_ns q = e_ns x ∧ e_typ x = TypeFanout
  | OFanDelete x => exchange_ok x ∧ e_typ x = TypeFanout
  end.

(** *** What they queue *)

Definition register_cmds (x : EParams) (fields : list (string * string)) : list scmd :=
  [SHash (KExchangeProperties (exchange_keys_of x)) fields;
   SAdd KAllExchanges (encode_exchange x);
   SAdd (KNamespaceExchanges (e_ns x)) (encode_exchange x)].
Definition bind_cmds (set : list scmd) (q : QParams) (x : EParams) : list scmd :=
  register_cmds x [(xkey X_Type, itoa (e_typ x))] ++ set ++
  [SAdd (KExchangeBindings (queue_keys_of q)) (encode_exchange x)].
Definition unregister_cmds (x : EParams) (labels : redis_key) : list scmd :=
  [SDel (KExchange (exchange_keys_of x)); SDel (KExchangeProperties (exchange_keys_of x));
   SDel labels; SRem KAllExchanges (encode_exchange x);
   SRem (KNamespaceExchanges (e_ns x)) (encode_exchange x)].

(** The commands, by what was read in [s0] and holds in [s] when they are
    executed: membership under the other labels is not watched. *)
Inductive planned (s0 s : store) : bop → list scmd → Prop :=
| pl_create x policy :
    planned s0 s (OCreate x policy)
      [SHash (KExchangeProperties (exchange_keys_of x))
         (EncodeProps {| xp_Type := e_typ x; xp_Policy := policy |});
       SAdd KAllNamespaces (e_ns x); SAdd KAllExchanges (encode_exchange x);
       SAdd (KNamespaceExchanges (e_ns x)) (encode_exchange x)]
| pl_bind k q x l :
    encode_queue q ∉ bound s k (exchange_keys_of x) l →
    planned s0 s (OBind k q x l)
      (bind_cmds [SAdd (labels_of k (exchange_keys_of x)) l;
                  SAdd (queues_of k (exchange_keys_of x) l) (encode_queue q)] q x)
| pl_unbind k q x l (one still : bool) :
    encode_queue q ∈ bound s k (exchange_keys_of x) l →
    (one = true ↔ bound s k (exchange_keys_of x) l = {[encode_queue q]}) →
    (still = true ↔ ∃ l', l' ∈ labels s0 k (exchange_keys_of x) ∧ l' ≠ l ∧
                          encode_queue q ∈ bound s0 k (exchange_keys_of x) l') →
    planned s0 s (OUnbind k q x l)
      ([SRem (queues_of k (exchange_keys_of x) l) (encode_queue q)] ++
       (if one then [SRem (labels_of k (exchange_keys_of x)) l] else []) ++
       (if still then [] else [SRem (KExchangeBindings (queue_keys_of q)) (encode_exchange x)]))
| pl_delete k x ls :
    Forall (λ l, bound s k (exchange_keys_of x) l = ∅) ls →
    planned s0 s (ODelete k x ls)
      (unregister_cmds x (labels_of k (exchange_keys_of x)) ++
       ((λ l, SDel (queues_of k (exchange_keys_of x) l)) <$> ls))
| pl_fan_bind q x :
    encode_queue q ∉ fanned s (exchange_keys_of x) →
    planned s0 s (OFanBind q x)
      (bind_cmds [SAdd (KFanoutQueues (exchange_keys_of x)) (encode_queue q)] q x)
| pl_fan_unbind q x :
    encode_queue q ∈ fanned s (exchange_keys_of x) →
    planned s0 s (OFanUnbind q x)
      [SRem (KFanoutQueues (exchange_keys_of x)) (encode_queue q);
       SRem (KExchangeBindings (queue_keys_of q)) (encode_exchange x)]
| pl_fan_delete x :
    fanned s (exchange_keys_of x) = ∅ →
    planned s0 s (OFanDelete x) (unregister_cmds x (KFanoutQueues (exchange_keys_of x))).

Lemma singleton_size (X : gset string) v : v ∈ X → (Z.of_nat (size X) = 1 ↔ X = {[v]}).
Proof.
  intros Hv. split.
  - intros H. assert (size X = 1%nat) as [y Hy%leibniz_equiv]%size_1_elem_of by lia. set_solver.
  - intros ->. by rewrite size_singleton.
Qed.

Lemma op_tx_planned o s cmds :
  (op_tx o s).1 = Ret (inr cmds) → ∃ l, planned s s o l ∧ cmds = srun <$> l.
Proof.
  destruct (op_tx o s) as [r s'] eqn:E. cbn [fst]. intros ->.
  destruct o as [x policy|k q x l|k q x l|k x ls|q x|q x|x]; cbn [op_tx] in E.
  - apply bind_Ret_inv in E as (b & s1 & _ & E). destruct b; [done|]. injection E as <- _.
    eexists. split; [constructor|done].
  - apply guarded_inv in E as [_ E].
    apply bind_Ret_inv in E as (b & s1 & [-> ->]%sismember_Ret & E). case_bool_decide as Hb; [done|].
    injection E as <- _. eexists. split; [constructor; destruct k; exact Hb|by destruct k].
  - apply guarded_inv in E as [_ E].
    apply bind_Ret_inv in E as (b & s1 & [-> ->]%sismember_Ret & E). case_bool_decide as Hb; [|done].
    cbn [negb] in E. apply bind_Ret_inv in E as (ls & s1 & [-> ->]%smembers_Ret & E).
    apply bind_Ret_inv in E as (b & s1 & [-> Hs]%still_bound_Ret & E).
    apply bind_Ret_inv in E as (n & s1 & [-> ->]%scard_Ret & E). injection E as <- _.
    setoid_rewrite elem_of_elements in Hs.
    exists ([SRem (queues_of k (exchange_keys_of x) l) (encode_queue q)] ++
       (if bool_decide (Z.of_nat (size (bound s k (exchange_keys_of x) l)) = 1)
        then [SRem (labels_of k (exchange_keys_of x)) l] else []) ++
       (if b then [] else [SRem (KExchangeBindings (queue_keys_of q)) (encode_exchange x)])).
    split.
    + constructor; [by destruct k| |by destruct k].
      rewrite bool_decide_eq_true. apply singleton_size. by destruct k.
    + rewrite !fmap_app. destruct k, b; case_bool_decide as Hn; case_decide as Hd; done.
  - apply guarded_inv in E as [_ E]. apply bind_Ret_inv in E as (b & s1 & E1 & E). destruct b; [done|].
    apply any_bound_Ret in E1 as [-> Hf]. injection E as <- _.
    eexists. split; [constructor; by destruct k|]. rewrite fmap_app, <-list_fmap_compose. by destruct k.
  - apply guarded_inv in E as [_ E].
    apply bind_Ret_inv in E as (b & s1 & [-> ->]%sismember_Ret & E). case_bool_decide as Hb; [done|].
    injection E as <- _. eexists. split; [by constructor|done].
  - apply guarded_inv in E as [_ E].
    apply bind_Ret_inv in E as (b & s1 & [-> ->]%sismember_Ret & E). case_bool_decide as Hb; [|done].
    injection E as <- _. eexists. split; [by constructor|done].
  - apply guarded_inv in E as [_ E].
    apply bind_Ret_inv in E as (n & s1 & [-> ->]%scard_Ret & E). case_decide as Hn; [done|].
    injection E as <- _. eexists. split; [constructor|done].
    apply leibniz_equiv, size_empty_inv. unfold fanned. lia.
Qed.

(** *** Executing them *)

Lemma unchanged_sts watch s s' k : unchanged watch s s' → k ∈ watch → sts s' k = sts s k.
Proof. unfold unchanged. rewrite Forall_forall. intros H Hk. unfold sts. by rewrite H. Qed.

Lemma planned_watched o s0 s1 l :
  unchanged (op_watch o) s0 s1 → planned s0 s0 o l → planned s0 s1 o l.
Proof.
  intros Hu Hp.
  assert (∀ k, k ∈ op_watch o → sts s1 k = sts s0 k) as Hs by (intros k; by apply unchanged_sts).
  destruct Hp as [| | |k x ls Hf| | |]; constructor; try done.
  all: unfold bound, fanned in *.
  1-3: rewrite Hs; [done|destruct k; cbn; unfold bind_watch, unbind_watch; set_solver].
  2-4: rewrite Hs; [done|cbn; unfold fanout_bind_watch, fanout_unbind_watch, fanout_delete_watch; set_solver].
  rewrite Forall_forall in Hf |- *. intros l Hl. rewrite Hs; [by apply Hf|].
  cbn. rewrite !elem_of_cons. do 4 right. apply list_elem_of_fmap. exists l. by destruct k.
Qed.

Definition reads_ok (o : bop) : Prop :=
  match o with ODelete _ _ ls => Forall (λ l, no_colon l = true) ls | _ => True end.

Lemma labels_of_ok k X : wf_exchange X → wf_key (labels_of k X) ∧ key_type (labels_of k X) = TSet.
Proof. intros [H1 H2]. destruct k; (split; [wf_parts|done]). Qed.
Lemma queues_of_ok k X l :
  wf_exchange X → no_colon l = true → wf_key (queues_of k X l) ∧ key_type (queues_of k X l) = TSet.
Proof. intros [H1 H2] Hl. destruct k; (split; [wf_parts|done]). Qed.
Lemma bindings_ok q : queue_ok q → wf_key (KExchangeBindings (queue_keys_of q)).
Proof. intros [[H1 H2] _]. wf_parts. Qed.

(** The sets the bindings live in are well-formed set keys. *)
Ltac key_ok :=
  match goal with
  | |- wf_key (labels_of _ _) => by apply labels_of_ok
  | |- key_type (labels_of _ _) = TSet => by apply labels_of_ok
  | |- wf_key (queues_of _ _ _) => by apply queues_of_ok
  | |- key_type (queues_of _ _ _) = TSet => by apply queues_of_ok
  | |- wf_key (KExchangeBindings _) => by apply bindings_ok
  | |- wf_key _ => wf_parts
  | |- _ => done
  end.
Ltac cmds_ok :=
  repeat match goal with
  | |- Forall cmd_ok (_ ++ _) => apply Forall_app; split
  | |- Forall cmd_ok (_ :: _) => apply Forall_cons; split
  | |- Forall cmd_ok [] => apply Forall_nil; done
  | |- Forall cmd_ok (if ?b then _ else _) => destruct b
  | |- cmd_ok _ => split; cbn [skey]; key_ok
  end.

Lemma planned_ok o s0 s l : op_ok o → reads_ok o → planned s0 s o l → Forall cmd_ok l.
Proof.
  intros Ho Hr Hp. destruct Hp as [x policy|k q x l _|k q x l one still _ _ _|k x ls _|q x _|q x _|x _];
    cbn [op_ok reads_ok] in *; unfold exchange_ok in *; unfold bind_cmds, register_cmds, unregister_cmds;
    destruct_and?.
  all: match goal with H : wf_exchange (exchange_keys_of _) |- _ => pose proof (proj1 H); pose proof (proj2 H) end.
  all: cbn [exchange_keys_of ExNamespace ExName] in *.
  all: cmds_ok.
  apply Forall_fmap. eapply Forall_impl; [exact Hr|]. intros l Hl. split; cbn [skey compose]; key_ok.
Qed.

(** A commit: the sets afterwards. *)
Lemma commit_sets o s0 s1 s' :
  op_ok o → reads_ok o → wt s1 → commits (op_watch o) (op_tx o) s0 s1 s' →
  ∃ l, planned s0 s1 o l ∧ wt s' ∧
       ∀ k, wf_key k → key_type k = TSet →
         sts s' (render_key k) = foldl (supd k) (sts s1 (render_key k)) l.
Proof.
  intros Ho Hr Hw (cmds & (l & Hl & ->)%op_tx_planned & Hu & Hx). exists l.
  apply (planned_watched _ _ _ _ Hu) in Hl. split; [done|].
  destruct (exec_sets l s1 Hw (planned_ok _ _ _ _ Ho Hr Hl)) as (s2 & Hx2 & Hw2 & Hs2).
  rewrite Hx in Hx2. injection Hx2 as <-. done.
Qed.

(** ** Encodings are injective *)

#[global] Instance print_inj : Inj (=) (=) print.
Proof. intros a b H. apply (f_equal parse_json) in H. rewrite !parse_print in H. congruence. Qed.
#[global] Instance encode_exchange_inj : Inj (=) (=) encode_exchange.
Proof. intros [] [] H. apply (inj print) in H. injection H as -> -> ->. done. Qed.
#[global] Instance encode_queue_inj : Inj (=) (=) encode_queue.
Proof. intros [] [] H. apply (inj print) in H. injection H as -> ->. done. Qed.

Lemma decode_encode_queue q : q_name q ≠ "" → q_ns q ≠ "" → decode_queue (encode_queue q) = Some q.
Proof.
  intros H1 H2. unfold decode_queue, encode_queue. rewrite parse_print. cbn [mbind option_bind].
  rewrite q_json_roundtrip. cbn [mbind option_bind]. by rewrite decide_False by naive_solver.
Qed.

#[global] Instance kind_eq_dec : EqDecision kind.
Proof. solve_decision. Defined.

(** ** The indexes *)

Record indexed (s : store) : Prop := {
  ix_wt : wt s;
  (** a label is listed exactly while a queue is bound under it *)
  ix_exact k X l : wf_exchange X → no_colon l = true → l ∈ labels s k X ↔ bound s k X l ≠ ∅;
  ix_label k X l : wf_exchange X → l ∈ labels s k X → no_colon l = true;
  (** the sets hold encoded queues of the exchange's namespace *)
  ix_bound k X l m : wf_exchange X → no_colon l = true → m ∈ bound s k X l →
    ∃ q, queue_ok q ∧ q_ns q = ExNamespace X ∧ m = encode_queue q;
  ix_fanned X m : wf_exchange X → m ∈ fanned s X →
    ∃ q, queue_ok q ∧ q_ns q = ExNamespace X ∧ m = encode_queue q;
  (** a queue lists the fanout exchanges it is bound to *)
  ix_fanout x q : wf_exchange (exchange_keys_of x) → queue_ok q → e_typ x = TypeFanout →
    encode_exchange x ∈ bindings s q ↔ encode_queue q ∈ fanned s (exchange_keys_of x)
}.

Section after.
Context (s s' : store) (l : list scmd).
Context (Hs : ∀ k, wf_key k → key_type k = TSet →
              sts s' (render_key k) = foldl (supd k) (sts s (render_key k)) l).

Lemma labels_after k X :
  wf_exchange X → labels s' k X = foldl (supd (labels_of k X)) (labels s k X) l.
Proof using Hs. intros HX. apply Hs; by apply labels_of_ok. Qed.
Lemma bound_after k X lab :
  wf_exchange X → no_colon lab = true →
  bound s' k X lab = foldl (supd (queues_of k X lab)) (bound s k X lab) l.
Proof using Hs. intros HX Hl. apply Hs; by apply queues_of_ok. Qed.
Lemma fanned_after X : wf_exchange X → fanned s' X = foldl (supd (KFanoutQueues X)) (fanned s X) l.
Proof using Hs. intros [H1 H2]. apply (Hs (KFanoutQueues X)); [wf_parts|done]. Qed.
Lemma bindings_after q :
  queue_ok q →
  bindings s' q = foldl (supd (KExchangeBindings (queue_keys_of q))) (bindings s q) l.
Proof using Hs. intros Hq. apply (Hs (KExchangeBindings _)); [by apply bindings_ok|done]. Qed.
End after.

Lemma QParams_ext a b : q_name a = q_name b → q_ns a = q_ns b → a = b.
Proof. destruct a, b. by intros [= ->] [= ->]. Qed.

Lemma supd_ne k x c : skey c ≠ k → supd k x c = x.
Proof. intros H. unfold supd. by rewrite decide_False. Qed.

(** Computes what a list of commands makes of one set. *)
Ltac eval_sets :=
  unfold bind_cmds, register_cmds, unregister_cmds; cbn [app foldl labels_of queues_of];
  repeat match goal with
  | |- context [supd ?k ?x ?c] => rewrite (supd_ne k x c) by discriminate
  end;
  unfold supd; cbn [skey]; repeat case_decide; destruct_and?; simplify_eq; try done; try tauto;
  try (exfalso; by eauto using QParams_ext).

Section effects.
Context (s0 s s' : store) (l : list scmd).
Context (Hs : ∀ k, wf_key k → key_type k = TSet →
              sts s' (render_key k) = foldl (supd k) (sts s (render_key k)) l).

(** The sets after a binding. *)
Lemma bind_effect k q x lab :
  planned s0 s (OBind k q x lab) l →
  (∀ k' X', wf_exchange X' → labels s' k' X' =
     if decide (k' = k ∧ X' = exchange_keys_of x) then {[lab]} ∪ labels s k' X' else labels s k' X') ∧
  (∀ k' X' l', wf_exchange X' → no_colon l' = true → bound s' k' X' l' =
     if decide (k' = k ∧ X' = exchange_keys_of x ∧ l' = lab)
     then {[encode_queue q]} ∪ bound s k' X' l' else bound s k' X' l') ∧
  (∀ X', wf_exchange X' → fanned s' X' = fanned s X') ∧
  (∀ q', queue_ok q' → bindings s' q' =
     if decide (q' = q) then {[encode_exchange x]} ∪ bindings s q' else bindings s q').
Proof using Hs.
  inversion 1; subst. split_and!.
  - intros k' X' HX. rewrite (labels_after _ _ _ Hs) by done. destruct k, k'; eval_sets.
  - intros k' X' l' HX Hl. rewrite (bound_after _ _ _ Hs) by done. destruct k, k'; eval_sets.
  - intros X' HX. rewrite (fanned_after _ _ _ Hs) by done. destruct k; eval_sets.
  - intros q' Hq. rewrite (bindings_after _ _ _ Hs) by done. destruct k; eval_sets.
Qed.

Lemma unbind_effect k q x lab :
  planned s0 s (OUnbind k q x lab) l →
  ∃ one still : bool,
  (one = true ↔ bound s k (exchange_keys_of x) lab = {[encode_queue q]}) ∧
  (still = true ↔ ∃ l', l' ∈ labels s0 k (exchange_keys_of x) ∧ l' ≠ lab ∧
                        encode_queue q ∈ bound s0 k (exchange_keys_of x) l') ∧
  encode_queue q ∈ bound s k (exchange_keys_of x) lab ∧
  (∀ k' X', wf_exchange X' → labels s' k' X' =
     if decide (k' = k ∧ X' = exchange_keys_of x)
     then if one then labels s k' X' ∖ {[lab]} else labels s k' X' else labels s k' X') ∧
  (∀ k' X' l', wf_exchange X' → no_colon l' = true → bound s' k' X' l' =
     if decide (k' = k ∧ X' = exchange_keys_of x ∧ l' = lab)
     then bound s k' X' l' ∖ {[encode_queue q]} else bound s k' X' l') ∧
  (∀ X', wf_exchange X' → fanned s' X' = fanned s X') ∧
  (∀ q', queue_ok q' → bindings s' q' =
     if decide (q' = q) then if still then bindings s q' else bindings s q' ∖ {[encode_exchange x]}
     else bindings s q').
Proof using Hs.
  inversion 1; subst. exists one, still. split_and!; try done.
  - intros k' X' HX. rewrite (labels_after _ _ _ Hs) by done. destruct k, k', one, still; eval_sets.
  - intros k' X' l' HX Hl. rewrite (bound_after _ _ _ Hs) by done. destruct k, k', one, still; eval_sets.
  - intros X' HX. rewrite (fanned_after _ _ _ Hs) by done. destruct k, one, still; eval_sets.
  - intros q' Hq. rewrite (bindings_after _ _ _ Hs) by done. destruct k, one, still; eval_sets.
Qed.

Lemma supd_dels k x (f : string → redis_key) ls :
  (∀ l, f l ≠ k) → foldl (supd k) x ((λ l, SDel (f l)) <$> ls) = x.
Proof. intros Hf. apply supd_other, Forall_fmap, Forall_forall. intros l' _. apply Hf. Qed.

Lemma supd_dels_empty k (f : string → redis_key) ls :
  foldl (supd k) ∅ ((λ l, SDel (f l)) <$> ls) = ∅.
Proof.
  induction ls as [|l' ls IH]; [done|]. rewrite fmap_cons. cbn [foldl].
  replace (supd k ∅ (SDel (f l'))) with (∅ : gset string); [done|]. unfold supd. by case_decide.
Qed.

(** A deletion that found no queue under the labels it read. *)
Lemma delete_effect k x ls :
  planned s0 s (ODelete k x ls) l →
  Forall (λ l, bound s k (exchange_keys_of x) l = ∅) ls ∧
  (∀ k' X', wf_exchange X' → labels s' k' X' =
     if decide (k' = k ∧ X' = exchange_keys_of x) then ∅ else labels s k' X') ∧
  (∀ k' X' l', wf_exchange X' → no_colon l' = true → bound s' k' X' l' = bound s k' X' l') ∧
  (∀ X', wf_exchange X' → fanned s' X' = fanned s X') ∧
  (∀ q', queue_ok q' → bindings s' q' = bindings s q').
Proof using Hs.
  inversion 1 as [| | |? ? ? Hf| | |]; subst. split_and!; try done.
  - intros k' X' HX. rewrite (labels_after _ _ _ Hs), foldl_app by done.
    rewrite supd_dels by (by destruct k, k'). destruct k, k'; eval_sets.
  - intros k' X' l' HX Hl. rewrite (bound_after _ _ _ Hs), foldl_app by done.
    destruct (decide (k' = k ∧ X' = exchange_keys_of x ∧ l' ∈ ls)) as [(-> & -> & Hin)|Hne].
    + rewrite Forall_forall in Hf. rewrite (Hf l') by done.
      replace (foldl _ ∅ (unregister_cmds _ _)) with (∅ : gset string); [apply supd_dels_empty|].
      symmetry. destruct k; eval_sets.
    + rewrite supd_other; [destruct k, k'; eval_sets|].
      apply Forall_fmap, Forall_forall. intros l0 Hl0 E. cbn in E. apply Hne.
      destruct k, k'; simplify_eq; done.
  - intros X' HX. rewrite (fanned_after _ _ _ Hs), foldl_app by done.
    rewrite supd_dels by (by destruct k). destruct k; eval_sets.
  - intros q' Hq. rewrite (bindings_after _ _ _ Hs), foldl_app by done.
    rewrite supd_dels by (by destruct k). destruct k; eval_sets.
Qed.

(** The fanout operations and the creation of an exchange leave the labels
    alone. *)
Definition labels_kept : Prop :=
  (∀ k' X', wf_exchange X' → labels s' k' X' = labels s k' X') ∧
  (∀ k' X' l', wf_exchange X' → no_colon l' = true → bound s' k' X' l' = bound s k' X' l').
Definition fan_update (q : QParams) (x : EParams) (f : gset string → string → gset string) : Prop :=
  (∀ X', wf_exchange X' → fanned s' X' =
     if decide (X' = exchange_keys_of x) then f (fanned s X') (encode_queue q) else fanned s X') ∧
  (∀ q', queue_ok q' → bindings s' q' =
     if decide (q' = q) then f (bindings s q') (encode_exchange x) else bindings s q').

Lemma fan_bind_effect q x :
  planned s0 s (OFanBind q x) l → labels_kept ∧ fan_update q x (λ X m, {[m]} ∪ X).
Proof using Hs.
  inversion 1; subst. unfold labels_kept, fan_update. split_and!.
  - intros k' X' HX. rewrite (labels_after _ _ _ Hs) by done. destruct k'; eval_sets.
  - intros k' X' l' HX Hl. rewrite (bound_after _ _ _ Hs) by done. destruct k'; eval_sets.
  - intros X' HX. rewrite (fanned_after _ _ _ Hs) by done. eval_sets.
  - intros q' Hq. rewrite (bindings_after _ _ _ Hs) by done. eval_sets.
Qed.

Lemma fan_unbind_effect q x :
  planned s0 s (OFanUnbind q x) l → labels_kept ∧ fan_update q x (λ X m, X ∖ {[m]}).
Proof using Hs.
  inversion 1; subst. unfold labels_kept, fan_update. split_and!.
  - intros k' X' HX. rewrite (labels_after _ _ _ Hs) by done. destruct k'; eval_sets.
  - intros k' X' l' HX Hl. rewrite (bound_after _ _ _ Hs) by done. destruct k'; eval_sets.
  - intros X' HX. rewrite (fanned_after _ _ _ Hs) by done. eval_sets.
  - intros q' Hq. rewrite (bindings_after _ _ _ Hs) by done. eval_sets.
Qed.

(** Creating an exchange, and deleting a fanout exchange without queues, leave
    every binding alone. *)
Definition quiet : Prop :=
  labels_kept ∧ (∀ X', wf_exchange X' → fanned s' X' = fanned s X') ∧
  (∀ q', queue_ok q' → bindings s' q' = bindings s q').

Lemma quiet_effect o :
  (match o with OCreate _ _ | OFanDelete _ => True | _ => False end) → planned s0 s o l → quiet.
Proof using Hs.
  destruct o; try done; intros _; inversion 1; subst; unfold quiet, labels_kept; split_and!.
  1, 5: intros k' X' HX; rewrite (labels_after _ _ _ Hs) by done; destruct k'; eval_sets.
  1, 4: intros k' X' l' HX Hl; rewrite (bound_after _ _ _ Hs) by done; destruct k'; eval_sets.
  1, 3: intros X' HX; rewrite (fanned_after _ _ _ Hs) by done; eval_sets.
  all: intros q' Hq; rewrite (bindings_after _ _ _ Hs) by done; eval_sets.
Qed.
End effects.

(** ** The indexes under concurrent transactions *)

Lemma type_ne k x y : e_typ x = TypeFanout → e_typ y = kind_type k → encode_exchange x ≠ encode_exchange y.
Proof. intros Hx Hy ->%(inj encode_exchange). rewrite Hx in Hy. by destruct k. Qed.

Lemma rest_nonempty (X : gset string) v : v ∈ X → X ≠ {[v]} → X ∖ {[v]} ≠ ∅.
Proof.
  intros Hv Hne E. apply Hne, set_eq. intros y. rewrite elem_of_singleton.
  split; [|by intros ->]. intros Hy. destruct (decide (y = v)); [done|].
  exfalso. apply (not_elem_of_empty (C:=gset string) y). rewrite <-E. set_solver.
Qed.

Lemma indexed_quiet s s' : wt s' → quiet s s' → indexed s → indexed s'.
Proof.
  intros Hw [[Hl Hb] [Hf Hx]] [_ H1 H2 H3 H4 H5]. split; [done|..].
  - intros k X l HX Hn. rewrite Hl, Hb by done. by apply H1.
  - intros k X l HX. rewrite Hl by done. by apply H2.
  - intros k X l m HX Hn. rewrite Hb by done. by apply H3.
  - intros X m HX. rewrite Hf by done. by apply H4.
  - intros x q HX Hq Ht. rewrite Hf, Hx by done. by apply H5.
Qed.

Section commit.
Context (s0 s s' : store) (l : list scmd) (Hw : wt s') (HI : indexed s).
Context (Hs : ∀ k, wf_key k → key_type k = TSet →
              sts s' (render_key k) = foldl (supd k) (sts s (render_key k)) l).

Lemma indexed_bind k q x lab :
  op_ok (OBind k q x lab) → planned s0 s (OBind k q x lab) l → indexed s'.
Proof using All.
  intros ([HX _] & Hq & Hlab & Hns & Ht) Hp. destruct (bind_effect _ _ _ _ Hs _ _ _ _ Hp) as (Hl & Hb & Hf & Hx).
  pose proof HI as [_ H1 H2 H3 H4 H5]. split; [done|..].
  - intros k' X' l' HX' Hn. rewrite Hl, Hb by done. specialize (H1 k' X' l' HX' Hn).
    repeat case_decide; set_solver.
  - intros k' X' l' HX'. rewrite Hl by done. specialize (H2 k' X' l' HX'). case_decide; set_solver.
  - intros k' X' l' m HX' Hn. rewrite Hb by done. specialize (H3 k' X' l' m HX' Hn).
    case_decide as E; [|done]. destruct E as (-> & -> & ->).
    intros [->%elem_of_singleton|?]%elem_of_union; [by exists q|auto].
  - intros X' m HX'. rewrite Hf by done. by apply H4.
  - intros y q' HX' Hq' Hty. rewrite Hf, Hx by done. rewrite <-H5 by done.
    pose proof (type_ne k y x Hty Ht). case_decide; set_solver.
Qed.

Lemma indexed_unbind k q x lab :
  op_ok (OUnbind k q x lab) → planned s0 s (OUnbind k q x lab) l → indexed s'.
Proof using All.
  intros ([HX _] & Hq & Hlab & Hns & Ht) Hp.
  destruct (unbind_effect _ _ _ _ Hs _ _ _ _ Hp) as (one & still & Hone & _ & Hin & Hl & Hb & Hf & Hx).
  pose proof HI as [_ H1 H2 H3 H4 H5]. split; [done|..].
  - intros k' X' l' HX' Hn. rewrite Hl, Hb by done. specialize (H1 k' X' l' HX' Hn).
    destruct (decide (k' = k ∧ X' = exchange_keys_of x)) as [[-> ->]|Hne].
    2: { by rewrite decide_False by naive_solver. }
    destruct (decide (l' = lab)) as [->|Hl'].
    + rewrite decide_True by done. destruct one.
      * rewrite (proj1 Hone) by done. clear. set_solver.
      * rewrite H1. split; intros _; [|by intros E; rewrite E in Hin; apply not_elem_of_empty in Hin].
        apply rest_nonempty; [done|]. by intros E%Hone.
    + rewrite decide_False by naive_solver. rewrite <-H1. destruct one; clear -Hl'; set_solver.
  - intros k' X' l' HX'. rewrite Hl by done. intros Hin'.
    apply (H2 k' X' l' HX'). revert Hin'. clear. case_decide; [destruct one|]; set_solver.
  - intros k' X' l' m HX' Hn. rewrite Hb by done. intros Hin'.
    apply (H3 k' X' l' m HX' Hn). revert Hin'. clear. case_decide; set_solver.
  - intros X' m HX'. rewrite Hf by done. by apply H4.
  - intros y q' HX' Hq' Hty. rewrite Hf, Hx by done. rewrite <-H5 by done.
    pose proof (type_ne k y x Hty Ht) as Hne. clear -Hne. case_decide; [destruct still|]; set_solver.
Qed.

(** A deletion that has seen every label finds no label at all. *)
Lemma delete_quiet k x ls :
  op_ok (ODelete k x ls) → (∀ l', l' ∈ labels s k (exchange_keys_of x) → l' ∈ ls) →
  planned s0 s (ODelete k x ls) l → quiet s s'.
Proof using All.
  intros ([HX _] & Ht) Hcov Hp. destruct (delete_effect _ _ _ _ Hs _ _ _ Hp) as (He & Hl & Hb & Hf & Hx).
  split; [split|by split]; [|done].
  intros k' X' HX'. rewrite Hl by done. case_decide as E; [|done]. destruct E as [-> ->].
  symmetry. apply set_eq. intros l'. split; [|set_solver]. intros Hl'.
  pose proof (ix_label s HI _ _ _ HX Hl') as Hn. exfalso.
  apply (ix_exact s HI k _ l' HX Hn); [done|]. rewrite Forall_forall in He. by apply He, Hcov.
Qed.

Lemma indexed_delete k x ls :
  op_ok (ODelete k x ls) → (∀ l', l' ∈ labels s k (exchange_keys_of x) → l' ∈ ls) →
  planned s0 s (ODelete k x ls) l → indexed s'.
Proof using All. intros Ho Hc Hp. apply (indexed_quiet s); [done| |done]. by eapply delete_quiet. Qed.

Lemma indexed_fan q x (f : gset string → string → gset string) :
  wf_exchange (exchange_keys_of x) → queue_ok q → q_ns q = e_ns x → e_typ x = TypeFanout →
  (∀ X m a, a ≠ m → a ∈ f X m ↔ a ∈ X) →
  (∀ X Y m n, m ∈ f X m ↔ n ∈ f Y n) →
  labels_kept s s' → fan_update s s' q x f → indexed s'.
Proof using Hw HI.
  intros HX Hq Hns Ht Hne Hself [Hl Hb] [Hf Hx].
  pose proof HI as [_ H1 H2 H3 H4 H5]. split; [done|..].
  - intros k X l' HX' Hn. rewrite Hl, Hb by done. by apply H1.
  - intros k X l' HX'. rewrite Hl by done. by apply H2.
  - intros k X l' m HX' Hn. rewrite Hb by done. by apply H3.
  - intros X m HX'. rewrite Hf by done. case_decide as E; [|by apply H4]. subst.
    destruct (decide (m = encode_queue q)) as [->|E]; [by exists q|].
    rewrite Hne by done. by apply H4.
  - intros y q' HX' Hq' Hty. rewrite Hf, Hx by done. specialize (H5 y q' HX' Hq' Hty).
    destruct (decide (q' = q)) as [->|Hqq], (decide (exchange_keys_of y = exchange_keys_of x)) as [E|E].
    + injection E as E1 E2. assert (y = x) as -> by (destruct x, y; cbn in *; congruence). apply Hself.
    + rewrite Hne; [done|]. by intros ->%(inj encode_exchange).
    + rewrite (Hne _ _ (encode_queue q')); [done|]. by intros ->%(inj encode_queue).
    + done.
Qed.
End commit.

(** The labels read before a deletion cover those at its execution. *)
Definition labels_covered (o : bop) (s : store) : Prop :=
  match o with ODelete k x ls => ∀ l, l ∈ labels s k (exchange_keys_of x) → l ∈ ls | _ => True end.

Lemma indexed_commit o s0 s1 s' :
  op_ok o → reads_ok o → labels_covered o s1 → indexed s1 →
  commits (op_watch o) (op_tx o) s0 s1 s' → indexed s'.
Proof.
  intros Ho Hr Hc HI Hx. destruct (commit_sets o s0 s1 s' Ho Hr (ix_wt _ HI) Hx) as (l & Hp & Hw & Hs).
  destruct o as [x policy|k q x lab|k q x lab|k x ls|q x|q x|x].
  - apply (indexed_quiet s1); [done| |done]. exact (quiet_effect _ _ _ _ Hs (OCreate x policy) I Hp).
  - by eapply indexed_bind.
  - by eapply indexed_unbind.
  - by eapply indexed_delete.
  - destruct Ho as ([HX _] & Hq & Hns & Ht). destruct (fan_bind_effect _ _ _ _ Hs _ _ Hp) as [Hk Hu].
    eapply indexed_fan; try done; clear; set_solver.
  - destruct Ho as ([HX _] & Hq & Hns & Ht). destruct (fan_unbind_effect _ _ _ _ Hs _ _ Hp) as [Hk Hu].
    eapply indexed_fan; try done; clear; set_solver.
  - apply (indexed_quiet s1); [done| |done]. exact (quiet_effect _ _ _ _ Hs (OFanDelete x) I Hp).
Qed.

(** *** Histories

    The keyspaces the transactions of any number of clients go through, the
    latest first.  A transaction reads in some past keyspace and executes in
    the latest, when its watched keys are as they were; a deletion reads the
    labels in an even earlier one.  Other components change the keyspace
    without touching bindings. *)

Definition no_bindings (s : store) : Prop :=
  wt s ∧ (∀ k X, wf_exchange X → labels s k X = ∅) ∧
  (∀ k X l, wf_exchange X → no_colon l = true → bound s k X l = ∅) ∧
  (∀ X, wf_exchange X → fanned s X = ∅) ∧ (∀ q, queue_ok q → bindings s q = ∅).

(** What a deletion has read of the labels still holds when its transaction
    starts. *)
Definition labels_read (o : bop) (past : list store) (s0 : store) : Prop :=
  match o with
  | ODelete k x ls => ∃ s, s ∈ past ∧ ls = elements (labels s k (exchange_keys_of x)) ∧
                           labels s0 k (exchange_keys_of x) = labels s k (exchange_keys_of x)
  | _ => True
  end.

Inductive history : list store → Prop :=
| h_start s : no_bindings s → history [s]
| h_commit o s0 s1 past s' :
    history (s1 :: past) → op_ok o → s0 ∈ s1 :: past → labels_read o (s1 :: past) s0 →
    commits (op_watch o) (op_tx o) s0 s1 s' → history (s' :: s1 :: past)
| h_other s1 past s' :
    history (s1 :: past) → wt s' → quiet s1 s' → history (s' :: s1 :: past).

Lemma indexed_start s : no_bindings s → indexed s.
Proof.
  intros (Hw & Hl & Hb & Hf & Hx). split; [done|..].
  - intros k X l HX Hn. rewrite Hl, Hb by done. set_solver.
  - intros k X l HX. rewrite Hl by done. set_solver.
  - intros k X l m HX Hn. rewrite Hb by done. set_solver.
  - intros X m HX. rewrite Hf by done. set_solver.
  - intros x q HX Hq Ht. rewrite Hf, Hx by done. set_solver.
Qed.

Lemma delete_watches_labels k x ls s0 s1 :
  unchanged (op_watch (ODelete k x ls)) s0 s1 →
  labels s1 k (exchange_keys_of x) = labels s0 k (exchange_keys_of x).
Proof. intros H. apply (unchanged_sts _ _ _ _ H). destruct k; cbn; set_solver. Qed.

Lemma history_indexed hs : history hs → Forall indexed hs.
Proof.
  induction 1 as [s Hs|o s0 s1 past s' _ IH Ho Hin Hlr Hc|s1 past s' _ IH Hw Hq].
  - constructor; [by apply indexed_start|constructor].
  - constructor; [|done]. assert (indexed s1) as HI by by inversion IH.
    rewrite Forall_forall in IH. destruct o as [| | |k x ls| | |]; try by eapply indexed_commit.
    destruct Hlr as (s & Hsin & -> & Hls). specialize (IH s Hsin). pose proof Ho as [[HX _] Ht].
    assert (labels s1 k (exchange_keys_of x) = labels s0 k (exchange_keys_of x)) as Hu.
    { destruct Hc as (cmds & _ & Hu & _). by apply delete_watches_labels in Hu. }
    apply (indexed_commit _ s0 s1 s') in Hc; [done|done| | |done].
    + apply Forall_forall. intros l Hl%elem_of_elements. exact (ix_label s IH k _ l HX Hl).
    + intros l. rewrite Hu, Hls. by rewrite elem_of_elements.
  - constructor; [|done]. apply (indexed_quiet s1); [done..|]. by inversion IH.
Qed.

(** ** The exchanges of a queue, when transactions do not overlap *)

Inductive serial : store → Prop :=
| s_start s : no_bindings s → serial s
| s_commit o s s' :
    serial s → op_ok o → labels_read o [s] s → commits (op_watch o) (op_tx o) s s s' → serial s'
| s_other s s' : serial s → wt s' → quiet s s' → serial s'.

(** Is the queue bound to the exchange, under some label? *)
Definition bound_to (s : store) (q : QParams) (x : EParams) : Prop :=
  (e_typ x = TypeFanout ∧ encode_queue q ∈ fanned s (exchange_keys_of x)) ∨
  ∃ k l, e_typ x = kind_type k ∧ no_colon l = true ∧
         encode_queue q ∈ bound s k (exchange_keys_of x) l.

Record listed (s : store) : Prop := {
  ls_indexed : indexed s;
  ls_back k x q : exchange_ok x → queue_ok q → e_typ x = kind_type k →
    encode_exchange x ∈ bindings s q ↔
    ∃ l, no_colon l = true ∧ encode_queue q ∈ bound s k (exchange_keys_of x) l;
  ls_bindings q m : queue_ok q → m ∈ bindings s q →
    ∃ x, exchange_ok x ∧ (e_typ x = TypeFanout ∨ ∃ k, e_typ x = kind_type k) ∧ m = encode_exchange x
}.

Lemma same_exchange k x y :
  e_typ x = kind_type k → e_typ y = kind_type k → exchange_keys_of x = exchange_keys_of y → x = y.
Proof. intros Hx Hy [= H1 H2]. destruct x, y; cbn in *; congruence. Qed.

Lemma listed_start s : no_bindings s → listed s.
Proof.
  intros H. split; [by apply indexed_start|..]; destruct H as (Hw & Hl & Hb & Hf & Hx).
  - intros k x q [HX _] Hq Ht. rewrite Hx by done. split; [set_solver|].
    intros (l & Hn & Hin). rewrite Hb in Hin by done. set_solver.
  - intros q m Hq. rewrite Hx by done. set_solver.
Qed.

Lemma listed_quiet s s' : wt s' → quiet s s' → listed s → listed s'.
Proof.
  intros Hw Hq [HI Hb Hm]. split; [by apply (indexed_quiet s)|..]; destruct Hq as [[_ Hbs] [_ Hxs]].
  - intros k x q [HX HX'] Hq Ht. rewrite Hxs, Hb by done.
    split; intros (l & Hn & Hin); exists l; (split; [done|]); by rewrite Hbs in *.
  - intros q m Hq. rewrite Hxs by done. by apply Hm.
Qed.

#[global] Instance kind_type_inj : Inj (=) (=) kind_type.
Proof. by intros [] []. Qed.

Section serial_commit.
Context (s s' : store) (l : list scmd) (HL : listed s) (HI : indexed s').
Context (Hs : ∀ k, wf_key k → key_type k = TSet →
              sts s' (render_key k) = foldl (supd k) (sts s (render_key k)) l).

(** Only the bindings of one queue to one exchange change. *)
Lemma listed_update k q x lab (f : gset string → string → gset string) :
  exchange_ok x → queue_ok q → e_typ x = kind_type k →
  (∀ X m a, a ≠ m → a ∈ f X m ↔ a ∈ X) →
  (∀ k' X' l', wf_exchange X' → no_colon l' = true → bound s' k' X' l' =
     if decide (k' = k ∧ X' = exchange_keys_of x ∧ l' = lab)
     then f (bound s k' X' l') (encode_queue q) else bound s k' X' l') →
  (∀ q' m, queue_ok q' → q' ≠ q ∨ m ≠ encode_exchange x → m ∈ bindings s' q' ↔ m ∈ bindings s q') →
  (encode_exchange x ∈ bindings s' q ↔
   ∃ l, no_colon l = true ∧ encode_queue q ∈ bound s' k (exchange_keys_of x) l) →
  listed s'.
Proof using HL HI.
  intros HX Hq Ht Hf Hb Hx Hhere. destruct HL as [_ H1 H2]. split; [done|..].
  - intros k' x' q' HX' Hq' Ht'. destruct (decide (q' = q ∧ x' = x)) as [[-> ->]|Hne].
    { rewrite Ht in Ht'. by apply (inj kind_type) in Ht' as <-. }
    rewrite Hx; [|done|]. 2: { destruct (decide (q' = q)); [right|by left]. intros ?%(inj _). naive_solver. }
    rewrite H1 by done. pose proof HX' as [HW _].
    assert (∀ l', no_colon l' = true →
      encode_queue q' ∈ bound s' k' (exchange_keys_of x') l' ↔
      encode_queue q' ∈ bound s k' (exchange_keys_of x') l') as Hel.
    { intros l' Hn. rewrite Hb by done. case_decide as E; [|done]. destruct E as (-> & E & ->).
      apply Hf. intros ->%(inj encode_queue). apply Hne. split; [done|]. by apply (same_exchange k). }
    split; intros (l' & Hn & Hin); exists l'; (split; [done|]); by apply Hel.
  - intros q' m Hq' Hm. destruct (decide (q' = q ∧ m = encode_exchange x)) as [[-> ->]|Hne].
    + exists x. eauto.
    + apply (H2 q'); [done|]. apply Hx; [done| |done].
      destruct (decide (q' = q)); [right; naive_solver|by left].
Qed.

Lemma listed_bind k q x lab :
  op_ok (OBind k q x lab) → planned s s (OBind k q x lab) l → listed s'.
Proof using All.
  intros (HX & Hq & Hlab & Hns & Ht) Hp. pose proof HX as [HW _].
  destruct (bind_effect _ _ _ _ Hs _ _ _ _ Hp) as (_ & Hb & _ & Hx).
  apply (listed_update k q x lab (λ X m, {[m]} ∪ X)); try done.
  - clear. set_solver.
  - intros q' m Hq' Hne. rewrite Hx by done. case_decide; [|done]. subst.
    destruct Hne as [?|Hne]; [done|]. clear -Hne. set_solver.
  - rewrite Hx, decide_True by done. split; [intros _|intros _; clear; set_solver].
    exists lab. split; [done|]. rewrite Hb, decide_True by done. clear. set_solver.
Qed.

Lemma listed_unbind k q x lab :
  op_ok (OUnbind k q x lab) → planned s s (OUnbind k q x lab) l → listed s'.
Proof using All.
  intros (HX & Hq & Hlab & Hns & Ht) Hp. pose proof HX as [HW _].
  destruct (unbind_effect _ _ _ _ Hs _ _ _ _ Hp) as (one & still & _ & Hst & Hin & _ & Hb & _ & Hx).
  apply (listed_update k q x lab (λ X m, X ∖ {[m]})); try done.
  - clear. set_solver.
  - intros q' m Hq' Hne. rewrite Hx by done. case_decide; [|done]. subst.
    destruct Hne as [?|Hne]; [done|]. destruct still; clear -Hne; set_solver.
  - rewrite Hx, decide_True by done. transitivity (still = true).
    { destruct still; [|clear; set_solver]. split; [done|]. intros _. apply (ls_back s HL k); eauto. }
    rewrite Hst. split.
    + intros (l' & Hl' & Hne & Hm). pose proof (ix_label s (ls_indexed s HL) _ _ _ HW Hl') as Hn.
      exists l'. split; [done|]. rewrite Hb, decide_False by naive_solver. done.
    + intros (l' & Hn & Hm). rewrite Hb in Hm by done. case_decide as E; [exfalso; clear -Hm; set_solver|].
      exists l'. split_and!; [|naive_solver|done].
      apply (ix_exact s (ls_indexed s HL)); [done..|]. intros E'. rewrite E' in Hm. clear -Hm. set_solver.
Qed.

Lemma listed_fan q x (f : gset string → string → gset string) :
  exchange_ok x → e_typ x = TypeFanout → (∀ X m a, a ≠ m → a ∈ f X m ↔ a ∈ X) →
  labels_kept s s' → fan_update s s' q x f → listed s'.
Proof using HL HI.
  intros HX Ht Hf [_ Hb] [_ Hx]. destruct HL as [_ H1 H2]. split; [done|..].
  - intros k x' q' HX' Hq' Ht'. rewrite Hx by done. pose proof HX' as [HW _].
    transitivity (encode_exchange x' ∈ bindings s q').
    { case_decide; [|done]. apply Hf. by apply not_eq_sym, (type_ne k). }
    rewrite H1 by done.
    split; intros (l' & Hn & Hin); exists l'; (split; [done|]); by rewrite Hb in *.
  - intros q' m Hq' Hm. destruct (decide (m = encode_exchange x)) as [->|Hne]; [exists x; eauto|].
    apply (H2 q'); [done|]. rewrite Hx in Hm by done. case_decide; [|done]. by apply Hf in Hm.
Qed.
End serial_commit.

Lemma serial_listed s : serial s → listed s.
Proof.
  induction 1 as [s Hs|o s s' _ IH Ho Hlr Hc|s s' _ IH Hw Hq].
  - by apply listed_start.
  - assert (reads_ok o ∧ labels_covered o s) as [Hr Hcov].
    { destruct o as [| | |k x ls| | |]; try done. destruct Hlr as (s1 & ->%list_elem_of_singleton & -> & _).
      destruct Ho as [[HX _] _]. split.
      - apply Forall_forall. intros l Hl%elem_of_elements. exact (ix_label s (ls_indexed s IH) k _ l HX Hl).
      - intros l. by rewrite elem_of_elements. }
    pose proof (indexed_commit o s s s' Ho Hr Hcov (ls_indexed s IH) Hc) as HI.
    destruct (commit_sets o s s s' Ho Hr (ix_wt _ (ls_indexed s IH)) Hc) as (l & Hp & Hw & Hs).
    destruct o as [x policy|k q x lab|k q x lab|k x ls|q x|q x|x].
    + apply (listed_quiet s); [done| |done]. exact (quiet_effect _ _ _ _ Hs (OCreate x policy) I Hp).
    + by eapply listed_bind.
    + by eapply listed_unbind.
    + apply (listed_quiet s); [done| |done]. eapply delete_quiet; try done. apply IH.
    + destruct Ho as (HX & Hq & Hns & Ht). destruct (fan_bind_effect _ _ _ _ Hs _ _ Hp) as [Hk Hu].
      eapply listed_fan; try done; clear; set_solver.
    + destruct Ho as (HX & Hq & Hns & Ht). destruct (fan_unbind_effect _ _ _ _ Hs _ _ Hp) as [Hk Hu].
      eapply listed_fan; try done; clear; set_solver.
    + apply (listed_quiet s); [done| |done]. exact (quiet_effect _ _ _ _ Hs (OFanDelete x) I Hp).
  - by apply (listed_quiet s).
Qed.
