(* ===== verification/Routing.v ===== *)
(** * Routing and the indexes of bindings: what holds and what races

    Routing delivers to the queues bound under a matching label and to no
    others.  The list of labels is exact under any interleaving of
    transactions, the list of the exchanges of a queue as long as transactions
    do not overlap; two races, on which the watched keys do not help, show that
    the last condition is needed. *)

From S2P Require Import Prelude Keys Redis RedisFacts Types Keyspace Topic Json Message MessageCodec.
From S2P Require Import Exchange Bindings.
#[local] Open Scope Z_scope.

(** ** Decoding a set of queues *)

Lemma elem_of_decoded (X : gset string) (ns : string) q :
  (∀ m, m ∈ X → ∃ q, queue_ok q ∧ q_ns q = ns ∧ m = encode_queue q) →
  q ∈ DecodeParamsSlice (elements X) ↔ queue_ok q ∧ encode_queue q ∈ X.
Proof.
  intros HX. unfold DecodeParamsSlice. rewrite list_elem_of_omap. setoid_rewrite elem_of_elements.
  split.
  - intros (m & Hm & Hd). destruct (HX m Hm) as (q' & Hq' & _ & ->). pose proof Hq' as (_ & H1 & H2).
    rewrite decode_encode_queue in Hd by done. by injection Hd as ->.
  - intros [(Hw & H1 & H2) Hin]. exists (encode_queue q). by rewrite decode_encode_queue.
Qed.

Lemma decoded_NoDup (X : gset string) :
  (∀ m, m ∈ X → ∃ q, queue_ok q ∧ m = encode_queue q) → NoDup (DecodeParamsSlice (elements X)).
Proof.
  intros HX. unfold DecodeParamsSlice.
  assert (∀ m, m ∈ elements X → ∃ q, queue_ok q ∧ m = encode_queue q) as Hl.
  { intros m Hm. apply HX. by apply elem_of_elements. }
  pose proof (NoDup_elements X) as Hnd. revert Hl Hnd. generalize (elements X). clear.
  induction l as [|m l IH]; intros Hl Hnd; [constructor|]. apply NoDup_cons in Hnd as [Hm Hnd].
  destruct (Hl m) as (q & (Hw & H1 & H2) & ->); [set_solver|].
  cbn [omap list_omap]. rewrite decode_encode_queue by done. constructor; [|apply IH; set_solver].
  rewrite list_elem_of_omap. intros (m' & Hm' & Hd). apply Hm.
  destruct (Hl m') as (q' & (Hw' & H1' & H2') & ->); [set_solver|].
  rewrite decode_encode_queue in Hd by done. by injection Hd as ->.
Qed.

Lemma smembers_run k s : is_set s k → cmd_smembers k s = (Ret (elements (sts s k)), s).
Proof. intros H. unfold cmd_smembers. by rewrite with_set_run. Qed.

Lemma members_run s k :
  wt s → wf_key k → key_type k = TSet → members (render_key k) s = inr (elements (sts s (render_key k))).
Proof. intros Hw Hk Ht. unfold members. by rewrite smembers_run by by apply wt_set. Qed.

(** ** Removal of duplicates *)

Lemma queue_name_inj q q' :
  no_colon (q_ns q) = true → no_colon (q_ns q') = true →
  q_ns q +:+ ":" +:+ q_name q = q_ns q' +:+ ":" +:+ q_name q' → q = q'.
Proof.
  intros H1 H2 E.
  destruct (no_colon_split (q_ns q) (q_ns q') (":" +:+ q_name q) (":" +:+ q_name q')) as [E1 E2];
    [done|done|by right; eexists|by right; eexists|exact E|].
  injection E2 as E2. by apply QParams_ext.
Qed.

Lemma unseen_spec qs : ∀ seen,
  Forall (λ q, no_colon (q_ns q) = true) qs →
  NoDup (unseen seen qs) ∧
  ∀ q, q ∈ unseen seen qs ↔ q ∈ qs ∧ q_ns q +:+ ":" +:+ q_name q ∉ seen.
Proof.
  induction qs as [|q0 qs IH]; intros seen Hn; [split; [constructor|set_solver]|].
  apply Forall_cons in Hn as [H0 Hn]. cbn [unseen]. case_decide as E.
  - destruct (IH seen Hn) as [Hd Hi]. split; [done|]. intros q. rewrite Hi, elem_of_cons. naive_solver.
  - destruct (IH ((q_ns q0 +:+ ":" +:+ q_name q0) :: seen) Hn) as [Hd Hi]. split.
    + constructor; [|done]. rewrite Hi. set_solver.
    + intros q. rewrite !elem_of_cons, Hi, not_elem_of_cons. split; [naive_solver|].
      intros [[->|Hq] Hs]; [by left|]. destruct (decide (q = q0)) as [->|Hne]; [by left|]. right.
      split_and!; [done| |done]. intros E'. apply Hne. apply queue_name_inj; [|done|exact E'].
      rewrite Forall_forall in Hn. by apply Hn.
Qed.

(** ** Routing *)

Lemma collect_ok {A} (f : string → exchange_error + A) (g : string → A) ls :
  (∀ l, l ∈ ls → f l = inr (g l)) → collect f ls = inr ((λ l, (l, g l)) <$> ls).
Proof.
  induction ls as [|l ls IH]; intros Hf; [done|]. cbn [collect]. rewrite Hf, IH by set_solver. done.
Qed.

Section routing.
Context (s : store) (x : EParams) (HI : indexed s) (HX : exchange_ok x) (Hty : ValidateType x s = None).

Lemma bound_members k l :
  no_colon l = true →
  members (render_key (queues_of k (exchange_keys_of x) l)) s =
    inr (elements (bound s k (exchange_keys_of x) l)) ∧
  ∀ q, q ∈ DecodeParamsSlice (elements (bound s k (exchange_keys_of x) l)) ↔
       queue_ok q ∧ encode_queue q ∈ bound s k (exchange_keys_of x) l.
Proof using HI HX.
  intros Hl. pose proof HX as [HW _]. split.
  - by apply members_run; [apply HI|apply queues_of_ok..].
  - intros q. apply (elem_of_decoded _ (e_ns x)). intros m. by apply (ix_bound s HI).
Qed.

(** The queues of a direct exchange under a routing key. *)
Lemma direct_route rk :
  no_colon rk = true →
  ∃ qs, direct_MatchQueues x rk s = inr qs ∧ NoDup qs ∧
    ∀ q, q ∈ qs ↔ queue_ok q ∧ encode_queue q ∈ bound s LDirect (exchange_keys_of x) rk.
Proof using HI HX Hty.
  intros Hl. destruct (bound_members LDirect rk Hl) as [Hm Hq].
  unfold direct_MatchQueues, direct_BoundQueues. rewrite Hty.
  change (RoutingKeyQueues (exchange_keys_of x) rk)
    with (render_key (queues_of LDirect (exchange_keys_of x) rk)).
  rewrite Hm. eexists. split; [done|]. split; [|done]. apply decoded_NoDup. intros m Hin.
  pose proof HX as [HW _]. destruct (ix_bound s HI _ _ _ _ HW Hl Hin) as (q & H1 & _ & H2). eauto.
Qed.

(** The queues of a fanout exchange. *)
Lemma fanout_route :
  ∃ qs, fanout_MatchQueues x s = inr qs ∧ NoDup qs ∧
    ∀ q, q ∈ qs ↔ queue_ok q ∧ encode_queue q ∈ fanned s (exchange_keys_of x).
Proof using HI HX Hty.
  pose proof HX as [HW _]. pose proof HW as [HW1 HW2].
  unfold fanout_MatchQueues, fanout_BoundQueues. rewrite Hty.
  change (FanoutQueues (exchange_keys_of x)) with (render_key (KFanoutQueues (exchange_keys_of x))).
  rewrite members_run; [|apply HI|wf_parts|done]. eexists. split; [done|]. split.
  - apply decoded_NoDup. intros m Hin. destruct (ix_fanned s HI _ _ HW Hin) as (q & H1 & _ & H2). eauto.
  - intros q. apply (elem_of_decoded _ (e_ns x)). intros m. by apply (ix_fanned s HI).
Qed.

(** The queues of a topic exchange under the patterns a routing key matches. *)
Lemma topic_route rk :
  ∃ qs, topic_MatchQueues x rk s = inr qs ∧ NoDup qs ∧
    ∀ q, q ∈ qs ↔ queue_ok q ∧ ∃ p, no_colon p = true ∧ topic_match (Split rk) (Split p) ∧
                                    encode_queue q ∈ bound s LTopic (exchange_keys_of x) p.
Proof using HI HX Hty.
  pose proof HX as [HW _]. unfold topic_MatchQueues, patterns. rewrite Hty.
  change (BindingPatterns (exchange_keys_of x)) with (render_key (labels_of LTopic (exchange_keys_of x))).
  rewrite members_run; [|apply HI|by apply labels_of_ok..].
  fold (labels s LTopic (exchange_keys_of x)). set (ps := filter _ _).
  assert (∀ p, p ∈ ps ↔ topic_match (Split rk) (Split p) ∧ p ∈ labels s LTopic (exchange_keys_of x)) as Hps.
  { intros p. unfold ps. rewrite list_elem_of_filter, elem_of_elements. unfold matchTopicPattern.
    split; intros [H1 H2]; (split; [|done]);
      [by apply matchTopicTokens_sound|by apply matchTopicTokens_complete]. }
  rewrite (collect_ok _ (λ p, DecodeParamsSlice (elements (bound s LTopic (exchange_keys_of x) p)))).
  2: { intros p [_ Hp]%Hps. unfold boundQueues.
       pose proof (ix_label s HI _ _ _ HW Hp) as Hn. destruct (bound_members LTopic p Hn) as [Hm _].
       cbn [queues_of render_key] in Hm. by rewrite Hm. }
  rewrite <-list_fmap_compose. set (qs := mjoin _).
  assert (∀ q, q ∈ qs ↔ queue_ok q ∧ ∃ p, p ∈ ps ∧ encode_queue q ∈ bound s LTopic (exchange_keys_of x) p) as Hqs.
  { intros q. unfold qs. rewrite list_elem_of_join. setoid_rewrite list_elem_of_fmap. split.
    - intros (qs' & Hq & p & -> & Hp). pose proof Hp as [_ Hl]%Hps.
      pose proof (ix_label s HI _ _ _ HW Hl) as Hn. apply (bound_members LTopic p Hn) in Hq as [? ?]. eauto.
    - intros (Hok & p & Hp & Hin). pose proof Hp as [_ Hl]%Hps.
      pose proof (ix_label s HI _ _ _ HW Hl) as Hn.
      eexists. split; [|exists p; split; [reflexivity|done]]. by apply (bound_members LTopic p Hn). }
  destruct (unseen_spec qs []) as [Hnd Hel].
  { apply Forall_forall. intros q [[[H1 _] _] _]%Hqs. exact H1. }
  exists (unseen [] qs). split; [done|]. split; [done|]. intros q. rewrite Hel, Hqs. split.
  - intros [(Hok & p & [Hm Hl]%Hps & Hin) _]. split; [done|].
    exists p. split; [exact (ix_label s HI _ _ _ HW Hl)|done].
  - intros (Hok & p & Hn & Hm & Hin). split; [|by apply not_elem_of_nil]. split; [done|].
    exists p. split; [|done]. apply Hps. split; [done|].
    apply (ix_exact s HI); [done..|]. intros E. rewrite E in Hin. by apply not_elem_of_empty in Hin.
Qed.
End routing.

(** ** Exchanges listed with a queue *)

Lemma decode_encode_exchange x :
  e_name x ≠ "" → e_ns x ≠ "" → in_int64 (e_typ x) → decode_exchange (encode_exchange x) = Some x.
Proof.
  intros H1 H2 H3. unfold decode_exchange, encode_exchange. rewrite parse_print. cbn [mbind option_bind].
  rewrite e_json_roundtrip by done. cbn [mbind option_bind]. by rewrite decide_False by naive_solver.
Qed.

Lemma kind_int64 k : in_int64 (kind_type k).
Proof. destruct k; split; vm_compute; discriminate. Qed.

Lemma listed_bound s q x :
  listed s → queue_ok q → exchange_ok x →
  (e_typ x = TypeFanout ∨ ∃ k, e_typ x = kind_type k) →
  encode_exchange x ∈ bindings s q ↔ bound_to s q x.
Proof.
  intros [HI Hb _] Hq HX Ht. pose proof HX as [HW _]. unfold bound_to. destruct Ht as [Ht|[k Ht]].
  - rewrite (ix_fanout s HI) by done. split; [by left|]. intros [[_ H]|(k & l & Hk & _)]; [done|].
    rewrite Ht in Hk. by destruct k.
  - rewrite (Hb k) by done. split.
    + intros (l & Hn & Hin). right. by exists k, l.
    + intros [[Hf _]|(k' & l & Hk & Hn & Hin)]; [rewrite Ht in Hf; by destruct k|].
      rewrite Ht in Hk. apply (inj kind_type) in Hk as <-. eauto.
Qed.

Lemma bound_to_type s q x :
  bound_to s q x → e_typ x = TypeFanout ∨ ∃ k, e_typ x = kind_type k.
Proof. intros [[H _]|(k & l & H & _)]; eauto. Qed.

(** ** Samples *)

Lemma WithTransaction_commits watch fn n s s' :
  WithTransaction watch fn (alone (S n)) s = (inr tt, s') → commits watch fn s s s'.
Proof.
  rewrite WithTransaction_alone. destruct (fn s).1 as [[e|cmds]|e] eqn:E; [done| |done].
  destruct (exec_all cmds s) as [[e|] s1] eqn:Hx; [done|]. intros [= ->].
  exists cmds. split; [done|]. split; [apply unchanged_refl|done].
Qed.

Lemma no_bindings_empty : no_bindings empty_store.
Proof.
  split; [apply wt_empty|]. unfold labels, bound, fanned, bindings, sts. cbn [db empty_store].
  split_and!; intros; by rewrite lookup_empty.
Qed.

Lemma no_bindings_hash k h s :
  wf_key k → key_type k = THash → no_bindings s → no_bindings (upd (render_key k) (hash_val h) s).
Proof.
  intros Hk Ht (Hw & H1 & H2 & H3 & H4). split; [by apply wt_upd_hash|].
  assert (∀ k', wf_key k' → key_type k' = TSet →
    sts (upd (render_key k) (hash_val h) s) (render_key k') = sts s (render_key k')) as Hs.
  { intros k' Hk' Ht'. apply sts_upd_ne, render_key_ne; congruence. }
  unfold labels, bound, fanned, bindings in *. split_and!.
  - intros k' X HX. rewrite Hs by (by apply labels_of_ok). by apply H1.
  - intros k' X l HX Hl. rewrite Hs by (by apply queues_of_ok). by apply H2.
  - intros X HX. pose proof HX as [? ?].
    etrans; [apply (Hs (KFanoutQueues X)); [wf_parts|done]|by apply H3].
  - intros q Hq. 
    etrans; [apply (Hs (KExchangeBindings _)); [by apply bindings_ok|done]|by apply H4].
Qed.

Definition orders : QParams := {| q_name := "orders"; q_ns := "ns1" |}.
Definition events : QParams := {| q_name := "events"; q_ns := "ns1" |}.
Definition shop : EParams := {| e_name := "shop"; e_ns := "ns1"; e_typ := TypeDirect |}.

(** Two queues of a type, and no exchange. *)
Definition queues_store (ty : Z) : store :=
  put_hash (Properties (queue_keys_of orders)) {[qkey Q_Type := itoa ty]}
    (put_hash (Properties (queue_keys_of events)) {[qkey Q_Type := itoa ty]} empty_store).

Lemma sample_ok : queue_ok orders ∧ queue_ok events ∧ exchange_ok shop.
Proof. repeat split; done. Qed.

Lemma queues_store_start ty : no_bindings (queues_store ty).
Proof.
  apply (no_bindings_hash (KProperties (queue_keys_of orders)));
    [apply (bool_decide_unpack _); vm_compute; exact I|done|].
  apply (no_bindings_hash (KProperties (queue_keys_of events)));
    [apply (bool_decide_unpack _); vm_compute; exact I|done|].
  apply no_bindings_empty.
Qed.

Definition bind (q : QParams) (rk : string) (s : store) : store :=
  (direct_BindQueue q shop rk (alone 5) s).2.
Definition unbind (q : QParams) (rk : string) (s : store) : store :=
  (direct_UnbindQueue q shop rk (alone 5) s).2.

Lemma bind_commits q rk s (o := OBind LDirect q shop rk) :
  q_ns q = "ns1" → (direct_BindQueue q shop rk (alone 5) s).1 = inr tt →
  commits (op_watch o) (op_tx o) s s (bind q rk s).
Proof.
  intros Hns Hr. unfold bind.
  assert (direct_BindQueue q shop rk (alone 5) s = bind_labelled (direct_keys shop) q shop rk (alone 5) s) as Hb.
  { unfold direct_BindQueue. rewrite decide_False; [done|]. rewrite Hns. by intros []. }
  rewrite Hb in *. destruct (bind_labelled _ _ _ _ _ s) as [r s'] eqn:E. cbn in Hr |- *. subst r.
  by apply WithTransaction_commits in E.
Qed.

Lemma serial_bind q rk s :
  q_ns q = "ns1" → queue_ok q → no_colon rk = true →
  (direct_BindQueue q shop rk (alone 5) s).1 = inr tt → serial s → serial (bind q rk s).
Proof.
  intros Hns Hq Hrk Hr Hs. apply (s_commit (OBind LDirect q shop rk) s); try done. by apply bind_commits.
Qed.

(** [orders] bound under "a", [events] under "b". *)
Definition apart : store := bind events "b" (bind orders "a" (queues_store TypeFIFO)).
(** Both under "b", and [orders] also under "a". *)
Definition shared : store := bind orders "b" apart.

Lemma apart_serial : serial apart.
Proof.
  apply serial_bind; [done|apply sample_ok|done|vm_compute; done|].
  apply serial_bind; [done|apply sample_ok|done|vm_compute; done|].
  apply s_start, queues_store_start.
Qed.
Lemma shared_serial : serial shared.
Proof. apply serial_bind; [done|apply sample_ok|done|vm_compute; done|apply apart_serial]. Qed.

(** ** Properties *)

(** The routing keys (patterns) listed with a direct (topic) exchange are
    exactly those with a queue bound under them, in every keyspace that any
    number of clients can bring about by creating exchanges, binding, unbinding
    and deleting in overlapping optimistic transactions, provided a deletion
    starts its transaction before another label is listed. *)
Theorem labels_index_exact hs s k X l :
  history hs → s ∈ hs → wf_exchange X → no_colon l = true →
  l ∈ labels s k X ↔ bound s k X l ≠ ∅.
Proof.
  intros Hh Hs HX Hl. apply history_indexed in Hh. rewrite Forall_forall in Hh.
  exact (ix_exact s (Hh s Hs) k X l HX Hl).
Qed.

Definition bound_once : store := bind orders "a" (queues_store TypeFIFO).

Lemma bound_once_history : history [bound_once; queues_store TypeFIFO].
Proof.
  apply (h_commit (OBind LDirect orders shop "a") (queues_store TypeFIFO)); try done.
  - apply h_start, queues_store_start.
  - by apply list_elem_of_singleton.
  - apply bind_commits; [done|vm_compute; done].
Qed.

Lemma labels_index_exact_witness :
  "a" ∈ labels bound_once LDirect (exchange_keys_of shop) ∧
  bound bound_once LDirect (exchange_keys_of shop) "a" ≠ ∅.
Proof.
  assert ("a" ∈ labels bound_once LDirect (exchange_keys_of shop)) as H.
  { apply (bool_decide_unpack _). vm_compute. exact I. }
  split; [exact H|]. revert H.
  refine (proj1 (labels_index_exact _ bound_once LDirect (exchange_keys_of shop) "a"
                   bound_once_history _ _ _)).
  - apply list_elem_of_here.
  - split; reflexivity.
  - reflexivity.
Defined.

(** When transactions do not overlap, the exchanges listed with a queue are
    exactly those it is bound to, under whatever label. *)
Theorem queue_exchanges_exact s q :
  serial s → queue_ok q →
  ∃ xs, lookup_ByQueue q s = inr xs ∧ ∀ x, x ∈ xs ↔ exchange_ok x ∧ bound_to s q x.
Proof.
  intros Hs%serial_listed Hq. unfold lookup_ByQueue, list_exchanges.
  change (ExchangeBindings (queue_keys_of q)) with (render_key (KExchangeBindings (queue_keys_of q))).
  rewrite members_run; [|apply Hs|by apply bindings_ok|done].
  eexists. split; [done|]. intros x. rewrite list_elem_of_omap. setoid_rewrite elem_of_elements.
  fold (bindings s q). assert (∀ y, e_typ y = TypeFanout ∨ (∃ k, e_typ y = kind_type k) → in_int64 (e_typ y)) as Hi.
  { intros y [->|[k ->]]; [split; vm_compute; discriminate|apply kind_int64]. }
  split.
  - intros (m & Hm & Hd). destruct (ls_bindings s Hs q m Hq Hm) as (y & Hy & Ht & ->).
    pose proof Hy as (_ & H1 & H2). rewrite decode_encode_exchange in Hd by auto. injection Hd as ->.
    split; [done|]. by apply listed_bound.
  - intros [Hx Hb]. pose proof (bound_to_type _ _ _ Hb) as Ht. pose proof Hx as (_ & H1 & H2).
    exists (encode_exchange x). split; [by apply listed_bound|]. apply decode_encode_exchange; auto.
Qed.

Lemma queue_exchanges_exact_witness :
  ∃ xs, lookup_ByQueue orders shared = inr xs ∧
        ∀ x, x ∈ xs ↔ exchange_ok x ∧ bound_to shared orders x.
Proof. exact (queue_exchanges_exact shared orders shared_serial (proj1 sample_ok)). Defined.

(** Unbinding looks under the other labels of the exchange without watching
    them, and two overlapping calls defeat the list of a queue's exchanges.
    While [orders] is unbound from "a", another client binds it under "b":
    both calls succeed, the queue is bound under "b", and no exchange is listed
    with it.  While [orders] is unbound from "a", another client unbinds it
    from "b": both calls succeed, the queue is bound under no label, and the
    exchange stays listed with it. *)
Theorem unbind_race :
  (let r := direct_UnbindQueue orders shop "a" [bind orders "b"] apart in
   serial apart ∧ r.1 = inr tt ∧
   encode_queue orders ∈ bound r.2 LDirect (exchange_keys_of shop) "b" ∧
   lookup_ByQueue orders r.2 = inr []) ∧
  (let r := direct_UnbindQueue orders shop "a" [unbind orders "b"] shared in
   serial shared ∧ r.1 = inr tt ∧
   Forall (λ rk, encode_queue orders ∉ bound r.2 LDirect (exchange_keys_of shop) rk) ["a"; "b"] ∧
   lookup_ByQueue orders r.2 = inr [shop]).
Proof.
  split; (split; [apply apart_serial || apply shared_serial|]);
    apply (bool_decide_unpack _); vm_compute; exact I.
Qed.

(** Deleting an exchange reads its labels before its transaction starts, and
    checks and watches the queues under these labels only: an exchange is
    deleted although a queue was bound to it under a new label just before the
    transaction.  The queue's set is left behind, and producing to the exchange
    no longer finds it. *)
Theorem delete_race :
  let s := unbind orders "a" (bind orders "a" (queues_store TypeFIFO)) in
  let r := direct_Delete shop (bind orders "b") (alone 5) s in
  (direct_BindQueue orders shop "b" (alone 5) s).1 = inr tt ∧ r.1 = inr tt ∧
  encode_queue orders ∈ bound r.2 LDirect (exchange_keys_of shop) "b" ∧
  labels r.2 LDirect (exchange_keys_of shop) = ∅ ∧
  direct_MatchQueues shop "b" r.2 = inl XNotFound ∧
  lookup_ByQueue orders r.2 = inr [shop].
Proof. cbv zeta. apply (bool_decide_unpack _). vm_compute. exact I. Qed.

(** An exchange that a first binding brings into being has no policy: a
    queue of any type is bound to it, and it reads back with the standard
    policy, under which a priority queue may not be bound. *)
Theorem implicit_exchange_policy q x rk s ty :
  wt s → exchange_ok x → queue_ok q → no_colon rk = true → q_ns q = e_ns x → in_int64 (e_typ x) →
  hsh s (ExchangeProperties (exchange_keys_of x)) = ∅ → load_queue_type q s = inr ty →
  encode_queue q ∉ bound s LDirect (exchange_keys_of x) rk →
  let r := direct_BindQueue q x rk (alone 5) s in
  r.1 = inr tt ∧ Load x r.2 = inr {| xp_Type := e_typ x; xp_Policy := PolicyStandard |}.
Proof.
  intros Hw HX Hq Hrk Hns Hi Hp Ht Hnb. pose proof HX as [[HX1 HX2] _]. cbv zeta.
  unfold direct_BindQueue. rewrite decide_False by (by rewrite Hns; intros []).
  unfold bind_labelled. change (alone 5) with (alone (S 4)). rewrite WithTransaction_alone.
  set (l := bind_cmds [SAdd (KRoutingKeys (exchange_keys_of x)) rk;
                       SAdd (KRoutingKeyQueues (exchange_keys_of x) rk) (encode_queue q)] q x).
  assert ((bind_tx (direct_keys x) q x rk s).1 = Ret (inr (srun <$> l))) as ->.
  { unfold bind_tx, guarded, ValidateQueueBinding, Load. rewrite Ht.
    rewrite hgetall_run by wt_view. rewrite Hp. cbn.
    erewrite bind_Ret; [|apply sismember_run; apply (wt_set s Hw (KRoutingKeyQueues _ rk)); [wf_parts|done]].
    by rewrite bool_decide_eq_false_2. }
  assert (Forall cmd_ok l) as Hok by (unfold l, bind_cmds, register_cmds; cmds_ok).
  destruct (exec_sets l s Hw Hok) as (s' & Hx & Hw' & _). rewrite Hx. split; [done|]. cbn [snd].
  unfold Load. rewrite hgetall_run by wt_view.
  set (h := {[xkey X_Type := itoa (e_typ x)]} : gmap string string).
  assert (hsh s' (ExchangeProperties (exchange_keys_of x)) = h) as ->.
  { unfold l, bind_cmds, register_cmds in Hx. cbn [app] in Hx. rewrite fmap_cons in Hx.
    cbn [exec_all srun render_key] in Hx. rewrite hset_run, Hp in Hx by wt_view.
    apply (f_equal snd) in Hx. cbn [snd] in Hx. subst s'. unfold hsh. rewrite exec_frame.
    - rewrite lookup_upd_eq, as_hash_val. done.
    - pose proof (proj1 Hq) as Hwq. pose proof (HX1 : no_colon (e_ns x) = true).
      cbn. rewrite !not_elem_of_cons. split_and!; [key_ne..|by apply not_elem_of_nil]. }
  rewrite decide_False by done. unfold DecodeProps, props_field, h.
  rewrite lookup_singleton_eq, lookup_singleton_ne by done.
  by rewrite ParseInt_itoa.
Qed.

(** A priority queue is bound to a new exchange; the next one is refused. *)
Lemma implicit_exchange_policy_witness :
  let r := direct_BindQueue orders shop "a" (alone 5) (queues_store TypePriority) in
  (r.1 = inr tt ∧ Load shop r.2 = inr {| xp_Type := TypeDirect; xp_Policy := PolicyStandard |}) ∧
  (direct_BindQueue events shop "a" (alone 5) r.2).1 = inl XPolicyViolation.
Proof.
  split; [|vm_compute; reflexivity].
  apply (implicit_exchange_policy orders shop "a" (queues_store TypePriority) TypePriority).
  - apply queues_store_start.
  - apply sample_ok.
  - apply sample_ok.
  - reflexivity.
  - reflexivity.
  - split; vm_compute; discriminate.
  - vm_compute; reflexivity.
  - vm_compute; reflexivity.
  - apply (bool_decide_unpack _). vm_compute. exact I.
Defined.
