(* ===== verification/Produce.v ===== *)
(** * Producing: routing a message to queues and consumer groups

    internal/producer/producer.go ([Produce] and the calls below it) and
    internal/producer/pubsub_resolver.go, the producer's list of the consumer
    groups of each Pub/Sub queue.

    The resolver hands out Go slices: a caller keeps reading the array that the
    resolver goes on changing.  Arrays are therefore modelled as a store of
    their own, and a slice as a reference into it. *)

From S2P Require Import Prelude Keys Redis RedisFacts Types Keyspace Topic Json Message MessageCodec.
From S2P Require Import Publish Exchange Bindings Routing.
#[local] Open Scope Z_scope.

(** ** The resolver (pubsub_resolver.go) *)

(** The first [sl_len] elements of an array of [sl_cap] elements.  The nil
    slice has no array. *)
Record slice := Slice { sl_array : nat; sl_len : nat; sl_cap : nat }.
Definition nil_slice : slice := Slice 0 0 0.

Record Resolver := { targets : gmap string slice; arrays : list (list string); subscribed : bool }.

Definition NewPubSubTargetResolver : Resolver :=
  {| targets := ∅; arrays := []; subscribed := false |}.

Definition array_of (r : Resolver) (sl : slice) : list string :=
  if decide (sl_cap sl = 0%nat) then [] else default [] (arrays r !! sl_array sl).
(** What a slice holds now. *)
Definition elems (r : Resolver) (sl : slice) : list string := take (sl_len sl) (array_of r sl).

Definition set_target (key : string) (sl : slice) (r : Resolver) : Resolver :=
  {| targets := <[key := sl]> (targets r); arrays := arrays r; subscribed := subscribed r |}.
Definition write_array (a : nat) (l : list string) (r : Resolver) : Resolver :=
  {| targets := targets r; arrays := <[a := l]> (arrays r); subscribed := subscribed r |}.
(** A new array holding [l] in front of unused room. *)
Definition alloc (l : list string) (cap : nat) (r : Resolver) : slice * Resolver :=
  (Slice (length (arrays r)) (length l) cap,
   {| targets := targets r; arrays := arrays r ++ [l ++ replicate (cap - length l) ""];
      subscribed := subscribed r |}).

Section resolver.
(** The capacity of the array [append] allocates for a slice of [n] elements
    that is full; the language leaves it open. *)
Context (newcap : nat → nat).

Definition target (key : string) (r : Resolver) : slice := default nil_slice (targets r !! key).

(** [append(sl, g)]: in place while there is room. *)
Definition append1 (sl : slice) (g : string) (r : Resolver) : slice * Resolver :=
  if decide (sl_len sl < sl_cap sl)%nat then
    (Slice (sl_array sl) (S (sl_len sl)) (sl_cap sl),
     write_array (sl_array sl) (<[sl_len sl := g]> (array_of r sl)) r)
  else alloc (elems r sl ++ [g]) (newcap (sl_len sl)) r.

Definition Resolve (q : QParams) (r : Resolver) : slice := target (q_String q) r.

Definition Add (q : QParams) (groupID : string) (r : Resolver) : Resolver :=
  let key := q_String q in
  if decide (groupID ∈ elems r (target key r)) then r
  else let '(sl, r) := append1 (target key r) groupID r in set_target key sl r.

Fixpoint index_of (g : string) (l : list string) : option nat :=
  match l with
  | [] => None
  | x :: l => if decide (x = g) then Some 0%nat else S <$> index_of g l
  end.

(** [append(groups[:i], groups[i+1:]...)] always has room: the elements behind
    [i] move one place down in the array they are in. *)
Definition Remove (q : QParams) (groupID : string) (r : Resolver) : Resolver :=
  let key := q_String q in
  let groups := target key r in
  match index_of groupID (elems r groups) with
  | None => r
  | Some i =>
      let a := array_of r groups in
      let n := sl_len groups in
      set_target key (Slice (sl_array groups) (n - 1) (sl_cap groups))
        (write_array (sl_array groups)
           (take i a ++ take (n - i - 1) (drop (S i) a) ++ drop (n - 1) a) r)
  end.

Definition onQueueCreated (q : QParams) (deliveryModel : Z) (r : Resolver) : Resolver :=
  if decide (deliveryModel = DeliveryPubSub ∧ targets r !! q_String q = None)
  then set_target (q_String q) nil_slice r else r.
Definition onQueueDeleted (q : QParams) (r : Resolver) : Resolver :=
  {| targets := delete (q_String q) (targets r); arrays := arrays r; subscribed := subscribed r |}.
Definition onConsumerGroupCreated (q : QParams) (g : string) : Resolver → Resolver := Add q g.
Definition onConsumerGroupDeleted (q : QParams) (g : string) : Resolver → Resolver := Remove q g.

Definition Clear (r : Resolver) : Resolver :=
  {| targets := ∅; arrays := arrays r; subscribed := subscribed r |}.

(** [Load]: queues that cannot be read are skipped.  The delivery model is the
    field "3" of a queue's properties; text that is no number counts as 0. *)
Definition load_queue (s : store) (r : Resolver) (member : string) : Resolver :=
  match decode_queue member with
  | None => r
  | Some q =>
      match cmd_hgetall (Properties (queue_keys_of q)) s with
      | (Err _, _) => r
      | (Ret h, _) =>
          match h !! "3" with
          | None => r
          | Some dm =>
              if decide ((ParseInt dm).1 ≠ DeliveryPubSub) then r
              else match members (ConsumerGroups (queue_keys_of q)) s with
                   | inl _ => r
                   | inr groups =>
                       let '(sl, r) := alloc groups (length groups) r in set_target (q_String q) sl r
                   end
          end
      end
  end.
Definition LoadResolver (s : store) (r : Resolver) : exchange_error + Resolver :=
  match members AllQueues s with
  | inl e => inl e
  | inr queues =>
      let r := foldl (load_queue s) r queues in
      inr {| targets := targets r; arrays := arrays r; subscribed := true |}
  end.

(** ** The producer (producer.go) *)

Inductive produce_error :=
| PNotRunning | PExchangeRequired | PRoutingKeyRequired | PNoMatchingQueues | PUnsupportedType
| PExchange (e : exchange_error) | PPublish (e : publish_error).

Record world := World { w_store : store; w_resolver : Resolver }.

(** What one dispatch reads of the outside: the identifier generated, the
    clocks, and what others do to keyspace and resolver before it, and before
    the groups of a queue are looked up. *)
Record tick := {
  t_uuid : string; t_now : Z; t_now' : Z; t_now'' : Z;
  t_lookup : world → world; t_other : world → world
}.

Context (gv : string → bool) (gn : string → Z → option Z) (ticks : nat → tick).

(** One envelope for a group ("" for none), dispatched. *)
Definition send (m : ProducibleMessage) (q : QParams) (g : string) (t : tick) (w : world)
    : (produce_error + string) * world :=
  let e := SetConsumerGroupID g (NewEnvelope (t_uuid t) m) in
  let '(r, _, s) := dispatch gv gn (t_now t) (t_now' t) (t_now'' t) e q (w_store w) in
  (match r with inl e => inl (PPublish e) | inr id => inr id end, World s (w_resolver w)).

(** The loop over the slice: element [i] is read when its turn comes. *)
Fixpoint to_groups (m : ProducibleMessage) (q : QParams) (sl : slice) (i todo c : nat) (w : world)
    : (produce_error + list string) * nat * world :=
  match todo with
  | O => (inr [], c, w)
  | S todo =>
      let t := ticks c in
      let w := t_other t w in
      match send m q (nth i (array_of (w_resolver w) sl) "") t w with
      | (inl e, w) => (inl e, S c, w)
      | (inr id, w) =>
          let '(r, c, w) := to_groups m q sl (S i) todo (S c) w in
          (match r with inl e => inl e | inr ids => inr (id :: ids) end, c, w)
      end
  end.

Definition produceToQueue (m : ProducibleMessage) (q : QParams) (resolver : bool) (c : nat) (w : world)
    : (produce_error + list string) * nat * world :=
  let w := t_lookup (ticks c) w in
  let groups := if resolver then Resolve q (w_resolver w) else nil_slice in
  if decide (0 < sl_len groups)%nat then to_groups m q groups 0 (sl_len groups) c w
  else
    let t := ticks c in
    let w := t_other t w in
    let '(r, w) := send m q "" t w in
    (match r with inl e => inl e | inr id => inr [id] end, S c, w).

Definition matchExchangeQueues (x : EParams) (routingKey : string) (s : store)
    : produce_error + list QParams :=
  let lift r := match r with inl e => inl (PExchange e) | inr qs => inr qs end in
  if decide (e_typ x = TypeDirect) then
    if decide (routingKey = "") then inl PRoutingKeyRequired
    else lift (direct_MatchQueues x routingKey s)
  else if decide (e_typ x = TypeTopic) then
    if decide (routingKey = "") then inl PRoutingKeyRequired
    else lift (topic_MatchQueues x routingKey s)
  else if decide (e_typ x = TypeFanout) then lift (fanout_MatchQueues x s)
  else inl PUnsupportedType.

Fixpoint to_queues (m : ProducibleMessage) (qs : list QParams) (resolver : bool) (c : nat) (w : world)
    : (produce_error + list string) * nat * world :=
  match qs with
  | [] => (inr [], c, w)
  | q :: qs =>
      match produceToQueue m q resolver c w with
      | (inl e, c, w) => (inl e, c, w)
      | (inr ids, c, w) =>
          let '(r, c, w) := to_queues m qs resolver c w in
          (match r with inl e => inl e | inr ids' => inr (ids ++ ids') end, c, w)
      end
  end.

Definition produceToExchange (m : ProducibleMessage) (x : EParams) (resolver : bool) (c : nat) (w : world)
    : (produce_error + list string) * nat * world :=
  match matchExchangeQueues x (m_exchangeRoutingKey m) (w_store w) with
  | inl e => (inl e, c, w)
  | inr [] => (inl PNoMatchingQueues, c, w)
  | inr qs => to_queues m qs resolver c w
  end.

Definition Produce (running resolver : bool) (m : ProducibleMessage) (c : nat) (w : world)
    : (produce_error + list string) * nat * world :=
  if negb running then (inl PNotRunning, c, w)
  else match m_queue m with
       | Some q => produceToQueue m q resolver c w
       | None =>
           match m_exchange m with
           | None => (inl PExchangeRequired, c, w)
           | Some x => produceToExchange m x resolver c w
           end
       end.
End resolver.

(** ** The resolver as a map of lists *)

Definition view (r : Resolver) : gmap string (list string) := elems r <$> targets r.

Definition spec_add (key g : string) (m : gmap string (list string)) : gmap string (list string) :=
  let l := default [] (m !! key) in if decide (g ∈ l) then m else <[key := l ++ [g]]> m.
Definition spec_remove (key g : string) (m : gmap string (list string)) : gmap string (list string) :=
  let l := default [] (m !! key) in
  if decide (g ∈ l) then <[key := remove_first g l]> m else m.

Inductive revent :=
| ECreated (q : QParams) (deliveryModel : Z) | EDeleted (q : QParams)
| EGroupCreated (q : QParams) (g : string) | EGroupDeleted (q : QParams) (g : string).

Definition on_event (newcap : nat → nat) (r : Resolver) (e : revent) : Resolver :=
  match e with
  | ECreated q dm => onQueueCreated q dm r
  | EDeleted q => onQueueDeleted q r
  | EGroupCreated q g => onConsumerGroupCreated newcap q g r
  | EGroupDeleted q g => onConsumerGroupDeleted q g r
  end.
Definition spec_event (m : gmap string (list string)) (e : revent) : gmap string (list string) :=
  match e with
  | ECreated q dm =>
      if decide (dm = DeliveryPubSub ∧ m !! q_String q = None) then <[q_String q := []]> m else m
  | EDeleted q => delete (q_String q) m
  | EGroupCreated q g => spec_add (q_String q) g m
  | EGroupDeleted q g => spec_remove (q_String q) g m
  end.

(** Every slice lies in its array, and no two queues share one. *)
Definition slice_ok (r : Resolver) (sl : slice) : Prop :=
  (sl_len sl ≤ sl_cap sl)%nat ∧
  (sl_cap sl ≠ 0%nat → ∃ a, arrays r !! sl_array sl = Some a ∧ length a = sl_cap sl).

Record separated (r : Resolver) : Prop := {
  sp_slice key sl : targets r !! key = Some sl → slice_ok r sl;
  sp_apart k1 k2 s1 s2 : k1 ≠ k2 → targets r !! k1 = Some s1 → targets r !! k2 = Some s2 →
    sl_cap s1 ≠ 0%nat → sl_cap s2 ≠ 0%nat → sl_array s1 ≠ sl_array s2
}.

Lemma nil_slice_ok r : slice_ok r nil_slice.
Proof. split; [cbn; lia|done]. Qed.
Lemma elems_nil r : elems r nil_slice = [].
Proof. done. Qed.

Lemma target_ok r key : separated r → slice_ok r (target key r).
Proof.
  intros H. unfold target. destruct (targets r !! key) eqn:E; [by eapply sp_slice|apply nil_slice_ok].
Qed.

Lemma view_lookup r key : default [] (view r !! key) = elems r (target key r).
Proof. unfold view, target. rewrite lookup_fmap. by destruct (targets r !! key). Qed.

Lemma elems_length r sl : slice_ok r sl → length (elems r sl) = sl_len sl.
Proof.
  intros [Hl Ha]. unfold elems, array_of. case_decide as E; [cbn; rewrite length_take; cbn; lia|].
  destruct (Ha E) as (a & -> & Hlen). cbn. rewrite length_take. lia.
Qed.

Section update.
Context (r r' : Resolver) (key : string) (sl : slice) (Hr : separated r).
Context (Ht : targets r' = <[key := sl]> (targets r)).

(** The arrays of the other queues are as before, and the new slice is in an
    array that is its own. *)
Context (Hother : ∀ key' sl', key' ≠ key → targets r !! key' = Some sl' → sl_cap sl' ≠ 0%nat →
  arrays r' !! sl_array sl' = arrays r !! sl_array sl' ∧ (sl_cap sl ≠ 0%nat → sl_array sl ≠ sl_array sl')).
Context (Hsl : slice_ok r' sl).

Lemma update_separated : separated r'.
Proof using All.
  split.
  - intros key' sl'. rewrite Ht, lookup_insert_Some. intros [[<- <-]|[Hne Hk]]; [done|].
    destruct (sp_slice r Hr _ _ Hk) as [Hl Ha]. split; [done|]. intros Hc.
    destruct (Hother key' sl') as [-> _]; [done..|]. by apply Ha.
  - intros k1 k2 s1 s2 Hne. rewrite Ht, !lookup_insert_Some.
    intros [[<- <-]|[Hn1 H1]] [[<- <-]|[Hn2 H2]] Hc1 Hc2; [done|..].
    + apply (Hother k2 s2); done.
    + apply not_eq_sym, (Hother k1 s1); done.
    + by eapply (sp_apart r Hr k1 k2).
Qed.

Lemma update_view : view r' = <[key := elems r' sl]> (view r).
Proof using Ht Hother.
  unfold view. rewrite Ht, fmap_insert. apply map_eq. intros key'.
  destruct (decide (key = key')) as [->|Hne]; [by rewrite !lookup_insert_eq|].
  rewrite !lookup_insert_ne by done. rewrite !lookup_fmap. destruct (targets r !! key') as [sl'|] eqn:E; [|done].
  cbn. f_equal. unfold elems, array_of. case_decide as Hc; [done|].
  by destruct (Hother key' sl') as [-> _].
Qed.
End update.

(** A slice with room belongs to a registered queue. *)
Lemma target_registered r key : sl_cap (target key r) ≠ 0%nat → targets r !! key = Some (target key r).
Proof. unfold target. by destruct (targets r !! key). Qed.

Lemma array_of_ok r sl :
  slice_ok r sl → sl_cap sl ≠ 0%nat →
  arrays r !! sl_array sl = Some (array_of r sl) ∧ length (array_of r sl) = sl_cap sl.
Proof.
  intros [_ Ha] Hc. unfold array_of. rewrite decide_False by done. by destruct (Ha Hc) as (a & -> & Hl).
Qed.

(** Writing into the array of a queue. *)
Lemma write_update r key l n (sl := target key r) (sl' := Slice (sl_array sl) n (sl_cap sl))
    (r' := set_target key sl' (write_array (sl_array sl) l r)) :
  separated r → sl_cap sl ≠ 0%nat → (n ≤ sl_cap sl)%nat → length l = sl_cap sl →
  separated r' ∧ view r' = <[key := take n l]> (view r).
Proof.
  intros Hr Hc Hn Hl. pose proof (target_registered r key Hc) as Hk.
  destruct (array_of_ok r sl (target_ok r key Hr) Hc) as [Ha Hlen].
  assert (arrays r' !! sl_array sl = Some l) as Hw.
  { cbn. apply list_lookup_insert_eq. by eapply lookup_lt_Some. }
  assert (∀ key' s2, key' ≠ key → targets r !! key' = Some s2 → sl_cap s2 ≠ 0%nat →
    arrays r' !! sl_array s2 = arrays r !! sl_array s2 ∧
    (sl_cap sl' ≠ 0%nat → sl_array sl' ≠ sl_array s2)) as Hother.
  { intros key' s2 Hne Hk2 Hc2. assert (sl_array sl ≠ sl_array s2) as Hsep.
    { by apply (sp_apart r Hr key key' sl s2 (not_eq_sym Hne) Hk Hk2). }
    split; [|done]. cbn. by apply list_lookup_insert_ne. }
  split.
  - apply (update_separated r r' key sl'); [done|done|done|]. split; [done|]. intros _. eauto.
  - rewrite (update_view r r' key sl'); [|done|done]. f_equal. unfold elems, array_of. cbn [sl_cap sl_len sl' sl_array].
    rewrite decide_False by done. by rewrite Hw.
Qed.

(** A fresh array for a queue. *)
Lemma alloc_update r key l cap sl r0 (r' := set_target key sl r0) :
  alloc l cap r = (sl, r0) → separated r → (length l ≤ cap)%nat →
  separated r' ∧ view r' = <[key := l]> (view r).
Proof.
  intros [= Esl Er] Hr Hcap. unfold r'. clear r'. 
  assert (arrays r0 !! length (arrays r) = Some (l ++ replicate (cap - length l) "")) as Hw.
  { rewrite <-Er. cbn. by rewrite lookup_app_r, Nat.sub_diag by lia. }
  assert (∀ key' s2, key' ≠ key → targets r !! key' = Some s2 → sl_cap s2 ≠ 0%nat →
    arrays r0 !! sl_array s2 = arrays r !! sl_array s2 ∧
    (sl_cap sl ≠ 0%nat → sl_array sl ≠ sl_array s2)) as Hother.
  { intros key' s2 Hne Hk2 Hc2. destruct (sp_slice r Hr _ _ Hk2) as [_ Ha].
    destruct (Ha Hc2) as (a & Ha2 & _). pose proof (lookup_lt_Some _ _ _ Ha2) as Hlt. split.
    - rewrite <-Er. cbn. by rewrite lookup_app_l.
    - intros _. rewrite <-Esl. cbn. lia. }
  assert (slice_ok (set_target key sl r0) sl) as Hok.
  { rewrite <-Esl. split; [done|]. intros _. eexists. split; [exact Hw|]. rewrite length_app, length_replicate. cbn. lia. }
  assert (targets (set_target key sl r0) = <[key := sl]> (targets r)) as Ht by by rewrite <-Er.
  split; [by apply (update_separated r _ key sl)|].
  rewrite (update_view r _ key sl) by done. f_equal. unfold elems, array_of. rewrite <-Esl. cbn [sl_cap sl_len sl_array].
  case_decide as Hc; [subst cap; destruct l; [done|cbn in Hcap; lia]|].
  cbn [arrays set_target]. rewrite Hw. cbn. by rewrite take_app_length.
Qed.

Lemma Add_spec newcap q g r :
  (∀ n, (n < newcap n)%nat) → separated r →
  separated (Add newcap q g r) ∧ view (Add newcap q g r) = spec_add (q_String q) g (view r).
Proof.
  intros Hgrow Hr. unfold Add, spec_add. rewrite view_lookup. case_decide as Hin; [done|].
  set (key := q_String q) in *. pose proof (target_ok r key Hr) as Hok. unfold append1. case_decide as Hroom.
  - assert (sl_cap (target key r) ≠ 0%nat) as Hc by lia. destruct (array_of_ok r _ Hok Hc) as [_ Hlen].
    destruct (write_update r key (<[sl_len (target key r) := g]> (array_of r (target key r)))
                (S (sl_len (target key r))) Hr Hc) as [H1 H2]; [lia|by rewrite length_insert|].
    split; [done|]. etrans; [exact H2|]. f_equal.
    rewrite (take_S_r _ _ g) by (apply list_lookup_insert_eq; lia). by rewrite take_insert_ge by lia.
  - apply (alloc_update r _ (elems r (target key r) ++ [g]) (newcap (sl_len (target key r)))); [done|done|].
    rewrite length_app, elems_length by done. cbn. specialize (Hgrow (sl_len (target key r))). lia.
Qed.

Lemma index_of_spec g l :
  match index_of g l with
  | None => g ∉ l
  | Some i => g ∈ l ∧ (i < length l)%nat ∧ remove_first g l = take i l ++ drop (S i) l
  end.
Proof.
  induction l as [|x l IH]; [by apply not_elem_of_nil|]. cbn [index_of]. case_decide as E.
  - subst. cbn. rewrite decide_True by done. split; [set_solver|]. split; [lia|done].
  - destruct (index_of g l) as [i|]; cbn.
    + destruct IH as (H1 & H2 & H3). split; [set_solver|]. split; [lia|].
      rewrite decide_False by done. by rewrite H3.
    + set_solver.
Qed.

Lemma Remove_spec q g r :
  separated r →
  separated (Remove q g r) ∧ view (Remove q g r) = spec_remove (q_String q) g (view r).
Proof.
  intros Hr. unfold Remove, spec_remove. rewrite view_lookup. set (key := q_String q).
  pose proof (target_ok r key Hr) as Hok. pose proof (index_of_spec g (elems r (target key r))) as Hi.
  destruct (index_of g _) as [i|]; [|by rewrite decide_False].
  destruct Hi as (Hin & Hlt & Hrm). rewrite decide_True, Hrm by done.
  rewrite elems_length in Hlt by done. destruct Hok as [Hle _].
  assert (sl_cap (target key r) ≠ 0%nat) as Hc by lia.
  destruct (array_of_ok r _ (target_ok r key Hr) Hc) as [_ Hlen].
  edestruct (write_update r key) as [H1 H2]; [done|done| | |split; [exact H1|etrans; [exact H2|]]].
  - lia.
  - rewrite !length_app, !length_take, !length_drop. lia.
  - f_equal. unfold elems. set (a := array_of r (target key r)) in *. set (n := sl_len (target key r)) in *.
    rewrite take_take, Nat.min_l, skipn_firstn_comm by lia. replace (n - S i)%nat with (n - i - 1)%nat by lia.
    rewrite (assoc_L (++)). apply take_app_length'. rewrite length_app, !length_take, length_drop. lia.
Qed.

Lemma onQueueCreated_spec q dm r :
  separated r →
  separated (onQueueCreated q dm r) ∧ view (onQueueCreated q dm r) = spec_event (view r) (ECreated q dm).
Proof.
  intros Hr. unfold onQueueCreated. cbn [spec_event].
  assert (view r !! q_String q = None ↔ targets r !! q_String q = None) as Hn.
  { unfold view. by rewrite lookup_fmap, fmap_None. }
  case_decide as HA; case_decide as HB; [|naive_solver|naive_solver|done]. set (r' := set_target _ _ _).
  assert (∀ key' s2, key' ≠ q_String q → targets r !! key' = Some s2 → sl_cap s2 ≠ 0%nat →
    arrays r' !! sl_array s2 = arrays r !! sl_array s2 ∧
    (sl_cap nil_slice ≠ 0%nat → sl_array nil_slice ≠ sl_array s2)) as Hother by done.
  split; [by apply (update_separated r r' (q_String q) nil_slice); [..|apply nil_slice_ok]|].
  by rewrite (update_view r r' (q_String q) nil_slice).
Qed.

Lemma onQueueDeleted_spec q r :
  separated r →
  separated (onQueueDeleted q r) ∧ view (onQueueDeleted q r) = delete (q_String q) (view r).
Proof.
  intros [H1 H2]. split; [split|].
  - intros key sl. cbn. intros [_ Hk]%lookup_delete_Some. by apply (H1 key).
  - intros k1 k2 s1 s2 Hne. cbn. intros [_ Hk1]%lookup_delete_Some [_ Hk2]%lookup_delete_Some.
    by apply (H2 k1 k2).
  - unfold view. cbn. by rewrite fmap_delete.
Qed.

Lemma on_event_spec newcap r e :
  (∀ n, (n < newcap n)%nat) → separated r →
  separated (on_event newcap r e) ∧ view (on_event newcap r e) = spec_event (view r) e.
Proof.
  intros Hg Hr. destruct e as [q dm|q|q g|q g]; cbn [on_event spec_event].
  - by apply onQueueCreated_spec.
  - by apply onQueueDeleted_spec.
  - by apply Add_spec.
  - by apply Remove_spec.
Qed.

Lemma events_spec newcap evs : (∀ n, (n < newcap n)%nat) → ∀ r,
  separated r →
  separated (foldl (on_event newcap) r evs) ∧
  view (foldl (on_event newcap) r evs) = foldl spec_event (view r) evs.
Proof.
  intros Hg. induction evs as [|e evs IH]; intros r Hr; [done|]. cbn [foldl].
  destruct (on_event_spec newcap r e Hg Hr) as [H1 H2]. rewrite <-H2. by apply IH.
Qed.

(** *** What is loaded *)

(** The groups a queue's entry gets from the keyspace. *)
Definition loaded_groups (s : store) (q : QParams) : option (list string) :=
  dm ← hsh s (Properties (queue_keys_of q)) !! "3";
  if decide ((ParseInt dm).1 = DeliveryPubSub)
  then Some (elements (sts s (ConsumerGroups (queue_keys_of q)))) else None.

Lemma load_queue_spec s r q :
  wt s → queue_ok q → separated r →
  separated (load_queue s r (encode_queue q)) ∧
  view (load_queue s r (encode_queue q)) =
    match loaded_groups s q with Some l => <[q_String q := l]> (view r) | None => view r end.
Proof.
  intros Hw (Hq & H1 & H2) Hr. unfold load_queue, loaded_groups. rewrite decode_encode_queue by done.
  rewrite hgetall_run by wt_view. destruct (hsh s _ !! "3") as [dm|]; [|done]. cbn [mbind option_bind].
  destruct (decide ((ParseInt dm).1 = DeliveryPubSub)) as [E|E].
  2: { by rewrite decide_True. }
  rewrite decide_False by (by intros ?).
  change (ConsumerGroups (queue_keys_of q)) with (render_key (KConsumerGroups (queue_keys_of q))).
  rewrite members_run by (done || wf_parts).
  apply (alloc_update r _ _ (length (elements (sts s (render_key (KConsumerGroups (queue_keys_of q))))))); done.
Qed.

Definition spec_load (s : store) (qs : list QParams) (m : gmap string (list string))
    : gmap string (list string) :=
  foldl (λ m q, match loaded_groups s q with Some l => <[q_String q := l]> m | None => m end) m qs.

Lemma load_queues_spec s ms : wt s → Forall (λ m, ∃ q, queue_ok q ∧ m = encode_queue q) ms → ∀ r,
  separated r →
  separated (foldl (load_queue s) r ms) ∧
  view (foldl (load_queue s) r ms) = spec_load s (DecodeParamsSlice ms) (view r).
Proof.
  intros Hw Hms. induction Hms as [|m ms (q & Hq & ->) Hms IH]; intros r Hr; [done|].
  destruct (load_queue_spec s r q Hw Hq Hr) as [H1 H2]. pose proof Hq as (_ & H3 & H4).
  cbn [foldl DecodeParamsSlice omap list_omap]. rewrite decode_encode_queue by done.
  unfold spec_load. cbn [foldl]. rewrite <-H2. by apply IH.
Qed.

Definition all_NoDup (m : gmap string (list string)) : Prop := map_Forall (λ _, NoDup (A:=string)) m.

Lemma all_NoDup_insert key l m : NoDup l → all_NoDup m → all_NoDup (<[key := l]> m).
Proof. intros Hl Hm. by apply map_Forall_insert_2. Qed.

Lemma all_NoDup_lookup key m : all_NoDup m → NoDup (default [] (m !! key)).
Proof. intros Hm. destruct (m !! key) eqn:E; cbn; [by apply (Hm key)|constructor]. Qed.

Lemma spec_event_NoDup m e : all_NoDup m → all_NoDup (spec_event m e).
Proof.
  intros Hm. destruct e as [q dm|q|q g|q g]; cbn [spec_event].
  - case_decide; [|done]. apply all_NoDup_insert; [constructor|done].
  - by apply map_Forall_delete.
  - unfold spec_add. case_decide as Hg; [done|]. apply all_NoDup_insert; [|done].
    apply NoDup_app. split_and!; [by apply all_NoDup_lookup|set_solver|apply NoDup_singleton].
  - unfold spec_remove. case_decide; [|done]. apply all_NoDup_insert; [|done].
    by apply NoDup_remove_first, all_NoDup_lookup.
Qed.

Lemma spec_load_NoDup s qs : ∀ m, all_NoDup m → all_NoDup (spec_load s qs m).
Proof.
  induction qs as [|q qs IH]; intros m Hm; [done|]. unfold spec_load. cbn [foldl]. apply IH.
  unfold loaded_groups. destruct (_ !! "3") as [dm|]; [|done]. cbn [mbind option_bind].
  case_decide; [|done]. apply all_NoDup_insert; [apply NoDup_elements|done].
Qed.

Lemma load_spec s r :
  wt s → (∀ m, m ∈ sts s AllQueues → ∃ q, queue_ok q ∧ m = encode_queue q) →
  LoadResolver s NewPubSubTargetResolver = inr r →
  separated r ∧ view r = spec_load s (DecodeParamsSlice (elements (sts s AllQueues))) ∅.
Proof.
  intros Hw Hm. unfold LoadResolver. change AllQueues with (render_key KAllQueues).
  rewrite members_run by (done || wf_parts). intros [= <-].
  destruct (load_queues_spec s (elements (sts s AllQueues)) Hw) with (r := NewPubSubTargetResolver) as [H1 H2].
  - apply Forall_forall. intros m Hin%elem_of_elements. by apply Hm.
  - by split.
  - split; [destruct H1; by split|]. etrans; [|exact H2]. done.
Qed.

(** ** Producing, as a plan of (queue, group) pairs *)

(** The groups a queue's message goes to: "" where the queue has none. *)
Definition groups_of (m : gmap string (list string)) (q : QParams) : list string :=
  match default [] (m !! q_String q) with [] => [""] | l => l end.
Definition plan (m : gmap string (list string)) (qs : list QParams) : list (QParams * string) :=
  qs ≫= λ q, (λ g, (q, g)) <$> groups_of m q.

Section plan.
Context (gv : string → bool) (gn : string → Z → option Z) (ticks : nat → tick).

(** One dispatch after the other, up to the first that fails. *)
Fixpoint run_plan (m : ProducibleMessage) (p : list (QParams * string)) (c : nat) (w : world)
    : (produce_error + list string) * nat * world :=
  match p with
  | [] => (inr [], c, w)
  | (q, g) :: p =>
      match send gv gn m q g (ticks c) (t_other (ticks c) w) with
      | (inl e, w) => (inl e, S c, w)
      | (inr id, w) =>
          let '(r, c, w) := run_plan m p (S c) w in
          (match r with inl e => inl e | inr ids => inr (id :: ids) end, c, w)
      end
  end.

Lemma run_plan_app m p1 : ∀ p2 c w,
  run_plan m (p1 ++ p2) c w =
  match run_plan m p1 c w with
  | (inl e, c, w) => (inl e, c, w)
  | (inr ids, c, w) =>
      let '(r, c, w) := run_plan m p2 c w in
      (match r with inl e => inl e | inr ids' => inr (ids ++ ids') end, c, w)
  end.
Proof.
  induction p1 as [|[q g] p1 IH]; intros p2 c w; cbn [app run_plan].
  - by destruct (run_plan m p2 c w) as [[[e|ids] c'] w'].
  - destruct (send _ _ _ _ _ _ _) as [[e|id] w1]; [done|]. rewrite IH.
    destruct (run_plan m p1 (S c) w1) as [[[e|ids] c2] w2]; [done|].
    by destruct (run_plan m p2 c2 w2) as [[[e|ids'] c3] w3].
Qed.

(** Nobody changes the resolver meanwhile. *)
Context (Hkeep : ∀ c w, w_resolver (t_other (ticks c) w) = w_resolver w).
Context (Hlook : ∀ c w, t_lookup (ticks c) w = w).

Lemma send_resolver m q g t w : w_resolver (send gv gn m q g t w).2 = w_resolver w.
Proof. unfold send. by destruct (dispatch _ _ _ _ _ _ _ _) as [[r b] s]. Qed.

Lemma run_plan_resolver m p : ∀ c w, w_resolver (run_plan m p c w).2 = w_resolver w.
Proof using Hkeep.
  induction p as [|[q g] p IH]; intros c w; [done|]. cbn [run_plan].
  pose proof (send_resolver m q g (ticks c) (t_other (ticks c) w)) as Hs. rewrite Hkeep in Hs.
  destruct (send _ _ _ _ _ _ _) as [[e|id] w1]; cbn [snd] in *; [done|].
  specialize (IH (S c) w1). destruct (run_plan m p (S c) w1) as [[r c2] w2]. cbn in *. congruence.
Qed.

Lemma to_groups_plan m q sl r : slice_ok r sl → ∀ todo i c w,
  w_resolver w = r → (i + todo = sl_len sl)%nat →
  to_groups gv gn ticks m q sl i todo c w = run_plan m ((λ g, (q, g)) <$> drop i (elems r sl)) c w.
Proof using Hkeep.
  intros Hok todo. induction todo as [|todo IH]; intros i c w Hw Hi; cbn [to_groups].
  - rewrite drop_ge; [done|]. rewrite elems_length by done. lia.
  - assert (∃ g, elems r sl !! i = Some g) as [g Hg].
    { apply lookup_lt_is_Some. rewrite elems_length by done. lia. }
    rewrite (drop_S _ g) by done. rewrite fmap_cons. cbn [run_plan].
    rewrite Hkeep, Hw. assert (nth i (array_of r sl) "" = g) as ->.
    { apply nth_lookup_Some. unfold elems in Hg. by apply lookup_take_Some in Hg as [? _]. }
    pose proof (send_resolver m q g (ticks c) (t_other (ticks c) w)) as Hs. rewrite Hkeep, Hw in Hs.
    destruct (send _ _ _ _ _ _ _) as [[e|id] w1]; [done|]. by rewrite (IH (S i) (S c) w1) by (done || lia).
Qed.

Lemma produceToQueue_plan m q resolver c w :
  separated (w_resolver w) →
  produceToQueue gv gn ticks m q resolver c w =
  run_plan m ((λ g, (q, g)) <$> groups_of (if resolver then view (w_resolver w) else ∅) q) c w.
Proof using Hkeep Hlook.
  intros Hr. unfold produceToQueue, groups_of. rewrite Hlook.
  assert (default [] ((if resolver then view (w_resolver w) else ∅) !! q_String q) =
    elems (w_resolver w) (if resolver then Resolve q (w_resolver w) else nil_slice)) as ->.
  { destruct resolver; [apply view_lookup|by rewrite lookup_empty]. }
  set (sl := if resolver then _ else _).
  assert (slice_ok (w_resolver w) sl) as Hok.
  { destruct resolver; [by apply target_ok|apply nil_slice_ok]. }
  pose proof (elems_length _ _ Hok) as Hlen. case_decide as Hl.
  - rewrite (to_groups_plan m q sl (w_resolver w)) by (done || lia). rewrite drop_0.
    destruct (elems _ sl); [cbn in Hlen; lia|done].
  - destruct (elems _ sl); [|cbn in Hlen; lia]. cbn [fmap list_fmap run_plan].
    by destruct (send _ _ _ _ _ _ _) as [[e|id] w1].
Qed.

Lemma to_queues_plan m resolver qs : ∀ c w,
  separated (w_resolver w) →
  to_queues gv gn ticks m qs resolver c w =
  run_plan m (plan (if resolver then view (w_resolver w) else ∅) qs) c w.
Proof using Hkeep Hlook.
  induction qs as [|q qs IH]; intros c w Hr; [done|]. cbn [to_queues plan].
  unfold plan. rewrite bind_cons, run_plan_app, produceToQueue_plan by done.
  set (p := _ <$> groups_of _ _). pose proof (run_plan_resolver m p c w) as Hw.
  destruct (run_plan m p c w) as [[[e|ids] c1] w1]; [done|]. cbn in Hw.
  rewrite IH by (by rewrite Hw). rewrite Hw. done.
Qed.
End plan.

(** *** What a run returns *)

Lemma publish_result_id id reply id' : publish_result id reply = inr id' → id' = id.
Proof. unfold publish_result. repeat case_decide; by intros [=]. Qed.

Lemma NextScheduledTimestamp_id gv gn now now' e :
  ID (NextScheduledTimestamp gv gn now now' e).2 = ID e.
Proof. unfold NextScheduledTimestamp. cbv zeta. by repeat (case_match || case_decide). Qed.

Lemma dispatch_prepare_id gv gn now now' now'' e q :
  ID (dispatch_prepare gv gn now now' now'' e q).2 = ID e.
Proof.
  unfold dispatch_prepare.
  pose proof (NextScheduledTimestamp_id gv gn now now' (SetDestinationQueue (Some q) e)) as H.
  destruct (NextScheduledTimestamp _ _ _ _ _) as [next e1]. cbn [snd] in H.
  transitivity (ID e1); [by case_decide|exact H].
Qed.

Lemma send_id gv gn m q g t w id w' : send gv gn m q g t w = (inr id, w') → id = t_uuid t.
Proof.
  unfold send, dispatch. set (e := SetConsumerGroupID g _).
  pose proof (dispatch_prepare_id gv gn (t_now t) (t_now' t) (t_now'' t) e q) as Hid.
  destruct (dispatch_prepare _ _ _ _ _ e q) as [b e1]. cbn in Hid.
  destruct (publish_message _ _ _) as [[reply|err] s]; [|done].
  destruct (publish_result (ID e1) reply) eqn:E; [done|]. intros [= <- _].
  apply publish_result_id in E as ->. rewrite Hid. unfold e, ID, NewEnvelope. cbn. by destruct (m_scheduledDelay m).
Qed.

(** The world after the dispatches of a plan, one after the other. *)
Definition dispatched gv gn (ticks : nat → tick) (m : ProducibleMessage) (p : list (QParams * string)) (c : nat) (w : world) : world :=
  foldl (λ w '(i, (q, g)), (send gv gn m q g (ticks i) (t_other (ticks i) w)).2) w (zip (seq c (length p)) p).

(** The [i]-th dispatch of a plan, in the world the ones before it leave. *)
Definition nth_dispatch gv gn (ticks : nat → tick) (m : ProducibleMessage) (p : list (QParams * string)) (c : nat) (w : world)
    (i : nat) (q : QParams) (g : string) : produce_error + string :=
  (send gv gn m q g (ticks (c + i)%nat) (t_other (ticks (c + i)%nat) (dispatched gv gn ticks m (take i p) c w))).1.

Lemma run_plan_outcome gv gn ticks m p : ∀ c w r c' w',
  run_plan gv gn ticks m p c w = (r, c', w') →
  match r with
  | inr ids => ids = (λ i, t_uuid (ticks i)) <$> seq c (length p) ∧ w' = dispatched gv gn ticks m p c w ∧
      ∀ i q g, p !! i = Some (q, g) → nth_dispatch gv gn ticks m p c w i q g = inr (t_uuid (ticks (c + i)%nat))
  | inl e => ∃ i q g, p !! i = Some (q, g) ∧ nth_dispatch gv gn ticks m p c w i q g = inl e ∧
      w' = dispatched gv gn ticks m (take (S i) p) c w ∧
      ∀ j q g, (j < i)%nat → p !! j = Some (q, g) →
        nth_dispatch gv gn ticks m p c w j q g = inr (t_uuid (ticks (c + j)%nat))
  end.
Proof.
  induction p as [|[q g] p IH]; intros c w r c' w' H; cbn [run_plan] in H.
  { by injection H as <- <- <-. }
  destruct (send gv gn m q g (ticks c) (t_other (ticks c) w)) as [[e|id] w1] eqn:Es.
  { injection H as <- <- <-. exists 0%nat, q, g. split; [done|].
    unfold nth_dispatch, dispatched. cbn. rewrite Nat.add_0_r, Es. split_and!; [done..|]. intros j; lia. }
  destruct (run_plan gv gn ticks m p (S c) w1) as [[r1 c1] w2] eqn:Er. injection H as <- <- <-.
  assert (id = t_uuid (ticks c)) as -> by by eapply send_id.
  assert (∀ p', dispatched gv gn ticks m ((q, g) :: p') c w = dispatched gv gn ticks m p' (S c) w1) as Hd.
  { intros p'. unfold dispatched. cbn. by rewrite Es. }
  assert (nth_dispatch gv gn ticks m ((q, g) :: p) c w 0 q g = inr (t_uuid (ticks c))) as H0.
  { unfold nth_dispatch, dispatched. cbn. by rewrite Nat.add_0_r, Es. }
  assert (∀ i q' g', nth_dispatch gv gn ticks m ((q, g) :: p) c w (S i) q' g' = nth_dispatch gv gn ticks m p (S c) w1 i q' g') as HS.
  { intros i q' g'. unfold nth_dispatch. cbn [take]. rewrite Hd, Nat.add_succ_r, Nat.add_succ_l. done. }
  apply IH in Er. destruct r1 as [e|ids].
  - destruct Er as (i & q' & g' & Hp & He & Hw & Hlt). exists (S i), q', g'. split; [done|].
    rewrite HS. split; [done|]. split; [by cbn [take]; rewrite Hd|]. intros [|j] q2 g2 Hj Hj2.
    + injection Hj2 as <- <-. by rewrite Nat.add_0_r.
    + rewrite HS, Nat.add_succ_r. apply Hlt; [lia|done].
  - destruct Er as (-> & -> & Hall). split; [done|]. split; [by rewrite Hd|]. intros [|j] q2 g2 Hj.
    + injection Hj as <- <-. by rewrite Nat.add_0_r.
    + rewrite HS, Nat.add_succ_r. by apply Hall.
Qed.

(** ** Properties *)

(** The queues a message with this routing key is meant for. *)
Definition routed (s : store) (x : EParams) (rk : string) (q : QParams) : Prop :=
  queue_ok q ∧
  ((e_typ x = TypeDirect ∧ encode_queue q ∈ bound s LDirect (exchange_keys_of x) rk) ∨
   (e_typ x = TypeTopic ∧ ∃ p, no_colon p = true ∧ topic_match (Split rk) (Split p) ∧
      encode_queue q ∈ bound s LTopic (exchange_keys_of x) p) ∨
   (e_typ x = TypeFanout ∧ encode_queue q ∈ fanned s (exchange_keys_of x))).

Lemma match_route s x rk :
  indexed s → exchange_ok x → ValidateType x s = None → no_colon rk = true →
  (e_typ x = TypeFanout ∨ rk ≠ "" ∧ ∃ k, e_typ x = kind_type k) →
  ∃ qs, matchExchangeQueues x rk s = inr qs ∧ NoDup qs ∧ ∀ q, q ∈ qs ↔ routed s x rk q.
Proof.
  intros HI HX Hv Hrk Hty. unfold matchExchangeQueues, routed.
  destruct Hty as [Hty|[Hne [[] Hty]]]; cbn [kind_type] in Hty; rewrite Hty.
  - destruct (fanout_route s x HI HX Hv) as (qs & -> & Hnd & Hq). exists qs. split; [done|]. split; [done|].
    intros q. rewrite Hq. naive_solver.
  - destruct (direct_route s x HI HX Hv rk Hrk) as (qs & -> & Hnd & Hq). rewrite !(decide_False (P := rk = "")) by done.
    exists qs. split; [done|]. split; [done|]. intros q. rewrite Hq. naive_solver.
  - destruct (topic_route s x HI HX Hv rk) as (qs & -> & Hnd & Hq). rewrite !(decide_False (P := rk = "")) by done.
    exists qs. split; [done|]. split; [done|]. intros q. rewrite Hq. naive_solver.
Qed.

(** C31: routing is exact: in every keyspace reached by concurrent transactions on
    bindings, matching an exchange of the right type with a routing key
    succeeds and returns, each once, exactly the queues bound under that key
    (direct), under a pattern the key matches (topic), or at all (fanout). *)
Theorem exchange_routing_exact hs s x rk :
  history hs → s ∈ hs → exchange_ok x → ValidateType x s = None → no_colon rk = true →
  (e_typ x = TypeFanout ∨ rk ≠ "" ∧ ∃ k, e_typ x = kind_type k) →
  ∃ qs, matchExchangeQueues x rk s = inr qs ∧ NoDup qs ∧ ∀ q, q ∈ qs ↔ routed s x rk q.
Proof.
  intros Hh Hs. apply history_indexed in Hh. rewrite Forall_forall in Hh. apply match_route. by apply Hh.
Qed.

Lemma exchange_routing_exact_witness :
  ∃ qs, matchExchangeQueues shop "a" bound_once = inr qs ∧ NoDup qs ∧
        ∀ q, q ∈ qs ↔ routed bound_once shop "a" q.
Proof.
  apply (exchange_routing_exact _ bound_once shop "a" bound_once_history).
  - apply list_elem_of_here.
  - apply sample_ok.
  - vm_compute. reflexivity.
  - reflexivity.
  - right. split; [discriminate|]. exists LDirect. reflexivity.
Defined.

(** C32: producing to an exchange is one dispatch per matched queue and consumer
    group of it (one without a group where the queue has none), in order, up to
    the first that fails.  On success every dispatch of the plan succeeded, the
    identifiers returned are those of the dispatches, and the world is the one
    they leave, with what others did before each, and nothing more.  On an error
    the dispatches before the failing one have been carried out, it is the last
    thing that happened, and no identifier is returned.  The consumer groups are
    those of the resolver, which nobody may change meanwhile: a group removed
    during the loop shifts the array under it ([group_removed_while_producing]). *)
Theorem produce_exchange_plan gv gn ticks resolver m x c w qs :
  (∀ c w, w_resolver (t_other (ticks c) w) = w_resolver w) →
  (∀ c w, t_lookup (ticks c) w = w) →
  separated (w_resolver w) → m_queue m = None → m_exchange m = Some x →
  matchExchangeQueues x (m_exchangeRoutingKey m) (w_store w) = inr qs → qs ≠ [] →
  let p := plan (if resolver : bool then view (w_resolver w) else ∅) qs in
  let '(r, c', w') := Produce gv gn ticks true resolver m c w in
  match r with
  | inr ids => ids = (λ i, t_uuid (ticks i)) <$> seq c (length p) ∧ w' = dispatched gv gn ticks m p c w ∧
      ∀ i q g, p !! i = Some (q, g) → nth_dispatch gv gn ticks m p c w i q g = inr (t_uuid (ticks (c + i)%nat))
  | inl e => ∃ i q g, p !! i = Some (q, g) ∧ nth_dispatch gv gn ticks m p c w i q g = inl e ∧
      w' = dispatched gv gn ticks m (take (S i) p) c w ∧
      ∀ j q g, (j < i)%nat → p !! j = Some (q, g) →
        nth_dispatch gv gn ticks m p c w j q g = inr (t_uuid (ticks (c + j)%nat))
  end.
Proof.
  intros Hkeep Hlook Hr Hmq Hmx Hqs Hne p. unfold Produce, produceToExchange. cbn [negb].
  rewrite Hmq, Hmx, Hqs. assert (∀ A (a b : A), match qs with [] => a | _ => b end = b) as -> by by destruct qs.
  rewrite to_queues_plan by done. fold p.
  destruct (run_plan gv gn ticks m p c w) as [[r c'] w'] eqn:E. by apply run_plan_outcome in E.
Qed.

(** [orders] with two groups, bound to the exchange. *)
Definition double (n : nat) : nat := (2 * n + 1)%nat.
Definition group_events (gs : list string) : Resolver :=
  foldl (on_event double) NewPubSubTargetResolver (EGroupCreated orders <$> gs).
Definition grouped_store (gs : list string) (s : store) : store :=
  put_set (ConsumerGroups (queue_keys_of orders)) (list_to_set gs) s.
Definition quiet_tick (uuid : string) (other : world → world) : tick :=
  {| t_uuid := uuid; t_now := 5000000; t_now' := 5000000; t_now'' := 5000000;
     t_lookup := λ w, w; t_other := other |}.
Definition shop_message : ProducibleMessage :=
  SetExchangeRoutingKey "a" (SetDirectExchange (Some shop) (New DefaultConsumeOptions 5000000)).

Lemma new_separated : separated NewPubSubTargetResolver.
Proof. by split. Qed.
Lemma group_events_separated gs : separated (group_events gs).
Proof. apply events_spec; [intros n; unfold double; lia|apply new_separated]. Qed.

Lemma produce_exchange_plan_witness :
  let w := World (grouped_store ["g1"; "g2"] bound_once) (group_events ["g1"; "g2"]) in
  let r := Produce (λ _, true) (λ _ _, None) (λ i, quiet_tick (itoa (Z.of_nat i)) id) true true shop_message 0 w in
  r.1.1 = inr ((λ i, t_uuid (quiet_tick (itoa (Z.of_nat i)) id)) <$> seq 0 2).
Proof.
  intros w r.
  pose proof (produce_exchange_plan (λ _, true) (λ _ _, None) (λ i, quiet_tick (itoa (Z.of_nat i)) id) true
    shop_message shop 0 w [orders] (λ _ _, eq_refl) (λ _ _, eq_refl)
    (group_events_separated ["g1"; "g2"]) eq_refl eq_refl) as H.
  assert (matchExchangeQueues shop (m_exchangeRoutingKey shop_message) (w_store w) = inr [orders]) as Hm.
  { vm_compute. reflexivity. }
  specialize (H Hm ltac:(discriminate)). cbv zeta in H. fold r in H.
  assert (∃ ids, r.1.1 = inr ids) as [ids Hids].
  { eexists. vm_compute. reflexivity. }
  destruct r as [[r' c'] w']. cbn in Hids |- *. rewrite Hids in H |- *. f_equal. exact (proj1 H).
Defined.

(** C33: the resolver keeps, for each queue it knows, the consumer groups of the
    keyspace it was loaded from, as changed by the events since: creating a
    group adds it once, deleting removes it, and no event for one queue touches
    the groups of another, although the lists live in arrays that are appended
    to and shifted in place.  No group is listed twice. *)
Theorem resolver_refines newcap s r evs :
  (∀ n, (n < newcap n)%nat) → wt s →
  (∀ m, m ∈ sts s AllQueues → ∃ q, queue_ok q ∧ m = encode_queue q) →
  LoadResolver s NewPubSubTargetResolver = inr r →
  let r' := foldl (on_event newcap) r evs in
  view r' = foldl spec_event (spec_load s (DecodeParamsSlice (elements (sts s AllQueues))) ∅) evs ∧
  all_NoDup (view r').
Proof.
  intros Hg Hw Hm Hl r'. destruct (load_spec s r Hw Hm Hl) as [Hr Hv].
  destruct (events_spec newcap evs Hg r Hr) as [_ He]. unfold r'. rewrite He, Hv. split; [done|].
  assert (∀ evs m, all_NoDup m → all_NoDup (foldl spec_event m evs)) as Hfold.
  { induction evs0 as [|e evs0 IH]; intros m Hnd; [done|]. apply IH. by apply spec_event_NoDup. }
  apply Hfold, spec_load_NoDup, map_Forall_empty.
Qed.

(** A Pub/Sub queue with the group g1. *)
Definition pubsub_store : store :=
  put_set AllQueues {[encode_queue orders]}
    (grouped_store ["g1"]
      (put_hash (Properties (queue_keys_of orders)) {["3" := itoa DeliveryPubSub]} empty_store)).

Lemma pubsub_store_wt : wt pubsub_store.
Proof.
  apply (wt_upd_set _ KAllQueues); [|apply (bool_decide_unpack _); vm_compute; exact I|done].
  apply (wt_upd_set _ (KConsumerGroups (queue_keys_of orders)));
    [|apply (bool_decide_unpack _); vm_compute; exact I|done].
  apply (wt_upd_hash _ (KProperties (queue_keys_of orders)));
    [apply wt_empty|apply (bool_decide_unpack _); vm_compute; exact I|done].
Qed.

Lemma resolver_refines_witness :
  ∃ r, LoadResolver pubsub_store NewPubSubTargetResolver = inr r ∧
    let r' := foldl (on_event double) r [EGroupCreated orders "g2"; EGroupDeleted orders "g1"] in
    view r' = {["orders@ns1" := ["g2"]]} ∧ all_NoDup (view r').
Proof.
  eexists. split; [vm_compute; reflexivity|]. set (r := Build_Resolver _ _ _).
  destruct (resolver_refines double pubsub_store r
    [EGroupCreated orders "g2"; EGroupDeleted orders "g1"]) as [H1 H2].
  - intros n. unfold double. lia.
  - apply pubsub_store_wt.
  - intros m Hm. exists orders. split; [apply sample_ok|].
    assert (sts pubsub_store AllQueues = {[encode_queue orders]}) as E by apply sts_upd.
    rewrite E in Hm. by apply elem_of_singleton in Hm.
  - vm_compute. reflexivity.
  - split; [|exact H2]. etrans; [exact H1|]. vm_compute. reflexivity.
Defined.

(** A producer that is sending to the groups of a queue reads the array the
    resolver changes.  While a message goes to the groups g1, g2 and g3, g1 is
    deleted after its turn: the message is not sent to g2, and twice to g3. *)
Theorem group_removed_while_producing :
  let s := grouped_store ["g1"; "g2"; "g3"] bound_once in
  let drop_g1 w := World (cmd_srem (ConsumerGroups (queue_keys_of orders)) "g1" (w_store w)).2
                         (onConsumerGroupDeleted orders "g1" (w_resolver w)) in
  let ticks i := quiet_tick (itoa (Z.of_nat i)) (if decide (i = 1%nat) then drop_g1 else id) in
  let r := Produce (λ _, true) (λ _ _, None) ticks true true shop_message 0
             (World s (group_events ["g1"; "g2"; "g3"])) in
  r.1.1 = inr ["0"; "1"; "2"] ∧
  lst (w_store r.2) (PendingWithGroup (queue_keys_of orders) "g1") = ["0"] ∧
  lst (w_store r.2) (PendingWithGroup (queue_keys_of orders) "g2") = [] ∧
  lst (w_store r.2) (PendingWithGroup (queue_keys_of orders) "g3") = ["2"; "1"].
Proof.
  cbv zeta. split; [vm_compute; reflexivity|]. apply (bool_decide_unpack _). vm_compute. exact I.
Qed.
