(* ===== verification/Admin.v ===== *)
(** * Administration of queues

    Creating, reading and deleting queues (internal/queue/store.go, codec.go,
    validate.go, lookup.go with create-queue.lua and delete-queue.lua), consumer
    groups (consumer_group.go, delete-consumer-group.lua), rate limits
    (internal/ratelimit, set-queue-rate-limit.lua, clear-queue-rate-limit.lua)
    and the registration of consumers (internal/consumer/subscribe.go,
    subscribe-consumer.lua, unsubscribe-consumer.lua). *)

From S2P Require Import Prelude Keys Redis RedisFacts Types Keyspace Topic Json Message MessageCodec.
From S2P Require Import Publish Consume Manage QueueState Exchange Bindings Routing.
#[local] Open Scope Z_scope.

(** ** Commands used here only *)

(** [MGET]: a missing key, or one of another type, reads as nil. *)
Definition cmd_mget (ks : list string) : M (list (option string)) := λ s,
  (Ret ((λ k, match db s !! k with Some (VStr v) => Some v | _ => None end) <$> ks), s).
(** [SADD] with its reply: 1 when the member is new. *)
Definition cmd_saddn (k v : string) : M Z :=
  with_view as_set k (λ x, _ ← modify (put_set k ({[v]} ∪ x)); mret (if decide (v ∈ x) then 0 else 1)).

Inductive queue_error :=
| QNameRequired | QNotFound | QAlreadyExists | QLocked | QNotOperational | QHasProcessing | QHasPending
| QRateLimitExceeded | QDeliveryModelMismatch | QNotEmpty | QHasActiveConsumers | QHasBoundExchanges
| QConsumerSetMismatch | QGroupsNotSupported | QGroupNotEmpty | QGroupHasConsumers | QInvalidGroup
| QNotActive | QProcessingNotEmpty | QUnexpectedReply (reply : string) | QRedis (e : rerr).

#[global] Instance queue_error_eq_dec : EqDecision queue_error.
Proof. solve_decision. Defined.

(** Runs a script and interprets its reply. *)
Definition eval {A} (script : M string) (interpret : string → queue_error + A) (s : store)
    : (queue_error + A) * store :=
  match script s with
  | (Err e, s') => (inl (QRedis e), s')
  | (Ret reply, s') => (interpret reply, s')
  end.

(** ** Rate limits (pkg/queue/ratelimit.go, internal/ratelimit/helpers.go) *)

Definition rl_MarshalJSON (p : RateLimitParams) : json :=
  JObj [("limit", JNum (rl_limit p)); ("interval", JNum (Milliseconds (rl_interval p)))].
Definition rl_UnmarshalJSON (j : json) : option RateLimitParams :=
  match j with
  | JObj l =>
      limit ← get_or 0 as_int "limit" l;
      interval ← get_or 0 as_int "interval" l;
      let p := {| rl_limit := limit; rl_interval := DurationOfMs interval |} in
      if rl_Validate p then Some p else None
  | _ => None
  end.

Definition MarshalRateLimitParams (rl : option RateLimitParams) : string :=
  match rl with None => "" | Some p => print (rl_MarshalJSON p) end.
(** [None] is an error, [Some None] no rate limit. *)
Definition UnmarshalRateLimitParams (data : string) : option (option RateLimitParams) :=
  if decide (data = "") then Some None
  else
    match parse_json data ≫= rl_UnmarshalJSON with
    | Some p => if rl_Validate p then Some (Some p) else None
    | None => None
    end.

(** ** Creating a queue *)

(** core/create-queue.lua *)
Definition create_queue (keys args : list string) : M string :=
  let keyNamespaces := arg keys 1 in
  let keyNsQueues := arg keys 2 in
  let keyQueues := arg keys 3 in
  let keyQueueProperties := arg keys 4 in
  let keyQueueStateHistory := arg keys 5 in
  let namespace := arg args 1 in
  let queue := arg args 2 in
  let maxQueueStateHistorySize := (ParseInt (arg args 19)).1 in
  member ← cmd_sismember keyQueues queue;
  if (member : bool) then mret "QUEUE_EXISTS"
  else
    _ ← cmd_sadd keyQueues queue;
    _ ← cmd_sadd keyNsQueues queue;
    _ ← cmd_sadd keyNamespaces namespace;
    _ ← cmd_hset keyQueueProperties
          [(arg args 3, arg args 4); (arg args 5, arg args 6); (arg args 7, arg args 8);
           (arg args 9, "0"); (arg args 10, "0"); (arg args 11, "0"); (arg args 12, "0");
           (arg args 13, "0"); (arg args 14, "0"); (arg args 15, "0"); (arg args 16, "0");
           (arg args 17, arg args 18); (arg args 20, arg args 21); (arg args 22, "")];
    _ ← cmd_lpush keyQueueStateHistory (arg args 23);
    _ ← cmd_ltrim keyQueueStateHistory 0 (maxQueueStateHistorySize - 1);
    mret "OK".

Definition maxQueueStateHistorySize : Z := 100.

Definition initialTransition (now queueType deliveryModel : Z) : StateTransition :=
  {| From := None; To := StateActive; Reason := ReasonSystemInit; Timestamp := UnixMilli now;
     Description := ""; LockID := None; Owner := None;
     Metadata := [("deliveryModel", JNum deliveryModel); ("queueType", JNum queueType)] |}.

Definition create_keys (q : QParams) : list string :=
  [AllNamespaces; NamespaceQueues (q_ns q); AllQueues; Properties (queue_keys_of q);
   StateHistory (queue_keys_of q)].
Definition create_args (now : Z) (q : QParams) (queueType deliveryModel : Z)
    (rateLimit : option RateLimitParams) : list string :=
  [q_ns q; encode_queue q;
   qkey Q_Type; itoa queueType; qkey Q_DeliveryModel; itoa deliveryModel;
   qkey Q_RateLimit; MarshalRateLimitParams rateLimit;
   qkey Q_MessagesCount; qkey Q_AcknowledgedMessagesCount; qkey Q_DeadLetteredMessagesCount;
   qkey Q_PendingMessagesCount; qkey Q_ScheduledMessagesCount; qkey Q_ProcessingMessagesCount;
   qkey Q_DelayedMessagesCount; qkey Q_RequeuedMessagesCount;
   qkey Q_OperationalState; itoa StateActive; itoa maxQueueStateHistorySize;
   qkey Q_LastStateChangeAt; itoa (UnixMilli now); qkey Q_LockID;
   marshal_transition (initialTransition now queueType deliveryModel)].

Definition SaveWithRateLimit (now : Z) (q : QParams) (queueType deliveryModel : Z)
    (rateLimit : option RateLimitParams) : store → (queue_error + unit) * store :=
  eval (create_queue (create_keys q) (create_args now q queueType deliveryModel rateLimit))
    (λ reply, if decide (reply = "OK") then inr tt
              else if decide (reply = "QUEUE_EXISTS") then inl QAlreadyExists
              else inl (QUnexpectedReply reply)).
Definition SaveQueue (now : Z) (q : QParams) (queueType deliveryModel : Z)
    : store → (queue_error + unit) * store := SaveWithRateLimit now q queueType deliveryModel None.

(** ** Reading a queue *)

Record Props := {
  qp_Type : Z; qp_DeliveryModel : Z; qp_OperationalState : Z;
  qp_MessagesCount : Z; qp_ScheduledMessagesCount : Z; qp_PendingMessagesCount : Z;
  qp_ProcessingMessagesCount : Z; qp_AcknowledgedMessagesCount : Z;
  qp_DeadLetteredMessagesCount : Z; qp_DelayedMessagesCount : Z; qp_RequeuedMessagesCount : Z;
  qp_RateLimit : option RateLimitParams;
  qp_LastStateChangeAt : Z;
  qp_LockID : string
}.

(** Missing and malformed numbers read as the value [ParseInt] gives. *)
Definition parseInt64Field (h : gmap string string) (f : qfield) : Z :=
  match h !! qkey f with Some v => (ParseInt v).1 | None => 0 end.

Definition decode_rate_limit (h : gmap string string) : option RateLimitParams :=
  match h !! qkey Q_RateLimit with
  | None => None
  | Some v => if decide (v = "") then None else default None (UnmarshalRateLimitParams v)
  end.

Definition DecodeQueueProps (h : gmap string string) : Props := {|
  qp_Type := parseInt64Field h Q_Type;
  qp_DeliveryModel := parseInt64Field h Q_DeliveryModel;
  qp_OperationalState := parseInt64Field h Q_OperationalState;
  qp_MessagesCount := parseInt64Field h Q_MessagesCount;
  qp_ScheduledMessagesCount := parseInt64Field h Q_ScheduledMessagesCount;
  qp_PendingMessagesCount := parseInt64Field h Q_PendingMessagesCount;
  qp_ProcessingMessagesCount := parseInt64Field h Q_ProcessingMessagesCount;
  qp_AcknowledgedMessagesCount := parseInt64Field h Q_AcknowledgedMessagesCount;
  qp_DeadLetteredMessagesCount := parseInt64Field h Q_DeadLetteredMessagesCount;
  qp_DelayedMessagesCount := parseInt64Field h Q_DelayedMessagesCount;
  qp_RequeuedMessagesCount := parseInt64Field h Q_RequeuedMessagesCount;
  qp_RateLimit := decode_rate_limit h;
  qp_LastStateChangeAt := parseInt64Field h Q_LastStateChangeAt;
  qp_LockID := default "" (h !! qkey Q_LockID)
|}.

(** [inl None]: the hash is empty. *)
Definition LoadQueue (q : QParams) (s : store) : option rerr + Props :=
  match cmd_hgetall (Properties (queue_keys_of q)) s with
  | (Err e, _) => inl (Some e)
  | (Ret h, _) => if decide (h = ∅) then inl None else inr (DecodeQueueProps h)
  end.
Definition QueueExists (q : QParams) (s : store) : bool :=
  bool_decide (is_Some (db s !! Properties (queue_keys_of q))).

(** *** Checks (internal/queue/validate.go) *)

(** The queue exists, and its properties pass the test. *)
Definition validate (test : Props → option queue_error) (q : QParams) (s : store) : option queue_error :=
  if negb (QueueExists q s) then Some QNotFound
  else match LoadQueue q s with
       | inl (Some e) => Some (QRedis e)
       | inl None => Some QNotFound
       | inr props => test props
       end.

Definition ValidatorExists (q : QParams) (s : store) : option queue_error :=
  if QueueExists q s then None else Some QNotFound.
Definition ValidatorIsOperational : QParams → store → option queue_error :=
  validate (λ p, if IsOperational (qp_OperationalState p) then None else Some QNotOperational).
Definition CanEnqueue : QParams → store → option queue_error :=
  validate (λ p,
    if negb (IsOperational (qp_OperationalState p)) then Some QNotOperational
    else match qp_RateLimit p with
         | Some rl => if decide (rl_limit rl ≤ qp_MessagesCount p) then Some QRateLimitExceeded else None
         | None => None
         end).
Definition CanDequeue : QParams → store → option queue_error :=
  validate (λ p, if decide (qp_OperationalState p = StateActive) then None else Some QNotOperational).
Definition CanBindToExchange : QParams → store → option queue_error := ValidatorExists.
Definition CanDelete : QParams → store → option queue_error :=
  validate (λ p, if decide (0 < qp_ProcessingMessagesCount p) then Some QHasProcessing
                 else if decide (0 < qp_PendingMessagesCount p) then Some QHasPending else None).
Definition CanPurge : QParams → store → option queue_error := ValidatorExists.
Definition DeliveryModelMatches (expected : Z) : QParams → store → option queue_error :=
  validate (λ p, if decide (qp_DeliveryModel p = expected) then None else Some QDeliveryModelMismatch).

(** *** Listing (internal/queue/lookup.go) *)

(** The first occurrence of each string, as the loops with a [seen] map keep. *)
Fixpoint uniq (seen : list string) (l : list string) : list string :=
  match l with
  | [] => []
  | x :: l => if decide (x ∈ seen) then uniq seen l else x :: uniq (x :: seen) l
  end.

Definition list_queues (key : string) (s : store) : exchange_error + list QParams :=
  match members key s with inl e => inl e | inr l => inr (omap decode_queue l) end.
Definition AllQueuesList : store → exchange_error + list QParams := list_queues AllQueues.
Definition QueuesByNamespace (ns : string) : store → exchange_error + list QParams :=
  list_queues (NamespaceQueues ns).
Definition NamespacesList : store → exchange_error + list string := members AllNamespaces.
Definition QueuesByExchange (namespace exchangeName : string) (exchangeType : Z) (s : store)
    : exchange_error + list QParams :=
  let exKey := {| ExNamespace := namespace; ExName := exchangeName |} in
  let all key of_label :=
    match members key s with
    | inl e => inl e
    | inr labels => match collect (λ l, members (of_label l) s) labels with
                    | inl e => inl e
                    | inr r => inr (mjoin r.*2)
                    end
    end in
  let allMembers :=
    if decide (exchangeType = TypeDirect) then all (RoutingKeys exKey) (RoutingKeyQueues exKey)
    else if decide (exchangeType = TypeTopic) then all (BindingPatterns exKey) (PatternQueues exKey)
    else if decide (exchangeType = TypeFanout) then members (FanoutQueues exKey) s
    else inr [] in
  match allMembers with
  | inl e => inl e
  | inr l => inr (omap decode_queue (uniq [] l))
  end.

(** ** Deleting a queue *)

(** core/delete-queue.lua: [KEYS[6]] onwards are heartbeats and then further
    keys to delete; [ARGV[8]] onwards the consumers the caller knows of. *)
Definition delete_queue (keys args : list string) : M string :=
  let queueParamsStr := arg args 1 in
  let heartbeatKeysCount := (ParseInt (arg args 3)).1 in
  let locked := arg args 5 in
  let operationLockId := arg args 7 in
  props ← cmd_hgetall (arg keys 3);
  if decide (props = ∅) then mret "QUEUE_NOT_FOUND"
  else
    let currentState := props !! arg args 4 in
    let currentLockId := default "" (props !! arg args 6) in
    if decide (currentState = Some locked ∧ operationLockId = "") then mret "QUEUE_LOCKED"
    else if decide (currentState = Some locked ∧
                    (currentLockId = "" ∨ currentLockId ≠ operationLockId)) then mret "INVALID_LOCK"
    else if decide (props !! arg args 2 ≠ Some "0") then mret "QUEUE_NOT_EMPTY"
    else
      boundExchangesCount ← cmd_scard (arg keys 4);
      if decide (0 < boundExchangesCount) then mret "QUEUE_HAS_BOUND_EXCHANGE"
      else
        let expectedConsumerIds := drop 7 args in
        actualConsumerIds ← cmd_hkeys (arg keys 5);
        if decide (length expectedConsumerIds ≠ length actualConsumerIds)
        then mret "CONSUMER_SET_MISMATCH"
        else if negb (forallb (λ c, bool_decide (c ∈ actualConsumerIds)) expectedConsumerIds)
        then mret "CONSUMER_SET_MISMATCH"
        else
          heartbeats ← (if decide (0 < heartbeatKeysCount)
                        then cmd_mget (take (Z.to_nat heartbeatKeysCount) (drop 5 keys))
                        else mret []);
          if existsb (λ h : option string, match h with Some _ => true | None => false end) heartbeats
          then mret "QUEUE_HAS_ACTIVE_CONSUMERS"
          else
            _ ← cmd_srem (arg keys 1) queueParamsStr;
            _ ← cmd_srem (arg keys 2) queueParamsStr;
            _ ← cmd_del (drop 2 keys);
            mret "OK".

(** What [Delete] reads before the script: the consumers, the groups and the
    processing queues. *)
Record queue_reads := {
  consumerIDs : list string; consumerGroups : list string; processingQueues : list string
}.
Definition read_queue (q : QParams) (s : store) : rerr + queue_reads :=
  let key := queue_keys_of q in
  match (cs ← cmd_hkeys (Consumers key); gs ← cmd_smembers (ConsumerGroups key);
         ps ← cmd_hkeys (ProcessingQueues key);
         mret {| consumerIDs := cs; consumerGroups := gs; processingQueues := ps |}) s with
  | (Err e, _) => inl e
  | (Ret r, _) => inr r
  end.

Definition keysToDelete (q : QParams) (r : queue_reads) : list string :=
  let key := queue_keys_of q in
  [Properties key; Pending key; DeadLetter key; ProcessingQueues key; Priority key; Acknowledged key;
   Consumers key; RateLimit key; Scheduled key; Delayed key; Requeued key; Published key;
   ConsumerGroups key; WorkersLock key; ExchangeBindings key; StateHistory key] ++
  (consumerGroups r ≫= λ g, [PendingWithGroup key g; PriorityWithGroup key g]) ++
  processingQueues r.
Definition delete_keys (q : QParams) (r : queue_reads) : list string :=
  let key := queue_keys_of q in
  [AllQueues; NamespaceQueues (q_ns q); Properties key; ExchangeBindings key; Consumers key] ++
  (ConsumerHeartbeat <$> consumerIDs r) ++
  filter (λ k, k ≠ Properties key ∧ k ≠ ExchangeBindings key ∧ k ≠ Consumers key)
    (uniq [] (keysToDelete q r)).
Definition delete_args (q : QParams) (r : queue_reads) : list string :=
  [encode_queue q; qkey Q_MessagesCount; itoa (Z.of_nat (length (consumerIDs r)));
   qkey Q_OperationalState; itoa StateLocked; qkey Q_LockID; ""] ++ consumerIDs r.

Definition delete_result (reply : string) : queue_error + unit :=
  if decide (reply = "OK") then inr tt
  else if decide (reply = "QUEUE_LOCKED") then inl QLocked
  else if decide (reply = "QUEUE_NOT_FOUND") then inl QNotFound
  else if decide (reply = "QUEUE_NOT_EMPTY") then inl QNotEmpty
  else if decide (reply = "QUEUE_HAS_ACTIVE_CONSUMERS") then inl QHasActiveConsumers
  else if decide (reply = "QUEUE_HAS_BOUND_EXCHANGE") then inl QHasBoundExchanges
  else if decide (reply = "CONSUMER_SET_MISMATCH") then inl QConsumerSetMismatch
  else inl (QUnexpectedReply reply).

(** [between]: what others do after the reads and before the script. *)
Definition DeleteQueue (q : QParams) (between : store → store) (s : store) : (queue_error + unit) * store :=
  match read_queue q s with
  | inl e => (inl (QRedis e), s)
  | inr r => eval (delete_queue (delete_keys q r) (delete_args q r)) delete_result (between s)
  end.

(** ** Consumer groups *)

Definition SaveGroup (q : QParams) (groupID : string) (s : store) : (queue_error + Z) * store :=
  match ValidateKey groupID with
  | None => (inl QInvalidGroup, s)
  | Some _ =>
      match LoadQueue q s with
      | inl (Some e) => (inl (QRedis e), s)
      | inl None => (inl QNotFound, s)
      | inr props =>
          if decide (qp_DeliveryModel props ≠ DeliveryPubSub) then (inl QGroupsNotSupported, s)
          else match cmd_saddn (ConsumerGroups (queue_keys_of q)) groupID s with
               | (Err e, s') => (inl (QRedis e), s')
               | (Ret n, s') => (inr n, s')
               end
      end
  end.

(** core/delete-consumer-group.lua *)
Definition delete_consumer_group (keys args : list string) : M string :=
  let keyQueueConsumerGroups := arg keys 1 in
  let keyQueuePending := arg keys 2 in
  let keyQueuePendingPriority := arg keys 3 in
  let keyQueueProperties := arg keys 4 in
  let keyQueueConsumerGroupConsumers := arg keys 5 in
  let groupId := arg args 5 in
  props ← cmd_hmget keyQueueProperties [arg args 1; arg args 3; arg args 6; arg args 8];
  match reply_at props 1 with
  | None => mret "QUEUE_NOT_FOUND"
  | Some queueType =>
      match lock_check (reply_at props 3) (default "" (reply_at props 4)) (arg args 7) (arg args 9) with
      | Some reply => mret reply
      | None =>
          if decide (reply_at props 2 ≠ Some (arg args 4)) then mret "CONSUMER_GROUPS_NOT_SUPPORTED"
          else
            consumersCount ← cmd_scard keyQueueConsumerGroupConsumers;
            if decide (0 < consumersCount) then mret "CONSUMER_GROUP_HAS_ACTIVE_CONSUMERS"
            else
              count ← (if decide (queueType = arg args 2) then cmd_zcard keyQueuePendingPriority
                       else cmd_llen keyQueuePending);
              if decide (0 < count) then mret "CONSUMER_GROUP_NOT_EMPTY"
              else
                _ ← cmd_srem keyQueueConsumerGroups groupId;
                _ ← cmd_del [keyQueuePending; keyQueuePendingPriority];
                _ ← cmd_del [keyQueueConsumerGroupConsumers];
                mret "OK"
      end
  end.

Definition group_keys (q : QParams) (groupID : string) : list string :=
  let qKey := queue_keys_of q in
  [ConsumerGroups qKey; Pending qKey; Priority qKey; Properties qKey; ConsumerGroupMembers qKey groupID].
Definition group_args (groupID : string) : list string :=
  [qkey Q_Type; itoa TypePriority; qkey Q_DeliveryModel; itoa DeliveryPubSub; groupID;
   qkey Q_OperationalState; state_String StateLocked; qkey Q_LockID; ""].
Definition group_result (reply : string) : queue_error + unit :=
  if decide (reply = "OK") then inr tt
  else if decide (reply = "QUEUE_LOCKED") then inl QLocked
  else if decide (reply = "QUEUE_NOT_FOUND") then inl QNotFound
  else if decide (reply = "CONSUMER_GROUPS_NOT_SUPPORTED") then inl QGroupsNotSupported
  else if decide (reply = "CONSUMER_GROUP_NOT_EMPTY") then inl QGroupNotEmpty
  else if decide (reply = "CONSUMER_GROUP_HAS_ACTIVE_CONSUMERS") then inl QGroupHasConsumers
  else inl (QUnexpectedReply reply).
Definition DeleteGroup (q : QParams) (groupID : string) : store → (queue_error + unit) * store :=
  eval (delete_consumer_group (group_keys q groupID) (group_args groupID)) group_result.

Definition ListGroups (q : QParams) : store → exchange_error + list string :=
  members (ConsumerGroups (queue_keys_of q)).

(** ** Setting and clearing a rate limit *)

(** What both scripts do first. *)
Definition unless_locked (keyQueueProperties stateField locked lockField operationLockId : string)
    (act : M unit) : M string :=
  ex ← cmd_exists keyQueueProperties;
  if negb ex then mret "QUEUE_NOT_FOUND"
  else
    currentState ← cmd_hget keyQueueProperties stateField;
    currentLockId ← cmd_hget keyQueueProperties lockField;
    match lock_check currentState (default "" currentLockId) locked operationLockId with
    | Some reply => mret reply
    | None => _ ← act; mret "OK"
    end.

(** core/set-queue-rate-limit.lua *)
Definition set_queue_rate_limit (keys args : list string) : M string :=
  unless_locked (arg keys 1) (arg args 3) (arg args 4) (arg args 5) (arg args 6)
    (cmd_hset (arg keys 1) [(arg args 1, arg args 2)]).
(** core/clear-queue-rate-limit.lua *)
Definition clear_queue_rate_limit (keys args : list string) : M string :=
  unless_locked (arg keys 1) (arg args 2) (arg args 3) (arg args 4) (arg args 5)
    (_ ← cmd_hdel (arg keys 1) (arg args 1); cmd_del [arg keys 2]).

Definition rate_limit_result (reply : string) : queue_error + unit :=
  if decide (reply = "OK") then inr tt
  else if decide (reply = "QUEUE_LOCKED") then inl QLocked
  else if decide (reply = "QUEUE_NOT_FOUND") then inl QNotFound
  else inl (QUnexpectedReply reply).

Definition SetRateLimit (q : QParams) (rl : option RateLimitParams) : store → (queue_error + unit) * store :=
  eval (set_queue_rate_limit [Properties (queue_keys_of q)]
          [qkey Q_RateLimit; MarshalRateLimitParams rl; qkey Q_OperationalState;
           state_String StateLocked; qkey Q_LockID; ""]) rate_limit_result.
Definition ClearRateLimit (q : QParams) : store → (queue_error + unit) * store :=
  eval (clear_queue_rate_limit [Properties (queue_keys_of q); RateLimit (queue_keys_of q)]
          [qkey Q_RateLimit; qkey Q_OperationalState; state_String StateLocked; qkey Q_LockID; ""])
    rate_limit_result.
(** [None] is an error. *)
Definition GetRateLimit (q : QParams) (s : store) : option (option RateLimitParams) :=
  match cmd_hget (Properties (queue_keys_of q)) (qkey Q_RateLimit) s with
  | (Ret (Some rateLimitJSON), _) =>
      if decide (rateLimitJSON = "") then Some None else UnmarshalRateLimitParams rateLimitJSON
  | _ => Some None
  end.

(** ** Registering consumers *)

(** The optional sixth key. *)
Definition if_group (keys : list string) (act : string → M unit) : M unit :=
  when (negb (bool_decide (arg keys 6 = ""))) (act (arg keys 6)).

(** core/subscribe-consumer.lua *)
Definition subscribe_consumer (keys args : list string) : M string :=
  let consumerId := arg args 1 in
  let consumerInfo := arg args 2 in
  let queue := arg args 3 in
  let active := arg args 5 in
  ex ← cmd_exists (arg keys 1);
  if negb ex then mret "QUEUE_NOT_FOUND"
  else
    currentState ← cmd_hget (arg keys 1) (arg args 4);
    if decide (default active currentState ≠ active) then mret "QUEUE_NOT_ACTIVE"
    else
      known ← cmd_hget (arg keys 2) consumerId;
      if decide (is_Some known) then mret "OK"
      else
        _ ← cmd_sadd (arg keys 3) queue;
        _ ← cmd_hset (arg keys 2) [(consumerId, consumerInfo)];
        _ ← cmd_hset (arg keys 4) [(arg keys 5, consumerId)];
        _ ← if_group keys (λ k, cmd_sadd k consumerId);
        mret "OK".

(** core/unsubscribe-consumer.lua *)
Definition unsubscribe_consumer (keys args : list string) : M string :=
  let consumerId := arg args 1 in
  let queue := arg args 2 in
  ex ← cmd_exists (arg keys 1);
  if negb ex then mret "QUEUE_NOT_FOUND"
  else
    queueLength ← cmd_llen (arg keys 5);
    if decide (0 < queueLength) then mret "PROCESSING_QUEUE_NOT_EMPTY"
    else
      _ ← cmd_hdel (arg keys 4) (arg keys 5);
      _ ← cmd_del [arg keys 5];
      _ ← cmd_hdel (arg keys 2) consumerId;
      _ ← cmd_srem (arg keys 3) queue;
      size ← cmd_scard (arg keys 3);
      _ ← when (bool_decide (size = 0)) (cmd_del [arg keys 3]);
      _ ← if_group keys (λ k, cmd_srem k consumerId);
      mret "OK".

Definition consumer_keys (q : QParams) (consumerID groupID : string) : list string :=
  let qKey := queue_keys_of q in
  [Properties qKey; Consumers qKey; ConsumerQueues consumerID; ProcessingQueues qKey;
   ConsumerProcessing qKey consumerID] ++
  (if decide (groupID ≠ "") then [ConsumerGroupMembers qKey groupID] else []).

(** [info] is the JSON text that describes the client. *)
Definition SubscribeConsumer (info consumerID : string) (q : QParams) (groupID : string)
    : store → (queue_error + unit) * store :=
  eval (subscribe_consumer (consumer_keys q consumerID groupID)
          [consumerID; info; encode_queue q; "11"; itoa StateActive])
    (λ reply, if decide (reply = "OK") then inr tt
              else if decide (reply = "QUEUE_NOT_FOUND") then inl QNotFound
              else if decide (reply = "QUEUE_NOT_ACTIVE") then inl QNotActive
              else inl (QUnexpectedReply reply)).
Definition UnsubscribeConsumer (consumerID : string) (q : QParams) (groupID : string)
    : store → (queue_error + unit) * store :=
  eval (unsubscribe_consumer (consumer_keys q consumerID groupID) [consumerID; encode_queue q])
    (λ reply, if decide (reply = "OK") then inr tt
              else if decide (reply = "QUEUE_NOT_FOUND") then inl QNotFound
              else if decide (reply = "PROCESSING_QUEUE_NOT_EMPTY") then inl QProcessingNotEmpty
              else inl (QUnexpectedReply reply)).

(** ** Rate limits as text *)

Lemma text_nonempty j : print j ≠ "".
Proof. destruct (first_byte j) as (c & r & -> & _). done. Qed.

(** What the encoding keeps: valid limits of whole milliseconds. *)
Definition storable_rl (p : RateLimitParams) : Prop :=
  rl_Validate p = true ∧ in_int64 (rl_limit p) ∧ in_int64 (rl_interval p) ∧
  (millisecond | rl_interval p).

Lemma Milliseconds_exact d : in_int64 d → (millisecond | d) → DurationOfMs (Milliseconds d) = d.
Proof.
  intros Hd [k ->]. unfold DurationOfMs, Milliseconds. rewrite Z.quot_mul by done. by apply wrap64_id.
Qed.

Lemma in_int64_ms d : in_int64 d → in_int64 (Milliseconds d).
Proof.
  unfold in_int64, int64_min, int64_max, Milliseconds, millisecond. intros [H1 H2].
  split; [apply Z.quot_le_lower_bound; lia|]. destruct (decide (0 ≤ d)).
  - apply Z.quot_le_upper_bound; lia.
  - etrans; [|instantiate (1 := 0); lia]. apply Z.quot_le_upper_bound; lia.
Qed.

Lemma rl_json_roundtrip p : storable_rl p → rl_UnmarshalJSON (rl_MarshalJSON p) = Some p.
Proof.
  intros (Hv & H1 & H2 & H3). destruct p as [l i]. cbn [rl_limit rl_interval] in *.
  unfold rl_UnmarshalJSON, rl_MarshalJSON, get_or, get_opt. cbn [rl_limit rl_interval]. simpl.
  rewrite !decide_True by (done || by apply in_int64_ms). simpl.
  rewrite Milliseconds_exact by done. by rewrite Hv.
Qed.

Lemma rate_limit_text rl :
  (∀ p, rl = Some p → storable_rl p) →
  UnmarshalRateLimitParams (MarshalRateLimitParams rl) = Some rl.
Proof.
  intros Hs. unfold UnmarshalRateLimitParams, MarshalRateLimitParams. destruct rl as [p|]; [|done].
  rewrite decide_False by apply text_nonempty. rewrite parse_print. cbn [mbind option_bind].
  rewrite rl_json_roundtrip by auto. destruct (Hs p eq_refl) as [-> _]. done.
Qed.

(** ** Creating *)

Definition fresh_props (now ty dm : Z) (rl : option RateLimitParams) : Props := {|
  qp_Type := ty; qp_DeliveryModel := dm; qp_OperationalState := StateActive;
  qp_MessagesCount := 0; qp_ScheduledMessagesCount := 0; qp_PendingMessagesCount := 0;
  qp_ProcessingMessagesCount := 0; qp_AcknowledgedMessagesCount := 0;
  qp_DeadLetteredMessagesCount := 0; qp_DelayedMessagesCount := 0; qp_RequeuedMessagesCount := 0;
  qp_RateLimit := rl; qp_LastStateChangeAt := UnixMilli now; qp_LockID := "" |}.

Definition fresh_fields (now ty dm : Z) (rl : option RateLimitParams) : list (string * string) :=
  [(qkey Q_Type, itoa ty); (qkey Q_DeliveryModel, itoa dm); (qkey Q_RateLimit, MarshalRateLimitParams rl);
   (qkey Q_MessagesCount, "0"); (qkey Q_AcknowledgedMessagesCount, "0");
   (qkey Q_DeadLetteredMessagesCount, "0"); (qkey Q_PendingMessagesCount, "0");
   (qkey Q_ScheduledMessagesCount, "0"); (qkey Q_ProcessingMessagesCount, "0");
   (qkey Q_DelayedMessagesCount, "0"); (qkey Q_RequeuedMessagesCount, "0");
   (qkey Q_OperationalState, itoa StateActive); (qkey Q_LastStateChangeAt, itoa (UnixMilli now));
   (qkey Q_LockID, "")].

Definition create_effect (now : Z) (q : QParams) (ty dm : Z) (rl : option RateLimitParams) (s : store)
    : store :=
  let key := queue_keys_of q in
  let s := put_set AllQueues ({[encode_queue q]} ∪ sts s AllQueues) s in
  let s := put_set (NamespaceQueues (q_ns q)) ({[encode_queue q]} ∪ sts s (NamespaceQueues (q_ns q))) s in
  let s := put_set AllNamespaces ({[q_ns q]} ∪ sts s AllNamespaces) s in
  let s := put_hash (Properties key) (hset_all (fresh_fields now ty dm rl) (hsh s (Properties key))) s in
  let s := put_list (StateHistory key)
             (marshal_transition (initialTransition now ty dm) :: lst s (StateHistory key)) s in
  put_list (StateHistory key) (ltrim 0 99 (lst s (StateHistory key))) s.

Lemma create_run now q ty dm rl s :
  wt s → wf_queue (queue_keys_of q) →
  create_queue (create_keys q) (create_args now q ty dm rl) s =
  if decide (encode_queue q ∈ sts s AllQueues) then (Ret "QUEUE_EXISTS", s)
  else (Ret "OK", create_effect now q ty dm rl s).
Proof.
  intros Hw Hq. pose proof (wf_queue_ns _ Hq : no_colon (q_ns q) = true) as Hns.
  unfold create_queue, create_keys, create_args. cbv zeta. cbn [arg nth Nat.sub].
  run_cmd sismember_run. case_bool_decide as Hin; [by rewrite decide_True|]. rewrite decide_False by done.
  run_cmd sadd_run. run_cmd sadd_run. run_cmd sadd_run. run_cmd hset_run. run_cmd lpush_run. run_cmd ltrim_run.
  done.
Qed.

Section create.
Context (now : Z) (q : QParams) (ty dm : Z) (rl : option RateLimitParams) (s : store).
Context (Hw : wt s) (Hq : wf_queue (queue_keys_of q)).
Let s' := create_effect now q ty dm rl s.

Lemma create_wt : wt s'.
Proof using Hw Hq.
  pose proof (wf_queue_ns _ Hq : no_colon (q_ns q) = true) as Hns.
  unfold s', create_effect, put_set, put_hash, put_list. cbv zeta. wt_solve.
Qed.

Lemma create_props :
  hsh s' (Properties (queue_keys_of q)) =
  hset_all (fresh_fields now ty dm rl) (hsh s (Properties (queue_keys_of q))).
Proof using Hq.
  pose proof (wf_queue_ns _ Hq : no_colon (q_ns q) = true) as Hns.
  unfold s', create_effect, put_set, put_hash, put_list. cbv zeta. views. done.
Qed.

Lemma create_sets :
  sts s' AllQueues = {[encode_queue q]} ∪ sts s AllQueues ∧
  sts s' (NamespaceQueues (q_ns q)) = {[encode_queue q]} ∪ sts s (NamespaceQueues (q_ns q)) ∧
  sts s' AllNamespaces = {[q_ns q]} ∪ sts s AllNamespaces.
Proof using Hq.
  pose proof (wf_queue_ns _ Hq : no_colon (q_ns q) = true) as Hns.
  unfold s', create_effect, put_set, put_hash, put_list. cbv zeta. split_and!; views; done.
Qed.

Lemma create_history :
  lst s' (StateHistory (queue_keys_of q)) =
  ltrim 0 99 (marshal_transition (initialTransition now ty dm) :: lst s (StateHistory (queue_keys_of q))).
Proof using Hq.
  pose proof (wf_queue_ns _ Hq : no_colon (q_ns q) = true) as Hns.
  unfold s', create_effect, put_set, put_hash, put_list. cbv zeta. views. done.
Qed.

Lemma create_other k : k ∉ create_keys q → db s' !! k = db s !! k.
Proof.
  intros Hk. unfold s', create_effect, put_set, put_hash, put_list. cbv zeta.
  unfold create_keys in Hk. rewrite !not_elem_of_cons in Hk. destruct_and!.
  rewrite !lookup_upd_ne by congruence. done.
Qed.
End create.

Lemma hset_all_notin kvs : ∀ h k, k ∉ kvs.*1 → hset_all kvs h !! k = h !! k.
Proof.
  unfold hset_all. induction kvs as [|[k0 v0] kvs IH]; intros h k Hk; [done|].
  rewrite fmap_cons, not_elem_of_cons in Hk. destruct Hk as [Hk0 Hk]. cbn [foldl fst snd].
  rewrite IH by done. by apply lookup_insert_ne.
Qed.

Lemma hset_all_in kvs : ∀ h k v, NoDup kvs.*1 → (k, v) ∈ kvs → hset_all kvs h !! k = Some v.
Proof.
  induction kvs as [|[k0 v0] kvs IH]; intros h k v Hnd Hin; [by apply not_elem_of_nil in Hin|].
  rewrite fmap_cons in Hnd. apply NoDup_cons in Hnd as [Hk0 Hnd].
  change (hset_all ((k0, v0) :: kvs) h) with (hset_all kvs (<[k0 := v0]> h)).
  apply elem_of_cons in Hin as [[= -> ->]|Hin]; [|by apply IH].
  rewrite hset_all_notin by done. apply lookup_insert_eq.
Qed.

Lemma fresh_decode now ty dm rl h :
  in_int64 ty → in_int64 dm → in_int64 (UnixMilli now) → (∀ p, rl = Some p → storable_rl p) →
  DecodeQueueProps (hset_all (fresh_fields now ty dm rl) h) = fresh_props now ty dm rl.
Proof.
  intros Ht Hd Hn Hrl.
  assert (NoDup (fresh_fields now ty dm rl).*1) as Hnd.
  { assert ((fresh_fields now ty dm rl).*1 = qkey <$> [Q_Type; Q_DeliveryModel; Q_RateLimit; Q_MessagesCount;
      Q_AcknowledgedMessagesCount; Q_DeadLetteredMessagesCount; Q_PendingMessagesCount;
      Q_ScheduledMessagesCount; Q_ProcessingMessagesCount; Q_DelayedMessagesCount;
      Q_RequeuedMessagesCount; Q_OperationalState; Q_LastStateChangeAt; Q_LockID]) as -> by done.
    apply (NoDup_fmap_2 qkey), (bool_decide_unpack _).
    vm_compute. exact I. }
  pose proof (λ k v, hset_all_in _ h k v Hnd) as Hl.
  assert (∀ f z, in_int64 z → (qkey f, itoa z) ∈ fresh_fields now ty dm rl →
    parseInt64Field (hset_all (fresh_fields now ty dm rl) h) f = z) as Hz.
  { intros f z Hr Hin. unfold parseInt64Field. rewrite (Hl _ _ Hin). by rewrite ParseInt_itoa. }
  assert (in_int64 0) as H0 by (split; vm_compute; discriminate).
  assert ("0" = itoa 0) as E0 by done.
  unfold DecodeQueueProps, fresh_props. f_equal.
  1, 2: apply Hz; [done|unfold fresh_fields; rewrite !elem_of_cons; tauto].
  1: apply Hz; [done|unfold fresh_fields; rewrite !elem_of_cons; tauto].
  1-8: apply Hz; [done|rewrite <-E0; unfold fresh_fields; rewrite !elem_of_cons; tauto].
  - unfold decode_rate_limit. rewrite (Hl (qkey Q_RateLimit) (MarshalRateLimitParams rl))
      by (unfold fresh_fields; rewrite !elem_of_cons; tauto).
    case_decide as E; [destruct rl; [by apply text_nonempty in E|done]|]. by rewrite rate_limit_text.
  - apply Hz; [done|unfold fresh_fields; rewrite !elem_of_cons; tauto].
  - by rewrite (Hl (qkey Q_LockID) "") by (unfold fresh_fields; rewrite !elem_of_cons; tauto).
Qed.

(** ** Deleting *)

Lemma hkeys_run k s : is_hash s k → cmd_hkeys k s = (Ret (map_to_list (hsh s k)).*1, s).
Proof. intros H. unfold cmd_hkeys. by rewrite with_hash_run. Qed.

Lemma elem_of_uniq l : ∀ seen x, x ∈ uniq seen l ↔ x ∈ l ∧ x ∉ seen.
Proof.
  induction l as [|y l IH]; intros seen x; cbn [uniq]; [set_solver|].
  case_decide; [rewrite IH; set_solver|]. rewrite elem_of_cons, IH. split; [set_solver|].
  intros [Hin Hs]. destruct (decide (x = y)); set_solver.
Qed.

Lemma del_lookup ks k : ∀ s, db (foldl (λ s k, remove_key k s) s ks) !! k =
  if decide (k ∈ ks) then None else db s !! k.
Proof.
  induction ks as [|k0 ks IH]; intros s; cbn [foldl].
  { by rewrite decide_False by apply not_elem_of_nil. }
  rewrite IH. destruct (decide (k ∈ ks)) as [Hin|Hin]; [by rewrite decide_True by set_solver|].
  cbn. destruct (decide (k = k0)) as [->|Hne].
  - rewrite decide_True by set_solver. apply lookup_delete_eq.
  - rewrite decide_False by set_solver. by apply lookup_delete_ne.
Qed.

Section delete.
Context (q : QParams) (r : queue_reads).

(** The keys the script deletes. *)
Definition deleted_keys : list string := drop 2 (delete_keys q r).

Lemma elem_of_deleted k :
  k ∈ deleted_keys ↔ k ∈ keysToDelete q r ∨ k ∈ ConsumerHeartbeat <$> consumerIDs r.
Proof.
  unfold deleted_keys, delete_keys. cbn [drop app].
  rewrite !elem_of_cons, elem_of_app, list_elem_of_filter, elem_of_uniq.
  assert (Properties (queue_keys_of q) ∈ keysToDelete q r ∧
          ExchangeBindings (queue_keys_of q) ∈ keysToDelete q r ∧
          Consumers (queue_keys_of q) ∈ keysToDelete q r) as (H1 & H2 & H3).
  { unfold keysToDelete. cbn [app]. rewrite !elem_of_cons. tauto. }
  pose proof (not_elem_of_nil k).
  split; [intros [->|[->|[->|[?|[? [? ?]]]]]]; auto|].
  intros [Hk|Hk]; [|tauto].
  destruct (decide (k = Properties (queue_keys_of q))); [tauto|].
  destruct (decide (k = ExchangeBindings (queue_keys_of q))); [tauto|].
  destruct (decide (k = Consumers (queue_keys_of q))); tauto.
Qed.

Definition delete_effect (s : store) : store :=
  let s := put_set AllQueues (sts s AllQueues ∖ {[encode_queue q]}) s in
  let s := put_set (NamespaceQueues (q_ns q)) (sts s (NamespaceQueues (q_ns q)) ∖ {[encode_queue q]}) s in
  foldl (λ s k, remove_key k s) s deleted_keys.

(** Nothing stands in the way. *)
Definition deletable (s : store) : Prop :=
  let key := queue_keys_of q in
  hsh s (Properties key) !! qkey Q_MessagesCount = Some "0" ∧
  hsh s (Properties key) !! qkey Q_OperationalState ≠ Some (itoa StateLocked) ∧
  bindings s q = ∅ ∧
  (length (consumerIDs r) = length (map_to_list (hsh s (Consumers key))) ∧
   ∀ c, c ∈ consumerIDs r → is_Some (hsh s (Consumers key) !! c)) ∧
  (∀ c v, c ∈ consumerIDs r → db s !! ConsumerHeartbeat c ≠ Some (VStr v)).

Lemma delete_run s :
  wt s → wf_queue (queue_keys_of q) → in_int64 (Z.of_nat (length (consumerIDs r))) →
  ∃ reply s', delete_queue (delete_keys q r) (delete_args q r) s = (Ret reply, s') ∧
    ((reply = "OK" ∧ s' = delete_effect s ∧ deletable s) ∨
     (reply ≠ "OK" ∧ s' = s ∧ ∃ e, delete_result reply = inl e)).
Proof.
  intros Hw Hq Hlen. pose proof (wf_queue_ns _ Hq : no_colon (q_ns q) = true) as Hns.
  unfold delete_queue, delete_args. cbv zeta. cbn [arg nth Nat.sub app delete_keys].
  assert (∀ reply, reply ≠ "OK" → (∃ e, delete_result reply = inl e) →
    ∃ reply0 s', (mret reply : M string) s = (Ret reply0, s') ∧
    ((reply0 = "OK" ∧ s' = delete_effect s ∧ deletable s) ∨
     (reply0 ≠ "OK" ∧ s' = s ∧ ∃ e, delete_result reply0 = inl e))) as Hrefuse.
  { intros reply Hne He. exists reply, s. split; [done|]. by right. }
  run_cmd hgetall_run. case_decide as H0; [by apply Hrefuse; [|eexists]|].
  case_decide as H1; [by apply Hrefuse; [|eexists]|].
  case_decide as H2; [by apply Hrefuse; [|eexists]|].
  case_decide as H3; [by apply Hrefuse; [|eexists]|].
  run_cmd scard_run. case_decide as H4; [by apply Hrefuse; [|eexists]|].
  run_cmd hkeys_run. cbn [drop]. rewrite !drop_0.
  case_decide as H5; [by apply Hrefuse; [|eexists]|].
  destruct (forallb _ _) eqn:H6; [|by apply Hrefuse; [|eexists]]. cbn [negb].
  rewrite ParseInt_itoa by done. cbn [fst].
  set (hb := λ k, match db s !! k with Some (VStr v) => Some v | _ => None end).
  assert ((if decide (0 < Z.of_nat (length (consumerIDs r)))
           then cmd_mget (take (Z.to_nat (Z.of_nat (length (consumerIDs r))))
             ((ConsumerHeartbeat <$> consumerIDs r) ++
              filter (λ k, k ≠ Properties (queue_keys_of q) ∧ k ≠ ExchangeBindings (queue_keys_of q) ∧
                           k ≠ Consumers (queue_keys_of q)) (uniq [] (keysToDelete q r))))
           else mret []) s = (Ret (hb <$> (ConsumerHeartbeat <$> consumerIDs r)), s)) as Hhb.
  { case_decide as Hn.
    - rewrite Nat2Z.id, take_app_length' by (by rewrite length_fmap). done.
    - destruct (consumerIDs r); [done|cbn in Hn; lia]. }
  erewrite bind_Ret; [|exact Hhb].
  destruct (existsb _ _) eqn:H7; [by apply Hrefuse; [|eexists]|].
  run_cmd srem_run. run_cmd srem_run. erewrite bind_Ret; [|done].
  eexists _, _. split; [done|]. left. split; [done|]. split; [done|].
  unfold deletable. split_and!.
  - done.
  - intros Hl. apply H1. by split.
  - apply leibniz_equiv, size_empty_inv. unfold bindings. lia.
  - by rewrite H5, length_fmap.
  - intros c Hc. apply Is_true_true, forallb_True in H6. rewrite Forall_forall in H6. specialize (H6 c Hc). 
    apply bool_decide_unpack, list_elem_of_fmap in H6 as ([c' v] & -> & Hin).
    apply elem_of_map_to_list in Hin. by eexists.
  - intros c v Hc Hv. apply Bool.not_true_iff_false in H7. apply H7, existsb_exists.
    exists (Some v). split; [|done]. apply list_elem_of_In, list_elem_of_fmap.
    exists (ConsumerHeartbeat c). split; [unfold hb; by rewrite Hv|]. apply list_elem_of_fmap. eauto.
Qed.
End delete.

Lemma read_queue_run q s :
  wt s → wf_queue (queue_keys_of q) →
  read_queue q s = inr
    {| consumerIDs := (map_to_list (hsh s (Consumers (queue_keys_of q)))).*1;
       consumerGroups := elements (sts s (ConsumerGroups (queue_keys_of q)));
       processingQueues := (map_to_list (hsh s (ProcessingQueues (queue_keys_of q)))).*1 |}.
Proof.
  intros Hw Hq. unfold read_queue. run_cmd hkeys_run. run_cmd smembers_run. by run_cmd hkeys_run.
Qed.

(** The consumers the caller knows are all there are. *)
Lemma consumers_known (h0 h : gmap string string) c :
  length (map_to_list h0).*1 = length (map_to_list h) →
  (∀ c, c ∈ (map_to_list h0).*1 → is_Some (h !! c)) → is_Some (h !! c) → c ∈ (map_to_list h0).*1.
Proof.
  intros Hlen Hsub [v Hc].
  assert ((map_to_list h0).*1 ⊆+ (map_to_list h).*1) as Hs.
  { apply NoDup_submseteq; [apply NoDup_fst_map_to_list|]. intros c' [v' Hv]%Hsub.
    apply list_elem_of_fmap. exists (c', v'). split; [done|]. by apply elem_of_map_to_list. }
  apply submseteq_length_Permutation in Hs; [|rewrite Hlen, length_fmap; lia].
  rewrite Hs. apply list_elem_of_fmap. exists (c, v). split; [done|]. by apply elem_of_map_to_list.
Qed.

Lemma not_in_difference (X : gset string) v : v ∉ X ∖ {[v]}.
Proof. set_solver. Qed.

(** ** Properties *)

(** C27: creating a queue.  A queue that is listed is left as it is; otherwise it
    is listed globally and with its namespace, and the namespace with the
    namespaces; its properties read back as those of a new queue of the given
    type, delivery model and rate limit (active, unlocked, every counter 0); the
    initial transition is put before whatever its history was, which is then cut
    to 100 entries, so that it is the only one of a queue that had no history;
    and nothing else changes. *)
Theorem create_queue_correct now q ty dm rl s :
  wt s → queue_ok q → in_int64 ty → in_int64 dm → in_int64 (UnixMilli now) →
  (∀ p, rl = Some p → storable_rl p) →
  let '(r, s') := SaveWithRateLimit now q ty dm rl s in
  if decide (encode_queue q ∈ sts s AllQueues) then r = inl QAlreadyExists ∧ s' = s
  else r = inr tt ∧ wt s' ∧ LoadQueue q s' = inr (fresh_props now ty dm rl) ∧
       sts s' AllQueues = {[encode_queue q]} ∪ sts s AllQueues ∧
       sts s' (NamespaceQueues (q_ns q)) = {[encode_queue q]} ∪ sts s (NamespaceQueues (q_ns q)) ∧
       sts s' AllNamespaces = {[q_ns q]} ∪ sts s AllNamespaces ∧
       lst s' (StateHistory (queue_keys_of q)) =
         take 100 (marshal_transition (initialTransition now ty dm) :: lst s (StateHistory (queue_keys_of q))) ∧
       ∀ k, k ∉ create_keys q → db s' !! k = db s !! k.
Proof.
  intros Hw Hq Ht Hd Hn Hrl. pose proof Hq as [Hwq _].
  unfold SaveWithRateLimit, eval. rewrite create_run by done. case_decide as Hin; [done|].
  rewrite decide_True by done. destruct (create_sets now q ty dm rl s Hwq) as (H1 & H2 & H3).
  split_and!; [done|by apply create_wt| |done|done|done| |intros k; apply create_other].
  - unfold LoadQueue. pose proof (create_wt now q ty dm rl s Hw Hwq) as Hw'.
    rewrite hgetall_run by wt_view. rewrite create_props by done.
    rewrite fresh_decode by done. rewrite decide_False; [done|]. intros E.
    apply (f_equal (λ m, m !! qkey Q_LockID)) in E. rewrite lookup_empty in E.
    unfold fresh_fields, hset_all in E. cbn [foldl fst snd] in E. by rewrite lookup_insert_eq in E.
  - rewrite create_history by done. apply (ltrim_prefix 100); [done|lia].
Qed.

Definition limit10 : RateLimitParams := {| rl_limit := 10; rl_interval := 60000000000 |}.
Definition new_orders (s : store) : store :=
  (SaveWithRateLimit 5000000 orders TypeFIFO DeliveryPubSub (Some limit10) s).2.

Lemma limit10_storable : storable_rl limit10.
Proof.
  split; [reflexivity|]. split; [split; vm_compute; discriminate|].
  split; [split; vm_compute; discriminate|]. by exists 60000.
Qed.

Lemma create_queue_correct_witness :
  LoadQueue orders (new_orders empty_store) =
    inr (fresh_props 5000000 TypeFIFO DeliveryPubSub (Some limit10)) ∧
  lst (new_orders empty_store) (StateHistory (queue_keys_of orders)) =
    [marshal_transition (initialTransition 5000000 TypeFIFO DeliveryPubSub)].
Proof.
  pose proof (create_queue_correct 5000000 orders TypeFIFO DeliveryPubSub (Some limit10) empty_store
    wt_empty (proj1 sample_ok)) as H.
  assert (in_int64 TypeFIFO ∧ in_int64 DeliveryPubSub ∧ in_int64 (UnixMilli 5000000)) as (H1 & H2 & H3).
  { repeat split; vm_compute; discriminate. }
  specialize (H H1 H2 H3). unfold new_orders.
  destruct (SaveWithRateLimit 5000000 orders TypeFIFO DeliveryPubSub (Some limit10) empty_store) as [r s'].
  assert (encode_queue orders ∉ sts empty_store AllQueues) as Hn.
  { apply (bool_decide_unpack _). vm_compute. exact I. }
  rewrite decide_False in H by exact Hn. destruct H as (_ & _ & H4 & _ & _ & _ & H5 & _).
  { intros p [= <-]. apply limit10_storable. }
  split; [exact H4|exact H5].
Defined.

(** C28: deleting a queue.  A refusal changes nothing.  A queue that is deleted had
    no message, was not locked, was listed with no exchange and had no consumer
    with a heartbeat, when the script ran; afterwards it is not listed, every one
    of its keys is gone with those of the groups and processing queues read
    before, and no other key has changed but the heartbeats of its consumers. *)
Theorem delete_queue_safe q between s r s' reads :
  queue_ok q → wt s → wt (between s) →
  in_int64 (Z.of_nat (length (map_to_list (hsh s (Consumers (queue_keys_of q)))))) →
  read_queue q s = inr reads → DeleteQueue q between s = (r, s') →
  match r with
  | inl _ => s' = between s
  | inr _ =>
      (hsh (between s) (Properties (queue_keys_of q)) !! qkey Q_MessagesCount = Some "0" ∧
       hsh (between s) (Properties (queue_keys_of q)) !! qkey Q_OperationalState ≠ Some (itoa StateLocked) ∧
       bindings (between s) q = ∅ ∧
       ∀ c v, is_Some (hsh (between s) (Consumers (queue_keys_of q)) !! c) →
         db (between s) !! ConsumerHeartbeat c ≠ Some (VStr v)) ∧
      (encode_queue q ∉ sts s' AllQueues) ∧ (encode_queue q ∉ sts s' (NamespaceQueues (q_ns q))) ∧
      (∀ k, k ∈ keysToDelete q reads → db s' !! k = None) ∧
      (∀ k, k ∉ delete_keys q reads → db s' !! k = db (between s) !! k)
  end.
Proof.
  intros [Hq _] Hw Hw1 Hlen Hr. pose proof (wf_queue_ns _ Hq : no_colon (q_ns q) = true) as Hns.
  unfold DeleteQueue. rewrite Hr. rewrite (read_queue_run q s Hw Hq) in Hr. injection Hr as <-.
  set (reads := {| consumerIDs := _ |}). unfold eval.
  destruct (delete_run q reads (between s) Hw1 Hq) as (reply & s2 & -> & [(-> & -> & Hd)|(Hne & -> & e & He)]).
  { unfold reads. cbn [consumerIDs]. by rewrite length_fmap. }
  2: { rewrite He. by intros [= <- <-]. }
  change (delete_result "OK") with (inr tt : queue_error + unit). intros [= <- <-]. destruct Hd as (H1 & H2 & H3 & (H4 & H5) & H6).
  split; [split_and!; [done..|]; intros c v Hc; apply H6; by eapply consumers_known|].
  unfold delete_effect. cbv zeta. set (s2 := put_set (NamespaceQueues _) _ _). 
  assert (∀ k, sts (foldl (λ s k, remove_key k s) s2 (deleted_keys q reads)) k =
    if decide (k ∈ deleted_keys q reads) then ∅ else sts s2 k) as Hs.
  { intros k. unfold sts. rewrite del_lookup. by case_decide. }
  split_and!.
  - rewrite Hs. case_decide; [apply not_elem_of_empty|]. unfold s2, put_set. views. apply not_in_difference.
  - rewrite Hs. case_decide; [apply not_elem_of_empty|]. unfold s2, put_set. views. apply not_in_difference.
  - intros k Hk. rewrite del_lookup, decide_True; [done|]. apply elem_of_deleted. by left.
  - intros k Hk.
    change (delete_keys q reads) with (AllQueues :: NamespaceQueues (q_ns q) :: deleted_keys q reads) in Hk.
    apply not_elem_of_cons in Hk as [Hk2 [Hk3 Hk1]%not_elem_of_cons].
    rewrite del_lookup, decide_False by done. unfold s2, put_set. by rewrite !lookup_upd_ne.
Qed.

Definition plain_orders : store := (SaveQueue 5000000 orders TypeFIFO DeliveryPointToPoint empty_store).2.

Lemma plain_orders_wt : wt plain_orders.
Proof.
  unfold plain_orders, SaveQueue, SaveWithRateLimit, eval. rewrite create_run; [|apply wt_empty|apply sample_ok].
  case_decide; [apply wt_empty|]. apply create_wt; [apply wt_empty|apply sample_ok].
Qed.

Lemma delete_queue_safe_witness :
  ∃ s', DeleteQueue orders id plain_orders = (inr tt, s') ∧
    (encode_queue orders ∉ sts s' AllQueues) ∧ db s' !! Properties (queue_keys_of orders) = None.
Proof.
  destruct (DeleteQueue orders id plain_orders) as [r s'] eqn:E.
  assert (r = inr tt) as -> by (apply (f_equal fst) in E; vm_compute in E; exact (eq_sym E)).
  destruct (read_queue orders plain_orders) as [e|reads] eqn:Er; [vm_compute in Er; discriminate|].
  pose proof (delete_queue_safe orders id plain_orders (inr tt) s' reads (proj1 sample_ok) plain_orders_wt
    plain_orders_wt) as H.
  assert (in_int64 (Z.of_nat (length (map_to_list (hsh plain_orders (Consumers (queue_keys_of orders))))))) as Hl.
  { split; vm_compute; discriminate. }
  destruct (H Hl Er E) as (_ & H1 & _ & H2 & _). exists s'. split; [reflexivity|]. split; [exact H1|].
  apply H2. unfold keysToDelete. apply elem_of_app. left. apply list_elem_of_here.
Defined.

(** The operational state is stored as a number and compared with a name. *)
Lemma state_text st : in_int64 st → itoa st ≠ state_String StateLocked.
Proof.
  intros Hs E. apply (f_equal ParseInt) in E. rewrite ParseInt_itoa in E by done. vm_compute in E. by injection E.
Qed.

(** A rate limit that is set is the one read back, and clearing it leaves
    none and removes its counter.  This is so in every operational state: the
    scripts refuse a locked queue, but the callers pass the name of the state
    where the queue stores its number, so that the check never applies.  On a
    queue that does not exist both calls fail and change nothing. *)
Theorem rate_limit_set_get q rl st s :
  wt s → queue_ok q → (∀ p, rl = Some p → storable_rl p) → in_int64 st →
  hsh s (Properties (queue_keys_of q)) !! qkey Q_OperationalState = Some (itoa st) ∨
    db s !! Properties (queue_keys_of q) = None →
  let set := SetRateLimit q rl s in
  let clear := ClearRateLimit q s in
  if decide (is_Some (db s !! Properties (queue_keys_of q))) then
    set.1 = inr tt ∧ GetRateLimit q set.2 = Some rl ∧
    clear.1 = inr tt ∧ GetRateLimit q clear.2 = Some None ∧ db clear.2 !! RateLimit (queue_keys_of q) = None
  else set = (inl QNotFound, s) ∧ clear = (inl QNotFound, s).
Proof.
  intros Hw [Hq _] Hrl Hst Hstate. cbv zeta.
  unfold SetRateLimit, ClearRateLimit, eval, set_queue_rate_limit, clear_queue_rate_limit, unless_locked.
  cbn [arg nth Nat.sub]. set (act1 := cmd_hset _ _). set (act2 := (_ ← cmd_hdel _ _; _)).
  assert (∀ act, (ex ← cmd_exists (Properties (queue_keys_of q));
      if negb ex then mret "QUEUE_NOT_FOUND"
      else currentState ← cmd_hget (Properties (queue_keys_of q)) (qkey Q_OperationalState);
           currentLockId ← cmd_hget (Properties (queue_keys_of q)) (qkey Q_LockID);
           match lock_check currentState (default "" currentLockId) (state_String StateLocked) "" with
           | Some reply => mret reply
           | None => _ ← (act : M unit); mret "OK"
           end) s =
    if decide (is_Some (db s !! Properties (queue_keys_of q))) then (_ ← act; mret "OK") s
    else (Ret "QUEUE_NOT_FOUND", s)) as Hgo.
  { intros act. erewrite bind_Ret; [|done]. case_decide as Hex.
    - rewrite bool_decide_eq_true_2 by done. cbn [negb].
      run_cmd hget_run. run_cmd hget_run. unfold lock_check.
      destruct Hstate as [->|E]; [|rewrite E in Hex; by destruct Hex].
      rewrite decide_False; [done|]. intros [= E]. by apply (state_text st) in E.
    - by rewrite bool_decide_eq_false_2. }
  rewrite !Hgo. clear Hgo. case_decide as Hex; [|done].
  assert (is_hash s (Properties (queue_keys_of q))) as Hh by wt_view.
  unfold act1, act2. rewrite (bind_Ret _ _ s _ _ (hset_run _ _ s Hh)), bind_assoc.
  rewrite (bind_Ret _ _ s _ _ (hdel_run _ _ s Hh)). erewrite (bind_Ret _ _ (upd _ _ s)); [|done].
  split; [done|]. cbn [fst snd foldl mret M_ret]. unfold GetRateLimit. split.
  - rewrite hget_run by auto with smq. rewrite hsh_upd. unfold hset_all. cbn [foldl fst snd].
    rewrite lookup_insert_eq. case_decide as E; [|by apply rate_limit_text].
    destruct rl; [by apply text_nonempty in E|done].
  - split; [done|]. split; [|apply (lookup_upd_eq _ None)].
    set (s1 := upd (Properties _) (hash_val (delete _ _)) s).
    change (remove_key (RateLimit (queue_keys_of q)) s1) with (upd (RateLimit (queue_keys_of q)) None s1).
    rewrite hget_run by (apply is_hash_upd_ne; [key_ne|apply is_hash_upd]).
    rewrite hsh_upd_ne by key_ne. unfold s1. rewrite hsh_upd. by rewrite lookup_delete_eq.
Qed.

(** A locked queue accepts a rate limit. *)
Definition locked_orders : store :=
  put_hash (Properties (queue_keys_of orders))
    (<[qkey Q_OperationalState := itoa StateLocked]> (hsh plain_orders (Properties (queue_keys_of orders))))
    plain_orders.

Lemma rate_limit_set_get_witness :
  (SetRateLimit orders (Some limit10) locked_orders).1 = inr tt ∧
  GetRateLimit orders (SetRateLimit orders (Some limit10) locked_orders).2 = Some (Some limit10).
Proof.
  pose proof (rate_limit_set_get orders (Some limit10) StateLocked locked_orders) as H.
  assert (wt locked_orders) as H1.
  { apply (wt_upd_hash _ (KProperties (queue_keys_of orders)));
      [apply plain_orders_wt|apply (bool_decide_unpack _); vm_compute; exact I|done]. }
  assert (in_int64 StateLocked) as H2 by (split; vm_compute; discriminate).
  assert (hsh locked_orders (Properties (queue_keys_of orders)) !! qkey Q_OperationalState =
    Some (itoa StateLocked)) as H3 by (vm_compute; reflexivity).
  assert (is_Some (db locked_orders !! Properties (queue_keys_of orders))) as H4.
  { apply (bool_decide_unpack _). vm_compute. exact I. }
  specialize (H H1 (proj1 sample_ok) ltac:(intros p [= <-]; apply limit10_storable) H2 (or_introl H3)).
  cbv zeta in H. rewrite (decide_True (P := is_Some _)) in H by exact H4.
  split; apply H.
Defined.

(** A Pub/Sub queue with groups. *)
Definition grouped (gs : list string) (f : gmap string string → gmap string string) : store :=
  let s := (SaveQueue 5000000 orders TypeFIFO DeliveryPubSub empty_store).2 in
  put_set (ConsumerGroups (queue_keys_of orders)) (list_to_set gs)
    (put_hash (Properties (queue_keys_of orders)) (f (hsh s (Properties (queue_keys_of orders)))) s).

(** Deleting a consumer group looks at the wrong lists: the caller passes the
    queue's own pending keys instead of the group's.  A group with pending
    messages is deleted, its messages stay behind in a list nothing leads to, and
    this although the queue is locked; an empty group of a queue that holds a
    message without a group is refused as not empty. *)
Theorem group_deletion_checks_wrong_list :
  let key := queue_keys_of orders in
  let pubsub := grouped ["g1"] (<[qkey Q_OperationalState := itoa StateLocked]>) in
  let full := put_list (PendingWithGroup key "g1") ["m1"] pubsub in
  let other := put_list (Pending key) ["m2"] pubsub in
  ((DeleteGroup orders "g1" full).1 = inr tt ∧
   sts (DeleteGroup orders "g1" full).2 (ConsumerGroups key) = ∅ ∧
   lst (DeleteGroup orders "g1" full).2 (PendingWithGroup key "g1") = ["m1"]) ∧
  (DeleteGroup orders "g1" other).1 = inl QGroupNotEmpty.
Proof. cbv zeta. apply (bool_decide_unpack _). vm_compute. exact I. Qed.
