(* ===== verification/Subscribe.v ===== *)
(** * Registration of consumers

    The three places a subscription is recorded in (the consumers of a queue,
    its processing queues, and the queues of a consumer) agree, whatever
    sequence of subscriptions and unsubscriptions (Admin.v) led there. *)

From S2P Require Import Prelude Keys Redis RedisFacts Types Keyspace Topic Json Message MessageCodec.
From S2P Require Import Publish Consume QueueState Exchange Bindings Routing Admin.
#[local] Open Scope Z_scope.

Definition registered (s : store) (q : QParams) (c : string) : Prop :=
  is_Some (hsh s (Consumers (queue_keys_of q)) !! c).
Definition has_processing (s : store) (q : QParams) (c : string) : Prop :=
  hsh s (ProcessingQueues (queue_keys_of q)) !! ConsumerProcessing (queue_keys_of q) c = Some c.
Definition lists_queue (s : store) (q : QParams) (c : string) : Prop :=
  encode_queue q ∈ sts s (ConsumerQueues c).

(** *** The scripts, on the Go arguments *)

Definition group_key (q : QParams) (g : string) : list string :=
  if decide (g ≠ "") then [ConsumerGroupMembers (queue_keys_of q) g] else [].

Definition subscribe_effect (info c : string) (q : QParams) (g : string) (s : store) : store :=
  let K := queue_keys_of q in
  let s := put_set (ConsumerQueues c) ({[encode_queue q]} ∪ sts s (ConsumerQueues c)) s in
  let s := put_hash (Consumers K) (<[c := info]> (hsh s (Consumers K))) s in
  let s := put_hash (ProcessingQueues K) (<[ConsumerProcessing K c := c]> (hsh s (ProcessingQueues K))) s in
  if decide (g ≠ "")
  then put_set (ConsumerGroupMembers K g) ({[c]} ∪ sts s (ConsumerGroupMembers K g)) s else s.

Lemma subscribe_run info c q g s :
  wt s → wf_queue (queue_keys_of q) → no_colon c = true → no_colon g = true →
  SubscribeConsumer info c q g s =
  if decide (is_Some (db s !! Properties (queue_keys_of q))) then
    if decide (default (itoa StateActive)
                 (hsh s (Properties (queue_keys_of q)) !! qkey Q_OperationalState) ≠ itoa StateActive)
    then (inl QNotActive, s)
    else if decide (registered s q c) then (inr tt, s) else (inr tt, subscribe_effect info c q g s)
  else (inl QNotFound, s).
Proof.
  intros Hw Hq Hc Hg. unfold SubscribeConsumer, eval, subscribe_consumer, consumer_keys, if_group. cbv zeta.
  cbn [arg nth Nat.sub app]. change "11" with (qkey Q_OperationalState).
  erewrite bind_Ret; [|done]. destruct (decide (is_Some _)) as [Hex|Hex].
  2: { by rewrite bool_decide_eq_false_2. }
  rewrite bool_decide_eq_true_2 by done. cbn [negb]. run_cmd hget_run.
  destruct (decide (default _ _ ≠ _)) as [Hst|Hst]; [done|]. run_cmd hget_run. unfold registered.
  destruct (decide (is_Some (hsh s (Consumers _) !! c))) as [Hk|Hk]; [done|].
  run_cmd sadd_run. run_cmd hset_run. run_cmd hset_run.
  unfold subscribe_effect. cbv zeta. destruct (decide (g ≠ "")) as [Hne|Hne].
  - cbn [nth]. rewrite bool_decide_eq_false_2 by done. cbn [negb when].
    run_cmd sadd_run. done.
  - cbn [nth]. rewrite bool_decide_eq_true_2 by done. done.
Qed.

Definition unsubscribe_effect (c : string) (q : QParams) (g : string) (s : store) : store :=
  let K := queue_keys_of q in
  let s := put_hash (ProcessingQueues K) (delete (ConsumerProcessing K c) (hsh s (ProcessingQueues K))) s in
  let s := upd (ConsumerProcessing K c) None s in
  let s := put_hash (Consumers K) (delete c (hsh s (Consumers K))) s in
  let rest := sts s (ConsumerQueues c) ∖ {[encode_queue q]} in
  let s := put_set (ConsumerQueues c) rest s in
  let s := if decide (rest = ∅) then upd (ConsumerQueues c) None s else s in
  if decide (g ≠ "")
  then put_set (ConsumerGroupMembers K g) (sts s (ConsumerGroupMembers K g) ∖ {[c]}) s else s.

Lemma wt_upd_none k s : wt s → wf_key k → wt (upd (render_key k) None s).
Proof. intros Hs Hk. apply wt_upd; [done..|apply has_type_None]. Qed.

Lemma unsubscribe_run c q g s :
  wt s → wf_queue (queue_keys_of q) → no_colon c = true → no_colon g = true →
  UnsubscribeConsumer c q g s =
  if decide (is_Some (db s !! Properties (queue_keys_of q))) then
    if decide (lst s (ConsumerProcessing (queue_keys_of q) c) = [])
    then (inr tt, unsubscribe_effect c q g s) else (inl QProcessingNotEmpty, s)
  else (inl QNotFound, s).
Proof.
  intros Hw Hq Hc Hg. unfold UnsubscribeConsumer, eval, unsubscribe_consumer, consumer_keys, if_group. cbv zeta.
  cbn [arg nth Nat.sub app].
  erewrite bind_Ret; [|done]. destruct (decide (is_Some _)) as [Hex|Hex].
  2: { by rewrite bool_decide_eq_false_2. }
  rewrite bool_decide_eq_true_2 by done. cbn [negb]. run_cmd llen_run.
  destruct (decide (lst s _ = [])) as [E|E].
  2: { rewrite decide_True; [done|]. destruct (lst s _); [done|]. cbn. lia. }
  rewrite E. rewrite decide_False by (cbn; lia). run_cmd hdel_run.
  erewrite bind_Ret; [|done]. cbn [foldl]. set (s1 := upd (ProcessingQueues _) _ s).
  change (remove_key (ConsumerProcessing (queue_keys_of q) c) s1)
    with (upd (ConsumerProcessing (queue_keys_of q) c) None s1).
  assert (wt (upd (ConsumerProcessing (queue_keys_of q) c) None s1)) as Hw2.
  { apply (wt_upd_none (KConsumerProcessing _ c)); [unfold s1; wt_solve|wf_parts]. }
  set (s2 := upd (ConsumerProcessing _ c) None s1) in *.
  run_cmd hdel_run. run_cmd srem_run. run_cmd scard_run. rewrite sts_upd.
  unfold unsubscribe_effect. cbv zeta. fold s1. unfold put_hash, put_set. fold s1 s2.
  set (s3 := upd (Consumers _) _ s2). set (rest := sts s3 _ ∖ _).
  assert (bool_decide (Z.of_nat (size rest) = 0) = bool_decide (rest = ∅)) as ->.
  { apply bool_decide_ext. split; [|by intros ->].
    intros Hz. apply leibniz_equiv, size_empty_inv. lia. }
  set (s4 := if decide (rest = ∅) then _ else _).
  assert (when (bool_decide (rest = ∅)) (cmd_del [ConsumerQueues c]) (upd (ConsumerQueues c) (set_val rest) s3)
    = (Ret tt, s4)) as Hd.
  { unfold s4, when. case_decide; [by rewrite bool_decide_eq_true_2|by rewrite bool_decide_eq_false_2]. }
  erewrite bind_Ret; [|exact Hd].
  assert (wt s4) as Hw4.
  { assert (wt (upd (ConsumerQueues c) (set_val rest) s3)) by (unfold s3; wt_solve).
    unfold s4. case_decide; [by apply (wt_upd_none (KConsumerQueues c)); [|wf_parts]|done]. }
  destruct (decide (g ≠ "")) as [Hne|Hne]; cbn [nth].
  - rewrite bool_decide_eq_false_2 by done. cbn [negb when]. run_cmd srem_run. done.
  - rewrite bool_decide_eq_true_2 by done. done.
Qed.

(** *** What they make of the three records *)

Lemma keys_ne q q' : q ≠ q' → queue_keys_of q ≠ queue_keys_of q'.
Proof. intros Hne [= H1 H2]. by apply Hne, QParams_ext. Qed.

Lemma processing_key_inj q q' c c' :
  queue_ok q → queue_ok q' → no_colon c = true → no_colon c' = true →
  ConsumerProcessing (queue_keys_of q) c = ConsumerProcessing (queue_keys_of q') c' → c = c'.
Proof.
  intros [Hq _] [Hq' _] Hc Hc' E.
  apply (render_key_inj (KConsumerProcessing _ c) (KConsumerProcessing _ c')) in E; [|wf_parts..].
  by injection E.
Qed.

Section records.
Context (q q' : QParams) (c c' g : string) (s : store).
Context (Hq : queue_ok q) (Hq' : queue_ok q') (Hc : no_colon c = true) (Hc' : no_colon c' = true).
Context (Hg : no_colon g = true).

Lemma subscribe_records info :
  let s' := subscribe_effect info c q g s in
  (registered s' q' c' ↔ (q' = q ∧ c' = c) ∨ registered s q' c') ∧
  (has_processing s' q' c' ↔ (q' = q ∧ c' = c) ∨ has_processing s q' c') ∧
  (lists_queue s' q' c' ↔ (q' = q ∧ c' = c) ∨ lists_queue s q' c').
Proof using All.
  pose proof Hq as [Hw _]. pose proof Hq' as [Hw' _].
  unfold registered, has_processing, lists_queue, subscribe_effect, put_set, put_hash. cbv zeta.
  split_and!.
  - transitivity (is_Some ((if decide (q' = q) then <[c := info]> (hsh s (Consumers (queue_keys_of q)))
                            else hsh s (Consumers (queue_keys_of q'))) !! c')).
    { f_equiv. f_equiv. destruct (decide (q' = q)) as [->|Hne]; destruct (decide (g ≠ ""));
        try (pose proof (keys_ne _ _ (not_eq_sym Hne))); views; done. }
    destruct (decide (q' = q)) as [->|Hne]; [|naive_solver].
    destruct (decide (c' = c)) as [->|Hcc]; [rewrite lookup_insert_eq; naive_solver|].
    rewrite lookup_insert_ne by done. naive_solver.
  - transitivity ((if decide (q' = q)
        then <[ConsumerProcessing (queue_keys_of q) c := c]> (hsh s (ProcessingQueues (queue_keys_of q)))
        else hsh s (ProcessingQueues (queue_keys_of q'))) !! ConsumerProcessing (queue_keys_of q') c' = Some c').
    { f_equiv. f_equiv. destruct (decide (q' = q)) as [->|Hne]; destruct (decide (g ≠ ""));
        try (pose proof (keys_ne _ _ (not_eq_sym Hne))); views; done. }
    destruct (decide (q' = q)) as [->|Hne]; [|naive_solver].
    destruct (decide (c' = c)) as [->|Hcc]; [rewrite lookup_insert_eq; naive_solver|].
    rewrite lookup_insert_ne; [naive_solver|]. intros E. apply Hcc. symmetry. by eapply processing_key_inj.
  - transitivity (encode_queue q' ∈ (if decide (c' = c) then {[encode_queue q]} ∪ sts s (ConsumerQueues c)
                                      else sts s (ConsumerQueues c'))).
    { f_equiv. destruct (decide (c' = c)) as [->|Hne]; destruct (decide (g ≠ "")); views; done. }
    destruct (decide (c' = c)) as [->|Hcc]; [|naive_solver].
    rewrite elem_of_union, elem_of_singleton. split; [intros [->%(inj encode_queue)|?]; naive_solver|naive_solver].
Qed.

End records.

Lemma sts_upd_none k s : sts (upd k None s) k = ∅.
Proof. unfold sts. by rewrite lookup_upd_eq. Qed.

Section unrecords.
Context (q q' : QParams) (c c' g : string) (s : store).
Context (Hq : queue_ok q) (Hq' : queue_ok q') (Hc : no_colon c = true) (Hc' : no_colon c' = true).
Context (Hg : no_colon g = true).

Lemma unsubscribe_records :
  let s' := unsubscribe_effect c q g s in
  (registered s' q' c' ↔ ¬ (q' = q ∧ c' = c) ∧ registered s q' c') ∧
  (has_processing s' q' c' ↔ ¬ (q' = q ∧ c' = c) ∧ has_processing s q' c') ∧
  (lists_queue s' q' c' ↔ ¬ (q' = q ∧ c' = c) ∧ lists_queue s q' c').
Proof using All.
  pose proof Hq as [Hw _]. pose proof Hq' as [Hw' _].
  unfold registered, has_processing, lists_queue, unsubscribe_effect, put_set, put_hash. cbv zeta.
  set (s3 := upd (Consumers (queue_keys_of q)) _ _). set (rest := sts s3 _ ∖ _).
  set (s4 := if decide (rest = ∅) then _ else _).
  assert (rest = sts s (ConsumerQueues c) ∖ {[encode_queue q]}) as Hrest.
  { unfold rest, s3. by views. }
  assert (∀ k, ConsumerQueues c ≠ k → hsh s4 k = hsh s3 k ∧ sts s4 k = sts s3 k) as H4.
  { intros k Hk. unfold s4. case_decide; rewrite ?hsh_upd_ne, ?sts_upd_ne by done; done. }
  assert (sts s4 (ConsumerQueues c) = rest) as H4'.
  { unfold s4. case_decide as E; [rewrite E; apply sts_upd_none|apply sts_upd]. }
  assert (∀ q1, wf_queue (queue_keys_of q1) →
    hsh s4 (Consumers (queue_keys_of q1)) = hsh s3 (Consumers (queue_keys_of q1)) ∧
    hsh s4 (ProcessingQueues (queue_keys_of q1)) = hsh s3 (ProcessingQueues (queue_keys_of q1))) as H4h.
  { intros q1 Hq1. split; apply H4; key_ne. }
  clearbody s4. split_and!.
  - transitivity (is_Some ((if decide (q' = q) then delete c (hsh s (Consumers (queue_keys_of q)))
                            else hsh s (Consumers (queue_keys_of q'))) !! c')).
    { f_equiv. f_equiv. destruct (decide (q' = q)) as [->|Hne]; destruct (decide (g ≠ ""));
        try (pose proof (keys_ne _ _ (not_eq_sym Hne))); views;
        rewrite (proj1 (H4h _ Hw')) || rewrite (proj1 (H4h _ Hw)); unfold s3; views; done. }
    destruct (decide (q' = q)) as [->|Hne]; [|naive_solver].
    destruct (decide (c' = c)) as [->|Hcc].
    { rewrite lookup_delete_eq. split; [by intros []|naive_solver]. }
    rewrite lookup_delete_ne by done. naive_solver.
  - transitivity ((if decide (q' = q)
        then delete (ConsumerProcessing (queue_keys_of q) c) (hsh s (ProcessingQueues (queue_keys_of q)))
        else hsh s (ProcessingQueues (queue_keys_of q'))) !! ConsumerProcessing (queue_keys_of q') c' = Some c').
    { f_equiv. f_equiv. destruct (decide (q' = q)) as [->|Hne]; destruct (decide (g ≠ ""));
        try (pose proof (keys_ne _ _ (not_eq_sym Hne))); views;
        rewrite (proj2 (H4h _ Hw')) || rewrite (proj2 (H4h _ Hw)); unfold s3; views; done. }
    destruct (decide (q' = q)) as [->|Hne]; [|naive_solver].
    destruct (decide (c' = c)) as [->|Hcc]; [rewrite lookup_delete_eq; naive_solver|].
    rewrite lookup_delete_ne; [naive_solver|]. intros E. apply Hcc. symmetry. by eapply processing_key_inj.
  - transitivity (encode_queue q' ∈ (if decide (c' = c) then rest else sts s (ConsumerQueues c'))).
    { f_equiv. destruct (decide (c' = c)) as [->|Hne].
      - destruct (decide (g ≠ "")); views; rewrite H4'; done.
      - assert (ConsumerQueues c ≠ ConsumerQueues c') as Hk by key_ne.
        destruct (decide (g ≠ "")); views; rewrite (proj2 (H4 _ Hk)); unfold s3; views; done. }
    destruct (decide (c' = c)) as [->|Hcc]; [|naive_solver].
    rewrite Hrest, elem_of_difference, elem_of_singleton. split.
    + intros [? Hne]. split; [|done]. intros [-> _]. done.
    + intros [Hne ?]. split; [done|]. intros ->%(inj encode_queue). naive_solver.
Qed.
End unrecords.

(** *** Any sequence of calls *)

Definition consistent (s : store) : Prop :=
  wt s ∧ ∀ q c, queue_ok q → no_colon c = true →
    (registered s q c ↔ has_processing s q c) ∧ (registered s q c ↔ lists_queue s q c).

Inductive reg_step : store → store → Prop :=
| rs_subscribe info c q g s :
    queue_ok q → no_colon c = true → no_colon g = true →
    reg_step s (SubscribeConsumer info c q g s).2
| rs_unsubscribe c q g s :
    queue_ok q → no_colon c = true → no_colon g = true →
    reg_step s (UnsubscribeConsumer c q g s).2
| rs_other s s' :
    (** another component: it writes none of the three records *)
    wt s' →
    (∀ q c, queue_ok q → no_colon c = true →
      hsh s' (Consumers (queue_keys_of q)) = hsh s (Consumers (queue_keys_of q)) ∧
      hsh s' (ProcessingQueues (queue_keys_of q)) = hsh s (ProcessingQueues (queue_keys_of q)) ∧
      sts s' (ConsumerQueues c) = sts s (ConsumerQueues c)) →
    reg_step s s'.

Lemma subscribe_wt info c q g s :
  wt s → queue_ok q → no_colon c = true → no_colon g = true → wt (subscribe_effect info c q g s).
Proof.
  intros Hw [Hq _] Hc Hg. unfold subscribe_effect, put_set, put_hash. cbv zeta. case_decide; wt_solve.
Qed.

Lemma unsubscribe_wt c q g s :
  wt s → queue_ok q → no_colon c = true → no_colon g = true → wt (unsubscribe_effect c q g s).
Proof.
  intros Hw [Hq _] Hc Hg. unfold unsubscribe_effect, put_set, put_hash. cbv zeta.
  set (s1 := upd (ProcessingQueues _) _ s).
  assert (wt (upd (ConsumerProcessing (queue_keys_of q) c) None s1)) as H2.
  { apply (wt_upd_none (KConsumerProcessing _ c)); [unfold s1; wt_solve|wf_parts]. }
  set (s2 := upd (ConsumerProcessing _ c) None s1) in *. set (s3 := upd (Consumers _) _ s2).
  set (s4 := upd (ConsumerQueues c) _ s3). assert (wt s4) as H4 by (unfold s4, s3; wt_solve).
  assert (wt (if decide (sts s3 (ConsumerQueues c) ∖ {[encode_queue q]} = ∅)
              then upd (ConsumerQueues c) None s4 else s4)) as H5.
  { case_decide; [by apply (wt_upd_none (KConsumerQueues c)); [|wf_parts]|done]. }
  set (s5 := if decide _ then _ else s4) in *. clearbody s5. case_decide; wt_solve.
Qed.

Lemma consistent_step s s' : consistent s → reg_step s s' → consistent s'.
Proof.
  intros [Hw Hc] Hs. destruct Hs as [info c q g s Hq Hcc Hg|c q g s Hq Hcc Hg|s s' Hw' Hsame].
  - rewrite (subscribe_run info c q g s Hw (proj1 Hq) Hcc Hg). repeat case_decide; cbn [snd]; try by split.
    split; [by apply subscribe_wt|]. intros q' c' Hq' Hc'. specialize (Hc q' c' Hq' Hc').
    destruct (subscribe_records q q' c c' g s Hq Hq' Hcc Hc' Hg info) as (R1 & R2 & R3).
    rewrite R1, R2, R3. tauto.
  - rewrite (unsubscribe_run c q g s Hw (proj1 Hq) Hcc Hg). repeat case_decide; cbn [snd]; try by split.
    split; [by apply unsubscribe_wt|]. intros q' c' Hq' Hc'. specialize (Hc q' c' Hq' Hc').
    destruct (unsubscribe_records q q' c c' g s Hq Hq' Hcc Hc' Hg) as (R1 & R2 & R3).
    rewrite R1, R2, R3. tauto.
  - split; [done|]. intros q c Hq Hcc. destruct (Hsame q c Hq Hcc) as (E1 & E2 & E3).
    unfold registered, has_processing, lists_queue. rewrite E1, E2, E3. by apply Hc.
Qed.

(** ** Properties *)

(** C30: the records of a subscription agree in every keyspace that subscriptions
    and unsubscriptions, in any order and with failures, lead to: a consumer is
    registered with a queue exactly when the queue lists its processing queue,
    and exactly when the consumer lists the queue. *)
Theorem subscriptions_consistent s0 s q c :
  wt s0 →
  (∀ q c, queue_ok q → no_colon c = true →
     ¬ registered s0 q c ∧ ¬ has_processing s0 q c ∧ ¬ lists_queue s0 q c) →
  rtc reg_step s0 s → queue_ok q → no_colon c = true →
  (registered s q c ↔ has_processing s q c) ∧ (registered s q c ↔ lists_queue s q c).
Proof.
  intros Hw H0 Hr Hq Hc. assert (consistent s0) as Hs.
  { split; [done|]. intros q' c' Hq' Hc'. destruct (H0 q' c' Hq' Hc') as (?&?&?). tauto. }
  clear H0 Hw. induction Hr as [s|s1 s2 s3 Hstep _ IH]; [by apply Hs|].
  apply IH. by eapply consistent_step.
Qed.

Lemma plain_orders_unused q c :
  queue_ok q → no_colon c = true →
  ¬ registered plain_orders q c ∧ ¬ has_processing plain_orders q c ∧ ¬ lists_queue plain_orders q c.
Proof.
  intros [Hq _] Hc. destruct sample_ok as [[Ho _] _]. pose proof (wf_queue_ns _ Ho : no_colon (q_ns orders) = true) as Hns.
  assert (∀ k, k ∉ create_keys orders → db plain_orders !! k = None) as Hk.
  { intros k Hk. unfold plain_orders, SaveQueue, SaveWithRateLimit, eval.
    rewrite create_run; [|apply wt_empty|done]. rewrite decide_False by set_solver. cbn [snd].
    by rewrite create_other. }
  unfold registered, has_processing, lists_queue, hsh, sts.
  rewrite !Hk by (unfold create_keys; rewrite !not_elem_of_cons; split_and!; first [key_ne|apply not_elem_of_nil]).
  split_and!; [by intros []|done|set_solver].
Qed.

Lemma subscriptions_consistent_witness :
  let s := (SubscribeConsumer "{}" "c1" orders "" plain_orders).2 in
  registered s orders "c1" ∧ has_processing s orders "c1" ∧ lists_queue s orders "c1".
Proof.
  intros s. assert (registered s orders "c1") as Hr by (vm_compute; by eexists).
  destruct (subscriptions_consistent plain_orders s orders "c1" plain_orders_wt plain_orders_unused) as [H1 H2].
  - apply rtc_once. apply rs_subscribe; [apply sample_ok|reflexivity..].
  - apply sample_ok.
  - reflexivity.
  - split; [exact Hr|]. split; [apply H1, Hr|apply H2, Hr].
Defined.
