(* ===== verification/Reaper.v ===== *)
(** * Dead consumers and orphaned locks

    The background work a consumer does for others: heartbeats
    (internal/consumer/heartbeat.go, heartbeat_checker.go and the registration
    in consumer.go), the recovery of the messages of dead consumers
    (reap_consumers.go) with their consumer groups (prepare_group.go), and the
    release of queues that a dead purge worker left locked
    (orphaned_lock_recoverer.go). *)

From S2P Require Import Prelude Keys Redis RedisFacts Types Keyspace Topic Json Message MessageCodec.
From S2P Require Import Publish Consume Accounts Accounting Lifecycle Manage QueueState PurgeJobs Purge Exchange Bindings Routing Admin Subscribe.
#[local] Open Scope Z_scope.

(** ** Heartbeats

    Durations are in nanoseconds, as Go's; [rnow] is Redis's clock in
    milliseconds. *)

(** SET with a lifetime as go-redis sends it: at least a millisecond, and no
    expiry when it is not positive. *)
Definition cmd_set_ttl (rnow : Z) (k v : string) (ttl : Z) : M unit :=
  modify (λ s, {| db := <[k := VStr v]> (db s);
                  expires := if decide (0 < ttl) then <[k := rnow + Z.max 1 (Milliseconds ttl)]> (expires s)
                             else delete k (expires s) |}).

Record Heartbeat := { hb_id : string; hb_ttl : Z; hb_interval : Z }.

Definition NewHeartbeat (id : string) (TTL : Z) : Heartbeat :=
  let ttl := if decide (TTL < 3 * second) then 3 * second else TTL in
  {| hb_id := id; hb_ttl := ttl; hb_interval := Z.quot ttl 3 |}.

Definition heartbeat_payload (now : Z) (id : string) : string :=
  print (JObj [("timestamp", JNum (UnixMilli now)); ("componentId", JStr id); ("componentType", JStr "consumer")]).

Definition beat (now rnow : Z) (h : Heartbeat) (s : store) : store :=
  (cmd_set_ttl rnow (ConsumerHeartbeat (hb_id h)) (heartbeat_payload now (hb_id h)) (hb_ttl h) s).2.

Definition hb_Stop (h : Heartbeat) (s : store) : store := (cmd_del [ConsumerHeartbeat (hb_id h)] s).2.

(** [register] and [unregister] of consumer.go. *)
Definition register (rnow : Z) (id : string) (HeartbeatTTL : Z) (s : store) : store :=
  (cmd_set_ttl rnow (ConsumerHeartbeat id) "{}" HeartbeatTTL s).2.
Definition unregister (id : string) (s : store) : store :=
  (cmd_del [ConsumerHeartbeat id; ConsumerQueues id] s).2.

(** An error reads as dead. *)
Definition IsAlive (consumerID : string) (s : store) : bool :=
  match (cmd_exists (ConsumerHeartbeat consumerID) s).1 with Ret b => b | Err _ => false end.

Definition AreAlive (consumerIDs : list string) (s : store) : rerr + gmap string bool :=
  if decide (consumerIDs = []) then inr ∅
  else match (cmd_mget (ConsumerHeartbeat <$> consumerIDs) s).1 with
  | Err e => inl e
  | Ret vals =>
      inr (foldl (λ result cv, <[cv.1 := bool_decide (is_Some cv.2)]> result) ∅ (zip consumerIDs vals))
  end.

(** ** Consumer groups (prepare_group.go) *)

Definition ephemeralGroupID (consumerID : string) : string := "cid-" +:+ consumerID.

(** True when an event tells the producers of a new group. *)
Definition createConsumerGroup (q : QParams) (groupID : string) (s : store) : (queue_error + bool) * store :=
  match cmd_saddn (ConsumerGroups (queue_keys_of q)) groupID s with
  | (Err e, s') => (inl (QRedis e), s')
  | (Ret n, s') => (inr (bool_decide (n = 1)), s')
  end.

Definition PrepareConsumerGroup (consumerID : string) (q : QParams) (groupID : string) (s : store)
    : (queue_error + string * bool) * store :=
  match LoadQueue q s with
  | inl (Some e) => (inl (QRedis e), s)
  | inl None => (inl QNotFound, s)
  | inr props =>
      if decide (qp_DeliveryModel props = DeliveryPubSub) then
        let effectiveGroupID := if decide (groupID = "") then ephemeralGroupID consumerID else groupID in
        match createConsumerGroup q effectiveGroupID s with
        | (inl e, s') => (inl e, s')
        | (inr created, s') => (inr (effectiveGroupID, created), s')
        end
      else if decide (groupID ≠ "") then (inl QGroupsNotSupported, s)
      else (inr ("", false), s)
  end.

Definition ephemeral_keys (q : QParams) (groupID : string) : list string :=
  let qKey := queue_keys_of q in
  [ConsumerGroups qKey; PendingWithGroup qKey groupID; PriorityWithGroup qKey groupID; Properties qKey;
   ConsumerGroupMembers qKey groupID].

(** The arguments are those of [DeleteGroup]. *)
Definition DeleteEphemeralConsumerGroup (consumerID : string) (q : QParams) (groupID : string)
    : store → (queue_error + unit) * store :=
  let effectiveGroupID := if decide (groupID = "") then ephemeralGroupID consumerID else groupID in
  eval (delete_consumer_group (ephemeral_keys q effectiveGroupID) (group_args effectiveGroupID))
    (λ reply, if decide (reply = "OK") then inr tt else inl (QUnexpectedReply reply)).

(** ** The reaper (reap_consumers.go) *)

Section Reaper.
(** As in Consume.v. *)
Context (cfg : ConfigRec) (defaults : ConsumeOptions) (uuid uuid' : string) (now rnow : Z).

Definition recoverConsumer (q : QParams) (consumerID : string) (s : store) : store :=
  let qKey := queue_keys_of q in
  let s := (UnacknowledgeProcessingQueue cfg defaults uuid uuid' now rnow qKey consumerID CauseOfflineConsumer s).2 in
  let deadGroupID := ephemeralGroupID consumerID in
  match cmd_sismember (ConsumerGroups qKey) deadGroupID s with
  | (Ret true, s) =>
      let s := (DeleteEphemeralConsumerGroup consumerID q deadGroupID s).2 in
      (UnsubscribeConsumer consumerID q deadGroupID s).2
  | (_, s) => (UnsubscribeConsumer consumerID q "" s).2
  end.

Definition reap (consumerID : string) (q : QParams) (s : store) : store :=
  match cmd_hkeys (Consumers (queue_keys_of q)) s with
  | (Err _, s) => s
  | (Ret consumerIDs, s) =>
      let others := filter (λ cid, cid ≠ consumerID) consumerIDs in
      if decide (others = []) then s
      else match AreAlive others s with
      | inl _ => s
      | inr aliveMap =>
          foldl (λ s cid, if default false (aliveMap !! cid) then s else recoverConsumer q cid s) s others
      end
  end.
End Reaper.

(** ** Orphaned locks (orphaned_lock_recoverer.go) *)

Definition orphan_transition (now : Z) (lockID : string) : StateTransition :=
  {| From := Some StateLocked; To := StateActive; Reason := ReasonPurgeComplete; Timestamp := UnixMilli now;
     Description := ""; LockID := Some lockID; Owner := None; Metadata := [] |}.

(** The script's reply is only logged. *)
Definition orphan_unlockQueue (now : Z) (q : Queue) (lockID : string) (s : store) : store :=
  (set_queue_state (state_keys q)
     [qkey Q_OperationalState; itoa StateActive; marshal_transition (orphan_transition now lockID); itoa StateLocked;
      itoa StateActive; "100"; itoa StateLocked; lockID; qkey Q_LastStateChangeAt; itoa (UnixMilli now); qkey Q_LockID] s).2.

Definition orphan_recover (now : Z) (q : QParams) (s : store) : store :=
  let qKey := queue_keys_of q in
  match FetchCurrent now qKey s with
  | inl _ => s
  | inr state =>
      if decide (To state ≠ StateLocked) then s
      else if decide (Owner state ≠ Some LockOwnerPurgeJob) then s
      else
        let lockID := default "" (LockID state) in
        if decide (lockID = "") then s
        else if IsWorkerAlive lockID s then s
        else orphan_unlockQueue now qKey lockID s
  end.

(** ** What recovering a consumer changes *)

(** Keys the unacknowledgement of a batch may change. *)
Definition unack_touched (q : Queue) (c : string) (ids : list string) : list string :=
  [Requeued q; DeadLetter q; Properties q; ConsumerProcessing q c] ++
  (ids ≫= λ id, [Message id; MessageAcknowledgementHistory id]).

Lemma touches_unack_one rnow cfg now now' q c acc entry :
  touches (unack_touched q c [unack_entry_id entry]) (unack_one rnow cfg now now' q c acc entry).
Proof.
  unfold unack_one, unack_route, unack_history, store_audit, cmd_ltrim_text. cbv zeta. eval_consumer_args.
  cbn [arg nth Nat.sub].
  unfold unack_touched. cbn [mbind list_bind app]. touches_auto; set_solver.
Qed.

Lemma touches_unacknowledge rnow cfg now now' q c entries :
  touches (unack_touched q c (unack_entry_id <$> entries))
    (unacknowledge_message rnow (unack_keys q c entries) (unack_args cfg now now' entries)).
Proof.
  destruct (unack_lengths cfg now now' q c entries empty_store) as [Hk Hv].
  unfold unacknowledge_message. rewrite Hk, Hv. clear Hk Hv. eval_consumer_args. cbv zeta.
  apply touches_bind; [apply touches_exists|intros ex]. destruct (negb ex); [apply touches_ret|].
  apply touches_bind; [apply touches_hget|intros st]. destruct (state_check _ _ _ _ _); [apply touches_ret|].
  case_decide; [apply touches_ret|]. case_decide; [apply touches_ret|].
  replace (Z.to_nat (7 * Z.of_nat (length entries) / 7)) with (length entries)
    by (rewrite Z.mul_comm, Z.div_mul by lia; lia).
  apply touches_bind.
  - intros s k Hk'. erewrite foldM_seq; [|intros b i x s0 Hx; by apply unack_turn_eq].
    revert s k Hk'. apply touches_foldM. intros b e He. eapply touches_mono; [|apply touches_unack_one].
    unfold unack_touched. apply (list_elem_of_fmap_2 unack_entry_id) in He. intros k Hk'.
    apply elem_of_app. apply elem_of_app in Hk' as [?|Hk']; [by left|right].
    rewrite list_elem_of_bind in Hk' |- *. destruct Hk' as (i & ? & ->%list_elem_of_singleton). by eexists.
  - intros acc. unfold unack_touched. touches_auto; set_solver.
Qed.

(** *** The messages of a consumer *)

Section recovery.
Context (cfg : ConfigRec) (defaults : ConsumeOptions) (uuid uuid' : string) (now rnow : Z).
Context (q : QParams) (Hqok : queue_ok q).
Context (Hcfg : audit_ok (DeadLetteredMessages (cfg_MessageAudit cfg))).

#[local] Abbreviation K := (queue_keys_of q).
#[local] Abbreviation processing s c := (lst s (ConsumerProcessing (queue_keys_of q) c)).
#[local] Abbreviation load := (load_message defaults uuid uuid' now).

(** What a consumer was processing can be read back, each message under its
    own identifier. *)
Definition recoverable (s : store) (a : accounts) (c : string) : Prop :=
  NoDup (processing s c) ∧
  ∀ id, id ∈ processing s c → a !! id = Some StatusProcessing ∧ unack_count_ok (hsh s (Message id)) ∧
    ∃ e, load s id = Some e ∧ ID e = id.

(** The status recovery gives a message. *)
Definition recovered_status (s : store) (id : string) : Z :=
  match load s id with
  | Some e => unack_target now {| ue_Message := e; ue_Cause := CauseOfflineConsumer |}
  | None => 0
  end.

Definition recovered (s : store) (ids : list string) (a : accounts) : accounts :=
  foldl (λ a id, <[id := recovered_status s id]> a) a ids.

Lemma recovered_other s ids a id : id ∉ ids → recovered s ids a !! id = a !! id.
Proof.
  unfold recovered. revert a. induction ids as [|i ids IH]; intros a Hid; [done|].
  apply not_elem_of_cons in Hid as [Hne Hid]. cbn [foldl]. rewrite IH by done. by rewrite lookup_insert_ne.
Qed.

Lemma recovered_in s ids a id : id ∈ ids → recovered s ids a !! id = Some (recovered_status s id).
Proof.
  unfold recovered. revert a. induction ids as [|i ids IH]; intros a Hid; [by apply elem_of_nil in Hid|].
  cbn [foldl]. destruct (decide (id ∈ ids)) as [Hin|Hin]; [by apply IH|].
  apply elem_of_cons in Hid as [->|Hid]; [|done].
  change (recovered s ids (<[i := recovered_status s i]> a) !! i = Some (recovered_status s i)).
  rewrite recovered_other by done. apply lookup_insert_eq.
Qed.

Lemma recovered_size s ids a : (∀ id, id ∈ ids → is_Some (a !! id)) → size (recovered s ids a) = size a.
Proof.
  unfold recovered. revert a. induction ids as [|i ids IH]; intros a Hids; [done|]. cbn [foldl].
  rewrite IH. { apply map_size_insert_Some, Hids. left. }
  intros id Hid. apply lookup_insert_is_Some'. right. apply Hids. by right.
Qed.

Lemma taken_out_all ids : taken_out ids ids = [].
Proof.
  unfold taken_out. induction ids as [|i ids IH]; [done|]. cbn [foldl remove_first].
  by rewrite decide_True.
Qed.

(** The whole processing list is read and unacknowledged. *)
Lemma omap_loaded s (l : list string) :
  (∀ id, id ∈ l → ∃ e, load s id = Some e ∧ ID e = id) →
  ∃ es, omap (load s) l = es ∧ ID <$> es = l ∧ (∀ e, e ∈ es → load s (ID e) = Some e).
Proof.
  induction l as [|i l IH]; intros Hl; [exists []; split_and!; [done|done|by intros e ?%elem_of_nil]|].
  destruct (Hl i) as (e & He & Ei); [left|]. destruct IH as (es & Hes & Hid & Hld); [intros id Hid; apply Hl; by right|].
  exists (e :: es). cbn [omap list_omap]. rewrite He, Hes. split; [done|]. split; [cbn; by rewrite Ei, Hid|].
  intros e' [->|He']%elem_of_cons; [by rewrite Ei|by apply Hld].
Qed.

Lemma unack_all_recovered s (l : list string) (es : list Envelope) a :
  (∀ e, e ∈ es → load s (ID e) = Some e) → (ID <$> es) ⊆ l →
  unack_all now l ((λ m, {| ue_Message := m; ue_Cause := CauseOfflineConsumer |}) <$> es) a = recovered s (ID <$> es) a.
Proof.
  unfold recovered. revert a. induction es as [|e es IH]; intros a Hld Hsub; [done|].
  rewrite !fmap_cons, unack_all_cons. cbn [foldl unack_entry_id ue_Message].
  rewrite decide_True by (apply Hsub; left). rewrite IH.
  - assert (recovered_status s (ID e) = unack_target now {| ue_Message := e; ue_Cause := CauseOfflineConsumer |}) as ->;
      [|done]. unfold recovered_status. by rewrite (Hld e) by left.
  - intros e' He'. apply Hld. by right.
  - intros x Hx. apply Hsub. by right.
Qed.

Record recovery_step (c : string) (s s' : store) (a : accounts) : Prop := {
  rv_accounts : accounts_of K s' (recovered s (processing s c) a);
  rv_empty : processing s' c = [];
  rv_fields : ∀ f, is_counter f = false → hsh s' (Properties K) !! qkey f = hsh s (Properties K) !! qkey f;
  rv_frame : ∀ k, k ∉ unack_touched K c (processing s c) → db s' !! k = db s !! k
}.

Lemma unack_recovers c s a :
  no_colon c = true → accounts_of K s a → small a → recoverable s a c →
  is_Some (db s !! Properties K) → refused s K = None →
  recovery_step c s (UnacknowledgeProcessingQueue cfg defaults uuid uuid' now rnow K c CauseOfflineConsumer s).2 a.
Proof using Hqok Hcfg.
  intros Hc Ha Hsm [Hnd Hrec] Hex Hst. pose proof (mo_wt _ _ _ (proj1 Ha)) as Hw. destruct Hqok as [Hq _].
  unfold UnacknowledgeProcessingQueue, cmd_lrange_all. rewrite with_list_run by wt_view. cbn [mret M_ret].
  destruct (omap_loaded s (processing s c)) as (es & Hes & Hid & Hld).
  { intros id Hin. destruct (Hrec id Hin) as (_ & _ & H). exact H. }
  rewrite Hes. destruct (processing s c) as [|i l] eqn:El.
  { cbn [snd]. split; [rewrite El; exact Ha|done|done|done]. }
  set (entries := (λ m, {| ue_Message := m; ue_Cause := CauseOfflineConsumer |}) <$> es).
  assert (unack_entry_id <$> entries = i :: l) as Hids.
  { rewrite <-Hid. unfold entries. by rewrite <-list_fmap_compose. }
  destruct (unacknowledge_run rnow cfg now now K c entries s a Ha Hsm Hq Hc Hcfg) as (s' & Hrun & Hs').
  { by rewrite Hids. }
  { intros e He. apply (list_elem_of_fmap_2 unack_entry_id) in He. rewrite Hids in He.
    destruct (Hrec _ He) as (H1 & H2 & _). destruct (mo_status _ _ _ (proj1 Ha) _ _ H1) as (Hn & _). done. }
  rewrite decide_True in Hs' by done. destruct Hs' as (Ha' & Hl' & Hf').
  assert ((UnacknowledgeBatch cfg now rnow K c entries s).2 = s') as ->.
  { unfold UnacknowledgeBatch, buildBatchLuaArgs. destruct entries; [done|]. by rewrite Hrun. }
  rewrite El, Hids in *. split.
  - rewrite El, <-Hid. rewrite <-(unack_all_recovered s (ID <$> es) es a) by done. rewrite Hid. exact Ha'.
  - rewrite Hl'. apply taken_out_all.
  - exact Hf'.
  - intros k Hk. rewrite El, <-Hids in Hk. rewrite <-(f_equal snd Hrun : _ = s').
    by apply (touches_unacknowledge rnow cfg now now K c entries s).
Qed.

(** *** The group and the registration *)

Lemma eval_state {A} script (f : string → queue_error + A) s : (eval script f s).2 = (script s).2.
Proof. unfold eval. by destruct (script s) as [[?|?] ?]. Qed.

Lemma ephemeral_colon c : no_colon c = true → no_colon (ephemeralGroupID c) = true.
Proof. intros H. exact H. Qed.

Lemma ephemeral_nonempty c : ephemeralGroupID c ≠ "".
Proof. done. Qed.

Definition group_touched (g : string) : list string :=
  [ConsumerGroups K; PendingWithGroup K g; PriorityWithGroup K g; ConsumerGroupMembers K g].

(** Deleting a group, refused or not. *)
Lemma delete_group_frame c g s :
  wt s → no_colon g = true → g ≠ "" →
  let s' := (DeleteEphemeralConsumerGroup c q g s).2 in
  wt s' ∧ ∀ k, k ∉ group_touched g → db s' !! k = db s !! k.
Proof using Hqok.
  intros Hw Hg Hne. destruct Hqok as [Hq _]. cbv zeta. unfold DeleteEphemeralConsumerGroup.
  rewrite decide_False by done. rewrite eval_state. split.
  - unfold delete_consumer_group, ephemeral_keys. cbn [arg nth Nat.sub]. run_cmd hmget_run.
    destruct (reply_at _ 1); [|done]. destruct (lock_check _ _ _ _); [done|]. case_decide; [done|].
    run_cmd scard_run. case_decide; [done|].
    assert (∃ n, (if decide (s0 = arg (group_args g) 2) then cmd_zcard (PriorityWithGroup K g)
                  else cmd_llen (PendingWithGroup K g)) s = (Ret n, s)) as [n Hn].
    { case_decide; eexists; [unfold cmd_zcard; by rewrite with_zset_run by wt_view|apply llen_run; wt_view]. }
    erewrite bind_Ret; [|exact Hn]. destruct (decide (0 < n)); [done|]. run_cmd srem_run.
    erewrite bind_Ret; [|done]. erewrite bind_Ret; [|done]. cbn [foldl mret M_ret snd].
    apply (wt_upd_none (KConsumerGroupMembers K g)); [|wf_parts].
    apply (wt_upd_none (KPriorityWithGroup K g)); [|wf_parts].
    apply (wt_upd_none (KPendingWithGroup K g)); [|wf_parts]. wt_solve.
  - assert (touches (group_touched g) (delete_consumer_group (ephemeral_keys q g) (group_args g))) as Ht;
      [|intros k Hk; by apply Ht].
    unfold delete_consumer_group, ephemeral_keys, group_touched. cbn [arg nth Nat.sub].
    clear. touches_auto; set_solver.
Qed.

Definition registration_touched (c : string) (gs : list string) : list string :=
  [ProcessingQueues K; ConsumerProcessing K c; Consumers K; ConsumerQueues c] ++
  (ConsumerGroupMembers K <$> gs).

Lemma unsubscribe_frame c g s k :
  k ∉ registration_touched c [g] → db (UnsubscribeConsumer c q g s).2 !! k = db s !! k.
Proof.
  intros Hk. unfold UnsubscribeConsumer. rewrite eval_state.
  assert (touches (registration_touched c [g])
    (unsubscribe_consumer (consumer_keys q c g) [c; encode_queue q])) as Ht; [|by apply Ht].
  unfold unsubscribe_consumer, consumer_keys, if_group, registration_touched. cbn [arg nth Nat.sub app].
  clear. destruct (decide (g ≠ "")) as [Hg|Hg]; cbn [nth fmap list_fmap].
  - touches_auto; set_solver.
  - rewrite (bool_decide_eq_true_2 ("" = "")) by done. cbn [negb when]. touches_auto; set_solver.
Qed.

(** Accounts depend on neither. *)
Lemma accounts_frame s s' a c g :
  accounts_of K s a → wt s' → no_colon c = true → no_colon g = true →
  (∀ k, k ∉ group_touched g → k ∉ registration_touched c [g; ""] → db s' !! k = db s !! k) →
  accounts_of K s' a ∧ hsh s' (Properties K) = hsh s (Properties K).
Proof using Hqok.
  intros [Hm Hco] Hw' Hc Hg Hf. destruct Hqok as [Hq _].
  assert (∀ k, wf_key k →
    match k with
    | KConsumerGroups _ | KPendingWithGroup _ _ | KPriorityWithGroup _ _ | KConsumerGroupMembers _ _
    | KProcessingQueues _ | KConsumerProcessing _ _ | KConsumers _ | KConsumerQueues _ => False
    | _ => True
    end → db s' !! render_key k = db s !! render_key k) as Hk.
  { intros k Hwk Hcase. assert (∀ k', wf_key k' → k ≠ k' → render_key k ≠ render_key k') as Hne.
    { intros k' Hwk' Hn. by apply render_key_ne. }
    apply Hf; unfold group_touched, registration_touched; cbn [app fmap list_fmap];
      rewrite !not_elem_of_cons; split_and!; try apply not_elem_of_nil.
    - apply (Hne (KConsumerGroups K)); [wf_parts|by intros ->].
    - apply (Hne (KPendingWithGroup K g)); [wf_parts|by intros ->].
    - apply (Hne (KPriorityWithGroup K g)); [wf_parts|by intros ->].
    - apply (Hne (KConsumerGroupMembers K g)); [wf_parts|by intros ->].
    - apply (Hne (KProcessingQueues K)); [wf_parts|by intros ->].
    - apply (Hne (KConsumerProcessing K c)); [wf_parts|by intros ->].
    - apply (Hne (KConsumers K)); [wf_parts|by intros ->].
    - apply (Hne (KConsumerQueues c)); [wf_parts|by intros ->].
    - apply (Hne (KConsumerGroupMembers K g)); [wf_parts|by intros ->].
    - apply (Hne (KConsumerGroupMembers K "")); [wf_parts|by intros ->]. }
  assert (hsh s' (Properties K) = hsh s (Properties K)) as Hp.
  { unfold hsh. pose proof (Hk (KProperties K)) as E. cbn [render_key] in E. rewrite E; [done|wf_parts|done]. }
  split; [|done]. apply (accounts_props K s); [|done|done].
  apply (messages_frame K s); [done|done|..].
  - unfold lst. pose proof (Hk (KPublished K)) as E. cbn [render_key] in E. rewrite E; [done|wf_parts|done].
  - intros id st Hid. destruct (mo_status _ _ _ Hm id st Hid) as (Hn & _).
    unfold hsh. pose proof (Hk (KMessage id)) as E. cbn [render_key] in E. rewrite E; [done|wf_parts|done].
  - unfold lst. pose proof (Hk (KRequeued K)) as E. cbn [render_key] in E. rewrite E; [done|wf_parts|done].
  - unfold zst. pose proof (Hk (KDelayed K)) as E. cbn [render_key] in E. rewrite E; [done|wf_parts|done].
  - unfold zst. pose proof (Hk (KScheduled K)) as E. cbn [render_key] in E. rewrite E; [done|wf_parts|done].
Qed.

(** What is recovered, and what is left alone. *)
Definition recovery_touched (c : string) (ids : list string) : list string :=
  unack_touched K c ids ++ group_touched (ephemeralGroupID c) ++ registration_touched c [ephemeralGroupID c; ""].

Record consumer_recovered (c : string) (s s' : store) (a : accounts) : Prop := {
  cr_accounts : accounts_of K s' (recovered s (processing s c) a);
  cr_empty : processing s' c = [];
  cr_fields : ∀ f, is_counter f = false → hsh s' (Properties K) !! qkey f = hsh s (Properties K) !! qkey f;
  cr_registered : ∀ c', no_colon c' = true → registered s' q c' ↔ c' ≠ c ∧ registered s q c';
  cr_frame : ∀ k, k ∉ recovery_touched c (processing s c) → db s' !! k = db s !! k
}.

Lemma properties_exist s t : hsh s (Properties K) !! qkey Q_Type = Some t → is_Some (db s !! Properties K).
Proof. unfold hsh. destruct (db s !! Properties K); [by eexists|done]. Qed.

(** The rest of [recoverConsumer], once the messages are gone. *)
Lemma unsubscribe_recovers c g s a ty :
  no_colon c = true → no_colon g = true → accounts_of K s a → processing s c = [] →
  hsh s (Properties K) !! qkey Q_Type = Some ty →
  let s' := (UnsubscribeConsumer c q g s).2 in
  wt s' ∧ processing s' c = [] ∧
  (∀ c', no_colon c' = true → registered s' q c' ↔ c' ≠ c ∧ registered s q c').
Proof using Hqok.
  intros Hc Hg Ha He Hty s'. pose proof (mo_wt _ _ _ (proj1 Ha)) as Hw. pose proof Hqok as [Hq _].
  unfold s'. rewrite unsubscribe_run by done. rewrite decide_True by by eapply properties_exist.
  rewrite decide_True by done. cbn [snd]. split; [by apply unsubscribe_wt|]. split.
  - unfold unsubscribe_effect, put_hash, put_set. cbv zeta.
    set (s1 := upd (Consumers K) _ _). set (s2 := upd (ConsumerQueues c) _ s1).
    assert (processing s1 c = []) as E1 by (unfold s1; views; unfold lst; by rewrite lookup_upd_eq).
    assert (processing (if decide (sts s1 (ConsumerQueues c) ∖ {[encode_queue q]} = ∅)
                        then upd (ConsumerQueues c) None s2 else s2) c = []) as E2.
    { unfold s2. case_decide; views; done. }
    set (s3 := if decide _ then _ else s2) in *. clearbody s3. case_decide; [views|]; done.
  - intros c' Hc'. destruct (unsubscribe_records q q c c' g s Hqok Hqok Hc Hc' Hg) as (-> & _). naive_solver.
Qed.

Lemma registration_mono c g k : k ∉ registration_touched c [g; ""] → (k ∉ registration_touched c [g]) ∧ (k ∉ registration_touched c [""]).
Proof. unfold registration_touched. cbn [app fmap list_fmap]. rewrite !not_elem_of_cons. tauto. Qed.

(** The keys of the records are none of those unacknowledging writes. *)
Lemma registered_unack c c' s s' ids :
  (∀ k, k ∉ unack_touched K c ids → db s' !! k = db s !! k) → no_colon c = true →
  (∀ id, id ∈ ids → no_colon id = true) → registered s' q c' ↔ registered s q c'.
Proof using Hqok.
  intros Hf Hc Hids. destruct Hqok as [Hq _]. unfold registered, hsh. rewrite Hf; [done|].
  unfold unack_touched. rewrite elem_of_app, !elem_of_cons, list_elem_of_bind. intros [H|(id & H & Hid)].
  - destruct_or! H; [..|by apply elem_of_nil in H]; contradict H; key_ne.
  - pose proof (Hids id Hid) as Hn. rewrite !elem_of_cons in H. destruct_or! H; [..|by apply elem_of_nil in H]; contradict H; key_ne.
Qed.

Lemma recovery_run c s a ty :
  no_colon c = true → accounts_of K s a → small a → recoverable s a c →
  hsh s (Properties K) !! qkey Q_Type = Some ty → refused s K = None →
  consumer_recovered c s (recoverConsumer cfg defaults uuid uuid' now rnow q c s) a.
Proof using Hqok Hcfg.
  intros Hc Ha Hsm Hrec Hty Hst. unfold recoverConsumer. cbv zeta.
  destruct (unack_recovers c s a Hc Ha Hsm Hrec (properties_exist _ _ Hty) Hst) as [Ha1 He1 Hf1 Hfr1].
  set (s1 := (UnacknowledgeProcessingQueue _ _ _ _ _ _ _ _ _ s).2) in *. clearbody s1.
  set (g := ephemeralGroupID c). assert (no_colon g = true) as Hg by by apply ephemeral_colon.
  pose proof (mo_wt _ _ _ (proj1 Ha1)) as Hw1. pose proof Hqok as [Hq _].
  assert (∀ id, id ∈ processing s c → no_colon id = true) as Hids.
  { intros id Hid. destruct Hrec as [_ Hr]. destruct (Hr id Hid) as (E & _). by apply (mo_status _ _ _ (proj1 Ha)) in E as (? & _). }
  assert (∀ s2 g', g' = g ∨ g' = "" → wt s2 → (∀ k, k ∉ group_touched g → db s2 !! k = db s1 !! k) →
    consumer_recovered c s (UnsubscribeConsumer c q g' s2).2 a) as Hfin.
  { intros s2 g' Hg' Hw2 Hf2. assert (no_colon g' = true) as Hgc by by destruct Hg' as [-> | ->].
    destruct (accounts_frame s1 s2 _ c g Ha1 Hw2 Hc Hg) as [Ha2 Hp2]; [by auto|].
    assert (processing s2 c = []) as He2.
    { unfold lst. rewrite Hf2; [exact He1|]. unfold group_touched. rewrite !not_elem_of_cons. split_and!; [key_ne..|apply not_elem_of_nil]. }
    assert (registered s2 q = registered s1 q) as Hr2.
    { unfold registered, hsh. rewrite Hf2; [done|]. unfold group_touched. rewrite !not_elem_of_cons.
      split_and!; [key_ne..|apply not_elem_of_nil]. }
    destruct (unsubscribe_recovers c g' s2 _ ty Hc Hgc Ha2 He2) as (Hw3 & He3 & Hr3); [by rewrite Hp2, Hf1|].
    set (s3 := (UnsubscribeConsumer c q g' s2).2) in *.
    assert (∀ k, k ∉ registration_touched c [g; ""] → db s3 !! k = db s2 !! k) as Hf3.
    { intros k Hk. apply unsubscribe_frame. destruct (registration_mono c g k Hk). by destruct Hg' as [-> | ->]. }
    destruct (accounts_frame s2 s3 _ c g Ha2 Hw3 Hc Hg) as [Ha3 Hp3]; [by auto|].
    split.
    - exact Ha3.
    - exact He3.
    - intros f Hf. by rewrite Hp3, Hp2, Hf1.
    - intros c' Hc'. rewrite Hr3, Hr2 by done. by rewrite (registered_unack c c' s s1 _ Hfr1 Hc Hids).
    - intros k Hk. unfold recovery_touched in Hk. apply not_elem_of_app in Hk as [H1 Hk]. apply not_elem_of_app in Hk as [H2 H3].
      by rewrite Hf3, Hf2, Hfr1. }
  unfold cmd_sismember. rewrite with_set_run by wt_view. cbn [mret M_ret].
  destruct (bool_decide _).
  - destruct (delete_group_frame c g s1 Hw1 Hg (ephemeral_nonempty c)) as [Hw2 Hf2]. by apply Hfin; [left| |].
  - apply Hfin; [by right|done|done].
Qed.

(** *** One after the other *)

(** A key that is none of those recovery writes. *)
Lemma untouched k c ids :
  wf_key k → no_colon c = true → (∀ id, id ∈ ids → no_colon id = true) →
  match k with
  | KConsumerProcessing _ c' => c' ≠ c
  | KMessage id => id ∉ ids
  | KConsumerGroupMembers _ g => g ≠ ephemeralGroupID c ∧ g ≠ ""
  | KConsumerHeartbeat _ => True
  | _ => False
  end → render_key k ∉ recovery_touched c ids.
Proof using Hqok.
  intros Hk Hc Hids Hcase. destruct Hqok as [Hq _].
  assert (no_colon (ephemeralGroupID c) = true) as Hg by by apply ephemeral_colon.
  assert (∀ k', wf_key k' → k ≠ k' → render_key k ≠ render_key k') as Hne by (intros k' Hwk' Hn; by apply render_key_ne).
  unfold recovery_touched, unack_touched, group_touched, registration_touched. cbn [fmap list_fmap].
  rewrite !not_elem_of_app, !not_elem_of_cons. split_and!; try apply not_elem_of_nil.
  - apply (Hne (KRequeued K)); [wf_parts|by intros ->].
  - apply (Hne (KDeadLetter K)); [wf_parts|by intros ->].
  - apply (Hne (KProperties K)); [wf_parts|by intros ->].
  - apply (Hne (KConsumerProcessing K c)); [wf_parts|by intros ->].
  - rewrite list_elem_of_bind. intros (id & H & Hid). pose proof (Hids id Hid) as Hn.
    rewrite !elem_of_cons in H. destruct_or! H; [..|by apply elem_of_nil in H]; contradict H.
    + apply (Hne (KMessage id)); [wf_parts|by intros ->].
    + apply (Hne (KMessageHistory id)); [wf_parts|by intros ->].
  - apply (Hne (KConsumerGroups K)); [wf_parts|by intros ->].
  - apply (Hne (KPendingWithGroup K (ephemeralGroupID c))); [wf_parts|by intros ->].
  - apply (Hne (KPriorityWithGroup K (ephemeralGroupID c))); [wf_parts|by intros ->].
  - apply (Hne (KConsumerGroupMembers K (ephemeralGroupID c))); [wf_parts|intros ->; by destruct Hcase].
  - apply (Hne (KProcessingQueues K)); [wf_parts|by intros ->].
  - apply (Hne (KConsumerProcessing K c)); [wf_parts|by intros ->].
  - apply (Hne (KConsumers K)); [wf_parts|by intros ->].
  - apply (Hne (KConsumerQueues c)); [wf_parts|by intros ->].
  - apply (Hne (KConsumerGroupMembers K (ephemeralGroupID c))); [wf_parts|intros ->; by destruct Hcase].
  - apply (Hne (KConsumerGroupMembers K "")); [wf_parts|intros ->; by destruct Hcase].
Qed.

Lemma load_same s s' id : db s' !! Message id = db s !! Message id → load s' id = load s id.
Proof.
  intros E. unfold load_message, cmd_hgetall, with_view. rewrite E. by destruct (as_hash _).
Qed.

Lemma processing_ids s a c id :
  accounts_of K s a → recoverable s a c → id ∈ processing s c → no_colon id = true.
Proof.
  intros Ha [_ Hr] Hid. destruct (Hr id Hid) as (E & _). by apply (mo_status _ _ _ (proj1 Ha)) in E as (? & _).
Qed.

Section next.
Context (c : string) (s s1 : store) (a : accounts).
Context (Hc : no_colon c = true) (Ha : accounts_of K s a) (Hrec : recoverable s a c).
Context (Hcr : consumer_recovered c s s1 a).

Lemma next_processing c' : no_colon c' = true → c' ≠ c → processing s1 c' = processing s c'.
Proof using All.
  intros Hc' Hne. unfold lst. pose proof Hqok as [Hq _].
  pose proof (cr_frame _ _ _ _ Hcr (render_key (KConsumerProcessing K c'))) as E. cbn [render_key] in E.
  rewrite E; [done|]. apply (untouched (KConsumerProcessing K c')); [wf_parts|done| |done].
  intros id Hid. by eapply processing_ids.
Qed.

Lemma next_message id : no_colon id = true → id ∉ processing s c → db s1 !! Message id = db s !! Message id.
Proof using All.
  intros Hn Hid. pose proof (cr_frame _ _ _ _ Hcr (render_key (KMessage id))) as E. cbn [render_key] in E.
  apply E. apply (untouched (KMessage id)); [wf_parts|done| |done]. intros i Hi. by eapply processing_ids.
Qed.

Lemma next_recoverable c' :
  no_colon c' = true → c' ≠ c → recoverable s a c' → (∀ id, id ∈ processing s c' → id ∉ processing s c) →
  recoverable s1 (recovered s (processing s c) a) c'.
Proof using All.
  intros Hc' Hne [Hnd Hr] Hdis. unfold recoverable. rewrite next_processing by done. split; [done|].
  intros id Hid. destruct (Hr id Hid) as (H1 & H2 & e & H3 & H4).
  assert (db s1 !! Message id = db s !! Message id) as E.
  { apply next_message; [|by apply Hdis]. by apply (mo_status _ _ _ (proj1 Ha)) in H1 as (? & _). }
  rewrite recovered_other by by apply Hdis. split; [done|]. split; [unfold hsh; by rewrite E|].
  exists e. by rewrite (load_same s s1).
Qed.

Lemma next_refused : refused s1 K = refused s K.
Proof using Hcr. unfold refused, op_state. by rewrite (cr_fields _ _ _ _ Hcr Q_OperationalState). Qed.

Lemma next_small : small a → small (recovered s (processing s c) a).
Proof using Hrec.
  unfold small. rewrite recovered_size; [done|]. intros id Hid. destruct Hrec as [_ Hr].
  destruct (Hr id Hid) as (E & _). by eexists.
Qed.
End next.

Definition reap_loop (alive : string → bool) (cs : list string) (s : store) : store :=
  foldl (λ s c, if alive c then s else recoverConsumer cfg defaults uuid uuid' now rnow q c s) s cs.

Definition dead_of (alive : string → bool) (cs : list string) : list string := filter (λ c, alive c = false) cs.

Lemma reap_loop_run alive ty cs : ∀ s a,
  NoDup cs → (∀ c, c ∈ cs → no_colon c = true) → accounts_of K s a → small a →
  hsh s (Properties K) !! qkey Q_Type = Some ty → refused s K = None →
  (∀ c, c ∈ dead_of alive cs → recoverable s a c) →
  (∀ c c' id, c ∈ dead_of alive cs → c' ∈ dead_of alive cs → id ∈ processing s c → id ∈ processing s c' → c = c') →
  let s' := reap_loop alive cs s in
  (∃ a', accounts_of K s' a' ∧
     ∀ id, a' !! id = if decide (id ∈ dead_of alive cs ≫= λ c, processing s c) then Some (recovered_status s id) else a !! id) ∧
  (∀ c, c ∈ dead_of alive cs → processing s' c = []) ∧
  (∀ c, no_colon c = true → c ∉ dead_of alive cs → processing s' c = processing s c) ∧
  (∀ c, no_colon c = true → registered s' q c ↔ (c ∉ dead_of alive cs) ∧ registered s q c).
Proof using Hqok Hcfg.
  induction cs as [|c cs IH]; intros s a Hnd Hcol Ha Hsm Hty Hst Hrec Hdis s'.
  { split; [exists a; split; [done|]; intros id; by rewrite decide_False by apply not_elem_of_nil|].
    split; [by intros c ?%elem_of_nil|]. split; [done|]. intros c _. split; [|by intros [_ ?]].
    intros H. split; [apply not_elem_of_nil|done]. }
  apply NoDup_cons in Hnd as [Hin Hnd]. assert (no_colon c = true) as Hc by (apply Hcol; left).
  unfold s'. cbn [reap_loop foldl]. fold (reap_loop alive cs). unfold dead_of in *. rewrite filter_cons in *.
  destruct (alive c) eqn:Eal.
  { rewrite (decide_False (P := true = false)) in * by done.
    apply (IH s a Hnd); [intros; apply Hcol; by right|done..]. }
  rewrite (decide_True (P := false = false)) in * by done.
  assert (recoverable s a c) as Hrc by (apply Hrec; left).
  pose proof (recovery_run c s a ty Hc Ha Hsm Hrc Hty Hst) as Hcr.
  set (s1 := recoverConsumer cfg defaults uuid uuid' now rnow q c s) in *. clearbody s1.
  set (a1 := recovered s (processing s c) a) in *.
  set (dead := filter (λ c, alive c = false) cs) in *.
  assert (∀ c', c' ∈ dead → c' ≠ c ∧ no_colon c' = true ∧ recoverable s a c' ∧
            ∀ id, id ∈ processing s c' → id ∉ processing s c) as Hd.
  { intros c' Hc'. pose proof Hc' as [_ Hcs]%list_elem_of_filter. assert (c' ≠ c) as Hne by (intros ->; by apply Hin).
    split; [done|]. split; [apply Hcol; by right|]. split; [apply Hrec; by right|].
    intros id H1 H2. apply Hne. eapply Hdis; [by right|left|exact H1|exact H2]. }
  assert (∀ c', c' ∈ dead → processing s1 c' = processing s c') as Hpr.
  { intros c' Hc'. destruct (Hd c' Hc') as (? & ? & _). by apply (next_processing c s s1 a). }
  destruct (IH s1 a1) as ((a' & Ha' & Hlk) & H2 & H3 & H4); clear IH.
  - done.
  - intros; apply Hcol; by right.
  - apply Hcr.
  - by apply next_small.
  - by rewrite (cr_fields _ _ _ _ Hcr Q_Type).
  - by rewrite (next_refused c s s1 a Hcr).
  - intros c' Hc'. destruct (Hd c' Hc') as (? & ? & ? & ?). by apply (next_recoverable c s s1 a).
  - intros c1 c2 id Hc1 Hc2. rewrite (Hpr c1 Hc1), (Hpr c2 Hc2). apply Hdis; by right.
  - split; [|split; [|split]].
    + exists a'. split; [done|]. intros id. rewrite Hlk, bind_cons.
      assert (id ∈ dead ≫= (λ c, processing s1 c) ↔ id ∈ dead ≫= (λ c, processing s c)) as Heq.
      { rewrite !list_elem_of_bind. split; intros (c' & H & Hc'); exists c'; by rewrite (Hpr c' Hc') in *. }
      destruct (decide (id ∈ dead ≫= (λ c, processing s1 c))) as [Hid|Hid]; apply Heq in Hid || rewrite Heq in Hid.
      * rewrite decide_True by (apply elem_of_app; by right). f_equal. unfold recovered_status.
        apply list_elem_of_bind in Hid as (c' & Hid & Hc'). destruct (Hd c' Hc') as (_ & _ & Hr & Hn).
        rewrite (load_same s s1); [done|]. apply (next_message c s s1 a); [done..| |by apply Hn].
        by apply (processing_ids s a c' id).
      * destruct (decide (id ∈ processing s c)) as [Hp|Hp].
        -- rewrite decide_True by (apply elem_of_app; by left). by apply recovered_in.
        -- rewrite decide_False by (rewrite elem_of_app; tauto). by apply recovered_other.
    + intros c' [->|Hc']%elem_of_cons; [|by apply H2]. rewrite H3; [apply Hcr|done|].
      intros [_ ?]%list_elem_of_filter. by apply Hin.
    + intros c' Hn [Hne Hnd']%not_elem_of_cons. rewrite H3 by done. by apply (next_processing c s s1 a).
    + intros c' Hn. rewrite H4 by done. rewrite (cr_registered _ _ _ _ Hcr c' Hn), not_elem_of_cons. tauto.
Qed.
End recovery.

(** ** Heartbeats *)

Lemma IsAlive_key c s : IsAlive c s = bool_decide (is_Some (db s !! ConsumerHeartbeat c)).
Proof. unfold IsAlive, cmd_exists. done. Qed.

Lemma AreAlive_lookup ids s :
  wt s → (∀ c, c ∈ ids → no_colon c = true) →
  ∃ m, AreAlive ids s = inr m ∧ ∀ c, c ∈ ids → m !! c = Some (IsAlive c s).
Proof.
  intros Hw Hcol. unfold AreAlive. case_decide; [exists ∅; subst; split; [done|]; by intros c ?%elem_of_nil|].
  cbn [cmd_mget fst]. eexists. split; [reflexivity|].
  assert (∀ c, c ∈ ids →
    bool_decide (is_Some (match db s !! ConsumerHeartbeat c with Some (VStr v) => Some v | _ => None end)) = IsAlive c s) as Hv.
  { intros c Hc. rewrite IsAlive_key. pose proof (Hcol c Hc) as Hn. pose proof (Hw (KConsumerHeartbeat c)) as Ht.
    cbn [render_key key_type] in Ht. destruct Ht as [o Ho]; [wf_parts|].
    destruct (db s !! ConsumerHeartbeat c) as [[]|]; done. }
  intros c Hc. clear H. 
  assert (∀ (acc : gmap string bool), c ∈ ids ∨ acc !! c = Some (IsAlive c s) →
    foldl (λ result cv, <[cv.1:=bool_decide (is_Some cv.2)]> result) acc
      (zip ids ((λ k, match db s !! k with Some (VStr v) => Some v | _ => None end) <$> (ConsumerHeartbeat <$> ids))) !! c
    = Some (IsAlive c s)) as Hf; [|by apply Hf; left].
  clear Hc Hcol. induction ids as [|i ids IH]; intros acc Hacc; cbn [fmap list_fmap zip zip_with foldl].
  - by destruct Hacc as [?%elem_of_nil|?].
  - apply IH; [intros; apply Hv; by right|]. destruct (decide (c ∈ ids)); [by left|right]. cbn [fst snd].
    rewrite (Hv i) by left. destruct (decide (c = i)) as [->|Hne]; [apply lookup_insert_eq|].
    rewrite lookup_insert_ne by done. destruct Hacc as [[?|?]%elem_of_cons|?]; done.
Qed.

(** ** Properties *)

(** A consumer the reaper takes for dead. *)
Definition dead (self : string) (q : QParams) (s : store) (c : string) : Prop :=
  registered s q c ∧ c ≠ self ∧ IsAlive c s = false.

Definition consumers_of (q : QParams) (s : store) : list string := (map_to_list (hsh s (Consumers (queue_keys_of q)))).*1.

Lemma elem_of_consumers q s c : c ∈ consumers_of q s ↔ registered s q c.
Proof.
  unfold consumers_of, registered. rewrite list_elem_of_fmap. split.
  - intros ([c' v] & -> & H%elem_of_map_to_list). by eexists.
  - intros [v H]. exists (c, v). split; [done|]. by apply elem_of_map_to_list.
Qed.

Lemma reap_run cfg defaults uuid uuid' now rnow self q s :
  wt s → queue_ok q → (∀ c, registered s q c → no_colon c = true) →
  ∃ alive cs, reap cfg defaults uuid uuid' now rnow self q s = reap_loop cfg defaults uuid uuid' now rnow q alive cs s ∧
    NoDup cs ∧ (∀ c, c ∈ cs → no_colon c = true) ∧ ∀ c, c ∈ dead_of alive cs ↔ dead self q s c.
Proof.
  intros Hw [Hq _] Hcol. unfold reap, cmd_hkeys. rewrite with_hash_run by wt_view. cbn [mret M_ret].
  fold (consumers_of q s). set (others := filter (λ cid, cid ≠ self) (consumers_of q s)).
  assert (∀ c, c ∈ others ↔ c ≠ self ∧ registered s q c) as Ho.
  { intros c. unfold others. by rewrite list_elem_of_filter, elem_of_consumers. }
  assert (NoDup others) as Hnd by (apply NoDup_filter, NoDup_fst_map_to_list).
  assert (∀ c, c ∈ others → no_colon c = true) as Hoc by (intros c [_ ?]%Ho; by apply Hcol).
  assert (∀ alive, (∀ c, c ∈ others → alive c = IsAlive c s) → ∀ c, c ∈ dead_of alive others ↔ dead self q s c) as Hd.
  { intros alive Hal c. unfold dead_of, dead. rewrite list_elem_of_filter. split.
    - intros [H1 H2]. rewrite <-(Hal c H2). apply Ho in H2 as [? ?]. done.
    - intros (H1 & H2 & H3). assert (c ∈ others) as Hc by by apply Ho. by rewrite Hal. }
  case_decide as He.
  - exists (λ c, IsAlive c s), []. split; [done|]. split; [constructor|]. split; [by intros c ?%elem_of_nil|].
    intros c. rewrite <-(Hd (λ c, IsAlive c s)) by done. by rewrite He.
  - destruct (AreAlive_lookup others s Hw Hoc) as (m & -> & Hm).
    exists (λ c, default false (m !! c)), others. split; [done|]. split; [done|]. split; [done|].
    apply Hd. intros c Hc. by rewrite (Hm c Hc).
Qed.

(** C15: a tick of the reaper on an open queue (neither stopped nor locked), whose
    dead consumers crashed after checking out the messages on their processing
    lists ([recoverable]: each is in processing, can be loaded and is listed
    once).  Every consumer of the queue without a heartbeat is taken off the
    queue with an empty processing list; every message it was processing is
    dead-lettered or requeued, as the decision for a lost consumer says, and the
    counters follow; the consumers that are alive keep their registration and
    their messages, and no other message changes its status.  Neither condition
    can be dropped: on a closed queue the unacknowledgement is refused and the
    messages stay where they are ([closed_queue_keeps_messages]), and a message
    that was popped and not checked out is counted as if it had been
    ([recovery_of_popped_message_miscounts] in Lifecycle.v). *)
Theorem reap_correct cfg defaults uuid uuid' now rnow self q s a ty :
  queue_ok q → audit_ok (DeadLetteredMessages (cfg_MessageAudit cfg)) →
  accounts_of (queue_keys_of q) s a → small a →
  hsh s (Properties (queue_keys_of q)) !! qkey Q_Type = Some ty → refused s (queue_keys_of q) = None →
  (∀ c, registered s q c → no_colon c = true) →
  (∀ c, dead self q s c → recoverable defaults uuid uuid' now q s a c) →
  (∀ c c' id, dead self q s c → dead self q s c' →
     id ∈ lst s (ConsumerProcessing (queue_keys_of q) c) → id ∈ lst s (ConsumerProcessing (queue_keys_of q) c') → c = c') →
  let s' := reap cfg defaults uuid uuid' now rnow self q s in
  (∀ c, dead self q s c → ¬ registered s' q c ∧ lst s' (ConsumerProcessing (queue_keys_of q) c) = []) ∧
  (∀ c, no_colon c = true → ¬ dead self q s c →
     (registered s' q c ↔ registered s q c) ∧
     lst s' (ConsumerProcessing (queue_keys_of q) c) = lst s (ConsumerProcessing (queue_keys_of q) c)) ∧
  ∃ a', accounts_of (queue_keys_of q) s' a' ∧
    (∀ id c, dead self q s c → id ∈ lst s (ConsumerProcessing (queue_keys_of q) c) →
       ∃ e, load_message defaults uuid uuid' now s id = Some e ∧
         a' !! id = Some (unack_target now {| ue_Message := e; ue_Cause := CauseOfflineConsumer |})) ∧
    (∀ id, (∀ c, dead self q s c → id ∉ lst s (ConsumerProcessing (queue_keys_of q) c)) → a' !! id = a !! id).
Proof.
  intros Hq Hcfg Ha Hsm Hty Hst Hcol Hrec Hdis s'. pose proof (mo_wt _ _ _ (proj1 Ha)) as Hw.
  destruct (reap_run cfg defaults uuid uuid' now rnow self q s Hw Hq Hcol) as (alive & cs & Er & Hnd & Hcs & Hd).
  destruct (reap_loop_run cfg defaults uuid uuid' now rnow q Hq Hcfg alive ty cs s a Hnd Hcs Ha Hsm Hty Hst)
    as ((a' & Ha' & Hlk) & H2 & H3 & H4).
  { intros c ?%Hd. by apply Hrec. }
  { intros c c' id H1%Hd H2%Hd. by apply Hdis. }
  unfold s'. rewrite Er. clear Er s'. split; [|split].
  - intros c Hc. split; [|by apply H2, Hd]. rewrite H4 by (apply Hcol, Hc). intros [Hn _]. by apply Hn, Hd.
  - intros c Hn Hc. rewrite <-Hd in Hc. split; [rewrite H4 by done; tauto|by apply H3].
  - exists a'. split; [done|]. split.
    + intros id c Hc Hid. destruct (Hrec c Hc) as [_ Hr]. destruct (Hr id Hid) as (_ & _ & e & He & _). exists e. split; [done|].
      rewrite Hlk, decide_True by (apply list_elem_of_bind; exists c; split; [done|by apply Hd]).
      unfold recovered_status. by rewrite He.
    + intros id Hid. rewrite Hlk, decide_False; [done|]. rewrite list_elem_of_bind. intros (c & Hin & Hc).
      by apply (Hid c); [apply Hd|].
Qed.

(** ** What the reaper leaves behind *)

(** On a stopped or locked queue a dead consumer that was processing messages is
    not recovered: the unacknowledgement is refused, and a consumer with a
    processing list is not unsubscribed.  Nothing changes until the queue is
    open again. *)
Theorem closed_queue_keeps_messages cfg defaults uuid uuid' now rnow q c s reply :
  wt s → queue_ok q → no_colon c = true → is_Some (db s !! Properties (queue_keys_of q)) →
  refused s (queue_keys_of q) = Some reply → lst s (ConsumerProcessing (queue_keys_of q) c) ≠ [] →
  (ephemeralGroupID c ∉ sts s (ConsumerGroups (queue_keys_of q))) →
  recoverConsumer cfg defaults uuid uuid' now rnow q c s = s.
Proof.
  intros Hw [Hq _] Hc Hex Hr Hl Hg. unfold recoverConsumer. cbv zeta.
  assert ((UnacknowledgeProcessingQueue cfg defaults uuid uuid' now rnow (queue_keys_of q) c CauseOfflineConsumer s).2 = s) as ->.
  { unfold UnacknowledgeProcessingQueue. destruct (cmd_lrange_all _ s) as [[[|i l]|] ?]; [done| |done].
    unfold UnacknowledgeBatch. destruct (_ <$> _) as [|e es]; [done|]. unfold buildBatchLuaArgs.
    by rewrite (unacknowledge_refused _ _ _ _ _ _ _ _ reply). }
  unfold cmd_sismember. rewrite with_set_run by wt_view. cbn [mret M_ret]. rewrite bool_decide_eq_false_2 by done.
  rewrite (unsubscribe_run c q "" s Hw Hq Hc eq_refl). by rewrite decide_True, decide_False by done.
Qed.

Section leftovers.
Context (cfg : ConfigRec) (defaults : ConsumeOptions) (uuid uuid' : string) (now rnow : Z).
Context (q : QParams) (Hqok : queue_ok q).
Context (Hcfg : audit_ok (DeadLetteredMessages (cfg_MessageAudit cfg))).
Context (c : string) (s : store) (a : accounts) (ty : string).
Context (Hc : no_colon c = true) (Ha : accounts_of (queue_keys_of q) s a) (Hsm : small a).
Context (Hrec : recoverable defaults uuid uuid' now q s a c).
Context (Hty : hsh s (Properties (queue_keys_of q)) !! qkey Q_Type = Some ty).
Context (Hst : refused s (queue_keys_of q) = None).

#[local] Abbreviation K := (queue_keys_of q).

(** A group with a member is not deleted. *)
Lemma delete_group_refused c' g s1 :
  wt s1 → no_colon g = true → g ≠ "" → c ∈ sts s1 (ConsumerGroupMembers K g) →
  (DeleteEphemeralConsumerGroup c' q g s1).2 = s1.
Proof using Hqok.
  intros Hw Hg Hne Hin. destruct Hqok as [Hq _]. unfold DeleteEphemeralConsumerGroup. rewrite decide_False by done.
  rewrite eval_state. unfold delete_consumer_group, ephemeral_keys. cbn [arg nth Nat.sub]. run_cmd hmget_run.
  destruct (reply_at _ 1); [|done]. destruct (lock_check _ _ _ _); [done|]. case_decide; [done|].
  run_cmd scard_run. rewrite decide_True; [done|].
  assert (size (sts s1 (ConsumerGroupMembers K g)) ≠ 0%nat); [|lia].
  intros E%size_empty_inv. by apply (E c) in Hin.
Qed.

Lemma unack_keeps_set k :
  wf_key k → match k with KConsumerGroups _ | KConsumerGroupMembers _ _ => True | _ => False end →
  db (UnacknowledgeProcessingQueue cfg defaults uuid uuid' now rnow K c CauseOfflineConsumer s).2 !! render_key k
  = db s !! render_key k.
Proof using All.
  intros Hk Hcase. destruct (unack_recovers cfg defaults uuid uuid' now rnow q Hqok Hcfg c s a Hc Ha Hsm Hrec
    (properties_exist q s ty Hty) Hst) as [_ _ _ Hf]. apply Hf. destruct Hqok as [Hq _].
  assert (∀ k', wf_key k' → k ≠ k' → render_key k ≠ render_key k') as Hne by (intros k' Hwk' Hn; by apply render_key_ne).
  unfold unack_touched. rewrite not_elem_of_app, !not_elem_of_cons. split_and!; try apply not_elem_of_nil.
  - apply (Hne (KRequeued K)); [wf_parts|by intros ->].
  - apply (Hne (KDeadLetter K)); [wf_parts|by intros ->].
  - apply (Hne (KProperties K)); [wf_parts|by intros ->].
  - apply (Hne (KConsumerProcessing K c)); [wf_parts|by intros ->].
  - rewrite list_elem_of_bind. intros (id & H & Hid).
    assert (no_colon id = true) as Hn by by apply (processing_ids defaults uuid uuid' now q s a c).
    rewrite !elem_of_cons in H. destruct_or! H; [..|by apply elem_of_nil in H]; contradict H.
    + apply (Hne (KMessage id)); [wf_parts|by intros ->].
    + apply (Hne (KMessageHistory id)); [wf_parts|by intros ->].
Qed.

Lemma ephemeral_group_stays :
  ephemeralGroupID c ∈ sts s (ConsumerGroups K) → c ∈ sts s (ConsumerGroupMembers K (ephemeralGroupID c)) →
  ephemeralGroupID c ∈ sts (recoverConsumer cfg defaults uuid uuid' now rnow q c s) (ConsumerGroups K).
Proof using All.
  intros Hg Hm. set (g := ephemeralGroupID c) in *. assert (no_colon g = true) as Hgc by by apply ephemeral_colon.
  destruct (unack_recovers cfg defaults uuid uuid' now rnow q Hqok Hcfg c s a Hc Ha Hsm Hrec
    (properties_exist q s ty Hty) Hst) as [Ha1 _ _ _].
  pose proof (unack_keeps_set (KConsumerGroups K)) as E1. pose proof (unack_keeps_set (KConsumerGroupMembers K g)) as E2.
  cbn [render_key] in E1, E2. unfold recoverConsumer. cbv zeta. pose proof Hqok as [Hq _].
  set (s1 := (UnacknowledgeProcessingQueue _ _ _ _ _ _ _ _ _ s).2) in *. clearbody s1.
  pose proof (mo_wt _ _ _ (proj1 Ha1)) as Hw1.
  assert (sts s1 (ConsumerGroups K) = sts s (ConsumerGroups K)) as Eg by (unfold sts; rewrite E1; [done|wf_parts|done]).
  unfold cmd_sismember. rewrite with_set_run by wt_view. cbn [mret M_ret].
  rewrite bool_decide_eq_true_2 by by rewrite Eg. fold g.
  rewrite (delete_group_refused c g s1); [|done|done|done|unfold sts; rewrite E2; [done|wf_parts|done]].
  unfold sts at 1. rewrite unsubscribe_frame; [by rewrite <-Eg in Hg|].
  unfold registration_touched. cbn [app fmap list_fmap]. rewrite !not_elem_of_cons. split_and!; [key_ne..|apply not_elem_of_nil].
Qed.
End leftovers.

(** The group of a dead consumer that had one of its own is not deleted.
    The reaper deletes the group before it takes the consumer out of it, which
    the script refuses as long as the group has a member; afterwards the
    consumer is no longer registered, so that no later tick tries again, and
    the producers go on filling the group. *)
Theorem reaper_keeps_ephemeral_group cfg defaults uuid uuid' now rnow q c s a ty :
  queue_ok q → audit_ok (DeadLetteredMessages (cfg_MessageAudit cfg)) → no_colon c = true →
  accounts_of (queue_keys_of q) s a → small a → recoverable defaults uuid uuid' now q s a c →
  hsh s (Properties (queue_keys_of q)) !! qkey Q_Type = Some ty → refused s (queue_keys_of q) = None →
  ephemeralGroupID c ∈ sts s (ConsumerGroups (queue_keys_of q)) →
  c ∈ sts s (ConsumerGroupMembers (queue_keys_of q) (ephemeralGroupID c)) →
  let s' := recoverConsumer cfg defaults uuid uuid' now rnow q c s in
  ephemeralGroupID c ∈ sts s' (ConsumerGroups (queue_keys_of q)) ∧ ¬ registered s' q c.
Proof.
  intros Hq Hcfg Hc Ha Hsm Hrec Hty Hst Hg Hm s'. split.
  - by apply (ephemeral_group_stays cfg defaults uuid uuid' now rnow q Hq Hcfg c s a ty).
  - pose proof (recovery_run cfg defaults uuid uuid' now rnow q Hq Hcfg c s a ty Hc Ha Hsm Hrec Hty Hst) as Hr.
    unfold s'. rewrite (cr_registered _ _ _ _ _ _ _ _ _ Hr c Hc). tauto.
Qed.

(** A dead consumer of a group that was asked for stays a member of it: it is
    unsubscribed without a group, and the group can no longer be deleted. *)
Theorem reaper_keeps_group_member cfg defaults uuid uuid' now rnow q c g s a ty :
  queue_ok q → audit_ok (DeadLetteredMessages (cfg_MessageAudit cfg)) → no_colon c = true → no_colon g = true →
  accounts_of (queue_keys_of q) s a → small a → recoverable defaults uuid uuid' now q s a c →
  hsh s (Properties (queue_keys_of q)) !! qkey Q_Type = Some ty → refused s (queue_keys_of q) = None →
  g ≠ "" → g ≠ ephemeralGroupID c → c ∈ sts s (ConsumerGroupMembers (queue_keys_of q) g) →
  let s' := recoverConsumer cfg defaults uuid uuid' now rnow q c s in
  ¬ registered s' q c ∧ c ∈ sts s' (ConsumerGroupMembers (queue_keys_of q) g) ∧ (DeleteGroup q g s').1 ≠ inr tt.
Proof.
  intros Hq Hcfg Hc Hg Ha Hsm Hrec Hty Hst Hne Hng Hm s'. pose proof Hq as [Hwq _].
  pose proof (recovery_run cfg defaults uuid uuid' now rnow q Hq Hcfg c s a ty Hc Ha Hsm Hrec Hty Hst) as Hr.
  fold s' in Hr. split; [rewrite (cr_registered _ _ _ _ _ _ _ _ _ Hr c Hc); tauto|].
  assert (c ∈ sts s' (ConsumerGroupMembers (queue_keys_of q) g)) as Hm'.
  { unfold sts. pose proof (cr_frame _ _ _ _ _ _ _ _ _ Hr (render_key (KConsumerGroupMembers (queue_keys_of q) g))) as E.
    cbn [render_key] in E. rewrite E; [exact Hm|].
    apply (untouched q Hq (KConsumerGroupMembers (queue_keys_of q) g)); [wf_parts|done| |done].
    intros id Hid. by apply (processing_ids defaults uuid uuid' now q s a c). }
  split; [done|]. pose proof (mo_wt _ _ _ (proj1 (cr_accounts _ _ _ _ _ _ _ _ _ Hr))) as Hw. fold s' in Hw. clearbody s'.
  unfold DeleteGroup, eval, delete_consumer_group, group_keys. cbn [arg nth Nat.sub]. run_cmd hmget_run.
  destruct (reply_at _ 1); [|done]. destruct (lock_check _ _ _ _) as [r|] eqn:El; [|].
  { unfold lock_check in El. repeat case_decide; simplify_eq; done. }
  case_decide; [done|]. run_cmd scard_run. rewrite decide_True; [done|].
  assert (size (sts s' (ConsumerGroupMembers (queue_keys_of q) g)) ≠ 0%nat); [|lia].
  intros E%size_empty_inv. by apply (E c) in Hm'.
Qed.

(** ** Orphaned locks *)

Definition orphan_opts (lockID : string) : option StateTransitionOptions :=
  Some {| opt_Reason := None; opt_Description := None; opt_LockID := Some lockID; opt_Owner := None; opt_Metadata := None |}.

Lemma orphan_saves now q lockID s :
  orphan_unlockQueue now q lockID s =
  (saveState now q (Some StateLocked) StateActive ReasonPurgeComplete (orphan_opts lockID) s).2.
Proof.
  unfold orphan_unlockQueue, saveState. cbv zeta.
  change (newTransition now (Some StateLocked) StateActive ReasonPurgeComplete (orphan_opts lockID))
    with (orphan_transition now lockID).
  change (state_args (orphan_transition now lockID) (Some StateLocked) StateActive (orphan_opts lockID)) with
    [qkey Q_OperationalState; itoa StateActive; marshal_transition (orphan_transition now lockID); itoa StateLocked;
     itoa StateActive; itoa maxHistorySize; itoa StateLocked; lockID; qkey Q_LastStateChangeAt; itoa (UnixMilli now); qkey Q_LockID].
  change (itoa maxHistorySize) with "100". by destruct (set_queue_state _ _ s) as [[?|?] ?].
Qed.

(** The recoverer opens a locked queue exactly when a purge job holds it whose
    worker does not answer; nothing else changes. *)
Theorem orphan_recover_correct now q s owner id :
  wf_queue (queue_keys_of q) → id ≠ "" → locked_by (queue_keys_of q) s owner id →
  let s' := orphan_recover now q s in
  if decide (owner = LockOwnerPurgeJob ∧ IsWorkerAlive id s = false) then
    op_state s' (queue_keys_of q) = itoa StateActive ∧ lock_field s' (queue_keys_of q) = "" ∧
    ∀ k, k ≠ Properties (queue_keys_of q) → k ≠ StateHistory (queue_keys_of q) → db s' !! k = db s !! k
  else s' = s.
Proof.
  intros Hq Hid Hl s'. unfold s', orphan_recover. cbv zeta.
  destruct (locked_fetch _ s owner id Hq Hl now) as (t & -> & Ht & Ho & Hi).
  rewrite (decide_False (P := To t ≠ StateLocked)) by (by rewrite Ht; intros H; apply H).
  rewrite Ho, Hi. cbn [default from_option Datatypes.id].
  destruct (decide (owner = LockOwnerPurgeJob)) as [->|Hne].
  - rewrite (decide_False (P := Some LockOwnerPurgeJob ≠ _)) by (intros H; by apply H).
    rewrite (decide_False (P := id = "")) by done. destruct (IsWorkerAlive id s).
    + by rewrite (decide_False (P := _ ∧ true = false)) by (by intros [_ ?]).
    + rewrite decide_True by done. rewrite orphan_saves.
      destruct (locked_unlocks _ s _ id Hq Hid Hl now ReasonPurgeComplete (orphan_opts id)) as (s2 & -> & Hs & H1 & H2); [done|].
      cbn [snd]. split; [done|]. split; [done|]. apply Hs.
  - rewrite (decide_True (P := Some owner ≠ _)) by (intros [= ?]; done).
    by rewrite (decide_False (P := owner = _ ∧ _)) by (by intros [? _]).
Qed.

(** A purge that waits for a worker loses its lock.  The recoverer takes a
    job without a worker key for a job whose worker died, which is every job
    that no worker has taken yet: the queue is active and unlocked again while
    the job is still pending and will be carried out. *)
Theorem recoverer_unlocks_waiting_purge env cfg now now' jobID q f s s1 :
  wf_queue (queue_keys_of q) → state_ok (queue_keys_of q) s → jobs_ok s → no_colon jobID = true →
  hsh s PurgeJobs !! jobID = None → in_int64 (UnixMilli now) → in_int64 f →
  Enqueue env cfg now jobID (Some q) f s = (inr jobID, s1) → db s1 !! JobWorker jobID = None →
  let s2 := orphan_recover now' q s1 in
  op_state s1 (queue_keys_of q) = itoa StateLocked ∧
  op_state s2 (queue_keys_of q) = itoa StateActive ∧ lock_field s2 (queue_keys_of q) = "" ∧
  GetJob jobID s2 = inr (newPurgeJob now jobID (Some q) f) ∧ jobID ∈ lst s2 PendingPurgeJobs.
Proof.
  intros Hq Hok Hj Hid Hfresh Hnow Hf Henq Hwk s2.
  destruct (enqueue_cases env cfg now jobID (Some q) f s Hq Hok Hj Hid Hfresh Hnow Hf) as [[e E]|(s1' & E & H)];
    rewrite E in Henq; [done|]. injection Henq as ->.
  pose proof (eq_lock _ _ _ _ _ _ H) as Hl. pose proof (eq_id _ _ _ _ _ _ H) as Hne.
  assert (IsWorkerAlive jobID s1 = false) as Hw.
  { unfold IsWorkerAlive, cmd_get, with_view. by rewrite Hwk. }
  pose proof (orphan_recover_correct now' q s1 LockOwnerPurgeJob jobID Hq Hne Hl) as Ho. cbv zeta in Ho.
  rewrite decide_True in Ho by done. destruct Ho as (H1 & H2 & H3). fold s2 in H1, H2, H3.
  split; [by apply (locked_op _ s1 LockOwnerPurgeJob jobID Hq)|]. split; [done|]. split; [done|].
  assert (db s2 !! PurgeJobs = db s1 !! PurgeJobs) as E1 by (apply H3; key_ne).
  assert (db s2 !! PendingPurgeJobs = db s1 !! PendingPurgeJobs) as E2 by (apply H3; key_ne). split.
  - rewrite <-(eq_job _ _ _ _ _ _ H). unfold GetJob, cmd_hget, with_view. rewrite E1. by destruct (as_hash _).
  - unfold lst. rewrite E2. fold (lst s1 PendingPurgeJobs). rewrite (eq_pending _ _ _ _ _ _ H). left.
Qed.

(** ** Heartbeats over time

    Times are Redis's clock in milliseconds; keys past their time are gone. *)

Definition beats (h : Heartbeat) (ts : list Z) (s : store) : store :=
  foldl (λ s t, beat (t * 1000000) t h (expire_keys t s)) s ts.

(** Every time comes before the previous beat expires. *)
Fixpoint in_time (ttl : Z) (t : Z) (ts : list Z) : Prop :=
  match ts with
  | [] => True
  | t' :: ts => t ≤ t' < t + ttl ∧ in_time ttl t' ts
  end.

Definition last_beat (t : Z) (ts : list Z) : Z := List.last ts t.

(** The key is there until [until]. *)
Definition beating (id : string) (until : Z) (s : store) : Prop :=
  is_Some (db s !! ConsumerHeartbeat id) ∧ expires s !! ConsumerHeartbeat id = Some until.

Lemma beating_alive id until t s : beating id until s → IsAlive id (expire_keys t s) = bool_decide (t < until).
Proof.
  intros [[v Hv] He]. rewrite IsAlive_key. apply bool_decide_ext. unfold expire_keys. cbn [db].
  assert (alive t s (ConsumerHeartbeat id) = bool_decide (t < until)) as Hal by (unfold alive; by rewrite He).
  split.
  - intros [w Hw]. apply map_lookup_filter_Some in Hw as [_ Hw]. cbn in Hw. rewrite Hal in Hw. by apply bool_decide_eq_true in Hw.
  - intros Ht. exists v. apply map_lookup_filter_Some. split; [done|]. cbn. rewrite Hal. by apply bool_decide_eq_true.
Qed.

Lemma ttl_ms ttl : 1000000 ≤ ttl → Z.max 1 (Milliseconds ttl) = Milliseconds ttl.
Proof.
  intros H. unfold Milliseconds, millisecond. assert (1 ≤ Z.quot ttl 1000000); [|lia].
  rewrite Z.quot_div_nonneg by lia. apply Z.div_le_lower_bound; lia.
Qed.

Lemma set_beating rnow id v ttl s :
  1000000 ≤ ttl → beating id (rnow + Milliseconds ttl) (cmd_set_ttl rnow (ConsumerHeartbeat id) v ttl s).2.
Proof.
  intros H. unfold cmd_set_ttl, modify. cbn [snd]. split; cbn [db expires].
  - rewrite lookup_insert_eq. by eexists.
  - rewrite decide_True by lia. rewrite lookup_insert_eq. by rewrite ttl_ms.
Qed.

Lemma last_default (l : list Z) x d d' : List.last (x :: l) d = List.last (x :: l) d'.
Proof. revert x. induction l as [|y l IH]; intros x; [done|]. exact (IH y). Qed.

Lemma beats_beating h ts : ∀ t s,
  1000000 ≤ hb_ttl h → beating (hb_id h) (t + Milliseconds (hb_ttl h)) s →
  beating (hb_id h) (last_beat t ts + Milliseconds (hb_ttl h)) (beats h ts s).
Proof.
  unfold last_beat. induction ts as [|t' ts IH]; intros t s Ht Hb; [done|].
  assert (beating (hb_id h) (t' + Milliseconds (hb_ttl h)) (beat (t' * 1000000) t' h (expire_keys t' s))) as Hb'.
  { by apply set_beating. }
  specialize (IH t' _ Ht Hb'). cbn [beats foldl]. fold (beats h ts). destruct ts as [|t2 ts]; [exact IH|].
  change (List.last (t' :: t2 :: ts) t) with (List.last (t2 :: ts) t).
  by rewrite (last_default ts t2 t t').
Qed.

Lemma in_time_next ttl ts1 : ∀ t t' ts2,
  in_time ttl t (ts1 ++ t' :: ts2) → t' < last_beat t ts1 + ttl.
Proof.
  unfold last_beat. induction ts1 as [|x ts1 IH]; intros t t' ts2; cbn [app in_time]; [cbn; lia|].
  intros [_ H]. specialize (IH x t' ts2 H). destruct ts1; [exact IH|]. by rewrite (last_default _ _ t x).
Qed.

(** A consumer that registered with a lifetime of three seconds or more, and
    whose beats each come before the previous one expires (the ticker is less
    than two intervals late), is taken for alive from its registration on, at
    the time of each further beat too; when no more beats come, exactly until
    the last one expires. *)
Theorem heartbeat_tells_alive t0 id TTL ts1 ts2 t s :
  3 * second ≤ TTL → in_time (Milliseconds TTL) t0 (ts1 ++ ts2) →
  let h := NewHeartbeat id TTL in
  let until := last_beat t0 ts1 + Milliseconds TTL in
  IsAlive id (expire_keys t (beats h ts1 (register t0 id TTL s))) = bool_decide (t < until) ∧
  (∀ t' ts', ts2 = t' :: ts' → t' < until) ∧ hb_interval h * 3 ≤ TTL.
Proof.
  intros HT Hin h until. assert (hb_ttl h = TTL) as Eh by (unfold h, NewHeartbeat; cbn [hb_ttl]; by rewrite decide_False by lia).
  unfold second in HT. split; [|split].
  - pose proof (beats_beating h ts1 t0 (register t0 id TTL s)) as Hb. rewrite Eh in Hb. change (hb_id h) with id in Hb.
    apply beating_alive, Hb; [lia|]. apply set_beating. lia.
  - intros t' ts' ->. by eapply in_time_next.
  - unfold h, NewHeartbeat. cbn [hb_interval]. rewrite decide_False by (unfold second; lia).
    rewrite Z.quot_div_nonneg by lia. pose proof (Z.mul_div_le TTL 3). lia.
Qed.

(** A shorter lifetime is used as it is for the registration, and raised to
    three seconds for the beats, the first of which comes after one second:
    in between the consumer is taken for dead. *)
Theorem short_ttl_looks_dead t0 id TTL t s :
  1000000 ≤ TTL < second → t0 + Milliseconds TTL ≤ t →
  IsAlive id (expire_keys t (register t0 id TTL s)) = false ∧ hb_interval (NewHeartbeat id TTL) = second.
Proof.
  intros HT Ht. split.
  - rewrite (beating_alive id (t0 + Milliseconds TTL)) by (apply set_beating; lia). apply bool_decide_eq_false. lia.
  - unfold NewHeartbeat. cbn [hb_interval]. by rewrite decide_True by (unfold second in *; lia).
Qed.

(** ** Runs *)

Lemma subscribe_frame info c q g s k :
  k ∉ registration_touched q c [g] → db (SubscribeConsumer info c q g s).2 !! k = db s !! k.
Proof.
  intros Hk. unfold SubscribeConsumer. rewrite eval_state.
  assert (touches (registration_touched q c [g])
    (subscribe_consumer (consumer_keys q c g) [c; info; encode_queue q; "11"; itoa StateActive])) as Ht; [|by apply Ht].
  unfold subscribe_consumer, consumer_keys, if_group, registration_touched. cbn [arg nth Nat.sub app].
  clear. destruct (decide (g ≠ "")) as [Hg|Hg]; cbn [nth fmap list_fmap].
  - touches_auto; set_solver.
  - rewrite (bool_decide_eq_true_2 ("" = "")) by done. cbn [negb when]. touches_auto; set_solver.
Qed.

Lemma subscribe_accounts info c q g s a :
  queue_ok q → no_colon c = true → no_colon g = true → accounts_of (queue_keys_of q) s a →
  accounts_of (queue_keys_of q) (SubscribeConsumer info c q g s).2 a.
Proof.
  intros Hq Hc Hg Ha. pose proof (mo_wt _ _ _ (proj1 Ha)) as Hw.
  eapply (accounts_frame q Hq s _ a c g); [done| |done|done|].
  - rewrite subscribe_run by (done || apply Hq). repeat case_decide; try done. by apply subscribe_wt.
  - intros k _ Hk. apply subscribe_frame. by apply (registration_mono q c g).
Qed.

Lemma sample_params_ok : queue_ok sample_params.
Proof. split; [exact sample_queue_wf|done]. Qed.

(** Consumers c1, which is processing m1, and c2; only c2 has a heartbeat. *)
Definition one_dead : store :=
  register 9000 "c2" (60 * second)
    (SubscribeConsumer "{}" "c2" sample_params "" (SubscribeConsumer "{}" "c1" sample_params "" life_3).2).2.

Lemma register_accounts rnow c ttl q s a :
  queue_ok q → no_colon c = true → accounts_of (queue_keys_of q) s a → accounts_of (queue_keys_of q) (register rnow c ttl s) a.
Proof.
  intros [Hq _] Hc [Hm Hco]. assert (∀ k, k ≠ ConsumerHeartbeat c → db (register rnow c ttl s) !! k = db s !! k) as Hk.
  { intros k Hk. unfold register, cmd_set_ttl, modify. cbn [snd db]. by rewrite lookup_insert_ne. }
  assert (wt (register rnow c ttl s)) as Hw.
  { intros k Hwk. destruct (decide (k = KConsumerHeartbeat c)) as [->|Hne].
    - unfold register, cmd_set_ttl, modify. cbn [snd db render_key key_type]. rewrite lookup_insert_eq. by eexists.
    - rewrite Hk; [by apply Hm|]. apply (render_key_ne k (KConsumerHeartbeat c)); [done|wf_parts|done]. }
  apply (accounts_props (queue_keys_of q) s); [|unfold hsh; rewrite Hk by key_ne; done|done].
  apply (messages_frame (queue_keys_of q) s); [done|done|unfold lst; by rewrite Hk by key_ne| |
    unfold lst; by rewrite Hk by key_ne|unfold zst; by rewrite Hk by key_ne|unfold zst; by rewrite Hk by key_ne].
  intros id st Hid. destruct (mo_status _ _ _ Hm id st Hid) as (Hn & _). unfold hsh. by rewrite Hk by key_ne.
Qed.

Lemma one_dead_accounts : accounts_of sample_queue one_dead {["m1" := StatusProcessing]}.
Proof.
  apply (register_accounts 9000 "c2" _ sample_params _ _ sample_params_ok eq_refl).
  apply (subscribe_accounts "{}" "c2" sample_params "" _ _ sample_params_ok eq_refl eq_refl).
  apply (subscribe_accounts "{}" "c1" sample_params "" _ _ sample_params_ok eq_refl eq_refl). exact life_3_accounts.
Qed.

Lemma one_dead_consumers c : registered one_dead sample_params c → c = "c1" ∨ c = "c2".
Proof.
  intros [v Hv].
  assert (hsh one_dead (Consumers (queue_keys_of sample_params)) = {["c1" := "{}"; "c2" := "{}"]}) as E by (vm_compute; reflexivity).
  rewrite E in Hv. apply lookup_insert_Some in Hv as [[<- _]|[_ Hv]]; [by left|].
  apply lookup_singleton_Some in Hv as [<- _]. by right.
Qed.

Lemma one_dead_dead c : dead "c2" sample_params one_dead c → c = "c1".
Proof. intros (H1 & H2 & _). by destruct (one_dead_consumers c H1). Qed.

Definition dead_envelope : option Envelope := load_message DefaultConsumeOptions "u" "v" 9000000000 one_dead "m1".

Lemma one_dead_recoverable :
  recoverable DefaultConsumeOptions "u" "v" 9000000000 sample_params one_dead {["m1" := StatusProcessing]} "c1".
Proof.
  assert (lst one_dead (ConsumerProcessing (queue_keys_of sample_params) "c1") = ["m1"]) as E by (vm_compute; reflexivity).
  unfold recoverable. rewrite E. split; [apply NoDup_singleton|]. intros id ->%list_elem_of_singleton.
  split; [reflexivity|]. split; [exists 0; split; [vm_compute; reflexivity|vm_compute; split; discriminate]|].
  fold dead_envelope. destruct dead_envelope as [e|] eqn:He; [|vm_compute in He; discriminate]. exists e. split; [reflexivity|].
  vm_compute in He. injection He as <-. vm_compute. reflexivity.
Qed.

Lemma reap_correct_witness :
  let s' := reap DefaultConfig DefaultConsumeOptions "u" "v" 9000000000 9001 "c2" sample_params one_dead in
  ¬ registered s' sample_params "c1" ∧ registered s' sample_params "c2" ∧
  ∃ a, accounts_of sample_queue s' a ∧ a !! "m1" = Some StatusUnackRequeuing.
Proof.
  assert (dead "c2" sample_params one_dead "c1") as Hd.
  { split; [eexists; vm_compute; reflexivity|]. split; [discriminate|vm_compute; reflexivity]. }
  destruct (reap_correct DefaultConfig DefaultConsumeOptions "u" "v" 9000000000 9001 "c2" sample_params one_dead
    {["m1" := StatusProcessing]} (itoa TypeFIFO) sample_params_ok) as (H1 & H2 & a & Ha & Hm & _).
  - vm_compute. discriminate.
  - exact one_dead_accounts.
  - apply sample_small.
  - vm_compute. reflexivity.
  - vm_compute. reflexivity.
  - intros c [-> | ->]%one_dead_consumers; reflexivity.
  - intros c ->%one_dead_dead. exact one_dead_recoverable.
  - intros c c' id ->%one_dead_dead ->%one_dead_dead. reflexivity.
  - split; [apply (H1 "c1" Hd)|]. split.
    { apply (H2 "c2" eq_refl); [intros Hn%one_dead_dead; discriminate|eexists; vm_compute; reflexivity]. }
    exists a. split; [exact Ha|]. destruct (Hm "m1" "c1" Hd) as (e & He & ->).
    { assert (lst one_dead (ConsumerProcessing (queue_keys_of sample_params) "c1") = ["m1"]) as -> by (vm_compute; reflexivity). left. }
    fold dead_envelope in He. vm_compute in He. injection He as <-. vm_compute. reflexivity.
Defined.

Lemma prepare_frame c q g s :
  queue_ok q → no_colon c = true → no_colon g = true → wt s →
  let g' := if decide (g = "") then ephemeralGroupID c else g in
  wt (PrepareConsumerGroup c q g s).2 ∧ ∀ k, k ∉ group_touched q g' → db (PrepareConsumerGroup c q g s).2 !! k = db s !! k.
Proof.
  intros [Hq _] Hc Hg Hw g'. unfold PrepareConsumerGroup. fold g'. destruct (LoadQueue q s) as [[?|]|p]; try done.
  case_decide; [|by case_decide]. unfold createConsumerGroup, cmd_saddn. rewrite with_set_run by wt_view.
  erewrite bind_Ret; [|done]. unfold put_set. cbn [mret M_ret snd]. split; [wt_solve|]. intros k Hk. apply lookup_upd_ne. intros <-. apply Hk. left.
Qed.

(** Consumer c1 of a publish/subscribe queue, with a group of its own. *)
Definition pubsub_orders : store := (SaveQueue 5000000 orders TypeFIFO DeliveryPubSub empty_store).2.
Definition grouped_consumer : store :=
  (SubscribeConsumer "{}" "c1" orders "cid-c1" (PrepareConsumerGroup "c1" orders "" pubsub_orders).2).2.

Lemma pubsub_orders_wt : wt pubsub_orders.
Proof.
  unfold pubsub_orders, SaveQueue, SaveWithRateLimit, eval. destruct sample_ok as [[Hq _] _].
  rewrite create_run; [|apply wt_empty|done]. case_decide; [apply wt_empty|]. cbn [snd]. by apply create_wt; [apply wt_empty|].
Qed.

Lemma pubsub_orders_accounts : accounts_of (queue_keys_of orders) pubsub_orders ∅.
Proof.
  split.
  - split.
    + exact pubsub_orders_wt.
    + vm_compute. constructor.
    + intros id st Hid. by rewrite lookup_empty in Hid.
    + assert (lst pubsub_orders (Requeued (queue_keys_of orders)) = []) as E1 by (vm_compute; reflexivity).
      assert (zst pubsub_orders (Delayed (queue_keys_of orders)) = []) as E2 by (vm_compute; reflexivity).
      assert (zst pubsub_orders (Scheduled (queue_keys_of orders)) = []) as E3 by (vm_compute; reflexivity).
      split; [rewrite E1; constructor|rewrite E1|rewrite E2|rewrite E3]; clear; intros id Hid; destruct (not_elem_of_nil _ Hid).
  - intros f Hf. destruct f; try discriminate Hf; vm_compute; reflexivity.
Qed.

Lemma grouped_accounts : accounts_of (queue_keys_of orders) grouped_consumer ∅.
Proof.
  destruct sample_ok as [Hq _]. apply subscribe_accounts; [exact Hq|reflexivity|reflexivity|].
  destruct (prepare_frame "c1" orders "" pubsub_orders Hq eq_refl eq_refl pubsub_orders_wt) as [Hw Hf].
  apply (accounts_frame orders Hq pubsub_orders _ ∅ "c1" "cid-c1" pubsub_orders_accounts Hw eq_refl eq_refl).
  intros k Hk _. apply Hf, Hk.
Qed.

Lemma reaper_keeps_ephemeral_group_witness :
  let s' := recoverConsumer DefaultConfig DefaultConsumeOptions "u" "v" 9000000000 9001 orders "c1" grouped_consumer in
  ephemeralGroupID "c1" ∈ sts s' (ConsumerGroups (queue_keys_of orders)) ∧ ¬ registered s' orders "c1".
Proof.
  apply (reaper_keeps_ephemeral_group DefaultConfig DefaultConsumeOptions "u" "v" 9000000000 9001 orders "c1"
    grouped_consumer ∅ (itoa TypeFIFO)).
  - apply sample_ok.
  - vm_compute. discriminate.
  - reflexivity.
  - exact grouped_accounts.
  - reflexivity.
  - assert (lst grouped_consumer (ConsumerProcessing (queue_keys_of orders) "c1") = []) as E by (vm_compute; reflexivity).
    unfold recoverable. rewrite E. clear. split; [constructor|]. intros id Hid. destruct (not_elem_of_nil _ Hid).
  - vm_compute. reflexivity.
  - vm_compute. reflexivity.
  - apply (bool_decide_unpack _). vm_compute. exact I.
  - apply (bool_decide_unpack _). vm_compute. exact I.
Defined.

(** The deletion is refused here for the members alone. *)
Example grouped_refusal :
  (DeleteEphemeralConsumerGroup "c1" orders "cid-c1" grouped_consumer).1 =
    inl (QUnexpectedReply "CONSUMER_GROUP_HAS_ACTIVE_CONSUMERS") ∧
  (DeleteEphemeralConsumerGroup "c1" orders "cid-c1" (UnsubscribeConsumer "c1" orders "cid-c1" grouped_consumer).2).1 = inr tt.
Proof. split; vm_compute; reflexivity. Qed.

Lemma recoverer_unlocks_waiting_purge_witness :
  let s2 := orphan_recover 40000000000 sample_params purge_request.2 in
  op_state s2 sample_queue = itoa StateActive ∧ "j1" ∈ lst s2 PendingPurgeJobs.
Proof.
  destruct (recoverer_unlocks_waiting_purge sample_env DefaultConfig 6000000 40000000000 "j1" sample_params BrowsePending
    created_store purge_request.2 sample_queue_wf created_ok created_jobs eq_refl) as (_ & H1 & _ & _ & H2).
  - vm_compute. reflexivity.
  - vm_compute. split; discriminate.
  - vm_compute. split; discriminate.
  - exact purge_request_ok.
  - vm_compute. reflexivity.
  - split; [exact H1|exact H2].
Defined.
