(* ===== verification/Handler.v ===== *)
(** * Message handlers

    A consumer has a message handler for each queue (and group) it consumes:
    internal/consumer/message_handler.go, with the treatment of one message
    (consume_message.go) and the tracker of queue states
    (queue_state_tracker.go) that tells when handlers start and stop.  The
    treatment of a message is a step relation on the goroutine of the handler,
    which returns, fails or panics, and the one of the consume timeout. *)

From S2P Require Import Prelude Keys Redis RedisFacts Types Keyspace Topic Json Message MessageCodec.
From S2P Require Import Publish Consume Accounts Accounting Lifecycle Batch Manage QueueState Lock Exchange Bindings Routing Admin Subscribe Reaper.
#[local] Open Scope Z_scope.

(** ** The tracker of queue states

    Three maps from the text of a queue, which shutting down sets to nil;
    writing to a nil map panics, which is [None]. *)

Module Tracker.

Record QueueStateTracker := Tracker {
  paused : option (gmap string QParams);
  stopped : option (gmap string QParams);
  locked : option (gmap string QParams)
}.

Definition NewQueueStateTracker : QueueStateTracker := Tracker (Some ∅) (Some ∅) (Some ∅).

Inductive callback := OnStopped | OnPaused | OnLocked | OnActive.

Definition without (key : string) (m : option (gmap string QParams)) : option (gmap string QParams) := delete key <$> m.
Definition listed (key : string) (m : option (gmap string QParams)) : bool :=
  bool_decide (is_Some (m ≫= λ m, m !! key)).

(** The tracker after a change of state, and the callback it makes. *)
Definition handleStateChange (q : QParams) (to : Z) (t : QueueStateTracker)
    : option (QueueStateTracker * option callback) :=
  let key := q_String q in
  let t := Tracker (without key (paused t)) (without key (stopped t)) (without key (locked t)) in
  if decide (to = StateStopped) then
    m ← stopped t; Some (Tracker (paused t) (Some (<[key := q]> m)) (locked t), Some OnStopped)
  else if decide (to = StatePaused) then
    m ← paused t; Some (Tracker (Some (<[key := q]> m)) (stopped t) (locked t), Some OnPaused)
  else if decide (to = StateLocked) then
    m ← locked t; Some (Tracker (paused t) (stopped t) (Some (<[key := q]> m)), Some OnLocked)
  else Some (t, if decide (to = StateActive) then Some OnActive else None).

Definition IsStopped (q : QParams) (t : QueueStateTracker) : bool := listed (q_String q) (stopped t).
Definition IsPaused (q : QParams) (t : QueueStateTracker) : bool := listed (q_String q) (paused t).
Definition IsLocked (q : QParams) (t : QueueStateTracker) : bool := listed (q_String q) (locked t).
Definition IsActive (q : QParams) (t : QueueStateTracker) : bool :=
  negb (IsStopped q t) && negb (IsPaused q t) && negb (IsLocked q t).

(** Unsubscribes and sets the maps to nil. *)
Definition ShutdownTracker : QueueStateTracker := Tracker None None None.

(** *** The tracker knows the last state *)

(** A run of state changes without a shutdown. *)
Definition follow (evs : list (QParams * Z)) (t : QueueStateTracker) : option QueueStateTracker :=
  foldl (λ t ev, t ← t; fst <$> handleStateChange ev.1 ev.2 t) (Some t) evs.

(** The state of the last event of the queue; active when there is none. *)
Definition last_state (key : string) (evs : list (QParams * Z)) : Z :=
  foldl (λ st ev, if decide (q_String ev.1 = key) then ev.2 else st) StateActive evs.

Definition tells (key : string) (st : Z) (t : QueueStateTracker) : Prop :=
  listed key (stopped t) = bool_decide (st = StateStopped) ∧
  listed key (paused t) = bool_decide (st = StatePaused) ∧
  listed key (locked t) = bool_decide (st = StateLocked).

Definition open (t : QueueStateTracker) : Prop := is_Some (paused t) ∧ is_Some (stopped t) ∧ is_Some (locked t).

Lemma listed_without key key' m :
  listed key (without key' m) = if decide (key' = key) then false else listed key m.
Proof.
  unfold listed, without. destruct m as [m|]; cbn; [|by case_decide].
  case_decide as E; [subst; rewrite lookup_delete_eq; done|by rewrite lookup_delete_ne].
Qed.

Lemma listed_insert key q m :
  listed key (Some (<[q_String q := q]> m)) = if decide (q_String q = key) then true else listed key (Some m).
Proof.
  unfold listed. cbn. case_decide as E; [subst; rewrite lookup_insert_eq|by rewrite lookup_insert_ne].
  apply bool_decide_eq_true_2. by eexists.
Qed.

Lemma handle_tells q to t :
  open t → to ∈ [StateActive; StatePaused; StateStopped; StateLocked] →
  ∃ t' cb, handleStateChange q to t = Some (t', cb) ∧ open t' ∧
    ∀ key st, tells key st t → tells key (if decide (q_String q = key) then to else st) t'.
Proof.
  intros ([p Hp] & [s Hs] & [l Hl]) Hto. unfold handleStateChange. destruct t as [tp ts tl]. cbn [paused stopped locked] in *.
  subst. cbn [without fmap option_fmap option_map mbind option_bind].
  assert (∀ (m : gmap string QParams), Some (delete (q_String q) m) = without (q_String q) (Some m)) as Ew by done.
  rewrite !elem_of_cons in Hto. destruct_or! Hto; [..|by apply elem_of_nil in Hto]; subst to; cbn;
    (eexists _, _; split; [reflexivity|]; split; [repeat split; by eexists|]; intros key st (H1 & H2 & H3);
     unfold tells; cbn [paused stopped locked]; rewrite ?listed_insert, ?Ew, ?listed_without;
     destruct (decide (q_String q = key)) as [E|E]; done).
Qed.

(** The tracker reports the state of the last event it was given for a
    queue, and active for a queue it heard nothing of; exactly one of the
    four tests holds. *)
Theorem tracker_follows evs q :
  (∀ ev, ev ∈ evs → ev.2 ∈ [StateActive; StatePaused; StateStopped; StateLocked]) →
  ∃ t, follow evs NewQueueStateTracker = Some t ∧
    let st := last_state (q_String q) evs in
    IsStopped q t = bool_decide (st = StateStopped) ∧ IsPaused q t = bool_decide (st = StatePaused) ∧
    IsLocked q t = bool_decide (st = StateLocked) ∧ IsActive q t = bool_decide (st = StateActive).
Proof.
  intros Hev.
  assert (∀ key st t, open t → tells key st t → st ∈ [StateActive; StatePaused; StateStopped; StateLocked] →
    ∃ t', foldl (λ t ev, t ← t; fst <$> handleStateChange ev.1 ev.2 t) (Some t) evs = Some t' ∧
      let st' := foldl (λ st ev, if decide (q_String ev.1 = key) then ev.2 else st) st evs in
      tells key st' t' ∧ st' ∈ [StateActive; StatePaused; StateStopped; StateLocked]) as Hall.
  { intros key. induction evs as [|[q' to] evs IH]; intros st t Ho Ht Hst; [by exists t|].
    destruct (handle_tells q' to t Ho) as (t' & cb & E & Ho' & Ht'); [apply (Hev (q', to)); left|].
    cbn [foldl fst snd mbind option_bind]. rewrite E. cbn [fmap option_fmap option_map fst].
    apply IH; [intros ev Hin; apply Hev; by right|done|by apply Ht'|].
    case_decide; [apply (Hev (q', to)); left|done]. }
  destruct (Hall (q_String q) StateActive NewQueueStateTracker) as (t & Hf & (H1 & H2 & H3) & Hst).
  - repeat split; by eexists.
  - by repeat split.
  - left.
  - exists t. split; [exact Hf|]. fold (last_state (q_String q) evs) in *. cbv zeta.
    unfold IsActive, IsStopped, IsPaused, IsLocked. rewrite H1, H2, H3. split; [done|]. split; [done|]. split; [done|].
    rewrite !elem_of_cons in Hst. destruct_or! Hst; [..|by apply elem_of_nil in Hst]; rewrite Hst; reflexivity.
Qed.

Lemma tracker_follows_witness :
  ∃ t, follow [(orders, StatePaused); (orders, StateLocked); (orders, StateStopped)] NewQueueStateTracker = Some t ∧
    IsStopped orders t = true ∧ IsPaused orders t = false ∧ IsLocked orders t = false.
Proof.
  destruct (tracker_follows [(orders, StatePaused); (orders, StateLocked); (orders, StateStopped)] orders)
    as (t & H & H1 & H2 & H3 & _).
  - intros ev Hev. rewrite !elem_of_cons in Hev. destruct_or! Hev; [..|by apply elem_of_nil in Hev]; subst ev;
      apply (bool_decide_unpack _); vm_compute; exact I.
  - exists t. split; [exact H|]. rewrite H1, H2, H3. split_and!; vm_compute; reflexivity.
Defined.
End Tracker.

(** ** One message (consume_message.go)

    The handler runs in the goroutine of the dequeue loop; when the message
    has a consume timeout a second goroutine waits for the deadline and then
    unacknowledges the message.  The steps interleave. *)

Module Consuming.

Inductive settlement := Acked | Unacked (cause : Z).

(** How the user's handler ends; a panic is recovered and becomes an error. *)
Inductive result := RNil | RError | RPanic.
Definition failed (r : result) : bool := match r with RNil => false | _ => true end.

(** The goroutine that runs the handler: running it; it returned; [timedOut]
    loaded and not set; done. *)
Inductive main_state := MRunning | MReturned (r : result) | MChecked (r : result) | MDone.

(** The goroutine of the deadline: none; waiting; past the deadline; [timedOut]
    swapped; done. *)
Inductive timer_state := TNone | TWaiting | TExpired | TSwapped | TDone.

(** [ended] records how the handler ended and [loaded] what [timedOut.Load()]
    gave after it. *)
Record consuming := Consume_ {
  main : main_state; timer : timer_state; settled : list settlement; ended : option result; loaded : option bool
}.

Definition isExpired (now : Z) (m : Transferable) : bool :=
  let ttl := p_TTL (tr_Params m) in
  if decide (ttl <= 0) then false
  else bool_decide (DurationOfMs ttl <= Since now (p_CreatedAt (tr_Params m) * millisecond)).

(** [Consume] up to the start of the two goroutines. *)
Definition start (now : Z) (envelope : Envelope) : consuming :=
  let m := ToTransferable envelope in
  if isExpired now m then Consume_ MDone TNone [Unacked CauseTTLExpired] None None
  else Consume_ MRunning (if decide (0 < p_ConsumeTimeout (tr_Params m)) then TWaiting else TNone) [] None None.

Definition timedOut (t : timer_state) : bool := match t with TSwapped | TDone => true | _ => false end.

Inductive consume_step : consuming → consuming → Prop :=
| cs_return r t l o : consume_step (Consume_ MRunning t l None o) (Consume_ (MReturned r) t l (Some r) o)
| cs_check r t l e o :
    consume_step (Consume_ (MReturned r) t l e o)
      (Consume_ (if timedOut t then MDone else MChecked r) t l e (Some (timedOut t)))
| cs_settle r t l e o :
    consume_step (Consume_ (MChecked r) t l e o)
      (Consume_ MDone t (l ++ [if failed r then Unacked CauseUnacknowledged else Acked]) e o)
| cs_deadline mn l e o : mn ≠ MDone → consume_step (Consume_ mn TWaiting l e o) (Consume_ mn TExpired l e o)
| cs_swap mn l e o : consume_step (Consume_ mn TExpired l e o) (Consume_ mn TSwapped l e o)
| cs_unack mn l e o : consume_step (Consume_ mn TSwapped l e o) (Consume_ mn TDone (l ++ [Unacked CauseTimeout]) e o).

(** Nothing is left to run: a deadline that was not reached is cancelled. *)
Definition finished (c : consuming) : Prop :=
  main c = MDone ∧ (timer c = TNone ∨ timer c = TWaiting ∨ timer c = TDone).

(** What the message gets for the handler's result. *)
Definition answer (r : result) : settlement :=
  match r with RNil => Acked | RError | RPanic => Unacked CauseUnacknowledged end.

(** What the goroutine of the handler has settled, and the one of the deadline. *)
Definition answered (c : consuming) : list settlement :=
  match main c, ended c, loaded c with MDone, Some r, Some false => [answer r] | _, _, _ => [] end.
Definition forced (c : consuming) : list settlement :=
  match timer c with TDone => [Unacked CauseTimeout] | _ => [] end.

Record consumed (timeout : bool) (c : consuming) : Prop := {
  cd_timer : timer c ≠ TNone → timeout = true;
  cd_ended : match main c with
             | MRunning => ended c = None ∧ loaded c = None
             | MReturned r => ended c = Some r ∧ loaded c = None
             | MChecked r => ended c = Some r ∧ loaded c = Some false
             | MDone => is_Some (ended c) ∧ is_Some (loaded c)
             end;
  cd_loaded : loaded c = Some true → timedOut (timer c) = true;
  cd_settled : settled c ≡ₚ answered c ++ forced c
}.

Lemma consumed_step timeout c c' : consumed timeout c → consume_step c c' → consumed timeout c'.
Proof.
  intros [Ht He Hl Hs] Hst. unfold answered, forced in *.
  destruct Hst as [r t l o|r t l e o|r t l e o|mn l e o Hne|mn l e o|mn l e o]; cbn [main timer settled ended loaded] in *.
  - destruct He as [_ ->]. by split.
  - destruct He as [-> ->]. destruct (timedOut t) eqn:E; split; cbn; try done; intros [=].
  - destruct He as [-> ->]. split; cbn; try done. unfold answered, forced. cbn. rewrite Hs. destruct r; cbn; apply Permutation_app_comm.
  - split; cbn; auto.
  - split; cbn; auto.
  - split; cbn; auto. unfold answered, forced. cbn. rewrite Hs, app_nil_r. done.
Qed.

(** Steps that are left. *)
Definition pending_steps (c : consuming) : nat :=
  match main c with MRunning => 3 | MReturned _ => 2 | MChecked _ => 1 | MDone => 0 end +
  match timer c with TWaiting => 3 | TExpired => 2 | TSwapped => 1 | _ => 0 end.

Lemma consume_step_less c c' : consume_step c c' → (pending_steps c' < pending_steps c)%nat.
Proof. intros []; unfold pending_steps; cbn; try destruct (timedOut t); cbn; lia. Qed.

Lemma consume_progress timeout c : consumed timeout c → finished c ∨ ∃ c', consume_step c c'.
Proof.
  intros [_ He _ _]. destruct c as [mn t l e o]. cbn in He. destruct mn as [|r|r|].
  - right. destruct He as [-> _]. eexists. by apply (cs_return RNil).
  - right. eexists. apply cs_check.
  - right. eexists. apply cs_settle.
  - destruct t; [left; split; auto|left; split; auto|right; eexists; apply cs_swap|right; eexists; apply cs_unack|left; split; auto].
Qed.

Lemma consume_finishes timeout c : consumed timeout c → ∃ c', rtc consume_step c c' ∧ finished c'.
Proof.
  remember (pending_steps c) as n eqn:E. revert c E. induction (lt_wf n) as [n _ IH]. intros c -> Hc.
  destruct (consume_progress timeout c Hc) as [Hf|[c' Hs]]; [by exists c|].
  destruct (IH _ (consume_step_less c c' Hs) c' eq_refl (consumed_step timeout c c' Hc Hs)) as (c2 & H1 & H2).
  exists c2. split; [by eapply rtc_l|done].
Qed.

(** C18: every message that is consumed is settled, as its handler ended.  An
    expired message is unacknowledged as such and its handler does not run.
    Otherwise the two goroutines come to an end from wherever they are, the
    handler provided it returns or panics; then, if the deadline was not
    noted before the handler's end was looked at, the message was acknowledged
    if the handler returned no error and unacknowledged if it returned one or
    panicked, and if it was, the handler's end had no effect; besides, the
    deadline's goroutine unacknowledged the message as timed out exactly when
    it noted the deadline, which only a message with a consume timeout has.
    The two settlements together happen when the deadline is noted after
    [timedOut] was loaded ([settled_twice_run]). *)
Theorem consume_settles now envelope c :
  let m := ToTransferable envelope in
  rtc consume_step (start now envelope) c →
  if isExpired now m then settled c = [Unacked CauseTTLExpired] ∧ ended c = None
  else
    (∃ c', rtc consume_step c c' ∧ finished c') ∧
    (finished c → ∃ r late, ended c = Some r ∧ loaded c = Some late ∧
       settled c ≡ₚ (if late then [] else [answer r]) ++ (if timedOut (timer c) then [Unacked CauseTimeout] else []) ∧
       (late = true → timedOut (timer c) = true) ∧
       (timedOut (timer c) = true → 0 < p_ConsumeTimeout (tr_Params m))).
Proof.
  intros m Hr. unfold start in Hr. fold m in Hr. destruct (isExpired now m).
  { inversion Hr as [|x y z Hxy Hyz]; [by subst|]. inversion Hxy. }
  set (timeout := bool_decide (0 < p_ConsumeTimeout (tr_Params m))).
  assert (consumed timeout c) as Hc.
  { eapply (rtc_ind_r (consumed timeout) _) in Hr; [exact Hr| |intros x y _ Hxy Hx; by eapply consumed_step].
    unfold timeout. destruct (decide (0 < p_ConsumeTimeout (tr_Params m))) as [Hp|Hp]; split; cbn; try done.
    intros _. by apply bool_decide_eq_true_2. }
  split; [by eapply consume_finishes|]. intros [Hmain Htimer]. destruct Hc as [Ht He Hl Hs].
  unfold answered, forced in Hs. rewrite Hmain in He, Hs. destruct He as [[r Er] [late El]]. rewrite Er, El in Hs.
  exists r, late. split_and!; [done|done| | |].
  - destruct Htimer as [E|[E|E]]; rewrite E in *; by destruct late.
  - intros ->. by apply Hl.
  - intros E. eapply bool_decide_eq_true_1, Ht. by intros E'; rewrite E' in E.
Qed.

Definition slow_envelope : Envelope :=
  NewEnvelope "u" (SetConsumeTimeout (5 * millisecond) (SetBody (JStr "") (New DefaultConsumeOptions 0))).

(** The deadline passes while the handler returns: the handler's goroutine
    finds [timedOut] unset and acknowledges, and the other one unacknowledges. *)
Definition settled_twice : consuming := Consume_ MDone TDone [Acked; Unacked CauseTimeout] (Some RNil) (Some false).

Lemma settled_twice_run : rtc consume_step (start 0 slow_envelope) settled_twice.
Proof.
  change (start 0 slow_envelope) with (Consume_ MRunning TWaiting [] None None).
  eapply rtc_l; [by apply cs_deadline|]. eapply rtc_l; [apply (cs_return RNil)|]. eapply rtc_l; [apply cs_check|].
  eapply rtc_l; [apply (cs_settle RNil)|]. eapply rtc_l; [apply cs_swap|]. eapply rtc_l; [apply cs_unack|]. apply rtc_refl.
Qed.

Lemma consume_settles_witness :
  finished settled_twice ∧ 0 < p_ConsumeTimeout (tr_Params (ToTransferable slow_envelope)).
Proof.
  assert (finished settled_twice) as Hf by (split; [reflexivity|right; right; reflexivity]). split; [exact Hf|].
  pose proof (consume_settles 0 slow_envelope settled_twice settled_twice_run) as H. cbv zeta in H.
  replace (isExpired 0 (ToTransferable slow_envelope)) with false in H by (vm_compute; reflexivity).
  destruct H as [_ H]. destruct (H Hf) as (r & late & _ & _ & _ & _ & Hp). apply Hp. reflexivity.
Defined.
End Consuming.

(** ** The handler of a queue (message_handler.go) *)

Module Handling.
Import Consuming.

(** [mh_handler] stands for the user's function.  Between [Run] and [Shutdown]
    the two batchers hold what was settled and not yet sent. *)
Record MessageHandler := MH {
  mh_running : bool;
  mh_consumerID : string;
  mh_queue : QParams;
  mh_groupID : string;
  mh_handler : nat;
  mh_ephemeralGroup : bool;
  mh_dequeuer : option DequeueMessage;
  mh_acker : batcher string;
  mh_unacker : batcher UnackEntry;
  mh_workerLock : option Lock;
  mh_workers : bool
}.

Definition NewMessageHandler (consumerID : string) (q : QParams) (groupID : string) (handler : nat) : MessageHandler :=
  MH false consumerID q groupID handler false None new_batcher new_batcher None false.

(** [Init] of dequeue_message.go: the type and the rate limit of the queue. *)
Definition InitDequeue (q : QParams) (groupID consumerID : string) (s : store) : queue_error + DequeueMessage :=
  match LoadQueue q s with
  | inl (Some e) => inl (QRedis e)
  | inl None => inl QNotFound
  | inr props => inr {| d_queue := q; d_groupID := groupID; d_consumerID := consumerID;
                        d_queueType := qp_Type props; d_rateLimit := qp_RateLimit props |}
  end.

Section Handler.
Context (cfg : ConfigRec) (defaults : ConsumeOptions) (uuid uuid' : string) (now rnow : Z).
(** The JSON that describes the client, the batching of both kinds, and the
    waits between attempts to get the workers' lock. *)
Context (info : string) (batchAcks batchUnacks : BatchConfig) (backoff : BackoffStrategy).

Definition new_workerLock (q : QParams) (consumerID : string) : Lock :=
  {| l_key := WorkersLock (queue_keys_of q); l_owner := consumerID; l_ttl := 30 * second; l_refresh := 10 * second;
     l_backoff := Some backoff; l_acquired := false; l_refreshing := false |}.

(** A handler whose [Run] fails keeps what it had set up until then. *)
Definition RunHandler (mh : MessageHandler) (s : store) : (queue_error + unit) * (MessageHandler * store) :=
  if mh_running mh then (inr tt, (mh, s))
  else match PrepareConsumerGroup (mh_consumerID mh) (mh_queue mh) (mh_groupID mh) s with
  | (inl e, s) => (inl e, (mh, s))
  | (inr (effectiveGroupID, _), s) =>
      let ephemeral := bool_decide (effectiveGroupID ≠ "" ∧ effectiveGroupID ≠ mh_groupID mh) in
      let groupID := if ephemeral then effectiveGroupID else mh_groupID mh in
      let mh := MH false (mh_consumerID mh) (mh_queue mh) groupID (mh_handler mh)
                  (ephemeral || mh_ephemeralGroup mh) (mh_dequeuer mh) (mh_acker mh) (mh_unacker mh)
                  (mh_workerLock mh) (mh_workers mh) in
      match SubscribeConsumer info (mh_consumerID mh) (mh_queue mh) groupID s with
      | (inl e, s) => (inl e, (mh, s))
      | (inr _, s) =>
          match InitDequeue (mh_queue mh) groupID (mh_consumerID mh) s with
          | inl e => (inl e, (MH false (mh_consumerID mh) (mh_queue mh) groupID (mh_handler mh) (mh_ephemeralGroup mh)
                                None new_batcher new_batcher (mh_workerLock mh) (mh_workers mh), s))
          | inr d => (inr tt, (MH true (mh_consumerID mh) (mh_queue mh) groupID (mh_handler mh) (mh_ephemeralGroup mh)
                                 (Some d) new_batcher new_batcher
                                 (Some (new_workerLock (mh_queue mh) (mh_consumerID mh))) (mh_workers mh), s))
          end
      end
  end.

Definition set_lock (l : Lock) (workers : bool) (mh : MessageHandler) : MessageHandler :=
  MH (mh_running mh) (mh_consumerID mh) (mh_queue mh) (mh_groupID mh) (mh_handler mh) (mh_ephemeralGroup mh)
    (mh_dequeuer mh) (mh_acker mh) (mh_unacker mh) (Some l) workers.

(** The background goroutine, at the attempt that ends its wait: the workers of
    the queue start only in the consumer that has the lock. *)
Definition acquireWorkerLock (mh : MessageHandler) (s : store) : MessageHandler * store :=
  match mh_workerLock mh with
  | None => (mh, s)
  | Some l =>
      match Acquire1 rnow l s with
      | (false, l, s) => (set_lock l (mh_workers mh) mh, s)
      | (true, l, s) =>
          if negb (mh_running mh) then let '(l, s) := Release l s in (set_lock l (mh_workers mh) mh, s)
          else (set_lock l true mh, s)
      end
  end.

(** The batches handed on since [b]. *)
Definition new_batches {A} (b b' : batcher A) : list (list A) := drop (length (sent b)) (sent b').

Definition run_acks (q : QParams) (consumerID : string) (batches : list (list string)) (s : store) : store :=
  foldl (λ s ids, (acknowledge cfg defaults uuid uuid' now rnow (queue_keys_of q) consumerID ids s).2) s batches.
Definition run_unacks (q : QParams) (consumerID : string) (batches : list (list UnackEntry)) (s : store) : store :=
  foldl (λ s es, (unacknowledge cfg now rnow (queue_keys_of q) consumerID es s).2) s batches.

Definition set_batchers (a : batcher string) (u : batcher UnackEntry) (running : bool) (mh : MessageHandler) : MessageHandler :=
  MH running (mh_consumerID mh) (mh_queue mh) (mh_groupID mh) (mh_handler mh) (mh_ephemeralGroup mh)
    (mh_dequeuer mh) a u (mh_workerLock mh) (mh_workers mh).

(** Settling a message: the batcher, and the batches this completes. *)
Definition settle (envelope : Envelope) (x : settlement) (mh : MessageHandler) (s : store) : MessageHandler * store :=
  match x with
  | Acked =>
      let b := Ack batchAcks (ID envelope) (mh_acker mh) in
      (set_batchers b (mh_unacker mh) (mh_running mh) mh,
       run_acks (mh_queue mh) (mh_consumerID mh) (new_batches (mh_acker mh) b) s)
  | Unacked cause =>
      let b := Unack batchUnacks envelope cause (mh_unacker mh) in
      (set_batchers (mh_acker mh) b (mh_running mh) mh,
       run_unacks (mh_queue mh) (mh_consumerID mh) (new_batches (mh_unacker mh) b) s)
  end.

(** Errors of the last two calls are logged. *)
Definition ShutdownHandler (mh : MessageHandler) (s : store) : MessageHandler * store :=
  if negb (mh_running mh) then (mh, s)
  else
    let q := mh_queue mh in let c := mh_consumerID mh in
    let a := acker_Shutdown (mh_acker mh) in
    let s := run_acks q c (new_batches (mh_acker mh) a) s in
    let u := unacker_Shutdown (mh_unacker mh) in
    let s := run_unacks q c (new_batches (mh_unacker mh) u) s in
    let mh := set_batchers a u false mh in
    let '(mh, s) := match mh_workerLock mh with
                    | None => (mh, s)
                    | Some l => let '(l, s) := Release l s in (set_lock l (mh_workers mh) mh, s)
                    end in
    let s := (UnsubscribeConsumer c q (mh_groupID mh) s).2 in
    let s := if mh_ephemeralGroup mh then (DeleteEphemeralConsumerGroup c q (mh_groupID mh) s).2 else s in
    (mh, s).

(** One turn of the dequeue loop: it ends, waits a second, or has a message to
    consume.  [cancelled]: the context of the handler is done. *)
Inductive turn := LoopEnds | LoopWaits | LoopConsumes (envelope : Envelope).

Definition loop_turn (cancelled : bool) (mh : MessageHandler) (s : store) : turn * (MessageHandler * store) :=
  if cancelled then (LoopEnds, (mh, s))
  else match mh_dequeuer mh with
  | None => (LoopWaits, (mh, s))
  | Some d =>
      match Dequeue cfg defaults uuid uuid' now rnow d s with
      | (inl (ErrQueueStopped | ErrQueueLocked | ErrQueueInvalidState), s) => (LoopEnds, ShutdownHandler mh s)
      | (inl _, s) => (LoopWaits, (mh, s))
      | (inr None, s) => (LoopWaits, (mh, s))
      | (inr (Some envelope), s) => (LoopConsumes envelope, (mh, s))
      end
  end.
End Handler.

(** *** The group of its own a consumer gets *)

Section group.
Context (q : QParams) (c : string) (Hqok : queue_ok q) (Hc : no_colon c = true).
#[local] Abbreviation K := (queue_keys_of q).
#[local] Abbreviation g := (ephemeralGroupID c).

(** A publish/subscribe queue, active. *)
Record pubsub_active (s : store) : Prop := {
  pa_type : is_Some (hsh s (Properties K) !! qkey Q_Type);
  pa_model : hsh s (Properties K) !! qkey Q_DeliveryModel = Some (itoa DeliveryPubSub);
  pa_state : hsh s (Properties K) !! qkey Q_OperationalState = Some (itoa StateActive)
}.

(** Nothing of the consumer [c] is left. *)
Record no_trace (s : store) : Prop := {
  nt_registered : ¬ registered s q c;
  nt_processing : lst s (ConsumerProcessing K c) = [];
  nt_group : g ∉ sts s (ConsumerGroups K);
  nt_members : sts s (ConsumerGroupMembers K g) = ∅;
  nt_pending : lst s (PendingWithGroup K g) = [];
  nt_priority : zst s (PriorityWithGroup K g) = []
}.

Lemma load_queue_run s : wt s → LoadQueue q s =
  if decide (hsh s (Properties K) = ∅) then inl None else inr (DecodeQueueProps (hsh s (Properties K))).
Proof using Hqok.
  intros Hw. destruct Hqok as [Hq _]. unfold LoadQueue. by rewrite hgetall_run by wt_view.
Qed.

Lemma loaded_pubsub s : wt s → is_Some (hsh s (Properties K) !! qkey Q_Type) →
  hsh s (Properties K) !! qkey Q_DeliveryModel = Some (itoa DeliveryPubSub) →
  LoadQueue q s = inr (DecodeQueueProps (hsh s (Properties K))) ∧
  qp_DeliveryModel (DecodeQueueProps (hsh s (Properties K))) = DeliveryPubSub.
Proof using Hqok.
  intros Hw [t Ht] Hm. rewrite load_queue_run by done. rewrite decide_False.
  2: { intros E. by rewrite E, lookup_empty in Ht. }
  split; [done|]. cbn [qp_DeliveryModel DecodeQueueProps]. unfold parseInt64Field. rewrite Hm. vm_compute. reflexivity.
Qed.

Lemma pubsub_loads s : wt s → pubsub_active s →
  LoadQueue q s = inr (DecodeQueueProps (hsh s (Properties K))) ∧
  qp_DeliveryModel (DecodeQueueProps (hsh s (Properties K))) = DeliveryPubSub.
Proof using Hqok. intros Hw [Ht Hm _]. by apply loaded_pubsub. Qed.

Lemma pubsub_props s : pubsub_active s → is_Some (db s !! Properties K).
Proof. clear. intros [[t Ht] _ _]. by eapply properties_exist. Qed.

Lemma prepare_loaded s props : wt s → LoadQueue q s = inr props → qp_DeliveryModel props = DeliveryPubSub → ∃ created,
  PrepareConsumerGroup c q "" s = (inr (g, created), put_set (ConsumerGroups K) ({[g]} ∪ sts s (ConsumerGroups K)) s).
Proof using Hqok.
  intros Hw E1 E2. destruct Hqok as [Hq _]. unfold PrepareConsumerGroup. rewrite E1.
  rewrite decide_True by done. rewrite (decide_True _ _ eq_refl).
  unfold createConsumerGroup, cmd_saddn. rewrite with_set_run by wt_view. erewrite bind_Ret; [|done].
  eexists. reflexivity.
Qed.

Lemma prepare_run s : wt s → pubsub_active s → ∃ created,
  PrepareConsumerGroup c q "" s = (inr (g, created), put_set (ConsumerGroups K) ({[g]} ∪ sts s (ConsumerGroups K)) s).
Proof using Hqok. intros Hw Hp. destruct (pubsub_loads s Hw Hp). by eapply prepare_loaded. Qed.

(** The group is deleted when neither members nor messages are left in it. *)
Definition delete_group_effect (s : store) : store :=
  upd (ConsumerGroupMembers K g) None
    (upd (PriorityWithGroup K g) None (upd (PendingWithGroup K g) None
      (put_set (ConsumerGroups K) (sts s (ConsumerGroups K) ∖ {[g]}) s))).

Lemma delete_group_run s :
  wt s → pubsub_active s → sts s (ConsumerGroupMembers K g) = ∅ →
  lst s (PendingWithGroup K g) = [] → zst s (PriorityWithGroup K g) = [] →
  DeleteEphemeralConsumerGroup c q g s = (inr tt, delete_group_effect s).
Proof using Hqok Hc.
  intros Hw [[t Ht] Hm Hs] E1 E2 E3. destruct Hqok as [Hq _]. pose proof (ephemeral_colon c Hc) as Hg.
  unfold DeleteEphemeralConsumerGroup. rewrite decide_False by done. unfold eval, delete_consumer_group, ephemeral_keys.
  cbn [arg nth Nat.sub group_args]. run_cmd hmget_run. cbn [fmap list_fmap]. rewrite Ht, Hm, Hs.
  cbn [reply_at Nat.sub lookup list_lookup default id]. unfold lock_check. rewrite decide_False by done.
  rewrite decide_False by (intros H; by apply H).
  run_cmd scard_run. rewrite E1. rewrite decide_False by (rewrite size_empty; lia).
  assert ((if decide (t = itoa TypePriority) then cmd_zcard (PriorityWithGroup K g) else cmd_llen (PendingWithGroup K g)) s
    = (Ret 0, s)) as Hn.
  { case_decide; [unfold cmd_zcard; rewrite with_zset_run by wt_view; by rewrite E3|].
    rewrite llen_run by wt_view. by rewrite E2. }
  erewrite bind_Ret; [|exact Hn]. rewrite decide_False by lia. run_cmd srem_run.
  erewrite bind_Ret; [|done]. erewrite bind_Ret; [|done]. reflexivity.
Qed.

(** What [Run] has written, seen from the records it touches. *)
Definition started (info : string) (s : store) : store :=
  subscribe_effect info c q g (put_set (ConsumerGroups K) ({[g]} ∪ sts s (ConsumerGroups K)) s).

Lemma started_views info s :
  hsh (started info s) (Properties K) = hsh s (Properties K) ∧
  lst (started info s) (ConsumerProcessing K c) = lst s (ConsumerProcessing K c) ∧
  sts (started info s) (ConsumerGroups K) = {[g]} ∪ sts s (ConsumerGroups K) ∧
  sts (started info s) (ConsumerGroupMembers K g) = {[c]} ∪ sts s (ConsumerGroupMembers K g) ∧
  lst (started info s) (PendingWithGroup K g) = lst s (PendingWithGroup K g) ∧
  zst (started info s) (PriorityWithGroup K g) = zst s (PriorityWithGroup K g).
Proof using Hqok Hc.
  destruct Hqok as [Hq _]. pose proof (ephemeral_colon c Hc) as Hg.
  unfold started, subscribe_effect, put_set, put_hash. cbv zeta. rewrite decide_True by done.
  split_and!; by views.
Qed.

Lemma started_wt info s : wt s → pubsub_active s → ¬ registered s q c → wt (started info s).
Proof using Hqok Hc.
  intros Hw Hp Hn. destruct Hqok as [Hq _]. pose proof (ephemeral_colon c Hc) as Hg.
  unfold started. set (s1 := put_set _ _ s). assert (wt s1) as Hw1 by (unfold s1, put_set; wt_solve).
  unfold subscribe_effect, put_set, put_hash. cbv zeta. rewrite decide_True by done. wt_solve.
Qed.

(** What unsubscribing and deleting the group then leave. *)
Lemma stopped_views s :
  let s' := unsubscribe_effect c q g s in
  hsh s' (Properties K) = hsh s (Properties K) ∧
  lst s' (ConsumerProcessing K c) = [] ∧
  sts s' (ConsumerGroups K) = sts s (ConsumerGroups K) ∧
  sts s' (ConsumerGroupMembers K g) = sts s (ConsumerGroupMembers K g) ∖ {[c]} ∧
  lst s' (PendingWithGroup K g) = lst s (PendingWithGroup K g) ∧
  zst s' (PriorityWithGroup K g) = zst s (PriorityWithGroup K g).
Proof using Hqok Hc.
  destruct Hqok as [Hq _]. pose proof (ephemeral_colon c Hc) as Hg. cbv zeta.
  unfold unsubscribe_effect, put_set, put_hash. cbv zeta. rewrite (decide_True (P := g ≠ "")) by done.
  set (s0 := upd (ConsumerProcessing K c) None _). set (s3 := upd (Consumers K) _ _). set (rest := sts s3 _ ∖ _).
  assert (lst s0 (ConsumerProcessing K c) = []) as E0.
  { unfold s0, lst. by rewrite lookup_upd_eq. }
  destruct (decide (rest = ∅)).
  - split_and!; views; unfold s3; views; try done; unfold s0; by views.
  - split_and!; views; unfold s3; views; try done; unfold s0; by views.
Qed.

Lemma cleared_views s :
  let s' := delete_group_effect s in
  hsh s' (Properties K) = hsh s (Properties K) ∧
  hsh s' (Consumers K) = hsh s (Consumers K) ∧
  lst s' (ConsumerProcessing K c) = lst s (ConsumerProcessing K c) ∧
  sts s' (ConsumerGroups K) = sts s (ConsumerGroups K) ∖ {[g]} ∧
  sts s' (ConsumerGroupMembers K g) = ∅ ∧
  lst s' (PendingWithGroup K g) = [] ∧ zst s' (PriorityWithGroup K g) = [].
Proof using Hqok Hc.
  destruct Hqok as [Hq _]. pose proof (ephemeral_colon c Hc) as Hg. cbv zeta.
  unfold delete_group_effect, put_set. split_and!.
  all: try by views.
  - apply sts_upd_none.
  - views. unfold lst. by rewrite lookup_upd_eq.
  - views. unfold zst. by rewrite lookup_upd_eq.
Qed.

End group.

Lemma run_ephemeral info backoff q c h s :
  queue_ok q → no_colon c = true → wt s → pubsub_active q s → ¬ registered s q c →
  RunHandler info backoff (NewMessageHandler c q "" h) s =
  (inr tt, (MH true c q (ephemeralGroupID c) h true
              (Some {| d_queue := q; d_groupID := ephemeralGroupID c; d_consumerID := c;
                       d_queueType := qp_Type (DecodeQueueProps (hsh s (Properties (queue_keys_of q))));
                       d_rateLimit := qp_RateLimit (DecodeQueueProps (hsh s (Properties (queue_keys_of q)))) |})
              new_batcher new_batcher (Some (new_workerLock backoff q c)) false,
            started q c info s)).
Proof.
  intros Hqok Hc Hw Hp Hn. pose proof (ephemeral_colon c Hc) as Hg. pose proof Hqok as [Hq _].
  destruct (prepare_run q c Hqok s Hw Hp) as [created E1]. unfold RunHandler.
  change (mh_running (NewMessageHandler c q "" h)) with false. cbn [mh_consumerID mh_queue mh_groupID mh_handler
    mh_ephemeralGroup mh_dequeuer mh_acker mh_unacker mh_workerLock mh_workers NewMessageHandler].
  rewrite E1. rewrite bool_decide_eq_true_2 by done. cbn [orb].
  set (s1 := put_set _ _ s). assert (wt s1) as Hw1 by (unfold s1, put_set; wt_solve).
  assert (hsh s1 (Properties (queue_keys_of q)) = hsh s (Properties (queue_keys_of q))) as Ep by (unfold s1, put_set; by views).
  assert (¬ registered s1 q c) as Hn1.
  { unfold registered, s1, put_set in *. by views. }
  assert (pubsub_active q s1) as Hp1 by (destruct Hp; split; by rewrite Ep).
  rewrite (subscribe_run info c q (ephemeralGroupID c) s1 Hw1 Hq Hc Hg).
  rewrite decide_True by by apply pubsub_props. rewrite Ep, (pa_state q s Hp). cbn [default id].
  rewrite decide_False by (intros H; by apply H). rewrite decide_False by done.
  change (subscribe_effect info c q (ephemeralGroupID c) s1) with (started q c info s). cbv iota. unfold InitDequeue.
  cbn [mh_consumerID mh_queue mh_handler mh_ephemeralGroup mh_workerLock mh_workers].
  destruct (started_views q c Hqok Hc info s) as [Eq _].
  assert (pubsub_active q (started q c info s)) as Hp2 by (destruct Hp; split; by rewrite Eq).
  destruct (pubsub_loads q Hqok (started q c info s) (started_wt q c Hqok Hc info s Hw Hp Hn) Hp2) as [-> _].
  by rewrite Eq.
Qed.

(** A consumer of a publish/subscribe queue that names no group gets one of
    its own: [Run] of its handler succeeds, registers the consumer and makes it
    the member of a new group ([cid-] and its identifier), known to the
    producers; [Shutdown] takes all of it away again, so that the queue has the
    groups and the properties it had, and nothing of the consumer is left. *)
Theorem ephemeral_handler_roundtrip cfg defaults uuid uuid' now rnow info backoff q c h s :
  queue_ok q → no_colon c = true → wt s → pubsub_active q s → no_trace q c s →
  let '(r, (mh, s1)) := RunHandler info backoff (NewMessageHandler c q "" h) s in
  let '(mh', s2) := ShutdownHandler cfg defaults uuid uuid' now rnow mh s1 in
  let g := ephemeralGroupID c in
  (r = inr tt ∧ mh_running mh = true ∧ mh_groupID mh = g ∧ registered s1 q c ∧
   g ∈ sts s1 (ConsumerGroups (queue_keys_of q)) ∧ sts s1 (ConsumerGroupMembers (queue_keys_of q) g) = {[c]}) ∧
  (mh_running mh' = false ∧ no_trace q c s2 ∧
   sts s2 (ConsumerGroups (queue_keys_of q)) = sts s (ConsumerGroups (queue_keys_of q)) ∧
   hsh s2 (Properties (queue_keys_of q)) = hsh s (Properties (queue_keys_of q))).
Proof.
  intros Hqok Hc Hw Hp [N1 N2 N3 N4 N5 N6]. pose proof (ephemeral_colon c Hc) as Hg. pose proof Hqok as [Hq _].
  rewrite (run_ephemeral info backoff q c h s Hqok Hc Hw Hp N1).
  set (s1 := started q c info s). destruct (started_views q c Hqok Hc info s) as (V1 & V2 & V3 & V4 & V5 & V6).
  fold s1 in V1, V2, V3, V4, V5, V6.
  assert (wt s1) as Hw1 by by apply started_wt. assert (pubsub_active q s1) as Hp1 by (destruct Hp; split; by rewrite V1).
  assert (registered s1 q c) as Hr1.
  { destruct (subscribe_records q q c c (ephemeralGroupID c) (put_set (ConsumerGroups (queue_keys_of q)) ({[ephemeralGroupID c]} ∪
      sts s (ConsumerGroups (queue_keys_of q))) s) Hqok Hqok Hc Hc Hg info) as [H _]. apply H. by left. }
  unfold ShutdownHandler. cbn [negb mh_running mh_queue mh_consumerID mh_acker mh_unacker mh_groupID mh_ephemeralGroup
    mh_workerLock set_batchers set_lock].
  change (Release (new_workerLock backoff q c) ?x) with (new_workerLock backoff q c, x). cbv iota beta zeta.
  change (run_acks _ _ _ _ _ _ _ _ (new_batches _ _) ?x) with x. change (run_unacks _ _ _ _ _ (new_batches _ _) ?x) with x.
  cbn [mh_groupID mh_ephemeralGroup set_batchers set_lock mh_running mh_workers].
  rewrite (unsubscribe_run c q (ephemeralGroupID c) s1 Hw1 Hq Hc Hg). rewrite decide_True by by apply pubsub_props.
  rewrite decide_True by by rewrite V2. cbn [snd].
  set (s2 := unsubscribe_effect c q (ephemeralGroupID c) s1).
  destruct (stopped_views q c Hqok Hc s1) as (U1 & U2 & U3 & U4 & U5 & U6). fold s2 in U1, U2, U3, U4, U5, U6.
  assert (¬ registered s2 q c) as Hr2.
  { destruct (unsubscribe_records q q c c (ephemeralGroupID c) s1 Hqok Hqok Hc Hc Hg) as [H _]. intros [H' _]%H. by apply H'. }
  assert (wt s2) as Hw2 by by apply unsubscribe_wt.
  rewrite delete_group_run; [|done|done|done| |by rewrite U4, V4, N4; set_solver|by rewrite U5, V5|by rewrite U6, V6].
  2: { destruct Hp; split; by rewrite U1, V1. }
  cbn [snd]. destruct (cleared_views q c Hqok Hc s2) as (W1 & W2 & W3 & W4 & W5 & W6 & W7).
  assert (sts s2 (ConsumerGroups (queue_keys_of q)) ∖ {[ephemeralGroupID c]} = sts s (ConsumerGroups (queue_keys_of q))) as Eg.
  { rewrite U3, V3. clear -N3. set_solver. }
  split; [split_and!; [done..|rewrite V3; clear; set_solver|rewrite V4, N4; clear; set_solver]|].
  split; [done|]. rewrite W1, W4, U1, V1, Eg. split; [|done].
  split; [by unfold registered; rewrite W2|by rewrite W3|by rewrite W4, Eg|done..].
Qed.

(** On a queue that is not active the group is created before the subscription
    is refused; the handler does not run, so that shutting it down leaves the
    group, without members, to the producers. *)
Theorem refused_run_keeps_group cfg defaults uuid uuid' now rnow info backoff q c h s st :
  queue_ok q → no_colon c = true → wt s →
  is_Some (hsh s (Properties (queue_keys_of q)) !! qkey Q_Type) →
  hsh s (Properties (queue_keys_of q)) !! qkey Q_DeliveryModel = Some (itoa DeliveryPubSub) →
  hsh s (Properties (queue_keys_of q)) !! qkey Q_OperationalState = Some st → st ≠ itoa StateActive →
  let '(r, (mh, s1)) := RunHandler info backoff (NewMessageHandler c q "" h) s in
  r = inl QNotActive ∧ mh_running mh = false ∧
  ephemeralGroupID c ∈ sts s1 (ConsumerGroups (queue_keys_of q)) ∧
  ShutdownHandler cfg defaults uuid uuid' now rnow mh s1 = (mh, s1).
Proof.
  intros Hqok Hc Hw Ht Hm Hst Hne. pose proof (ephemeral_colon c Hc) as Hg. pose proof Hqok as [Hq _].
  destruct (loaded_pubsub q Hqok s Hw Ht Hm) as [E1 E2]. destruct (prepare_loaded q c Hqok s _ Hw E1 E2) as [created E3].
  unfold RunHandler. change (mh_running (NewMessageHandler c q "" h)) with false.
  cbn [mh_consumerID mh_queue mh_groupID NewMessageHandler]. rewrite E3. rewrite bool_decide_eq_true_2 by done.
  set (s1 := put_set _ _ s). assert (wt s1) as Hw1 by (unfold s1, put_set; wt_solve).
  assert (hsh s1 (Properties (queue_keys_of q)) = hsh s (Properties (queue_keys_of q))) as Ep by (unfold s1, put_set; by views).
  cbn [mh_consumerID mh_queue].
  rewrite (subscribe_run info c q (ephemeralGroupID c) s1 Hw1 Hq Hc Hg).
  rewrite decide_True by (destruct Ht as [t Ht]; apply (properties_exist q s1 t); by rewrite Ep).
  rewrite Ep, Hst. cbn [default id]. rewrite decide_True by done. cbn [mh_running].
  split_and!; [done|done| |done].
  unfold s1, put_set. rewrite sts_upd. clear. set_solver.
Qed.

Lemma pubsub_orders_active : pubsub_active orders pubsub_orders.
Proof. split; [eexists|..]; vm_compute; reflexivity. Qed.

Lemma pubsub_orders_untouched : no_trace orders "c1" pubsub_orders.
Proof.
  split; [..|vm_compute; reflexivity|vm_compute; reflexivity].
  - apply (bool_decide_unpack _). vm_compute. exact I.
  - vm_compute. reflexivity.
  - apply (bool_decide_unpack _). vm_compute. exact I.
  - vm_compute. reflexivity.
Qed.

Lemma ephemeral_handler_roundtrip_witness :
  let '(r, (mh, s1)) := RunHandler "{}" (λ _, second) (NewMessageHandler "c1" orders "" 7%nat) pubsub_orders in
  registered s1 orders "c1" ∧
  no_trace orders "c1" (ShutdownHandler DefaultConfig DefaultConsumeOptions "u" "v" 9000000000 9001 mh s1).2.
Proof.
  pose proof (ephemeral_handler_roundtrip DefaultConfig DefaultConsumeOptions "u" "v" 9000000000 9001 "{}" (λ _, second)
    orders "c1" 7%nat pubsub_orders (proj1 sample_ok) eq_refl pubsub_orders_wt pubsub_orders_active pubsub_orders_untouched) as H.
  destruct (RunHandler _ _ _ _) as [r [mh s1]]. destruct (ShutdownHandler _ _ _ _ _ _ mh s1) as [mh' s2].
  cbv zeta in H. split; apply H.
Defined.

End Handling.
