(* ===== verification/Runner.v ===== *)
(** * The runner of a consumer's handlers, and consumers

    internal/consumer/message_handler_runner.go keeps a handler (Handler.v) for
    each queue and group a consumer was told to consume, starts and stops them
    as the queues change state, and restarts every five seconds the ones that
    do not run; consumer.go puts a heartbeat (Reaper.v) beside it.

    Adding, removing, starting and stopping a handler hold the runner's lock
    from beginning to end.  [Run] and [reconcile] only read the configurations
    under it: they start the handlers without the lock and take it again to
    keep each one.  [RunConsumer] and [reconcile] below are these operations
    when nothing comes between; as tasks they are taken from one section under
    the lock to the next ([advance]), and [consumer_step] lets everything else
    happen between two of them. *)

From S2P Require Import Prelude Keys Redis RedisFacts Types Keyspace Topic Json Message MessageCodec.
From S2P Require Import Publish Consume Accounts Accounting Lifecycle Batch Manage QueueState Lock Exchange Bindings Routing Admin Subscribe Reaper Handler.
Import Tracker Consuming Handling.
#[local] Open Scope Z_scope.

(** ** Data *)

Record handlerConfig := { hc_queue : QParams; hc_groupID : string; hc_handler : nat }.

(** [r_live]: the context of the last [Run] is not cancelled. *)
Record MessageHandlerRunner := Runner {
  r_consumerID : string;
  r_handlers : list handlerConfig;
  r_instances : list MessageHandler;
  r_stateTracker : option QueueStateTracker;
  r_live : bool
}.

Definition NewMessageHandlerRunner (consumerID : string) : MessageHandlerRunner := Runner consumerID [] [] None false.

Definition set_handlers (hs : list handlerConfig) (r : MessageHandlerRunner) : MessageHandlerRunner :=
  Runner (r_consumerID r) hs (r_instances r) (r_stateTracker r) (r_live r).
Definition set_instances (l : list MessageHandler) (r : MessageHandlerRunner) : MessageHandlerRunner :=
  Runner (r_consumerID r) (r_handlers r) l (r_stateTracker r) (r_live r).

(** Queues are compared by their text. *)
Definition config_for (key groupID : string) (h : handlerConfig) : bool :=
  bool_decide (q_String (hc_queue h) = key ∧ hc_groupID h = groupID).
Definition instance_for (key groupID : string) (inst : MessageHandler) : bool :=
  bool_decide (q_String (mh_queue inst) = key ∧ mh_groupID inst = groupID).

(** The first element that passes the test, and the others. *)
Fixpoint take_first {A} (P : A → bool) (l : list A) : option (A * list A) :=
  match l with
  | [] => None
  | x :: l => if P x then Some (x, l) else '(y, rest) ← take_first P l; Some (y, x :: rest)
  end.
Fixpoint replace_first {A} (P : A → bool) (y : A) (l : list A) : list A :=
  match l with
  | [] => []
  | x :: l => if P x then y :: l else x :: replace_first P y l
  end.

(** ** Operations *)

Section Runner.
(** As in Handler.v. *)
Context (cfg : ConfigRec) (defaults : ConsumeOptions) (uuid uuid' : string) (now rnow : Z).
Context (info : string) (backoff : BackoffStrategy).
#[local] Abbreviation Shutdown_mh := (ShutdownHandler cfg defaults uuid uuid' now rnow).

(** Shuts down and forgets the first instance of the queue and group. *)
Definition StopHandler (q : QParams) (groupID : string) (r : MessageHandlerRunner) (s : store)
    : bool * (MessageHandlerRunner * store) :=
  match take_first (instance_for (q_String q) groupID) (r_instances r) with
  | Some (inst, rest) => (true, (set_instances rest r, (Shutdown_mh inst s).2))
  | None => (false, (r, s))
  end.

Definition AddHandler (q : QParams) (groupID : string) (handler : nat) (r : MessageHandlerRunner) (s : store)
    : MessageHandlerRunner * store :=
  let key := q_String q in
  let h := {| hc_queue := q; hc_groupID := groupID; hc_handler := handler |} in
  if existsb (config_for key groupID) (r_handlers r) then
    let '(_, (r, s)) := StopHandler q groupID r s in
    (set_handlers (replace_first (config_for key groupID) h (r_handlers r)) r, s)
  else (set_handlers (r_handlers r ++ [h]) r, s).

Definition RemoveHandler (q : QParams) (groupID : string) (r : MessageHandlerRunner) (s : store)
    : MessageHandlerRunner * store :=
  let key := q_String q in
  let r := match take_first (config_for key groupID) (r_handlers r) with
           | Some (_, rest) => set_handlers rest r
           | None => r
           end in
  (StopHandler q groupID r s).2.

Definition HasHandlers (r : MessageHandlerRunner) : bool := bool_decide (0 < length (r_handlers r))%nat.
Definition Queues (r : MessageHandlerRunner) : list QParams := hc_queue <$> r_handlers r.

(** With a cancelled context the first command of [Run] fails. *)
Definition run_in (live : bool) (mh : MessageHandler) (s : store) : option (option queue_error) * (MessageHandler * store) :=
  if live then match RunHandler info backoff mh s with
               | (inr _, r) => (None, r)
               | (inl e, r) => (Some (Some e), r)
               end
  else (Some None, (mh, s)).

(** [mh.Run] of a new handler for the configuration, which is kept when it succeeds. *)
Definition start_config (h : handlerConfig) (r : MessageHandlerRunner) (s : store)
    : option (option queue_error) * (MessageHandlerRunner * store) :=
  match run_in (r_live r) (NewMessageHandler (r_consumerID r) (hc_queue h) (hc_groupID h) (hc_handler h)) s with
  | (None, (mh, s)) => (None, (set_instances (r_instances r ++ [mh]) r, s))
  | (Some e, (_, s)) => (Some e, (r, s))
  end.

Definition StartHandler (q : QParams) (groupID : string) (r : MessageHandlerRunner) (s : store)
    : bool * (MessageHandlerRunner * store) :=
  let key := q_String q in
  match List.find (config_for key groupID) (r_handlers r) with
  | None => (false, (r, s))
  | Some h =>
      if existsb (instance_for key groupID) (r_instances r) then (false, (r, s))
      else let '(e, rs) := start_config h r s in (bool_decide (e = None), rs)
  end.

(** Cancels the context, shuts the instances and the tracker down. *)
Definition shutdown_runner (r : MessageHandlerRunner) (s : store) : MessageHandlerRunner * store :=
  (Runner (r_consumerID r) (r_handlers r) []
     (match r_stateTracker r with Some _ => Some ShutdownTracker | None => None end) false,
   foldl (λ s mh, (Shutdown_mh mh s).2) s (r_instances r)).

Definition isQueueActive (q : QParams) (s : store) : bool :=
  match LoadQueue q s with inr props => bool_decide (qp_OperationalState props = StateActive) | inl _ => false end.

(** The loop of [Run]: inactive queues are skipped, an error ends it. *)
Fixpoint run_configs (configs : list handlerConfig) (started : nat) (r : MessageHandlerRunner) (s : store)
    : (option queue_error + nat) * (MessageHandlerRunner * store) :=
  match configs with
  | [] => (inr started, (r, s))
  | h :: configs =>
      if negb (isQueueActive (hc_queue h) s) then run_configs configs started r s
      else match start_config h r s with
           | (Some e, (r, s)) => (inl e, (r, s))
           | (None, (r, s)) => run_configs configs (S started) r s
           end
  end.

(** [inl None]: all queues are non-operational. *)
Definition RunRunner (r : MessageHandlerRunner) (s : store)
    : (option queue_error + unit) * (MessageHandlerRunner * store) :=
  let r := Runner (r_consumerID r) (r_handlers r) (r_instances r) (Some NewQueueStateTracker) true in
  match run_configs (r_handlers r) 0 r s with
  | (inl e, (r, s)) => (inl e, shutdown_runner r s)
  | (inr started, (r, s)) =>
      if decide (started = 0%nat ∧ r_handlers r ≠ []) then (inl None, shutdown_runner r s)
      else (inr tt, (r, s))
  end.

(** Handlers by the state of their queue; the nil tracker of a runner that has
    not run panics. *)
Definition HandlerCount (r : MessageHandlerRunner) : option (nat * nat * nat * nat * nat) :=
  foldl (λ acc h,
    '(total, active, stopped, paused, locked) ← acc;
    t ← r_stateTracker r;
    Some (if IsActive (hc_queue h) t then (total, S active, stopped, paused, locked)
          else if IsStopped (hc_queue h) t then (total, active, S stopped, paused, locked)
          else if IsPaused (hc_queue h) t then (total, active, stopped, S paused, locked)
          else if IsLocked (hc_queue h) t then (total, active, stopped, paused, S locked)
          else (total, active, stopped, paused, locked)))
    (Some (length (r_handlers r), 0, 0, 0, 0)%nat) (r_handlers r).

(** *** Changes of state *)

Definition configs_of (q : QParams) (r : MessageHandlerRunner) : list handlerConfig :=
  filter (λ h, q_String (hc_queue h) = q_String q) (r_handlers r).

Definition stop_all (q : QParams) (r : MessageHandlerRunner) (s : store) : MessageHandlerRunner * store :=
  foldl (λ rs h, (StopHandler (hc_queue h) (hc_groupID h) rs.1 rs.2).2) (r, s) (configs_of q r).
Definition onQueueStopped := stop_all.
Definition onQueuePaused := stop_all.
Definition onQueueLocked := stop_all.
Definition onQueueActive (q : QParams) (r : MessageHandlerRunner) (s : store) : MessageHandlerRunner * store :=
  foldl (λ rs h, (StartHandler (hc_queue h) (hc_groupID h) rs.1 rs.2).2) (r, s) (configs_of q r).

(** An event, through the tracker; [None] where the tracker panics. *)
Definition on_event (q : QParams) (to : Z) (r : MessageHandlerRunner) (s : store) : option (MessageHandlerRunner * store) :=
  t ← r_stateTracker r;
  '(t, cb) ← handleStateChange q to t;
  let r := Runner (r_consumerID r) (r_handlers r) (r_instances r) (Some t) (r_live r) in
  Some (match cb with
        | Some OnStopped => onQueueStopped q r s
        | Some OnPaused => onQueuePaused q r s
        | Some OnLocked => onQueueLocked q r s
        | Some OnActive => onQueueActive q r s
        | None => (r, s)
        end).

(** *** Reconciliation *)

Definition runs_config (h : handlerConfig) (inst : MessageHandler) : bool :=
  instance_for (q_String (hc_queue h)) (hc_groupID h) inst && mh_running inst.

(** The configurations without a running instance whose queue is not known to
    be inactive. *)
Definition toStart (r : MessageHandlerRunner) : list handlerConfig :=
  filter (λ h, match r_stateTracker r with Some t => IsActive (hc_queue h) t | None => false end = true ∧
               existsb (runs_config h) (r_instances r) = false) (r_handlers r).

Definition reconcile (r : MessageHandlerRunner) (s : store) : MessageHandlerRunner * store :=
  foldl (λ rs h, (start_config h rs.1 rs.2).2) (r, s) (toStart r).

End Runner.

(** ** Consumers (consumer.go) *)

Record Consumer := Cons {
  c_id : string; c_running : bool; c_runner : MessageHandlerRunner; c_HeartbeatTTL : Z; c_hb : option Heartbeat
}.

Definition NewConsumer (id : string) (HeartbeatTTL : Z) : Consumer :=
  Cons id false (NewMessageHandlerRunner id) HeartbeatTTL None.

(** The events of the life of a consumer. *)
Inductive life_event := GoingUp | Up | GoingDown | Down.

Inductive consumer_error := ErrNoQueues | ErrRunHandlers (e : option queue_error).

Section Consumer.
Context (cfg : ConfigRec) (defaults : ConsumeOptions) (uuid uuid' : string) (now rnow : Z).
Context (info : string) (backoff : BackoffStrategy).

Definition set_runner (r : MessageHandlerRunner) (c : Consumer) : Consumer :=
  Cons (c_id c) (c_running c) r (c_HeartbeatTTL c) (c_hb c).

Definition ConsumeWithGroup (q : QParams) (groupID : string) (handler : nat) (c : Consumer) (s : store) : Consumer * store :=
  let '(r, s) := AddHandler cfg defaults uuid uuid' now rnow q groupID handler (c_runner c) s in
  if c_running c then let '(_, (r, s)) := StartHandler info backoff q groupID r s in (set_runner r c, s)
  else (set_runner r c, s).
Definition ConsumeQueue (q : QParams) (handler : nat) : Consumer → store → Consumer * store := ConsumeWithGroup q "" handler.

Definition CancelWithGroup (q : QParams) (groupID : string) (c : Consumer) (s : store) : Consumer * store :=
  let '(r, s) := RemoveHandler cfg defaults uuid uuid' now rnow q groupID (c_runner c) s in (set_runner r c, s).
Definition CancelQueue (q : QParams) : Consumer → store → Consumer * store := CancelWithGroup q "".

(** The heartbeat is registered once the handlers run. *)
Definition RunConsumer (c : Consumer) (s : store) : (consumer_error + unit) * list life_event * (Consumer * store) :=
  if c_running c then (inr tt, [], (c, s))
  else if negb (HasHandlers (c_runner c)) then (inl ErrNoQueues, [], (c, s))
  else match RunRunner cfg defaults uuid uuid' now rnow info backoff (c_runner c) s with
  | (inl e, (r, s)) => (inl (ErrRunHandlers e), [GoingUp; Down], (set_runner r c, s))
  | (inr _, (r, s)) =>
      let s := register rnow (c_id c) (c_HeartbeatTTL c) s in
      (inr tt, [GoingUp; Up],
       (Cons (c_id c) true r (c_HeartbeatTTL c) (Some (NewHeartbeat (c_id c) (c_HeartbeatTTL c))), s))
  end.

Definition stop_hb (c : Consumer) (s : store) : store := match c_hb c with Some h => hb_Stop h s | None => s end.

Definition ShutdownConsumer (c : Consumer) (s : store) : list life_event * (Consumer * store) :=
  if negb (c_running c) then
    let s := stop_hb c s in
    let s := unregister (c_id c) s in
    let '(r, s) := shutdown_runner cfg defaults uuid uuid' now rnow (c_runner c) s in
    ([], (Cons (c_id c) false r (c_HeartbeatTTL c) None, s))
  else
    let s := stop_hb c s in
    let '(r, s) := shutdown_runner cfg defaults uuid uuid' now rnow (c_runner c) s in
    let s := unregister (c_id c) s in
    ([GoingDown; Down], (Cons (c_id c) false r (c_HeartbeatTTL c) None, s)).

End Consumer.

(** ** Runs and reconciliations from section to section *)

(** A [Run] or a [reconcile] under way: the configurations it read and has not
    started yet, and the handler it has started and not kept yet. *)
Record task := Task {
  t_run : bool; t_total : nat; t_started : nat; t_todo : list handlerConfig; t_fresh : option MessageHandler
}.

Definition begin_run (c : Consumer) : task * Consumer :=
  let r := c_runner c in
  (Task true (length (r_handlers r)) 0 (r_handlers r) None,
   set_runner (Runner (r_consumerID r) (r_handlers r) (r_instances r) (Some NewQueueStateTracker) true) c).

Definition begin_reconcile (c : Consumer) : task := Task false 0 0 (toStart (c_runner c)) None.

Section task.
Context (cfg : ConfigRec) (defaults : ConsumeOptions) (uuid uuid' : string) (now rnow : Z).
Context (info : string) (backoff : BackoffStrategy).

(** The end of a [Run]: the consumer is up unless none of its queues is active. *)
Definition finish_run (t : task) (c : Consumer) (s : store) : Consumer * store :=
  if decide (t_started t = 0 ∧ 0 < t_total t)%nat then
    let '(r, s) := shutdown_runner cfg defaults uuid uuid' now rnow (c_runner c) s in (set_runner r c, s)
  else (Cons (c_id c) true (c_runner c) (c_HeartbeatTTL c) (Some (NewHeartbeat (c_id c) (c_HeartbeatTTL c))),
        register rnow (c_id c) (c_HeartbeatTTL c) s).

(** The next thing a task does: keep the handler it has started, under the
    lock; start the next one, without it; or end. *)
Definition advance (t : task) (c : Consumer) (s : store) : option task * (Consumer * store) :=
  let r := c_runner c in
  match t_fresh t, t_todo t with
  | Some mh, todo =>
      (Some (Task (t_run t) (t_total t) (S (t_started t)) todo None), (set_runner (set_instances (r_instances r ++ [mh]) r) c, s))
  | None, h :: todo =>
      let rest fresh := Task (t_run t) (t_total t) (t_started t) todo fresh in
      if t_run t && negb (isQueueActive (hc_queue h) s) then (Some (rest None), (c, s))
      else match run_in info backoff (r_live r) (NewMessageHandler (r_consumerID r) (hc_queue h) (hc_groupID h) (hc_handler h)) s with
      | (None, (mh, s)) => (Some (rest (Some mh)), (c, s))
      | (Some _, (_, s)) =>
          if t_run t then
            let '(r, s) := shutdown_runner cfg defaults uuid uuid' now rnow r s in (None, (set_runner r c, s))
          else (Some (rest None), (c, s))
      end
  | None, [] => (None, if t_run t then finish_run t c s else (c, s))
  end.

(** A task with nothing in between. *)
Fixpoint complete (fuel : nat) (t : task) (c : Consumer) (s : store) : option task * (Consumer * store) :=
  match fuel with
  | O => (Some t, (c, s))
  | S fuel => match advance t c s with
              | (Some t, (c, s)) => complete fuel t c s
              | (None, cs) => (None, cs)
              end
  end.
End task.

(** ** What starting a handler does *)

Lemma load_queue_same q s s' :
  db s' !! Properties (queue_keys_of q) = db s !! Properties (queue_keys_of q) → LoadQueue q s' = LoadQueue q s.
Proof.
  intros E. unfold LoadQueue, cmd_hgetall, with_view. rewrite E. by destruct (as_hash _).
Qed.

Definition pubsub_queue (s : store) (q : QParams) : Prop :=
  ∃ props, LoadQueue q s = inr props ∧ qp_DeliveryModel props = DeliveryPubSub.

(** A handler that runs is the one asked for, but for a group of its own. *)
Lemma run_shape info backoff c q g h s mh s' :
  RunHandler info backoff (NewMessageHandler c q g h) s = (inr tt, (mh, s')) →
  mh_running mh = true ∧ mh_queue mh = q ∧ mh_consumerID mh = c ∧ mh_handler mh = h ∧
  (mh_groupID mh = g ∨ (g = "" ∧ mh_groupID mh = ephemeralGroupID c ∧ pubsub_queue s q)).
Proof.
  unfold RunHandler. change (mh_running (NewMessageHandler c q g h)) with false.
  cbn [mh_consumerID mh_queue mh_groupID mh_handler mh_ephemeralGroup mh_dequeuer mh_acker mh_unacker mh_workerLock
    mh_workers NewMessageHandler].
  destruct (PrepareConsumerGroup c q g s) as [[e|[eg cr]] s1] eqn:Ep; [done|].
  destruct (SubscribeConsumer _ _ _ _ _) as [[e|u] s2]; [done|].
  destruct (InitDequeue _ _ _ _) as [e|d]; [done|]. intros [= <- <-].
  cbn [mh_running mh_queue mh_consumerID mh_groupID mh_handler]. split_and!; [done..|].
  destruct (decide (eg ≠ "" ∧ eg ≠ g)) as [[H1 H2]|H]; [|rewrite bool_decide_eq_false_2 by done; by left].
  rewrite bool_decide_eq_true_2 by done. right. revert Ep. unfold PrepareConsumerGroup, pubsub_queue.
  destruct (LoadQueue q s) as [[?|]|props]; [done..|].
  destruct (decide (qp_DeliveryModel props = DeliveryPubSub)); [|destruct (decide (g ≠ "")); [done|by intros [= <- <-]]].
  destruct (createConsumerGroup _ _ _) as [[?|?] ?]; [done|]. intros [= Heg <- <-].
  destruct (decide (g = "")) as [->|]; [|congruence]. split_and!; [done..|]. by eexists.
Qed.

(** The keys [Run] writes, whatever comes of it. *)
Definition run_touched (q : QParams) (c g : string) : list string :=
  let g' := if decide (g = "") then ephemeralGroupID c else g in
  group_touched q g' ++ registration_touched q c [g'; ""].

Lemma prepare_group c q g s eg created s' :
  PrepareConsumerGroup c q g s = (inr (eg, created), s') →
  eg = (if decide (g = "") then ephemeralGroupID c else g) ∨ (eg = "" ∧ g = "").
Proof.
  unfold PrepareConsumerGroup. destruct (LoadQueue q s) as [[?|]|props]; [done..|].
  case_decide; [destruct (createConsumerGroup _ _ _) as [[?|?] ?]; [done|]; intros [= <- _ _]; by left|].
  destruct (decide (g ≠ "")) as [|Hn]; [done|]. intros [= <- _ _]. right. split; [done|].
  destruct (decide (g = "")); [done|]. by destruct Hn.
Qed.

Lemma subscribed_wt info c q g s :
  queue_ok q → no_colon c = true → no_colon g = true → wt s → wt (SubscribeConsumer info c q g s).2.
Proof.
  intros Hq Hc Hg Hw. rewrite subscribe_run by (done || apply Hq). repeat case_decide; try done. by apply subscribe_wt.
Qed.

Lemma run_frame info backoff c q g h s :
  queue_ok q → no_colon c = true → no_colon g = true → wt s →
  let s' := (RunHandler info backoff (NewMessageHandler c q g h) s).2.2 in
  wt s' ∧ ∀ k, k ∉ run_touched q c g → db s' !! k = db s !! k.
Proof.
  intros Hq Hc Hg Hw. cbv zeta. destruct (prepare_frame c q g s Hq Hc Hg Hw) as [Hw1 Hf1].
  unfold RunHandler. change (mh_running (NewMessageHandler c q g h)) with false.
  cbn [mh_consumerID mh_queue mh_groupID mh_handler mh_ephemeralGroup mh_dequeuer mh_acker mh_unacker mh_workerLock
    mh_workers NewMessageHandler].
  unfold run_touched. cbv zeta. set (g' := if decide (g = "") then _ else _) in *.
  assert (no_colon g' = true) as Hg' by (unfold g'; case_decide; [by apply ephemeral_colon|done]).
  destruct (PrepareConsumerGroup c q g s) as [[e|[eg cr]] s1] eqn:Ep; cbn [snd] in Hw1, Hf1 |- *.
  { split; [done|]. intros k [Hk _]%not_elem_of_app. by apply Hf1. }
  set (grp := if bool_decide (eg ≠ "" ∧ eg ≠ g) then eg else g).
  assert (grp = g' ∨ grp = "") as Hgrp.
  { unfold grp. destruct (prepare_group _ _ _ _ _ _ _ Ep) as [->|[-> ->]]; fold g'.
    - case_bool_decide as E; [by left|]. unfold g' in *. destruct (decide (g = "")); [by right|by left].
    - right. by case_bool_decide. }
  assert (no_colon grp = true) as Hgc by (destruct Hgrp as [->| ->]; done).
  pose proof (subscribed_wt info c q grp s1 Hq Hc Hgc Hw1) as Hw2.
  assert (∀ k, k ∉ group_touched q g' ++ registration_touched q c [g'; ""] →
    db (SubscribeConsumer info c q grp s1).2 !! k = db s !! k) as Hf.
  { intros k [Hk1 Hk2]%not_elem_of_app. rewrite <-(Hf1 k Hk1). apply subscribe_frame.
    destruct (registration_mono q c g' k Hk2). destruct Hgrp as [->| ->]; done. }
  destruct (SubscribeConsumer info c q grp s1) as [[e|u] s2]; cbn [snd] in *; [done|].
  by destruct (InitDequeue _ _ _ _).
Qed.

Lemma run_keeps_properties q' q c g :
  queue_ok q → queue_ok q' → no_colon c = true → no_colon g = true →
  Properties (queue_keys_of q') ∉ run_touched q c g.
Proof.
  intros [Hq _] [Hq' _] Hc Hg. unfold run_touched. cbv zeta. set (g' := if decide (g = "") then _ else _).
  assert (no_colon g' = true) as Hg' by (unfold g'; case_decide; [by apply ephemeral_colon|done]).
  unfold group_touched, registration_touched. cbn [fmap list_fmap app].
  rewrite !not_elem_of_cons. split_and!; try apply not_elem_of_nil; key_ne.
Qed.

Lemma run_keeps_heartbeat c' q c g :
  queue_ok q → no_colon c' = true → no_colon c = true → no_colon g = true → ConsumerHeartbeat c' ∉ run_touched q c g.
Proof.
  intros [Hq _] Hc' Hc Hg. unfold run_touched. cbv zeta. set (g' := if decide (g = "") then _ else _).
  assert (no_colon g' = true) as Hg' by (unfold g'; case_decide; [by apply ephemeral_colon|done]).
  unfold group_touched, registration_touched. cbn [fmap list_fmap app].
  rewrite !not_elem_of_cons. split_and!; try apply not_elem_of_nil; key_ne.
Qed.

(** ** One running handler for each configuration *)

Definition conf_key (h : handlerConfig) : string * string := (q_String (hc_queue h), hc_groupID h).
Definition inst_key (inst : MessageHandler) : string * string := (q_String (mh_queue inst), mh_groupID inst).
Definition running_keys (l : list MessageHandler) : list (string * string) :=
  inst_key <$> filter (λ inst, mh_running inst = true) l.

Record tidy (r : MessageHandlerRunner) : Prop := {
  td_configs : NoDup (conf_key <$> r_handlers r);
  td_running : NoDup (running_keys (r_instances r))
}.

(** A configuration that names its group where the queue has groups. *)
Definition valid_config (h : handlerConfig) : Prop := queue_ok (hc_queue h) ∧ no_colon (hc_groupID h) = true.
Definition named (s : store) (h : handlerConfig) : Prop := hc_groupID h = "" → ¬ pubsub_queue s (hc_queue h).
Definition fits (hs : list handlerConfig) (s : store) : Prop := wt s ∧ ∀ h, h ∈ hs → valid_config h ∧ named s h.

Lemma config_for_key h' h : config_for (q_String (hc_queue h)) (hc_groupID h) h' = bool_decide (conf_key h' = conf_key h).
Proof. unfold config_for, conf_key. apply bool_decide_ext. split; [by intros [-> ->]|by intros [= -> ->]]. Qed.
Lemma instance_for_key q g inst : instance_for (q_String q) g inst = bool_decide (inst_key inst = (q_String q, g)).
Proof. unfold instance_for, inst_key. apply bool_decide_ext. split; [by intros [-> ->]|by intros [= -> ->]]. Qed.

Lemma take_first_split {A} (P : A → bool) l x rest :
  take_first P l = Some (x, rest) → P x = true ∧ ∃ l1 l2, l = l1 ++ x :: l2 ∧ rest = l1 ++ l2.
Proof.
  revert rest. induction l as [|y l IH]; intros rest; [done|]. cbn. destruct (P y) eqn:Ey.
  { intros [= <- <-]. split; [done|]. by exists [], l. }
  destruct (take_first P l) as [[z l']|]; [|done]. intros [= <- <-].
  destruct (IH l' eq_refl) as (Hz & l1 & l2 & -> & ->). split; [done|]. by exists (y :: l1), l2.
Qed.

Lemma running_keys_app l1 l2 : running_keys (l1 ++ l2) = running_keys l1 ++ running_keys l2.
Proof. unfold running_keys. by rewrite filter_app, fmap_app. Qed.

(** Stopping takes instances away; configurations stay distinct. *)
Record shrunk (r r' : MessageHandlerRunner) : Prop := {
  sh_instances : r_instances r' `sublist_of` r_instances r;
  sh_configs : NoDup (conf_key <$> r_handlers r) → NoDup (conf_key <$> r_handlers r');
  sh_live : r_live r' = r_live r;
  sh_id : r_consumerID r' = r_consumerID r
}.

Lemma running_sublist l1 l2 : l1 `sublist_of` l2 → running_keys l1 `sublist_of` running_keys l2.
Proof.
  intros H. unfold running_keys. apply fmap_sublist. induction H; rewrite ?filter_cons; [constructor|..];
    repeat case_decide; by repeat constructor.
Qed.

Lemma stop_shrunk cfg defaults uuid uuid' now rnow q g r s :
  shrunk r (StopHandler cfg defaults uuid uuid' now rnow q g r s).2.1 ∧
  r_handlers (StopHandler cfg defaults uuid uuid' now rnow q g r s).2.1 = r_handlers r.
Proof.
  unfold StopHandler. destruct (take_first _ _) as [[inst rest]|] eqn:E; cbn [snd fst]; [|by split].
  apply take_first_split in E as (_ & l1 & l2 & E1 & ->). split; [|done]. split; [|done..].
  rewrite E1. cbn. apply sublist_app; [done|]. by apply sublist_cons.
Qed.

Lemma existsb_false {A} (P : A → bool) l : existsb P l = false ↔ ∀ x, x ∈ l → P x = false.
Proof.
  induction l as [|y l IH]; cbn; [split; [intros _ x Hx; destruct (not_elem_of_nil _ Hx)|done]|].
  rewrite orb_false_iff, IH. split.
  - intros [H1 H2] x [->|?]%elem_of_cons; [done|by apply H2].
  - intros H. split; [apply H; left|intros x Hx; apply H; by right].
Qed.

Lemma replace_keys (h : handlerConfig) hs :
  conf_key <$> replace_first (config_for (q_String (hc_queue h)) (hc_groupID h)) h hs = conf_key <$> hs.
Proof.
  induction hs as [|x hs IH]; [done|]. cbn. rewrite config_for_key.
  case_bool_decide as E; cbn; [by rewrite E|by rewrite IH].
Qed.

Section start.
Context (info : string) (backoff : BackoffStrategy).

Lemma run_in_shape live c h s mh s' :
  run_in info backoff live (NewMessageHandler c (hc_queue h) (hc_groupID h) (hc_handler h)) s = (None, (mh, s')) → named s h →
  live = true ∧ mh_running mh = true ∧ inst_key mh = conf_key h.
Proof.
  unfold run_in. destruct live; [|done]. destruct (RunHandler _ _ _ _) as [[e|[]] [mh1 s1]] eqn:Er; [done|]. intros [= <- <-] Hn.
  destruct (run_shape _ _ _ _ _ _ _ _ _ Er) as (H1 & H2 & H3 & H4 & [H5|(H5 & _ & H6)]); [|by destruct (Hn H5)].
  split_and!; [done..|]. unfold inst_key, conf_key. by rewrite H2, H5.
Qed.

(** Starting one configuration adds at most its instance. *)
Lemma start_config_run h r s hs :
  no_colon (r_consumerID r) = true → valid_config h → named s h → fits hs s →
  ∃ e l s', start_config info backoff h r s = (e, (set_instances (r_instances r ++ l) r, s')) ∧ fits hs s' ∧
    (∀ q, queue_ok q → db s' !! Properties (queue_keys_of q) = db s !! Properties (queue_keys_of q)) ∧
    ((l = [] ∧ e ≠ None) ∨ ∃ mh, e = None ∧ l = [mh] ∧ mh_running mh = true ∧ inst_key mh = conf_key h ∧ r_live r = true).
Proof.
  intros Hid [Hq Hg] Hn [Hw Hfit]. unfold start_config, run_in. destruct (r_live r).
  2: { exists (Some None), [], s. rewrite app_nil_r. split_and!; [by destruct r|done|done|by left]. }
  destruct (run_frame info backoff (r_consumerID r) (hc_queue h) (hc_groupID h) (hc_handler h) s Hq Hid Hg Hw) as [Hw' Hf].
  assert (∀ q, queue_ok q → db (RunHandler info backoff (NewMessageHandler (r_consumerID r) (hc_queue h) (hc_groupID h)
    (hc_handler h)) s).2.2 !! Properties (queue_keys_of q) = db s !! Properties (queue_keys_of q)) as Hp.
  { intros q Hq'. apply Hf. by apply run_keeps_properties. }
  destruct (RunHandler _ _ _ _) as [[e|[]] [mh s']] eqn:Er; cbn [snd] in *.
  all: assert (fits hs s') as Hfit' by (split; [done|]; intros h' Hh'; destruct (Hfit h' Hh') as [Hv Hn']; split; [done|];
         intros Hg' (props & Hl & Hm); apply (Hn' Hg'); exists props; rewrite <-(load_queue_same (hc_queue h') s s'); [done|apply Hp, Hv]).
  - exists (Some (Some e)), [], s'. rewrite app_nil_r. split_and!; [by destruct r|done|done|by left].
  - destruct (run_shape _ _ _ _ _ _ _ _ _ Er) as (H1 & H2 & H3 & H4 & [H5|(H5 & _ & H6)]); [|by destruct (Hn H5)].
    exists None, [mh], s'. split_and!; [done..|]. right. exists mh. split_and!; [done..| |done].
    unfold inst_key, conf_key. by rewrite H2, H5.
Qed.

Lemma starts_run hs0 hs : ∀ r s,
  no_colon (r_consumerID r) = true → (∀ h, h ∈ hs → h ∈ hs0) → fits hs0 s →
  NoDup (conf_key <$> hs) → (∀ h, h ∈ hs → conf_key h ∉ running_keys (r_instances r)) →
  NoDup (running_keys (r_instances r)) →
  ∃ l s', foldl (λ rs h, (start_config info backoff h rs.1 rs.2).2) (r, s) hs = (set_instances (r_instances r ++ l) r, s') ∧
    NoDup (running_keys (r_instances r ++ l)) ∧ fits hs0 s' ∧ (r_live r = false → l = []).
Proof.
  induction hs as [|h hs IH]; intros r s Hid Hsub Hfit Hnd Hnew Hrun.
  { exists [], s. rewrite app_nil_r. by destruct r. }
  cbn [foldl fst snd]. destruct (proj2 Hfit h) as [Hv Hn]; [apply Hsub; left|].
  destruct (start_config_run h r s hs0 Hid Hv Hn Hfit) as (e & l & s1 & -> & Hfit1 & _ & Hl).
  cbn [fmap list_fmap] in Hnd. apply NoDup_cons in Hnd as [Hh Hnd]. cbn [snd].
  assert (running_keys l = [] ∨ running_keys l = [conf_key h]) as Hkl.
  { destruct Hl as [[-> _]|(mh & _ & -> & Hr & Hk & _)]; [by left|right]. unfold running_keys. 
    rewrite filter_cons_True by done. cbn. by rewrite Hk. }
  destruct (IH (set_instances (r_instances r ++ l) r) s1) as (l' & s' & -> & H1 & H2 & H3).
  - done.
  - intros h' Hh'. apply Hsub. by right.
  - done.
  - done.
  - intros h' Hh'. cbn [r_instances set_instances]. rewrite running_keys_app, not_elem_of_app. split; [apply Hnew; by right|].
    destruct Hkl as [->| ->]; [apply not_elem_of_nil|]. rewrite list_elem_of_singleton. intros E. apply Hh. rewrite <-E.
    by apply list_elem_of_fmap_2.
  - cbn [r_instances set_instances]. rewrite running_keys_app. apply NoDup_app. split_and!; [done| |].
    + intros k Hk. destruct Hkl as [->| ->]; [apply not_elem_of_nil|]. rewrite list_elem_of_singleton. intros ->.
      apply (Hnew h); [left|done].
    + destruct Hkl as [->| ->]; [constructor|apply NoDup_singleton].
  - exists (l ++ l'), s'. cbn [r_instances set_instances] in *. rewrite app_assoc. split_and!; [by destruct r|done|done|].
    intros Hlv. rewrite (H3 Hlv). destruct Hl as [[-> _]|(mh & _ & _ & _ & _ & ?)]; [done|congruence].
Qed.

Definition grown (r : MessageHandlerRunner) (rs : MessageHandlerRunner * store) : Prop :=
  ∃ l s', rs = (set_instances (r_instances r ++ l) r, s') ∧ tidy (set_instances (r_instances r ++ l) r) ∧
    fits (r_handlers r) s' ∧ (r_live r = false → l = []).

Lemma grown_refl r s : tidy r → fits (r_handlers r) s → grown r (r, s).
Proof. intros Ht Hf. exists [], s. rewrite app_nil_r. by destruct r. Qed.

Lemma start_one h r s :
  no_colon (r_consumerID r) = true → fits (r_handlers r) s → tidy r → h ∈ r_handlers r →
  conf_key h ∉ running_keys (r_instances r) → grown r (start_config info backoff h r s).2.
Proof.
  intros Hid Hfit [H1 H2] Hh Hnew.
  destruct (starts_run (r_handlers r) [h] r s Hid) as (l & s' & E & H3 & H4 & H5).
  - by intros h' ->%list_elem_of_singleton.
  - done.
  - apply NoDup_singleton.
  - by intros h' ->%list_elem_of_singleton.
  - done.
  - cbn [foldl fst snd] in E. rewrite E. by exists l, s'.
Qed.

Lemma start_handler_grown q g r s :
  no_colon (r_consumerID r) = true → fits (r_handlers r) s → tidy r → grown r (StartHandler info backoff q g r s).2.
Proof.
  intros Hid Hfit Ht. unfold StartHandler. destruct (List.find _ _) as [h|] eqn:Eh; [|by apply grown_refl].
  apply List.find_some in Eh as [Hin Hk]. apply list_elem_of_In in Hin.
  destruct (existsb _ _) eqn:Ex; [by apply grown_refl|].
  pose proof (start_one h r s Hid Hfit Ht Hin) as H. destruct (start_config _ _ _ _ _) as [e rs]. apply H.
  unfold config_for in Hk. apply bool_decide_eq_true in Hk as [Hk1 Hk2]. unfold conf_key. rewrite Hk1, Hk2.
  intros (inst & E & [_ Hi]%list_elem_of_filter)%list_elem_of_fmap. rewrite existsb_false in Ex. specialize (Ex inst Hi).
  rewrite instance_for_key in Ex. apply bool_decide_eq_false in Ex. by apply Ex.
Qed.

End start.

Section steps.
Context (cfg : ConfigRec) (defaults : ConsumeOptions) (uuid uuid' info : string) (backoff : BackoffStrategy).
Context (batchAcks batchUnacks : BatchConfig).

(** What a handler does by itself: getting the lock of the workers, settling a
    message, a turn of its loop. *)
Inductive handler_step (mh : MessageHandler) : MessageHandler → Prop :=
| hs_lock rnow s : handler_step mh (acquireWorkerLock rnow mh s).1
| hs_settle now rnow e x s : handler_step mh (settle cfg defaults uuid uuid' now rnow batchAcks batchUnacks e x mh s).1
| hs_turn now rnow cancelled s : handler_step mh (loop_turn cfg defaults uuid uuid' now rnow cancelled mh s).2.1.

(** A consumer with the runs and reconciliations under way; [o_apart]: no
    handler was started, nothing run or shut down, while a task was under way. *)
Record overlap := Overlap { o_consumer : Consumer; o_tasks : list task; o_apart : bool }.

Definition idle (ts : list task) : bool := bool_decide (ts = []).
Definition no_run (ts : list task) : bool := forallb (λ t, negb (t_run t)) ts.
Definition set_tracker (t : QueueStateTracker) (r : MessageHandlerRunner) : MessageHandlerRunner :=
  Runner (r_consumerID r) (r_handlers r) (r_instances r) (Some t) (r_live r).
Definition set_fresh (mh : MessageHandler) (t : task) : task :=
  Task (t_run t) (t_total t) (t_started t) (t_todo t) (Some mh).

(** A step of a consumer, on the store it finds: a section under the runner's
    lock, of a call of the user or of the callback of a queue event, the next
    thing a task does, or a step of a handler.  [Run] and [Shutdown] of the
    consumer exclude each other; nothing else does. *)
Inductive consumer_step : overlap → overlap → Prop :=
| cs_add now rnow q g h s c ts b :
    consumer_step (Overlap c ts b) (Overlap (set_runner (AddHandler cfg defaults uuid uuid' now rnow q g h (c_runner c) s).1 c) ts b)
| cs_cancel now rnow q g s c ts b :
    consumer_step (Overlap c ts b) (Overlap (CancelWithGroup cfg defaults uuid uuid' now rnow q g c s).1 ts b)
| cs_stop now rnow q g s c ts b :
    consumer_step (Overlap c ts b) (Overlap (set_runner (StopHandler cfg defaults uuid uuid' now rnow q g (c_runner c) s).2.1 c) ts b)
| cs_start q g s c ts b : fits (r_handlers (c_runner c)) s →
    consumer_step (Overlap c ts b) (Overlap (set_runner (StartHandler info backoff q g (c_runner c) s).2.1 c) ts (b && idle ts))
| cs_track q to t t' cb c ts b : r_stateTracker (c_runner c) = Some t → handleStateChange q to t = Some (t', cb) →
    consumer_step (Overlap c ts b) (Overlap (set_runner (set_tracker t' (c_runner c)) c) ts b)
| cs_run c ts b : c_running c = false → no_run ts = true →
    consumer_step (Overlap c ts b) (Overlap (begin_run c).2 (ts ++ [(begin_run c).1]) (b && idle ts))
| cs_reconcile c ts b :
    consumer_step (Overlap c ts b) (Overlap c (ts ++ [begin_reconcile c]) (b && idle ts))
| cs_advance i t now rnow s t' c' s' c ts b : ts !! i = Some t → fits (t_todo t) s →
    advance cfg defaults uuid uuid' now rnow info backoff t c s = (t', (c', s')) →
    consumer_step (Overlap c ts b) (Overlap c' (match t' with Some t' => <[i := t']> ts | None => delete i ts end) b)
| cs_shutdown now rnow s c ts b : no_run ts = true →
    consumer_step (Overlap c ts b) (Overlap (ShutdownConsumer cfg defaults uuid uuid' now rnow c s).2.1 ts (b && idle ts))
| cs_handler i mh mh' c ts b : r_instances (c_runner c) !! i = Some mh → handler_step mh mh' →
    consumer_step (Overlap c ts b) (Overlap (set_runner (set_instances (<[i := mh']> (r_instances (c_runner c))) (c_runner c)) c) ts b)
| cs_fresh i t mh mh' c ts b : ts !! i = Some t → t_fresh t = Some mh → handler_step mh mh' →
    consumer_step (Overlap c ts b) (Overlap c (<[i := set_fresh mh' t]> ts) b).

Definition down (c : Consumer) : Prop := c_running c = false → r_instances (c_runner c) = [] ∧ r_live (c_runner c) = false.

Definition started (ts : list task) : list MessageHandler := omap t_fresh ts.

(** A task will start none of the handlers that run. *)
Record task_inv (c : Consumer) (t : task) : Prop := {
  tk_todo : NoDup (conf_key <$> t_todo t);
  tk_new : ∀ h, h ∈ t_todo t → conf_key h ∉ running_keys (r_instances (c_runner c) ++ started [t]);
  tk_down : t_run t = false → down c ∧ (c_running c = false → t_fresh t = None)
}.

Record overlap_inv (c : Consumer) (ts : list task) : Prop := {
  oi_id : no_colon (r_consumerID (c_runner c)) = true;
  oi_configs : NoDup (conf_key <$> r_handlers (c_runner c));
  oi_running : NoDup (running_keys (r_instances (c_runner c) ++ started ts));
  oi_tasks : match ts with [] => down c | [t] => task_inv c t | _ => False end
}.

Lemma shutdown_handler_keeps now rnow mh s :
  let mh' := (ShutdownHandler cfg defaults uuid uuid' now rnow mh s).1 in inst_key mh' = inst_key mh ∧ mh_running mh' = false.
Proof.
  unfold ShutdownHandler. cbv zeta. destruct (mh_running mh) eqn:Er; cbn [negb]; [|done].
  cbn [mh_workerLock set_batchers]. destruct (mh_workerLock mh) as [l|]; [|done]. by destruct (Release l _).
Qed.

Lemma handler_step_keeps mh mh' :
  handler_step mh mh' → inst_key mh' = inst_key mh ∧ (mh_running mh' = true → mh_running mh = true).
Proof.
  intros [rnow s|now rnow e x s|now rnow cancelled s].
  - unfold acquireWorkerLock. destruct (mh_workerLock mh) as [l|]; [|done]. destruct (Acquire1 rnow l s) as [[[] l'] s'].
    + destruct (mh_running mh) eqn:Er; cbn [negb]; [done|]. destruct (Release l' s'). cbn. by rewrite Er.
    + done.
  - unfold settle. by destruct x.
  - unfold loop_turn. destruct cancelled; [done|]. destruct (mh_dequeuer mh) as [d|]; [|done].
    destruct (Dequeue _ _ _ _ _ _ d s) as [[e|[env|]] s1]; cbn [snd fst]; [|done..].
    assert (inst_key (ShutdownHandler cfg defaults uuid uuid' now rnow mh s1).1 = inst_key mh ∧
      mh_running (ShutdownHandler cfg defaults uuid uuid' now rnow mh s1).1 = false) as [H1 H2] by apply shutdown_handler_keeps.
    destruct e; cbn [snd fst]; try done; by rewrite H2.
Qed.

Lemma running_insert l i mh mh' :
  l !! i = Some mh → inst_key mh' = inst_key mh → (mh_running mh' = true → mh_running mh = true) →
  running_keys (<[i := mh']> l) `sublist_of` running_keys l.
Proof.
  intros Hi Hk Hr. rewrite insert_take_drop by by eapply lookup_lt_Some. apply take_drop_middle in Hi. rewrite <-Hi at 3.
  rewrite !running_keys_app. apply sublist_app; [done|]. unfold running_keys. rewrite !filter_cons.
  case_decide as E; [rewrite decide_True by auto; cbn; by rewrite Hk|]. case_decide; [by apply sublist_cons|done].
Qed.

Lemma add_shrunk now rnow q g h r s : shrunk r (AddHandler cfg defaults uuid uuid' now rnow q g h r s).1.
Proof.
  unfold AddHandler. set (hc := {| hc_queue := q |}). destruct (existsb _ _) eqn:Ex.
  - pose proof (stop_shrunk cfg defaults uuid uuid' now rnow q g r s) as [[H1 H2 H3 H4] H5].
    destruct (StopHandler _ _ _ _ _ _ _ _ _ _) as [b [r1 s1]]. cbn [fst snd] in *. split; [done| |done..].
    intros Ht. cbn [r_handlers set_handlers]. by rewrite (replace_keys hc), H5.
  - split; [done| |done..]. intros T1. cbn [r_handlers set_handlers fst]. rewrite fmap_app, NoDup_app.
    change (conf_key <$> [hc]) with [conf_key hc]. split_and!; [done| |apply NoDup_singleton].
    intros k (h' & -> & Hh')%list_elem_of_fmap. rewrite list_elem_of_singleton. intros E.
    rewrite existsb_false in Ex. specialize (Ex h' Hh'). change (config_for (q_String (hc_queue hc)) (hc_groupID hc) h' = false) in Ex.
    rewrite config_for_key in Ex. by apply bool_decide_eq_false in Ex.
Qed.

Lemma remove_shrunk now rnow q g r s : shrunk r (RemoveHandler cfg defaults uuid uuid' now rnow q g r s).1.
Proof.
  unfold RemoveHandler. cbv zeta. set (r1 := match take_first _ _ with Some _ => _ | None => _ end).
  assert (r_instances r1 = r_instances r ∧ r_live r1 = r_live r ∧ r_consumerID r1 = r_consumerID r ∧
    (NoDup (conf_key <$> r_handlers r) → NoDup (conf_key <$> r_handlers r1))) as (E1 & E2 & E3 & E4).
  { unfold r1. destruct (take_first _ _) as [[h rest]|] eqn:E; [|done]. apply take_first_split in E as (_ & l1 & l2 & E & ->).
    split_and!; [done..|]. rewrite E. cbn [r_handlers set_handlers]. intros H. apply (sublist_NoDup _ _ H), fmap_sublist.
    apply sublist_app; [done|]. by apply sublist_cons. }
  destruct (stop_shrunk cfg defaults uuid uuid' now rnow q g r1 s) as [[H1 H2 H3 H4] _].
  split; [by rewrite <-E1|tauto|congruence|congruence].
Qed.

(** Handlers that end, configurations that go and events that are noted break
    nothing. *)
Lemma overlap_inv_less c r' ts ts' :
  overlap_inv c ts →
  running_keys (r_instances r' ++ started ts') `sublist_of` running_keys (r_instances (c_runner c) ++ started ts) →
  (r_instances (c_runner c) = [] → r_instances r' = []) →
  (NoDup (conf_key <$> r_handlers (c_runner c)) → NoDup (conf_key <$> r_handlers r')) →
  r_live r' = r_live (c_runner c) → r_consumerID r' = r_consumerID (c_runner c) →
  Forall2 (λ t' t, t_run t' = t_run t ∧ t_todo t' = t_todo t ∧ (t_fresh t = None → t_fresh t' = None)) ts' ts →
  overlap_inv (set_runner r' c) ts'.
Proof.
  intros [Hid Hcf Hrun Hts] Hsub Hnil Hconf Hlive Hid' Hf.
  assert (down c → down (set_runner r' c)) as Hdown.
  { intros Hd Hr. destruct (Hd Hr) as [? ?]. cbn. rewrite Hlive. auto. }
  split; cbn [c_runner set_runner]; [by rewrite Hid'|by apply Hconf|by apply (sublist_NoDup _ _ Hrun)|].
  destruct Hf as [|t' t ts' ts (E1 & E2 & E3) Hf]; [by apply Hdown|]. destruct Hf; [|done].
  destruct Hts as [H1 H2 H3]. split; cbn [c_runner set_runner c_running]; rewrite ?E1, ?E2; [done| |].
  - intros h Hh Hin. apply (H2 h Hh). by apply (elem_of_sublist _ _ _ Hin).
  - intros Hr. destruct (H3 Hr) as [? ?]. split; auto.
Qed.

Lemma shrunk_inv c r' ts : overlap_inv c ts → shrunk (c_runner c) r' → overlap_inv (set_runner r' c) ts.
Proof.
  intros Hi [H1 H2 H3 H4]. apply (overlap_inv_less c r' ts ts Hi); [..|done|done|done|].
  - apply running_sublist, sublist_app; done.
  - intros E. rewrite E in H1. by apply sublist_nil_r in H1.
  - apply Forall_Forall2_diag, Forall_true. done.
Qed.

Lemma shutdown_inv now rnow c r s ttl hb running :
  no_colon (r_consumerID r) = true → NoDup (conf_key <$> r_handlers r) →
  overlap_inv (Cons c running (shutdown_runner cfg defaults uuid uuid' now rnow r s).1 ttl hb) [].
Proof. intros H1 H2. split; cbn; [done|done|constructor|done]. Qed.

Lemma advance_inv now rnow c t s t' c' s' :
  overlap_inv c [t] → fits (t_todo t) s →
  advance cfg defaults uuid uuid' now rnow info backoff t c s = (t', (c', s')) →
  overlap_inv c' (match t' with Some t' => [t'] | None => [] end).
Proof.
  intros [Hid Hcf Hrun [H1 H2 H3]] Hfit. destruct t as [run total n todo fresh]. cbn [started omap list_omap t_run t_todo t_fresh] in *.
  unfold advance. cbn [t_fresh t_todo t_run t_total t_started]. destruct fresh as [mh|].
  { intros [= <- <- _]. split; cbn [set_runner c_runner set_instances r_consumerID r_handlers r_instances started omap list_omap t_fresh];
      [done|done|by rewrite app_nil_r|].
    split; cbn [t_todo t_run t_fresh started omap list_omap]; [done|cbn; by rewrite app_nil_r|].
    intros Hr. destruct (H3 Hr) as [_ Hn]. split; [|done]. by intros [=]%Hn. }
  destruct todo as [|h todo].
  - intros [= <- E]. unfold finish_run in E. destruct run.
    + destruct (decide _); [|].
      * destruct (shutdown_runner _ _ _ _ _ _ _ _) as [r1 s1] eqn:Es. injection E as <- <-.
        change r1 with (r1, s1).1. rewrite <-Es. by apply shutdown_inv.
      * injection E as <- <-. split; [done|done|done|done].
    + injection E as <- <-. split; [done|done|done|]. by apply H3.
  - cbn [fmap list_fmap] in H1. apply NoDup_cons in H1 as [Hh Hnd].
    assert (∀ h', h' ∈ todo → conf_key h' ∉ running_keys (r_instances (c_runner c) ++ [])) as H2' by (intros h' ?; apply H2; by right).
    assert (overlap_inv c [Task run total n todo None]) as Hskip by by split.
    destruct (run && _); [by intros [= <- <- _]|].
    destruct (run_in _ _ _ _ _) as [[e|] [mh s1]] eqn:Er.
    + destruct run; [|by intros [= <- <- _]]. destruct (shutdown_runner _ _ _ _ _ _ _ _) as [r1 s2] eqn:Es.
      intros [= <- <- _]. change r1 with (r1, s2).1. rewrite <-Es. by apply shutdown_inv.
    + intros [= <- <- _]. destruct (proj2 Hfit h ltac:(left)) as [_ Hn].
      destruct (run_in_shape info backoff _ _ _ _ _ _ Er Hn) as (Hl & Hm & Hk).
      assert (running_keys [mh] = [conf_key h]) as Emh by (unfold running_keys; rewrite filter_cons_True by done; cbn; by rewrite Hk).
      split; [done|done| |split]; cbn [started omap list_omap t_fresh t_todo t_run].
      * rewrite app_nil_r in Hrun, H2. rewrite running_keys_app, Emh, NoDup_app. split_and!; [done| |apply NoDup_singleton].
        intros k Hk1 ->%list_elem_of_singleton. apply (H2 h); [left|done].
      * done.
      * intros h' Hh'. rewrite running_keys_app, Emh, not_elem_of_app, list_elem_of_singleton.
        specialize (H2' h' Hh'). rewrite app_nil_r in H2'. split; [done|]. intros E. apply Hh. rewrite <-E. by apply list_elem_of_fmap_2.
      * intros Hr. destruct (H3 Hr) as [Hd _]. split; [done|]. intros [_ ?]%Hd. congruence.
Qed.

Lemma reconcile_inv c : overlap_inv c [] → overlap_inv c [begin_reconcile c].
Proof.
  intros [Hid Hcf Hrun Hd]. cbn [started omap list_omap] in *. split; [done|done|done|]. cbn [begin_reconcile].
  split; cbn [t_todo t_fresh t_run begin_reconcile started omap list_omap]; [| |done].
  - apply (sublist_NoDup _ _ Hcf), fmap_sublist, sublist_filter.
  - rewrite app_nil_r. intros h [[_ Hx] _]%list_elem_of_filter (inst & E & [Hr Hi]%list_elem_of_filter)%list_elem_of_fmap.
    rewrite existsb_false in Hx. specialize (Hx inst Hi). unfold runs_config in Hx. rewrite Hr, andb_true_r, instance_for_key in Hx.
    apply bool_decide_eq_false in Hx. apply Hx. by rewrite <-E.
Qed.

Lemma run_inv c : c_running c = false → overlap_inv c [] → overlap_inv (begin_run c).2 [(begin_run c).1].
Proof.
  intros Hr [Hid Hcf Hrun Hd]. destruct (Hd Hr) as [Hi _]. split; [done|done|by cbn; rewrite Hi; constructor|].
  split; cbn; [done|rewrite Hi; intros; apply not_elem_of_nil|done].
Qed.

Lemma one_task c ts i t : overlap_inv c ts → ts !! i = Some t → ts = [t] ∧ i = 0%nat.
Proof. intros [_ _ _ H] Hi. destruct ts as [|t0 [|]]; [done| |done]. by destruct i; simplify_eq/=. Qed.

Lemma overlap_inv_step x y :
  consumer_step x y → (o_apart x = true → overlap_inv (o_consumer x) (o_tasks x)) →
  o_apart y = true → overlap_inv (o_consumer y) (o_tasks y).
Proof.
  intros Hs Hx Hy. assert (o_apart x = true) as Hb by (destruct Hs; cbn in *; by destruct b). specialize (Hx Hb).
  destruct Hs; cbn [o_consumer o_tasks o_apart] in *; try (subst b; cbn in Hy; apply bool_decide_eq_true in Hy; subst ts); cbn [app].
  - by apply shrunk_inv, add_shrunk.
  - unfold CancelWithGroup. pose proof (remove_shrunk now rnow q g (c_runner c) s) as H.
    destruct (RemoveHandler _ _ _ _ _ _ _ _ _ _) as [r1 s1]. by apply shrunk_inv.
  - by apply shrunk_inv, stop_shrunk.
  - destruct Hx as [Hid Hcf Hrun Hd]. cbn [started omap list_omap] in *. rewrite app_nil_r in Hrun.
    pose proof (start_handler_grown info backoff q g (c_runner c) s Hid ltac:(done) ltac:(done)) as (l & s' & -> & [G1 G2] & _ & G3).
    split; [done|done|by cbn; rewrite app_nil_r|]. intros Hr. cbn in *. destruct (Hd Hr) as [E1 E2]. by rewrite E1, (G3 E2).
  - by apply shrunk_inv.
  - by apply run_inv.
  - by apply reconcile_inv.
  - destruct (one_task _ _ _ _ Hx H) as [-> ->]. pose proof (advance_inv _ _ _ _ _ _ _ _ Hx H0 H1) as Hi. by destruct t'.
  - destruct Hx as [Hid Hcf _ _]. unfold ShutdownConsumer. cbv zeta.
    destruct (negb _); destruct (shutdown_runner _ _ _ _ _ _ _ _) as [r1 s1] eqn:E; cbn [snd fst];
      change r1 with (r1, s1).1; rewrite <-E; by apply shutdown_inv.
  - destruct (handler_step_keeps mh mh' H0) as [E1 E2]. apply (overlap_inv_less c _ ts ts Hx); [..|done|done|done|].
    + cbn [r_instances set_instances]. rewrite <-insert_app_l by by eapply lookup_lt_Some.
      apply running_insert with mh; [|done|done]. rewrite lookup_app_l; [done|by eapply lookup_lt_Some].
    + intros E. by rewrite E in H.
    + apply Forall_Forall2_diag, Forall_true. done.
  - destruct (one_task _ _ _ _ Hx H) as [-> ->]. destruct (handler_step_keeps mh mh' H1) as [E1 E2].
    replace c with (set_runner (c_runner c) c) by by destruct c.
    apply (overlap_inv_less c _ [t] _ Hx); [|done|done|done|done|].
    + cbn [started omap list_omap t_fresh set_fresh list_insert insert]. rewrite H0. rewrite !running_keys_app.
      apply sublist_app; [done|]. by apply (running_insert [mh] 0 mh mh').
    + constructor; [|constructor]. cbn. rewrite H0. done.
Qed.

(** C16: whatever calls, queue events, runs, reconciliations and steps of its
    handlers a consumer went through, section by section of the runner's lock:
    as long as no handler was started and nothing run or shut down while a run
    or a reconciliation was under way ([o_apart]), and every queue with
    consumer groups is consumed with a group ([fits]), it has no two running
    handlers for the same queue and group, the one just started and not kept
    yet included, no two configurations, and no handler when it does not run.
    Without the first condition the queue that is resumed during a
    reconciliation gets two ([resumed_queue_starts_twice]); without the second
    every reconciliation adds one ([reconcile_multiplies]). *)
Theorem one_running_handler id ttl x :
  no_colon id = true → rtc consumer_step (Overlap (NewConsumer id ttl) [] true) x → o_apart x = true →
  NoDup (running_keys (r_instances (c_runner (o_consumer x)) ++ started (o_tasks x))) ∧
  NoDup (conf_key <$> r_handlers (c_runner (o_consumer x))) ∧
  (c_running (o_consumer x) = false → o_tasks x = [] → r_instances (c_runner (o_consumer x)) = []).
Proof.
  intros Hid Hr Hx. assert (o_apart x = true → overlap_inv (o_consumer x) (o_tasks x)) as [_ H1 H2 H3]%(λ H, H Hx).
  { clear Hx. revert Hr. apply (rtc_ind_r (λ x, o_apart x = true → overlap_inv (o_consumer x) (o_tasks x)));
      [|intros ? ? _ Hs Hi; by eapply overlap_inv_step].
    intros _. split; [done|constructor|constructor|done]. }
  split_and!; [done..|]. intros Hd E. rewrite E in H3. by apply H3.
Qed.
End steps.

(** ** Tasks with nothing in between *)

Section undisturbed.
Context (cfg : ConfigRec) (defaults : ConsumeOptions) (uuid uuid' : string) (now rnow : Z).
Context (info : string) (backoff : BackoffStrategy).
#[local] Abbreviation complete_task := (complete cfg defaults uuid uuid' now rnow info backoff).
#[local] Abbreviation starts := (foldl (λ rs h, (start_config info backoff h rs.1 rs.2).2)).

Lemma complete_starts todo : ∀ total n fuel c s, (2 * length todo < fuel)%nat →
  complete_task fuel (Task false total n todo None) c s =
  (None, (set_runner (starts (c_runner c, s) todo).1 c, (starts (c_runner c, s) todo).2)).
Proof.
  induction todo as [|h todo IH]; intros total n [|fuel] c s Hf; [lia| |lia|]; cbn [complete advance t_fresh t_todo t_run andb].
  { by destruct c. }
  cbn [length foldl fst snd] in *. unfold start_config. destruct (run_in _ _ _ _ _) as [[e|] [mh s1]].
  - rewrite IH by lia. done.
  - destruct fuel as [|fuel]; [lia|]. cbn [complete advance t_fresh t_todo t_run]. rewrite IH by lia. done.
Qed.

(** A reconciliation nobody comes between is [reconcile]. *)
Theorem undisturbed_reconcile c s :
  complete_task (S (2 * length (toStart (c_runner c)))) (begin_reconcile c) c s =
  let '(r, s') := reconcile info backoff (c_runner c) s in (None, (set_runner r c, s')).
Proof.
  unfold begin_reconcile. rewrite complete_starts by lia. unfold reconcile. by destruct (starts (c_runner c, s) _).
Qed.

Lemma complete_runs todo : ∀ total n fuel c s, (2 * length todo < fuel)%nat →
  complete_task fuel (Task true total n todo None) c s =
  (None, match run_configs info backoff todo n (c_runner c) s with
         | (inl _, (r, s)) => let '(r, s) := shutdown_runner cfg defaults uuid uuid' now rnow r s in (set_runner r c, s)
         | (inr m, (r, s)) => finish_run cfg defaults uuid uuid' now rnow (Task true total m [] None) (set_runner r c) s
         end).
Proof.
  induction todo as [|h todo IH]; intros total n [|fuel] c s Hf; [lia| |lia|]; cbn [complete advance t_fresh t_todo t_run andb run_configs].
  { by destruct c. }
  cbn [length] in *. destruct (negb _); [by rewrite IH by lia|]. unfold start_config.
  destruct (run_in _ _ _ _ _) as [[e|] [mh s1]].
  - by destruct (shutdown_runner _ _ _ _ _ _ _ _).
  - destruct fuel as [|fuel]; [lia|]. cbn [complete advance t_fresh t_todo t_run t_total t_started]. rewrite IH by lia. cbn [c_runner set_runner].
    by destruct (run_configs _ _ _ _ _ _) as [[e|m] [r s2]].
Qed.

(** A run nobody comes between is [RunConsumer]. *)
Theorem undisturbed_run c s :
  c_running c = false → HasHandlers (c_runner c) = true →
  complete_task (S (2 * length (r_handlers (c_runner c)))) (begin_run c).1 (begin_run c).2 s =
  (None, (RunConsumer cfg defaults uuid uuid' now rnow info backoff c s).2).
Proof.
  intros Hr Hh. unfold begin_run. cbn [fst snd]. rewrite complete_runs by lia. unfold RunConsumer. rewrite Hr, Hh. cbn [negb].
  unfold RunRunner. cbn [c_runner set_runner r_handlers]. set (r0 := Runner _ _ _ _ _).
  assert (0 < length (r_handlers (c_runner c)))%nat as Hl by (unfold HasHandlers in Hh; by apply bool_decide_eq_true in Hh).
  destruct (run_configs _ _ _ _ _ _) as [[e|m] [r s1]] eqn:E.
  { by destruct (shutdown_runner _ _ _ _ _ _ _ _). }
  unfold finish_run. cbn [t_started t_total].
  assert (r_handlers r = r_handlers (c_runner c)) as Er.
  { change r with (r, s1).1. change (r, s1) with (@inr (option queue_error) nat m, (r, s1)).2. rewrite <-E.
    change (r_handlers (c_runner c)) with (r_handlers r0) at 2. generalize (r_handlers (c_runner c)), 0%nat, r0, s. clear.
    induction l as [|h l IH]; intros n r s; cbn [run_configs]; [done|]. destruct (negb _); [apply IH|].
    unfold start_config. destruct (run_in _ _ _ _ _) as [[e|] [mh s1]]; [done|]. by rewrite IH. }
  destruct (decide (m = 0 ∧ 0 < _)%nat) as [[-> _]|Hn].
  - rewrite decide_True by (split; [done|]; rewrite Er; by destruct (r_handlers (c_runner c)); [cbn in Hl; lia|]).
    by destruct (shutdown_runner _ _ _ _ _ _ _ _).
  - rewrite decide_False by (intros [-> _]; by apply Hn). done.
Qed.
End undisturbed.

(** ** Reconciliation restarts what should run *)

(** The queue exists, is active, and has consumer groups if one is named. *)
Record ready (s : store) (h : handlerConfig) : Prop := {
  rd_type : is_Some (hsh s (Properties (queue_keys_of (hc_queue h))) !! qkey Q_Type);
  rd_state : hsh s (Properties (queue_keys_of (hc_queue h))) !! qkey Q_OperationalState = Some (itoa StateActive);
  rd_group : hc_groupID h = "" ∨
    qp_DeliveryModel (DecodeQueueProps (hsh s (Properties (queue_keys_of (hc_queue h))))) = DeliveryPubSub
}.

Lemma hsh_same s s' k : db s' !! k = db s !! k → hsh s' k = hsh s k.
Proof. intros E. unfold hsh. by rewrite E. Qed.

Lemma ready_same s s' h :
  db s' !! Properties (queue_keys_of (hc_queue h)) = db s !! Properties (queue_keys_of (hc_queue h)) → ready s h → ready s' h.
Proof. intros E%hsh_same [H1 H2 H3]. by split; rewrite E. Qed.

Lemma prepare_ready c s h :
  wt s → valid_config h → ready s h →
  ∃ eg created, (PrepareConsumerGroup c (hc_queue h) (hc_groupID h) s).1 = inr (eg, created) ∧
    (pubsub_queue s (hc_queue h) → eg = if decide (hc_groupID h = "") then ephemeralGroupID c else hc_groupID h).
Proof.
  intros Hw [Hq Hg] [[t Ht] _ Hgr]. unfold PrepareConsumerGroup, pubsub_queue. rewrite (load_queue_run _ Hq s Hw).
  rewrite decide_False by (intros E; by rewrite E, lookup_empty in Ht).
  set (props := DecodeQueueProps _) in *. destruct (decide (qp_DeliveryModel props = DeliveryPubSub)) as [Hm|Hm].
  - unfold createConsumerGroup, cmd_saddn. destruct Hq as [Hq _]. rewrite with_set_run by wt_view. erewrite bind_Ret; [|done].
    cbn [mret M_ret fst]. by eexists _, _.
  - destruct Hgr as [->|]; [|done]. rewrite decide_False by (intros H; by apply H). eexists _, _. split; [done|].
    by intros (props' & [= <-] & ?).
Qed.

Lemma run_succeeds info backoff c h s :
  no_colon c = true → wt s → valid_config h → ready s h →
  ∃ mh s', RunHandler info backoff (NewMessageHandler c (hc_queue h) (hc_groupID h) (hc_handler h)) s = (inr tt, (mh, s')) ∧
    (hc_groupID h = "" → pubsub_queue s (hc_queue h) → mh_groupID mh = ephemeralGroupID c).
Proof.
  intros Hc Hw Hv Hr. pose proof Hv as [Hq Hg]. destruct (prepare_ready c s h Hw Hv Hr) as (eg & cr & Ep & Heg).
  set (q := hc_queue h) in *. set (g := hc_groupID h) in *.
  destruct (run_frame info backoff c q g (hc_handler h) s Hq Hc Hg Hw) as [_ Hframe].
  specialize (Hframe (Properties (queue_keys_of q)) (run_keeps_properties q q c g Hq Hq Hc Hg)). revert Hframe.
  destruct (prepare_frame c q g s Hq Hc Hg Hw) as [Hw1 Hf1].
  assert (db (PrepareConsumerGroup c q g s).2 !! Properties (queue_keys_of q) = db s !! Properties (queue_keys_of q)) as Ep1.
  { apply Hf1. pose proof (run_keeps_properties q q c g Hq Hq Hc Hg) as H. unfold run_touched in H. cbv zeta in H.
    by apply not_elem_of_app in H as [? _]. }
  unfold RunHandler. change (mh_running (NewMessageHandler c q g (hc_handler h))) with false.
  cbn [mh_consumerID mh_queue mh_groupID mh_handler mh_ephemeralGroup mh_dequeuer mh_acker mh_unacker mh_workerLock
    mh_workers NewMessageHandler].
  assert (no_colon eg = true) as Hegc.
  { destruct (PrepareConsumerGroup c q g s) as [[?|[? ?]] ?] eqn:E; [done|]. cbn [fst] in Ep. injection Ep as -> ->.
    destruct (prepare_group _ _ _ _ _ _ _ E) as [->|[-> _]]; [|done]. case_decide; [by apply ephemeral_colon|done]. }
  destruct (PrepareConsumerGroup c q g s) as [[?|[? ?]] s1]; [done|]. cbn [fst snd] in *. injection Ep as -> ->.
  set (grp := if bool_decide (eg ≠ "" ∧ eg ≠ g) then eg else g).
  assert (no_colon grp = true) as Hgrp by (unfold grp; by case_bool_decide).
  assert (ready s1 h) as [[t Ht] Hst _] by by eapply ready_same. fold q in Ht, Hst.
  rewrite (subscribe_run info c q grp s1 Hw1 (proj1 Hq) Hc Hgrp). rewrite decide_True by by eapply properties_exist.
  rewrite Hst. cbn [default id]. rewrite decide_False by (intros H; by apply H).
  assert (∀ s2, db s2 !! Properties (queue_keys_of q) = db s !! Properties (queue_keys_of q) → wt s2 → ∃ d, InitDequeue q grp c s2 = inr d) as Hd.
  { intros s2 E2 Hw2. unfold InitDequeue. rewrite (load_queue_run q Hq s2 Hw2). rewrite (hsh_same s s2) by done.
    rewrite decide_False; [by eexists|]. intros E. destruct Hr as [[t' Ht'] _ _]. fold q in Ht'. by rewrite E, lookup_empty in Ht'. }
  assert (eg = ephemeralGroupID c → g = "" → grp = ephemeralGroupID c) as Hgg.
  { unfold grp. intros -> ->. by rewrite bool_decide_eq_true_2. }
  destruct (decide (registered s1 q c)).
  - destruct (Hd s1 Ep1 Hw1) as [d ->]. intros _. eexists _, _. split; [done|]. cbn [mh_groupID]. intros E1 E2. apply Hgg; [|done].
    rewrite (Heg E2). by rewrite decide_True.
  - intros Hframe. destruct (Hd (subscribe_effect info c q grp s1)) as [d Ed].
    + destruct (InitDequeue q grp c _); exact Hframe.
    + by apply subscribe_wt.
    + rewrite Ed. eexists _, _. split; [done|]. cbn [mh_groupID]. intros E1 E2. apply Hgg; [|done].
      rewrite (Heg E2). by rewrite decide_True.
Qed.

Lemma starts_kept info backoff hs0 hs : ∀ r s,
  no_colon (r_consumerID r) = true → (∀ h', h' ∈ hs → h' ∈ hs0) → fits hs0 s →
  ∃ l s', foldl (λ rs h, (start_config info backoff h rs.1 rs.2).2) (r, s) hs = (set_instances (r_instances r ++ l) r, s').
Proof.
  induction hs as [|x hs IH]; intros r s Hid Hsub Hfit; [exists [], s; rewrite app_nil_r; by destruct r|].
  destruct (proj2 Hfit x (Hsub x ltac:(left))) as [Hv Hn].
  destruct (start_config_run info backoff x r s hs0 Hid Hv Hn Hfit) as (e & l & s1 & E & Hf1 & _). cbn [foldl fst snd]. rewrite E. cbn [snd].
  destruct (IH (set_instances (r_instances r ++ l) r) s1) as (l' & s' & ->); [done|intros y Hy; apply Hsub; by right|done|].
  exists (l ++ l'), s'. cbn [r_instances set_instances]. by rewrite app_assoc.
Qed.

Lemma starts_reach info backoff hs0 h hs : ∀ r s,
  no_colon (r_consumerID r) = true → r_live r = true → (∀ h', h' ∈ hs → h' ∈ hs0) → fits hs0 s → h ∈ hs → ready s h →
  ∃ l s', foldl (λ rs h, (start_config info backoff h rs.1 rs.2).2) (r, s) hs = (set_instances (r_instances r ++ l) r, s') ∧
    ∃ mh, mh ∈ l ∧ mh_running mh = true ∧ inst_key mh = conf_key h.
Proof.
  induction hs as [|x hs IH]; intros r s Hid Hlv Hsub Hfit Hin Hr; [by apply elem_of_nil in Hin|].
  destruct (proj2 Hfit x (Hsub x ltac:(left))) as [Hv Hn]. assert (∀ y, y ∈ hs → y ∈ hs0) as Hsub' by (intros y Hy; apply Hsub; by right).
  destruct (start_config_run info backoff x r s hs0 Hid Hv Hn Hfit) as (e & l & s1 & E & Hf1 & Hp & Hl).
  cbn [foldl fst snd]. rewrite E. cbn [snd]. apply elem_of_cons in Hin as [->|Hin].
  - destruct (starts_kept info backoff hs0 hs (set_instances (r_instances r ++ l) r) s1 Hid Hsub' Hf1) as (l' & s' & ->). exists (l ++ l'), s'.
    cbn [r_instances set_instances]. rewrite app_assoc. split; [done|].
    destruct Hl as [[_ He]|(mh & _ & -> & Hm & Hk & _)]; [|exists mh; split_and!; [left|done..]].
    destruct (run_succeeds info backoff (r_consumerID r) x s Hid (proj1 Hfit) Hv Hr) as (mh & s2 & Er & _).
    exfalso. revert E. unfold start_config, run_in. rewrite Hlv, Er. by intros [= <- _ _].
  - destruct (IH (set_instances (r_instances r ++ l) r) s1) as (l' & s' & -> & mh & H1 & H2 & H3); [done..| |].
    { apply (ready_same s); [apply Hp|done]. by destruct (proj2 Hfit h (Hsub' h Hin)) as [[? _] _]. }
    exists (l ++ l'), s'. cbn [r_instances set_instances]. rewrite app_assoc. split; [done|]. exists mh. split_and!; [|done..].
    rewrite elem_of_app. by right.
Qed.

(** After one tick of reconciliation there is a running handler for every
    configuration whose queue is active, for the tracker and in the store; the
    handlers that ran are kept. *)
Theorem reconcile_restarts info backoff r s t h :
  no_colon (r_consumerID r) = true → r_live r = true → fits (r_handlers r) s →
  r_stateTracker r = Some t → h ∈ r_handlers r → IsActive (hc_queue h) t = true → ready s h →
  let r' := (reconcile info backoff r s).1 in
  (∃ mh, mh ∈ r_instances r' ∧ mh_running mh = true ∧ inst_key mh = conf_key h) ∧
  (∀ mh, mh ∈ r_instances r → mh ∈ r_instances r').
Proof.
  intros Hid Hlv Hfit Ht Hin Hact Hr. cbv zeta. unfold reconcile.
  assert (∀ h', h' ∈ toStart r → h' ∈ r_handlers r) as Hsub by by intros h' [_ ?]%list_elem_of_filter.
  destruct (existsb (runs_config h) (r_instances r)) eqn:Ex.
  - assert (∀ l, ∃ mh, mh ∈ r_instances r ++ l ∧ mh_running mh = true ∧ inst_key mh = conf_key h) as Hex.
    { intros l. apply existsb_exists in Ex as (mh & Hm%list_elem_of_In & H). unfold runs_config in H.
      apply andb_true_iff in H as [H1 H2]. rewrite instance_for_key in H1. apply bool_decide_eq_true in H1.
      exists mh. split_and!; [rewrite elem_of_app; by left|done..]. }
    destruct (starts_kept info backoff (r_handlers r) (toStart r) r s Hid Hsub Hfit) as (l & s' & ->). cbn [fst r_instances set_instances].
    split; [apply Hex|]. intros mh Hm. rewrite elem_of_app. by left.
  - destruct (starts_reach info backoff (r_handlers r) h (toStart r) r s Hid Hlv Hsub Hfit) as (l & s' & -> & mh & H1 & H2 & H3); [|done|].
    { unfold toStart. rewrite Ht, list_elem_of_filter. done. }
    cbn [fst r_instances set_instances]. split; [exists mh; split_and!; [rewrite elem_of_app; by right|done..]|].
    intros mh' Hm. rewrite elem_of_app. by left.
Qed.

(** A queue that is resumed while its consumer reconciles.  The reconciliation
    has read the configuration, which has no handler; the callback of the event
    starts one, and the reconciliation, which does not look again, starts
    another: two handlers run for one queue and group. *)
Theorem resumed_queue_starts_twice cfg defaults uuid uuid' now rnow info backoff c s t h :
  let r := c_runner c in
  no_colon (r_consumerID r) = true → r_live r = true → r_handlers r = [h] → r_instances r = [] →
  r_stateTracker r = Some t → IsActive (hc_queue h) t = true → fits [h] s → ready s h →
  let tick := begin_reconcile c in
  let '(started, (r1, s1)) := StartHandler info backoff (hc_queue h) (hc_groupID h) r s in
  let '(rest, (c2, s2)) := complete cfg defaults uuid uuid' now rnow info backoff 3 tick (set_runner r1 c) s1 in
  started = true ∧ rest = None ∧ running_keys (r_instances (c_runner c2)) = [conf_key h; conf_key h].
Proof.
  intros r Hid Hlv Hh Hi Ht Ha Hfit Hr. cbv zeta. unfold StartHandler. rewrite Hh. cbn [List.find].
  rewrite config_for_key, bool_decide_eq_true_2 by done. rewrite Hi. cbn [existsb].
  destruct (proj2 Hfit h ltac:(left)) as [Hv Hn].
  assert (∀ r s, no_colon (r_consumerID r) = true → r_live r = true → fits [h] s → ready s h → ∃ mh s',
    start_config info backoff h r s = (None, (set_instances (r_instances r ++ [mh]) r, s')) ∧
    running_keys [mh] = [conf_key h] ∧ fits [h] s' ∧ ready s' h) as Hstart.
  { clear. intros r s Hid Hlv Hfit Hr. destruct (proj2 Hfit h ltac:(left)) as [Hv Hn].
    destruct (start_config_run info backoff h r s _ Hid Hv Hn Hfit) as (e & l & s' & E & Hf' & Hp & Hl).
    destruct (run_succeeds info backoff (r_consumerID r) h s Hid (proj1 Hfit) Hv Hr) as (mh2 & s2 & Er & _).
    destruct Hl as [[_ He]|(mh & -> & -> & Hm & Hk & _)].
    { exfalso. revert E. unfold start_config, run_in. rewrite Hlv, Er. by intros [= <- _ _]. }
    exists mh, s'. split_and!; [done| |done|].
    - unfold running_keys. rewrite filter_cons_True by done. cbn. by rewrite Hk.
    - apply (ready_same s); [apply Hp, Hv|done]. }
  destruct (Hstart r s Hid Hlv Hfit Hr) as (mh & s1 & -> & Ek & Hf1 & Hr1). rewrite Hi. cbn [app].
  rewrite bool_decide_eq_true_2 by done.
  assert (begin_reconcile c = Task false 0 0 [h] None) as ->.
  { unfold begin_reconcile, toStart. fold r. rewrite Hh, Ht, Hi. by rewrite filter_cons_True by done. }
  rewrite complete_starts by (cbn; lia). cbn [foldl fst snd c_runner set_runner].
  destruct (Hstart (set_instances [mh] r) s1 Hid Hlv Hf1 Hr1) as (mh2 & s2 & -> & Ek2 & _).
  cbn [snd fst c_runner set_runner set_instances r_instances]. split_and!; [done..|]. by rewrite running_keys_app, Ek, Ek2.
Qed.

(** ** A group of its own is not recognised *)

Section ephemeral.
Context (info : string) (backoff : BackoffStrategy) (q : QParams) (c : string) (h : nat).
Context (Hq : queue_ok q) (Hc : no_colon c = true).
#[local] Abbreviation hc := {| hc_queue := q; hc_groupID := ""; hc_handler := h |}.

Definition own_group (mh : MessageHandler) : Prop :=
  mh_running mh = true ∧ mh_queue mh = q ∧ mh_groupID mh = ephemeralGroupID c.

Lemma start_own r s :
  r_consumerID r = c → r_live r = true → wt s → pubsub_active q s →
  ∃ mh s', start_config info backoff hc r s = (None, (set_instances (r_instances r ++ [mh]) r, s')) ∧
    own_group mh ∧ wt s' ∧ pubsub_active q s'.
Proof using Hq Hc.
  intros Hid Hlv Hw Hp. unfold start_config, run_in. rewrite Hlv, Hid.
  destruct (run_succeeds info backoff c hc s Hc Hw) as (mh & s' & Er & Hg).
  { by split. }
  { destruct Hp. split; [done..|by left]. }
  cbn [hc_queue hc_groupID hc_handler] in *. rewrite Er. exists mh, s'. split; [done|].
  destruct (run_shape _ _ _ _ _ _ _ _ _ Er) as (H1 & H2 & _). destruct (run_frame info backoff c q "" h s Hq Hc eq_refl Hw) as [Hw' Hf].
  rewrite Er in Hw', Hf. cbn [snd] in Hw', Hf.
  assert (hsh s' (Properties (queue_keys_of q)) = hsh s (Properties (queue_keys_of q))) as Ep.
  { apply hsh_same, Hf. by apply run_keeps_properties. }
  split_and!; [|done|destruct Hp; split; by rewrite Ep]. split_and!; [done..|]. apply Hg; [done|].
  destruct (pubsub_loads q Hq s Hw Hp) as [E1 E2]. by eexists.
Qed.

Lemma own_not_for l g : (∀ mh, mh ∈ l → own_group mh) → g = "" → existsb (runs_config hc) l = false ∧ take_first (instance_for (q_String q) g) l = None.
Proof.
  clear. intros Hown ->. assert (∀ mh, mh ∈ l → instance_for (q_String q) "" mh = false) as H.
  { intros mh (_ & _ & Hg)%Hown. unfold instance_for. apply bool_decide_eq_false_2. intros [_ E]. by rewrite Hg in E. }
  clear Hown. split.
  - apply existsb_false. intros mh Hm. unfold runs_config. cbn [hc_queue hc_groupID]. by rewrite (H mh Hm).
  - induction l as [|x l IH]; [done|]. cbn. rewrite (H x ltac:(left)). rewrite IH; [done|]. intros mh Hm. apply H. by right.
Qed.

Lemma tick_adds r s t :
  r_handlers r = [hc] → r_consumerID r = c → r_live r = true → r_stateTracker r = Some t → IsActive q t = true →
  (∀ mh, mh ∈ r_instances r → own_group mh) → wt s → pubsub_active q s →
  ∃ mh s', reconcile info backoff r s = (set_instances (r_instances r ++ [mh]) r, s') ∧ own_group mh ∧ wt s' ∧ pubsub_active q s'.
Proof using Hq Hc.
  intros Hh Hid Hlv Ht Ha Hown Hw Hp. unfold reconcile, toStart. rewrite Hh, Ht.
  destruct (own_not_for _ "" Hown eq_refl) as [Ex _]. rewrite filter_cons_True by done. rewrite filter_nil. cbn [foldl fst snd].
  destruct (start_own r s Hid Hlv Hw Hp) as (mh & s' & -> & H). by exists mh, s'.
Qed.

End ephemeral.

(** C17: a consumer that consumes a publish/subscribe queue without naming a group
    starts one more handler at every reconciliation: its handlers run with the
    group made for them, the configuration has none, and the two are compared.
    After [n] ticks [n + 1] handlers run, and pausing, stopping or locking the
    queue shuts none of them down. *)
Theorem reconcile_multiplies cfg defaults uuid uuid' now rnow info backoff q c h s n :
  queue_ok q → no_colon c = true → wt s → pubsub_active q s →
  let r0 := (AddHandler cfg defaults uuid uuid' now rnow q "" h (NewMessageHandlerRunner c) s).1 in
  let '(e, rs) := RunRunner cfg defaults uuid uuid' now rnow info backoff r0 s in
  let '(r, s') := Nat.iter n (λ rs, reconcile info backoff rs.1 rs.2) rs in
  e = inr tt ∧ length (r_instances r) = S n ∧ (∀ mh, mh ∈ r_instances r → own_group q c mh) ∧
  onQueuePaused cfg defaults uuid uuid' now rnow q r s' = (r, s').
Proof.
  intros Hq Hc Hw Hp. cbv zeta. cbn [AddHandler existsb r_handlers NewMessageHandlerRunner fst app set_handlers].
  unfold RunRunner. cbn [set_handlers NewMessageHandlerRunner r_handlers r_consumerID r_instances r_stateTracker r_live run_configs hc_queue].
  destruct (pubsub_loads q Hq s Hw Hp) as [El _].
  assert (isQueueActive q s = true) as ->.
  { unfold isQueueActive. rewrite El. cbn [qp_OperationalState DecodeQueueProps]. unfold parseInt64Field. rewrite (pa_state q s Hp). vm_compute. reflexivity. }
  cbn [negb hc_queue]. set (r0 := Runner _ _ _ _ _).
  destruct (start_own info backoff q c h Hq Hc r0 s eq_refl eq_refl Hw Hp) as (mh & s1 & -> & Hm & Hw1 & Hp1).
  rewrite decide_False by by intros [? _]. cbn [r_instances r0 app].
  assert (∀ n, ∃ l s', Nat.iter n (λ rs, reconcile info backoff rs.1 rs.2) (set_instances [mh] r0, s1) = (set_instances l r0, s') ∧
    length l = S n ∧ (∀ mh, mh ∈ l → own_group q c mh) ∧ wt s' ∧ pubsub_active q s') as Hall.
  { clear n. induction n as [|n (l & s' & IH & Hlen & Hown & Hw' & Hp')].
    - exists [mh], s1. split_and!; [done..| |done|done]. by intros mh' ->%list_elem_of_singleton.
    - rewrite Nat.iter_succ, IH. cbn [fst snd].
      destruct (tick_adds info backoff q c h Hq Hc (set_instances l r0) s' NewQueueStateTracker) as (mh' & s2 & -> & H); [done..|].
      exists (l ++ [mh']), s2. split_and!; [done| | |apply H..].
      + rewrite length_app, Hlen. cbn. lia.
      + intros x [?| ->%list_elem_of_singleton]%elem_of_app; [by apply Hown|apply H]. }
  destruct (Hall n) as (l & s' & -> & Hlen & Hown & _). split_and!; [done..|]. unfold onQueuePaused, stop_all, configs_of.
  cbn [r_handlers set_instances r0]. rewrite filter_cons_True by done. rewrite filter_nil. cbn [foldl fst snd hc_queue hc_groupID].
  unfold StopHandler. cbn [r_instances set_instances]. by destruct (own_not_for q c h l "" Hown eq_refl) as [_ ->].
Qed.

Lemma reconcile_multiplies_witness :
  let r0 := (AddHandler DefaultConfig DefaultConsumeOptions "u" "v" 9000000000 9001 orders "" 7%nat (NewMessageHandlerRunner "c1") pubsub_orders).1 in
  let '(e, rs) := RunRunner DefaultConfig DefaultConsumeOptions "u" "v" 9000000000 9001 "{}" (λ _, second) r0 pubsub_orders in
  length (r_instances (Nat.iter 5 (λ rs, reconcile "{}" (λ _, second) rs.1 rs.2) rs).1) = 6%nat.
Proof.
  pose proof (reconcile_multiplies DefaultConfig DefaultConsumeOptions "u" "v" 9000000000 9001 "{}" (λ _, second) orders "c1" 7%nat
    pubsub_orders 5 (proj1 sample_ok) eq_refl pubsub_orders_wt pubsub_orders_active) as H. cbv zeta in *.
  destruct (RunRunner _ _ _ _ _ _ _ _ _ _) as [e rs]. destruct (Nat.iter 5 _ rs) as [r s']. apply H.
Defined.

(** When a handler has ended by itself (its queue was seen stopped or locked)
    and reconciliation has started another, cancelling the queue forgets the
    ended one: the configuration is gone, and a handler of the queue and group
    still runs. *)
Theorem restarted_handler_survives_cancel cfg defaults uuid uuid' now rnow info backoff r s s1 t h mh :
  no_colon (r_consumerID r) = true → r_live r = true → fits (r_handlers r) s → r_stateTracker r = Some t →
  r_handlers r = [h] → r_instances r = [mh] → inst_key mh = conf_key h → mh_running mh = false →
  IsActive (hc_queue h) t = true → ready s h →
  let r1 := (reconcile info backoff r s).1 in
  let r2 := (RemoveHandler cfg defaults uuid uuid' now rnow (hc_queue h) (hc_groupID h) r1 s1).1 in
  r_handlers r2 = [] ∧ ∃ mh', r_instances r2 = [mh'] ∧ mh_running mh' = true ∧ inst_key mh' = conf_key h.
Proof.
  intros Hid Hlv Hfit Ht Hh Hi Hk Hm Ha Hr. cbv zeta. unfold reconcile, toStart. rewrite Hh, Hi, Ht.
  assert (existsb (runs_config h) [mh] = false) as Ex.
  { cbn. unfold runs_config. by rewrite Hm, andb_false_r. }
  rewrite filter_cons_True by done. rewrite filter_nil. cbn [foldl fst snd].
  destruct (proj2 Hfit h ltac:(rewrite Hh; left)) as [Hv Hn].
  destruct (start_config_run info backoff h r s _ Hid Hv Hn Hfit) as (e & l & s' & E & _ & _ & Hl).
  destruct (run_succeeds info backoff (r_consumerID r) h s Hid (proj1 Hfit) Hv Hr) as (mh2 & s2 & Er & _).
  destruct Hl as [[_ He]|(mh' & _ & -> & Hm' & Hk' & _)].
  { exfalso. revert E. unfold start_config, run_in. rewrite Hlv, Er. by intros [= <- _ _]. }
  rewrite E. cbn [snd fst]. unfold RemoveHandler. cbv zeta. cbn [r_handlers set_instances]. rewrite Hh. cbn [take_first].
  rewrite config_for_key, bool_decide_eq_true_2 by done. unfold StopHandler. cbn [r_instances set_instances set_handlers].
  rewrite Hi. cbn [app take_first]. rewrite instance_for_key, bool_decide_eq_true_2 by done.
  cbn [snd fst r_handlers r_instances set_instances set_handlers]. split; [done|]. by exists mh'.
Qed.

(** ** The life of a consumer *)

Lemma run_registers info backoff c q g h s mh s' :
  queue_ok q → no_colon c = true → no_colon g = true → wt s →
  RunHandler info backoff (NewMessageHandler c q g h) s = (inr tt, (mh, s')) → registered s' q c.
Proof.
  intros Hq Hc Hg Hw. destruct (prepare_frame c q g s Hq Hc Hg Hw) as [Hw1 _].
  unfold RunHandler. change (mh_running (NewMessageHandler c q g h)) with false.
  cbn [mh_consumerID mh_queue mh_groupID mh_handler mh_ephemeralGroup mh_dequeuer mh_acker mh_unacker mh_workerLock
    mh_workers NewMessageHandler].
  destruct (PrepareConsumerGroup c q g s) as [[e|[eg cr]] s1] eqn:Ep; [done|]. cbn [snd] in Hw1.
  set (grp := if bool_decide (eg ≠ "" ∧ eg ≠ g) then eg else g).
  assert (no_colon grp = true) as Hgrp.
  { unfold grp. destruct (prepare_group _ _ _ _ _ _ _ Ep) as [->|[-> ->]]; case_bool_decide; try done.
    case_decide; [by apply ephemeral_colon|done]. }
  rewrite (subscribe_run info c q grp s1 Hw1 (proj1 Hq) Hc Hgrp).
  destruct (decide (is_Some _)); [|done]. destruct (decide (default _ _ ≠ _)); [done|].
  destruct (decide (registered s1 q c)); destruct (InitDequeue _ _ _ _); try done; intros [= _ <-]; [done|].
  destruct (subscribe_records q q c c grp s1 Hq Hq Hc Hc Hgrp info) as [H _]. apply H. by left.
Qed.

(** The handlers of a consumer subscribe it before its heartbeat is
    registered: at the end of [Run] of the runner the consumer is listed by the
    queue and has no heartbeat yet, so that the reaper of any other consumer
    takes it for dead. *)
Theorem starting_consumer_looks_dead cfg defaults uuid uuid' now rnow info backoff c h s self :
  no_colon c = true → fits [h] s → ready s h → IsAlive c s = false → self ≠ c →
  let r0 := (AddHandler cfg defaults uuid uuid' now rnow (hc_queue h) (hc_groupID h) (hc_handler h) (NewMessageHandlerRunner c) s).1 in
  let '(e, (r, s1)) := RunRunner cfg defaults uuid uuid' now rnow info backoff r0 s in
  e = inr tt ∧ dead self (hc_queue h) s1 c.
Proof.
  intros Hc Hfit Hr Hal Hne. cbv zeta. destruct (proj2 Hfit h ltac:(left)) as [Hv _]. pose proof Hv as [Hq Hg].
  cbn [AddHandler existsb r_handlers NewMessageHandlerRunner fst app set_handlers]. unfold RunRunner.
  cbn [set_handlers NewMessageHandlerRunner r_handlers r_consumerID r_instances r_stateTracker r_live run_configs hc_queue].
  assert (isQueueActive (hc_queue h) s = true) as ->.
  { unfold isQueueActive. rewrite (load_queue_run _ Hq s (proj1 Hfit)). destruct Hr as [[t Ht] Hst _]. rewrite decide_False.
    2: { intros E. by rewrite E, lookup_empty in Ht. }
    cbn [qp_OperationalState DecodeQueueProps]. unfold parseInt64Field. rewrite Hst. vm_compute. reflexivity. }
  cbn [negb]. unfold start_config, run_in. cbn [r_live r_consumerID hc_queue hc_groupID hc_handler].
  destruct (run_succeeds info backoff c h s Hc (proj1 Hfit) Hv Hr) as (mh & s1 & Er & _). rewrite Er.
  cbn [fst snd]. rewrite decide_False by by intros [? _]. split; [done|]. split_and!; [|done|].
  - exact (run_registers info backoff c (hc_queue h) (hc_groupID h) (hc_handler h) s mh s1 Hq Hc Hg (proj1 Hfit) Er).
  - rewrite IsAlive_key in *. destruct (run_frame info backoff c (hc_queue h) (hc_groupID h) (hc_handler h) s Hq Hc Hg (proj1 Hfit)) as [_ Hf].
    rewrite Er in Hf. cbn [snd] in Hf. rewrite Hf; [done|]. by apply run_keeps_heartbeat.
Qed.

(** A consumer that runs is alive; once shut down it has neither heartbeat nor
    queues nor handlers. *)
Theorem consumer_up_and_down cfg defaults uuid uuid' now now' rnow rnow' info backoff c s ev c1 s1 s2 :
  c_running c = false →
  RunConsumer cfg defaults uuid uuid' now rnow info backoff c s = (inr tt, ev, (c1, s1)) →
  ev = [GoingUp; Up] ∧ c_running c1 = true ∧ IsAlive (c_id c) s1 = true ∧
  let '(ev', (c2, s3)) := ShutdownConsumer cfg defaults uuid uuid' now' rnow' c1 s2 in
  ev' = [GoingDown; Down] ∧ c_running c2 = false ∧ r_instances (c_runner c2) = [] ∧ r_live (c_runner c2) = false ∧
  r_handlers (c_runner c2) = r_handlers (c_runner c1) ∧
  IsAlive (c_id c) s3 = false ∧ db s3 !! ConsumerQueues (c_id c) = None.
Proof.
  intros Hn. unfold RunConsumer. rewrite Hn. destruct (negb _); [done|].
  destruct (RunRunner _ _ _ _ _ _ _ _ _ _) as [[e|u] [r s']]; [done|]. intros [= <- <- <-].
  split_and!; [done..| |].
  - rewrite IsAlive_key. unfold register, cmd_set_ttl, modify. cbn [snd db]. rewrite lookup_insert_eq. done.
  - cbn [ShutdownConsumer c_running negb c_id]. destruct (shutdown_runner _ _ _ _ _ _ _ _) as [r2 s3] eqn:E.
    unfold shutdown_runner in E. injection E as <- _. split_and!; [done..| |].
    + rewrite IsAlive_key. apply bool_decide_eq_false_2. unfold unregister, cmd_del. cbn. 
      rewrite lookup_delete. case_decide; [by intros []|]. rewrite lookup_delete_eq. by intros [].
    + unfold unregister, cmd_del. cbn. by rewrite lookup_delete_eq.
Qed.

(** ** Runs *)

Definition orders_config : handlerConfig := {| hc_queue := orders; hc_groupID := ""; hc_handler := 7 |}.

Lemma orders_fits : fits [orders_config] plain_orders.
Proof.
  split; [exact plain_orders_wt|]. intros h ->%list_elem_of_singleton. split; [split; [apply sample_ok|reflexivity]|].
  intros _ (props & E & Hm). assert (qp_DeliveryModel <$> (match LoadQueue orders plain_orders with inr p => Some p | inl _ => None end)
    = Some DeliveryPointToPoint) as H by (vm_compute; reflexivity).
  cbn [hc_queue orders_config] in E. rewrite E in H. cbn in H. rewrite Hm in H. discriminate.
Qed.

Lemma orders_ready : ready plain_orders orders_config.
Proof. split; [eexists|..|by left]; vm_compute; reflexivity. Qed.

Definition orders_runner (l : list MessageHandler) : MessageHandlerRunner :=
  Runner "c1" [orders_config] l (Some NewQueueStateTracker) true.

Lemma one_running_handler_witness :
  let c1 := set_runner (AddHandler DefaultConfig DefaultConsumeOptions "u" "v" 1 1 orders "" 7 (NewMessageHandlerRunner "c1") plain_orders).1
              (NewConsumer "c1" (10 * second)) in
  let step t c := advance DefaultConfig DefaultConsumeOptions "u" "v" 1 1 "{}" (λ _, second) t c plain_orders in
  let t1 := (step (begin_run c1).1 (begin_run c1).2).1 in
  ∃ mh, t_fresh <$> t1 = Some (Some mh) ∧ mh_running mh = true ∧ NoDup (running_keys ([] ++ [mh])).
Proof.
  intros c1 step t1. unfold t1. destruct (step _ _) as [t2 [c2 s2]] eqn:E. cbn [fst].
  assert (∃ mh, t2 = Some (Task true 1 0 [] (Some mh)) ∧ mh_running mh = true ∧ r_instances (c_runner c2) = []) as (mh & -> & Hm & Hi).
  { pose proof (f_equal fst E) as E1. pose proof (f_equal (λ x, r_instances (c_runner x.2.1)) E) as E2. cbn [fst snd] in E1, E2.
    vm_compute in E1. rewrite <-E1. eexists. split; [reflexivity|]. split; [reflexivity|]. rewrite <-E2. vm_compute. reflexivity. }
  exists mh. split; [done|]. split; [done|].
  enough (NoDup (running_keys (r_instances (c_runner c2) ++ [mh]))) as H by (rewrite Hi in H; exact H).
  refine (proj1 (one_running_handler DefaultConfig DefaultConsumeOptions "u" "v" "{}" (λ _, second)
    {| Enabled := false; BatchSize := 1; BatchTimeout := 1 |} {| Enabled := false; BatchSize := 1; BatchTimeout := 1 |}
    "c1" (10 * second) (Overlap c2 [Task true 1 0 [] (Some mh)] true) eq_refl _ eq_refl)).
  apply (rtc_l _ _ (Overlap c1 [] true)); [exact (cs_add _ _ _ _ _ _ _ _ 1 1 orders "" 7%nat plain_orders (NewConsumer "c1" (10 * second)) [] true)|].
  apply (rtc_l _ _ (Overlap (begin_run c1).2 [(begin_run c1).1] true)); [exact (cs_run _ _ _ _ _ _ _ _ c1 [] true eq_refl eq_refl)|].
  apply rtc_once.
  exact (cs_advance _ _ _ _ _ _ _ _ 0 (begin_run c1).1 1 1 plain_orders (Some (Task true 1 0 [] (Some mh))) c2 s2 (begin_run c1).2
    [(begin_run c1).1] true eq_refl orders_fits E).
Defined.

Lemma resumed_queue_starts_twice_witness :
  let c := Cons "c1" true (orders_runner []) (10 * second) None in
  let '(started, (r1, s1)) := StartHandler "{}" (λ _, second) orders "" (c_runner c) plain_orders in
  let '(rest, (c2, s2)) := complete DefaultConfig DefaultConsumeOptions "u" "v" 1 1 "{}" (λ _, second) 3 (begin_reconcile c) (set_runner r1 c) s1 in
  running_keys (r_instances (c_runner c2)) = [conf_key orders_config; conf_key orders_config].
Proof.
  intros c. pose proof (resumed_queue_starts_twice DefaultConfig DefaultConsumeOptions "u" "v" 1 1 "{}" (λ _, second) c plain_orders
    NewQueueStateTracker orders_config eq_refl eq_refl eq_refl eq_refl eq_refl eq_refl orders_fits orders_ready) as H. cbv zeta in H.
  cbn [hc_queue hc_groupID orders_config] in H.
  destruct (StartHandler _ _ _ _ _ _) as [b [r1 s1]]. destruct (complete _ _ _ _ _ _ _ _ _ _ _ _) as [rest [c2 s2]]. apply H.
Defined.

Lemma reconcile_restarts_witness :
  ∃ mh, mh ∈ r_instances (reconcile "{}" (λ _, second) (orders_runner []) plain_orders).1 ∧ mh_running mh = true.
Proof.
  destruct (reconcile_restarts "{}" (λ _, second) (orders_runner []) plain_orders NewQueueStateTracker orders_config)
    as [(mh & H1 & H2 & _) _]; [reflexivity|reflexivity|exact orders_fits|reflexivity|left|reflexivity|exact orders_ready|].
  exists mh. split; [exact H1|exact H2].
Defined.

Lemma restarted_handler_survives_cancel_witness :
  let ended := NewMessageHandler "c1" orders "" 7 in
  let r1 := (reconcile "{}" (λ _, second) (orders_runner [ended]) plain_orders).1 in
  let r2 := (RemoveHandler DefaultConfig DefaultConsumeOptions "u" "v" 1 1 orders "" r1 plain_orders).1 in
  r_handlers r2 = [] ∧ ∃ mh, r_instances r2 = [mh] ∧ mh_running mh = true.
Proof.
  intros ended r1 r2. destruct (restarted_handler_survives_cancel DefaultConfig DefaultConsumeOptions "u" "v" 1 1 "{}" (λ _, second)
    (orders_runner [ended]) plain_orders plain_orders NewQueueStateTracker orders_config ended) as (H1 & mh & H2 & H3 & _);
    [reflexivity|reflexivity|exact orders_fits|reflexivity|reflexivity|reflexivity|reflexivity|reflexivity|reflexivity|exact orders_ready|].
  split; [exact H1|]. exists mh. split; [exact H2|exact H3].
Defined.

Lemma starting_consumer_looks_dead_witness :
  let r0 := (AddHandler DefaultConfig DefaultConsumeOptions "u" "v" 1 1 orders "" 7 (NewMessageHandlerRunner "c1") plain_orders).1 in
  dead "c2" orders (RunRunner DefaultConfig DefaultConsumeOptions "u" "v" 1 1 "{}" (λ _, second) r0 plain_orders).2.2 "c1".
Proof.
  intros r0. pose proof (starting_consumer_looks_dead DefaultConfig DefaultConsumeOptions "u" "v" 1 1 "{}" (λ _, second) "c1"
    orders_config plain_orders "c2" eq_refl orders_fits orders_ready ltac:(vm_compute; reflexivity) ltac:(discriminate)) as H.
  cbv zeta in H. cbn [hc_queue hc_groupID hc_handler orders_config] in H. fold r0 in H.
  destruct (RunRunner _ _ _ _ _ _ _ _ _ _) as [e [r s1]]. apply H.
Defined.
