(* ===== verification/EventBus.v ===== *)
(** * Event buses

    internal/eventbus/bus.go: named events sent over Redis publish/subscribe as
    JSON arrays and given to the handlers subscribed to them in this process;
    the system bus and the user bus (system_bus.go, user_bus.go); and
    internal/eventmultiplexer, which chooses the bus of an event. *)

From S2P Require Import Prelude Keys Redis Types Topic Json Message MessageCodec.
#[local] Open Scope Z_scope.

(** ** Data *)

(** A handler is an opaque function, known by a number. *)
Record handlerEntry := { he_id : Z; he_handler : nat }.
#[export] Instance handlerEntry_eq_dec : EqDecision handlerEntry.
Proof. solve_decision. Defined.

(** [eb_pubsub]: the channels the connection is subscribed to, once there is one. *)
Record EventBus := Bus {
  eb_namespace : string;
  eb_handlers : gmap string (list handlerEntry);
  eb_pubsub : option (gset string);
  eb_started : bool;
  eb_closed : bool
}.

Record Subscription := { sub_id : Z; sub_channels : list string }.

Inductive bus_error := BusClosed | NoEventNames | SubscribeFailed (channel : string).

(** ** Operations *)

Definition NewEventBus (namespace : string) : EventBus := Bus namespace ∅ None false false.

(** The context the bus is started with is taken to last as long as the bus:
    the listener ends only with [ShutdownBus]. *)
Definition StartBus (b : EventBus) : EventBus :=
  if eb_started b || eb_closed b then b else Bus (eb_namespace b) (eb_handlers b) (eb_pubsub b) true false.

Definition bus_IsRunning (b : EventBus) : bool := eb_started b && negb (eb_closed b).

(** The handlers stay in the map. *)
Definition ShutdownBus (b : EventBus) : EventBus :=
  if eb_closed b then b else Bus (eb_namespace b) (eb_handlers b) None false true.

Definition channelName (namespace eventName : string) : string := "redis-smq:events:" +:+ namespace +:+ ":" +:+ eventName.

Definition eventNameFromChannel (namespace channel : string) : string :=
  let prefix := "redis-smq:events:" +:+ namespace +:+ ":" in
  if String.prefix prefix channel
  then String.substring (String.length prefix) (String.length channel - String.length prefix) channel else channel.

(** What is sent to Redis: channel and payload. *)
Definition PublishBus (eventName : string) (args : list json) (b : EventBus) : bus_error + string * string :=
  if eb_closed b then inl BusClosed else inr (channelName (eb_namespace b) eventName, print (JArr args)).

Definition add_handler (entry : handlerEntry) (m : gmap string (list handlerEntry)) (ch : string) : gmap string (list handlerEntry) :=
  <[ch := default [] (m !! ch) ++ [entry]]> m.

Fixpoint remove_entry (id : Z) (l : list handlerEntry) : list handlerEntry :=
  match l with
  | [] => []
  | x :: l => if decide (he_id x = id) then l else x :: remove_entry id l
  end.
Definition removeHandlerLocked (id : Z) (m : gmap string (list handlerEntry)) (ch : string) : gmap string (list handlerEntry) :=
  let rest := remove_entry id (default [] (m !! ch)) in
  if decide (rest = []) then delete ch m else <[ch := rest]> m.

Definition set_handlers_bus (m : gmap string (list handlerEntry)) (b : EventBus) : EventBus :=
  Bus (eb_namespace b) m (eb_pubsub b) (eb_started b) (eb_closed b).

(** [ok] tells which SUBSCRIBE commands succeed; the first connection reports
    no error. *)
Fixpoint subscribe_channels (ok : string → bool) (chs : list string) (subscribed : gset string) : option string * gset string :=
  match chs with
  | [] => (None, subscribed)
  | ch :: chs => if ok ch then subscribe_channels ok chs ({[ch]} ∪ subscribed) else (Some ch, subscribed)
  end.
Definition ensureSubscribed (ok : string → bool) (chs : list string) (b : EventBus) : option bus_error * EventBus :=
  let '(e, subscribed) := match eb_pubsub b with
                          | None => (None, list_to_set chs)
                          | Some subscribed => subscribe_channels ok chs subscribed
                          end in
  (SubscribeFailed <$> e, Bus (eb_namespace b) (eb_handlers b) (Some subscribed) (eb_started b) (eb_closed b)).

(** [next] is the last identifier given out in this process. *)
Definition SubscribeBus (ok : string → bool) (handler : nat) (eventNames : list string) (next : Z) (b : EventBus)
    : (bus_error + Subscription) * (Z * EventBus) :=
  if eb_closed b then (inl BusClosed, (next, b))
  else if decide (eventNames = []) then (inl NoEventNames, (next, b))
  else
    let id := next + 1 in
    let channels := channelName (eb_namespace b) <$> eventNames in
    let b := set_handlers_bus (foldl (add_handler {| he_id := id; he_handler := handler |}) (eb_handlers b) channels) b in
    match ensureSubscribed ok channels b with
    | (Some e, b) => (inl e, (id, set_handlers_bus (foldl (removeHandlerLocked id) (eb_handlers b) channels) b))
    | (None, b) => (inr {| sub_id := id; sub_channels := channels |}, (id, b))
    end.

Definition Unsubscribe (sub : Subscription) (b : EventBus) : EventBus :=
  set_handlers_bus (foldl (removeHandlerLocked (sub_id sub)) (eb_handlers b) (sub_channels sub)) b.

(** The calls a message makes: handler, event and arguments.  A handler that
    panics does not keep the others from being called. *)
Definition dispatch_event (channel payload : string) (b : EventBus) : list (nat * string * list json) :=
  match parse_json payload with
  | Some (JArr args) =>
      (λ e, (he_handler e, eventNameFromChannel (eb_namespace b) channel, args)) <$> default [] (eb_handlers b !! channel)
  | Some JNull =>
      (λ e, (he_handler e, eventNameFromChannel (eb_namespace b) channel, [])) <$> default [] (eb_handlers b !! channel)
  | _ => []
  end.

(** The listener gets the messages of the channels it is subscribed to. *)
Definition receive (channel payload : string) (b : EventBus) : list (nat * string * list json) :=
  if bus_IsRunning b && bool_decide (channel ∈ default ∅ (eb_pubsub b)) then dispatch_event channel payload b else [].

(** ** The two buses (system_bus.go, user_bus.go) *)

Record buses := Buses { systemBusInstance : option EventBus; userBusInstance : option EventBus }.

Definition init_bus (namespace : string) (b : option EventBus) : option EventBus :=
  match b with None => Some (StartBus (NewEventBus namespace)) | Some _ => b end.
Definition InitSystem (w : buses) : buses := Buses (init_bus "system" (systemBusInstance w)) (userBusInstance w).
Definition InitUser (w : buses) : buses := Buses (systemBusInstance w) (init_bus "user" (userBusInstance w)).
(** [None]: panics. *)
Definition System (w : buses) : option EventBus := systemBusInstance w.
Definition User (w : buses) : option EventBus := userBusInstance w.
Definition ShutdownSystem (w : buses) : buses := Buses None (userBusInstance w).
Definition ShutdownUser (w : buses) : buses := Buses (systemBusInstance w) None.

(** ** The multiplexer *)

Inductive Target := TargetSystem | TargetUser | TargetBoth.

Definition routingPolicies (eventName : string) : option Target :=
  if decide (eventName ∈ ["queue.queueCreated"; "queue.queueDeleted"; "queue.consumerGroupCreated";
                          "queue.consumerGroupDeleted"; "queue.stateChanged"]) then Some TargetBoth
  else if decide (eventName = "configuration.updated") then Some TargetSystem
  else None.

Definition publish_user (eventName : string) (args : list json) (w : buses) : option (bus_error + list (string * string)) :=
  match User w with
  | Some b => if bus_IsRunning b then Some (match PublishBus eventName args b with inl e => inl e | inr m => inr [m] end)
              else Some (inr [])
  | None => Some (inr [])
  end.

(** The messages sent, in order; [None] when the system bus panics. *)
Definition PublishEvent (eventName : string) (args : list json) (w : buses) : option (bus_error + list (string * string)) :=
  match default TargetUser (routingPolicies eventName) with
  | TargetSystem => b ← System w; Some (match PublishBus eventName args b with inl e => inl e | inr m => inr [m] end)
  | TargetUser => publish_user eventName args w
  | TargetBoth =>
      b ← System w;
      match PublishBus eventName args b with
      | inl e => Some (inl e)
      | inr m => r ← publish_user eventName args w; Some (match r with inl e => inl e | inr ms => inr (m :: ms) end)
      end
  end.

(** ** The handlers that are called *)

(** A subscription that was made and not taken back. *)
Record live_sub := { ls_id : Z; ls_handler : nat; ls_names : list string }.

Definition occurs (ch : string) (l : list string) : nat := length (filter (λ x, x = ch) l).

Definition entry_of (s : live_sub) : handlerEntry := {| he_id := ls_id s; he_handler := ls_handler s |}.
Definition entries_of (ns : string) (subs : list live_sub) (ch : string) : list handlerEntry :=
  subs ≫= λ s, replicate (occurs ch (channelName ns <$> ls_names s)) (entry_of s).

(** The calls an event should make: the live handlers that named it, in the
    order of their subscriptions. *)
Definition expected_calls (subs : list live_sub) (eventName : string) (args : list json) : list (nat * string * list json) :=
  subs ≫= λ s, replicate (occurs eventName (ls_names s)) (ls_handler s, eventName, args).

Lemma occurs_cons ch x l : occurs ch (x :: l) = ((if decide (x = ch) then 1 else 0) + occurs ch l)%nat.
Proof. unfold occurs. rewrite filter_cons. by case_decide. Qed.

Lemma add_handlers entry chs : ∀ m ch,
  default [] (foldl (add_handler entry) m chs !! ch) = default [] (m !! ch) ++ replicate (occurs ch chs) entry.
Proof.
  induction chs as [|x chs IH]; intros m ch; [by rewrite app_nil_r|]. cbn [foldl]. rewrite IH, occurs_cons. unfold add_handler.
  destruct (decide (x = ch)) as [->|Hne].
  - rewrite lookup_insert_eq. cbn. by rewrite <-app_assoc.
  - by rewrite lookup_insert_ne.
Qed.

Lemma remove_entry_first id A k e B :
  he_id e = id → (∀ x, x ∈ A → he_id x ≠ id) → remove_entry id (A ++ replicate (S k) e ++ B) = A ++ replicate k e ++ B.
Proof.
  intros He. induction A as [|x A IH]; intros HA; cbn; [by rewrite decide_True|].
  rewrite decide_False by (apply HA; left). f_equal. apply IH. intros y Hy. apply HA. by right.
Qed.

Lemma remove_lookup id m x ch :
  default [] (removeHandlerLocked id m x !! ch) =
  if decide (x = ch) then remove_entry id (default [] (m !! ch)) else default [] (m !! ch).
Proof.
  unfold removeHandlerLocked. destruct (decide (x = ch)) as [->|Hne].
  - case_decide as E; [by rewrite lookup_delete_eq|by rewrite lookup_insert_eq].
  - case_decide; [by rewrite lookup_delete_ne|by rewrite lookup_insert_ne].
Qed.

Lemma remove_handlers id e (A B : string → list handlerEntry) chs : ∀ m (n : string → nat),
  he_id e = id → (∀ ch x, x ∈ A ch → he_id x ≠ id) →
  (∀ ch, default [] (m !! ch) = A ch ++ replicate (occurs ch chs + n ch) e ++ B ch) →
  ∀ ch, default [] (foldl (removeHandlerLocked id) m chs !! ch) = A ch ++ replicate (n ch) e ++ B ch.
Proof.
  induction chs as [|x chs IH]; intros m n He HA Hm ch; [by rewrite Hm|]. cbn [foldl]. apply IH; [done..|].
  intros ch'. rewrite remove_lookup, Hm, occurs_cons. destruct (decide (x = ch')) as [->|]; [|done].
  cbn [Nat.add]. by rewrite remove_entry_first by (done || apply HA).
Qed.

Definition bus_state : Type := Z * EventBus * list live_sub.

Inductive bus_step : bus_state → bus_state → Prop :=
| bs_subscribe ok h names next b subs sub next' b' :
    SubscribeBus ok h names next b = (inr sub, (next', b')) →
    bus_step (next, b, subs) (next', b', subs ++ [{| ls_id := sub_id sub; ls_handler := h; ls_names := names |}])
| bs_refused ok h names next b subs e next' b' :
    SubscribeBus ok h names next b = (inl e, (next', b')) → bus_step (next, b, subs) (next', b', subs)
| bs_unsubscribe next b before s after :
    bus_step (next, b, before ++ s :: after)
      (next, Unsubscribe {| sub_id := ls_id s; sub_channels := channelName (eb_namespace b) <$> ls_names s |} b, before ++ after)
| bs_other next next' b subs : next ≤ next' → bus_step (next, b, subs) (next', b, subs).

Record bus_inv (st : bus_state) : Prop := {
  bi_running : bus_IsRunning st.1.2 = true;
  bi_entries : ∀ ch, default [] (eb_handlers st.1.2 !! ch) = entries_of (eb_namespace st.1.2) st.2 ch;
  bi_channels : ∀ s ch, s ∈ st.2 → ch ∈ channelName (eb_namespace st.1.2) <$> ls_names s → ch ∈ default ∅ (eb_pubsub st.1.2);
  bi_ids : NoDup (ls_id <$> st.2);
  bi_next : ∀ s, s ∈ st.2 → ls_id s ≤ st.1.1
}.

Lemma entries_app ns l1 l2 ch : entries_of ns (l1 ++ l2) ch = entries_of ns l1 ch ++ entries_of ns l2 ch.
Proof. unfold entries_of. by rewrite bind_app. Qed.

Lemma entries_ids ns l ch x : x ∈ entries_of ns l ch → he_id x ∈ ls_id <$> l.
Proof.
  unfold entries_of. rewrite list_elem_of_bind. intros (s & [-> _]%elem_of_replicate & Hs). by apply (list_elem_of_fmap_2 ls_id).
Qed.

Lemma subscribe_channels_grow ok chs : ∀ S e S', subscribe_channels ok chs S = (e, S') →
  S ⊆ S' ∧ (e = None → ∀ ch, ch ∈ chs → ch ∈ S').
Proof.
  induction chs as [|x chs IH]; intros S e S'; cbn.
  - intros [= <- <-]. split; [done|]. intros _ ch Hch. destruct (not_elem_of_nil _ Hch).
  - destruct (ok x); [|intros [= <- <-]; done]. intros [H1 H2]%IH. split; [set_solver|].
    intros He ch [->|Hch]%elem_of_cons; [set_solver|by apply H2].
Qed.

Lemma ensure_run ok chs b e b' : ensureSubscribed ok chs b = (e, b') →
  eb_namespace b' = eb_namespace b ∧ eb_handlers b' = eb_handlers b ∧ bus_IsRunning b' = bus_IsRunning b ∧
  default ∅ (eb_pubsub b) ⊆ default ∅ (eb_pubsub b') ∧ (e = None → ∀ ch, ch ∈ chs → ch ∈ default ∅ (eb_pubsub b')).
Proof.
  unfold ensureSubscribed. destruct (eb_pubsub b) as [S|].
  - destruct (subscribe_channels ok chs S) as [e1 S'] eqn:E. intros [= <- <-]. apply subscribe_channels_grow in E as [H1 H2].
    split_and!; [done..|]. destruct e1; [done|]. intros _. by apply H2.
  - intros [= <- <-]. split_and!; [done..|set_solver|]. intros _ ch Hch. cbn. by apply elem_of_list_to_set.
Qed.

Lemma subscribe_bus_inv ok h names next b subs r next' b' :
  SubscribeBus ok h names next b = (r, (next', b')) → bus_inv (next, b, subs) →
  bus_inv (next', b', match r with
                      | inr sub => subs ++ [{| ls_id := sub_id sub; ls_handler := h; ls_names := names |}]
                      | inl _ => subs
                      end).
Proof.
  unfold SubscribeBus. intros E Hinv. destruct (eb_closed b); [by simplify_eq|]. destruct (decide (names = [])); [by simplify_eq|].
  destruct Hinv as [Hrun Hent Hch Hids Hnext]. cbn [fst snd] in *.
  set (chs := channelName (eb_namespace b) <$> names) in *. set (entry := {| he_id := next + 1; he_handler := h |}) in *.
  set (m := foldl _ _ chs) in *. destruct (ensureSubscribed ok chs _) as [e b1] eqn:Ee.
  apply ensure_run in Ee as (H1 & H2 & H3 & H4 & H5). cbn [eb_namespace eb_handlers eb_pubsub set_handlers_bus] in *.
  assert (∀ ch, default [] (m !! ch) = entries_of (eb_namespace b) subs ch ++ replicate (occurs ch chs) entry) as Hm.
  { intros ch. unfold m. by rewrite add_handlers, Hent. }
  assert (∀ ch x, x ∈ entries_of (eb_namespace b) subs ch → he_id x ≠ next + 1) as Hold.
  { intros ch x (s & -> & Hs)%entries_ids%list_elem_of_fmap. specialize (Hnext s Hs). lia. }
  destruct e as [e|]; injection E as <- <- <-.
  - split; cbn [fst snd eb_handlers eb_namespace eb_pubsub set_handlers_bus].
    + exact (eq_trans H3 Hrun).
    + intros ch. rewrite H1, H2. pose proof (remove_handlers (next + 1) entry (entries_of (eb_namespace b) subs) (λ _, []) chs m
        (λ _, 0%nat) eq_refl Hold) as Hr. cbn in Hr. rewrite Hr; [by rewrite app_nil_r|].
      intros ch'. by rewrite Hm, Nat.add_0_r, app_nil_r.
    + intros s ch Hs Hc. rewrite H1 in Hc. apply H4. by apply (Hch s).
    + done.
    + intros s Hs. specialize (Hnext s Hs). lia.
  - split; cbn [fst snd sub_id].
    + exact (eq_trans H3 Hrun).
    + intros ch. rewrite H1, H2, Hm, entries_app. f_equal. unfold entries_of. cbn. by rewrite app_nil_r.
    + intros s ch Hs Hc. rewrite H1 in Hc. apply elem_of_app in Hs as [Hs| ->%list_elem_of_singleton]; [apply H4; by apply (Hch s)|].
      by apply H5.
    + rewrite fmap_app. apply NoDup_app. split_and!; [done| |apply NoDup_singleton].
      intros i (s & -> & Hs)%list_elem_of_fmap. cbn. rewrite list_elem_of_singleton. specialize (Hnext s Hs). lia.
    + intros s [Hs| ->%list_elem_of_singleton]%elem_of_app; [specialize (Hnext s Hs); lia|]. cbn. lia.
Qed.

Lemma bus_inv_step st st' : bus_inv st → bus_step st st' → bus_inv st'.
Proof.
  intros Hinv Hs. destruct Hs as [ok h names next b subs sub next' b' E|ok h names next b subs e next' b' E|next b before s after|next next' b subs Hle].
  - by apply (subscribe_bus_inv _ _ _ _ _ _ _ _ _ E).
  - by apply (subscribe_bus_inv _ _ _ _ _ _ _ _ _ E).
  - destruct Hinv as [Hrun Hent Hch Hids Hnext]. cbn [fst snd] in *.
    rewrite fmap_app in Hids. cbn [fmap list_fmap] in Hids. apply NoDup_app in Hids as (N1 & N2 & [N3 N4]%NoDup_cons).
    split; cbn [fst snd eb_handlers eb_namespace eb_pubsub Unsubscribe set_handlers_bus sub_id sub_channels].
    + done.
    + intros ch. rewrite entries_app.
      pose proof (remove_handlers (ls_id s) (entry_of s) (entries_of (eb_namespace b) before) (entries_of (eb_namespace b) after)
        (channelName (eb_namespace b) <$> ls_names s) (eb_handlers b) (λ _, 0%nat) eq_refl) as Hr. cbn in Hr. rewrite Hr; [done| |].
      * intros ch' x Hx%entries_ids E. apply (N2 (he_id x) Hx). rewrite E. left.
      * intros ch'. rewrite Hent, entries_app, Nat.add_0_r. done.
    + intros s' ch Hs' Hc. apply (Hch s'); [|done]. rewrite elem_of_app in *. destruct Hs'; [by left|right; by right].
    + rewrite fmap_app. apply NoDup_app. split_and!; [done| |done]. intros i Hi. specialize (N2 i Hi). by apply not_elem_of_cons in N2 as [_ ?].
    + intros s' Hs'. apply Hnext. rewrite elem_of_app in *. destruct Hs'; [by left|right; by right].
  - destruct Hinv as [H1 H2 H3 H4 H5]. split; cbn [fst snd] in *; [done..|]. intros s Hs. specialize (H5 s Hs). lia.
Qed.

(** *** Names and channels *)

Lemma prefix_app p s : String.prefix p (p +:+ s) = true.
Proof.
  induction p as [|a p IH]; [by destruct s|]. change (String a p +:+ s) with (String a (p +:+ s)). cbn [String.prefix].
  destruct (ascii_dec a a) as [_|n]; [exact IH|by destruct n].
Qed.
Lemma substring_all s : String.substring 0 (String.length s) s = s.
Proof. induction s as [|a s IH]; [done|]. cbn. by rewrite IH. Qed.
Lemma substring_app p s : String.substring (String.length p) (String.length (p +:+ s) - String.length p) (p +:+ s) = s.
Proof.
  rewrite str_length_app. replace (_ + _ - _)%nat with (String.length s) by lia.
  induction p as [|a p IH]; [apply substring_all|]. exact IH.
Qed.

Lemma channel_event ns n : eventNameFromChannel ns (channelName ns n) = n.
Proof.
  unfold eventNameFromChannel, channelName.
  assert ("redis-smq:events:" +:+ ns +:+ ":" +:+ n = ("redis-smq:events:" +:+ ns +:+ ":") +:+ n) as ->.
  { by rewrite !str_app_assoc. }
  by rewrite prefix_app, substring_app.
Qed.

#[export] Instance channelName_inj ns : Inj (=) (=) (channelName ns).
Proof. intros n n' E. by rewrite <-(channel_event ns n), E, channel_event. Qed.

Lemma occurs_channels ns n names : occurs (channelName ns n) (channelName ns <$> names) = occurs n names.
Proof.
  induction names as [|x names IH]; [done|]. cbn [fmap list_fmap]. rewrite !occurs_cons. f_equal; [|exact IH].
  destruct (decide (x = n)) as [->|Hne]; [by rewrite decide_True|]. rewrite decide_False; [done|]. by intros ?%(inj (channelName ns)).
Qed.

Lemma calls_entries ns subs n (args : list json) :
  (λ e, (he_handler e, n, args)) <$> entries_of ns subs (channelName ns n) = expected_calls subs n args.
Proof.
  unfold entries_of, expected_calls. induction subs as [|s subs IH]; [done|]. cbn [mbind list_bind].
  rewrite fmap_app, fmap_replicate, occurs_channels, <-IH. done.
Qed.

Lemma step_namespace st st' : bus_step st st' → eb_namespace st'.1.2 = eb_namespace st.1.2.
Proof.
  assert (∀ ok h names next b r next' b', SubscribeBus ok h names next b = (r, (next', b')) → eb_namespace b' = eb_namespace b) as Hs.
  { intros ok h names next b r next' b'. unfold SubscribeBus. destruct (eb_closed b); [by intros [= _ _ <-]|].
    destruct (decide _); [by intros [= _ _ <-]|]. destruct (ensureSubscribed _ _ _) as [e b1] eqn:E. apply ensure_run in E as [H _].
    destruct e; intros [= _ _ <-]; exact H. }
  intros [ok h names next b subs sub next' b' E|ok h names next b subs e next' b' E| |]; cbn [fst snd]; [by eapply Hs..|done|done].
Qed.

(** The states of a bus that was started with the name [ns]. *)
Definition reached (ns : string) (b : EventBus) (subs : list live_sub) : Prop :=
  ∃ next next', rtc bus_step (next, StartBus (NewEventBus ns), []) (next', b, subs).

Lemma reached_inv ns b subs : reached ns b subs → eb_namespace b = ns ∧ ∃ next, bus_inv (next, b, subs).
Proof.
  intros (next & next' & Hr).
  assert (eb_namespace (next', b, subs).1.2 = ns ∧ bus_inv (next', b, subs)) as [? ?]; [|by eauto].
  revert Hr. apply (rtc_ind_r (λ st, eb_namespace st.1.2 = ns ∧ bus_inv st)).
  - split; [done|]. split; cbn; [done|intros ch; by rewrite lookup_empty|intros s ch Hs; destruct (not_elem_of_nil _ Hs)|constructor|
      intros s Hs; destruct (not_elem_of_nil _ Hs)].
  - intros x y _ Hs [E Hi]. split; [by rewrite (step_namespace x y Hs)|by eapply bus_inv_step].
Qed.

Lemma reached_open ns b subs : reached ns b subs → bus_IsRunning b = true ∧ eb_closed b = false.
Proof.
  intros (_ & next & [Hrun _ _ _ _])%reached_inv. cbn [fst snd] in Hrun. split; [done|]. unfold bus_IsRunning in Hrun.
  by apply andb_true_iff in Hrun as [_ ?%negb_true_iff].
Qed.

(** A message on a channel of the bus makes the expected calls; one on another
    channel makes none. *)
Lemma receive_reached ns b subs n args :
  reached ns b subs → receive (channelName ns n) (print (JArr args)) b = expected_calls subs n args.
Proof.
  intros (<- & next & [Hrun Hent Hch _ _])%reached_inv. cbn [fst snd] in *. unfold receive. rewrite Hrun. cbn [andb].
  assert (dispatch_event (channelName (eb_namespace b) n) (print (JArr args)) b = expected_calls subs n args) as Hd.
  { unfold dispatch_event. rewrite parse_print, channel_event, Hent. apply calls_entries. }
  case_bool_decide as E; [exact Hd|]. symmetry. rewrite <-Hd. unfold dispatch_event. rewrite parse_print, Hent.
  destruct (entries_of _ subs _) as [|x l] eqn:El; [done|]. exfalso. apply E.
  assert (x ∈ entries_of (eb_namespace b) subs (channelName (eb_namespace b) n)) as Hx by (rewrite El; left).
  unfold entries_of in Hx. apply list_elem_of_bind in Hx as (s & [_ Hk]%elem_of_replicate & Hs). apply (Hch s); [done|].
  unfold occurs in Hk. destruct (filter _ _) as [|y l'] eqn:Ef; [done|].
  assert (y ∈ filter (λ x, x = channelName (eb_namespace b) n) (channelName (eb_namespace b) <$> ls_names s)) as [-> Hy]%list_elem_of_filter
    by (rewrite Ef; left). exact Hy.
Qed.

Lemma receive_other ns b subs ch payload :
  reached ns b subs → (∀ n, channelName ns n ≠ ch) → receive ch payload b = [].
Proof.
  intros (<- & next & [_ Hent _ _ _])%reached_inv Hne. cbn [fst snd] in *.
  assert (default [] (eb_handlers b !! ch) = []) as E.
  { rewrite Hent. unfold entries_of. clear -Hne. induction subs as [|s subs IH]; [done|]. cbn [mbind list_bind]. rewrite IH, app_nil_r.
    assert (occurs ch (channelName (eb_namespace b) <$> ls_names s) = 0%nat) as ->; [|done].
    induction (ls_names s) as [|n l IHl]; [done|]. cbn [fmap list_fmap]. rewrite occurs_cons, decide_False by done. exact IHl. }
  unfold receive. destruct (_ && _); [|done]. unfold dispatch_event. rewrite E. by destruct (parse_json payload) as [[]|].
Qed.

(** C20: on a bus that has been started, after any sequence of subscriptions,
    failed ones included, and of unsubscriptions, an event that is published
    calls exactly the handlers that subscribed to it and did not unsubscribe,
    in the order of their subscriptions, with the event's name and arguments. *)
Theorem bus_delivers ns b subs eventName args :
  reached ns b subs →
  ∃ channel payload, PublishBus eventName args b = inr (channel, payload) ∧
    receive channel payload b = expected_calls subs eventName args.
Proof.
  intros Hr. destruct (reached_open ns b subs Hr) as [_ Hcl]. destruct (reached_inv ns b subs Hr) as [Hns _].
  unfold PublishBus. rewrite Hcl, Hns. eexists _, _. split; [done|]. by apply receive_reached.
Qed.

(** The two buses share no channel. *)
Lemma buses_apart n n' : channelName "system" n ≠ channelName "user" n'.
Proof. unfold channelName. cbn. intros [= E]. Qed.

Definition sample_bus : EventBus :=
  (SubscribeBus (λ _, true) 1 ["queue.stateChanged"; "queue.queueCreated"] 5 (StartBus (NewEventBus "system"))).2.2.

Definition sample_sub : live_sub := {| ls_id := 6; ls_handler := 1; ls_names := ["queue.stateChanged"; "queue.queueCreated"] |}.

Lemma sample_bus_step : bus_step (5, StartBus (NewEventBus "system"), []) (6, sample_bus, [sample_sub]).
Proof.
  apply (bs_subscribe (λ _, true) 1 ["queue.stateChanged"; "queue.queueCreated"] 5 (StartBus (NewEventBus "system")) []
    {| sub_id := 6; sub_channels := channelName "system" <$> ["queue.stateChanged"; "queue.queueCreated"] |} 6 sample_bus).
  vm_compute. reflexivity.
Qed.

Lemma sample_bus_reached : reached "system" sample_bus [sample_sub].
Proof. exists 5, 6. eapply rtc_once, sample_bus_step. Qed.

Lemma bus_delivers_witness :
  let b := (SubscribeBus (λ _, false) 2 ["queue.stateChanged"] 6 sample_bus).2.2 in
  ∃ channel payload,
    PublishBus "queue.stateChanged" [JStr "x"] b = inr (channel, payload) ∧
    receive channel payload b = [(1%nat, "queue.stateChanged", [JStr "x"])].
Proof.
  intros b. destruct (bus_delivers "system" b [sample_sub] "queue.stateChanged" [JStr "x"]) as (ch & p & H1 & H2).
  - exists 5, 7. eapply rtc_l; [exact sample_bus_step|]. eapply rtc_once.
    apply (bs_refused (λ _, false) 2 ["queue.stateChanged"] 6 sample_bus [sample_sub] (SubscribeFailed (channelName "system" "queue.stateChanged")) 7 b).
    vm_compute. reflexivity.
  - exists ch, p. split; [exact H1|]. rewrite H2. vm_compute. reflexivity.
Defined.
