(* ===== verification/Events.v ===== *)
(** * Typed events

    What the packages publish and subscribe to over the buses of EventBus.v:
    internal/queue/events, internal/consumer/events, internal/producer/publish.go
    and the subscriptions of pkg/queue, pkg/consumer and pkg/producer.

    The arguments of an event are a JSON array; a subscriber gets them as
    generic values (numbers in floating point, objects as maps), writes each
    back as JSON and reads it as the type it expects. *)

From S2P Require Import Prelude Keys Redis RedisFacts Types Keyspace Topic Json Message MessageCodec.
From S2P Require Import Publish Consume Accounts Accounting Lifecycle Batch Manage QueueState Lock Exchange Bindings Routing Produce Admin Subscribe Reaper Handler EventBus.
#[local] Open Scope Z_scope.

(** ** Generic values *)

Definition decodeArg {A} (decode : json → option A) (arg : json) : option A := decode (rewire arg).

(** null leaves the zero value. *)
Definition or_zero {A} (z : A) (decode : json → option A) (j : json) : option A :=
  match j with JNull => Some z | _ => decode j end.
Definition text_arg : json → option string := decodeArg (or_zero "" as_text).
Definition int_arg : json → option Z := decodeArg (or_zero 0 as_int).
Definition queue_arg : json → option QParams := decodeArg (or_zero {| q_name := ""; q_ns := "" |} q_UnmarshalJSON).
Definition transition_arg : json → option StateTransition := decodeArg transition_of_json.

(** ** Queue events *)

Definition EventCreated : string := "queue.queueCreated".
Definition EventDeleted : string := "queue.queueDeleted".
Definition EventStateChanged : string := "queue.stateChanged".
Definition EventConsumerGroupCreated : string := "queue.consumerGroupCreated".
Definition EventConsumerGroupDeleted : string := "queue.consumerGroupDeleted".

(** The properties a creation event carries; the other fields have their zero
    values, times as the text of the zero time. *)
Record CreatedProps := { cp_Type : Z; cp_DeliveryModel : Z; cp_RateLimit : option RateLimitParams }.
Definition zero_time : json := JStr "0001-01-01T00:00:00Z".
Definition props_json (p : CreatedProps) : json := JObj
  [("Type", JNum (cp_Type p)); ("DeliveryModel", JNum (cp_DeliveryModel p)); ("OperationalState", JNum 0);
   ("MessagesCount", JNum 0); ("ScheduledMessagesCount", JNum 0); ("PendingMessagesCount", JNum 0);
   ("ProcessingMessagesCount", JNum 0); ("AcknowledgedMessagesCount", JNum 0); ("DeadLetteredMessagesCount", JNum 0);
   ("DelayedMessagesCount", JNum 0); ("RequeuedMessagesCount", JNum 0);
   ("RateLimit", match cp_RateLimit p with Some rl => rl_MarshalJSON rl | None => JNull end);
   ("CreatedAt", zero_time); ("LastStateChangeAt", zero_time); ("LockID", JStr "")].
Definition props_of_json (j : json) : option CreatedProps :=
  match j with
  | JObj l =>
      ty ← get_or 0 as_int "Type" l;
      dm ← get_or 0 as_int "DeliveryModel" l;
      rl ← get_opt rl_UnmarshalJSON "RateLimit" l;
      Some {| cp_Type := ty; cp_DeliveryModel := dm; cp_RateLimit := rl |}
  | _ => None
  end.
Definition props_arg : json → option CreatedProps :=
  decodeArg (or_zero {| cp_Type := 0; cp_DeliveryModel := 0; cp_RateLimit := None |} props_of_json).

(** *** Publishing (internal/queue/events/publish.go) *)

Definition PublishCreated (q : QParams) (p : CreatedProps) : string * list json := (EventCreated, [q_MarshalJSON q; props_json p]).
Definition PublishDeleted (q : QParams) : string * list json := (EventDeleted, [q_MarshalJSON q]).
Definition PublishStateChanged (q : QParams) (t : StateTransition) : string * list json :=
  (EventStateChanged, [q_MarshalJSON q; transition_json t]).
Definition PublishConsumerGroupCreated (q : QParams) (groupID : string) : string * list json :=
  (EventConsumerGroupCreated, [q_MarshalJSON q; JStr groupID]).
Definition PublishConsumerGroupDeleted (q : QParams) (groupID : string) : string * list json :=
  (EventConsumerGroupDeleted, [q_MarshalJSON q; JStr groupID]).

(** *** Subscribing

    The event, and what the handler is called with; [None] where it is not
    called.  Further arguments are ignored. *)

Definition subscriber (A : Type) : Type := string * (list json → option A).

(** The internal packages subscribe on the system bus ([None]: it panics, there
    being none), the public ones on the user bus once it is configured
    ([inl None] otherwise). *)
Definition on_system {A} (sub : subscriber A) (ok : string → bool) (handler : nat) (next : Z) (w : buses)
    : option ((bus_error + Subscription) * (Z * buses)) :=
  b ← System w;
  let '(r, (next, b)) := SubscribeBus ok handler [sub.1] next b in Some (r, (next, Buses (Some b) (userBusInstance w))).
Definition on_user {A} (sub : subscriber A) (ok : string → bool) (handler : nat) (next : Z) (w : buses)
    : (option bus_error + Subscription) * (Z * buses) :=
  match User w with
  | None => (inl None, (next, w))
  | Some b =>
      let '(r, (next, b)) := SubscribeBus ok handler [sub.1] next b in
      (match r with inl e => inl (Some e) | inr x => inr x end, (next, Buses (systemBusInstance w) (Some b)))
  end.

Definition SubscribeCreated : subscriber (QParams * CreatedProps) :=
  (EventCreated, λ args, match args with
                         | a0 :: a1 :: _ => q ← queue_arg a0; p ← props_arg a1; Some (q, p)
                         | _ => None
                         end).
Definition SubscribeDeleted : subscriber QParams :=
  (EventDeleted, λ args, match args with a0 :: _ => queue_arg a0 | [] => None end).
Definition SubscribeStateChanged : subscriber (QParams * StateTransition) :=
  (EventStateChanged, λ args, match args with
                              | a0 :: a1 :: _ => q ← queue_arg a0; t ← transition_arg a1; Some (q, t)
                              | _ => None
                              end).
Definition group_payload (args : list json) : option (QParams * string) :=
  match args with a0 :: a1 :: _ => q ← queue_arg a0; g ← text_arg a1; Some (q, g) | _ => None end.
Definition SubscribeConsumerGroupCreated : subscriber (QParams * string) := (EventConsumerGroupCreated, group_payload).
Definition SubscribeConsumerGroupDeleted : subscriber (QParams * string) := (EventConsumerGroupDeleted, group_payload).

(** pkg/queue/events_subscribe.go has the same on the user bus. *)
Definition user_SubscribeCreated : subscriber (QParams * CreatedProps) := SubscribeCreated.
Definition user_SubscribeDeleted : subscriber QParams := SubscribeDeleted.
Definition user_SubscribeStateChanged : subscriber (QParams * StateTransition) := SubscribeStateChanged.
Definition user_SubscribeConsumerGroupCreated : subscriber (QParams * string) := SubscribeConsumerGroupCreated.
Definition user_SubscribeConsumerGroupDeleted : subscriber (QParams * string) := SubscribeConsumerGroupDeleted.

(** ** Consumer events (internal/consumer/events, pkg/consumer/events_subscribe.go) *)

Definition PublishUp (consumerID : string) : string * list json := ("consumer.up", [JStr consumerID]).
Definition PublishDown (consumerID : string) : string * list json := ("consumer.down", [JStr consumerID]).
Definition PublishGoingUp (consumerID : string) : string * list json := ("consumer.goingUp", [JStr consumerID]).
Definition PublishGoingDown (consumerID : string) : string * list json := ("consumer.goingDown", [JStr consumerID]).
Definition message_args (messageID : string) (q : QParams) (consumerID : string) : list json :=
  [JStr messageID; q_MarshalJSON q; JStr consumerID].
Definition PublishMessageReceived m q c : string * list json := ("consumer.messageReceived", message_args m q c).
Definition PublishMessageAcknowledged m q c : string * list json := ("consumer.messageAcknowledged", message_args m q c).
Definition PublishMessageUnacknowledged m q c (cause : Z) : string * list json :=
  ("consumer.messageUnacknowledged", message_args m q c ++ [JNum cause]).
Definition PublishMessageDeadLettered m q c (cause : Z) : string * list json :=
  ("consumer.messageDeadLettered", message_args m q c ++ [JNum cause]).
Definition PublishMessageRequeued m q c : string * list json := ("consumer.messageRequeued", message_args m q c).
Definition PublishMessageDelayed m q c : string * list json := ("consumer.messageDelayed", message_args m q c).

Record MessagePayload := { mp_MessageID : string; mp_Queue : QParams; mp_ConsumerID : string }.

Definition lifecycle_payload (args : list json) : option string := match args with a0 :: _ => text_arg a0 | [] => None end.
Definition message_payload (args : list json) : option MessagePayload :=
  match args with
  | a0 :: a1 :: a2 :: _ =>
      m ← text_arg a0; q ← queue_arg a1; c ← text_arg a2; Some {| mp_MessageID := m; mp_Queue := q; mp_ConsumerID := c |}
  | _ => None
  end.
Definition cause_payload (args : list json) : option (MessagePayload * Z) :=
  match args with
  | a0 :: a1 :: a2 :: a3 :: _ => p ← message_payload [a0; a1; a2]; cause ← int_arg a3; Some (p, cause)
  | _ => None
  end.

Definition SubscribeUp : subscriber string := ("consumer.up", lifecycle_payload).
Definition SubscribeDown : subscriber string := ("consumer.down", lifecycle_payload).
Definition SubscribeGoingUp : subscriber string := ("consumer.goingUp", lifecycle_payload).
Definition SubscribeGoingDown : subscriber string := ("consumer.goingDown", lifecycle_payload).
Definition SubscribeMessageReceived : subscriber MessagePayload := ("consumer.messageReceived", message_payload).
Definition SubscribeMessageAcknowledged : subscriber MessagePayload := ("consumer.messageAcknowledged", message_payload).
Definition SubscribeMessageUnacknowledged : subscriber (MessagePayload * Z) := ("consumer.messageUnacknowledged", cause_payload).
Definition SubscribeMessageDeadLettered : subscriber (MessagePayload * Z) := ("consumer.messageDeadLettered", cause_payload).
Definition SubscribeMessageRequeued : subscriber MessagePayload := ("consumer.messageRequeued", message_payload).
Definition SubscribeMessageDelayed : subscriber MessagePayload := ("consumer.messageDelayed", message_payload).

(** ** Producer events (internal/producer/publish.go, pkg/producer/events_subscribe.go) *)

Definition producer_PublishUp (producerID : string) : string * list json := ("producer.up", [JStr producerID]).
Definition producer_PublishDown (producerID : string) : string * list json := ("producer.down", [JStr producerID]).
Definition producer_PublishGoingUp (producerID : string) : string * list json := ("producer.goingUp", [JStr producerID]).
Definition producer_PublishGoingDown (producerID : string) : string * list json := ("producer.goingDown", [JStr producerID]).
Definition PublishMessagePublished m q p : string * list json := ("producer.messagePublished", message_args m q p).

Definition producer_SubscribeUp : subscriber string := ("producer.up", lifecycle_payload).
Definition producer_SubscribeDown : subscriber string := ("producer.down", lifecycle_payload).
Definition producer_SubscribeGoingUp : subscriber string := ("producer.goingUp", lifecycle_payload).
Definition producer_SubscribeGoingDown : subscriber string := ("producer.goingDown", lifecycle_payload).
Definition SubscribeMessagePublished : subscriber MessagePayload := ("producer.messagePublished", message_payload).

(** ** Arguments are read back *)

Lemma exact_int64 z : exact_int z → in_int64 z.
Proof. unfold exact_int, in_int64, int64_min, int64_max. lia. Qed.

Lemma get_or_rewire {A} z (f : json → option A) j a k l :
  jfield k l = Some j → f (rewire j) = Some a → rewire j ≠ JNull → get_or z f k (sort_fields (rewire_fields l)) = Some a.
Proof. intros Hj Hf Hn. eapply get_or_eq; [by rewrite jfield_rewire, Hj|done|done]. Qed.

Lemma get_opt_rewire {A} (f : json → option A) (g : A → json) k l o :
  jfield k l = g <$> o → (∀ a, o = Some a → f (rewire (g a)) = Some a ∧ rewire (g a) ≠ JNull) →
  get_opt f k (sort_fields (rewire_fields l)) = Some o.
Proof.
  intros Hj Hf. apply (get_opt_eq f (λ a, rewire (g a))); [|done]. rewrite jfield_rewire, Hj. by destruct o.
Qed.

Lemma as_int_rewire z : exact_int z → as_int (rewire (JNum z)) = Some z.
Proof. intros H. cbn [rewire]. rewrite to_float64_exact by done. apply as_int_num, exact_int64, H. Qed.

(** The side conditions of reading a field back. *)
Ltac rewired :=
  lazymatch goal with
  | |- jfield _ _ = _ => jfields
  | |- as_int _ = _ => first [by apply as_int_rewire | by apply as_int_num, exact_int64]
  | |- _ => by cbn [rewire]
  end.

Lemma text_arg_str s : text_arg (JStr s) = Some s.
Proof. done. Qed.

Lemma int_arg_num z : exact_int z → int_arg (JNum z) = Some z.
Proof. intros H. unfold int_arg, decodeArg, or_zero. pose proof (as_int_rewire z H) as E. cbn [rewire] in *. exact E. Qed.

Lemma queue_arg_json q : queue_arg (q_MarshalJSON q) = Some q.
Proof.
  unfold queue_arg, decodeArg, q_MarshalJSON. rewrite rewire_obj. cbn [or_zero q_UnmarshalJSON].
  rewrite (get_or_rewire "" as_text (JStr (q_name q)) (q_name q) "name") by rewired. cbn [mbind option_bind].
  rewrite (get_or_rewire "" as_text (JStr (q_ns q)) (q_ns q) "ns") by rewired. by destruct q.
Qed.

(** What an event carries without loss: numbers a float64 holds. *)
Record transition_exact (t : StateTransition) : Prop := {
  te_from : ∀ z, From t = Some z → exact_int z;
  te_to : exact_int (To t);
  te_time : exact_int (Timestamp t);
  te_owner : ∀ z, Owner t = Some z → exact_int z
}.

(** The metadata, which is a map of generic values, is written back in order. *)
Definition sort_metadata (t : StateTransition) : StateTransition :=
  {| From := From t; To := To t; Reason := Reason t; Timestamp := Timestamp t; Description := Description t;
     LockID := LockID t; Owner := Owner t; Metadata := sort_fields (rewire_fields (Metadata t)) |}.

Lemma transition_arg_json t : transition_exact t → transition_arg (transition_json t) = Some (sort_metadata t).
Proof.
  intros [Hf Ht Hs Ho]. destruct t as [from to reason ts desc lid own meta]. cbn in Hf, Ht, Hs, Ho.
  unfold transition_arg, decodeArg, transition_json, sort_metadata.
  cbn [From To Reason Timestamp Description LockID Owner Metadata]. rewrite rewire_obj. unfold transition_of_json.
  match goal with |- context [rewire_fields ?x] => set (l := x) end.
  assert (get_opt as_int "from" (sort_fields (rewire_fields l)) = Some from) as ->.
  { unfold get_opt. rewrite jfield_rewire.
    assert (jfield "from" l = Some match from with Some z => JNum z | None => JNull end) as -> by (unfold l; jfields).
    destruct from as [z|]; [|done]. cbn [fmap option_fmap option_map]. pose proof (as_int_rewire z (Hf z eq_refl)) as E.
    cbn [rewire] in *. by rewrite E. }
  cbn [mbind option_bind]. rewrite (get_or_rewire 0 as_int (JNum to) to "to") by (try unfold l; rewired).
  cbn [mbind option_bind]. rewrite (get_or_rewire "" as_text (JStr reason) reason "reason") by (try unfold l; rewired).
  cbn [mbind option_bind]. rewrite (get_or_rewire 0 as_int (JNum ts) ts "timestamp") by (try unfold l; rewired).
  cbn [mbind option_bind].
  assert (get_or "" as_text "description" (sort_fields (rewire_fields l)) = Some desc) as ->.
  { apply get_or_nonempty. rewrite jfield_rewire. assert (jfield "description" l = JStr <$> nonempty desc) as -> by (unfold l; jfields).
    unfold nonempty. by case_decide. }
  cbn [mbind option_bind].
  rewrite (get_opt_rewire as_text JStr "lockId" l lid) by (unfold l; first [jfields | done]). cbn [mbind option_bind].
  rewrite (get_opt_rewire as_int JNum "lockOwner" l own) by (unfold l; first [jfields | intros z ->; split; [by apply as_int_rewire, Ho|done]]).
  cbn [mbind option_bind].
  assert (get_or [] as_object "metadata" (sort_fields (rewire_fields l)) = Some (sort_fields (rewire_fields meta))) as ->; [|done].
  unfold get_or, get_opt. rewrite jfield_rewire.
  assert (jfield "metadata" l = JObj <$> match meta with [] => None | m => Some m end) as -> by (unfold l; destruct meta; jfields).
  by destruct meta.
Qed.

(** A rate limit that is stored as it is (Admin.v), in exact numbers. *)
Definition props_exact (p : CreatedProps) : Prop :=
  exact_int (cp_Type p) ∧ exact_int (cp_DeliveryModel p) ∧
  ∀ rl, cp_RateLimit p = Some rl → storable_rl rl ∧ exact_int (rl_limit rl) ∧ exact_int (Milliseconds (rl_interval rl)).

Lemma rl_rewire rl : storable_rl rl → exact_int (rl_limit rl) → exact_int (Milliseconds (rl_interval rl)) →
  rl_UnmarshalJSON (rewire (rl_MarshalJSON rl)) = Some rl ∧ rewire (rl_MarshalJSON rl) ≠ JNull.
Proof.
  intros Hs H1 H2. split; [|done]. pose proof (rl_json_roundtrip rl Hs) as E. revert E.
  unfold rl_MarshalJSON. rewrite rewire_obj. unfold rl_UnmarshalJSON.
  rewrite (get_or_rewire 0 as_int (JNum (rl_limit rl)) (rl_limit rl) "limit") by rewired.
  rewrite (get_or_eq 0 as_int (JNum (rl_limit rl)) (rl_limit rl) "limit") by rewired.
  cbn [mbind option_bind].
  rewrite (get_or_rewire 0 as_int (JNum (Milliseconds (rl_interval rl))) (Milliseconds (rl_interval rl)) "interval")
    by rewired.
  by rewrite (get_or_eq 0 as_int (JNum (Milliseconds (rl_interval rl))) (Milliseconds (rl_interval rl)) "interval")
    by rewired.
Qed.

Lemma props_arg_json p : props_exact p → props_arg (props_json p) = Some p.
Proof.
  intros (H1 & H2 & H3). unfold props_arg, decodeArg, props_json. rewrite rewire_obj. cbn [or_zero props_of_json].
  match goal with |- context [rewire_fields ?x] => set (l := x) end.
  rewrite (get_or_rewire 0 as_int (JNum (cp_Type p)) (cp_Type p) "Type") by (try unfold l; rewired).
  cbn [mbind option_bind].
  rewrite (get_or_rewire 0 as_int (JNum (cp_DeliveryModel p)) (cp_DeliveryModel p) "DeliveryModel") by (try unfold l; rewired).
  cbn [mbind option_bind].
  assert (get_opt rl_UnmarshalJSON "RateLimit" (sort_fields (rewire_fields l)) = Some (cp_RateLimit p)) as ->; [|by destruct p].
  unfold get_opt. rewrite jfield_rewire.
  assert (jfield "RateLimit" l = Some match cp_RateLimit p with Some rl => rl_MarshalJSON rl | None => JNull end) as -> by (unfold l; jfields).
  destruct (cp_RateLimit p) as [rl|]; [|done]. destruct (H3 rl eq_refl) as (Hs & Hl & Hi).
  destruct (rl_rewire rl Hs Hl Hi) as [E Hn]. cbn [fmap option_fmap option_map]. rewrite E. by destruct (rewire (rl_MarshalJSON rl)).
Qed.

(** ** Every event reaches its subscribers *)

Inductive event :=
| QueueCreated (p : QParams * CreatedProps) | QueueDeleted (q : QParams) | QueueStateChanged (p : QParams * StateTransition)
| GroupCreated (p : QParams * string) | GroupDeleted (p : QParams * string)
| ConsumerUp (c : string) | ConsumerDown (c : string) | ConsumerGoingUp (c : string) | ConsumerGoingDown (c : string)
| MsgReceived (p : MessagePayload) | MsgAcknowledged (p : MessagePayload) | MsgUnacknowledged (p : MessagePayload * Z)
| MsgDeadLettered (p : MessagePayload * Z) | MsgRequeued (p : MessagePayload) | MsgDelayed (p : MessagePayload)
| ProducerUp (p : string) | ProducerDown (p : string) | ProducerGoingUp (p : string) | ProducerGoingDown (p : string)
| MsgPublished (p : MessagePayload).

Definition of_payload {A} (f : string → QParams → string → A) (p : MessagePayload) : A :=
  f (mp_MessageID p) (mp_Queue p) (mp_ConsumerID p).

(** The publication of an event. *)
Definition published (e : event) : string * list json :=
  match e with
  | QueueCreated (q, p) => PublishCreated q p
  | QueueDeleted q => PublishDeleted q
  | QueueStateChanged (q, t) => PublishStateChanged q t
  | GroupCreated (q, g) => PublishConsumerGroupCreated q g
  | GroupDeleted (q, g) => PublishConsumerGroupDeleted q g
  | ConsumerUp c => PublishUp c
  | ConsumerDown c => PublishDown c
  | ConsumerGoingUp c => PublishGoingUp c
  | ConsumerGoingDown c => PublishGoingDown c
  | MsgReceived p => of_payload PublishMessageReceived p
  | MsgAcknowledged p => of_payload PublishMessageAcknowledged p
  | MsgUnacknowledged (p, cause) => of_payload PublishMessageUnacknowledged p cause
  | MsgDeadLettered (p, cause) => of_payload PublishMessageDeadLettered p cause
  | MsgRequeued p => of_payload PublishMessageRequeued p
  | MsgDelayed p => of_payload PublishMessageDelayed p
  | ProducerUp p => producer_PublishUp p
  | ProducerDown p => producer_PublishDown p
  | ProducerGoingUp p => producer_PublishGoingUp p
  | ProducerGoingDown p => producer_PublishGoingDown p
  | MsgPublished p => of_payload PublishMessagePublished p
  end.

Definition map_sub {A} (f : A → event) (s : subscriber A) : subscriber event := (s.1, λ args, f <$> s.2 args).

(** One subscription of each kind. *)
Definition all_subscribers : list (subscriber event) :=
  [map_sub QueueCreated SubscribeCreated; map_sub QueueDeleted SubscribeDeleted; map_sub QueueStateChanged SubscribeStateChanged;
   map_sub GroupCreated SubscribeConsumerGroupCreated; map_sub GroupDeleted SubscribeConsumerGroupDeleted;
   map_sub ConsumerUp SubscribeUp; map_sub ConsumerDown SubscribeDown; map_sub ConsumerGoingUp SubscribeGoingUp;
   map_sub ConsumerGoingDown SubscribeGoingDown; map_sub MsgReceived SubscribeMessageReceived;
   map_sub MsgAcknowledged SubscribeMessageAcknowledged; map_sub MsgUnacknowledged SubscribeMessageUnacknowledged;
   map_sub MsgDeadLettered SubscribeMessageDeadLettered; map_sub MsgRequeued SubscribeMessageRequeued;
   map_sub MsgDelayed SubscribeMessageDelayed; map_sub ProducerUp producer_SubscribeUp; map_sub ProducerDown producer_SubscribeDown;
   map_sub ProducerGoingUp producer_SubscribeGoingUp; map_sub ProducerGoingDown producer_SubscribeGoingDown;
   map_sub MsgPublished SubscribeMessagePublished].

Definition subscribed_to (n : string) : list (subscriber event) := filter (λ s, s.1 = n) all_subscribers.

(** What the handlers subscribed to [n] are called with. *)
Definition handled (n : string) (args : list json) : list event := omap (λ s : subscriber event, s.2 args) (subscribed_to n).

Definition event_exact (e : event) : Prop :=
  match e with
  | QueueCreated (_, p) => props_exact p
  | QueueStateChanged (_, t) => transition_exact t
  | MsgUnacknowledged (_, cause) | MsgDeadLettered (_, cause) => exact_int cause
  | _ => True
  end.
Definition received (e : event) : event :=
  match e with QueueStateChanged (q, t) => QueueStateChanged (q, sort_metadata t) | _ => e end.

Lemma message_payload_args m q c : message_payload (message_args m q c) = Some {| mp_MessageID := m; mp_Queue := q; mp_ConsumerID := c |}.
Proof. unfold message_payload, message_args. by rewrite !text_arg_str, queue_arg_json. Qed.

Lemma cause_payload_args m q c cause : exact_int cause →
  cause_payload (message_args m q c ++ [JNum cause]) = Some ({| mp_MessageID := m; mp_Queue := q; mp_ConsumerID := c |}, cause).
Proof.
  intros H. change (message_args m q c ++ [JNum cause]) with [JStr m; q_MarshalJSON q; JStr c; JNum cause].
  unfold cause_payload. fold (message_args m q c). rewrite message_payload_args. cbn [mbind option_bind]. by rewrite int_arg_num.
Qed.

(** The subscribers of an event, by its name. *)
Ltac subscribers :=
  unfold subscribed_to, all_subscribers;
  repeat first [rewrite filter_cons_True by reflexivity | rewrite filter_cons_False by (unfold map_sub; discriminate)];
  rewrite filter_nil; reflexivity.

Lemma subscriber_reads e : event_exact e → ∃ s, subscribed_to (published e).1 = [s] ∧ s.2 (published e).2 = Some (received e).
Proof.
  destruct e as [[q p]|q|[q t]|[q g]|[q g]|c|c|c|c|[m q c]|[m q c]|[[m q c] cause]|[[m q c] cause]|[m q c]|[m q c]|p|p|p|p|[m q c]];
    cbn [event_exact published received]; unfold of_payload; cbn [mp_MessageID mp_Queue mp_ConsumerID]; intros Hx;
    (eexists; split; [subscribers|]).
  all: cbn [map_sub snd fst PublishCreated PublishDeleted PublishStateChanged PublishConsumerGroupCreated PublishConsumerGroupDeleted
    SubscribeCreated SubscribeDeleted SubscribeStateChanged SubscribeConsumerGroupCreated SubscribeConsumerGroupDeleted group_payload];
    rewrite ?queue_arg_json; cbn [mbind option_bind].
  - by rewrite props_arg_json.
  - done.
  - by rewrite transition_arg_json.
  - done.
  - done.
  - done.
  - done.
  - done.
  - done.
  - exact (f_equal (fmap MsgReceived) (message_payload_args m q c)).
  - exact (f_equal (fmap MsgAcknowledged) (message_payload_args m q c)).
  - exact (f_equal (fmap MsgUnacknowledged) (cause_payload_args m q c cause Hx)).
  - exact (f_equal (fmap MsgDeadLettered) (cause_payload_args m q c cause Hx)).
  - exact (f_equal (fmap MsgRequeued) (message_payload_args m q c)).
  - exact (f_equal (fmap MsgDelayed) (message_payload_args m q c)).
  - done.
  - done.
  - done.
  - done.
  - exact (f_equal (fmap MsgPublished) (message_payload_args m q c)).
Qed.

Definition is_queue_event (e : event) : bool :=
  match e with
  | QueueCreated _ | QueueDeleted _ | QueueStateChanged _ | GroupCreated _ | GroupDeleted _ => true
  | _ => false
  end.

(** The calls a list of messages makes in a process. *)
Definition deliver (msgs : list (string * string)) (b : EventBus) : list (nat * string * list json) :=
  msgs ≫= λ m, receive m.1 m.2 b.

Lemma event_route e : default TargetUser (routingPolicies (published e).1) = if is_queue_event e then TargetBoth else TargetUser.
Proof.
  destruct e as [[? ?]|?|[? ?]|[? ?]|[? ?]|?|?|?|?|?|?|[? ?]|[? ?]|?|?|?|?|?|?|?]; reflexivity.
Qed.

Lemma publish_reached ns b subs n args : reached ns b subs → PublishBus n args b = inr (channelName ns n, print (JArr args)).
Proof.
  intros Hr. destruct (reached_open ns b subs Hr) as [_ Hcl]. destruct (reached_inv ns b subs Hr) as [Hns _].
  unfold PublishBus. by rewrite Hcl, Hns.
Qed.

(** C21: an event that is published with both buses running reaches, through the
    multiplexer, the handlers subscribed to it on the user bus and, for an
    event of a queue, those on the system bus, each once for every
    subscription and no others; and what the subscriber of its kind decodes
    from the arguments is what was published (of a state transition, with its
    metadata in the order of the keys), as long as its numbers are integers a
    float64 holds. *)
Theorem events_arrive e bs subs_s bu subs_u :
  event_exact e → reached "system" bs subs_s → reached "user" bu subs_u →
  let '(n, args) := published e in
  ∃ msgs, PublishEvent n args (Buses (Some bs) (Some bu)) = Some (inr msgs) ∧
    deliver msgs bu = expected_calls subs_u n args ∧
    deliver msgs bs = (if is_queue_event e then expected_calls subs_s n args else []) ∧
    handled n args = [received e].
Proof.
  intros Hx Hs Hu. destruct (subscriber_reads e Hx) as (sub & Hsub & Hd). pose proof (event_route e) as Hroute.
  destruct (published e) as [n args]. cbn [fst snd] in *.
  assert (handled n args = [received e]) as Hh by (unfold handled; rewrite Hsub; cbn; by rewrite Hd).
  destruct (reached_open _ _ _ Hu) as [Hrun _]. unfold PublishEvent. rewrite Hroute. unfold publish_user. cbn [User System userBusInstance systemBusInstance].
  assert (∀ args', receive (channelName "user" n) (print (JArr args')) bs = []) as Hno.
  { intros args'. eapply receive_other; [exact Hs|]. intros n'. apply buses_apart. }
  assert (∀ args', receive (channelName "system" n) (print (JArr args')) bu = []) as Hno'.
  { intros args'. eapply receive_other; [exact Hu|]. intros n' E. by apply (buses_apart n n'). }
  destruct (is_queue_event e).
  - cbn [mbind option_bind]. rewrite (publish_reached _ _ _ n args Hs), Hrun, (publish_reached _ _ _ n args Hu). cbn [mbind option_bind].
    eexists. split; [done|]. unfold deliver. cbn [mbind list_bind fst snd]. rewrite Hno, Hno'.
    rewrite (receive_reached _ _ _ n args Hs), (receive_reached _ _ _ n args Hu), !app_nil_r. done.
  - rewrite Hrun, (publish_reached _ _ _ n args Hu). eexists. split; [done|]. unfold deliver. cbn [mbind list_bind fst snd].
    rewrite Hno, (receive_reached _ _ _ n args Hu), !app_nil_r. done.
Qed.

Definition paused_transition : StateTransition :=
  {| From := Some StateActive; To := StatePaused; Reason := ReasonManual; Timestamp := 1700000000000; Description := "";
     LockID := None; Owner := None; Metadata := [("b", JNum 2); ("a", JNum 1)] |}.

Lemma events_arrive_witness :
  let '(n, args) := published (QueueStateChanged (orders, paused_transition)) in
  ∃ msgs, PublishEvent n args (Buses (Some sample_bus) (Some (StartBus (NewEventBus "user")))) = Some (inr msgs) ∧
    deliver msgs sample_bus = [(1%nat, n, args)].
Proof.
  destruct (events_arrive (QueueStateChanged (orders, paused_transition)) sample_bus [sample_sub] (StartBus (NewEventBus "user")) [])
    as (msgs & H1 & _ & H2 & _).
  - split; [intros z [= <-]|..|intros z [=]]; vm_compute; discriminate.
  - exact sample_bus_reached.
  - exists 0, 0. apply rtc_refl.
  - exists msgs. split; [exact H1|]. rewrite H2. reflexivity.
Defined.

(** A public subscription that succeeds adds its handler to those an event of
    its kind calls, and to no others; one that fails adds none. *)
Theorem public_subscription {A} (sub : subscriber A) ok h next w b subs r next' w' n args :
  userBusInstance w = Some b → (∃ next0, rtc bus_step (next0, StartBus (NewEventBus "user"), []) (next, b, subs)) →
  on_user sub ok h next w = (r, (next', w')) →
  ∃ b', userBusInstance w' = Some b' ∧ systemBusInstance w' = systemBusInstance w ∧
    receive (channelName "user" n) (print (JArr args)) b' =
    expected_calls subs n args ++ (if decide (n = sub.1) then match r with inr _ => [(h, n, args)] | inl _ => [] end else []).
Proof.
  intros Hb [next0 Hr]. unfold on_user, User. rewrite Hb. destruct (SubscribeBus ok h [sub.1] next b) as [r0 [next1 b1]] eqn:E.
  intros [= <- <- <-]. exists b1. split; [done|]. split; [done|]. destruct r0 as [e|x].
  - assert (reached "user" b1 subs) as H by (exists next0, next1; eapply rtc_r; [exact Hr|by eapply bs_refused]).
    rewrite (receive_reached _ _ _ n args H). by case_decide; rewrite app_nil_r.
  - assert (reached "user" b1 (subs ++ [{| ls_id := sub_id x; ls_handler := h; ls_names := [sub.1] |}])) as H
      by (exists next0, next1; eapply rtc_r; [exact Hr|by eapply bs_subscribe]).
    rewrite (receive_reached _ _ _ n args H). unfold expected_calls. rewrite bind_app. f_equal. cbn [mbind list_bind ls_handler ls_names].
    unfold occurs. destruct (decide (n = sub.1)) as [->|Hne].
    + by rewrite filter_cons_True.
    + by rewrite filter_cons_False.
Qed.

(** ** A consumer that leaves is not announced *)

Import Handling.

(** Consumers c1 and c2 of a publish/subscribe queue, each with a group of its
    own, of which the producer has learned from the creation events. *)
Definition two_consumers : MessageHandler * store :=
  let '(_, (mh1, s)) := RunHandler "{}" (λ _, second) (NewMessageHandler "c1" orders "" 7) pubsub_orders in
  let '(_, (_, s)) := RunHandler "{}" (λ _, second) (NewMessageHandler "c2" orders "" 7) s in
  (mh1, s).

Definition orders_message : ProducibleMessage := SetQueue (Some orders) (New DefaultConsumeOptions 5000000).

Definition produce_orders (s : store) : (produce_error + list string) * nat * world :=
  Produce (λ _, true) (λ _ _, None) (λ i, quiet_tick (itoa (Z.of_nat i)) id) true true orders_message 0
    (World s (group_events ["cid-c1"; "cid-c2"])).

(** Shutting c1 down deletes its group, and no event tells the producers: the
    next message of a producer that knew the group is refused for it, and is
    sent to nobody; before, it went to both. *)
Theorem departed_consumer_blocks_producers :
  let s := two_consumers.2 in
  let s' := (ShutdownHandler DefaultConfig DefaultConsumeOptions "u" "v" 9000000000 9001 two_consumers.1 s).2 in
  (produce_orders s).1.1 = inr ["0"; "1"] ∧
  (produce_orders s').1.1 = inl (PPublish ErrConsumerGroupNotFound) ∧
  lst (w_store (produce_orders s').2) (PendingWithGroup (queue_keys_of orders) "cid-c2") = [] ∧
  "cid-c2" ∈ sts s' (ConsumerGroups (queue_keys_of orders)).
Proof.
  cbv zeta. split; [vm_compute; reflexivity|]. split; [vm_compute; reflexivity|]. split; [vm_compute; reflexivity|].
  apply (bool_decide_unpack _). vm_compute. exact I.
Qed.
