(* ===== verification/Browse.v ===== *)
(** * Browsing messages

    internal/queue/browse.go: the identifiers of the messages of a category of
    a queue, by pages. *)

From S2P Require Import Prelude Keys Redis RedisFacts Types Keyspace Topic Json Message MessageCodec.
From S2P Require Import Configuration Publish Consume Accounts Accounting Lifecycle Batch Manage QueueState PurgeJobs Purge Lock Exchange Bindings Routing Admin Subscribe.
#[local] Open Scope Z_scope.

(** ** Pages of a category *)

Record BrowseParams := { bp_Filter : Z; bp_Offset : Z; bp_Count : Z }.
Record BrowseResult := { br_IDs : list string; br_Total : Z; br_Offset : Z; br_Count : Z; br_HasMore : bool }.

Inductive browse_error := BrowseLoad (e : option rerr) | BrowseRedis (e : rerr) | BrowseAuditDisabled | BrowseUnknownFilter.

Definition defaultBrowseCount : Z := 100.

(** LRANGE and ZRANGE treat indices as LTRIM does. *)
Definition cmd_lrange (k : string) (start stop : Z) : M (list string) :=
  with_view as_list k (λ l, mret (ltrim start stop l)).
Definition cmd_zrange (k : string) (start stop : Z) : M (list string) :=
  with_view as_zset k (λ z, mret (ltrim start stop z.*2)).

(** The page from its two reads; [stop] is computed in 64 bits. *)
Definition browse_stop (params : BrowseParams) : Z := wrap64 (wrap64 (bp_Offset params + bp_Count params) - 1).
Definition browse_result (params : BrowseParams) (total : Z) (ids : list string) : BrowseResult :=
  {| br_IDs := ids; br_Total := total; br_Offset := bp_Offset params; br_Count := Z.of_nat (length ids);
     br_HasMore := bool_decide (wrap64 (bp_Offset params + Z.of_nat (length ids)) < total) |}.

(** [between]: what others do between the two reads. *)
Definition browse_pair (count : M Z) (range : M (list string)) (params : BrowseParams) (between : store → store) (s : store)
    : browse_error + BrowseResult :=
  match (count s).1 with
  | Err e => inl (BrowseRedis e)
  | Ret total =>
      match (range (between s)).1 with
      | Err e => inl (BrowseRedis e)
      | Ret ids => inr (browse_result params total ids)
      end
  end.
Definition browseList (key : string) (params : BrowseParams) : (store → store) → store → browse_error + BrowseResult :=
  browse_pair (cmd_llen key) (cmd_lrange key (bp_Offset params) (browse_stop params)) params.
Definition browseSortedSet (key : string) (params : BrowseParams) : (store → store) → store → browse_error + BrowseResult :=
  browse_pair (cmd_zcard key) (cmd_zrange key (bp_Offset params) (browse_stop params)) params.

Definition browse_params (params : option BrowseParams) : BrowseParams :=
  let p := default {| bp_Filter := BrowsePublished; bp_Offset := 0; bp_Count := 0 |} params in
  {| bp_Filter := bp_Filter p; bp_Offset := bp_Offset p;
     bp_Count := if decide (bp_Count p <= 0) then defaultBrowseCount else bp_Count p |}.

Definition BrowseMessages (cfg : ConfigRec) (q : QParams) (params : option BrowseParams) (between : store → store) (s : store)
    : browse_error + BrowseResult :=
  let params := browse_params params in
  let qKey := queue_keys_of q in
  let filter := bp_Filter params in
  match LoadQueue q s with
  | inl e => inl (BrowseLoad e)
  | inr props =>
      if decide (filter = BrowsePublished) then browseList (Published qKey) params between s
      else if decide (filter = BrowsePending) then
        if decide (qp_Type props = TypePriority) then browseSortedSet (Priority qKey) params between s
        else browseList (Pending qKey) params between s
      else if decide (filter = BrowseScheduled) then browseSortedSet (Scheduled qKey) params between s
      else if decide (filter = BrowseAcknowledged) then
        if am_Enabled (AcknowledgedMessages (cfg_MessageAudit cfg)) then browseList (Acknowledged qKey) params between s
        else inl BrowseAuditDisabled
      else if decide (filter = BrowseDeadLettered) then
        if am_Enabled (DeadLetteredMessages (cfg_MessageAudit cfg)) then browseList (DeadLetter qKey) params between s
        else inl BrowseAuditDisabled
      else inl BrowseUnknownFilter
  end.

(** The loop of docs/message-browsing.md: pages of [count] until there are no
    more; [None] when [fuel] pages were not enough. *)
Fixpoint browse_loop (cfg : ConfigRec) (q : QParams) (filter count : Z) (s : store) (fuel : nat) (offset : Z) : option (list string) :=
  match fuel with
  | O => None
  | S fuel =>
      match BrowseMessages cfg q (Some {| bp_Filter := filter; bp_Offset := offset; bp_Count := count |}) id s with
      | inl _ => None
      | inr r => if br_HasMore r then rest ← browse_loop cfg q filter count s fuel (offset + br_Count r); Some (br_IDs r ++ rest)
                 else Some (br_IDs r)
      end
  end.

(** The messages of a category, when its filter can be browsed. *)
Definition category (cfg : ConfigRec) (q : QParams) (filter : Z) (s : store) : option (list string) :=
  let K := queue_keys_of q in
  if decide (filter = BrowsePublished) then Some (lst s (Published K))
  else if decide (filter = BrowsePending) then
    Some (if decide (qp_Type (DecodeQueueProps (hsh s (Properties K))) = TypePriority) then (zst s (Priority K)).*2 else lst s (Pending K))
  else if decide (filter = BrowseScheduled) then Some (zst s (Scheduled K)).*2
  else if decide (filter = BrowseAcknowledged) then
    if am_Enabled (AcknowledgedMessages (cfg_MessageAudit cfg)) then Some (lst s (Acknowledged K)) else None
  else if decide (filter = BrowseDeadLettered) then
    if am_Enabled (DeadLetteredMessages (cfg_MessageAudit cfg)) then Some (lst s (DeadLetter K)) else None
  else None.

Lemma page_slice o n (l : list string) :
  0 ≤ o → 0 < n → ltrim o (o + n - 1) l = take (Z.to_nat n) (drop (Z.to_nat o) l).
Proof.
  intros Ho Hn. unfold ltrim. cbv zeta. rewrite (decide_False (P := o < 0)) by lia. rewrite (decide_False (P := o + n - 1 < 0)) by lia.
  case_decide as E.
  - destruct E as [E|E]; [lia|]. rewrite drop_ge by lia. by rewrite take_nil.
  - destruct (decide (o + n - 1 ≤ Z.of_nat (length l) - 1)) as [Hle|Hgt].
    + rewrite Z.min_l by lia. f_equal. lia.
    + rewrite Z.min_r by lia. rewrite !take_ge; [done|rewrite length_drop; lia..].
Qed.

Section pages.
Context (cfg : ConfigRec) (q : QParams) (filter : Z) (s : store) (l : list string).
Context (Hq : queue_ok q) (Hw : wt s) (Hex : hsh s (Properties (queue_keys_of q)) ≠ ∅) (Hcat : category cfg q filter s = Some l).

(** The page of a category. *)
Lemma browse_category count offset :
  0 < count → 0 ≤ offset → offset + count ≤ int64_max → Z.of_nat (length l) ≤ int64_max →
  BrowseMessages cfg q (Some {| bp_Filter := filter; bp_Offset := offset; bp_Count := count |}) id s =
  inr (browse_result {| bp_Filter := filter; bp_Offset := offset; bp_Count := count |} (Z.of_nat (length l))
         (take (Z.to_nat count) (drop (Z.to_nat offset) l))).
Proof using Hq Hw Hex Hcat.
  intros Hc Ho Hmax Hlen. unfold BrowseMessages, browse_params. cbn [default id bp_Filter bp_Offset bp_Count].
  rewrite decide_False by lia. destruct Hq as [Hwf _].
  unfold LoadQueue. rewrite hgetall_run by wt_view. rewrite decide_False by done.
  set (p := {| bp_Filter := filter; bp_Offset := offset; bp_Count := count |}).
  assert (browse_stop p = offset + count - 1) as Hstop.
  { unfold browse_stop, p. cbn [bp_Offset bp_Count]. unfold int64_max in *. rewrite (wrap64_id (offset + count)) by (unfold in_int64, int64_min, int64_max; lia).
    by rewrite wrap64_id by (unfold in_int64, int64_min, int64_max; lia). }
  assert (∀ k, is_list s k → lst s k = l → browseList k p id s =
    inr (browse_result p (Z.of_nat (length l)) (take (Z.to_nat count) (drop (Z.to_nat offset) l)))) as HL.
  { intros k Hk E. unfold browseList, browse_pair. rewrite (llen_run k s Hk). cbn [fst]. unfold cmd_lrange, id. rewrite with_list_run by done.
    cbn [fst mret M_ret]. rewrite E, Hstop. by rewrite page_slice by (cbn; lia). }
  assert (∀ k, is_zset s k → (zst s k).*2 = l → browseSortedSet k p id s =
    inr (browse_result p (Z.of_nat (length l)) (take (Z.to_nat count) (drop (Z.to_nat offset) l)))) as HZ.
  { intros k Hk E. unfold browseSortedSet, browse_pair, cmd_zcard, cmd_zrange, id. rewrite !with_zset_run by done.
    cbn [fst mret M_ret]. rewrite E, Hstop, <-E, length_fmap. by rewrite page_slice by (cbn; lia). }
  revert Hcat. unfold category. cbn [bp_Filter p].
  destruct (decide (filter = BrowsePublished)); [intros [= <-]; apply HL; [wt_view|done]|].
  destruct (decide (filter = BrowsePending)).
  { destruct (decide (qp_Type _ = TypePriority)); intros [= <-]; [apply HZ|apply HL]; (wt_view || done). }
  destruct (decide (filter = BrowseScheduled)); [intros [= <-]; apply HZ; [wt_view|done]|].
  destruct (decide (filter = BrowseAcknowledged)).
  { destruct (am_Enabled _); intros [= <-]. apply HL; [wt_view|done]. }
  destruct (decide (filter = BrowseDeadLettered)); [|done].
  destruct (am_Enabled _); intros [= <-]. apply HL; [wt_view|done].
Qed.

Lemma browse_loop_run count fuel : ∀ offset,
  0 < count → 0 ≤ offset ≤ Z.of_nat (length l) → Z.of_nat (length l) + count ≤ int64_max →
  (length l < Z.to_nat offset + fuel)%nat →
  browse_loop cfg q filter count s fuel offset = Some (drop (Z.to_nat offset) l).
Proof using Hq Hw Hex Hcat.
  induction fuel as [|fuel IH]; intros offset Hc Ho Hmax Hf; [lia|]. cbn [browse_loop].
  rewrite browse_category by lia. cbn [browse_result br_HasMore br_Count br_IDs].
  set (page := take (Z.to_nat count) (drop (Z.to_nat offset) l)).
  assert (length page = Nat.min (Z.to_nat count) (length l - Z.to_nat offset)) as Hp by (unfold page; by rewrite length_take, length_drop).
  unfold int64_max in *. cbn [bp_Offset]. rewrite wrap64_id by (unfold in_int64, int64_min, int64_max; lia).
  case_bool_decide as Hm.
  - rewrite IH by lia. cbn [mbind option_bind]. f_equal.
    replace (Z.to_nat (offset + Z.of_nat (length page))) with (Z.to_nat offset + Z.to_nat count)%nat by lia.
    unfold page. rewrite <-drop_drop. apply take_drop.
  - f_equal. unfold page. rewrite take_ge; [done|]. rewrite length_drop. lia.
Qed.

End pages.

(** C39: the documented loop over pages ends and gives the messages of the
    category, each once and in order, whatever the (positive) size of the
    pages; as many pages as there are messages, and one, are enough.  Offsets
    must stay within 64 bits. *)
Theorem browse_pages cfg q filter count s l :
  queue_ok q → wt s → hsh s (Properties (queue_keys_of q)) ≠ ∅ → category cfg q filter s = Some l →
  0 < count → Z.of_nat (length l) + count ≤ int64_max →
  browse_loop cfg q filter count s (S (length l)) 0 = Some l.
Proof.
  intros Hq Hw Hex Hcat Hc Hmax. rewrite (browse_loop_run cfg q filter s l Hq Hw Hex Hcat count _ 0) by lia. done.
Qed.

(** Where the end of a page passes the largest integer the page is empty and
    still says that there is more. *)
Theorem browse_overflow cfg q filter count offset s l :
  queue_ok q → wt s → hsh s (Properties (queue_keys_of q)) ≠ ∅ → category cfg q filter s = Some l → filter = BrowsePublished →
  0 < offset < Z.of_nat (length l) → Z.of_nat (length l) < 4611686018427387904 → int64_max + 1 < offset + count → count ≤ int64_max →
  ∃ r, BrowseMessages cfg q (Some {| bp_Filter := filter; bp_Offset := offset; bp_Count := count |}) id s = inr r ∧
    br_IDs r = [] ∧ br_HasMore r = true.
Proof.
  intros [Hwf _] Hw Hex Hcat -> Ho Hlen Hov Hc. unfold BrowseMessages, browse_params. cbn [default id bp_Filter bp_Offset bp_Count].
  unfold int64_max in *. rewrite decide_False by lia. unfold LoadQueue. rewrite hgetall_run by wt_view. rewrite decide_False by done.
  rewrite decide_True by done. unfold category in Hcat. rewrite decide_True in Hcat by done. injection Hcat as <-.
  unfold browseList, browse_pair. rewrite llen_run by wt_view. cbn [fst]. unfold cmd_lrange, id. rewrite with_list_run by wt_view.
  cbn [fst mret M_ret]. eexists. split; [reflexivity|]. cbn [br_IDs br_HasMore browse_result bp_Offset].
  assert (ltrim offset (browse_stop {| bp_Filter := BrowsePublished; bp_Offset := offset; bp_Count := count |}) (lst s (Published (queue_keys_of q))) = []) as ->.
  { unfold browse_stop. cbn [bp_Offset bp_Count]. unfold ltrim. cbv zeta. rewrite (decide_False (P := offset < 0)) by lia.
    assert (wrap64 (offset + count) = offset + count - 18446744073709551616) as ->.
    { unfold wrap64. rewrite <-(Z.mod_add _ (-1)) by lia. rewrite Z.mod_small; lia. }
    rewrite wrap64_id by (unfold in_int64, int64_min, int64_max; lia).
    rewrite (decide_True (P := offset + count - 18446744073709551616 - 1 < 0)) by lia. rewrite decide_True; [done|]. left. lia. }
  split; [done|]. cbn [length bp_Offset]. apply bool_decide_eq_true_2. rewrite wrap64_id by (unfold in_int64, int64_min, int64_max; lia). lia.
Qed.

Lemma browse_pages_witness :
  let K := queue_keys_of orders in
  let s := put_list (Published K) ["m1"; "m2"; "m3"] plain_orders in
  browse_loop DefaultConfig orders BrowsePublished 2 s 4 0 = Some ["m1"; "m2"; "m3"].
Proof.
  intros K s. apply (browse_pages DefaultConfig orders BrowsePublished 2 s ["m1"; "m2"; "m3"]).
  - exact (proj1 sample_ok).
  - unfold s, put_list, K. pose proof plain_orders_wt. destruct (proj1 sample_ok) as [Hq _]. wt_solve.
  - apply (bool_decide_unpack _). vm_compute. exact I.
  - vm_compute. reflexivity.
  - lia.
  - vm_compute. discriminate.
Defined.
