(* ===== verification/Namespace.v ===== *)
(** * Namespaces

    internal/namespace/manager.go: listing namespaces, their queues and their
    exchanges, and deleting a namespace with all of them. *)

From S2P Require Import Prelude Keys Redis RedisFacts Types Keyspace Json Exchange Bindings Routing Admin.
#[local] Open Scope Z_scope.

(** The sentinels of pkg/namespace, and the failures they wrap. *)
Inductive ns_error :=
| NsNameRequired | NsInvalidName | NsNotFound
| NsRedis (e : rerr) | NsLookup (e : exchange_error)
| NsDeleteQueue (name : string) (e : queue_error) | NsDeleteExchange (name : string) (e : exchange_error).

(** An error value of any of the three packages, as [errors.Is] sees it. *)
Inductive any_error := OfNamespace (e : ns_error) | OfQueue (e : queue_error) | OfExchange (e : exchange_error).
Definition Is_ErrNotFound (e : any_error) : bool :=
  match e with OfNamespace NsNotFound => true | _ => false end.

Definition validate_ns (name : string) : ns_error + string :=
  if decide (name = "") then inl NsNameRequired
  else match ValidateKey name with None => inl NsInvalidName | Some validName => inr validName end.

Definition ns_List : store → exchange_error + list string := NamespacesList.

Definition ns_Exists (name : string) (s : store) : ns_error + bool :=
  match validate_ns name with
  | inl e => inl e
  | inr validName =>
      match (cmd_sismember AllNamespaces validName s).1 with
      | Err e => inl (NsRedis e)
      | Ret exists_ => inr exists_
      end
  end.

Definition of_lookup {A} (r : exchange_error + A) : ns_error + A :=
  match r with inl e => inl (NsLookup e) | inr x => inr x end.
Definition ns_ListQueues (name : string) (s : store) : ns_error + list QParams :=
  match validate_ns name with inl e => inl e | inr ns => of_lookup (QueuesByNamespace ns s) end.
Definition ns_ListExchanges (name : string) (s : store) : ns_error + list EParams :=
  match validate_ns name with inl e => inl e | inr ns => of_lookup (lookup_ByNamespace ns s) end.

(** The loop over the queues and the loop over the exchanges.  [others n] is
    what other clients do before the [n]-th request. *)
Fixpoint delete_queues (others : nat → store → store) (n : nat) (queues : list QParams) (s : store)
    : option ns_error * nat * store :=
  match queues with
  | [] => (None, n, s)
  | qp :: queues =>
      match DeleteQueue qp (others (S n)) (others n s) with
      | (inr _, s') => delete_queues others (S (S n)) queues s'
      | (inl e, s') =>
          if Is_ErrNotFound (OfQueue e) then delete_queues others (S (S n)) queues s'
          else (Some (NsDeleteQueue (q_name qp) e), S (S n), s')
      end
  end.
Fixpoint delete_exchanges (others : nat → store → store) (n : nat) (exchanges : list EParams) (s : store)
    : option ns_error * nat * store :=
  match exchanges with
  | [] => (None, n, s)
  | ep :: exchanges =>
      match Store_Delete ep (others (S n)) (others n s) with
      | (inr _, s') => delete_exchanges others (S (S n)) exchanges s'
      | (inl e, s') =>
          if Is_ErrNotFound (OfExchange e) then delete_exchanges others (S (S n)) exchanges s'
          else (Some (NsDeleteExchange (e_name ep) e), S (S n), s')
      end
  end.

Definition remove_namespace (name : string) : M unit := cmd_srem AllNamespaces name.

Definition ns_Delete (name : string) (others : nat → store → store) (s : store) : (ns_error + unit) * store :=
  match validate_ns name with
  | inl e => (inl e, s)
  | inr validName =>
      match ns_Exists validName s with
      | inl e => (inl e, s)
      | inr false => (inl NsNotFound, s)
      | inr true =>
          let s := others 0%nat s in
          match QueuesByNamespace validName s with
          | inl e => (inl (NsLookup e), s)
          | inr queues =>
              match delete_queues others 1 queues s with
              | (Some e, _, s) => (inl e, s)
              | (None, n, s) =>
                  let s := others n s in
                  match lookup_ByNamespace validName s with
                  | inl e => (inl (NsLookup e), s)
                  | inr exchanges =>
                      match delete_exchanges others (S n) exchanges s with
                      | (Some e, _, s) => (inl e, s)
                      | (None, n, s) =>
                          match remove_namespace validName (others n s) with
                          | (Ret _, s') => (inr tt, s')
                          | (Err e, s') => (inl (NsRedis e), s')
                          end
                      end
                  end
              end
          end
      end
  end.

(** Nobody else is at work. *)
Definition undisturbed : nat → store → store := λ _ s, s.

(** ** What deletions change *)

(** Whose a key is, from its rendered parts. *)
Definition own_queue (q : QParams) (k : redis_key) : Prop := take 4 (full_parts k) = ["ns"; q_ns q; "q"; q_name q].
Definition own_exchange (x : EParams) (k : redis_key) : Prop := take 4 (full_parts k) = ["ns"; e_ns x; "exs"; e_name x].
Definition in_namespace (ns : string) (k : redis_key) : Prop := take 2 (full_parts k) = ["ns"; ns].
Definition is_heartbeat (k : redis_key) : Prop := match k with KConsumerHeartbeat _ => True | _ => False end.

Definition queue_area (q : QParams) (k : redis_key) : Prop :=
  own_queue q k ∨ k = KAllQueues ∨ k = KNamespaceQueues (q_ns q) ∨ is_heartbeat k.
Definition exchange_area (x : EParams) (k : redis_key) : Prop :=
  own_exchange x k ∨ k = KAllExchanges ∨ k = KNamespaceExchanges (e_ns x).

(** The keys outside [area] keep their values. *)
Definition keeps (area : redis_key → Prop) (s s' : store) : Prop :=
  ∀ k, wf_key k → ¬ area k → db s' !! render_key k = db s !! render_key k.
(** Hashes disappear or stay, sets lose members. *)
Definition shrinks (s s' : store) : Prop :=
  ∀ k, (hsh s' k = ∅ ∨ hsh s' k = hsh s k) ∧ sts s' k ⊆ sts s k.

Lemma keeps_trans (A B : redis_key → Prop) s1 s2 s3 :
  keeps A s1 s2 → keeps B s2 s3 → keeps (λ k, A k ∨ B k) s1 s3.
Proof. intros H1 H2 k Hk Hn. rewrite H2, H1; [done|done|tauto|done|tauto]. Qed.
Lemma keeps_weaken (A B : redis_key → Prop) s s' : (∀ k, A k → B k) → keeps A s s' → keeps B s s'.
Proof. intros HAB H k Hk Hn. apply H; [done|]. intros Ha. by apply Hn, HAB. Qed.
#[export] Instance shrinks_preorder : PreOrder shrinks.
Proof.
  split; [intros s k; split; [by right|done]|].
  intros s1 s2 s3 H1 H2 k. destruct (H1 k) as [A1 B1], (H2 k) as [A2 B2].
  split; [destruct A2 as [->| ->]; [by left|done]|]. by etrans.
Qed.

(** What a queue's own structures name can be part of a key. *)
Definition fields_ok (s : store) (q : QParams) : Prop :=
  let K := queue_keys_of q in
  (∀ g, g ∈ sts s (ConsumerGroups K) → no_colon g = true) ∧
  (∀ p, is_Some (hsh s (ProcessingQueues K) !! p) → ∃ c, no_colon c = true ∧ p = ConsumerProcessing K c) ∧
  (∀ c, is_Some (hsh s (Consumers K) !! c) → no_colon c = true) ∧
  in_int64 (Z.of_nat (size (hsh s (Consumers K)))).

Lemma fields_ok_shrinks s s' q : shrinks s s' → fields_ok s q → fields_ok s' q.
Proof.
  intros H (H1 & H2 & H3 & H4). split_and!.
  - intros g Hg. apply H1. by apply (proj2 (H _)).
  - intros p Hp. apply H2. destruct (proj1 (H (ProcessingQueues (queue_keys_of q)))) as [E|E]; rewrite E in Hp; [|done].
    rewrite lookup_empty in Hp. by destruct Hp.
  - intros c Hc. apply H3. destruct (proj1 (H (Consumers (queue_keys_of q)))) as [E|E]; rewrite E in Hc; [|done].
    rewrite lookup_empty in Hc. by destruct Hc.
  - destruct (proj1 (H (Consumers (queue_keys_of q)))) as [E|E]; rewrite E; [|done]. by rewrite map_size_empty.
Qed.

Definition deleted_area (q : QParams) (k : redis_key) : Prop := own_queue q k ∨ is_heartbeat k.

(** The keys the deletion of a queue deletes are its own, and heartbeats. *)
Lemma deleted_keys_area q s reads :
  queue_ok q → fields_ok s q → wt s → read_queue q s = inr reads →
  Forall (λ k, ∃ rk, k = render_key rk ∧ wf_key rk ∧ deleted_area q rk) (deleted_keys q reads).
Proof.
  intros [Hq _] (Hg & Hp & Hc & _) Hw. rewrite (read_queue_run q s Hw Hq). intros [= <-].
  pose proof (wf_queue_ns _ Hq : no_colon (q_ns q) = true) as Hns.
  assert (∀ rk k, k = render_key rk → wf_key rk → deleted_area q rk → ∃ rk, k = render_key rk ∧ wf_key rk ∧ deleted_area q rk) as Hk by eauto.
  unfold deleted_keys, delete_keys. cbn [drop app].
  repeat apply Forall_cons_2; [| | |apply Forall_app; split].
  - apply (Hk (KProperties (queue_keys_of q))); [done|wf_parts|by left].
  - apply (Hk (KExchangeBindings (queue_keys_of q))); [done|wf_parts|by left].
  - apply (Hk (KConsumers (queue_keys_of q))); [done|wf_parts|by left].
  - cbn [consumerIDs]. apply Forall_fmap, Forall_fmap, Forall_forall. intros [c v] Hin%elem_of_map_to_list.
    assert (no_colon c = true) by (apply Hc; by eexists).
    apply (Hk (KConsumerHeartbeat c)); [done|wf_parts|by right].
  - apply Forall_forall. intros k [_ Hin]%list_elem_of_filter. apply elem_of_uniq in Hin as [Hin _].
    unfold keysToDelete in Hin. apply elem_of_app in Hin as [Hin|[Hin|Hin]%elem_of_app].
    + revert Hin. rewrite !elem_of_cons. intros Hin.
      repeat (destruct Hin as [->|Hin]; [let r := lazymatch goal with |- ∃ _, ?k = _ ∧ _ => reify_key k end in
        apply (Hk r); [done|wf_parts|by left]|]). by apply not_elem_of_nil in Hin.
    + cbn [consumerGroups] in Hin. apply list_elem_of_bind in Hin as (g & Hin & Hgs%elem_of_elements).
      assert (no_colon g = true) by by apply Hg.
      rewrite !elem_of_cons in Hin. destruct Hin as [->|[->|Hin]]; [| |by apply not_elem_of_nil in Hin].
      * apply (Hk (KPendingWithGroup (queue_keys_of q) g)); [done|wf_parts|by left].
      * apply (Hk (KPriorityWithGroup (queue_keys_of q) g)); [done|wf_parts|by left].
    + cbn [processingQueues] in Hin. apply list_elem_of_fmap in Hin as ([p v] & -> & Hin%elem_of_map_to_list).
      destruct (Hp p) as (c & Hcc & ->); [by eexists|].
      apply (Hk (KConsumerProcessing (queue_keys_of q) c)); [done|wf_parts|by left].
Qed.

Lemma wt_removes ks : ∀ s, wt s → wt (foldl (λ s k, remove_key k s) s ks).
Proof. intros s Hw k Hk. rewrite del_lookup. case_decide; [apply has_type_None|by apply Hw]. Qed.

Lemma shrinks_removes ks s : shrinks s (foldl (λ s k, remove_key k s) s ks).
Proof.
  intros k. unfold hsh, sts. rewrite !del_lookup. case_decide; [split; [by left|apply empty_subseteq]|]. split; [by right|done].
Qed.
Lemma shrinks_upd_set k x s : x ⊆ sts s k → shrinks s (upd k (set_val x) s).
Proof.
  intros Hx k'. destruct (decide (k = k')) as [<-|Hne]; [|rewrite hsh_upd_ne, sts_upd_ne by done; split; [by right|done]].
  rewrite sts_upd. split; [left|done]. unfold hsh. rewrite lookup_upd_eq. unfold set_val. by case_decide.
Qed.

(** ** One deletion *)

(** [e] is the failure, if any, of a deletion from [s] to [s'] that removes
    [member] from the set at [list]. *)
Definition deletes (area : redis_key → Prop) (list : redis_key) (member : string) (failed : bool) (s s' : store) : Prop :=
  wt s' ∧ shrinks s s' ∧ keeps area s s' ∧
  if failed then s' = s else sts s' (render_key list) = sts s (render_key list) ∖ {[member]}.

Lemma DeleteQueue_step q s r s' :
  queue_ok q → wt s → fields_ok s q → DeleteQueue q id s = (r, s') →
  deletes (queue_area q) (KNamespaceQueues (q_ns q)) (encode_queue q) (if r then true else false) s s' ∧
  (r = inr tt → hsh s (Properties (queue_keys_of q)) !! qkey Q_MessagesCount = Some "0" ∧
                db s' !! Properties (queue_keys_of q) = None).
Proof.
  intros Hok Hw Hf. pose proof Hok as [Hq _]. pose proof (wf_queue_ns _ Hq : no_colon (q_ns q) = true) as Hns.
  unfold DeleteQueue. destruct (read_queue q s) as [e|reads] eqn:Hr; [by rewrite read_queue_run in Hr|].
  pose proof (deleted_keys_area q s reads Hok Hf Hw Hr) as Harea. rewrite Forall_forall in Harea.
  rewrite read_queue_run in Hr by done. injection Hr as Hr. unfold eval, id.
  destruct (delete_run q reads s Hw Hq) as (reply & s2 & -> & [(-> & -> & Hd)|(Hne & -> & e & He)]).
  { rewrite <-Hr. cbn [consumerIDs]. rewrite length_fmap, length_map_to_list. apply Hf. }
  2: { rewrite He. intros [= <- <-]. split; [|done]. by split_and!. }
  change (delete_result "OK") with (inr tt : queue_error + unit). intros [= <- <-].
  unfold delete_effect. cbv zeta. set (s2 := put_set (NamespaceQueues _) _ _).
  assert (wt s2) as Hw2 by (unfold s2, put_set; wt_solve).
  split; [split_and!|].
  - by apply wt_removes.
  - etrans; [|apply shrinks_removes]. unfold s2, put_set. etrans; [|apply shrinks_upd_set, subseteq_difference_l; done].
    apply shrinks_upd_set, subseteq_difference_l. done.
  - intros k Hk Hn. assert (render_key k ∉ deleted_keys q reads) as Hin.
    { intros Hin. destruct (Harea _ Hin) as (rk & E & Hwf & Ha). apply render_key_inj in E; [|done..]. subst. apply Hn.
      destruct Ha; [by left|by right; right; right]. }
    rewrite del_lookup, decide_False by done. unfold s2, put_set.
    rewrite !lookup_upd_ne; [done| |]; intros E.
    + apply Hn. right. left. apply (render_key_inj k KAllQueues); [done|wf_parts|done].
    + apply Hn. right. right. left. apply (render_key_inj k (KNamespaceQueues (q_ns q))); [done|wf_parts|done].
  - cbn [render_key]. unfold sts at 1. rewrite del_lookup, decide_False.
    + fold (sts s2 (NamespaceQueues (q_ns q))). unfold s2, put_set. by views.
    + intros Hin. destruct (Harea _ Hin) as (rk & E & Hwf & Ha).
      apply (render_key_inj (KNamespaceQueues (q_ns q)) rk) in E; [|wf_parts|done]. subst. by destruct Ha.
  - intros _. destruct Hd as (H1 & _). split; [done|]. rewrite del_lookup, decide_True; [done|].
    apply elem_of_deleted. left. unfold keysToDelete. apply elem_of_app. left. apply list_elem_of_here.
Qed.

Lemma shrinks_cmd c s s' :
  wt s → cmd_ok c → match c with SRem _ _ | SDel _ => True | _ => False end →
  srun c s = (Ret tt, s') → shrinks s s'.
Proof.
  intros Hw [Hk Ht]. destruct c as [k v|k v|k kvs|k]; cbn [srun skey] in *; [done| |done|].
  - intros _. rewrite srem_run by by apply (wt_set s Hw). intros [= <-]. apply shrinks_upd_set, subseteq_difference_l. done.
  - intros _ [= <-]. apply (shrinks_removes [render_key k]).
Qed.

Lemma shrinks_exec l : ∀ s,
  wt s → Forall cmd_ok l → Forall (λ c, match c with SRem _ _ | SDel _ => True | _ => False end) l →
  shrinks s (exec_all (srun <$> l) s).2.
Proof.
  induction l as [|c l IH]; intros s Hw Hl Hd; [done|].
  apply Forall_cons in Hl as [Hc Hl]. apply Forall_cons in Hd as [Hd1 Hd].
  destruct (srun_run c s Hw Hc) as (s1 & Hr & Hw1 & _). rewrite fmap_cons. cbn [exec_all]. rewrite Hr.
  etrans; [by eapply shrinks_cmd|by apply IH].
Qed.

(** The pipeline of [Store.Delete]. *)
Definition delete_cmds (x : EParams) : list scmd :=
  let key := exchange_keys_of x in
  [SDel (KExchange key); SDel (KExchangeProperties key); SRem KAllExchanges (encode_exchange x);
   SRem (KNamespaceExchanges (e_ns x)) (encode_exchange x)] ++
  (if decide (e_typ x = TypeDirect) then [SDel (KRoutingKeys key)]
   else if decide (e_typ x = TypeTopic) then [SDel (KBindingPatterns key)]
   else if decide (e_typ x = TypeFanout) then [SDel (KFanoutQueues key)] else []).

Lemma delete_cmds_ok x : exchange_ok x →
  Forall cmd_ok (delete_cmds x) ∧ Forall (λ c, match c with SRem _ _ | SDel _ => True | _ => False end) (delete_cmds x) ∧
  Forall (λ c, exchange_area x (skey c)) (delete_cmds x).
Proof.
  intros ([H1 H2] & _). cbn in H1, H2.
  assert (no_colon (e_ns x) = true ∧ no_colon (e_name x) = true) as [Hn Hm] by done.
  split_and!; unfold delete_cmds; apply Forall_app; split.
  - repeat apply Forall_cons_2; [..|apply Forall_nil_2]; (split; [cbn [skey]; wf_parts|done]).
  - repeat case_decide; repeat apply Forall_cons_2; try apply Forall_nil_2; (split; [cbn [skey]; wf_parts|done]).
  - repeat constructor.
  - repeat case_decide; repeat constructor.
  - repeat apply Forall_cons_2; [by left|by left|right; by left|right; by right|apply Forall_nil_2].
  - repeat case_decide; repeat apply Forall_cons_2; try apply Forall_nil_2; by left.
Qed.

Lemma Store_Delete_step x s r s' :
  exchange_ok x → wt s → Store_Delete x id s = (r, s') →
  deletes (exchange_area x) (KNamespaceExchanges (e_ns x)) (encode_exchange x) (if r then true else false) s s'.
Proof.
  intros Hx Hw. destruct (delete_cmds_ok x Hx) as (H1 & H2 & H3). unfold Store_Delete. cbv zeta.
  assert (∀ e, deletes (exchange_area x) (KNamespaceExchanges (e_ns x)) (encode_exchange x) (if inl e : exchange_error + unit then true else false) s s)
    as Hno by by intros e; split_and!.
  destruct (negb (Exists x s)); [intros [= <- <-]; apply (Hno XNotFound)|].
  destruct (has_bound x s) as [[[]|e] s0]; [intros [= <- <-]; apply (Hno XHasBoundQueues)| |intros [= <- <-]; apply (Hno (XRedis e))].
  assert (delete_pipe x = srun <$> delete_cmds x) as ->.
  { unfold delete_pipe, delete_cmds. rewrite fmap_app. f_equal. by repeat case_decide. }
  unfold id. destruct (exec_sets (delete_cmds x) s Hw H1) as (s1 & Hr & Hw1 & Hs).
  pose proof (shrinks_exec (delete_cmds x) s Hw H1 H2) as Hsh. pose proof (exec_frame (delete_cmds x)) as Hfr.
  rewrite Hr in Hsh. cbn [snd] in Hsh. rewrite Hr. intros [= <- <-]. split_and!; [done|done| |].
  - intros k Hk Hn. specialize (Hfr (render_key k) s). rewrite Hr in Hfr. apply Hfr.
    intros (c & E & Hc)%list_elem_of_fmap. cbn in E. rewrite Forall_forall in H1, H3.
    apply render_key_inj in E; [|done|by apply H1]. subst k. by apply Hn, H3.
  - destruct Hx as ([Hn _] & _). cbn in Hn. rewrite Hs by (done || wf_parts). unfold delete_cmds. rewrite foldl_app. cbn [foldl].
    rewrite supd_other; [|repeat case_decide; repeat (apply Forall_cons_2; [discriminate|]); apply Forall_nil_2].
    unfold supd. cbn [skey]. rewrite (decide_False (P := KExchange _ = _)), (decide_False (P := KExchangeProperties _ = _)), (decide_False (P := KAllExchanges = _)) by done. by rewrite decide_True.
Qed.

(** ** The loops *)

Lemma own_queue_apart q q' k : q ≠ q' → own_queue q k → ¬ queue_area q' k.
Proof.
  unfold queue_area, own_queue. intros Hne Hq [H|[->|[->|H]]]; [|discriminate Hq..|by destruct k].
  rewrite Hq in H. injection H as E1 E2. apply Hne. destruct q, q'; cbn in *. congruence.
Qed.

(** A queue that still has messages, or whose count is not a number. *)
Definition holds_messages (s : store) (q : QParams) : Prop :=
  hsh s (Properties (queue_keys_of q)) !! qkey Q_MessagesCount ≠ Some "0".

(** The loop over [queues] from [s] to [s'], [failed] or not. *)
Record queues_deleted (queues : list QParams) (failed : bool) (s s' : store) : Prop := {
  qd_wt : wt s';
  qd_shrinks : shrinks s s';
  qd_keeps : keeps (λ k, ∃ q, q ∈ queues ∧ queue_area q k) s s';
  qd_holds : ∀ q, q ∈ queues → holds_messages s q → failed = true ∧ ∀ k, wf_key k → own_queue q k → db s' !! render_key k = db s !! render_key k;
  qd_done : failed = false → ∀ q, q ∈ queues → db s' !! Properties (queue_keys_of q) = None;
  qd_listed ns : failed = false → no_colon ns = true → Forall (λ q, q_ns q = ns) queues →
    sts s' (NamespaceQueues ns) = sts s (NamespaceQueues ns) ∖ list_to_set (encode_queue <$> queues)
}.

Lemma delete_queues_run queues : ∀ n s e n' s',
  wt s → Forall (λ q, queue_ok q ∧ fields_ok s q) queues → NoDup queues →
  delete_queues undisturbed n queues s = (e, n', s') →
  queues_deleted queues (if e then true else false) s s'.
Proof.
  induction queues as [|q queues IH]; intros n s e n' s' Hw Hok Hnd.
  { intros [= <- <- <-]. split; [done|done|done|by intros q ?%not_elem_of_nil|by intros _ q ?%not_elem_of_nil|].
    intros ns _ _ _. rewrite fmap_nil. cbn [list_to_set]. set_solver. }
  apply Forall_cons in Hok as [[Hq Hf] Hok]. apply NoDup_cons in Hnd as [Hnin Hnd].
  cbn [delete_queues]. unfold undisturbed at 1 2. change (λ s0 : store, s0) with (@id store).
  destruct (DeleteQueue q id s) as [r s1] eqn:E.
  destruct (DeleteQueue_step q s r s1 Hq Hw Hf E) as [(Hw1 & Hs1 & Hk1 & Hr) Hdel]. destruct r as [er|[]].
  - cbn [Is_ErrNotFound]. intros [= <- <- <-]. subst s1. by split.
  - intros Hrun. destruct (Hdel eq_refl) as [H0 Hgone].
    assert (Forall (λ q, queue_ok q ∧ fields_ok s1 q) queues) as Hok1.
    { eapply Forall_impl; [exact Hok|]. intros q' [? ?]. split; [done|]. by eapply fields_ok_shrinks. }
    pose proof (IH _ _ _ _ _ Hw1 Hok1 Hnd Hrun) as [D1 D2 D3 D4 D5 D6].
    assert (wf_queue (queue_keys_of q)) as Hwf by apply Hq.
    split; [done|by etrans| | | |].
    + eapply keeps_weaken; [|exact (keeps_trans _ _ _ _ _ Hk1 D3)]. intros k [Ha|(q' & Hin & Ha)].
      * exists q. split; [apply list_elem_of_here|done].
      * exists q'. split; [by apply list_elem_of_further|done].
    + intros q' [->|Hin]%elem_of_cons Hh; [by destruct Hh|].
      assert (q' ≠ q) as Hne by by intros ->.
      assert (∀ k, wf_key k → own_queue q' k → db s1 !! render_key k = db s !! render_key k) as Hsame.
      { intros k Hk Ho. apply Hk1; [done|]. by eapply own_queue_apart. }
      assert (wf_queue (queue_keys_of q')) as Hwf'.
      { rewrite Forall_forall in Hok1. by destruct (Hok1 q' Hin) as [[? _] _]. }
      destruct (D4 q' Hin) as [Hfail Hkeep].
      { assert (db s1 !! Properties (queue_keys_of q') = db s !! Properties (queue_keys_of q')) as Hp
          by (apply (Hsame (KProperties (queue_keys_of q'))); [wf_parts|done]).
        unfold holds_messages, hsh in *. by rewrite Hp. }
      split; [done|]. intros k Hk Ho. rewrite Hkeep by done. by apply Hsame.
    + intros Hfail q' [->|Hin]%elem_of_cons; [|by apply D5].
      destruct (decide (q ∈ queues)); [by apply D5|].
      rewrite <-Hgone. apply (D3 (KProperties (queue_keys_of q))); [wf_parts|]. intros (q2 & Hin & Ha). revert Ha.
      apply (own_queue_apart q q2); [by intros ->|done].
    + intros ns Hfail Hns Hall. apply Forall_cons in Hall as [<- Hall]. rewrite D6 by done.
      cbn [render_key] in Hr. rewrite Hr, fmap_cons. cbn [list_to_set]. set_solver.
Qed.

(** The same for exchanges, of which only the listing matters here. *)
Lemma delete_exchanges_run ns exchanges : ∀ n s e n' s',
  wt s → no_colon ns = true → Forall (λ x, exchange_ok x ∧ e_ns x = ns) exchanges →
  delete_exchanges undisturbed n exchanges s = (e, n', s') →
  wt s' ∧ keeps (λ k, ∃ x, x ∈ exchanges ∧ exchange_area x k) s s' ∧
  (e = None → sts s' (NamespaceExchanges ns) = sts s (NamespaceExchanges ns) ∖ list_to_set (encode_exchange <$> exchanges)).
Proof.
  induction exchanges as [|x exchanges IH]; intros n s e n' s' Hw Hns Hok.
  { intros [= <- <- <-]. split; [done|]. split; [done|]. intros _. rewrite fmap_nil. cbn [list_to_set]. set_solver. }
  apply Forall_cons in Hok as [[Hx Hxns] Hok].
  cbn [delete_exchanges]. unfold undisturbed at 1 2. change (λ s0 : store, s0) with (@id store).
  destruct (Store_Delete x id s) as [r s1] eqn:E.
  destruct (Store_Delete_step x s r s1 Hx Hw E) as (Hw1 & Hs1 & Hk1 & Hr). destruct r as [er|[]].
  - cbn [Is_ErrNotFound]. intros [= <- <- <-]. subst s1. split; [done|]. done.
  - intros Hrun. destruct (IH _ _ _ _ _ Hw1 Hns Hok Hrun) as (D1 & D2 & D3). split; [done|]. split.
    + eapply keeps_weaken; [|exact (keeps_trans _ _ _ _ _ Hk1 D2)]. intros k [Ha|(q' & Hin & Ha)].
      * exists x. split; [apply list_elem_of_here|done].
      * exists q'. split; [by apply list_elem_of_further|done].
    + intros He. rewrite D3 by done. rewrite Hxns in Hr. cbn [render_key] in Hr. rewrite Hr, fmap_cons. cbn [list_to_set]. set_solver.
Qed.

(** ** Deleting a namespace *)

(** What the stores list for a namespace: encodings of queues and exchanges of
    it, with well-formed structures. *)
Definition registry_ok (ns : string) (s : store) : Prop :=
  (∀ m, m ∈ sts s (NamespaceQueues ns) → ∃ q, m = encode_queue q ∧ queue_ok q ∧ q_ns q = ns ∧ fields_ok s q) ∧
  (∀ m, m ∈ sts s (NamespaceExchanges ns) → ∃ x, m = encode_exchange x ∧ exchange_ok x ∧ e_ns x = ns ∧ in_int64 (e_typ x)).

(** Listing decodes exactly the members. *)
Section listing.
Context {A : Type} (enc : A → string) (dec : string → option A) (P : A → Prop).
Context (Hdec : ∀ a, P a → dec (enc a) = Some a).

Lemma decode_members l :
  Forall (λ m, ∃ a, m = enc a ∧ P a) l → ∃ as_, omap dec l = as_ ∧ l = enc <$> as_ ∧ Forall P as_.
Proof using Hdec.
  induction l as [|m l IH]; intros H; [by exists []|]. apply Forall_cons in H as [(a & -> & Ha) H].
  destruct (IH H) as (as_ & E & -> & Hall). exists (a :: as_). cbn [omap list_omap]. rewrite Hdec, E by done.
  split; [done|]. split; [done|]. by apply Forall_cons.
Qed.
End listing.

Lemma members_listed k s : is_set s k → members k s = inr (elements (sts s k)).
Proof. intros H. unfold members. by rewrite smembers_run. Qed.

Lemma list_queues_run ns s :
  wt s → no_colon ns = true → registry_ok ns s →
  ∃ queues, QueuesByNamespace ns s = inr queues ∧ NoDup queues ∧
    list_to_set (encode_queue <$> queues) = sts s (NamespaceQueues ns) ∧ Forall (λ q, queue_ok q ∧ q_ns q = ns ∧ fields_ok s q) queues.
Proof.
  intros Hw Hns [Hr _]. unfold QueuesByNamespace, list_queues. rewrite members_listed by wt_view.
  destruct (decode_members encode_queue decode_queue (λ q, queue_ok q ∧ q_ns q = ns ∧ fields_ok s q)) with (l := elements (sts s (NamespaceQueues ns)))
    as (queues & E & El & Hall).
  - intros q ((_ & ? & ?) & _). by apply decode_encode_queue.
  - apply Forall_forall. intros m Hm%elem_of_elements. destruct (Hr m Hm) as (q & -> & ? & ? & ?). by exists q.
  - exists queues. rewrite E. split; [done|]. split; [|split; [|done]].
    + apply (NoDup_fmap_1 encode_queue). rewrite <-El. apply NoDup_elements.
    + rewrite <-El. apply list_to_set_elements_L.
Qed.

Lemma list_exchanges_run ns s :
  wt s → no_colon ns = true → registry_ok ns s →
  ∃ exchanges, lookup_ByNamespace ns s = inr exchanges ∧
    list_to_set (encode_exchange <$> exchanges) = sts s (NamespaceExchanges ns) ∧ Forall (λ x, exchange_ok x ∧ e_ns x = ns) exchanges.
Proof.
  intros Hw Hns [_ Hr]. unfold lookup_ByNamespace, list_exchanges. rewrite members_listed by wt_view.
  destruct (decode_members encode_exchange decode_exchange (λ x, exchange_ok x ∧ e_ns x = ns ∧ in_int64 (e_typ x))) with (l := elements (sts s (NamespaceExchanges ns)))
    as (exchanges & E & El & Hall).
  - intros q ((_ & ? & ?) & _ & ?). by apply decode_encode_exchange.
  - apply Forall_forall. intros m Hm%elem_of_elements. destruct (Hr m Hm) as (q & -> & ? & ? & ?). by exists q.
  - exists exchanges. rewrite E. split; [done|]. split; [rewrite <-El; apply list_to_set_elements_L|].
    eapply Forall_impl; [exact Hall|]. intros x (? & ? & ?). done.
Qed.

(** The keys a deletion may change. *)
Definition namespace_area (ns : string) (k : redis_key) : Prop :=
  in_namespace ns k ∨ k = KAllQueues ∨ k = KAllExchanges ∨ k = KAllNamespaces ∨ is_heartbeat k.

(** The deletion of [ns] from [s] to [s']. *)
Record namespace_deleted (ns : string) (r : ns_error + unit) (s s' : store) : Prop := {
  nd_keeps : keeps (namespace_area ns) s s';
  nd_holds : ∀ q, encode_queue q ∈ sts s (NamespaceQueues ns) → queue_ok q → holds_messages s q →
    r ≠ inr tt ∧ ∀ k, wf_key k → own_queue q k → db s' !! render_key k = db s !! render_key k;
  nd_result : match r with
    | inl _ => sts s' AllNamespaces = sts s AllNamespaces
    | inr _ => ns ∈ sts s AllNamespaces ∧ sts s' AllNamespaces = sts s AllNamespaces ∖ {[ns]} ∧
               sts s' (NamespaceQueues ns) = ∅ ∧ sts s' (NamespaceExchanges ns) = ∅ ∧
               ∀ q, encode_queue q ∈ sts s (NamespaceQueues ns) → queue_ok q → db s' !! Properties (queue_keys_of q) = None
    end
}.

Lemma registry_shrinks ns s s' : shrinks s s' → registry_ok ns s → registry_ok ns s'.
Proof.
  intros Hs [H1 H2]. split; intros m Hm.
  - destruct (H1 m) as (q & -> & ? & ? & ?); [by apply (proj2 (Hs _))|]. exists q. eauto using fields_ok_shrinks.
  - apply H2. by apply (proj2 (Hs _)).
Qed.

Lemma keeps_sts area s s' k : keeps area s s' → wf_key k → ¬ area k → sts s' (render_key k) = sts s (render_key k).
Proof. intros H Hk Ha. unfold sts. by rewrite H. Qed.

Lemma queue_area_namespace q k : queue_area q k → namespace_area (q_ns q) k.
Proof.
  intros [H|[->|[->|H]]]; [left|right; by left|by left|by do 4 right].
  unfold own_queue, in_namespace in *. apply (f_equal (take 2)) in H. by rewrite take_take in H.
Qed.
Lemma exchange_area_namespace x k : exchange_area x k → namespace_area (e_ns x) k.
Proof.
  intros [H|[->| ->]]; [left|do 2 right; by left|by left].
  unfold own_exchange, in_namespace in *. apply (f_equal (take 2)) in H. by rewrite take_take in H.
Qed.

Lemma exchange_not_queue x q k : own_queue q k → ¬ exchange_area x k.
Proof. unfold exchange_area, own_queue, own_exchange. intros Hq [H|[->| ->]]; [rewrite Hq in H|..]; discriminate. Qed.

Section deletion.
Context (ns : string) (s : store).
Context (Hw : wt s) (Hns : no_colon ns = true) (Hreg : registry_ok ns s).

Lemma queues_phase e n s1 queues :
  QueuesByNamespace ns s = inr queues → delete_queues undisturbed 1 queues s = (e, n, s1) →
  wt s1 ∧ shrinks s s1 ∧ keeps (λ k, ∃ q, q_ns q = ns ∧ queue_area q k) s s1 ∧
  (∀ q, encode_queue q ∈ sts s (NamespaceQueues ns) → holds_messages s q →
    e ≠ None ∧ ∀ k, wf_key k → own_queue q k → db s1 !! render_key k = db s !! render_key k) ∧
  (e = None → sts s1 (NamespaceQueues ns) = ∅ ∧
    ∀ q, encode_queue q ∈ sts s (NamespaceQueues ns) → db s1 !! Properties (queue_keys_of q) = None).
Proof using All.
  destruct (list_queues_run ns s Hw Hns Hreg) as (queues' & -> & Hnd & Hset & Hall). intros [= <-] Hrun.
  assert (∀ q, encode_queue q ∈ sts s (NamespaceQueues ns) → q ∈ queues') as Hin.
  { intros q. rewrite <-Hset, elem_of_list_to_set. intros (q' & E & Hq')%list_elem_of_fmap. apply (inj encode_queue) in E. by subst. }
  destruct (delete_queues_run queues' 1 s e n s1 Hw) as [D1 D2 D3 D4 D5 D6]; [|done|done|].
  { eapply Forall_impl; [exact Hall|]. naive_solver. }
  split_and!; [done|done| | |].
  - eapply keeps_weaken; [|exact D3]. intros k (q & Hq & Ha). exists q. split; [|done].
    rewrite Forall_forall in Hall. by destruct (Hall q Hq) as (_ & ? & _).
  - intros q Hq Hh. destruct (D4 q (Hin q Hq) Hh) as [Hf Hk]. split; [by destruct e|done].
  - intros ->. split; [|intros q Hq; by apply D5, Hin].
    rewrite (D6 ns) by (done || (eapply Forall_impl; [exact Hall|naive_solver])). rewrite Hset. set_solver.
Qed.

Lemma exchanges_phase e n m s1 s2 exchanges :
  wt s1 → shrinks s s1 → lookup_ByNamespace ns s1 = inr exchanges → delete_exchanges undisturbed n exchanges s1 = (e, m, s2) →
  wt s2 ∧ keeps (λ k, ∃ x, e_ns x = ns ∧ exchange_area x k) s1 s2 ∧ (e = None → sts s2 (NamespaceExchanges ns) = ∅).
Proof using Hns Hreg.
  clear Hw. intros Hw1 Hs1. destruct (list_exchanges_run ns s1 Hw1 Hns (registry_shrinks _ _ _ Hs1 Hreg)) as (xs & -> & Hset & Hall).
  intros [= <-] Hrun. destruct (delete_exchanges_run ns xs _ _ _ _ _ Hw1 Hns Hall Hrun) as (D1 & D2 & D3). split_and!; [done| |].
  - eapply keeps_weaken; [|exact D2]. intros k (x & Hx & Ha). exists x. split; [|done].
    rewrite Forall_forall in Hall. by destruct (Hall x Hx).
  - intros He. rewrite D3, Hset by done. set_solver.
Qed.

End deletion.

(** The two loops leave the registry of namespaces undisturbed. *)
Lemma namespaces_apart ns k : (∃ q, q_ns q = ns ∧ queue_area q k) ∨ (∃ x, e_ns x = ns ∧ exchange_area x k) → k ≠ KAllNamespaces.
Proof.
  intros [(q & _ & [H|[->|[->|H]]])|(x & _ & [H|[->| ->]])]; try done; intros ->; done.
Qed.
Lemma loops_area ns k : (∃ q, q_ns q = ns ∧ queue_area q k) ∨ (∃ x, e_ns x = ns ∧ exchange_area x k) → namespace_area ns k.
Proof.
  intros [(q & <- & H)|(x & <- & H)]; [by apply queue_area_namespace|by apply exchange_area_namespace].
Qed.

Lemma validated name ns : validate_ns name = inr ns → no_colon ns = true ∧ validate_ns ns = inr ns.
Proof.
  unfold validate_ns. case_decide; [done|]. destruct (ValidateKey name) as [v|] eqn:E; [|done]. intros [= <-].
  split; [by eapply ValidateKey_no_colon|]. apply ValidateKey_inv in E as (c & r & -> & Hl & Hr).
  by rewrite decide_False, ValidateKey_complete by done.
Qed.

(** C29: deleting a namespace, nobody else being at work.  Only keys of the
    namespace, the global lists and heartbeats change.  A namespace one of whose
    queues holds messages is not deleted, and no key of that queue changes.  On
    failure the namespace stays registered; on success it was registered, is
    not any more, and lists neither queue nor exchange, and the properties of its
    queues are gone. *)
Theorem namespace_deletion name ns s r s' :
  wt s → validate_ns name = inr ns → registry_ok ns s → ns_Delete name undisturbed s = (r, s') →
  namespace_deleted ns r s s'.
Proof.
  intros Hw Hv Hreg. unfold ns_Delete. rewrite Hv.
  destruct (validated name ns Hv) as [Hns Hv2]. unfold ns_Exists. rewrite Hv2, sismember_run by wt_view. cbn [fst].
  case_bool_decide as Hin; [|intros [= <- <-]; by split].
  cbv zeta. change (undisturbed 0%nat s) with s. destruct (list_queues_run ns s Hw Hns Hreg) as (queues & Hq & _). rewrite Hq. 
  destruct (delete_queues undisturbed 1 queues s) as [[e n] s1] eqn:E1.
  destruct (queues_phase ns s Hw Hns Hreg e n s1 queues Hq E1) as (Hw1 & Hs1 & Hk1 & Hh1 & Hd1).
  assert (keeps (namespace_area ns) s s1) as Hka.
  { eapply keeps_weaken; [|exact Hk1]. intros k Hk. apply loops_area. by left. }
  assert (sts s1 AllNamespaces = sts s AllNamespaces) as Hall1.
  { apply (keeps_sts _ s s1 KAllNamespaces Hk1); [wf_parts|]. intros Hk. by apply (namespaces_apart ns KAllNamespaces); [left|]. }
  destruct e as [e|].
  { intros [= <- <-]. split; [done| |done]. intros q Hq1 _ Hq2. split; [done|]. by apply (Hh1 q Hq1 Hq2). }
  destruct (Hd1 eq_refl) as [Hempty Hgone]. cbv zeta. change (undisturbed n s1) with s1.
  destruct (list_exchanges_run ns s1 Hw1 Hns (registry_shrinks _ _ _ Hs1 Hreg)) as (xs & Hx & _). rewrite Hx.
  destruct (delete_exchanges undisturbed (S n) xs s1) as [[e m] s2] eqn:E2.
  destruct (exchanges_phase ns s Hns Hreg e (S n) m s1 s2 xs Hw1 Hs1 Hx E2) as (Hw2 & Hk2 & Hd2).
  pose proof (keeps_trans _ _ _ _ _ Hk1 Hk2) as Hk12.
  assert (keeps (namespace_area ns) s s2) as Hkb by (eapply keeps_weaken; [|exact Hk12]; apply loops_area).
  assert (sts s2 AllNamespaces = sts s AllNamespaces) as Hall2.
  { apply (keeps_sts _ s s2 KAllNamespaces Hk12); [wf_parts|]. intros Hk. by apply (namespaces_apart ns KAllNamespaces). }
  assert (∀ q, encode_queue q ∈ sts s (NamespaceQueues ns) → queue_ok q → holds_messages s q → False) as Hnone.
  { intros q Hq1 _ Hq2. by destruct (Hh1 q Hq1 Hq2). }
  destruct e as [e|].
  { intros [= <- <-]. split; [done| |done]. intros q Hq1 Hok Hq2. by destruct (Hnone q). }
  change (undisturbed m s2) with s2. unfold remove_namespace. rewrite srem_run by wt_view. intros [= <- <-]. split.
  - intros k Hk Ha. rewrite lookup_upd_ne; [by apply Hkb|]. intros E. apply Ha. do 3 right. left.
    symmetry. apply (render_key_inj KAllNamespaces k); [wf_parts|done|done].
  - intros q Hq1 Hok Hq2. by destruct (Hnone q).
  - split; [done|]. rewrite sts_upd, Hall2. split; [done|]. rewrite !sts_upd_ne by key_ne. split; [|split; [by apply Hd2|]].
    + rewrite <-Hempty. apply (keeps_sts _ s1 s2 (KNamespaceQueues ns) Hk2); [wf_parts|].
      intros (x & _ & [H|[H|H]]); discriminate H.
    + intros q Hq1 Hok. destruct Hok as [Hwq _]. rewrite lookup_upd_ne by key_ne. rewrite <-(Hgone q Hq1).
      apply (Hk2 (KProperties (queue_keys_of q))); [wf_parts|]. intros (x & _ & Ha). by apply (exchange_not_queue x q (KProperties (queue_keys_of q))).
Qed.

(** A namespace with one queue and one exchange. *)
Definition one_of_each : store :=
  put_hash (ExchangeProperties (exchange_keys_of shop)) {["0" := itoa TypeDirect]}
    (put_set AllExchanges {[encode_exchange shop]}
      (put_set (NamespaceExchanges "ns1") {[encode_exchange shop]} plain_orders)).

Lemma one_of_each_registry : wt one_of_each ∧ registry_ok "ns1" one_of_each.
Proof.
  split.
  { unfold one_of_each, put_hash, put_set. pose proof plain_orders_wt. destruct sample_ok as (_ & _ & [Hx _]). wt_solve. }
  assert (sts one_of_each (NamespaceQueues "ns1") = {[encode_queue orders]} ∧
          sts one_of_each (NamespaceExchanges "ns1") = {[encode_exchange shop]} ∧
          sts one_of_each (ConsumerGroups (queue_keys_of orders)) = ∅ ∧
          hsh one_of_each (ProcessingQueues (queue_keys_of orders)) = ∅ ∧
          hsh one_of_each (Consumers (queue_keys_of orders)) = ∅) as (E1 & E2 & E3 & E4 & E5) by (split_and!; vm_compute; reflexivity).
  split; intros m; rewrite ?E1, ?E2; intros ->%elem_of_singleton.
  - exists orders. split; [reflexivity|]. split; [apply sample_ok|]. split; [reflexivity|].
    unfold fields_ok. cbv zeta. rewrite E3, E4, E5. split_and!.
    + intros g []%elem_of_empty.
    + intros p [? Hp]. rewrite lookup_empty in Hp. discriminate.
    + intros p [? Hp]. rewrite lookup_empty in Hp. discriminate.
    + split; vm_compute; discriminate.
  - exists shop. split; [reflexivity|]. split; [apply sample_ok|]. split; [reflexivity|]. split; vm_compute; discriminate.
Qed.

Lemma namespace_deletion_witness :
  ∃ s', ns_Delete "NS1" undisturbed one_of_each = (inr tt, s') ∧ sts s' AllNamespaces = sts one_of_each AllNamespaces ∖ {["ns1"]} ∧
    db s' !! Properties (queue_keys_of orders) = None.
Proof.
  destruct (ns_Delete "NS1" undisturbed one_of_each) as [r s'] eqn:E.
  assert (r = inr tt) as -> by (apply (f_equal fst) in E; vm_compute in E; exact (eq_sym E)).
  exists s'. split; [reflexivity|]. destruct one_of_each_registry as [Hw Hreg].
  destruct (namespace_deletion "NS1" "ns1" one_of_each (inr tt) s' Hw eq_refl Hreg E) as [_ _ (_ & H1 & _ & _ & H2)].
  split; [exact H1|]. apply H2; [|apply sample_ok]. apply (bool_decide_unpack _). vm_compute. exact I.
Defined.

(** A queue that another client deletes after the listing makes the deletion of
    the namespace fail, although the queue is gone as wanted: the loop skips
    queues that are not found by comparing with the sentinel of another package. *)
Theorem namespace_deletion_races :
  let other := λ n s, if decide (n = 1%nat) then (DeleteQueue orders id s).2 else s in
  ∃ s', ns_Delete "ns1" other plain_orders = (inl (NsDeleteQueue "orders" QNotFound), s') ∧
    sts s' (NamespaceQueues "ns1") = ∅ ∧ ("ns1" ∈ sts s' AllNamespaces).
Proof.
  eexists. split; [vm_compute; reflexivity|]. split; [vm_compute; reflexivity|].
  apply (bool_decide_unpack _). vm_compute. exact I.
Qed.
