(* ===== verification/Runtime.v ===== *)
(** * The runtime of a process

    redissmq.go: starting and stopping RedisSMQ in a process, the producers and
    consumers it tracks, and the goroutines that wait for contexts to be
    cancelled; the life of producers (internal/producer/producer.go).  What
    consumers do is in Runner.v, the configuration in Configuration.v and the
    event buses in EventBus.v. *)

From S2P Require Import Prelude Keys Redis RedisFacts Types Keyspace Topic Json Message MessageCodec.
From S2P Require Import Publish Consume Accounts Accounting Delivery Lifecycle Batch Manage QueueState Purge Lock Exchange Bindings Routing Configuration Produce Admin Subscribe Reaper Handler Runner EventBus Events.
#[local] Open Scope Z_scope.

(** ** Producers *)

Record Producer := Prod { pr_id : string; pr_running : bool; pr_pubSubResolver : option Resolver }.

Definition New_producer (id : string) : Producer := Prod id false None.

(** An event goes out through the multiplexer; failures are only logged.  The
    events of producers and consumers need no system bus. *)
Definition emit (b : buses) (e : string * list json) : list (string * string) :=
  match PublishEvent e.1 e.2 b with Some (inr ms) => ms | _ => [] end.

Definition RunProducer (b : buses) (s : store) (p : Producer) : (exchange_error + unit) * list (string * string) * Producer :=
  if pr_running p then (inr tt, [], p)
  else
    let up := emit b (producer_PublishGoingUp (pr_id p)) in
    match LoadResolver s NewPubSubTargetResolver with
    | inl e => (inl e, up, Prod (pr_id p) false None)
    | inr r => (inr tt, up ++ emit b (producer_PublishUp (pr_id p)), Prod (pr_id p) true (Some r))
    end.

Definition ShutdownProducer (b : buses) (p : Producer) : list (string * string) * Producer :=
  if negb (pr_running p) then ([], p)
  else (emit b (producer_PublishGoingDown (pr_id p)) ++ emit b (producer_PublishDown (pr_id p)), Prod (pr_id p) false None).

(** ** The process *)

(** Contexts are numbers.  A goroutine waits for its context and then shuts
    something down: the runtime ([Init]), a producer or a consumer ([Run]); a
    consumer's context is its own, derived from the one it was run with. *)
Inductive goroutine :=
| OnInit (ctx : nat)
| OnProducer (ctx : nat) (id : string)
| OnConsumer (parent own : nat) (id : string).
#[export] Instance goroutine_eq_dec : EqDecision goroutine.
Proof. solve_decision. Defined.

Record process := Process {
  p_initialized : bool;
  p_client : bool;                                   (* the shared Redis client is set *)
  p_buses : buses;
  p_userBus : bool;                                  (* pkg/eventbus has the user bus *)
  p_config : Configuration.manager;
  p_purgeWorker : option nat;                        (* started, under this context *)
  p_producers : list string; p_consumers : list string;  (* instances *)
  p_prod : gmap string Producer;                     (* the objects *)
  p_cons : gmap string (Consumer * option nat);      (* with the context [cancel] cancels *)
  p_goroutines : list goroutine;
  p_cancelled : gset nat;                            (* contexts of the application *)
  p_stopped : gset nat;                              (* contexts of consumers *)
  p_next : nat                                       (* the next of these *)
}.

Definition new_process : process :=
  Process false false (Buses None None) false Configuration.NewManager None [] [] ∅ ∅ [] ∅ ∅ 0.

Definition set_objects (prod : gmap string Producer) (cons : gmap string (Consumer * option nat)) (p : process) : process :=
  Process (p_initialized p) (p_client p) (p_buses p) (p_userBus p) (p_config p) (p_purgeWorker p) (p_producers p) (p_consumers p)
    prod cons (p_goroutines p) (p_cancelled p) (p_stopped p) (p_next p).
Definition set_instances (producers consumers : list string) (p : process) : process :=
  Process (p_initialized p) (p_client p) (p_buses p) (p_userBus p) (p_config p) (p_purgeWorker p) producers consumers
    (p_prod p) (p_cons p) (p_goroutines p) (p_cancelled p) (p_stopped p) (p_next p).
Definition set_buses (b : buses) (user : bool) (p : process) : process :=
  Process (p_initialized p) (p_client p) b user (p_config p) (p_purgeWorker p) (p_producers p) (p_consumers p)
    (p_prod p) (p_cons p) (p_goroutines p) (p_cancelled p) (p_stopped p) (p_next p).
Definition set_goroutines (gs : list goroutine) (p : process) : process :=
  Process (p_initialized p) (p_client p) (p_buses p) (p_userBus p) (p_config p) (p_purgeWorker p) (p_producers p) (p_consumers p)
    (p_prod p) (p_cons p) gs (p_cancelled p) (p_stopped p) (p_next p).
Definition set_contexts (cancelled stopped : gset nat) (next : nat) (p : process) : process :=
  Process (p_initialized p) (p_client p) (p_buses p) (p_userBus p) (p_config p) (p_purgeWorker p) (p_producers p) (p_consumers p)
    (p_prod p) (p_cons p) (p_goroutines p) cancelled stopped next.

Inductive runtime_error := NotSingleNode | RedisInitFailed | ConfigInitFailed (e : config_error).

(** internal/redis/client.go: [Init] keeps a client that is set. *)
Definition redis_Init (reachable : bool) (p : process) : bool := p_client p || reachable.

(** [single]: the client is a single-node one; [reachable]: it answers and takes
    the scripts. *)
Definition InitRuntime (ctx : nat) (single reachable : bool) (uuid : string) (p : process) (s : store)
    : (runtime_error + unit) * (process * store) :=
  if negb single then (inl NotSingleNode, (p, s))
  else if p_initialized p then (inr tt, (p, s))
  else if negb (redis_Init reachable p) then (inl RedisInitFailed, (p, s))
  else
    let b := InitSystem (p_buses p) in
    match Configuration.Init uuid (read_config s) (p_config p) s with
    | (inl e, (m, s)) =>
        (inl (ConfigInitFailed e),
         (Process false true b (p_userBus p) m (p_purgeWorker p) (p_producers p) (p_consumers p)
            (p_prod p) (p_cons p) (p_goroutines p) (p_cancelled p) (p_stopped p) (p_next p), s))
    | (inr _, (m, s)) =>
        (inr tt,
         (Process true true b (p_userBus p) m (Some ctx) (p_producers p) (p_consumers p)
            (p_prod p) (p_cons p) (p_goroutines p ++ [OnInit ctx]) (p_cancelled p) (p_stopped p) (p_next p), s))
    end.

(** [None]: panics, there being no Redis client. *)
Definition InitUserEventBus (p : process) : option process :=
  match userBusInstance (p_buses p) with
  | None => if p_client p then Some (set_buses (InitUser (p_buses p)) true p) else None
  | Some _ => Some (set_buses (InitUser (p_buses p)) true p)
  end.
Definition ShutdownUserEventBus (p : process) : process := set_buses (ShutdownUser (p_buses p)) false p.

Definition New_Producer (id : string) (p : process) : process :=
  set_instances (p_producers p ++ [id]) (p_consumers p) (set_objects (<[id := New_producer id]> (p_prod p)) (p_cons p) p).
Definition New_Consumer (id : string) (HeartbeatTTL : Z) (p : process) : process :=
  set_instances (p_producers p) (p_consumers p ++ [id])
    (set_objects (p_prod p) (<[id := (NewConsumer id HeartbeatTTL, None)]> (p_cons p)) p).

(** ** Producers and consumers of the process *)

Section Runtime.
Context (cfg : ConfigRec) (defaults : ConsumeOptions) (uuid uuid' : string) (now rnow : Z).
Context (info : string) (backoff : BackoffStrategy).

Definition run_producer (ctx : nat) (id : string) (p : process) (s : store) : process :=
  match p_prod p !! id with
  | None => p
  | Some pr =>
      let '(r, _, pr') := RunProducer (p_buses p) s pr in
      let p' := set_objects (<[id := pr']> (p_prod p)) (p_cons p) p in
      if pr_running pr then p
      else match r with inl _ => p' | inr _ => set_goroutines (p_goroutines p ++ [OnProducer ctx id]) p' end
  end.
Definition stop_producer (id : string) (p : process) : process :=
  match p_prod p !! id with
  | None => p
  | Some pr => set_objects (<[id := (ShutdownProducer (p_buses p) pr).2]> (p_prod p)) (p_cons p) p
  end.

(** A run that fails cancels the context it made. *)
Definition run_consumer (ctx : nat) (id : string) (p : process) (s : store) : process * store :=
  match p_cons p !! id with
  | None => (p, s)
  | Some (c, cancel) =>
      let '(r, _, (c', s')) := RunConsumer cfg defaults uuid uuid' now rnow info backoff c s in
      let own := p_next p in
      if c_running c then (p, s)
      else match r with
      | inl ErrNoQueues => (p, s)
      | inl _ => (set_contexts (p_cancelled p) ({[own]} ∪ p_stopped p) (S own) (set_objects (p_prod p) (<[id := (c', None)]> (p_cons p)) p), s')
      | inr _ =>
          (set_contexts (p_cancelled p) (p_stopped p) (S own)
             (set_goroutines (p_goroutines p ++ [OnConsumer ctx own id])
                (set_objects (p_prod p) (<[id := (c', Some own)]> (p_cons p)) p)), s')
      end
  end.

(** Shutting down removes the keys of the consumer, for which the Redis client
    is needed. *)
Definition stop_consumer (id : string) (p : process) (s : store) : process * store :=
  match p_cons p !! id with
  | None => (p, s)
  | Some (c, cancel) =>
      let '(_, (c', s')) := ShutdownConsumer cfg defaults uuid uuid' now rnow c s in
      (set_contexts (p_cancelled p) (match cancel with Some own => {[own]} ∪ p_stopped p | None => p_stopped p end) (p_next p)
         (set_objects (p_prod p) (<[id := (c', None)]> (p_cons p)) p), s')
  end.

Definition stop_consumers (ids : list string) (p : process) (s : store) : process * store :=
  foldl (λ ps id, stop_consumer id ps.1 ps.2) (p, s) ids.
Definition stop_producers (ids : list string) (p : process) : process := foldl (λ p id, stop_producer id p) p ids.

(** The goroutine that waits for the context stays. *)
Definition ShutdownRuntime (p : process) (s : store) : process * store :=
  if negb (p_initialized p) then (p, s)
  else
    let consumers := p_consumers p in
    let producers := p_producers p in
    let p := Process true (p_client p) (p_buses p) (p_userBus p) (p_config p) None [] []
               (p_prod p) (p_cons p) (p_goroutines p) (p_cancelled p) (p_stopped p) (p_next p) in
    let '(p, s) := stop_consumers consumers p s in
    let p := stop_producers producers p in
    let p := ShutdownUserEventBus p in
    (Process false false (ShutdownSystem (p_buses p)) (p_userBus p) (CloseConfig (p_config p)) (p_purgeWorker p)
       (p_producers p) (p_consumers p) (p_prod p) (p_cons p) (p_goroutines p) (p_cancelled p) (p_stopped p) (p_next p), s).

(** ** What can happen in a process *)

Definition ctx_done (p : process) (g : goroutine) : bool :=
  match g with
  | OnInit ctx | OnProducer ctx _ => bool_decide (ctx ∈ p_cancelled p)
  | OnConsumer parent own _ => bool_decide (parent ∈ p_cancelled p ∨ own ∈ p_stopped p)
  end.

(** A goroutine whose context is done goes on and ends. *)
Definition wake (i : nat) (p : process) (s : store) : option (process * store) :=
  match p_goroutines p !! i with
  | None => Some (p, s)
  | Some g =>
      if negb (ctx_done p g) then Some (p, s)
      else
        let p := set_goroutines (delete i (p_goroutines p)) p in
        match g with
        | OnInit _ => Some (ShutdownRuntime p s)
        | OnProducer _ id => Some (stop_producer id p, s)
        | OnConsumer _ _ id => if p_client p then Some (stop_consumer id p s) else None
        end
  end.

Inductive call :=
| CInit (ctx : nat) (single reachable : bool) (id : string) | CShutdown
| CInitUserEventBus | CShutdownUserEventBus
| CNewProducer (id : string) | CNewConsumer (id : string) (HeartbeatTTL : Z)
| CRunProducer (ctx : nat) (id : string) | CShutdownProducer (id : string)
| CConsume (id : string) (q : QParams) (groupID : string) (handler : nat)
| CRunConsumer (ctx : nat) (id : string) | CShutdownConsumer (id : string)
| CCancel (ctx : nat) | CWake (i : nat) | COthers (f : store → store).

(** Producers and consumers read and write through the Redis client.  [None]:
    panics. *)
Definition exec (c : call) (ps : process * store) : option (process * store) :=
  let '(p, s) := ps in
  let with_client (r : process * store) := if p_client p then Some r else None in
  match c with
  | CInit ctx single reachable id => Some (InitRuntime ctx single reachable id p s).2
  | CShutdown => Some (ShutdownRuntime p s)
  | CInitUserEventBus => p' ← InitUserEventBus p; Some (p', s)
  | CShutdownUserEventBus => Some (ShutdownUserEventBus p, s)
  | CNewProducer id => Some (New_Producer id p, s)
  | CNewConsumer id ttl => Some (New_Consumer id ttl p, s)
  | CRunProducer ctx id => with_client (run_producer ctx id p s, s)
  | CShutdownProducer id => Some (stop_producer id p, s)
  | CConsume id q groupID h =>
      match p_cons p !! id with
      | None => Some (p, s)
      | Some (c, cancel) =>
          let '(c', s') := ConsumeWithGroup cfg defaults uuid uuid' now rnow info backoff q groupID h c s in
          with_client (set_objects (p_prod p) (<[id := (c', cancel)]> (p_cons p)) p, s')
      end
  | CRunConsumer ctx id => with_client (run_consumer ctx id p s)
  | CShutdownConsumer id => with_client (stop_consumer id p s)
  | CCancel ctx => Some (set_contexts ({[ctx]} ∪ p_cancelled p) (p_stopped p) (p_next p) p, s)
  | CWake i => wake i p s
  | COthers f => Some (p, f s)
  end.

Definition exec_all_calls (cs : list call) (ps : process * store) : option (process * store) :=
  foldl (λ ps c, ps ≫= exec c) (Some ps) cs.

(** ** The invariant *)

Definition bus_up (b : option EventBus) : Prop := ∃ e, b = Some e ∧ bus_IsRunning e = true.

(** What the parts of a process owe each other. *)
Record consistent (p : process) : Prop := {
  co_running : p_initialized p = true →
    p_client p = true ∧ bus_up (systemBusInstance (p_buses p)) ∧ is_Some (instance (p_config p)) ∧
    ∃ ctx, p_purgeWorker p = Some ctx ∧ OnInit ctx ∈ p_goroutines p;
  co_stopped : p_initialized p = false → p_purgeWorker p = None;
  co_user : p_userBus p = true ↔ bus_up (userBusInstance (p_buses p));
  co_buses : ∀ b, systemBusInstance (p_buses p) = Some b ∨ userBusInstance (p_buses p) = Some b → bus_IsRunning b = true;
  co_client : p_client p = false → p_buses p = Buses None None ∧ instance (p_config p) = None
}.

(** What producers and consumers change of the process. *)
Record lifecycle_same (p p' : process) : Prop := {
  ls_initialized : p_initialized p' = p_initialized p;
  ls_client : p_client p' = p_client p;
  ls_buses : p_buses p' = p_buses p;
  ls_userBus : p_userBus p' = p_userBus p;
  ls_config : p_config p' = p_config p;
  ls_worker : p_purgeWorker p' = p_purgeWorker p;
  ls_goroutines : ∀ ctx, OnInit ctx ∈ p_goroutines p → OnInit ctx ∈ p_goroutines p'
}.

#[export] Instance lifecycle_preorder : PreOrder lifecycle_same.
Proof.
  split; [by split|]. intros p1 p2 p3 [] []. split; [congruence..|]. auto.
Qed.

Lemma consistent_same p p' : lifecycle_same p p' → consistent p → consistent p'.
Proof.
  intros [E1 E2 E3 E4 E5 E6 E7] [H1 H2 H3 H4 H5]. split; rewrite ?E1, ?E2, ?E3, ?E4, ?E5, ?E6; try exact H2; try exact H3; try exact H4; try exact H5.
  intros Hi. destruct (H1 Hi) as (? & ? & ? & ctx & ? & ?). split_and!; [eassumption..|]. exists ctx. auto.
Qed.

Lemma run_producer_same ctx id p s : lifecycle_same p (run_producer ctx id p s).
Proof.
  unfold run_producer. destruct (p_prod p !! id) as [pr|]; [|reflexivity].
  destruct (RunProducer _ _ _) as [[[e|u] m] pr']; destruct (pr_running pr); try reflexivity; split; try reflexivity; intros c Hc; [exact Hc|].
  cbn. apply elem_of_app. by left.
Qed.
Lemma stop_producer_same id p : lifecycle_same p (stop_producer id p).
Proof. unfold stop_producer. destruct (p_prod p !! id); by split. Qed.
Lemma run_consumer_same ctx id p s : lifecycle_same p (run_consumer ctx id p s).1.
Proof.
  unfold run_consumer. destruct (p_cons p !! id) as [[c cancel]|]; [|reflexivity].
  destruct (RunConsumer _ _ _ _ _ _ _ _ _ _) as [[[e|u] m] [c' s']]; destruct (c_running c); try reflexivity.
  - destruct e; [reflexivity|by split].
  - split; try reflexivity. intros x Hx. cbn. apply elem_of_app. by left.
Qed.
Lemma stop_consumer_same id p s : lifecycle_same p (stop_consumer id p s).1.
Proof.
  unfold stop_consumer. destruct (p_cons p !! id) as [[c cancel]|]; [|reflexivity].
  destruct (ShutdownConsumer _ _ _ _ _ _ _ _) as [m [c' s']]. by split.
Qed.
Lemma stop_consumers_same ids : ∀ p s, lifecycle_same p (stop_consumers ids p s).1.
Proof.
  unfold stop_consumers. induction ids as [|id ids IH]; intros p s; cbn [foldl]; [reflexivity|].
  etrans; [apply (stop_consumer_same id p s)|]. cbn [fst snd]. destruct (stop_consumer id p s) as [p1 s1]. apply IH.
Qed.
Lemma stop_producers_same ids : ∀ p, lifecycle_same p (stop_producers ids p).
Proof.
  unfold stop_producers. induction ids as [|id ids IH]; intros p; cbn [foldl]; [reflexivity|].
  etrans; [apply (stop_producer_same id p)|apply IH].
Qed.

Lemma init_instance id m s r m' s' :
  Configuration.Init id (read_config s) m s = (inr r, (m', s')) → is_Some (instance m').
Proof.
  unfold Configuration.Init. destruct (instance m) eqn:Ei; [intros [= <- <- <-]; by eexists|].
  unfold loadOrCreateLocked, createDefaultsLocked, Configuration.alloc.
  destruct (match read_config s with Ret hash => _ | Err _ => _ end) as [[hash c]|].
  - case_decide; [destruct (write_epoch _ _) as [[]?]; [|done]|]; intros [= <- <- <-]; by eexists.
  - destruct (persistLocked _ _ _ _ _) as [[e|v] [m1 s1]]; [done|]. intros [= <- <- <-]. by eexists.
Qed.

Lemma init_bus_up ns (b : option EventBus) : (∀ e, b = Some e → bus_IsRunning e = true) → bus_up (init_bus ns b).
Proof. intros H. destruct b as [e|]; [exists e; auto|]. by eexists. Qed.

Lemma bus_up_running b e : bus_up b → b = Some e → bus_IsRunning e = true.
Proof. intros (e' & -> & H). congruence. Qed.

Lemma others_stay (g g' : goroutine) (i : nat) (l : list goroutine) : l !! i = Some g' → g ≠ g' → g ∈ l → g ∈ delete i l.
Proof.
  intros Hi Hne Hin. rewrite delete_take_drop. rewrite <-(take_drop_middle l i g' Hi) in Hin.
  rewrite elem_of_app, elem_of_cons in Hin. rewrite elem_of_app. naive_solver.
Qed.

(** A process that was shut down. *)
Record down (p' : process) : Prop := {
  dn_initialized : p_initialized p' = false;
  dn_client : p_client p' = false;
  dn_buses : p_buses p' = Buses None None;
  dn_userBus : p_userBus p' = false;
  dn_config : instance (p_config p') = None;
  dn_worker : p_purgeWorker p' = None;
  dn_instances : p_producers p' = [] ∧ p_consumers p' = []
}.

Lemma down_consistent p' : down p' → consistent p'.
Proof.
  intros [E1 E2 E3 E4 E5 E6 E7]. split.
  - by rewrite E1.
  - done.
  - rewrite E4, E3. split; [done|]. by intros (e & ? & _).
  - rewrite E3. by intros b [?|?].
  - done.
Qed.

(** What stopping instances does to them. *)
Definition stops_instances (p p' : process) : Prop :=
  (∀ id pr, p_prod p' !! id = Some pr → pr_running pr = true → id ∉ p_producers p ∧ p_prod p !! id = Some pr) ∧
  (∀ id c o, p_cons p' !! id = Some (c, o) → c_running c = true → id ∉ p_consumers p ∧ p_cons p !! id = Some (c, o)).

Lemma stop_consumer_objects id p s :
  p_prod (stop_consumer id p s).1 = p_prod p ∧ p_producers (stop_consumer id p s).1 = p_producers p ∧
  p_consumers (stop_consumer id p s).1 = p_consumers p ∧
  ∀ id' c o, p_cons (stop_consumer id p s).1 !! id' = Some (c, o) → c_running c = true → id' ≠ id ∧ p_cons p !! id' = Some (c, o).
Proof.
  unfold stop_consumer. destruct (p_cons p !! id) as [[c cancel]|] eqn:E.
  - destruct (ShutdownConsumer _ _ _ _ _ _ _ _) as [m [c' s']] eqn:Es. cbn. split_and!; [done..|].
    intros id' c1 o. destruct (decide (id' = id)) as [->|Hne]; [|by rewrite lookup_insert_ne by done].
    rewrite lookup_insert_eq. intros [= <- <-]. revert Es. unfold ShutdownConsumer.
    destruct (negb (c_running c)), (shutdown_runner _ _ _ _ _ _ _ _) as [r1 s1]; by intros [= <- <- <-].
  - cbn. split_and!; [done..|]. intros id' c o H Hr. split; [|done]. intros ->. congruence.
Qed.

Lemma stop_consumers_objects ids : ∀ p s,
  let p' := (stop_consumers ids p s).1 in
  p_prod p' = p_prod p ∧ p_producers p' = p_producers p ∧ p_consumers p' = p_consumers p ∧
  ∀ id c o, p_cons p' !! id = Some (c, o) → c_running c = true → id ∉ ids ∧ p_cons p !! id = Some (c, o).
Proof.
  unfold stop_consumers. induction ids as [|id ids IH]; intros p s; cbn [foldl].
  { cbn. split_and!; [done..|]. intros. split; [apply not_elem_of_nil|done]. }
  cbn [fst snd]. destruct (stop_consumer_objects id p s) as (A1 & A2 & A3 & A4).
  destruct (stop_consumer id p s) as [p1 s1]. cbn [fst] in *. destruct (IH p1 s1) as (B1 & B2 & B3 & B4). cbv zeta.
  rewrite B1, B2, B3, A1, A2, A3. split_and!; [done..|]. intros id' c o H Hr. destruct (B4 id' c o H Hr) as [Hn H1].
  destruct (A4 id' c o H1 Hr). split; [|done]. by apply not_elem_of_cons.
Qed.

Lemma stop_producers_objects ids : ∀ p,
  let p' := stop_producers ids p in
  p_cons p' = p_cons p ∧ p_producers p' = p_producers p ∧ p_consumers p' = p_consumers p ∧
  ∀ id pr, p_prod p' !! id = Some pr → pr_running pr = true → id ∉ ids ∧ p_prod p !! id = Some pr.
Proof.
  unfold stop_producers. induction ids as [|id ids IH]; intros p; cbn [foldl].
  { cbn. split_and!; [done..|]. intros. split; [apply not_elem_of_nil|done]. }
  destruct (IH (stop_producer id p)) as (B1 & B2 & B3 & B4). cbv zeta in *.
  assert (p_cons (stop_producer id p) = p_cons p ∧ p_producers (stop_producer id p) = p_producers p ∧
          p_consumers (stop_producer id p) = p_consumers p) as (C1 & C2 & C3) by (unfold stop_producer; by destruct (p_prod p !! id)).
  rewrite B1, B2, B3, C1, C2, C3. split_and!; [done..|]. intros id' pr H Hr. destruct (B4 id' pr H Hr) as [Hn H1].
  unfold stop_producer in H1. destruct (p_prod p !! id) as [pr0|] eqn:E.
  - cbn in H1. destruct (decide (id' = id)) as [->|Hne].
    + rewrite lookup_insert_eq in H1. injection H1 as <-. unfold ShutdownProducer in Hr. by destruct (pr_running pr0) eqn:Ep; cbn in Hr; [|congruence].
    + rewrite lookup_insert_ne in H1 by done. split; [|done]. by apply not_elem_of_cons.
  - split; [|done]. apply not_elem_of_cons. split; [|done]. intros ->. congruence.
Qed.

Lemma shutdown_down p s : p_initialized p = true →
  down (ShutdownRuntime p s).1 ∧ stops_instances p (ShutdownRuntime p s).1.
Proof.
  intros Hi. unfold ShutdownRuntime. rewrite Hi. cbn [negb]. cbv zeta.
  set (p0 := Process true _ _ _ _ _ _ _ _ _ _ _ _ _).
  pose proof (stop_consumers_objects (p_consumers p) p0 s) as (A1 & A2 & A3 & A4).
  pose proof (stop_consumers_same (p_consumers p) p0 s) as [].
  destruct (stop_consumers (p_consumers p) p0 s) as [p1 s1]. cbn [fst] in *.
  pose proof (stop_producers_objects (p_producers p) p1) as (B1 & B2 & B3 & B4).
  pose proof (stop_producers_same (p_producers p) p1) as []. set (p2 := stop_producers _ p1) in *.
  unfold p0 in *. cbn [p_purgeWorker p_producers p_consumers p_prod p_cons] in *.
  split; [split|split]; cbn.
  all: try reflexivity.
  - congruence.
  - split; congruence.
  - intros id pr H Hr. rewrite A1 in B4. by destruct (B4 id pr H Hr).
  - intros id c o H Hr. rewrite B1 in H. by destruct (A4 id c o H Hr).
Qed.

Lemma shutdown_consistent p s : consistent p → consistent (ShutdownRuntime p s).1.
Proof.
  intros Hc. destruct (p_initialized p) eqn:Hi; [by eapply down_consistent, shutdown_down|].
  unfold ShutdownRuntime. by rewrite Hi.
Qed.

Lemma init_consistent ctx single reachable id p s : consistent p → consistent (InitRuntime ctx single reachable id p s).2.1.
Proof.
  intros Hc. pose proof Hc as [H1 H2 H3 H4 H5]. unfold InitRuntime. destruct single; [|done]. cbn [negb].
  destruct (p_initialized p) eqn:Hi; [done|]. destruct (redis_Init reachable p) eqn:Hr; [|done]. cbn [negb]. cbv zeta.
  assert (bus_up (systemBusInstance (InitSystem (p_buses p)))) as Hup.
  { apply init_bus_up. intros e He. apply H4. by left. }
  assert (∀ b, systemBusInstance (InitSystem (p_buses p)) = Some b ∨ userBusInstance (InitSystem (p_buses p)) = Some b → bus_IsRunning b = true) as Hall.
  { intros b [Hb|Hb]; [by eapply bus_up_running|]. apply H4. by right. }
  destruct (Configuration.Init id (read_config s) (p_config p) s) as [[e|u] [m s1]] eqn:Ec; cbn [fst snd].
  - split; cbn; done.
  - split; cbn; try done. intros _. split; [done|]. split; [exact Hup|]. split; [by eapply init_instance|].
    exists ctx. split; [done|]. apply elem_of_app. right. by apply list_elem_of_singleton.
Qed.

Lemma woken_same i p g : p_goroutines p !! i = Some g → (∀ ctx, g ≠ OnInit ctx) → lifecycle_same p (set_goroutines (delete i (p_goroutines p)) p).
Proof. intros Hg Hne. split; try done. intros ctx Hin. cbn. eapply others_stay; [exact Hg|intros E; by apply (Hne ctx)|done]. Qed.

Lemma wake_consistent i p s p' s' : consistent p → wake i p s = Some (p', s') → consistent p'.
Proof.
  intros Hc. unfold wake. destruct (p_goroutines p !! i) as [g|] eqn:Hg; [|by intros [= <- <-]].
  destruct (negb (ctx_done p g)); [by intros [= <- <-]|]. cbv zeta.
  destruct g as [ctx|ctx id|parent own id].
  - intros [= E]. destruct (p_initialized p) eqn:Hi.
      assert (p' = (ShutdownRuntime (set_goroutines (delete i (p_goroutines p)) p) s).1) as -> by by rewrite E.
      eapply down_consistent, shutdown_down. done.
    + unfold ShutdownRuntime in E. cbn in E. rewrite Hi in E. injection E as <- <-.
      destruct Hc as [H1 H2 H3 H4 H5]. split; cbn; try done. by rewrite Hi.
  - intros [= <- <-]. eapply consistent_same; [|exact Hc]. etrans; [by eapply woken_same|apply stop_producer_same].
  - destruct (p_client _); [|done]. intros [= E]. eapply consistent_same; [|exact Hc]. etrans; [by eapply woken_same|].
    pose proof (stop_consumer_same id (set_goroutines (delete i (p_goroutines p)) p) s) as H. by rewrite E in H.
Qed.

Lemma exec_consistent c p s p' s' : consistent p → exec c (p, s) = Some (p', s') → consistent p'.
Proof.
  intros Hc. destruct c as [ctx single reachable id| | | |id|id ttl|ctx id|id|id q g h|ctx id|id|ctx|i|f]; cbn [exec].
  - intros [= E]. pose proof (init_consistent ctx single reachable id p s Hc) as H. by rewrite E in H.
  - intros [= E]. pose proof (shutdown_consistent p s Hc) as H. by rewrite E in H.
  - destruct Hc as [H1 H2 H3 H4 H5]. unfold InitUserEventBus.
    assert (bus_up (userBusInstance (InitUser (p_buses p)))) as Hup.
    { apply init_bus_up. intros e He. apply H4. by right. }
    assert (p_client p = true ∨ userBusInstance (p_buses p) ≠ None → consistent (set_buses (InitUser (p_buses p)) true p)) as HI.
    { intros Hcl. split; cbn; try done.
      - intros b [Hb|Hb]; [apply H4; by left|by eapply bus_up_running].
      - intros Hn. destruct (H5 Hn) as [E _]. rewrite E in Hcl. destruct Hcl; [congruence|done]. }
    destruct (userBusInstance (p_buses p)) as [b|] eqn:Eu; [|destruct (p_client p) eqn:Ec]; cbn; intros [= <- <-]; [apply HI; by right|apply HI; by left].
  - intros [= <- <-]. destruct Hc as [H1 H2 H3 H4 H5]. unfold ShutdownUserEventBus. split; cbn; try done.
    + split; [done|]. by intros (e & ? & _).
    + intros b [Hb|?]; [|done]. apply H4. by left.
    + intros Hn. destruct (H5 Hn) as [E ?]. by rewrite E.
  - intros [= <- <-]. by eapply consistent_same; [|exact Hc].
  - intros [= <- <-]. by eapply consistent_same; [|exact Hc].
  - destruct (p_client p); [|done]. intros [= <- <-]. eapply consistent_same; [apply run_producer_same|exact Hc].
  - intros [= <- <-]. eapply consistent_same; [apply stop_producer_same|exact Hc].
  - destruct (p_cons p !! id) as [[c cancel]|]; [|by intros [= <- <-]].
    destruct (ConsumeWithGroup _ _ _ _ _ _ _ _ _ _ _ _ _) as [c' s1]. destruct (p_client p); [|done].
    intros [= <- <-]. by eapply consistent_same; [|exact Hc].
  - destruct (p_client p); [|done]. intros [= E]. pose proof (run_consumer_same ctx id p s) as H. rewrite E in H. by eapply consistent_same.
  - destruct (p_client p); [|done]. intros [= E]. pose proof (stop_consumer_same id p s) as H. rewrite E in H. by eapply consistent_same.
  - intros [= <- <-]. by eapply consistent_same; [|exact Hc].
  - by apply wake_consistent.
  - intros [= <- <-]. done.
Qed.

Lemma new_consistent : consistent new_process.
Proof.
  split; try done.
  - split; [done|]. by intros (e & ? & _).
  - by intros b [?|?].
Qed.

Lemma calls_consistent cs : ∀ p s p' s', consistent p → exec_all_calls cs (p, s) = Some (p', s') → consistent p'.
Proof.
  unfold exec_all_calls. induction cs as [|c cs IH]; intros p s p' s' Hc; cbn [foldl]; [by intros [= <- <-]|].
  change (Some (p, s) ≫= exec c) with (exec c (p, s)). destruct (exec c (p, s)) as [[p1 s1]|] eqn:E.
  - intros H. eapply (IH p1 s1); [by eapply exec_consistent|exact H].
  - intros H. exfalso. clear -H. induction cs; [done|]. by apply IHcs.
Qed.
End Runtime.

(** Whatever a process does with RedisSMQ, as long as it does not panic: while the
    runtime is initialized there are a Redis client, a running system bus and a
    configuration, the purge worker is started and the goroutine that waits
    for the context of its [Init] is there; otherwise no purge worker is started.
    The public user bus is set exactly while there is a running one, and without a
    Redis client there are neither buses nor a configuration. *)
Theorem runtime_consistent cfg defaults uuid uuid' now rnow info backoff cs s0 p s :
  exec_all_calls cfg defaults uuid uuid' now rnow info backoff cs (new_process, s0) = Some (p, s) → consistent p.
Proof. apply calls_consistent, new_consistent. Qed.

(** C19: cancelling the context given to [Init] shuts the runtime down, once the
    goroutine that waits for it runs: nothing of the runtime is left, every
    producer and consumer it tracked is stopped, others are left alone, and one
    can initialize it again. *)
Theorem cancel_shuts_down cfg defaults uuid uuid' now rnow info backoff cs s0 p s ctx :
  exec_all_calls cfg defaults uuid uuid' now rnow info backoff cs (new_process, s0) = Some (p, s) →
  p_initialized p = true → p_purgeWorker p = Some ctx →
  ∃ i p' s', exec_all_calls cfg defaults uuid uuid' now rnow info backoff [CCancel ctx; CWake i] (p, s) = Some (p', s') ∧
    down p' ∧ stops_instances p p' ∧
    ∀ ctx' id m s2, Configuration.Init id (read_config s') (p_config p') s' = (inr tt, (m, s2)) →
      p_initialized (InitRuntime ctx' true true id p' s').2.1 = true.
Proof.
  intros Hrun Hi Hw. assert (consistent p) as Hc by (eapply calls_consistent; [apply new_consistent|exact Hrun]).
  destruct (co_running p Hc Hi) as (_ & _ & _ & ctx0 & Hw' & Hin). assert (ctx0 = ctx) as -> by congruence.
  apply list_elem_of_lookup in Hin as [i Hg]. exists i.
  set (p1 := set_contexts ({[ctx]} ∪ p_cancelled p) (p_stopped p) (p_next p) p).
  set (p2 := set_goroutines (delete i (p_goroutines p1)) p1).
  destruct (shutdown_down cfg defaults uuid uuid' now rnow p2 s Hi) as [Hd Hs].
  destruct (ShutdownRuntime cfg defaults uuid uuid' now rnow p2 s) as [p' s'] eqn:E. cbn [fst] in Hd, Hs. exists p', s'. split.
  - unfold exec_all_calls. cbn [foldl mbind option_bind exec]. unfold wake.
    change (p_goroutines p1) with (p_goroutines p). fold p1. change (p_goroutines p1) with (p_goroutines p). rewrite Hg.
    assert (ctx_done p1 (OnInit ctx) = true) as -> by (apply bool_decide_eq_true_2; set_solver).
    cbn [negb]. cbv zeta. by rewrite <-E.
  - split; [done|]. split; [exact Hs|]. intros ctx' id m s2 Hcfg. unfold InitRuntime.
    destruct Hd as [E1 E2 E3 E4 E5 E6 E7]. cbn [negb]. rewrite E1. unfold redis_Init. rewrite orb_true_r. cbn [negb]. by rewrite Hcfg.
Qed.

(** A sample process: no messages are involved. *)
#[local] Abbreviation calls := (exec_all_calls DefaultConfig DefaultConsumeOptions "u" "v" 1 1 "{}" (λ _, second)).

Definition started : list call := [CInit 1 true true "e1"; CInitUserEventBus; CNewProducer "p1"; CRunProducer 1 "p1"].

Lemma runtime_consistent_witness :
  ∃ p s, calls started (new_process, empty_store) = Some (p, s) ∧ p_initialized p = true ∧ consistent p.
Proof.
  destruct (calls started (new_process, empty_store)) as [[p s]|] eqn:E; [|vm_compute in E; discriminate].
  exists p, s. split; [reflexivity|]. split.
  - apply (f_equal (fmap (p_initialized ∘ fst))) in E. vm_compute in E. injection E as E. exact (eq_sym E).
  - exact (runtime_consistent _ _ _ _ _ _ _ _ _ _ _ _ E).
Defined.

Lemma cancel_shuts_down_witness :
  ∃ p s i p' s', calls started (new_process, empty_store) = Some (p, s) ∧
    calls [CCancel 1; CWake i] (p, s) = Some (p', s') ∧ p_client p = true ∧ p_client p' = false.
Proof.
  destruct (calls started (new_process, empty_store)) as [[p s]|] eqn:E; [|vm_compute in E; discriminate].
  pose proof (f_equal (fmap (λ ps : process * store, (p_initialized ps.1, p_purgeWorker ps.1, p_client ps.1))) E) as H.
  vm_compute in H. injection H as H1 H2 H3.
  destruct (cancel_shuts_down _ _ _ _ _ _ _ _ _ _ p s 1%nat E (eq_sym H1) (eq_sym H2)) as (i & p' & s' & Hr & Hd & _).
  exists p, s, i, p', s'. split; [reflexivity|]. split; [exact Hr|]. split; [exact (eq_sym H3)|exact (dn_client _ Hd)].
Defined.

(** ** What outlives a shutdown *)

(** The goroutine of an [Init] is not ended by [Shutdown]: when the runtime is
    initialized again with another context, cancelling the first one shuts it
    down. *)
Theorem old_context_stops_restarted_runtime :
  (λ ps : process * store, (p_initialized ps.1, p_purgeWorker ps.1, p_cancelled ps.1)) <$>
    calls [CInit 1 true true "e1"; CShutdown; CInit 2 true true "e2"; CCancel 1; CWake 0] (new_process, empty_store)
  = Some (false, None, {[1%nat]}).
Proof. vm_compute. reflexivity. Qed.

(** Without the wake-up the second runtime runs, and its own context was never
    cancelled. *)
Theorem restarted_runtime_runs :
  (λ ps : process * store, (p_initialized ps.1, p_purgeWorker ps.1, p_goroutines ps.1)) <$>
    calls [CInit 1 true true "e1"; CShutdown; CInit 2 true true "e2"; CCancel 1] (new_process, empty_store)
  = Some (true, Some 2%nat, [OnInit 1; OnInit 2]).
Proof. vm_compute. reflexivity. Qed.

(** An [Init] that fails on the configuration leaves the system bus up, which
    [Shutdown] then does not stop. *)
Theorem failed_init_leaves_bus :
  let taken := put Config (VStr "x") empty_store in
  (λ ps : process * store, (p_initialized ps.1, match systemBusInstance (p_buses ps.1) with None => true | _ => false end, p_client ps.1)) <$>
    calls [CInit 1 true true "e1"; CShutdown] (new_process, taken)
  = Some (false, false, true).
Proof. vm_compute. reflexivity. Qed.

Section goroutines.
Context (cfg : ConfigRec) (defaults : ConsumeOptions) (uuid uuid' : string) (now rnow : Z).
Context (info : string) (backoff : BackoffStrategy).

(** Shutting a consumer down cancels its own context. *)
Lemma stop_consumer_stops p s id c own :
  p_cons p !! id = Some (c, Some own) →
  let p' := (stop_consumer cfg defaults uuid uuid' now rnow id p s).1 in
  own ∈ p_stopped p' ∧ p_goroutines p' = p_goroutines p.
Proof.
  intros H. unfold stop_consumer. rewrite H. destruct (ShutdownConsumer _ _ _ _ _ _ _ _) as [m [c' s']]. cbn. split; [set_solver|done].
Qed.

(** The goroutine of a consumer waits for a context that shutting the consumer
    down cancels.  If it runs only after the runtime was shut down, it uses the
    Redis client that is gone, and panics. *)
Theorem late_consumer_goroutine_panics p s i parent own id c :
  p_initialized p = true → p_consumers p = [id] → p_cons p !! id = Some (c, Some own) →
  p_goroutines p !! i = Some (OnConsumer parent own id) →
  exec_all_calls cfg defaults uuid uuid' now rnow info backoff [CShutdown; CWake i] (p, s) = None.
Proof.
  intros Hi Hone Hc Hg. unfold exec_all_calls. cbn [foldl mbind option_bind exec].
  assert (let p' := (ShutdownRuntime cfg defaults uuid uuid' now rnow p s).1 in
          p_client p' = false ∧ own ∈ p_stopped p' ∧ p_goroutines p' = p_goroutines p) as (H1 & H2 & H3).
  { unfold ShutdownRuntime. rewrite Hi. cbn [negb]. cbv zeta. rewrite Hone. set (p0 := Process true _ _ _ _ _ _ _ _ _ _ _ _ _).
    unfold stop_consumers. cbn [foldl fst snd].
    pose proof (stop_consumer_stops p0 s id c own Hc) as [A1 A2].
    destruct (stop_consumer cfg defaults uuid uuid' now rnow id p0 s) as [p1 s1]. cbn [fst] in *.
    assert (∀ ids p, p_stopped (stop_producers ids p) = p_stopped p ∧ p_goroutines (stop_producers ids p) = p_goroutines p) as Hp.
    { unfold stop_producers. induction ids as [|x ids IH]; intros p2; [done|]. cbn [foldl]. destruct (IH (stop_producer x p2)) as [-> ->].
      unfold stop_producer. by destruct (p_prod p2 !! x). }
    destruct (Hp (p_producers p) p1) as [E1 E2]. cbn. rewrite E1, E2. split_and!; [done|done|]. by rewrite A2. }
  destruct (ShutdownRuntime cfg defaults uuid uuid' now rnow p s) as [p' s']. cbn [fst] in *. cbn [mbind option_bind exec].
  unfold wake. rewrite H3, Hg. cbn [ctx_done]. rewrite bool_decide_eq_true_2 by by right. cbn [negb]. cbv zeta. cbn [p_client set_goroutines].
  by rewrite H1.
Qed.

(** A consumer that is shut down and run again is shut down by the goroutine
    of its first run. *)
Theorem late_goroutine_stops_rerun p s i parent own id c p1 s1 :
  p_client p = true → p_cons p !! id = Some (c, Some own) → p_goroutines p !! i = Some (OnConsumer parent own id) →
  exec_all_calls cfg defaults uuid uuid' now rnow info backoff [CShutdownConsumer id; CRunConsumer parent id] (p, s) = Some (p1, s1) →
  ∃ p2 s2 c2 o2, exec_all_calls cfg defaults uuid uuid' now rnow info backoff [CWake i] (p1, s1) = Some (p2, s2) ∧
    p_cons p2 !! id = Some (c2, o2) ∧ c_running c2 = false.
Proof.
  intros Hcl Hc Hg. unfold exec_all_calls. cbn [foldl mbind option_bind exec]. rewrite Hcl.
  pose proof (stop_consumer_stops p s id c own Hc) as [A1 A2]. pose proof (stop_consumer_same cfg defaults uuid uuid' now rnow id p s) as [_ A3 _ _ _ _ _].
  assert (is_Some (p_cons (stop_consumer cfg defaults uuid uuid' now rnow id p s).1 !! id)) as Hs.
  { unfold stop_consumer. rewrite Hc. destruct (ShutdownConsumer _ _ _ _ _ _ _ _) as [m [c' s']]. cbn. rewrite lookup_insert_eq. by eexists. }
  destruct (stop_consumer cfg defaults uuid uuid' now rnow id p s) as [pa sa]. cbn [fst] in *. cbn [mbind option_bind exec]. rewrite A3, Hcl.
  intros [= E]. assert (own ∈ p_stopped p1 ∧ p_goroutines p1 !! i = Some (OnConsumer parent own id) ∧ p_client p1 = true ∧ is_Some (p_cons p1 !! id)) as (B1 & B2 & B3 & B4).
  { revert E. unfold run_consumer. destruct Hs as [[ca oa] Hca]. rewrite Hca.
    destruct (RunConsumer _ _ _ _ _ _ _ _ _ _) as [[r m] [c' s']].
    assert (p_goroutines pa !! i = Some (OnConsumer parent own id)) as Hgi by by rewrite A2.
    destruct (c_running ca); [|destruct r as [[|e]|u]]; intros [= <- <-]; cbn; rewrite ?lookup_insert_eq, ?A3, ?Hca;
      (split_and!; [set_solver| |done|by eexists]); try done. by apply lookup_app_l_Some. }
  unfold wake. rewrite B2. cbn [ctx_done]. rewrite bool_decide_eq_true_2 by by right. cbn [negb]. cbv zeta. cbn [p_client set_goroutines]. rewrite B3.
  destruct B4 as [[cb ob] Hcb]. unfold stop_consumer. cbn [p_cons set_goroutines]. rewrite Hcb.
  destruct (ShutdownConsumer cfg defaults uuid uuid' now rnow cb s1) as [m [c' s']] eqn:Es. eexists _, _, c', None. split; [done|]. cbn.
  rewrite lookup_insert_eq. split; [done|]. revert Es. unfold ShutdownConsumer.
  destruct (negb (c_running cb)), (shutdown_runner _ _ _ _ _ _ _ _) as [r1 s2]; by intros [= <- <- <-].
Qed.
End goroutines.

(** Such a run: it panics when the goroutine wakes up after the shutdown, and
    does not when it wakes up before. *)
Theorem shutdown_can_panic :
  let run := [CInit 1 true true "e1"; CNewConsumer "c1" (10 * second); CConsume "c1" orders "" 7; CRunConsumer 1 "c1"] in
  calls (run ++ [CShutdown; CWake 1]) (new_process, plain_orders) = None ∧
  (λ ps : process * store, p_goroutines ps.1) <$> calls (run ++ [CShutdownConsumer "c1"; CWake 1; CShutdown]) (new_process, plain_orders)
    = Some [OnInit 1].
Proof. split; vm_compute; reflexivity. Qed.
