(* ===== verification/Typing.v ===== *)
(** * The types of the keyspace

    Every structure of the system is of one Redis type ([key_type] in
    Keyspace.v), and most theorems assume a keyspace in which no key holds a
    value of another ([wt]).  Here every script that writes, of
    internal/redis/scripts/scripts, called with the keys the Go code gives it,
    keeps that so, whatever its arguments and also when it fails half way; and
    so does every request that writes without a script, one by one with the
    function of the Go code that makes it ([request]). *)

From S2P Require Import Prelude Keys Redis RedisFacts Types Keyspace Topic Json Message MessageCodec.
From S2P Require Import Publish Consume Accounts Accounting Retry Delivery Copy Manage Schedule Batch QueueState PurgeJobs Purge Configuration Lock Exchange Bindings Routing Admin.
From S2P Require Import Subscribe Reaper Handler Namespace.
#[local] Open Scope Z_scope.

(** ** Typed keys and computations *)

(** [k] is the key of no structure of another type than [t]. *)
Definition kty (t : ktype) (k : string) : Prop := ∀ rk, wf_key rk → render_key rk = k → key_type rk = t.

Definition typed {A} (m : M A) : Prop := ∀ s, wt s → wt (m s).2.

Lemma kty_key rk t : wf_key rk → key_type rk = t → kty t (render_key rk).
Proof. intros Hk <- rk' Hk' E. by apply render_key_inj in E as ->. Qed.

Lemma wt_write t k ov s : wt s → kty t k → has_type t ov → wt (upd k ov s).
Proof.
  intros Hw Hk Ht rk Hrk. destruct (decide (k = render_key rk)) as [->|Hne].
  - rewrite lookup_upd_eq. by rewrite (Hk rk).
  - rewrite lookup_upd_ne by done. by apply Hw.
Qed.

Lemma typed_ret {A} (a : A) : typed (mret a : M A).
Proof. by intros s Hs. Qed.
Lemma typed_throw {A} e : typed (throw e : M A).
Proof. by intros s Hs. Qed.
Lemma typed_bind {A B} (m : M A) (f : A → M B) : typed m → (∀ a, typed (f a)) → typed (m ≫= f).
Proof.
  intros Hm Hf s Hs. specialize (Hm s Hs). unfold mbind, M_bind. destruct (m s) as [[a|e] s']; [|done]. by apply Hf.
Qed.
Lemma typed_when b m : typed m → typed (when b m).
Proof. intros H. destruct b; [done|apply typed_ret]. Qed.
Lemma typed_foldM {A B} (f : B → A → M B) l : ∀ b, (∀ b a, a ∈ l → typed (f b a)) → typed (foldM f b l).
Proof.
  induction l as [|a l IH]; intros b Hf; [apply typed_ret|]. cbn [foldM]. apply typed_bind; [apply Hf; left|].
  intros b'. apply IH. intros b0 a0 Ha. apply Hf. by right.
Qed.
Lemma typed_loopM {A B R} (f : B → A → M (R + B)) l : ∀ b, (∀ b a, typed (f b a)) → typed (loopM f b l).
Proof.
  induction l as [|a l IH]; intros b Hf; [apply typed_ret|]. cbn [loopM]. apply typed_bind; [apply Hf|].
  intros [x|b']; [apply typed_ret|by apply IH].
Qed.
Lemma typed_view {T A} (v : option value → option T) k (f : T → M A) : (∀ x, typed (f x)) → typed (with_view v k f).
Proof. intros Hf s Hs. unfold with_view. destruct (v _); [by apply Hf|done]. Qed.
Lemma typed_get {T A} (v : option value → option T) k (g : T → A) : typed (with_view v k (λ x, mret (g x))).
Proof. apply typed_view. intros x. apply typed_ret. Qed.
Lemma typed_mget {T} (v : option value → option T) k : typed (with_view v k mret).
Proof. apply typed_view. intros x. apply typed_ret. Qed.
Lemma typed_write t k ov : kty t k → has_type t ov → typed (modify (upd k ov)).
Proof. intros Hk Ht s Hs. by eapply wt_write. Qed.
Lemma typed_same {A} (m : M A) : (∀ s, db (m s).2 = db s) → typed m.
Proof. intros H s Hs rk Hrk. rewrite H. by apply Hs. Qed.

Lemma hash_typed h : has_type THash (hash_val h). Proof. unfold hash_val. case_decide; by eexists. Qed.
Lemma list_typed l : has_type TList (list_val l). Proof. destruct l; by eexists. Qed.
Lemma set_typed x : has_type TSet (set_val x). Proof. unfold set_val. case_decide; by eexists. Qed.
Lemma zset_typed z : has_type TZSet (zset_val z). Proof. destruct z; by eexists. Qed.

Create HintDb typed.
#[export] Hint Resolve hash_typed list_typed set_typed zset_typed typed_ret typed_throw typed_get typed_mget : typed.

(** ** Commands *)

Ltac typed_write := eapply typed_write; [eassumption|auto with typed].
Ltac typed_cmd :=
  repeat first
    [ progress auto with typed
    | apply typed_view; intros ?
    | apply typed_bind; [|intros ?]
    | typed_write
    | match goal with
      | |- typed (if ?b then _ else _) => destruct b
      | |- typed (match ?x with _ => _ end) => destruct x
      end ].

Section commands.
Context (k : string).

Lemma typed_hset kvs : kty THash k → typed (cmd_hset k kvs).
Proof. intros Hk. unfold cmd_hset. typed_cmd. Qed.
Lemma typed_hdel f : kty THash k → typed (cmd_hdel k f).
Proof. intros Hk. unfold cmd_hdel. typed_cmd. Qed.
Lemma typed_hincrby f n : kty THash k → typed (cmd_hincrby k f n).
Proof. intros Hk. unfold cmd_hincrby. typed_cmd. Qed.
Lemma typed_rpush vs : kty TList k → typed (cmd_rpush k vs).
Proof. intros Hk. unfold cmd_rpush. typed_cmd. Qed.
Lemma typed_lpush v : kty TList k → typed (cmd_lpush k v).
Proof. intros Hk. unfold cmd_lpush. typed_cmd. Qed.
(** Removing an element needs no type: a key that holds a list is the key of
    one. *)
Lemma typed_lrem1 v : typed (cmd_lrem1 k v).
Proof.
  intros s Hs. unfold cmd_lrem1, with_view. destruct (db s !! k) as [x|] eqn:E; cbn [as_list].
  2: { by rewrite decide_False by apply not_elem_of_nil. }
  destruct x as [|l| | |]; try done. case_decide; [|done]. cbn. apply (wt_write TList); [done| |apply list_typed].
  intros rk Hrk <-. specialize (Hs rk Hrk). rewrite E in Hs. destruct (key_type rk); cbn in Hs; try done; by destruct Hs.
Qed.
(** So does trimming one and taking members out of a sorted set. *)
Lemma holds_kty t s x : wt s → db s !! k = Some x → (∀ t', has_type t' (Some x) → t' = t) → kty t k.
Proof. intros Hs E Ht rk Hrk <-. apply Ht. rewrite <-E. by apply Hs. Qed.
Lemma wt_none s : wt s → wt (upd k None s).
Proof.
  intros Hs rk Hrk. destruct (decide (k = render_key rk)) as [->|Hne]; [rewrite lookup_upd_eq; apply has_type_None|].
  rewrite lookup_upd_ne by done. by apply Hs.
Qed.
Lemma typed_ltrim_any a b : typed (cmd_ltrim k a b).
Proof.
  intros s Hs. unfold cmd_ltrim, with_view. destruct (db s !! k) as [x|] eqn:E; cbn [as_list].
  2: { assert (ltrim a b [] = []) as -> by (unfold ltrim; repeat case_decide; by rewrite ?drop_nil, ?take_nil).
       exact (wt_none s Hs). }
  destruct x as [|l| | |]; try done. apply (wt_write TList); [done| |apply list_typed].
  eapply holds_kty; [done..|]. intros []; cbn; by intros [].
Qed.
Lemma typed_zrem_any ms : typed (cmd_zrem_all k ms).
Proof.
  intros s Hs. unfold cmd_zrem_all, with_view. destruct (db s !! k) as [x|] eqn:E; cbn [as_zset].
  2: exact (wt_none s Hs).
  destruct x as [| | | |z]; try done. apply (wt_write TZSet); [done| |apply zset_typed].
  eapply holds_kty; [done..|]. intros []; cbn; by intros [].
Qed.
Lemma typed_lrem0 v : kty TList k → typed (cmd_lrem0 k v).
Proof. intros Hk. unfold cmd_lrem0. typed_cmd. Qed.
Lemma typed_ltrim a b : kty TList k → typed (cmd_ltrim k a b).
Proof. intros Hk. unfold cmd_ltrim. typed_cmd. Qed.
Lemma typed_sadd v : kty TSet k → typed (cmd_sadd k v).
Proof. intros Hk. unfold cmd_sadd. typed_cmd. Qed.
Lemma typed_srem v : kty TSet k → typed (cmd_srem k v).
Proof. intros Hk. unfold cmd_srem. typed_cmd. Qed.
Lemma typed_zadd sc m : kty TZSet k → typed (cmd_zadd k sc m).
Proof. intros Hk. unfold cmd_zadd. typed_cmd. Qed.
Lemma typed_zrem m : kty TZSet k → typed (cmd_zrem k m).
Proof. intros Hk. unfold cmd_zrem. typed_cmd. Qed.
Lemma typed_rpoplpush dst : kty TList k → kty TList dst → typed (cmd_rpoplpush k dst).
Proof. intros Hk Hd. unfold cmd_rpoplpush, cmd_lpush. typed_cmd. Qed.

Lemma str_write (v : string) (f : store → gmap string Z) : kty TStr k → typed (modify (λ s, {| db := <[k := VStr v]> (db s); expires := f s |})).
Proof.
  intros Hk s Hs rk Hrk. cbn. destruct (decide (k = render_key rk)) as [->|Hne].
  - rewrite lookup_insert_eq, (Hk rk) by done. by eexists.
  - rewrite lookup_insert_ne by done. by apply Hs.
Qed.
Lemma typed_set_ttl rnow v ttl : kty TStr k → typed (cmd_set_ttl rnow k v ttl).
Proof. apply str_write. Qed.
Lemma typed_saddn v : kty TSet k → typed (cmd_saddn k v).
Proof. intros Hk. unfold cmd_saddn. typed_cmd. Qed.
Lemma typed_set v : kty TStr k → typed (cmd_set k v).
Proof. apply str_write. Qed.
Lemma typed_set_px_nx now v ms : kty TStr k → typed (cmd_set_px_nx now k v ms).
Proof.
  intros Hk s Hs. unfold cmd_set_px_nx. destruct (db s !! k); [done|].
  exact (str_write v (λ s, <[k := now + ms]> (expires s)) Hk s Hs).
Qed.
Lemma typed_decr : kty TStr k → typed (cmd_decr k).
Proof.
  intros Hk. unfold cmd_decr. apply typed_view. intros o. destruct (string2ll _); [|apply typed_throw].
  case_decide; [|apply typed_throw]. apply typed_bind; [|intros; apply typed_ret].
  exact (str_write (itoa (z - 1)) (λ s, expires s) Hk).
Qed.
Lemma typed_pexpire now ms : typed (cmd_pexpire now k ms).
Proof. unfold cmd_pexpire. destruct (string2ll ms); [|apply typed_throw]. apply typed_same. intros s. by case_decide. Qed.
Lemma typed_exists : typed (cmd_exists k).
Proof. by apply typed_same. Qed.
End commands.

Lemma typed_del ks : typed (cmd_del ks).
Proof.
  intros s Hs rk Hrk. unfold cmd_del, modify. cbn [snd]. rewrite del_lookup. case_decide; [apply has_type_None|by apply Hs].
Qed.
Lemma typed_cmd_mget ks : typed (cmd_mget ks).
Proof. by apply typed_same. Qed.

(** ** Scripts *)

(** The keys of a script: some of fixed types, and then blocks of keys, one
    block for each entry of a batch. *)
Definition shape (fixed block : list ktype) (keys : list string) : Prop :=
  ∃ ks blocks, keys = ks ++ concat blocks ∧ Forall2 kty fixed ks ∧ Forall (Forall2 kty block) blocks.

Lemma kty_empty t : kty t "".
Proof. intros rk _ E. exfalso. revert E. rewrite render_full_parts. unfold Key. by destruct (full_parts rk). Qed.

Lemma nth_kty ts ks i t : Forall2 kty ts ks → ts !! i = Some t → kty t (nth i ks "").
Proof. intros H Ht. destruct (Forall2_lookup_l _ _ _ _ _ H Ht) as (k & Hk & ?). by rewrite (nth_lookup_Some _ _ _ _ Hk). Qed.

Lemma shape_fixed fixed block keys n t :
  shape fixed block keys → fixed !! (n - 1)%nat = Some t → kty t (arg keys n).
Proof.
  intros (ks & blocks & -> & Hf & _) Ht. unfold arg. assert (n - 1 < length ks)%nat as Hl.
  { rewrite <-(Forall2_length _ _ _ Hf). by eapply lookup_lt_Some. }
  rewrite app_nth1 by done. by eapply nth_kty.
Qed.

Lemma nth_kty_block block blocks i j t :
  Forall (Forall2 kty block) blocks → block !! j = Some t → kty t (nth (length block * i + j) (concat blocks) "").
Proof.
  intros Hb Ht. pose proof (lookup_lt_Some _ _ _ Ht) as Hj. revert i. induction blocks as [|b blocks IH]; intros i.
  { cbn [concat]. destruct (_ + _)%nat; apply kty_empty. }
  apply Forall_cons in Hb as [Hb Hbs]. pose proof (Forall2_length _ _ _ Hb) as Hl. cbn [concat]. destruct i as [|i].
  - rewrite app_nth1 by lia. rewrite Nat.mul_0_r. by eapply nth_kty.
  - rewrite app_nth2 by lia. replace (length block * S i + j - length b)%nat with (length block * i + j)%nat by lia. by apply IH.
Qed.

Lemma shape_block fixed block keys n i j t :
  shape fixed block keys → block !! j = Some t → n = (length fixed + 1 + length block * i + j)%nat → kty t (arg keys n).
Proof.
  intros (ks & blocks & -> & Hf & Hb) Ht ->. unfold arg. pose proof (Forall2_length _ _ _ Hf) as Hl.
  rewrite app_nth2 by lia. replace (_ - 1 - length ks)%nat with (length block * i + j)%nat by lia. by eapply nth_kty_block.
Qed.

(** Finds the type of a key of a script. *)
Ltac kty_auto :=
  first
    [ eassumption
    | match goal with
      | H : shape _ _ ?keys |- kty _ (arg ?keys _) => eapply (shape_fixed _ _ _ _ _ H); reflexivity
      | H : shape _ _ ?keys, i : nat |- kty _ (arg ?keys _) =>
          first [ apply (shape_block _ _ _ _ i 0 _ H); [reflexivity|cbn [length]; lia]
                | apply (shape_block _ _ _ _ i 1 _ H); [reflexivity|cbn [length]; lia]
                | apply (shape_block _ _ _ _ i 2 _ H); [reflexivity|cbn [length]; lia]
                | apply (shape_block _ _ _ _ (i - 1) 0 _ H); [reflexivity|cbn [length]; lia] ]
      end ].

(** Walks a script command by command. *)
Ltac typed_step :=
  match goal with
  | |- typed (mret _) => apply typed_ret
  | |- typed (throw _) => apply typed_throw
  | |- typed (_ ≫= _) => apply typed_bind; [|intros ?]
  | |- typed (when _ _) => apply typed_when
  | |- typed (cmd_exists _) => apply typed_exists
  | |- typed (cmd_pexpire _ _ _) => apply typed_pexpire
  | |- typed (cmd_del _) => apply typed_del
  | |- typed (cmd_mget _) => apply typed_cmd_mget
  | |- typed (cmd_hset _ _) => apply typed_hset; kty_auto
  | |- typed (cmd_hdel _ _) => apply typed_hdel; kty_auto
  | |- typed (cmd_hincrby _ _ _) => apply typed_hincrby; kty_auto
  | |- typed (cmd_rpush _ _) => apply typed_rpush; kty_auto
  | |- typed (cmd_lpush _ _) => apply typed_lpush; kty_auto
  | |- typed (cmd_lrem1 _ _) => apply typed_lrem1
  | |- typed (cmd_lrem0 _ _) => apply typed_lrem0; kty_auto
  | |- typed (cmd_ltrim _ _ _) => apply typed_ltrim; kty_auto
  | |- typed (cmd_sadd _ _) => apply typed_sadd; kty_auto
  | |- typed (cmd_srem _ _) => apply typed_srem; kty_auto
  | |- typed (cmd_zadd _ _ _) => apply typed_zadd; kty_auto
  | |- typed (cmd_zrem _ _) => apply typed_zrem; kty_auto
  | |- typed (cmd_set _ _) => apply typed_set; kty_auto
  | |- typed (cmd_decr _) => apply typed_decr; kty_auto
  | |- typed (cmd_set_px_nx _ _ _ _) => apply typed_set_px_nx; kty_auto
  | |- typed (cmd_hget _ _) => apply typed_get
  | |- typed (cmd_hmget _ _) => apply typed_get
  | |- typed (cmd_hgetall _) => apply typed_mget
  | |- typed (cmd_hexists _ _) => apply typed_get
  | |- typed (cmd_hkeys _) => apply typed_get
  | |- typed (cmd_llen _) => apply typed_get
  | |- typed (cmd_sismember _ _) => apply typed_get
  | |- typed (cmd_scard _) => apply typed_get
  | |- typed (cmd_zcard _) => apply typed_get
  | |- typed (cmd_zrange00 _) => apply typed_get
  | |- typed (cmd_get _) => apply typed_mget
  | |- typed (if ?b then _ else _) => destruct b
  | |- typed (match ?x with _ => _ end) => destruct x
  end.
Ltac typed_auto := repeat (cbv beta zeta; typed_step).

Lemma typed_store_audit rnow k ids e size : kty TList k → typed (store_audit rnow k ids e size).
Proof. intros Hk. unfold store_audit, cmd_ltrim_text. typed_auto. Qed.
Lemma typed_retry_enqueue n ty kg kd km kp kpp id pr g :
  kty TList kd → kty THash km → kty TList kp → kty TZSet kpp → typed (retry_enqueue n ty kg kd km kp kpp id pr g).
Proof. intros ????. unfold retry_enqueue. typed_auto. Qed.

Lemma typed_publish_message_at k1 k2 k3 k4 k5 k6 k7 args :
  kty THash k1 → kty TZSet k2 → kty TList k3 → kty TZSet k4 → kty TList k5 → kty THash k7 →
  typed (publish_message [k1; k2; k3; k4; k5; k6; k7] args).
Proof. intros ??????. unfold publish_message. cbn [arg nth Nat.sub]. typed_auto. Qed.

Section scripts.
Context (keys args : list string).

Lemma typed_publish_message : shape [THash; TZSet; TList; TZSet; TList; TSet; THash] [] keys → typed (publish_message keys args).
Proof. intros H. unfold publish_message. typed_auto. Qed.
Lemma typed_checkout_message : shape [THash; THash] [] keys → typed (checkout_message keys args).
Proof. intros H. unfold checkout_message. typed_auto. Qed.
Lemma typed_zpoplpush : shape [TZSet; TList] [] keys → typed (zpoplpush keys).
Proof. intros H. unfold zpoplpush. typed_auto. Qed.
Lemma typed_check_queue_rate_limit rnow : shape [TStr] [] keys → typed (check_queue_rate_limit rnow keys args).
Proof. intros H. unfold check_queue_rate_limit. typed_auto. Qed.

Lemma typed_ack_turn acc i : (1 ≤ i)%nat → shape [TList; TList; THash] [THash] keys → typed (ack_turn keys args acc i).
Proof. intros Hi H. unfold ack_turn. typed_auto. Qed.
Lemma typed_acknowledge_message rnow : shape [TList; TList; THash] [THash] keys → typed (acknowledge_message rnow keys args).
Proof.
  intros H. unfold acknowledge_message. typed_auto.
  - apply typed_foldM. intros acc i Hi. apply typed_ack_turn; [|done]. apply elem_of_seq in Hi. lia.
  - apply typed_store_audit. kty_auto.
Qed.

Lemma typed_unack_turn rnow acc i : shape [TList; TList; THash] [TList; THash; TList] keys → typed (unack_turn rnow keys args acc i).
Proof. intros H. unfold unack_turn, unack_route, unack_history. typed_auto. apply typed_store_audit. kty_auto. Qed.
Lemma typed_unacknowledge_message rnow :
  shape [TList; TList; THash] [TList; THash; TList] keys → typed (unacknowledge_message rnow keys args).
Proof. intros H. unfold unacknowledge_message. typed_auto. apply typed_foldM. intros acc i _. by apply typed_unack_turn. Qed.

Lemma typed_immediate_turn ty acc i :
  shape [THash; TList; TZSet; TList; TSet] [THash; TList; TZSet] keys → typed (immediate_turn keys args ty acc i).
Proof. intros H. unfold immediate_turn. typed_auto. apply typed_retry_enqueue; kty_auto. Qed.
Lemma typed_requeue_immediate :
  shape [THash; TList; TZSet; TList; TSet] [THash; TList; TZSet] keys → typed (requeue_immediate keys args).
Proof. intros H. unfold requeue_immediate, immediate_counters. typed_auto. apply typed_foldM. intros acc i _. by apply typed_immediate_turn. Qed.
Lemma typed_delayed_turn ty acc i :
  shape [THash; TZSet; TList; TSet] [THash; TList; TZSet] keys → typed (delayed_turn keys args ty acc i).
Proof. intros H. unfold delayed_turn. typed_auto. apply typed_retry_enqueue; kty_auto. Qed.
Lemma typed_requeue_delayed : shape [THash; TZSet; TList; TSet] [THash; TList; TZSet] keys → typed (requeue_delayed keys args).
Proof. intros H. unfold requeue_delayed, delayed_counters. typed_auto. apply typed_foldM. intros acc i _. by apply typed_delayed_turn. Qed.

Lemma typed_scheduled_turn ty n i :
  shape [THash; TList; TList; TZSet; TZSet; TList; TSet] [THash; THash] keys → typed (scheduled_turn keys args ty n i).
Proof.
  intros H. unfold scheduled_turn.
  assert (kty THash (arg keys (8 + 2 * i)) ∧ kty THash (arg keys (9 + 2 * i))) as [H1 H2] by (split; kty_auto).
  unfold fire_simple, fire_repeat. typed_auto. apply typed_publish_message_at; kty_auto.
Qed.
Lemma typed_publish_scheduled :
  shape [THash; TList; TList; TZSet; TZSet; TList; TSet] [THash; THash] keys → typed (publish_scheduled keys args).
Proof. intros H. unfold publish_scheduled. typed_auto. apply typed_loopM. intros b i. by apply typed_scheduled_turn. Qed.

Lemma typed_delete_turn ty acc i :
  shape [THash; TList; TList; TZSet; TZSet; TList; TList; TZSet; TList] [THash; TList] keys → typed (delete_turn keys args ty acc i).
Proof. intros H. unfold delete_turn, delete_from. typed_auto. Qed.
Lemma typed_delete_message :
  shape [THash; TList; TList; TZSet; TZSet; TList; TList; TZSet; TList] [THash; TList] keys → typed (delete_message keys args).
Proof. intros H. unfold delete_message. typed_auto. apply typed_foldM. intros acc i _. by apply typed_delete_turn. Qed.

Lemma typed_requeue_turn n i :
  shape [THash; TZSet; TList; TList; TZSet; TSet] [THash; THash] keys → typed (requeue_turn keys args n i).
Proof.
  intros H. unfold requeue_turn.
  assert (kty THash (arg keys (7 + 2 * i)) ∧ kty THash (arg keys (8 + 2 * i))) as [H1 H2] by (split; kty_auto).
  typed_auto. apply typed_publish_message_at; kty_auto.
Qed.
Lemma typed_requeue_message : shape [THash; TZSet; TList; TList; TZSet; TSet] [THash; THash] keys → typed (requeue_message keys args).
Proof. intros H. unfold requeue_message. typed_auto. apply typed_loopM. intros b i. by apply typed_requeue_turn. Qed.

Lemma typed_set_queue_state : shape [THash; TList] [] keys → typed (set_queue_state keys args).
Proof. intros H. unfold set_queue_state. typed_auto. Qed.
Lemma typed_create_queue : shape [TSet; TSet; TSet; THash; TList] [] keys → typed (create_queue keys args).
Proof. intros H. unfold create_queue. typed_auto. Qed.
Lemma typed_delete_queue : kty TSet (arg keys 1) → kty TSet (arg keys 2) → typed (delete_queue keys args).
Proof. intros H1 H2. unfold delete_queue. typed_auto. Qed.
Lemma typed_delete_consumer_group : shape [TSet; TList; TZSet; THash; TSet] [] keys → typed (delete_consumer_group keys args).
Proof. intros H. unfold delete_consumer_group. typed_auto. Qed.
Lemma typed_set_queue_rate_limit : shape [THash] [] keys → typed (set_queue_rate_limit keys args).
Proof. intros H. unfold set_queue_rate_limit, unless_locked. typed_auto. Qed.
Lemma typed_clear_queue_rate_limit : shape [THash; TStr] [] keys → typed (clear_queue_rate_limit keys args).
Proof. intros H. unfold clear_queue_rate_limit, unless_locked. typed_auto. Qed.
Lemma typed_subscribe_consumer : shape [THash; THash; TSet; THash; TList] [TSet] keys → typed (subscribe_consumer keys args).
Proof.
  intros H. assert (kty TSet (arg keys 6)) by by apply (shape_block _ _ _ _ 0 0 _ H).
  unfold subscribe_consumer, if_group. typed_auto.
Qed.
Lemma typed_unsubscribe_consumer : shape [THash; THash; TSet; THash; TList] [TSet] keys → typed (unsubscribe_consumer keys args).
Proof.
  intros H. assert (kty TSet (arg keys 6)) by by apply (shape_block _ _ _ _ 0 0 _ H).
  unfold unsubscribe_consumer, if_group. typed_auto.
Qed.
Lemma typed_save_config : shape [THash] [] keys → typed (save_config keys args).
Proof. intros H. unfold save_config. typed_auto. Qed.

Lemma typed_create_job : shape [THash; TList] [] keys → typed (create_job keys args).
Proof. intros H. unfold create_job. typed_auto. Qed.
Lemma typed_start_job : shape [THash; TList; TStr] [] keys → typed (start_job keys args).
Proof. intros H. unfold start_job, current_status. typed_auto. Qed.
Lemma typed_complete_job : shape [THash; TList; TStr] [] keys → typed (complete_job keys args).
Proof. intros H. unfold complete_job, current_status, drop_processing. typed_auto. Qed.
Lemma typed_fail_job : shape [THash; TList; TStr] [] keys → typed (fail_job keys args).
Proof. intros H. unfold fail_job, current_status, drop_processing. typed_auto. Qed.
Lemma typed_cancel_job : shape [THash; TList; TList; TStr] [] keys → typed (cancel_job keys args).
Proof. intros H. unfold cancel_job, current_status, drop_processing. typed_auto. Qed.
Lemma typed_recover_stuck_job : shape [THash; TList; TList; TStr] [] keys → typed (recover_stuck_job keys args).
Proof. intros H. unfold recover_stuck_job, current_status, drop_processing. typed_auto. Qed.
Lemma typed_extend_lock rnow : typed (extend_lock rnow keys args).
Proof. unfold extend_lock. typed_auto. Qed.
Lemma typed_release_lock : typed (release_lock keys args).
Proof. unfold release_lock. typed_auto. Qed.
End scripts.

(** ** Every operation *)

Lemma shape_keys fixed ks : Forall2 kty fixed ks → shape fixed [] ks.
Proof. intros H. exists ks, []. split; [by rewrite app_nil_r|]. split; [done|constructor]. Qed.
Lemma shape_bind {X} fixed block ks (f : X → list string) l :
  Forall2 kty fixed ks → Forall (λ x, Forall2 kty block (f x)) l → shape fixed block (ks ++ (l ≫= f)).
Proof.
  intros H Hl. exists ks, (f <$> l). split; [|split; [done|by apply Forall_fmap]]. f_equal. induction l as [|x l IH]; [done|].
  apply Forall_cons in Hl as [_ Hl]. cbn. by rewrite <-IH.
Qed.
Lemma shape_map {X} fixed t ks (f : X → string) l :
  Forall2 kty fixed ks → Forall (λ x, kty t (f x)) l → shape fixed [t] (ks ++ (f <$> l)).
Proof.
  intros H Hl. assert (f <$> l = l ≫= λ x, [f x]) as -> by (clear; induction l as [|x l IH]; [done|cbn; by rewrite <-IH]).
  apply shape_bind; [done|]. eapply Forall_impl; [exact Hl|]. intros x Hx. by repeat constructor.
Qed.

(** The type of a key written with the builders. *)
Ltac kty_key :=
  repeat match goal with |- kty _ (if ?b then _ else _) => destruct b end;
  lazymatch goal with
  | |- kty _ "" => apply kty_empty
  | |- kty _ ?k => let r := reify_key k in apply (kty_key r); [wf_parts|reflexivity]
  end.
Ltac kty_keys := repeat (apply Forall2_cons; split); try apply Forall2_nil_2; kty_key.

Definition erase {A} (m : M A) : M unit := _ ← m; mret tt.

(** A message whose identifiers can be parts of keys. *)
Definition message_ok (e : Envelope) : Prop := no_colon (ID e) = true ∧ no_colon (consumerGroupID e) = true.

(** Every script, with the keys the Go code builds and any arguments. *)
Inductive operation : M unit → Prop :=
| op_publish q e args : wf_queue q → message_ok e → operation (erase (publish_message (publish_keys q e) args))
| op_checkout q id args : wf_queue q → no_colon id = true → operation (erase (checkout_message (checkout_keys q id) args))
| op_rate_limit rnow q args : wf_queue q → operation (erase (check_queue_rate_limit rnow [RateLimit q] args))
| op_acknowledge rnow q c ids args : wf_queue q → no_colon c = true → Forall (λ id, no_colon id = true) ids →
    operation (erase (acknowledge_message rnow (ack_keys q c ids) args))
| op_unacknowledge rnow q c entries args : wf_queue q → no_colon c = true →
    Forall (λ e, no_colon (unack_entry_id e) = true) entries →
    operation (erase (unacknowledge_message rnow (unack_keys q c entries) args))
| op_requeue_immediate q es args : wf_queue q → Forall message_ok es → operation (erase (requeue_immediate (immediate_keys q es) args))
| op_requeue_delayed q es args : wf_queue q → Forall message_ok es → operation (erase (requeue_delayed (delayed_keys q es) args))
| op_publish_scheduled q g fs args : wf_queue q → no_colon g = true →
    Forall (λ f, no_colon (ID (f_msg f)) = true ∧ ∀ c, f_clone f = Some c → no_colon (ID c) = true) fs →
    operation (erase (publish_scheduled (scheduled_keys q g fs) args))
| op_delete_messages q g ids args : wf_queue q → no_colon g = true → Forall (λ id, no_colon id = true) ids →
    operation (erase (delete_message (del_keys q g ids) args))
| op_requeue_message q g id newID args : wf_queue q → no_colon g = true → no_colon id = true → no_colon newID = true →
    operation (erase (requeue_message (requeue_keys q g id newID) args))
| op_set_state q args : wf_queue q → operation (erase (set_queue_state (state_keys q) args))
| op_create_queue q args : wf_queue (queue_keys_of q) → operation (erase (create_queue (create_keys q) args))
| op_delete_queue q reads args : wf_queue (queue_keys_of q) → operation (erase (delete_queue (delete_keys q reads) args))
| op_delete_group q g args : wf_queue (queue_keys_of q) → no_colon g = true → operation (erase (delete_consumer_group (group_keys q g) args))
| op_delete_own_group q g args : wf_queue (queue_keys_of q) → no_colon g = true →
    operation (erase (delete_consumer_group (ephemeral_keys q g) args))
| op_set_rate_limit q args : wf_queue q → operation (erase (set_queue_rate_limit [Properties q] args))
| op_clear_rate_limit q args : wf_queue q → operation (erase (clear_queue_rate_limit [Properties q; RateLimit q] args))
| op_subscribe q c g args : wf_queue (queue_keys_of q) → no_colon c = true → no_colon g = true →
    operation (erase (subscribe_consumer (consumer_keys q c g) args))
| op_unsubscribe q c g args : wf_queue (queue_keys_of q) → no_colon c = true → no_colon g = true →
    operation (erase (unsubscribe_consumer (consumer_keys q c g) args))
| op_save_config args : operation (erase (save_config [Config] args))
| op_create_job args : operation (erase (create_job [PurgeJobs; PendingPurgeJobs] args))
| op_start_job id args : no_colon id = true → operation (erase (start_job [PurgeJobs; ActivePurgeJobs; JobWorker id] args))
| op_complete_job id args : no_colon id = true → operation (erase (complete_job [PurgeJobs; ActivePurgeJobs; JobWorker id] args))
| op_fail_job id args : no_colon id = true → operation (erase (fail_job [PurgeJobs; ActivePurgeJobs; JobWorker id] args))
| op_cancel_job id args : no_colon id = true →
    operation (erase (cancel_job [PurgeJobs; PendingPurgeJobs; ActivePurgeJobs; JobWorker id] args))
| op_recover_job id args : no_colon id = true →
    operation (erase (recover_stuck_job [PurgeJobs; PendingPurgeJobs; ActivePurgeJobs; JobWorker id] args))
| op_extend_lock rnow keys args : operation (erase (extend_lock rnow keys args))
| op_release_lock keys args : operation (erase (release_lock keys args)).

(** Every request that writes without a script (and the pop of a message, one
    or the other), each with the function of the Go code it is made in; where
    that function reads first, what it read is any earlier state. *)
Inductive request : (store → store) → Prop :=
(* dequeue_message.go, pop: RPOPLPUSH, BRPOPLPUSH or the script. *)
| rq_pop d : wf_queue (d_key d) → no_colon (d_groupID d) = true → no_colon (d_consumerID d) = true →
    request (λ s, (pop d s).2)
(* heartbeat.go, beat and Stop; consumer.go, register and unregister. *)
| rq_beat now rnow h : no_colon (hb_id h) = true → request (beat now rnow h)
| rq_stop h : request (hb_Stop h)
| rq_register rnow c ttl : no_colon c = true → request (register rnow c ttl)
| rq_unregister c : request (unregister c)
(* message_handler.go, the lock of the workers; lock.go, tryAcquire. *)
| rq_acquire rnow backoff q c l : wf_queue (queue_keys_of q) → l_key l = l_key (Handling.new_workerLock backoff q c) →
    request (λ s, (Acquire1 rnow l s).2)
(* prepare_group.go, createConsumerGroup; consumer_group.go, Save. *)
| rq_create_group q g : wf_queue (queue_keys_of q) → request (λ s, (createConsumerGroup q g s).2)
| rq_save_group q g : wf_queue (queue_keys_of q) → request (λ s, (SaveGroup q g s).2)
(* purge_helpers.go, trimCategory, whose TYPE and ZRANGE are requests of their own. *)
| rq_trim key count : request (λ s, (trimCategory key count s).2)
| rq_ltrim key count : request (λ s, (cmd_ltrim key count (-1) s).2)
| rq_zrem key members : request (λ s, (cmd_zrem_all key members s).2)
(* purge_job_store.go, Save; purge_worker.go, acquire and heartbeatLoop. *)
| rq_save_job now job : request (λ s, (SaveJob now job s).2.2)
| rq_acquire_job : request (λ s, (acquire s).2)
| rq_worker w now : no_colon w = true → request (heartbeat w now)
(* config/manager.go, the second command of persistLocked and of loadOrCreateLocked. *)
| rq_epoch e : request (λ s, (write_epoch e s).2)
(* exchange/store.go, direct.go, topic.go and fanout.go: a transaction that read in [s0]. *)
| rq_transaction o s0 cmds : op_ok o → (op_tx o s0).1 = Ret (inr cmds) → request (λ s, (exec_all cmds s).2)
(* exchange/store.go, Delete: a pipeline is no transaction. *)
| rq_pipe x m : exchange_ok x → m ∈ delete_pipe x → request (λ s, (m s).2)
(* namespace/manager.go, Delete. *)
| rq_namespace name : request (λ s, (remove_namespace name s).2).

Lemma typed_erase {A} (m : M A) : typed m → typed (erase m).
Proof. intros H. apply typed_bind; [done|]. intros. apply typed_ret. Qed.

Lemma consumer_shape q c g : wf_queue (queue_keys_of q) → no_colon c = true → no_colon g = true →
  shape [THash; THash; TSet; THash; TList] [TSet] (consumer_keys q c g).
Proof.
  intros Hq Hc Hg. unfold consumer_keys. exists [Properties (queue_keys_of q); Consumers (queue_keys_of q); ConsumerQueues c;
    ProcessingQueues (queue_keys_of q); ConsumerProcessing (queue_keys_of q) c].
  destruct (decide (g ≠ "")).
  - exists [[ConsumerGroupMembers (queue_keys_of q) g]]. split; [done|]. split; [kty_keys|]. apply Forall_singleton. kty_keys.
  - exists []. split; [done|]. split; [kty_keys|constructor].
Qed.

Lemma operation_typed m : operation m → typed m.
Proof.
  intros [].
  - destruct H0. apply typed_erase, typed_publish_message, shape_keys. kty_keys.
  - apply typed_erase, typed_checkout_message, shape_keys. kty_keys.
  - apply typed_erase, typed_check_queue_rate_limit, shape_keys. kty_keys.
  - apply typed_erase, typed_acknowledge_message, shape_map; [kty_keys|]. eapply Forall_impl; [exact H1|]. intros id Hid. kty_key.
  - apply typed_erase, typed_unacknowledge_message, shape_bind; [kty_keys|]. eapply Forall_impl; [exact H1|]. intros id Hid. kty_keys.
  - apply typed_erase, typed_requeue_immediate, shape_bind; [kty_keys|]. eapply Forall_impl; [exact H0|]. intros e []. unfold retry_keys. kty_keys.
  - apply typed_erase, typed_requeue_delayed, shape_bind; [kty_keys|]. eapply Forall_impl; [exact H0|]. intros e []. unfold retry_keys. kty_keys.
  - apply typed_erase, typed_publish_scheduled, shape_bind; [kty_keys|]. eapply Forall_impl; [exact H1|]. intros f [Hf Hc].
    destruct (f_clone f) as [c|]; [specialize (Hc c eq_refl)|]; kty_keys.
  - apply typed_erase, typed_delete_message, shape_bind; [kty_keys|]. eapply Forall_impl; [exact H1|]. intros id Hid. kty_keys.
  - apply typed_erase, typed_requeue_message. exists (take 6 (requeue_keys q g id newID)), [drop 6 (requeue_keys q g id newID)].
    split; [done|]. split; [cbn [take requeue_keys]; kty_keys|]. apply Forall_singleton. cbn [drop requeue_keys]. kty_keys.
  - apply typed_erase, typed_set_queue_state, shape_keys. unfold state_keys. kty_keys.
  - apply typed_erase, typed_create_queue, shape_keys. pose proof (wf_queue_ns _ H : no_colon (q_ns q) = true). unfold create_keys. kty_keys.
  - apply typed_erase, typed_delete_queue; pose proof (wf_queue_ns _ H : no_colon (q_ns q) = true); cbn [arg nth Nat.sub delete_keys app]; kty_key.
  - apply typed_erase, typed_delete_consumer_group, shape_keys. unfold group_keys. kty_keys.
  - apply typed_erase, typed_delete_consumer_group, shape_keys. unfold ephemeral_keys. kty_keys.
  - apply typed_erase, typed_set_queue_rate_limit, shape_keys. kty_keys.
  - apply typed_erase, typed_clear_queue_rate_limit, shape_keys. kty_keys.
  - apply typed_erase, typed_subscribe_consumer. apply consumer_shape; done.
  - apply typed_erase, typed_unsubscribe_consumer. apply consumer_shape; done.
  - apply typed_erase, typed_save_config, shape_keys. kty_keys.
  - apply typed_erase, typed_create_job, shape_keys. kty_keys.
  - apply typed_erase, typed_start_job, shape_keys. kty_keys.
  - apply typed_erase, typed_complete_job, shape_keys. kty_keys.
  - apply typed_erase, typed_fail_job, shape_keys. kty_keys.
  - apply typed_erase, typed_cancel_job, shape_keys. kty_keys.
  - apply typed_erase, typed_recover_stuck_job, shape_keys. kty_keys.
  - apply typed_erase, typed_extend_lock.
  - apply typed_erase, typed_release_lock.
Qed.

Lemma typed_exec cmds : Forall typed cmds → ∀ s, wt s → wt (exec_all cmds s).2.
Proof.
  induction 1 as [|m cmds Hm _ IH]; intros s Hs; [done|]. cbn [exec_all]. specialize (Hm s Hs).
  destruct (m s) as [[|] s1]; by apply IH.
Qed.

Lemma labels_kty k X : wf_exchange X → kty TSet (render_key (labels_of k X)).
Proof. intros H. by apply kty_key; apply labels_of_ok. Qed.
Lemma queues_kty k X l : wf_exchange X → no_colon l = true → kty TSet (render_key (queues_of k X l)).
Proof. intros H Hl. by apply kty_key; apply queues_of_ok. Qed.

Lemma planned_typed s0 o l : op_ok o → planned s0 s0 o l → Forall typed (srun <$> l).
Proof.
  intros Ho Hp. assert (∀ (ls : list string) (f : string → redis_key), Forall typed (srun <$> ((λ l, SDel (f l)) <$> ls))) as Hdel.
  { intros ls f. induction ls; constructor; [apply typed_del|done]. }
  assert (∀ q x, queue_ok q → Forall typed (srun <$> [SAdd (KExchangeBindings (queue_keys_of q)) (encode_exchange x)])) as Hb.
  { intros q x [Hq _]. repeat constructor. cbn [srun render_key]. apply typed_sadd. kty_key. }
  assert (∀ x fs, exchange_ok x → Forall typed (srun <$> register_cmds x fs)) as Hreg.
  { intros x fs ([H1 H2] & _). cbn in H1, H2. unfold register_cmds. repeat constructor; cbn [srun render_key];
      [apply typed_hset|apply typed_sadd|apply typed_sadd]; kty_key. }
  assert (∀ x k, exchange_ok x → Forall typed (srun <$> unregister_cmds x k)) as Hun.
  { intros x k ([H1 H2] & _). cbn in H1, H2. unfold unregister_cmds. repeat constructor; cbn [srun render_key];
      [apply typed_del|apply typed_del|apply typed_del|apply typed_srem|apply typed_srem]; kty_key. }
  destruct Hp; cbn [op_ok] in Ho; unfold bind_cmds; rewrite ?fmap_app, ?Forall_app.
  - destruct Ho as ([H1 H2] & _). cbn in H1, H2. repeat constructor; cbn [srun render_key];
      [apply typed_hset|apply typed_sadd|apply typed_sadd|apply typed_sadd]; kty_key.
  - destruct Ho as (Hx & Hq & Hl & _). split_and!; [by apply Hreg| |by apply Hb]. destruct Hx as [Hx _].
    repeat constructor; cbn [srun]; apply typed_sadd; [by apply labels_kty|by apply queues_kty].
  - destruct Ho as (Hx & Hq & Hl & _). destruct Hx as [Hx _]. split_and!.
    + repeat constructor. by apply typed_srem, queues_kty.
    + destruct one; repeat constructor. by apply typed_srem, labels_kty.
    + destruct still; repeat constructor. destruct Hq as [Hq _]. cbn [srun render_key]. apply typed_srem. kty_key.
  - destruct Ho as [Hx _]. split; [by apply Hun|apply Hdel].
  - destruct Ho as (Hx & Hq & _). split_and!; [by apply Hreg| |by apply Hb]. destruct Hx as ([H1 H2] & _). cbn in H1, H2.
    repeat constructor. cbn [srun render_key]. apply typed_sadd. kty_key.
  - destruct Ho as (([H1 H2] & _) & [Hq _] & _). cbn in H1, H2. repeat constructor; cbn [srun render_key]; apply typed_srem; kty_key.
  - destruct Ho as [Hx _]. by apply Hun.
Qed.

Lemma pipe_typed x : exchange_ok x → Forall typed (delete_pipe x).
Proof.
  intros ([H1 H2] & _). cbn in H1, H2. unfold delete_pipe. cbv zeta. apply Forall_app. split.
  - repeat constructor; [apply typed_del|apply typed_del|apply typed_srem; kty_key|apply typed_srem; kty_key].
  - repeat case_decide; repeat constructor; apply typed_del.
Qed.

Lemma request_typed f : request f → ∀ s, wt s → wt (f s).
Proof.
  intros [d Hq Hg Hc|now rnow h Hh|h|rnow c ttl Hc|c|rnow bo q c l Hq Hl|q g Hq|q g Hq|key n|key n|key ms|now job| |w now Hn|e
         |o s0 cmds Ho E|x m Hx Hm|name] s Hs.
  - unfold pop, popPriority, popFIFO. cbv zeta.
    assert (∀ src, kty TZSet src → wt (zpoplpush [src; ConsumerProcessing (d_key d) (d_consumerID d)] s).2) as H1.
    { intros src Hk. apply typed_zpoplpush; [|done]. apply shape_keys. repeat (apply Forall2_cons; split); [done|kty_key|by apply Forall2_nil_2]. }
    assert (∀ src, kty TList src → wt (cmd_rpoplpush src (ConsumerProcessing (d_key d) (d_consumerID d)) s).2) as H2.
    { intros src Hk. apply typed_rpoplpush; [done|kty_key|done]. }
    repeat case_decide;
    match goal with
         | |- context [zpoplpush [?k; _] s] => specialize (H1 k ltac:(kty_key)); destruct (zpoplpush _ s) as [[[]|] ?]; exact H1
         | |- context [cmd_rpoplpush ?k _ s] => specialize (H2 k ltac:(kty_key)); destruct (cmd_rpoplpush _ _ s) as [[[]|] ?]; exact H2
         end.
  - apply typed_set_ttl; [kty_key|done].
  - by apply typed_del.
  - apply typed_set_ttl; [kty_key|done].
  - by apply typed_del.
  - unfold Acquire1, tryAcquire. destruct (l_acquired l); [done|]. rewrite Hl. cbn [Handling.new_workerLock l_key].
    assert (typed (cmd_set_px_nx rnow (WorkersLock (queue_keys_of q)) (l_owner l) (Milliseconds (l_ttl l)))) as H
      by (apply typed_set_px_nx; kty_key).
    specialize (H s Hs). by destruct (cmd_set_px_nx _ _ _ _ s) as [[[]|] ?].
  - unfold createConsumerGroup. assert (typed (cmd_saddn (ConsumerGroups (queue_keys_of q)) g)) as Ht by (apply typed_saddn; kty_key).
    specialize (Ht s Hs). by destruct (cmd_saddn _ _ s) as [[|] ?].
  - unfold SaveGroup. destruct (ValidateKey g); [|done]. destruct (LoadQueue q s) as [[]|]; [done..|]. case_decide; [done|].
    assert (typed (cmd_saddn (ConsumerGroups (queue_keys_of q)) g)) as Ht by (apply typed_saddn; kty_key).
    specialize (Ht s Hs). by destruct (cmd_saddn _ _ s) as [[|] ?].
  - unfold trimCategory. cbv zeta. case_decide.
    { pose proof (typed_ltrim_any key n (-1) s Hs) as H0. by destruct (cmd_ltrim _ _ _ s) as [[|] ?]. }
    case_decide; [|done]. destruct (ltrim _ _ _) as [|x l]; [done|].
    pose proof (typed_zrem_any key (x :: l) s Hs) as H1. by destruct (cmd_zrem_all _ _ s) as [[|] ?].
  - by apply typed_ltrim_any.
  - by apply typed_zrem_any.
  - unfold SaveJob. cbn [snd]. assert (typed (cmd_hset PurgeJobs [(pj_ID (set_UpdatedAt (UnixMilli now) job), mustMarshal (set_UpdatedAt (UnixMilli now) job))])) as H
      by (apply typed_hset; kty_key). specialize (H s Hs). by destruct (cmd_hset _ _ s) as [[|] ?].
  - unfold acquire. assert (typed (cmd_rpoplpush PendingPurgeJobs ActivePurgeJobs)) as H by (apply typed_rpoplpush; kty_key).
    specialize (H s Hs). by destruct (cmd_rpoplpush _ _ s) as [[[]|] ?].
  - apply (str_write (WorkerHeartbeat w) "1" (λ s, <[WorkerHeartbeat w := now + workerHeartbeatTTL]> (expires s))); [kty_key|done].
  - unfold write_epoch. apply typed_hset; [kty_key|done].
  - apply op_tx_planned in E as (l & Hp & ->). apply typed_exec; [|done]. by eapply planned_typed.
  - pose proof (pipe_typed x Hx) as Hp. rewrite Forall_forall in Hp. by apply Hp.
  - unfold remove_namespace. apply typed_srem; [kty_key|done].
Qed.

(** Expiry only takes keys away. *)
Lemma typed_expiry now s : wt s → wt (expire_keys now s).
Proof.
  intros Hw k Hk. cbn. destruct (filter _ (db s) !! render_key k) as [v|] eqn:E; [|apply has_type_None].
  apply map_lookup_filter_Some in E as [E _]. rewrite <-E. by apply Hw.
Qed.

Inductive store_step (s : store) : store → Prop :=
| ss_run m : operation m → store_step s (m s).2
| ss_request f : request f → store_step s (f s)
| ss_expire now : store_step s (expire_keys now s).

(** C5: in every keyspace reached by scripts, called with the keys the Go code
    builds and any arguments, and by the requests the Go code makes without
    scripts, in any order, each key holds a value of the one type its structure
    has, or none; also when scripts and transactions fail half way and when keys
    expire. *)
Theorem keyspace_well_typed s : rtc store_step empty_store s → wt s.
Proof.
  apply (rtc_ind_r wt); [apply wt_empty|]. intros s1 s2 _ [m Hm|f Hf|now] Hw;
    [by apply operation_typed|by apply request_typed|by apply typed_expiry].
Qed.

(** A queue is created, its state set with no arguments at all, and a consumer
    registered. *)
Lemma keyspace_well_typed_witness :
  let s1 := (erase (create_queue (create_keys orders) (create_args 5000000 orders TypeFIFO DeliveryPointToPoint None)) empty_store).2 in
  let s2 := (erase (set_queue_state (state_keys (queue_keys_of orders)) [])) s1 in
  let s3 := register 9000 "c1" (10 * second) s2.2 in
  wt s3 ∧ is_Some (db s3 !! Properties (queue_keys_of orders)) ∧ is_Some (db s3 !! ConsumerHeartbeat "c1").
Proof.
  intros s1 s2 s3. split; [|split; apply (bool_decide_unpack _); vm_compute; exact I].
  apply keyspace_well_typed. apply (rtc_l _ _ s1).
  - apply (ss_run empty_store (erase (create_queue (create_keys orders) (create_args 5000000 orders TypeFIFO DeliveryPointToPoint None)))).
    apply op_create_queue, sample_ok.
  - apply (rtc_l _ _ s2.2).
    + apply (ss_run s1 (erase (set_queue_state (state_keys (queue_keys_of orders)) []))). apply op_set_state, sample_ok.
    + apply rtc_once. apply (ss_request s2.2 (register 9000 "c1" (10 * second))). by apply rq_register.
Defined.
